(* ===== verification/_CoqProject ===== *)
-Q . S2P
Prelude.v
CArray.v
Rqsort.v
CBytes.v
Exchange.v
Utf8.v
CStr.v
DynBuf.v
ListHead.v
CharRange.v
RunTable.v
UnicodeTables.v
UnicodeCase.v
RegexpCanon.v
UnicodeProp.v
UnicodeSetTables.v
UnicodeSets.v
UnicodeSetsSpec.v
UnicodePropSets.v
UnicodeAgree.v
UnicodeNormTables.v
UnicodeNorm.v
UnicodeNormalize.v
UnicodeForms.v
Bridge.v
BridgeSpec.v
BridgeRegister.v
Limb.v
MpArith.v
MpDiv.v
Rounding.v
BfNum.v
BfRound.v
BfArith.v
BfAdd.v
BfAddCorrect.v
JsHeap.v
JsGc.v
JsGcSpec.v
JsFree.v
JsFreeSpec.v
JsRunGC.v
JsRefCount.v
JsLines.v
JsDate.v
JsMap.v
JsMapKeys.v
JsMapRefs.v
JsMapTable.v
JsMapSpec.v
JsMapOps.v
JsMapRefine.v
JsMapForEach.v
LreExec.v
LreSem.v
