(* ===== verification/Prelude.v ===== *)
(** * A verification of the native code of quickjs_runtime

    quickjs_runtime is a Dart binding of the QuickJS engine.  Its native part is
    the vendored engine (src/native/quickjs) and a bridge through which Dart
    drives it (src/native/quickjs_bridge.c).  This library models the parts of the
    C code that carry an algorithm of their own, as executable functions on the
    data the C code works on, and proves that they are correct.

    ** How C is modelled

    A C integer of width [w] is a [Z]; every operation that can leave its range is
    followed by the reduction the type makes ([u32], [s64], [limb], ...).  An array
    is a list read and written by index ([rd], [wr], file CArray); an access
    outside it, a failed [assert], [abort] and an undefined operation are [None].
    A loop whose termination is not structural runs with fuel ([loop]); the
    theorems prove that the fuel of the definition is enough, so that [None] is
    never the answer: [wp m Q] says that [m] is defined and its result satisfies
    [Q].  What the code does not define itself - the reallocation callback, the
    comparison callback of the sort, the engine under the bridge, the host's
    callbacks - is a parameter with its documented behaviour as the laws of a
    class.

    ** Files and what they model

    - Prelude, CArray: machine integers, the [wp] calculus, tactics and arrays.
    - Rqsort, Exchange: [rqsort] of cutils.c with its explicit stack of 50 entries,
      heap sort fallback and insertion sort; [exchange_func] and the routines it
      selects.  The sort terminates for any comparison callback, never overflows
      its stack, permutes, and sorts when the callback is an order; the exchange
      routines on bytes implement the element swap it is written with.
    - CBytes, Utf8, CStr, DynBuf: the memory accessors of cutils.h, UTF-8, the
      string helpers and the growing buffer of cutils.c.  Round trips of the
      accessors and of UTF-8, truncation, and the refinement of an abstract byte
      string by the buffer, with its sticky error flag.
    - ListHead: the intrusive lists of list.h on a heap of nodes.
    - CharRange: the sets of code points of libunicode.c with their operations.
    - RunTable, UnicodeTables, UnicodeCase, RegexpCanon: the case tables of
      libunicode-table.h, case conversion and folding, and the canonicalization of
      the character classes of regular expressions.
    - UnicodeProp, UnicodeNormTables, UnicodeNorm, UnicodeNormalize, UnicodeForms:
      the indexed property tables, canonical combining classes, decomposition,
      canonical ordering, composition and [unicode_normalize], whose results
      are the normal forms by rules written from Unicode Standard Annex 15.
    - UnicodeSetTables, UnicodeSets, UnicodeSetsSpec, UnicodePropSets, UnicodeAgree:
      the tables of general categories, scripts and properties, the lookup of a
      name and the set of code points it stands for ([unicode_prop],
      [unicode_general_category], [unicode_script]); the predicates of case and of
      identifiers agree with these sets.
    - Bridge, BridgeSpec, BridgeRegister: the bridge on an interface of the engine
      and of the host ([Engine], [Host]), whose operations may run code that calls
      the bridge again or registers functions, with the ownership of every value
      and block it handles, its contracts as rules, and the interleavings of
      threads that register callbacks (on sequentially consistent memory).
    - Limb, MpArith, MpDiv: limbs and multi-precision naturals of libbf.c, for any
      limb of [2^lg] bits; carries, schoolbook multiplication, division by a
      reciprocal and schoolbook division.
    - Rounding: what the rounding modes mean on rationals.
    - BfNum, BfRound, BfArith, BfAdd, BfAddCorrect: the numbers [bf_t] of libbf.c,
      their comparison, rounding, multiplication, division, addition and
      subtraction, on an allocator that can fail.
    - JsHeap, JsGc, JsFree: the memory management of the engine (quickjs.c) on a
      heap of objects with their counts, marks and lists.  A freed object leaves
      the heap, and an access to it is [None].  The functions that mark or free the
      fields of an object are given by the list of their calls; what a call of
      [JS_FreeValueRT], [free_var_ref], ... does with the count is modelled step by
      step.
    - JsGcSpec, JsFreeSpec, JsRunGC: a collection finds and frees exactly the
      unreachable objects.  JsRefCount: outside a collection a drop frees exactly
      what nothing refers to any more.  Both keep the invariant [gc_ready] and
      [heap_wf] of the heap.
    - JsLines: the table from positions of the bytecode to lines, in LEB128 and
      short opcodes (quickjs.c), a round trip.
    - JsDate: the calendar arithmetic of dates on [double]s that hold integers, with
      their rounding; getters, setters and [Date.UTC].
    - JsMap, JsMapKeys, JsMapRefs, JsMapTable, JsMapSpec, JsMapOps, JsMapRefine,
      JsMapForEach: Map and Set objects, their keys, hash table, counted records and
      iterators.  They refine the list of entries and cursors of the language
      definition, while drops finalize iterators and callbacks change the map.
    - LreExec, LreSem: the matcher of regular expressions (libregexp.c), an
      interpreter of bytecode with a stack of choice points, and the semantics of
      the bytecode that it implements.

    ** What the theorems show

    A theorem whose comment starts with a claim number is one of the properties of
    the library.  Each component has its functional correctness: a result for all
    inputs on every branch, error paths included.  Optimised code is equated with
    a reference definition (binary searches and indexed lookups with a scan of the
    whole table, division by a reciprocal with division, a truncated quotient with
    a sticky bit with the exact rational), and stateful code refines an abstract
    specification (the buffer, the bridge, the concurrent registration, maps).  Memory
    is safe: reference counting and the cycle collector never touch a freed
    object and free everything that the object graph says is garbage.  The
    lemma that follows a property with hypotheses applies it to a concrete input.

    ** Bounds

    Fuel is a function of the input: lengths for the loops over arrays, the
    measure of the segment for the sort, the depth 4 of the decomposition tables
    (proved by evaluation of the tables), 4 corrections for a quotient estimate,
    twice the limbs of both operands for the low loop of an addition, which jumps
    over the gap between them, the size of the heap for the loops of the
    collector, each turn of which retires an object; the number of records for the
    loops over a map.  A traversal by [forEach] that its callback prolongs has as
    fuel the bound on the entries that the callback keeps.  The matcher takes its
    fuel as an argument: enough exists when the evaluation of the bytecode has a
    result.
    The exponents and sizes of floating point numbers are bounded by
    [EXP_BOUND = 2^(LIMB_BITS - 2)], below which the position arithmetic of the
    code does not overflow.

    ** Not modelled

    The rest of the engine (quickjs.c: parser, bytecode, interpreter, built-in
    objects; of the memory management weak references, atoms, the hash table of
    the shapes and the classes whose callbacks are not listed in [class_fn]; of
    dates the constructor, parsing and printing; of maps the weak variants, the
    constructor's loop over an iterable, groupBy and the mark functions) and
    the regular expression compiler (libregexp.c); of libbf.c the square root, remainders, FFT
    and subquadratic division, conversions, transcendental functions and decimal
    numbers; the operating system bindings, drivers, test runner and table generator (quickjs-libc.c,
    qjs.c, qjsc.c, run-test262.c, unicode_gen.c); debugging output; the Dart
    code. *)
From stdpp Require Export base tactics list gmap sorting.
From Stdlib Require Export ZArith Lia Bool.
#[global] Open Scope Z_scope.

(** ** Machine integers

    A C integer of width [w] is a [Z] in its range.  Conversions to an
    unsigned type reduce modulo [2^w]; conversions to a signed type take the
    representative in [-2^(w-1), 2^(w-1)). *)

Definition uwrap (w x : Z) : Z := x mod 2 ^ w.
Definition swrap (w x : Z) : Z := (x + 2 ^ (w - 1)) mod 2 ^ w - 2 ^ (w - 1).

Abbreviation u8 := (uwrap 8).
Abbreviation u16 := (uwrap 16).
Abbreviation u32 := (uwrap 32).
Abbreviation u64 := (uwrap 64).
Abbreviation s8 := (swrap 8).
Abbreviation s16 := (swrap 16).
Abbreviation s32 := (swrap 32).
Abbreviation s64 := (swrap 64).

Definition in_u (w x : Z) : Prop := 0 <= x < 2 ^ w.
Definition in_s (w x : Z) : Prop := - 2 ^ (w - 1) <= x < 2 ^ (w - 1).

(** [int] arithmetic: an overflow is undefined. *)
Definition int_check (x : Z) : option Z := if (- 2 ^ 31 <=? x) && (x <? 2 ^ 31) then Some x else None.

(** C's representation of a truth value. *)
Definition Zb (b : bool) : Z := if b then 1 else 0.

Lemma uwrap_range w x : 0 <= w -> in_u w (uwrap w x).
Proof. intros. apply Z.mod_pos_bound. lia. Qed.

Lemma uwrap_id w x : in_u w x -> uwrap w x = x.
Proof. intros. by apply Z.mod_small. Qed.

Lemma swrap_range w x : 0 < w -> in_s w (swrap w x).
Proof.
  intros Hw. unfold swrap, in_s.
  pose proof (Z.mod_pos_bound (x + 2 ^ (w - 1)) (2 ^ w) ltac:(lia)).
  replace (2 ^ w) with (2 * 2 ^ (w - 1)) in *
    by (rewrite <- Z.pow_succ_r by lia; f_equal; lia).
  lia.
Qed.

Lemma swrap_id w x : 0 < w -> in_s w x -> swrap w x = x.
Proof.
  unfold swrap, in_s. intros Hw ?.
  rewrite Z.mod_small; [lia|].
  replace (2 ^ w) with (2 * 2 ^ (w - 1))
    by (rewrite <- Z.pow_succ_r by lia; f_equal; lia).
  lia.
Qed.

Lemma uwrap_uwrap w x : 0 <= w -> uwrap w (uwrap w x) = uwrap w x.
Proof. intros. apply uwrap_id, uwrap_range; lia. Qed.

Lemma uwrap_swrap w x : 0 < w -> uwrap w (swrap w x) = uwrap w x.
Proof.
  intros. unfold uwrap, swrap.
  rewrite Zminus_mod_idemp_l. f_equal. lia.
Qed.

Lemma swrap_uwrap w x : swrap w (uwrap w x) = swrap w x.
Proof. unfold swrap, uwrap. by rewrite Zplus_mod_idemp_l. Qed.

Lemma uwrap_neg w x : in_u w x -> 0 < x -> uwrap w (- x) = 2 ^ w - x.
Proof.
  unfold uwrap, in_u. intros. symmetry.
  apply (Zmod_unique_full _ _ (-1)); [left; lia | lia].
Qed.

(** ** Bit operations as arithmetic *)

(** The bits of [a] and of a multiple of [2^k] do not overlap when [a < 2^k]. *)
Lemma lor_add a b k : 0 <= k -> 0 <= a < 2 ^ k -> Z.lor a (b * 2 ^ k) = a + b * 2 ^ k.
Proof.
  intros Hk Ha. enough (Z.land a (b * 2 ^ k) = 0) by (pose proof (Z.add_lor_land a (b * 2 ^ k)); lia).
  apply Z.bits_inj'. intros n Hn. rewrite Z.land_spec, Z.bits_0, <- Z.shiftl_mul_pow2 by done.
  destruct (decide (n < k)).
  - rewrite Z.shiftl_spec_low by done. by rewrite andb_false_r.
  - rewrite <- (Z.mod_small a (2 ^ k)) by done. by rewrite Z.mod_pow2_bits_high by lia.
Qed.

Lemma lor_add' a b k : 0 <= k -> 0 <= a < 2 ^ k -> Z.lor (b * 2 ^ k) a = b * 2 ^ k + a.
Proof. intros. rewrite Z.lor_comm, lor_add by done. lia. Qed.

Lemma land_mod a k : 0 <= k -> Z.land a (2 ^ k - 1) = a mod 2 ^ k.
Proof. intros. rewrite <- Z.land_ones by done. f_equal. rewrite Z.ones_equiv. lia. Qed.

(** Complement within [k] bits. *)
Lemma lxor_ones v k : 0 <= k -> 0 <= v < 2 ^ k -> Z.lxor v (2 ^ k - 1) = 2 ^ k - 1 - v.
Proof.
  intros Hk Hv. assert (2 ^ k - 1 = Z.ones k) as -> by (rewrite Z.ones_equiv; lia).
  assert (forall m, k <= m -> Z.testbit v m = false) as Hhi by (intros m Hm; rewrite <- (Z.mod_small v (2 ^ k)) by done; by rewrite Z.mod_pow2_bits_high by lia).
  assert (Z.ldiff v (Z.ones k) = 0) as H0.
  { apply Z.bits_inj'. intros m Hm. rewrite Z.ldiff_spec, Z.bits_0. destruct (decide (m < k)); [by rewrite Z.ones_spec_low, andb_false_r by lia|by rewrite Hhi by lia]. }
  rewrite (Z.sub_nocarry_ldiff (Z.ones k) v) by done. apply Z.bits_inj'. intros m Hm. rewrite Z.lxor_spec, Z.ldiff_spec.
  destruct (decide (m < k)); [rewrite Z.ones_spec_low by lia; by destruct (Z.testbit v m)|]. rewrite Hhi, Z.ones_spec_high by lia. done.
Qed.

Lemma land_1 x : Z.land x 1 = Zb (Z.odd x).
Proof. change 1 with (2 ^ 1 - 1). rewrite land_mod by lia. by rewrite Zmod_odd. Qed.

Lemma land_mask_shift v m k : 0 <= k -> 0 <= m ->
  Z.land v ((2 ^ m - 1) * 2 ^ k) = (v / 2 ^ k) mod 2 ^ m * 2 ^ k.
Proof.
  intros Hk Hm. rewrite <- land_mod by done. rewrite <- !Z.shiftl_mul_pow2 by done.
  rewrite <- Z.shiftr_div_pow2 by done.
  apply Z.bits_inj'. intros n Hn. rewrite Z.land_spec.
  destruct (decide (n < k)).
  - rewrite !Z.shiftl_spec_low by done. by rewrite andb_false_r.
  - rewrite !Z.shiftl_spec by done. rewrite Z.land_spec, Z.shiftr_spec by lia.
    do 2 f_equal. lia.
Qed.

(** ** Partial C programs and total correctness

    Undefined behaviour (an access outside an array, a failed [assert], a
    call of [abort]) and exhausted fuel are [None].  [wp m Q] says that [m]
    is defined and that its result satisfies [Q]. *)

Definition wp {A} (m : option A) (Q : A -> Prop) : Prop :=
  match m with Some x => Q x | None => False end.

Lemma wp_exists {A} (m : option A) (Q : A -> Prop) :
  wp m Q <-> exists x, m = Some x /\ Q x.
Proof. destruct m; simpl; [|naive_solver]. split; [by eauto | by intros (? & [= <-] & ?)]. Qed.

Lemma wp_ret {A} (x : A) (Q : A -> Prop) : Q x -> wp (Some x) Q.
Proof. done. Qed.

Lemma wp_bind {A B} (m : option A) (f : A -> option B) (Q : B -> Prop) :
  wp m (fun x => wp (f x) Q) -> wp (m ≫= f) Q.
Proof. by destruct m. Qed.

Lemma wp_mono {A} (m : option A) (P Q : A -> Prop) :
  wp m P -> (forall x, P x -> Q x) -> wp m Q.
Proof. destruct m; simpl; auto. Qed.

Lemma wp_conj {A} (m : option A) (P Q : A -> Prop) :
  wp m P -> wp m Q -> wp m (fun x => P x /\ Q x).
Proof. by destruct m. Qed.

Lemma wp_frame {A} (m : option A) (P : A -> Prop) :
  wp m P -> wp m (fun x => m = Some x /\ P x).
Proof. by destruct m. Qed.

(** The [wp] of a known computation. *)
Lemma wp_eq {A} (m : option A) (x : A) (Q : A -> Prop) :
  m = Some x -> Q x -> wp m Q.
Proof. by intros ->. Qed.

(** A C loop: [body] either continues with a new state ([inl]) or leaves the
    loop with a result ([inr]). *)
Fixpoint loop {S R} (fuel : nat) (body : S -> option (S + R)) (s : S) : option R :=
  match fuel with
  | O => None
  | S fuel' =>
      match body s with
      | Some (inl s') => loop fuel' body s'
      | Some (inr r) => Some r
      | None => None
      end
  end.

(** Total correctness of a loop from an invariant and a measure. *)
Lemma wp_loop {S R} (I : S -> Prop) (m : S -> nat) (Q : R -> Prop)
    (body : S -> option (S + R)) (fuel : nat) (s : S) :
  I s ->
  (m s < fuel)%nat ->
  (forall s, I s ->
    wp (body s) (fun x => match x with
                          | inl s' => I s' /\ (m s' < m s)%nat
                          | inr r => Q r
                          end)) ->
  wp (loop fuel body s) Q.
Proof.
  intros HI Hm Hbody. revert s HI Hm.
  induction fuel as [|fuel IH]; intros s HI Hm; [lia|].
  simpl. specialize (Hbody s HI).
  destruct (body s) as [[s'|r]|]; simpl in *; auto.
  destruct Hbody. apply IH; auto. lia.
Qed.

(** The same with a [Z] measure. *)
Lemma wp_loopZ {S R} (I : S -> Prop) (m : S -> Z) (Q : R -> Prop)
    (body : S -> option (S + R)) (fuel : nat) (s : S) :
  I s ->
  m s < Z.of_nat fuel ->
  (forall s, I s ->
    wp (body s) (fun x => match x with
                          | inl s' => I s' /\ m s' < m s /\ 0 <= m s
                          | inr r => Q r
                          end)) ->
  (forall s, I s -> 0 <= m s) ->
  wp (loop fuel body s) Q.
Proof.
  intros HI Hm Hbody Hpos.
  apply (wp_loop I (fun s => Z.to_nat (m s))); [done | specialize (Hpos s HI); lia |].
  intros s' HI'. eapply wp_mono; [by apply Hbody|].
  intros [s''|r]; [|done]. intros (?&?&?). split; [done|].
  pose proof (Hpos s'' ltac:(done)). lia.
Qed.

(** More fuel does not change the result of a loop that returned. *)
Lemma loop_fuel_mono {S R} (body : S -> option (S + R)) fuel fuel' s r :
  loop fuel body s = Some r -> (fuel <= fuel')%nat -> loop fuel' body s = Some r.
Proof.
  revert fuel' s. induction fuel as [|fuel IH]; intros fuel' s H Hle; [done|].
  destruct fuel' as [|fuel']; [lia|]. simpl in *.
  destruct (body s) as [[s'|r']|]; auto. apply IH; [done|lia].
Qed.

(** ** Automation *)

Create HintDb cdb.

Ltac zbool :=
  repeat match goal with
  | H : (_ && _)%bool = true |- _ => apply andb_true_iff in H as [??]
  | H : (_ && _)%bool = false |- _ => apply andb_false_iff in H as [?|?]
  | H : (_ || _)%bool = true |- _ => apply orb_true_iff in H as [?|?]
  | H : (_ || _)%bool = false |- _ => apply orb_false_iff in H as [??]
  | H : negb _ = true |- _ => apply negb_true_iff in H
  | H : negb _ = false |- _ => apply negb_false_iff in H
  | H : (_ <? _) = true |- _ => apply Z.ltb_lt in H
  | H : (_ <? _) = false |- _ => apply Z.ltb_ge in H
  | H : (_ <=? _) = true |- _ => apply Z.leb_le in H
  | H : (_ <=? _) = false |- _ => apply Z.leb_gt in H
  | H : (_ >? _) = true |- _ => rewrite Z.gtb_ltb in H; apply Z.ltb_lt in H
  | H : (_ >? _) = false |- _ => rewrite Z.gtb_ltb in H; apply Z.ltb_ge in H
  | H : (_ >=? _) = true |- _ => rewrite Z.geb_leb in H; apply Z.leb_le in H
  | H : (_ >=? _) = false |- _ => rewrite Z.geb_leb in H; apply Z.leb_gt in H
  | H : (_ =? _) = true |- _ => apply Z.eqb_eq in H
  | H : (_ =? _) = false |- _ => apply Z.eqb_neq in H
  end.

(** One step of a [wp] proof: unfold sequencing, return and branching. *)
Ltac wp_step :=
  match goal with
  | |- wp (mbind _ _) _ => apply wp_bind
  | |- wp (Some _) _ => apply wp_ret
  | |- wp (mret _) _ => apply wp_ret
  | |- wp (if ?b then _ else _) _ => let H := fresh "Hc" in destruct b eqn:H; zbool
  | |- wp (let '(_, _) := ?p in _) _ => destruct p
  end.
