(* ===== verification/CArray.v ===== *)
(** * C arrays

    An array of [n] elements is a list of length [n] indexed by [Z].  A read
    or a write outside the array is undefined behaviour, so [rd] and [wr]
    return [None] there.  The file also holds the order-theoretic vocabulary
    the sorting routines share: two arrays that differ by a permutation of a
    range ([perm_in]) and a property of all elements of a range ([all_in]). *)

From S2P Require Import Prelude.
Open Scope Z_scope.

Definition zlen {A} (l : list A) : Z := Z.of_nat (length l).

Definition rd {A} (l : list A) (i : Z) : option A :=
  if 0 <=? i then l !! Z.to_nat i else None.

Definition wr {A} (l : list A) (i : Z) (v : A) : option (list A) :=
  if (0 <=? i) && (i <? zlen l) then Some (<[Z.to_nat i := v]> l) else None.

(** [upd] is the value of a write that is in bounds. *)
Definition upd {A} (l : list A) (i : Z) (v : A) : list A := <[Z.to_nat i := v]> l.

(** The bytes or elements [lo, hi) of an array ([memcpy] source). *)
Definition zslice {A} (l : list A) (lo hi : Z) : list A :=
  take (Z.to_nat (hi - lo)) (drop (Z.to_nat lo) l).

Definition swap {A} (l : list A) (i j : Z) : option (list A) :=
  x ← rd l i; y ← rd l j; l ← wr l i y; wr l j x.

Section lemmas.
  Context {A : Type}.
  Implicit Types (l : list A) (i j lo hi : Z) (x y v : A).

Lemma zlen_nonneg l : 0 <= zlen l.
  Proof. unfold zlen. lia. Qed.

Lemma zlen_nil : zlen (@nil A) = 0.
  Proof. done. Qed.

Lemma zlen_cons x l : zlen (x :: l) = zlen l + 1.
  Proof. unfold zlen. simpl. lia. Qed.

Lemma zlen_app l l' : zlen (l ++ l') = zlen l + zlen l'.
  Proof. unfold zlen. rewrite length_app. lia. Qed.

Lemma zlen_upd l i v : zlen (upd l i v) = zlen l.
  Proof. unfold zlen, upd. by rewrite length_insert. Qed.

Lemma rd_Some_range l i x : rd l i = Some x -> 0 <= i < zlen l.
  Proof.
    unfold rd, zlen. destruct (0 <=? i) eqn:H; [|done].
    intros ?%lookup_lt_Some. zbool. lia.
  Qed.

Lemma rd_is_Some l i : 0 <= i < zlen l -> exists x, rd l i = Some x.
  Proof.
    unfold rd, zlen. intros ?. replace (0 <=? i) with true by lia.
    apply lookup_lt_is_Some_2. lia.
  Qed.

Lemma rd_None l i : ~ 0 <= i < zlen l -> rd l i = None.
  Proof.
    unfold rd, zlen. destruct (0 <=? i) eqn:H; [|done].
    zbool. intros ?. apply lookup_ge_None_2. lia.
  Qed.

Lemma rd_lookup l i : 0 <= i -> rd l i = l !! Z.to_nat i.
  Proof. intros. unfold rd. by replace (0 <=? i) with true by lia. Qed.

Lemma rd_cons_0 x l : rd (x :: l) 0 = Some x.
  Proof. done. Qed.

Lemma rd_cons_pos x l i : 0 < i -> rd (x :: l) i = rd l (i - 1).
  Proof.
    intros. rewrite !rd_lookup by lia.
    replace (Z.to_nat i) with (S (Z.to_nat (i - 1))) by lia. done.
  Qed.

Lemma rd_app_l l l' i : i < zlen l -> rd (l ++ l') i = rd l i.
  Proof.
    unfold rd, zlen. intros. destruct (0 <=? i) eqn:?; [|done].
    apply lookup_app_l. lia.
  Qed.

Lemma rd_app_r l l' i : zlen l <= i -> rd (l ++ l') i = rd l' (i - zlen l).
  Proof.
    unfold zlen. intros. rewrite !rd_lookup by lia.
    rewrite lookup_app_r by lia. f_equal. lia.
  Qed.

Lemma rd_mid l l' x i : i = zlen l -> rd (l ++ x :: l') i = Some x.
  Proof. intros ->. rewrite rd_app_r by lia. by rewrite Z.sub_diag. Qed.

Lemma rd_upd_eq l i v : 0 <= i < zlen l -> rd (upd l i v) i = Some v.
  Proof.
    unfold zlen, upd. intros. rewrite rd_lookup by lia.
    apply list_lookup_insert_eq. lia.
  Qed.

Lemma rd_upd_ne l i j v : 0 <= i -> i <> j -> rd (upd l i v) j = rd l j.
  Proof.
    unfold rd, upd. intros. destruct (0 <=? j) eqn:?; [|done]. zbool.
    apply list_lookup_insert_ne. lia.
  Qed.

Lemma wr_upd l i v : 0 <= i < zlen l -> wr l i v = Some (upd l i v).
  Proof.
    intros. unfold wr, upd.
    by replace ((0 <=? i) && (i <? zlen l)) with true by lia.
  Qed.

Lemma wr_Some l i v l' :
    wr l i v = Some l' -> 0 <= i < zlen l /\ l' = upd l i v.
  Proof. unfold wr, upd. case_match; [|done]. intros [= <-]. zbool. split; [lia|done]. Qed.

Lemma wp_rd l i (Q : A -> Prop) :
    0 <= i < zlen l -> (forall x, rd l i = Some x -> Q x) -> wp (rd l i) Q.
  Proof. intros Hi HQ. destruct (rd_is_Some l i Hi) as [x Hx]. rewrite Hx. by apply HQ. Qed.

Lemma wp_wr l i v (Q : list A -> Prop) :
    0 <= i < zlen l -> Q (upd l i v) -> wp (wr l i v) Q.
  Proof. intros. by rewrite wr_upd. Qed.

Lemma list_ext l l' :
    zlen l = zlen l' -> (forall i, 0 <= i < zlen l -> rd l i = rd l' i) -> l = l'.
  Proof.
    intros Hlen Heq. apply list_eq. intros i.
    destruct (decide (i < length l)%nat) as [Hi|Hi].
    - specialize (Heq (Z.of_nat i)). unfold rd, zlen in *.
      replace (0 <=? Z.of_nat i) with true in Heq by lia.
      rewrite Nat2Z.id in Heq. apply Heq. lia.
    - unfold zlen in *. rewrite !lookup_ge_None_2 by lia. done.
  Qed.

Lemma upd_id l i x : rd l i = Some x -> upd l i x = l.
  Proof.
    intros Hx. pose proof (rd_Some_range _ _ _ Hx). unfold upd.
    apply list_insert_id. by rewrite <- rd_lookup by lia.
  Qed.

Lemma upd_app_l l l' i v : 0 <= i < zlen l -> upd (l ++ l') i v = upd l i v ++ l'.
  Proof. unfold upd, zlen. intros. apply insert_app_l. lia. Qed.

Lemma upd_mid l l' x v i : i = zlen l -> upd (l ++ x :: l') i v = l ++ v :: l'.
  Proof.
    intros ->. unfold upd, zlen. rewrite Nat2Z.id.
    rewrite insert_app_r_alt by lia. by rewrite Nat.sub_diag.
  Qed.

Lemma rd_split l i x :
    rd l i = Some x ->
    l = take (Z.to_nat i) l ++ x :: drop (Z.to_nat (i + 1)) l.
  Proof.
    intros Hx. pose proof (rd_Some_range _ _ _ Hx). rewrite rd_lookup in Hx by lia.
    replace (Z.to_nat (i + 1)) with (S (Z.to_nat i)) by lia.
    symmetry. by apply take_drop_middle.
  Qed.

Lemma upd_split l i x v :
    rd l i = Some x ->
    upd l i v = take (Z.to_nat i) l ++ v :: drop (Z.to_nat (i + 1)) l.
  Proof.
    intros Hx. pose proof (rd_Some_range _ _ _ Hx) as Hr. unfold zlen in Hr.
    rewrite (rd_split l i x Hx) at 1. apply upd_mid.
    unfold zlen. rewrite length_take. lia.
  Qed.

Lemma zlen_take l (n : Z) : 0 <= n <= zlen l -> zlen (take (Z.to_nat n) l) = n.
  Proof. unfold zlen. intros. rewrite length_take. lia. Qed.

Lemma zlen_drop l (n : Z) : 0 <= n <= zlen l -> zlen (drop (Z.to_nat n) l) = zlen l - n.
  Proof. unfold zlen. intros. rewrite length_drop. lia. Qed.

Lemma zlen_zslice l lo hi :
    0 <= lo <= hi -> hi <= zlen l -> zlen (zslice l lo hi) = hi - lo.
  Proof. unfold zslice, zlen. intros. rewrite length_take, length_drop. lia. Qed.

Lemma rd_zslice l lo hi i :
    0 <= lo -> 0 <= i < hi - lo -> rd (zslice l lo hi) i = rd l (lo + i).
  Proof.
    intros. unfold zslice. rewrite !rd_lookup by lia.
    rewrite lookup_take_lt by lia. rewrite lookup_drop. f_equal. lia.
  Qed.

Lemma zslice_full l : zslice l 0 (zlen l) = l.
  Proof. unfold zslice, zlen. simpl. rewrite drop_0. apply take_ge. lia. Qed.

Lemma zslice_app_l l l' : zslice (l ++ l') 0 (zlen l) = l.
  Proof. unfold zslice, zlen. rewrite Z.sub_0_r, Nat2Z.id. simpl. rewrite drop_0. apply take_app_length. Qed.

Lemma zslice_zslice l n lo hi :
    0 <= lo <= hi -> hi <= n -> zslice (zslice l 0 n) lo hi = zslice l lo hi.
  Proof.
    intros. unfold zslice. rewrite Z.sub_0_r. simpl. rewrite drop_0.
    rewrite skipn_firstn_comm. rewrite take_take. f_equal. lia.
  Qed.

Lemma zslice_nil l lo : zslice l lo lo = [].
  Proof. unfold zslice. by rewrite Z.sub_diag. Qed.

Lemma zslice_snoc l lo hi x :
    0 <= lo <= hi -> rd l hi = Some x -> zslice l lo (hi + 1) = zslice l lo hi ++ [x].
  Proof.
    intros ? Hx. pose proof (rd_Some_range _ _ _ Hx).
    apply list_ext.
    - rewrite zlen_app, !zlen_zslice, zlen_cons, zlen_nil by lia. lia.
    - rewrite zlen_zslice by lia. intros i Hi. rewrite rd_zslice by lia.
      destruct (decide (i = hi - lo)) as [->|].
      + rewrite rd_app_r; rewrite zlen_zslice by lia; [|lia].
        replace (hi - lo - (hi - lo)) with 0 by lia.
        replace (lo + (hi - lo)) with hi by lia. done.
      + rewrite rd_app_l by (rewrite zlen_zslice; lia). by rewrite rd_zslice by lia.
  Qed.
End lemmas.

(** ** Swapping, permuting a range *)

(** Every element of the range [lo, hi) satisfies [P]. *)
Definition all_in {A} (P : A -> Prop) (l : list A) (lo hi : Z) : Prop :=
  forall i x, lo <= i < hi -> rd l i = Some x -> P x.

(** [l'] is [l] with the elements of the range [lo, hi) permuted. *)
Definition perm_in {A} (l l' : list A) (lo hi : Z) : Prop :=
  exists a m m' b, l = a ++ m ++ b /\ l' = a ++ m' ++ b /\
    m ≡ₚ m' /\ zlen a = lo /\ zlen m = hi - lo.

Section perm_in.
  Context {A : Type}.
  Implicit Types (l : list A) (i j lo hi : Z) (x y v : A) (P : A -> Prop).

Lemma perm_in_refl l lo hi : 0 <= lo <= hi -> hi <= zlen l -> perm_in l l lo hi.
  Proof.
    intros. exists (zslice l 0 lo), (zslice l lo hi), (zslice l lo hi), (zslice l hi (zlen l)).
    assert (l = zslice l 0 lo ++ zslice l lo hi ++ zslice l hi (zlen l)) as Heq.
    { unfold zslice, zlen. simpl. rewrite drop_0, Z.sub_0_r.
      rewrite (take_ge (drop (Z.to_nat hi) l)) by (rewrite length_drop; unfold zlen in *; lia).
      rewrite <- (take_drop (Z.to_nat lo) l) at 1. f_equal.
      rewrite <- (take_drop (Z.to_nat (hi - lo)) (drop (Z.to_nat lo) l)) at 1. f_equal.
      rewrite drop_drop. f_equal. lia. }
    rewrite !zlen_zslice by lia. repeat split; auto; lia.
  Qed.

Lemma perm_in_perm l l' lo hi : perm_in l l' lo hi -> l ≡ₚ l'.
  Proof. intros (a&m&m'&b&->&->&Hm&?&?). by rewrite Hm. Qed.

Lemma perm_in_zlen l l' lo hi : perm_in l l' lo hi -> zlen l' = zlen l.
  Proof. intros H%perm_in_perm. unfold zlen. by rewrite H. Qed.

Lemma perm_in_range l l' lo hi : perm_in l l' lo hi -> 0 <= lo <= hi /\ hi <= zlen l.
  Proof.
    intros (a&m&m'&b&->&->&Hm&?&?). rewrite !zlen_app.
    pose proof (zlen_nonneg a). pose proof (zlen_nonneg m). pose proof (zlen_nonneg b). lia.
  Qed.

Lemma perm_in_outside l l' lo hi i :
    perm_in l l' lo hi -> ~ lo <= i < hi -> rd l' i = rd l i.
  Proof.
    intros (a&m&m'&b&->&->&Hm&Ha&Hlm) Hi.
    assert (zlen m' = zlen m) by (unfold zlen; by rewrite Hm).
    destruct (decide (i < lo)).
    - by rewrite !rd_app_l by lia.
    - rewrite !rd_app_r by lia. f_equal. lia.
  Qed.

Lemma perm_in_trans l1 l2 l3 lo hi :
    perm_in l1 l2 lo hi -> perm_in l2 l3 lo hi -> perm_in l1 l3 lo hi.
  Proof.
    intros (a&m&m'&b&->&->&Hm&Ha&Hl) (a2&m2&m2'&b2&Heq&->&Hm2&Ha2&Hl2).
    assert (zlen m' = zlen m) by (unfold zlen; by rewrite Hm).
    assert (length a = length a2) by (unfold zlen in *; lia).
    apply app_inj_1 in Heq as [<- Heq]; [|done].
    assert (length m' = length m2) by (unfold zlen in *; lia).
    apply app_inj_1 in Heq as [<- <-]; [|done].
    exists a, m, m2', b. repeat split; auto. by rewrite Hm.
  Qed.

Lemma perm_in_weaken l l' lo hi lo' hi' :
    perm_in l l' lo hi -> 0 <= lo' <= lo -> hi <= hi' <= zlen l -> perm_in l l' lo' hi'.
  Proof.
    intros (a&m&m'&b&->&->&Hm&Ha&Hl) ? Hhi. rewrite !zlen_app in Hhi.
    exists (take (Z.to_nat lo') a), (drop (Z.to_nat lo') a ++ m ++ take (Z.to_nat (hi' - hi)) b),
      (drop (Z.to_nat lo') a ++ m' ++ take (Z.to_nat (hi' - hi)) b), (drop (Z.to_nat (hi' - hi)) b).
    split_and!.
    - rewrite <- !app_assoc. rewrite (take_drop (Z.to_nat (hi' - hi)) b).
      rewrite (app_assoc (take _ a)). by rewrite take_drop.
    - rewrite <- !app_assoc. rewrite (take_drop (Z.to_nat (hi' - hi)) b).
      rewrite (app_assoc (take _ a)). by rewrite take_drop.
    - by rewrite Hm.
    - rewrite zlen_take; lia.
    - rewrite !zlen_app, zlen_drop, zlen_take by lia. lia.
  Qed.

Lemma perm_in_sym l l' lo hi : perm_in l l' lo hi -> perm_in l' l lo hi.
  Proof.
    intros (a&m&m'&b&->&->&Hm&Ha&Hl). exists a, m', m, b.
    assert (zlen m' = zlen m) by (unfold zlen; by rewrite Hm).
    split_and!; [done | done | by symmetry | done | lia].
  Qed.

  (** An element of the range comes from the range of the original array. *)
Lemma perm_in_elem l l' lo hi i x :
    perm_in l l' lo hi -> lo <= i < hi -> rd l' i = Some x ->
    exists j, lo <= j < hi /\ rd l j = Some x.
  Proof.
    intros (a&m&m'&b&->&->&Hm&Ha&Hl) Hi Hx.
    assert (zlen m' = zlen m) by (unfold zlen; by rewrite Hm).
    rewrite rd_app_r, rd_app_l in Hx by lia.
    rewrite rd_lookup in Hx by lia.
    apply list_elem_of_lookup_2 in Hx. rewrite <- Hm in Hx.
    apply list_elem_of_lookup in Hx as [k Hk].
    pose proof (lookup_lt_Some _ _ _ Hk). unfold zlen in *.
    exists (Z.of_nat (length a) + Z.of_nat k). split; [lia|].
    rewrite rd_app_r by (unfold zlen; lia).
    rewrite rd_app_l by (unfold zlen; lia).
    rewrite rd_lookup by (unfold zlen; lia).
    rewrite <- Hk. f_equal. unfold zlen. lia.
  Qed.

Lemma perm_in_all P l l' lo hi lo' hi' :
    perm_in l l' lo hi -> lo' <= lo -> hi <= hi' ->
    all_in P l lo' hi' -> all_in P l' lo' hi'.
  Proof.
    intros Hp ?? HP i x Hi Hx. destruct (decide (lo <= i < hi)).
    - destruct (perm_in_elem _ _ _ _ _ _ Hp ltac:(done) Hx) as (j&?&?).
      apply (HP j x); [lia|done].
    - rewrite (perm_in_outside _ _ _ _ _ Hp) in Hx by done. by apply (HP i x).
  Qed.

Lemma perm_in_all_disj P l l' lo hi lo' hi' :
    perm_in l l' lo hi -> hi' <= lo \/ hi <= lo' ->
    all_in P l lo' hi' -> all_in P l' lo' hi'.
  Proof.
    intros Hp ? HP i x Hi Hx.
    rewrite (perm_in_outside _ _ _ _ _ Hp) in Hx by lia. by apply (HP i x).
  Qed.

Lemma all_in_nil P l lo hi : hi <= lo -> all_in P l lo hi.
  Proof. intros ? i x ?. lia. Qed.

Lemma all_in_mono P l lo hi lo' hi' :
    all_in P l lo hi -> lo <= lo' -> hi' <= hi -> all_in P l lo' hi'.
  Proof. intros HP ?? i x Hi. apply HP. lia. Qed.

Lemma all_in_impl P (Q : A -> Prop) l lo hi :
    all_in P l lo hi -> (forall x, P x -> Q x) -> all_in Q l lo hi.
  Proof. intros HP HPQ i x ??. by eapply HPQ, HP. Qed.

Lemma all_in_ext P l l' lo hi :
    all_in P l lo hi -> (forall i, lo <= i < hi -> rd l' i = rd l i) -> all_in P l' lo hi.
  Proof. intros HP Heq i x Hi Hx. apply (HP i); [done|]. by rewrite <- Heq. Qed.

Lemma all_in_snoc P l lo hi x :
    all_in P l lo hi -> rd l hi = Some x -> P x -> all_in P l lo (hi + 1).
  Proof.
    intros HP Hx HPx i y Hi Hy. destruct (decide (i = hi)) as [->|].
    - congruence.
    - apply (HP i); [lia|done].
  Qed.

Lemma all_in_cons P l lo hi x :
    all_in P l (lo + 1) hi -> rd l lo = Some x -> P x -> all_in P l lo hi.
  Proof.
    intros HP Hx HPx i y Hi Hy. destruct (decide (i = lo)) as [->|].
    - congruence.
    - apply (HP i); [lia|done].
  Qed.

Lemma all_in_app P l lo mid hi :
    all_in P l lo mid -> all_in P l mid hi -> all_in P l lo hi.
  Proof.
    intros H1 H2 i x Hi Hx. destruct (decide (i < mid)).
    - apply (H1 i x); [lia|done].
    - apply (H2 i x); [lia|done].
  Qed.

  (** Exchanging two elements. *)
Lemma swap_spec l i j x y :
    rd l i = Some x -> rd l j = Some y ->
    swap l i j = Some (upd (upd l i y) j x).
  Proof.
    intros Hx Hy. unfold swap. rewrite Hx, Hy. simpl.
    pose proof (rd_Some_range _ _ _ Hx). pose proof (rd_Some_range _ _ _ Hy).
    rewrite wr_upd by done. simpl. by rewrite wr_upd by (rewrite zlen_upd; done).
  Qed.

Lemma swap_perm_in_lt l i j x y :
    rd l i = Some x -> rd l j = Some y -> i < j ->
    perm_in l (upd (upd l i y) j x) i (j + 1).
  Proof.
    intros Hx Hy ?.
    pose proof (rd_Some_range _ _ _ Hx) as Hi. pose proof (rd_Some_range _ _ _ Hy) as Hj.
    set (a := take (Z.to_nat i) l). set (r := drop (Z.to_nat (i + 1)) l).
    assert (l = a ++ x :: r) as Hl by (by apply rd_split).
    assert (zlen a = i) as Ha by (subst a; apply zlen_take; lia).
    assert (rd r (j - i - 1) = Some y) as Hr.
    { rewrite Hl in Hy. rewrite rd_app_r, rd_cons_pos in Hy by lia.
      rewrite <- Hy. f_equal. lia. }
    set (m := take (Z.to_nat (j - i - 1)) r). set (b := drop (Z.to_nat (j - i - 1 + 1)) r).
    assert (r = m ++ y :: b) as Hr' by (by apply rd_split).
    pose proof (rd_Some_range _ _ _ Hr).
    assert (zlen m = j - i - 1) as Hm by (subst m; apply zlen_take; lia).
    clearbody a r m b. rewrite Hr' in Hl. subst l. clear Hr' Hr r H0 Hx Hy.
    exists a, (x :: m ++ [y]), (y :: m ++ [x]), b. split_and!; auto.
    - simpl. by rewrite <- app_assoc.
    - rewrite upd_mid by lia.
      replace (a ++ y :: m ++ y :: b) with ((a ++ y :: m) ++ y :: b)
        by (by rewrite <- app_assoc).
      rewrite upd_mid by (rewrite zlen_app, zlen_cons; lia).
      rewrite <- app_assoc. simpl. by rewrite <- app_assoc.
    - by solve_Permutation.
    - rewrite zlen_cons, zlen_app, zlen_cons, zlen_nil. lia.
  Qed.

Lemma upd_comm l i j x y :
    0 <= i -> 0 <= j -> i <> j -> upd (upd l i x) j y = upd (upd l j y) i x.
  Proof. intros. unfold upd. apply list_insert_insert_ne. lia. Qed.

Lemma swap_perm_in l i j x y lo hi :
    rd l i = Some x -> rd l j = Some y ->
    lo <= i < hi -> lo <= j < hi -> 0 <= lo -> hi <= zlen l ->
    perm_in l (upd (upd l i y) j x) lo hi.
  Proof.
    intros Hx Hy ????. destruct (Z.lt_trichotomy i j) as [?|[->|?]].
    - eapply perm_in_weaken; [by apply swap_perm_in_lt|lia|lia].
    - assert (x = y) as -> by congruence.
      rewrite !upd_id by (rewrite ?upd_id; done). apply perm_in_refl; lia.
    - rewrite upd_comm by lia.
      eapply perm_in_weaken; [by apply swap_perm_in_lt|lia|lia].
  Qed.

  (** Reading after a swap. *)
Lemma rd_swap l i j x y k :
    rd l i = Some x -> rd l j = Some y ->
    rd (upd (upd l i y) j x) k =
      if k =? j then Some x else if k =? i then Some y else rd l k.
  Proof.
    intros Hx Hy.
    pose proof (rd_Some_range _ _ _ Hx). pose proof (rd_Some_range _ _ _ Hy).
    destruct (k =? j) eqn:?; zbool.
    - subst k. apply rd_upd_eq. by rewrite zlen_upd.
    - rewrite rd_upd_ne by lia. destruct (k =? i) eqn:?; zbool.
      + subst k. by apply rd_upd_eq.
      + by rewrite rd_upd_ne by lia.
  Qed.

Lemma wp_swap l i j (Q : list A -> Prop) :
    0 <= i < zlen l -> 0 <= j < zlen l ->
    (forall x y, rd l i = Some x -> rd l j = Some y -> Q (upd (upd l i y) j x)) ->
    wp (swap l i j) Q.
  Proof.
    intros Hi Hj HQ. destruct (rd_is_Some l i Hi) as [x Hx].
    destruct (rd_is_Some l j Hj) as [y Hy].
    rewrite (swap_spec l i j x y Hx Hy). by apply HQ.
  Qed.
End perm_in.

Create Rewrite HintDb zlen.
#[export] Hint Rewrite @zlen_upd @zlen_app @zlen_cons @zlen_nil : zlen.
#[export] Hint Resolve zlen_nonneg perm_in_refl all_in_nil : cdb.

(** One step of a [wp] proof over array programs: bounds by [lia]. *)
Ltac arr_step :=
  first
    [ wp_step
    | match goal with
      | |- wp (rd _ _) _ =>
          apply wp_rd; [autorewrite with zlen; lia | let x := fresh "v" in
                                                     let H := fresh "Hrd" in intros x H]
      | |- wp (wr _ _ _) _ => apply wp_wr; [autorewrite with zlen; lia |]
      | |- wp (swap _ _ _) _ =>
          apply wp_swap; [autorewrite with zlen; lia | autorewrite with zlen; lia |
                          let x := fresh "v" in let y := fresh "v" in
                          let Hx := fresh "Hrd" in let Hy := fresh "Hrd" in intros x y Hx Hy]
      end ].
