(* ===== verification/Rqsort.v ===== *)
(** * The sort of cutils.c: [rqsort], [heapsortx], [med3]

    The array being sorted is a list of elements; pointers into it are
    indices, so the [size]-scaled pointer arithmetic of the C code is index
    arithmetic in units of one element ([swap] exchanges two elements, and
    [swap_block] a run of them; file Exchange shows that the byte-level
    exchange routines do this).  The comparison callback is a function
    [cmp : A -> A -> Z]. *)

From S2P Require Import Prelude CArray.
Open Scope Z_scope.

(** ** Definitions *)

(** A pending segment: base, count, depth. *)
Abbreviation seg := (Z * Z * Z)%type.

Section defs.
  Context {A : Type} (cmp : A -> A -> Z).

  (** The sift-down loop of [heapsortx], used by both phases with bound [n]. *)
Definition sift_body (base n : Z) (st : list A * Z) : option ((list A * Z) + list A) :=
    let '(l, r) := st in
    let c := r * 2 + 1 in
    if negb (c <? n) then Some (inr l) else
    c ← (if c <? n - 1
         then x ← rd l (base + c); y ← rd l (base + c + 1);
              Some (if cmp x y <=? 0 then c + 1 else c)
         else Some c);
    x ← rd l (base + r); y ← rd l (base + c);
    if cmp x y >? 0 then Some (inr l)
    else l ← swap l (base + r) (base + c); Some (inl (l, c)).

Definition sift (base n : Z) (l : list A) (r : Z) : option (list A) :=
    loop (Z.to_nat n + 1) (sift_body base n) (l, r).

  (** [while (i > 0) { i -= size; sift }]: build the heap. *)
Definition heapify_body (base n : Z) (st : list A * Z) : option ((list A * Z) + list A) :=
    let '(l, i) := st in
    if negb (i >? 0) then Some (inr l) else
    let i := i - 1 in
    l ← sift base n l i; Some (inl (l, i)).

  (** [for (i = n - size; i > 0; i -= size)]: move the maximum to the end. *)
Definition extract_body (base : Z) (st : list A * Z) : option ((list A * Z) + list A) :=
    let '(l, i) := st in
    if negb (i >? 0) then Some (inr l) else
    l ← swap l base (base + i);
    l ← sift base i l 0;
    Some (inl (l, i - 1)).

Definition heapsortx (base nmemb : Z) (l : list A) : option (list A) :=
    if nmemb >? 1 then
      l ← loop (Z.to_nat nmemb + 1) (heapify_body base nmemb) (l, nmemb / 2);
      loop (Z.to_nat nmemb + 1) (extract_body base) (l, nmemb - 1)
    else Some l.

Definition med3 (l : list A) (a b c : Z) : option Z :=
    x ← rd l a; y ← rd l b; z ← rd l c;
    Some (if cmp x y <? 0
          then (if cmp y z <? 0 then b else (if cmp x z <? 0 then c else a))
          else (if cmp y z >? 0 then b else (if cmp x z <? 0 then a else c))).

  (** The state of one partition pass. *)
Record part := Part {
    p_l : list A; p_i : Z; p_lt : Z; p_gt : Z;
    p_pi : Z; p_plt : Z; p_pj : Z; p_pgt : Z }.

  (** [while (pi < pj && (c = cmp(ptr, pi, opaque)) >= 0)] *)
Definition scan_up_body (ptr : Z) (s : part) : option (part + part) :=
    let '(Part l i lt gt pi plt pj pgt) := s in
    if negb (pi <? pj) then Some (inr s) else
    x ← rd l ptr; y ← rd l pi;
    let c := cmp x y in
    if negb (c >=? 0) then Some (inr s) else
    if c =? 0
    then l ← swap l plt pi;
         Some (inl (Part l (i + 1) (lt + 1) gt (pi + 1) (plt + 1) pj pgt))
    else Some (inl (Part l (i + 1) lt gt (pi + 1) plt pj pgt)).

  (** [while (pi < (pj -= size) && (c = cmp(ptr, pj, opaque)) <= 0)] *)
Definition scan_down_body (ptr : Z) (s : part) : option (part + part) :=
    let '(Part l i lt gt pi plt pj pgt) := s in
    let pj := pj - 1 in
    let s := Part l i lt gt pi plt pj pgt in
    if negb (pi <? pj) then Some (inr s) else
    x ← rd l ptr; y ← rd l pj;
    let c := cmp x y in
    if negb (c <=? 0) then Some (inr s) else
    if c =? 0
    then let gt := gt - 1 in
         let pgt := pgt - 1 in
         l ← swap l pgt pj;
         Some (inl (Part l i lt gt pi plt pj pgt))
    else Some (inl s).

  (** The [for (;;)] of the partition. *)
Definition part_body (ptr : Z) (fuel : nat) (s : part) : option (part + part) :=
    s ← loop fuel (scan_up_body ptr) s;
    s ← loop fuel (scan_down_body ptr) s;
    let '(Part l i lt gt pi plt pj pgt) := s in
    if pi >=? pj then Some (inr s) else
    l ← swap l pi pj;
    Some (inl (Part l (i + 1) lt gt (pi + 1) plt pj pgt)).

  (** [swap_block]: exchange the runs of [n] elements at [a] and [b]. *)
Fixpoint swap_block (n : nat) (l : list A) (a b : Z) : option (list A) :=
    match n with
    | O => Some l
    | S n => l ← swap l a b; swap_block n l (a + 1) (b + 1)
    end.

  (** One pass: choose the pivot, partition, gather the elements identical to
      the pivot in the middle.  Returns the array, [lt], [gt] and [pgt]. *)
Definition partition (ptr nmemb : Z) (l : list A) : option (list A * Z * Z * Z) :=
    let m4 := Z.shiftr nmemb 2 in
    m ← med3 l (ptr + m4) (ptr + 2 * m4) (ptr + 3 * m4);
    l ← swap l ptr m;
    let top := ptr + nmemb in
    let fuel := (Z.to_nat nmemb + 2)%nat in
    s ← loop fuel (part_body ptr fuel)
             (Part l 1 1 nmemb (ptr + 1) (ptr + 1) top top);
    let '(Part l i lt gt pi plt _ pgt) := s in
    let span := plt - ptr in
    let span2 := pi - plt in
    let lt := i - lt in
    let span := if span >? span2 then span2 else span in
    l ← swap_block (Z.to_nat span) l ptr (pi - span);
    let span := top - pgt in
    let span2 := pgt - pi in
    let pgt := top - span2 in
    let gt := nmemb - (gt - i) in
    let span := if span >? span2 then span2 else span in
    l ← swap_block (Z.to_nat span) l pi (top - span);
    Some (l, lt, gt, pgt).

  (** The local stack has room for 50 segments. *)
Definition push (e : seg) (stack : list seg) : option (list seg) :=
    if zlen stack <? 50 then Some (e :: stack) else None.

  (** [while (nmemb > 6)] *)
Definition quick_body (st : list A * list seg * Z * Z * Z)
    : option ((list A * list seg * Z * Z * Z) + (list A * list seg * Z * Z)) :=
    let '(l, stack, ptr, nmemb, depth) := st in
    if negb (nmemb >? 6) then Some (inr (l, stack, ptr, nmemb)) else
    let depth := depth + 1 in
    if depth >? 50 then
      l ← heapsortx ptr nmemb l;
      Some (inr (l, stack, ptr, 0))
    else
      '(l, lt, gt, pgt) ← partition ptr nmemb l;
      if lt >? nmemb - gt then
        stack ← push (ptr, lt, depth) stack;
        Some (inl (l, stack, pgt, nmemb - gt, depth))
      else
        stack ← push (pgt, nmemb - gt, depth) stack;
        Some (inl (l, stack, ptr, lt, depth)).

  (** Insertion sort for small fragments: inner and outer loops. *)
Definition insert_body (ptr : Z) (st : list A * Z) : option ((list A * Z) + list A) :=
    let '(l, pj) := st in
    if negb (pj >? ptr) then Some (inr l) else
    x ← rd l (pj - 1); y ← rd l pj;
    if negb (cmp x y >? 0) then Some (inr l) else
    l ← swap l pj (pj - 1);
    Some (inl (l, pj - 1)).

Definition insertion_body (ptr top : Z) (st : list A * Z) : option ((list A * Z) + list A) :=
    let '(l, pi) := st in
    if negb (pi <? top) then Some (inr l) else
    l ← loop (Z.to_nat (pi - ptr) + 1) (insert_body ptr) (l, pi);
    Some (inl (l, pi + 1)).

Definition insertion_sort (ptr nmemb : Z) (l : list A) : option (list A) :=
    loop (Z.to_nat nmemb + 1) (insertion_body ptr (ptr + nmemb)) (l, ptr + 1).

  (** [while (sp > stack)] *)
Definition rqsort_body (fuel : nat) (st : list A * list seg) : option ((list A * list seg) + list A) :=
    let '(l, stack) := st in
    match stack with
    | [] => Some (inr l)
    | (ptr, nmemb, depth) :: stack =>
        '(l, stack, ptr, nmemb) ← loop fuel quick_body (l, stack, ptr, nmemb, depth);
        l ← insertion_sort ptr nmemb l;
        Some (inl (l, stack))
    end.

Definition rqsort (l : list A) (nmemb size : Z) : option (list A) :=
    if (nmemb <? 2) || (size <=? 0) then Some l else
    loop (Z.to_nat (2 * nmemb) + 2) (rqsort_body (Z.to_nat nmemb + 1)) (l, [(0, nmemb, 0)]).
End defs.

(** ** The partition pass *)

(** Closes a goal about one element of an array after at most one swap, from
    the [all_in] hypotheses about the array before it. *)
Ltac all_in_solve :=
  let k := fresh "k" in let z := fresh "z" in
  let Hk := fresh "Hk" in let Hz := fresh "Hz" in
  intros k z Hk Hz;
  try (erewrite rd_swap in Hz by eassumption;
       repeat match type of Hz with
              | context [if ?a =? ?b then _ else _] => destruct (Z.eqb_spec a b)
              end; simplify_eq);
  solve
    [ assumption
    | lia
    | match goal with
      | H : all_in _ ?l _ _, H' : rd ?l ?i = Some ?z |- _ =>
          apply (H i z); [lia | exact H']
      end
    | match goal with
      | H : rd ?l ?i = Some ?x, H' : rd ?l ?j = Some ?z |- ?P ?z =>
          replace z with x by (assert (i = j) by lia; congruence); assumption
      end
    | exfalso; lia ].

Section partition.
  Context {A : Type} (cmp : A -> A -> Z).
  Context (p : A) (l0 : list A) (ptr nmemb : Z).

  (** The three classes of elements, by the sign the callback returned. *)
Definition eqp (x : A) : Prop := x = p \/ cmp p x = 0.
Definition ltp (x : A) : Prop := cmp p x > 0.
Definition gtp (x : A) : Prop := cmp p x < 0.

Definition part_inv (s : part (A := A)) : Prop :=
    perm_in l0 (p_l s) ptr (ptr + nmemb) /\ rd (p_l s) ptr = Some p /\
    p_pi s = ptr + p_i s /\ p_plt s = ptr + p_lt s /\ p_pgt s = ptr + p_gt s /\
    ptr + 1 <= p_plt s <= p_pi s /\ p_pi s <= p_pj s <= p_pgt s /\
    p_pgt s <= ptr + nmemb /\
    all_in eqp (p_l s) ptr (p_plt s) /\ all_in ltp (p_l s) (p_plt s) (p_pi s) /\
    all_in gtp (p_l s) (p_pj s) (p_pgt s) /\ all_in eqp (p_l s) (p_pgt s) (ptr + nmemb).

Lemma part_inv_bounds s : part_inv s ->
    zlen (p_l s) = zlen l0 /\ 0 <= ptr /\ ptr + nmemb <= zlen l0.
  Proof.
    intros (Hp&_). pose proof (perm_in_range _ _ _ _ Hp).
    pose proof (perm_in_zlen _ _ _ _ Hp). lia.
  Qed.

Lemma scan_up_spec fuel s :
    part_inv s -> (Z.to_nat (p_pj s - p_pi s) < fuel)%nat ->
    wp (loop fuel (scan_up_body cmp ptr) s) (fun s' =>
      part_inv s' /\ p_pj s' = p_pj s /\ p_pi s <= p_pi s' /\
      (p_pi s' = p_pj s' \/ exists y, rd (p_l s') (p_pi s') = Some y /\ gtp y)).
  Proof.
    intros Hs Hfuel.
    apply (wp_loop (fun s' => part_inv s' /\ p_pj s' = p_pj s /\ p_pi s <= p_pi s')
             (fun s => Z.to_nat (p_pj s - p_pi s))); [split_and!; [done | done | lia] | done |].
    clear Hfuel. intros [l i lt gt pi plt pj pgt] (HI & Hpj & Hpi).
    pose proof (part_inv_bounds _ HI) as (?&?&?).
    destruct HI as (Hp&Hpv&?&?&?&?&?&?&Q1&Q2&Q3&Q4). simpl in *.
    repeat arr_step; simpl.
    - split_and!; [|done|done|left; lia]. unfold part_inv; split_and!; simpl; try done; lia.
    - split_and!; [|done|done|right; exists v0; unfold gtp; simplify_eq; split; [done|lia]].
      unfold part_inv; split_and!; simpl; try done; lia.
    - assert (v = p) as -> by congruence.
      split_and!; try lia.
      split_and!; simpl; try lia.
      + eapply perm_in_trans; [done|]. apply swap_perm_in; auto; lia.
      + rewrite rd_swap by eassumption.
        by destruct (Z.eqb_spec ptr pi), (Z.eqb_spec ptr plt); try lia.
      + assert (eqp v0) by (right; lia). assert (v2 = v0) as -> by congruence. all_in_solve.
      + all_in_solve.
      + all_in_solve.
      + all_in_solve.
    - assert (v = p) as -> by congruence.
      split_and!; try lia.
      split_and!; simpl; try lia; try done.
      eapply all_in_snoc; [done|done|]. unfold ltp. lia.
  Qed.

  (** State after the scan from above: the scanned part is classified and the
      scan stopped at a smaller element or met the other one. *)
Definition down_post (s0 s : part (A := A)) : Prop :=
    perm_in l0 (p_l s) ptr (ptr + nmemb) /\ rd (p_l s) ptr = Some p /\
    p_pi s = p_pi s0 /\ p_i s = p_i s0 /\ p_plt s = p_plt s0 /\ p_lt s = p_lt s0 /\
    p_pgt s = ptr + p_gt s /\ p_pj s < p_pj s0 /\ p_pi s <= p_pj s + 1 /\
    p_pj s + 1 <= p_pgt s <= ptr + nmemb /\
    all_in eqp (p_l s) ptr (p_plt s) /\ all_in ltp (p_l s) (p_plt s) (p_pi s) /\
    all_in gtp (p_l s) (p_pj s + 1) (p_pgt s) /\ all_in eqp (p_l s) (p_pgt s) (ptr + nmemb) /\
    ((p_pj s <= p_pi s /\ all_in gtp (p_l s) (p_pi s) (p_pgt s)) \/
     (p_pi s < p_pj s /\ all_in ltp (p_l s) (p_pj s) (p_pj s + 1) /\
      all_in gtp (p_l s) (p_pi s) (p_pi s + 1))).

Lemma scan_down_spec fuel s :
    part_inv s -> (Z.to_nat (p_pj s - p_pi s) < fuel)%nat ->
    (p_pi s = p_pj s \/ exists y, rd (p_l s) (p_pi s) = Some y /\ gtp y) ->
    wp (loop fuel (scan_down_body cmp ptr) s) (down_post s).
  Proof.
    intros Hs Hfuel Hstop.
    apply (wp_loop (fun s' => part_inv s' /\ p_pi s' = p_pi s /\ p_i s' = p_i s /\
               p_plt s' = p_plt s /\ p_lt s' = p_lt s /\ p_pj s' <= p_pj s /\
               (p_pi s' = p_pj s' \/ exists y, rd (p_l s') (p_pi s') = Some y /\ gtp y))
             (fun s => Z.to_nat (p_pj s - p_pi s))); [split_and!; try done; lia | done |].
    clear Hfuel Hstop. intros [l i lt gt pi plt pj pgt] (HI & Hpi & Hi & Hplt & Hlt & Hpj & Hstop).
    pose proof (part_inv_bounds _ HI) as (?&?&?).
    destruct HI as (Hp&Hpv&?&?&?&?&?&?&Q1&Q2&Q3&Q4). simpl in *.
    repeat arr_step; simpl.
    - unfold down_post; simpl. split_and!; try done; try lia.
      + replace (pj - 1 + 1) with pj by lia. done.
      + left. split; [lia|]. destruct Hstop as [->|(y&Hy&Hgt)]; [done|].
        destruct (decide (pi = pj)) as [->|]; [done|].
        eapply all_in_cons; [|done|done]. replace (pi + 1) with pj by lia. done.
    - assert (v = p) as -> by congruence.
      unfold down_post; simpl. split_and!; try done; try lia.
      + replace (pj - 1 + 1) with pj by lia. done.
      + right. split; [lia|].
        split; [eapply all_in_cons; [apply all_in_nil; lia|done|unfold ltp; lia]|].
        destruct Hstop as [?|(y&?&?)]; [lia|]. eapply all_in_cons; [apply all_in_nil; lia|done|done].
    - assert (v = p) as -> by congruence.
      split_and!; try lia.
      + split_and!; simpl; try lia.
        * eapply perm_in_trans; [done|]. apply swap_perm_in; auto; lia.
        * rewrite rd_swap by eassumption.
          by destruct (Z.eqb_spec ptr (pj - 1)), (Z.eqb_spec ptr (pgt - 1)); try lia.
        * all_in_solve.
        * all_in_solve.
        * all_in_solve.
        * assert (eqp v0) by (right; lia). assert (v2 = v0) as -> by congruence. all_in_solve.
      + right. destruct Hstop as [?|(y&Hy&Hgt)]; [lia|].
        exists y. split; [|done]. rewrite rd_swap by eassumption.
        by destruct (Z.eqb_spec pi (pj - 1)), (Z.eqb_spec pi (pgt - 1)); try lia.
    - assert (v = p) as -> by congruence.
      split_and!; try lia.
      + split_and!; simpl; try lia; try done.
        eapply all_in_cons; [|done|unfold gtp; lia].
        replace (pj - 1 + 1) with pj by lia. done.
      + right. destruct Hstop as [?|?]; [lia|done].
  Qed.

Lemma part_loop_spec fuel s :
    part_inv s -> (Z.to_nat (p_pj s - p_pi s) < fuel)%nat ->
    wp (loop fuel (part_body cmp ptr fuel) s) (fun s =>
      perm_in l0 (p_l s) ptr (ptr + nmemb) /\
      p_pi s = ptr + p_i s /\ p_plt s = ptr + p_lt s /\ p_pgt s = ptr + p_gt s /\
      ptr + 1 <= p_plt s <= p_pi s /\ p_pi s <= p_pgt s <= ptr + nmemb /\
      all_in eqp (p_l s) ptr (p_plt s) /\ all_in ltp (p_l s) (p_plt s) (p_pi s) /\
      all_in gtp (p_l s) (p_pi s) (p_pgt s) /\ all_in eqp (p_l s) (p_pgt s) (ptr + nmemb)).
  Proof.
    intros Hs Hfuel.
    apply (wp_loop (fun s' => part_inv s' /\ p_pj s' - p_pi s' <= p_pj s - p_pi s)
             (fun s => Z.to_nat (p_pj s - p_pi s))); [split; [done|lia]|done|].
    intros s1 [HI Hm]. unfold part_body. wp_step.
    eapply wp_mono; [apply scan_up_spec; [done|lia]|]. intros s2 (HI2 & Hpj2 & Hpi2 & Hstop).
    wp_step. eapply wp_mono; [apply scan_down_spec; [done|lia|done]|].
    pose proof (part_inv_bounds _ HI2) as (_&?&?).
    destruct HI2 as (_&_&?&?&?&?&?&?&_).
    intros [l i lt gt pi plt pj pgt]. unfold down_post; simpl.
    intros (Hp&Hpv&?&?&?&?&?&?&?&?&Q1&Q2&Q3&Q4&Hex).
    pose proof (perm_in_zlen _ _ _ _ Hp).
    wp_step.
    - wp_step. simpl. destruct Hex as [[? Hgt]|[? _]]; [|lia]. split_and!; try done; lia.
    - destruct Hex as [[? _]|(_ & Hlt & Hgt)]; [lia|].
      repeat arr_step. simpl. split_and!; try lia.
      split_and!; simpl; try lia.
      + eapply perm_in_trans; [done|]. apply swap_perm_in; auto; lia.
      + rewrite rd_swap by eassumption.
        by destruct (Z.eqb_spec ptr pj), (Z.eqb_spec ptr pi); try lia.
      + all_in_solve.
      + all_in_solve.
      + all_in_solve.
      + all_in_solve.
  Qed.
End partition.

Section blocks.
  Context {A : Type}.
  Implicit Types l : list A.

Lemma swap_block_spec n l a b lo hi :
    0 <= lo <= a -> a + Z.of_nat n <= b -> b + Z.of_nat n <= hi -> hi <= zlen l ->
    wp (swap_block n l a b) (fun l' =>
      perm_in l l' lo hi /\
      forall k, rd l' k = if (a <=? k) && (k <? a + Z.of_nat n) then rd l (k - a + b)
                          else if (b <=? k) && (k <? b + Z.of_nat n) then rd l (k - b + a)
                          else rd l k).
  Proof.
    revert l a b. induction n as [|n IH]; intros l a b ????; simpl.
    - split; [apply perm_in_refl; lia|]. intros k.
      by repeat (case_match; zbool; try lia).
    - repeat arr_step.
      assert (perm_in l (upd (upd l a v0) b v) lo hi) as Hp by (apply swap_perm_in; auto; lia).
      eapply wp_mono; [apply IH; autorewrite with zlen; lia|].
      intros l' [Hp' Hrd']. split; [by eapply perm_in_trans|].
      intros k. rewrite Hrd'. rewrite !(rd_swap l a b v v0) by done.
      repeat (case_match; zbool; try lia); try (f_equal; lia).
      all: try (replace (k - a + b) with b by lia); try (replace (k - b + a) with a by lia); done.
  Qed.

  (** Moving a run of elements: the two runs [lo, m) and [m, hi) exchange
      their places when the smaller of the two lengths is swapped. *)
Lemma swap_runs_spec (P Q : A -> Prop) l lo m hi :
    0 <= lo <= m -> m <= hi -> hi <= zlen l ->
    all_in P l lo m -> all_in Q l m hi ->
    let span := if (m - lo) >? (hi - m) then hi - m else m - lo in
    wp (swap_block (Z.to_nat span) l lo (hi - span)) (fun l' =>
      perm_in l l' lo hi /\ all_in Q l' lo (lo + (hi - m)) /\ all_in P l' (lo + (hi - m)) hi).
  Proof.
    intros ??? HP HQ span.
    assert (span = Z.min (m - lo) (hi - m)) as Hspan.
    { subst span. case_match; zbool; lia. }
    eapply wp_mono; [apply (swap_block_spec _ _ _ _ lo hi); lia|].
    intros l' [Hp Hrd]. split; [done|].
    split; intros k z Hk Hz; rewrite Hrd in Hz; repeat case_match; zbool;
      solve [lia | (eapply HP + eapply HQ); [|exact Hz]; lia].
  Qed.
End blocks.

Section partition_spec.
  Context {A : Type} (cmp : A -> A -> Z).

Lemma med3_spec l a b c :
    0 <= a < zlen l -> 0 <= b < zlen l -> 0 <= c < zlen l ->
    wp (med3 cmp l a b c) (fun m => m = a \/ m = b \/ m = c).
  Proof. intros. unfold med3. repeat arr_step. repeat case_match; auto. Qed.

  (** One pass rearranges the segment into the elements smaller than the
      pivot, those identical to it and the larger ones, and the two outer
      parts are shorter than the segment. *)
Lemma partition_spec l ptr nmemb :
    0 <= ptr -> 6 < nmemb -> ptr + nmemb <= zlen l ->
    wp (partition cmp ptr nmemb l) (fun '(l', lt, gt, pgt) =>
      exists p, perm_in l l' ptr (ptr + nmemb) /\ pgt = ptr + gt /\
      0 <= lt < gt /\ gt <= nmemb /\
      all_in (ltp cmp p) l' ptr (ptr + lt) /\
      all_in (eqp cmp p) l' (ptr + lt) (ptr + gt) /\
      all_in (gtp cmp p) l' (ptr + gt) (ptr + nmemb)).
  Proof.
    intros. unfold partition.
    assert (Z.shiftr nmemb 2 = nmemb / 4) as -> by (by rewrite Z.shiftr_div_pow2).
    assert (4 * (nmemb / 4) <= nmemb) by (apply Z.mul_div_le; lia).
    assert (0 < nmemb / 4) by (apply Z.div_str_pos; lia).
    wp_step. eapply wp_mono; [apply med3_spec; lia| cbv beta; intros m Hm].
    wp_step. apply wp_swap; [lia|lia|]. intros x p Hx Hp.
    set (l1 := upd (upd l ptr p) m x).
    assert (perm_in l l1 ptr (ptr + nmemb)) as Hp1 by (apply swap_perm_in; auto; lia).
    assert (rd l1 ptr = Some p).
    { unfold l1. rewrite (rd_swap l ptr m x p) by done.
      destruct (Z.eqb_spec ptr m), (Z.eqb_spec ptr ptr); subst; try lia; congruence. }
    clearbody l1. wp_step.
    eapply wp_mono; [apply (part_loop_spec cmp p l ptr nmemb)|].
    - unfold part_inv; simpl. split_and!; try done; try lia; try (apply all_in_nil; lia).
      eapply all_in_cons; [apply all_in_nil; lia|done|by left].
    - simpl. lia.
    - intros [l2 i lt gt pi plt pj pgt]; simpl.
      intros (Hp2 & ? & ? & ? & ? & ? & Q1 & Q2 & Q3 & Q4).
      pose proof (perm_in_zlen _ _ _ _ Hp2).
      wp_step. eapply wp_mono.
      { apply (swap_runs_spec (eqp cmp p) (ltp cmp p) l2 ptr plt pi); try done; lia. }
      intros l3 (Hp3 & R1 & R2). pose proof (perm_in_zlen _ _ _ _ Hp3).
      assert (all_in (gtp cmp p) l3 pi pgt) as R3
        by (eapply perm_in_all_disj; [done|right; lia|done]).
      assert (all_in (eqp cmp p) l3 pgt (ptr + nmemb)) as R4
        by (eapply perm_in_all_disj; [done|right; lia|done]).
      wp_step.
      (* the second exchange moves the run [pgt, top) below [pi, pgt) *)
      replace (if ptr + nmemb - pgt >? pgt - pi then pgt - pi else ptr + nmemb - pgt)
        with (if pgt - pi >? ptr + nmemb - pgt then ptr + nmemb - pgt else pgt - pi)
        by (repeat case_match; zbool; lia).
      eapply wp_mono.
      { apply (swap_runs_spec (gtp cmp p) (eqp cmp p) l3 pi pgt (ptr + nmemb)); try done; lia. }
      intros l4 (Hp4 & S1 & S2). wp_step.
      assert (perm_in l3 l4 ptr (ptr + nmemb)) as Hp4' by (eapply perm_in_weaken; [done|lia|lia]).
      exists p. split_and!; try lia.
      + eapply perm_in_trans; [done|]. eapply perm_in_trans; [|done].
        eapply perm_in_weaken; [done|lia|lia].
      + eapply perm_in_all_disj; [exact Hp4|left; lia|].
        eapply all_in_mono; [exact R1|lia|lia].
      + eapply (all_in_app _ _ _ pi).
        * eapply perm_in_all_disj; [exact Hp4|left; lia|]. eapply all_in_mono; [exact R2|lia|lia].
        * eapply all_in_mono; [exact S1|lia|lia].
      + eapply all_in_mono; [exact S2|lia|lia].
  Qed.
End partition_spec.

(** ** Comparison callbacks that order the elements *)

Class CmpLaws {A} (cmp : A -> A -> Z) : Prop := {
  cmp_antisym x y : Z.sgn (cmp y x) = - Z.sgn (cmp x y);
  cmp_trans x y z : cmp x y <= 0 -> cmp y z <= 0 -> cmp x z <= 0 }.

Section order.
  Context {A : Type} (cmp : A -> A -> Z) `{!CmpLaws cmp}.

Lemma cmp_flip x y : cmp x y >= 0 -> cmp y x <= 0.
  Proof. pose proof (cmp_antisym x y). lia. Qed.

Lemma cmp_flip_eq x y : cmp x y = 0 -> cmp y x = 0.
  Proof. pose proof (cmp_antisym x y). lia. Qed.

Lemma cmp_flip_lt x y : cmp x y < 0 -> cmp y x > 0.
  Proof. pose proof (cmp_antisym x y). lia. Qed.

Lemma cmp_refl x : cmp x x = 0.
  Proof. pose proof (cmp_antisym x x). lia. Qed.
End order.

(** The range [lo, hi) is in the order of the callback. *)
Definition sorted_in {A} (cmp : A -> A -> Z) (l : list A) (lo hi : Z) : Prop :=
  forall i j x y, lo <= i < j -> j < hi ->
    rd l i = Some x -> rd l j = Some y -> cmp x y <= 0.

(** ** Heap sort *)

Section heap.
  Context {A : Type} (cmp : A -> A -> Z) (base : Z).
  Implicit Types l : list A.

Definition child (r c : Z) : Prop := c = 2 * r + 1 \/ c = 2 * r + 2.

  (** Every node from [s] on, except [r0], is at least its children. *)
Definition heap_but (r0 s n : Z) l : Prop :=
    forall r c x y, s <= r -> child r c -> c < n -> r <> r0 ->
      rd l (base + r) = Some x -> rd l (base + c) = Some y -> cmp y x <= 0.

  (** The children of [r0] are at most its parent. *)
Definition grand (r0 s n : Z) l : Prop :=
    forall q c x y, s <= q -> child q r0 -> child r0 c -> c < n ->
      rd l (base + q) = Some x -> rd l (base + c) = Some y -> cmp y x <= 0.

Definition heap (s n : Z) l : Prop :=
    forall r c x y, s <= r -> child r c -> c < n ->
      rd l (base + r) = Some x -> rd l (base + c) = Some y -> cmp y x <= 0.

Lemma heap_root_max `{!CmpLaws cmp} n l k x y :
    heap 0 n l -> base + n <= zlen l -> 0 <= base -> 0 <= k < n ->
    rd l base = Some x -> rd l (base + k) = Some y -> cmp y x <= 0.
  Proof.
    intros Hh Hn Hb. revert y. induction (Z.lt_wf 0 k) as [k _ IH]. intros y Hk Hx Hy.
    destruct (decide (k = 0)) as [->|].
    - rewrite Z.add_0_r in Hy. simplify_eq. rewrite cmp_refl; [lia|done].
    - pose proof (Z.div_mod (k - 1) 2 ltac:(lia)).
      pose proof (Z.mod_pos_bound (k - 1) 2 ltac:(lia)).
      set (q := (k - 1) / 2) in *. destruct (rd_is_Some l (base + q)) as [z Hz]; [lia|].
      apply (cmp_trans _ z).
      + apply (Hh q k z y); [lia|unfold child; lia|lia|done|done].
      + apply (IH q); [lia|lia|done|done].
  Qed.

  (** What a swap of a node with its larger child does to the heap. *)
Lemma sift_swap `{!CmpLaws cmp} s n l r c x y :
    0 <= base -> 0 <= s <= r -> child r c -> c < n ->
    rd l (base + r) = Some x -> rd l (base + c) = Some y ->
    heap_but r s n l -> grand r s n l -> cmp x y <= 0 ->
    (forall c' z, child r c' -> c' < n -> rd l (base + c') = Some z -> cmp z y <= 0) ->
    heap_but c s n (upd (upd l (base + r) y) (base + c) x) /\
    grand c s n (upd (upd l (base + r) y) (base + c) x).
  Proof.
    intros Hb Hsr Hrc Hcn Hx Hy Hh Hg Hxy Hmax. split.
    - intros r' c' x' y' ? Hch ? Hne Hx' Hy'.
      rewrite (rd_swap l _ _ x y) in Hx' by done. rewrite (rd_swap l _ _ x y) in Hy' by done.
      unfold child in *.
      repeat (case_match; zbool; try lia); simplify_eq.
      + done.
      + apply (Hg r' c x' y'); unfold child; try done; lia.
      + apply (Hmax c' y'); [unfold child; lia|lia|done].
      + apply (Hh r' c' x' y'); unfold child; try done; lia.
    - intros q c' x' y' ? Hq Hch ? Hx' Hy'.
      rewrite (rd_swap l _ _ x y) in Hx' by done. rewrite (rd_swap l _ _ x y) in Hy' by done.
      unfold child in *. assert (q = r) as -> by lia.
      repeat (case_match; zbool; try lia); simplify_eq.
      apply (Hh c c' x' y'); unfold child; try done; lia.
  Qed.

  (** The larger child, as the loop picks it. *)
Definition pick (n c : Z) l : option Z :=
    if c <? n - 1
    then x ← rd l (base + c); y ← rd l (base + c + 1);
         Some (if cmp x y <=? 0 then c + 1 else c)
    else Some c.

Lemma pick_spec n l r :
    0 <= base -> 0 <= r -> 2 * r + 1 < n -> base + n <= zlen l ->
    wp (pick n (r * 2 + 1) l) (fun c =>
      child r c /\ c < n /\
      (CmpLaws cmp -> forall y c' z, rd l (base + c) = Some y ->
         child r c' -> c' < n -> rd l (base + c') = Some z -> cmp z y <= 0)).
  Proof.
    intros. unfold pick, child. repeat arr_step.
    - destruct (cmp v v0 <=? 0) eqn:Hc1; zbool; (split_and!; [lia|lia|]);
        intros ? y c' z Hy [-> | ->] ? Hz.
      + replace (base + (2 * r + 1)) with (base + (r * 2 + 1)) in Hz by lia.
        replace (base + (r * 2 + 1 + 1)) with (base + (r * 2 + 1) + 1) in Hy by lia. by simplify_eq.
      + replace (base + (2 * r + 2)) with (base + (r * 2 + 1) + 1) in Hz by lia.
        replace (base + (r * 2 + 1 + 1)) with (base + (r * 2 + 1) + 1) in Hy by lia.
        simplify_eq. rewrite cmp_refl; [lia|done].
      + replace (base + (2 * r + 1)) with (base + (r * 2 + 1)) in Hz by lia.
        simplify_eq. rewrite cmp_refl; [lia|done].
      + replace (base + (2 * r + 2)) with (base + (r * 2 + 1) + 1) in Hz by lia.
        simplify_eq. apply cmp_flip; [done|lia].
    - split_and!; [lia|lia|]. intros ? y c' z Hy [-> | ->] ? Hz; [|lia].
      replace (base + (2 * r + 1)) with (base + (r * 2 + 1)) in Hz by lia.
      simplify_eq. rewrite cmp_refl; [lia|done].
  Qed.

  (** Sifting down keeps the elements, stays inside the segment and, with an
      ordering callback, repairs the heap at [s]. *)
Lemma sift_spec s n l :
    0 <= base -> 0 <= s -> 0 <= n -> base + n <= zlen l ->
    wp (sift cmp base n l s) (fun l' =>
      perm_in l l' base (base + n) /\
      (CmpLaws cmp -> heap_but s s n l -> heap s n l')).
  Proof.
    intros Hb Hs Hn Hlen.
    apply (wp_loop (fun '(l', r) => perm_in l l' base (base + n) /\ s <= r /\
               (CmpLaws cmp -> heap_but s s n l -> heap_but r s n l' /\ grand r s n l'))
             (fun '(_, r) => Z.to_nat (n - r))).
    - split_and!; [apply perm_in_refl; lia|lia|].
      intros _ Hh. split; [done|]. unfold grand, child. intros. lia.
    - lia.
    - intros [l' r] (Hp & Hr & Hh). pose proof (perm_in_zlen _ _ _ _ Hp).
      unfold sift_body. fold (pick n (r * 2 + 1) l').
      wp_step.
      { wp_step. split; [done|]. intros L Hh0. destruct (Hh L Hh0) as [Hb' _].
        intros r' c x y ? Hch ?. unfold child in Hch.
        destruct (decide (r' = r)); [lia|]. apply (Hb' r' c); [done|done|done|done]. }
      wp_step. eapply wp_mono; [apply pick_spec; lia|]. cbv beta. intros c (Hch & Hcn & Hmax).
      assert (r < c) by (unfold child in Hch; lia).
      repeat arr_step.
      + split; [done|]. intros L Hh0. destruct (Hh L Hh0) as [Hb' _].
        intros r' c' x y ? Hch' ? Hx Hy.
        destruct (decide (r' = r)) as [->|]; [|by apply (Hb' r' c')]. simplify_eq.
        apply (cmp_trans _ v0); [by apply (Hmax L v0 c')|apply cmp_flip; [done|lia]].
      + split; [|lia]. split_and!; [|lia|].
        * eapply perm_in_trans; [done|]. apply swap_perm_in; auto; lia.
        * intros L Hh0. destruct (Hh L Hh0) as [Hb' Hg']. simplify_eq.
          eapply sift_swap; try done. intros c' z ???. by eapply Hmax.
  Qed.

Lemma heapify_spec n l :
    0 <= base -> 1 < n -> base + n <= zlen l ->
    wp (loop (Z.to_nat n + 1) (heapify_body cmp base n) (l, n / 2)) (fun l' =>
      perm_in l l' base (base + n) /\ (CmpLaws cmp -> heap 0 n l')).
  Proof.
    intros Hb Hn Hlen.
    pose proof (Z.div_mod n 2 ltac:(lia)). pose proof (Z.mod_pos_bound n 2 ltac:(lia)).
    apply (wp_loop (fun '(l', i) => perm_in l l' base (base + n) /\ 0 <= i <= n / 2 /\
               (CmpLaws cmp -> heap i n l'))
             (fun '(_, i) => Z.to_nat i)).
    - split_and!; [apply perm_in_refl; lia|lia|lia|].
      intros _ r c x y ? Hch. unfold child in Hch. lia.
    - lia.
    - intros [l' i] (Hp & Hi & Hh). pose proof (perm_in_zlen _ _ _ _ Hp).
      unfold heapify_body. wp_step.
      { wp_step. split; [done|]. intros L. specialize (Hh L). by replace i with 0 in Hh by lia. }
      wp_step. eapply wp_mono; [apply sift_spec; lia|]. cbv beta. intros l2 (Hp2 & Hh2).
      wp_step. split; [|lia]. split_and!; [by eapply perm_in_trans|lia|lia|].
      intros L. apply Hh2; [done|]. intros r c x y ????. apply (Hh L r c); [lia|done|done].
  Qed.

Lemma extract_spec n l :
    0 <= base -> 1 < n -> base + n <= zlen l ->
    wp (loop (Z.to_nat n + 1) (extract_body cmp base) (l, n - 1)) (fun l' =>
      perm_in l l' base (base + n) /\
      (CmpLaws cmp -> heap 0 n l -> sorted_in cmp l' base (base + n))).
  Proof.
    intros Hb Hn Hlen.
    apply (wp_loop (fun '(l', i) => perm_in l l' base (base + n) /\ 0 <= i < n /\
               (CmpLaws cmp -> heap 0 n l -> heap 0 (i + 1) l' /\
                 forall j k x y, 0 <= j < k -> i < k < n ->
                   rd l' (base + j) = Some x -> rd l' (base + k) = Some y -> cmp x y <= 0))
             (fun '(_, i) => Z.to_nat i)).
    - split_and!; [apply perm_in_refl; lia|lia|lia|].
      intros L Hh. split; [|lia]. by replace (n - 1 + 1) with n by lia.
    - lia.
    - intros [l' i] (Hp & Hi & Hh). pose proof (perm_in_zlen _ _ _ _ Hp).
      unfold extract_body. wp_step.
      { wp_step. split; [done|]. intros L Hh0. destruct (Hh L Hh0) as [_ Hs].
        intros j k x y ?? Hx Hy. apply (Hs (j - base) (k - base)); [lia|lia| |].
        - rewrite <- Hx. f_equal. lia.
        - rewrite <- Hy. f_equal. lia. }
      repeat arr_step.
      set (l2 := upd (upd l' base v0) (base + i) v).
      assert (perm_in l' l2 base (base + n)) as Hp2 by (apply swap_perm_in; auto; lia).
      assert (perm_in l' l2 base (base + (i + 1))) as Hp2' by (apply swap_perm_in; auto; lia).
      pose proof (perm_in_zlen _ _ _ _ Hp2).
      eapply wp_mono; [apply sift_spec; lia|]. cbv beta. intros l3 (Hp3 & Hh3).
      wp_step. split; [|lia].
      assert (perm_in l2 l3 base (base + n)) as Hp3' by (eapply perm_in_weaken; [done|lia|lia]).
      split_and!; [|lia|lia|].
      + eapply perm_in_trans; [done|]. by eapply perm_in_trans.
      + intros L Hh0. destruct (Hh L Hh0) as [Hheap Hs].
        replace (i - 1 + 1) with i by lia. split.
        * apply Hh3; [done|]. intros r c x y ? Hch ? Hne Hx Hy. unfold child in Hch.
          unfold l2 in Hx, Hy. rewrite rd_swap in Hx by done. rewrite rd_swap in Hy by done.
          repeat (case_match; zbool; try lia). apply (Hheap r c); unfold child; try done; lia.
        * (* the maximum is now at [i] *)
          assert (all_in (fun x => cmp x v <= 0) l' base (base + (i + 1))) as Hall.
          { intros k x Hk Hx. apply (heap_root_max (i + 1) l' (k - base) v x); try done; try lia.
            by replace (base + (k - base)) with k by lia. }
          assert (all_in (fun x => cmp x v <= 0) l3 base (base + i)) as Hall3.
          { eapply (perm_in_all _ l2 l3); [exact Hp3|lia|lia|].
            apply (all_in_mono _ l2 base (base + (i + 1))); [|lia|lia].
            by apply (perm_in_all _ _ _ _ _ base (base + (i + 1)) Hp2'). }
          intros j k x y ?? Hx Hy.
          rewrite (perm_in_outside _ _ _ _ (base + k) Hp3) in Hy by lia.
          destruct (decide (k = i)) as [->|].
          { unfold l2 in Hy. rewrite rd_upd_eq in Hy by (rewrite zlen_upd; lia). simplify_eq.
            apply (Hall3 (base + j)); [lia|done]. }
          unfold l2 in Hy. rewrite (rd_swap _ _ _ _ _ (base + k) Hrd Hrd0) in Hy.
          repeat (case_match; zbool; try lia).
          assert (all_in (fun z => cmp z y <= 0) l' base (base + k)) as Hally.
          { intros j' z ? Hz. apply (Hs (j' - base) k); [lia|lia| |done].
            by replace (base + (j' - base)) with j' by lia. }
          assert (perm_in l' l3 base (base + k)) as Hp'.
          { eapply perm_in_trans; [eapply perm_in_weaken; [exact Hp2'|lia|lia]|].
            eapply perm_in_weaken; [exact Hp3|lia|lia]. }
          by apply (perm_in_all _ _ _ _ _ base (base + k) Hp' ltac:(done) ltac:(done) Hally (base + j));
            [lia|].
  Qed.
End heap.

Lemma heapsortx_spec {A} (cmp : A -> A -> Z) base n l :
  0 <= base -> 0 <= n -> base + n <= zlen l ->
  wp (heapsortx cmp base n l) (fun l' =>
    perm_in l l' base (base + n) /\ (CmpLaws cmp -> sorted_in cmp l' base (base + n))).
Proof.
  intros. unfold heapsortx. wp_step.
  - wp_step. eapply wp_mono; [apply heapify_spec; lia|]. cbv beta. intros l1 (Hp1 & Hh).
    pose proof (perm_in_zlen _ _ _ _ Hp1).
    eapply wp_mono; [apply extract_spec; lia|]. cbv beta. intros l2 (Hp2 & Hs).
    split; [by eapply perm_in_trans|]. intros L. apply Hs; [done|by apply Hh].
  - wp_step. split; [apply perm_in_refl; lia|]. intros _ i j. lia.
Qed.

(** ** Insertion sort *)

Section insertion.
  Context {A : Type} (cmp : A -> A -> Z).
  Implicit Types l : list A.

  (** [lo, hi) is in order except that the element at [pj] may be smaller
      than the ones before it. *)
Definition sorted_but (pj : Z) l (lo hi : Z) : Prop :=
    forall i j x y, lo <= i < j -> j < hi -> j <> pj ->
      rd l i = Some x -> rd l j = Some y -> cmp x y <= 0.

Lemma sorted_but_swap `{!CmpLaws cmp} pj l lo hi x y :
    0 <= lo < pj -> pj < hi -> rd l (pj - 1) = Some x -> rd l pj = Some y ->
    cmp x y > 0 -> sorted_but pj l lo hi ->
    sorted_but (pj - 1) (upd (upd l pj x) (pj - 1) y) lo hi.
  Proof.
    intros ?? Hx Hy Hc Hs i j a b ??? Ha Hb.
    rewrite (rd_swap l pj (pj - 1) y x) in Ha by done.
    rewrite (rd_swap l pj (pj - 1) y x) in Hb by done.
    repeat (case_match; zbool; try lia); simplify_eq.
    all: first
      [ apply cmp_flip; [done|lia]
      | match goal with
        | Ha : rd ?l ?i = Some ?a, Hb : rd ?l ?j = Some ?b |- cmp ?a ?b <= 0 =>
            apply (Hs i j); [lia|lia|lia|exact Ha|exact Hb]
        end ].
  Qed.

Lemma insert_spec ptr pi l :
    0 <= ptr <= pi -> pi < zlen l ->
    wp (loop (Z.to_nat (pi - ptr) + 1) (insert_body cmp ptr) (l, pi)) (fun l' =>
      perm_in l l' ptr (pi + 1) /\
      (CmpLaws cmp -> sorted_in cmp l ptr pi -> sorted_in cmp l' ptr (pi + 1))).
  Proof.
    intros Hptr Hlen.
    apply (wp_loop (fun '(l', pj) => perm_in l l' ptr (pi + 1) /\ ptr <= pj <= pi /\
               (CmpLaws cmp -> sorted_in cmp l ptr pi -> sorted_but pj l' ptr (pi + 1)))
             (fun '(_, pj) => Z.to_nat (pj - ptr))).
    - split_and!; [apply perm_in_refl; lia|lia|lia|].
      intros _ Hs i j x y ???. apply Hs; lia.
    - lia.
    - intros [l' pj] (Hp & Hpj & Hs). pose proof (perm_in_zlen _ _ _ _ Hp).
      unfold insert_body. repeat arr_step.
      + split; [done|]. intros L Hs0 i j x y ??. apply (Hs L Hs0); lia.
      + split; [done|]. intros L Hs0 i j x y ?? Hx Hy. specialize (Hs L Hs0).
        destruct (decide (j = pj)) as [->|]; [|by apply (Hs i j)]. simplify_eq.
        destruct (decide (i = pj - 1)) as [->|]; [by simplify_eq|].
        apply (cmp_trans _ v); [apply (Hs i (pj - 1)); try done; lia|lia].
      + simplify_eq. split; [|lia]. split_and!; [|lia|lia|].
        * eapply perm_in_trans; [done|]. apply swap_perm_in; auto; lia.
        * intros L Hs0. apply sorted_but_swap; try done; try lia. by apply Hs.
  Qed.

Lemma insertion_sort_spec ptr n l :
    0 <= ptr -> 0 <= n -> ptr + n <= zlen l ->
    wp (insertion_sort cmp ptr n l) (fun l' =>
      perm_in l l' ptr (ptr + n) /\ (CmpLaws cmp -> sorted_in cmp l' ptr (ptr + n))).
  Proof.
    intros Hptr Hn Hlen.
    apply (wp_loop (fun '(l', pi) => perm_in l l' ptr (ptr + n) /\ ptr + 1 <= pi /\
               (CmpLaws cmp -> sorted_in cmp l' ptr (Z.min pi (ptr + n))))
             (fun '(_, pi) => Z.to_nat (ptr + n - pi))).
    - split_and!; [apply perm_in_refl; lia|lia|]. intros _ i j. lia.
    - lia.
    - intros [l' pi] (Hp & Hpi & Hs). pose proof (perm_in_zlen _ _ _ _ Hp).
      unfold insertion_body. wp_step.
      { wp_step. split; [done|]. intros L. specialize (Hs L). by replace (Z.min pi _) with (ptr + n) in Hs by lia. }
      wp_step. eapply wp_mono; [apply insert_spec; lia|]. cbv beta. intros l2 (Hp2 & Hs2).
      wp_step. split; [|lia]. split_and!; [|lia|].
      + eapply perm_in_trans; [done|]. eapply perm_in_weaken; [done|lia|lia].
      + intros L. replace (Z.min (pi + 1) (ptr + n)) with (pi + 1) by lia. apply Hs2; [done|].
        specialize (Hs L). by replace (Z.min pi _) with pi in Hs by lia.
  Qed.
End insertion.

(** ** The pending segments of the main loop *)

Section main.
  Context {A : Type} (cmp : A -> A -> Z) (l0 : list A) (N : Z).
  Implicit Types (l : list A) (e : seg) (es stk : list seg).

Definition seg_in (i : Z) e : Prop := let '(b, c, _) := e in b <= i < b + c.
Definition seg_ok e : Prop := let '(b, c, _) := e in 0 <= b /\ 0 <= c /\ b + c <= N.
Definition disj e e' : Prop := forall i, seg_in i e -> seg_in i e' -> False.
Fixpoint segs_disj es : Prop :=
    match es with [] => True | e :: es => Forall (disj e) es /\ segs_disj es end.

  (** Two positions are in order, or some pending segment holds both. *)
Definition ordered es l (i j : Z) : Prop :=
    forall x y, rd l i = Some x -> rd l j = Some y ->
      (exists e, e ∈ es /\ seg_in i e /\ seg_in j e) \/ cmp x y <= 0.

Definition qinv es l : Prop :=
    perm_in l0 l 0 N /\ Forall seg_ok es /\ segs_disj es /\
    (CmpLaws cmp -> forall i j, 0 <= i < j -> j < N -> ordered es l i j).

Lemma segs_disj_app es stk :
    segs_disj es -> segs_disj stk -> Forall (fun e => Forall (disj e) stk) es ->
    segs_disj (es ++ stk).
  Proof.
    induction es as [|e es IH]; simpl; [done|].
    intros [??] ? [??]%Forall_cons. split; [by apply Forall_app|by apply IH].
  Qed.

  (** Rearranging one pending segment and splitting it into smaller ones. *)
Lemma qinv_refine b c d stk l l' es :
    qinv ((b, c, d) :: stk) l ->
    perm_in l l' b (b + c) ->
    Forall (fun e => seg_ok e /\ forall i, seg_in i e -> b <= i < b + c) es ->
    segs_disj es ->
    (CmpLaws cmp -> forall i j, b <= i < j -> j < b + c -> ordered es l' i j) ->
    qinv (es ++ stk) l'.
  Proof.
    intros (Hp & Hok & Hd & Hord) Hp' Hes Hdes Hord'.
    apply Forall_cons in Hok as [(?&?&?) Hok]. destruct Hd as [Hde Hd].
    pose proof (perm_in_zlen _ _ _ _ Hp). pose proof (perm_in_range _ _ _ _ Hp) as [_ ?].
    split_and!.
    - eapply perm_in_trans; [done|]. eapply perm_in_weaken; [done|lia|lia].
    - apply Forall_app. split; [|done]. eapply Forall_impl; [done|]. by intros e [? _].
    - apply segs_disj_app; [done|done|]. eapply Forall_impl; [done|]. intros e [_ Hin].
      eapply Forall_impl; [done|]. intros e' Hdis i ??. by apply (Hdis i); [apply Hin|].
    - intros L i j Hij HjN x y Hx Hy.
      assert (Hstk : forall i j x y, 0 <= i < j -> j < N -> rd l i = Some x -> rd l j = Some y ->
                ~ (b <= i < b + c /\ b <= j < b + c) ->
                (exists e, e ∈ stk /\ seg_in i e /\ seg_in j e) \/ cmp x y <= 0).
      { clear - Hord L. intros i j x y ?? Hx Hy Hn.
        destruct (Hord L i j ltac:(lia) ltac:(lia) x y Hx Hy) as [(e & He & ? & ?)|?]; [|by right].
        apply elem_of_cons in He as [->|?]; [by destruct Hn|left; eauto]. }
      assert (Hout : forall i j, b <= i < b + c -> ~ (exists e, e ∈ stk /\ seg_in i e /\ seg_in j e)).
      { intros i' j' Hi' (e & He & ? & _). rewrite Forall_forall in Hde. by apply (Hde e He i'). }
      destruct (decide (b <= i < b + c)) as [Hi|Hi], (decide (b <= j < b + c)) as [Hj|Hj].
      + destruct (Hord' L i j ltac:(lia) ltac:(lia) x y Hx Hy) as [(e&?&?&?)|?]; [|by right].
        left. exists e. by rewrite elem_of_app; auto.
      + right. rewrite (perm_in_outside _ _ _ _ _ Hp' Hj) in Hy.
        assert (all_in (fun z => cmp z y <= 0) l b (b + c)) as Hall.
        { intros i' z Hi' Hz. destruct (Hstk i' j z y ltac:(lia) ltac:(lia) Hz Hy) as [?|?]; auto;
            [lia|]. by destruct (Hout i' j Hi'). }
        by apply (perm_in_all _ _ _ _ _ b (b + c) Hp' ltac:(done) ltac:(done) Hall i).
      + right. rewrite (perm_in_outside _ _ _ _ _ Hp' Hi) in Hx.
        assert (all_in (fun z => cmp x z <= 0) l b (b + c)) as Hall.
        { intros j' z Hj' Hz. destruct (Hstk i j' x z ltac:(lia) ltac:(lia) Hx Hz) as [(e&?&?&?)|?];
            auto; [lia|]. destruct (Hout j' i Hj'). eauto. }
        by apply (perm_in_all _ _ _ _ _ b (b + c) Hp' ltac:(done) ltac:(done) Hall j).
      + rewrite (perm_in_outside _ _ _ _ _ Hp' Hi) in Hx.
        rewrite (perm_in_outside _ _ _ _ _ Hp' Hj) in Hy.
        destruct (Hstk i j x y ltac:(lia) ltac:(lia) Hx Hy) as [(e&?&?&?)|?]; [tauto| |by right].
        left. exists e. by rewrite elem_of_app; auto.
  Qed.

  (** A segment that has been sorted is no longer pending. *)
Lemma qinv_sorted b c d stk l l' :
    qinv ((b, c, d) :: stk) l -> perm_in l l' b (b + c) ->
    (CmpLaws cmp -> sorted_in cmp l' b (b + c)) -> qinv stk l'.
  Proof.
    intros Hq Hp Hs. apply (qinv_refine b c d stk l l' []); [done|done|constructor|done|].
    intros L i j ?? x y ??. right. by apply (Hs L i j).
  Qed.

  (** After a partition pass the two outer parts are pending. *)
Lemma qinv_partition p b c d lt gt d1 d2 stk l l' :
    qinv ((b, c, d) :: stk) l -> perm_in l l' b (b + c) ->
    0 <= lt < gt -> gt <= c ->
    all_in (ltp cmp p) l' b (b + lt) -> all_in (eqp cmp p) l' (b + lt) (b + gt) ->
    all_in (gtp cmp p) l' (b + gt) (b + c) ->
    qinv ((b + gt, c - gt, d2) :: (b, lt, d1) :: stk) l'.
  Proof.
    intros Hq Hp ?? Hlt Heq Hgt.
    destruct (Hq) as (_ & [(?&?&?) _]%Forall_cons & _).
    apply (qinv_refine b c d stk l l' [(b + gt, c - gt, d2); (b, lt, d1)]); [done|done| | |].
    - rewrite !Forall_cons. simpl. split_and!; try lia; done.
    - simpl. rewrite Forall_singleton. split_and!; try done. intros i; simpl; lia.
    - intros L i j Hij Hj x y Hx Hy.
      destruct (decide (j < b + lt)).
      { left. exists (b, lt, d1). split; [set_solver|]. simpl. lia. }
      destruct (decide (b + gt <= i)).
      { left. exists (b + gt, c - gt, d2). split; [set_solver|]. simpl. lia. }
      right. apply (cmp_trans _ p).
      + destruct (decide (i < b + lt)).
        * apply cmp_flip; [done|]. specialize (Hlt i x ltac:(lia) Hx). unfold ltp in Hlt. lia.
        * destruct (Heq i x ltac:(lia) Hx) as [->|?]; [rewrite cmp_refl; [lia|done]|].
          rewrite cmp_flip_eq; [lia|done|done].
      + destruct (decide (j < b + gt)).
        * destruct (Heq j y ltac:(lia) Hy) as [->|?]; [rewrite cmp_refl; [lia|done]|lia].
        * specialize (Hgt j y ltac:(lia) Hy). unfold gtp in Hgt. lia.
  Qed.

Lemma qinv_swap2 e1 e2 stk l : qinv (e1 :: e2 :: stk) l -> qinv (e2 :: e1 :: stk) l.
  Proof.
    intros (Hp & Hok & Hd & Hord). split_and!; [done| | |].
    - by rewrite !Forall_cons in *; tauto.
    - simpl in *. rewrite !Forall_cons in *. destruct Hd as [[Hd1 ?] [? ?]].
      split_and!; try done. intros i ??. by apply (Hd1 i).
    - intros L i j ?? x y Hx Hy. destruct (Hord L i j ltac:(lia) ltac:(lia) x y Hx Hy) as [(e&?&?&?)|?];
        [left|by right]. exists e. set_solver.
  Qed.

  (** An entry of the stack has at most [depth] entries below it. *)
Fixpoint stack_ok stk : Prop :=
    match stk with
    | [] => True
    | (_, _, d) :: stk => zlen stk <= d <= 50 /\ stack_ok stk
    end.

Fixpoint weight stk : Z :=
    match stk with [] => 0 | (_, c, _) :: stk => 2 * c + 1 + weight stk end.

Lemma weight_nonneg stk l : qinv stk l -> 0 <= weight stk.
  Proof.
    intros (_ & Hok & _). induction stk as [|[[b c] d] stk IH]; simpl; [lia|].
    apply Forall_cons in Hok as [(?&?&?) ?]. specialize (IH ltac:(done)). lia.
  Qed.

Lemma quick_spec fuel l stk ptr n d :
    qinv ((ptr, n, d) :: stk) l -> zlen stk <= d <= 50 -> stack_ok stk ->
    n < Z.of_nat fuel ->
    wp (loop fuel (quick_body cmp) (l, stk, ptr, n, d)) (fun '(l', stk', ptr', n') =>
      exists d', qinv ((ptr', n', d') :: stk') l' /\ stack_ok stk' /\
        weight stk' + 2 * n' + 1 <= weight stk + 2 * n + 1).
  Proof.
    intros Hq Hd Hst Hfuel.
    apply (wp_loop (fun '(l', stk', ptr', n', d') =>
               qinv ((ptr', n', d') :: stk') l' /\ zlen stk' <= d' <= 50 /\ stack_ok stk' /\
               weight stk' + 2 * n' + 1 <= weight stk + 2 * n + 1)
             (fun '(_, _, _, n', _) => Z.to_nat n')).
    - split_and!; try done; lia.
    - destruct (Hq) as (_ & [(?&?&?) _]%Forall_cons & _). lia.
    - clear. intros [[[[l' stk'] ptr'] n'] d'] (Hq & Hd & Hst & Hw).
      destruct (Hq) as (Hp & [(?&?&?) _]%Forall_cons & _).
      pose proof (perm_in_zlen _ _ _ _ Hp). pose proof (perm_in_range _ _ _ _ Hp) as [_ ?].
      unfold quick_body. wp_step; [wp_step; by exists d'|]. wp_step.
      { wp_step. eapply wp_mono; [apply heapsortx_spec; lia|]. cbv beta. intros l2 (Hp2 & Hs2).
        wp_step. exists d'. split_and!; [|done|lia].
        apply (qinv_refine ptr' n' d' stk' l' l2 [(ptr', 0, d')]); [done|done| | |].
        - rewrite Forall_singleton. simpl. split_and!; lia.
        - done.
        - intros L i j ?? x y ??. right. by apply (Hs2 L i j). }
      wp_step. eapply wp_mono; [apply partition_spec; lia|]. cbv beta.
      intros [[[l2 lt] gt] pgt] (p & Hp2 & -> & ? & ? & Q1 & Q2 & Q3).
      wp_step; wp_step; unfold push; replace (zlen stk' <? 50) with true by lia; wp_step; wp_step;
        (split; [|lia]); cbn [weight stack_ok]; rewrite zlen_cons; split_and!; try lia; try done.
      + by eapply qinv_partition.
      + apply qinv_swap2. by eapply qinv_partition.
  Qed.

Lemma rqsort_loop_spec fuel qfuel l stk :
    qinv stk l -> stack_ok stk -> weight stk < Z.of_nat fuel -> N < Z.of_nat qfuel ->
    wp (loop fuel (rqsort_body cmp qfuel) (l, stk)) (qinv []).
  Proof.
    intros Hq Hst Hfuel Hqf.
    apply (wp_loop (fun '(l', stk') => qinv stk' l' /\ stack_ok stk')
             (fun '(_, stk') => Z.to_nat (weight stk'))); [done| |].
    { pose proof (weight_nonneg _ _ Hq). lia. }
    clear Hq Hst Hfuel. intros [l' [|[[b c] d] stk']] [Hq Hst]; [done|].
    destruct (Hq) as (_ & [(?&?&?) _]%Forall_cons & _). destruct Hst as [Hd Hst].
    unfold rqsort_body. wp_step.
    eapply wp_mono; [apply quick_spec; [done|done|done|lia]|]. cbv beta.
    intros [[[l2 stk2] b2] c2] (d2 & Hq2 & Hst2 & Hw).
    destruct (Hq2) as (Hp2 & [(?&?&?) _]%Forall_cons & _).
    pose proof (perm_in_zlen _ _ _ _ Hp2). pose proof (perm_in_range _ _ _ _ Hp2) as [_ ?].
    wp_step. eapply wp_mono; [apply insertion_sort_spec; lia|]. cbv beta. intros l3 (Hp3 & Hs3).
    wp_step. assert (qinv stk2 l3) as Hq3 by (by eapply qinv_sorted).
    split; [done|]. pose proof (weight_nonneg _ _ Hq3). simpl. lia.
  Qed.
End main.

(** The whole sort: it returns, never leaves the array or overflows its
    segment stack, and rearranges the first [nmemb] elements; if the callback
    orders the elements, they end up in order. *)
Lemma rqsort_spec {A} (cmp : A -> A -> Z) (l : list A) nmemb size :
  0 <= nmemb <= zlen l -> 0 < size ->
  wp (rqsort cmp l nmemb size) (fun l' =>
    perm_in l l' 0 nmemb /\ (CmpLaws cmp -> sorted_in cmp l' 0 nmemb)).
Proof.
  intros. unfold rqsort. wp_step.
  { wp_step. split; [apply perm_in_refl; lia|]. intros _ i j. lia. }
  1: lia.
  eapply wp_mono.
  { apply (rqsort_loop_spec cmp l nmemb); simpl; [|done|lia|lia].
    split_and!; [apply perm_in_refl; lia|rewrite Forall_singleton; simpl; lia|simpl; by rewrite Forall_nil|].
    - intros L i j ?? x y ??. left. exists (0, nmemb, 0). split; [set_solver|]. simpl; lia. }
  intros l' (Hp & _ & _ & Hord). split; [done|].
  intros L i j x y ?? Hx Hy. destruct (Hord L i j ltac:(lia) ltac:(lia) x y Hx Hy) as [(e&He&_)|?];
    [set_solver|done].
Qed.

Lemma perm_in_take_drop {A} (l l' : list A) n :
  perm_in l l' 0 n ->
  take (Z.to_nat n) l' ≡ₚ take (Z.to_nat n) l /\ drop (Z.to_nat n) l' = drop (Z.to_nat n) l.
Proof.
  intros (a & m & m' & b & -> & -> & Hp & Ha & Hm).
  assert (a = []) as -> by (destruct a; [done|rewrite zlen_cons in Ha; pose proof (zlen_nonneg a0); lia]).
  assert (Z.to_nat n = length m) as -> by (unfold zlen in Hm; lia). simpl.
  rewrite take_app_length, drop_app_length. rewrite (Permutation_length Hp).
  rewrite take_app_length, drop_app_length. done.
Qed.

Lemma sorted_in_take {A} (cmp : A -> A -> Z) (l : list A) n :
  0 <= n <= zlen l -> sorted_in cmp l 0 n ->
  StronglySorted (fun x y => cmp x y <= 0) (take (Z.to_nat n) l).
Proof.
  intros Hn Hs.
  assert (forall i j x y, (i < j)%nat -> take (Z.to_nat n) l !! i = Some x ->
            take (Z.to_nat n) l !! j = Some y -> cmp x y <= 0) as Hlt.
  { intros i j x y Hij [Hx ?]%lookup_take_Some [Hy ?]%lookup_take_Some.
    apply (Hs (Z.of_nat i) (Z.of_nat j)); [lia|lia|..];
      rewrite rd_lookup by lia; by rewrite Nat2Z.id. }
  clear Hs. induction (take (Z.to_nat n) l) as [|x k IH]; constructor.
  - apply IH. intros i j x' y Hij Hx Hy. by apply (Hlt (S i) (S j)); [lia|..].
  - rewrite Forall_forall. intros y [j Hj]%list_elem_of_lookup_1. by apply (Hlt O (S j) x y); [lia|..].
Qed.

(** C1. Whatever the comparison callback answers (it may even be
    inconsistent), [rqsort] returns, stays inside the array, never overflows
    its 50-entry segment stack, permutes the first [nmemb] elements and leaves
    the rest alone. *)
Theorem rqsort_safe {A} (cmp : A -> A -> Z) (l : list A) nmemb size :
  0 <= nmemb <= zlen l -> 0 < size ->
  exists l', rqsort cmp l nmemb size = Some l' /\
    take (Z.to_nat nmemb) l' ≡ₚ take (Z.to_nat nmemb) l /\
    drop (Z.to_nat nmemb) l' = drop (Z.to_nat nmemb) l.
Proof.
  intros Hn Hs. pose proof (rqsort_spec cmp l nmemb size Hn Hs) as Hwp.
  apply wp_exists in Hwp as (l' & -> & Hp & _). exists l'. split; [done|].
  by apply perm_in_take_drop.
Qed.

(** C2. With a callback that orders the elements [rqsort] sorts: the first
    [nmemb] elements come out in nondecreasing order, whichever of the
    insertion, quick and heap passes handled them. *)
Theorem rqsort_sorts {A} (cmp : A -> A -> Z) `{!CmpLaws cmp} (l : list A) nmemb size :
  0 <= nmemb <= zlen l -> 0 < size ->
  exists l', rqsort cmp l nmemb size = Some l' /\
    take (Z.to_nat nmemb) l' ≡ₚ take (Z.to_nat nmemb) l /\
    StronglySorted (fun x y => cmp x y <= 0) (take (Z.to_nat nmemb) l').
Proof.
  intros Hn Hs. pose proof (rqsort_spec cmp l nmemb size Hn Hs) as Hwp.
  apply wp_exists in Hwp as (l' & -> & Hp & Hsort). exists l'. split_and!; [done| |].
  - by apply perm_in_take_drop.
  - apply sorted_in_take; [|by apply Hsort]. pose proof (perm_in_zlen _ _ _ _ Hp). lia.
Qed.

(** Witnesses: the C idiom [return a - b] is a lawful callback. *)
#[export] Instance sub_cmp_laws : CmpLaws Z.sub.
Proof. split; intros; lia. Qed.

Definition sample : list Z := [31; 4; 15; 9; 26; 5; 35; 8; 97; 93; 2; 38].

Lemma rqsort_safe_witness :
  exists l', rqsort (fun _ _ => 1) sample 10 4 = Some l' /\
    take 10 l' ≡ₚ take 10 sample /\ drop 10 l' = [2; 38].
Proof. apply (rqsort_safe (fun _ _ => 1) sample 10 4); [vm_compute; split; discriminate|lia]. Defined.

Lemma rqsort_sorts_witness :
  exists l', rqsort Z.sub sample 12 4 = Some l' /\ take 12 l' ≡ₚ take 12 sample /\
    StronglySorted (fun x y => x - y <= 0) (take 12 l').
Proof. apply (rqsort_sorts Z.sub sample 12 4); [vm_compute; split; discriminate|lia]. Defined.
