(* ===== verification/CBytes.v ===== *)
(** * Bytes in memory: the inline helpers of cutils.h

    Memory is an array of bytes ([list Z], every element in [0, 256)).  Words
    are little-endian, as on the targets the vendored sources select
    ([WORDS_BIGENDIAN] is undefined). *)

From S2P Require Import Prelude CArray.
Open Scope Z_scope.

Definition byte_ok (b : Z) : Prop := 0 <= b < 256.
Definition bytes_ok (l : list Z) : Prop := Forall byte_ok l.

(** Little-endian value of a byte string and back. *)
Fixpoint le_val (bs : list Z) : Z :=
  match bs with [] => 0 | b :: bs => b + 256 * le_val bs end.

Fixpoint le_bytes (n : nat) (v : Z) : list Z :=
  match n with O => [] | S n => v mod 256 :: le_bytes n (v / 256) end.

(** [w]-byte load and store at byte offset [off]. *)
Definition load (w : Z) (mem : list Z) (off : Z) : option Z :=
  if (0 <=? off) && (off + w <=? zlen mem)
  then Some (le_val (zslice mem off (off + w))) else None.

Fixpoint put_list (mem : list Z) (off : Z) (bs : list Z) : option (list Z) :=
  match bs with
  | [] => Some mem
  | b :: bs => mem ← wr mem off b; put_list mem (off + 1) bs
  end.

Definition store (w : Z) (mem : list Z) (off v : Z) : option (list Z) :=
  put_list mem off (le_bytes (Z.to_nat w) v).

(** ** The helpers of cutils.h *)

Definition max_int (a b : Z) : Z := if a >? b then a else b.
Definition min_int (a b : Z) : Z := if a <? b then a else b.
Definition max_uint32 (a b : Z) : Z := if a >? b then a else b.
Definition min_uint32 (a b : Z) : Z := if a <? b then a else b.
Definition max_int64 (a b : Z) : Z := if a >? b then a else b.
Definition min_int64 (a b : Z) : Z := if a <? b then a else b.

(** The compiler builtins: undefined at 0. *)
Definition clz32 (a : Z) : option Z := if a =? 0 then None else Some (31 - Z.log2 a).
Definition clz64 (a : Z) : option Z := if a =? 0 then None else Some (63 - Z.log2 a).
Definition ctz (a : Z) : option Z :=
  if a =? 0 then None else Some (Z.log2 (Z.land a (- a))).
Definition ctz32 (a : Z) : option Z := ctz a.
Definition ctz64 (a : Z) : option Z := ctz a.

Definition get_u64 (tab : list Z) (p : Z) : option Z := load 8 tab p.
Definition get_i64 (tab : list Z) (p : Z) : option Z := v ← load 8 tab p; Some (s64 v).
Definition put_u64 (tab : list Z) (p val : Z) : option (list Z) := store 8 tab p val.
Definition get_u32 (tab : list Z) (p : Z) : option Z := load 4 tab p.
Definition get_i32 (tab : list Z) (p : Z) : option Z := v ← load 4 tab p; Some (s32 v).
Definition put_u32 (tab : list Z) (p val : Z) : option (list Z) := store 4 tab p val.
Definition get_u16 (tab : list Z) (p : Z) : option Z := load 2 tab p.
Definition get_i16 (tab : list Z) (p : Z) : option Z := v ← load 2 tab p; Some (s16 v).
Definition put_u16 (tab : list Z) (p val : Z) : option (list Z) := store 2 tab p val.
Definition get_u8 (tab : list Z) (p : Z) : option Z := rd tab p.
Definition get_i8 (tab : list Z) (p : Z) : option Z := v ← rd tab p; Some (s8 v).
Definition put_u8 (tab : list Z) (p val : Z) : option (list Z) := wr tab p val.

(** [x] is promoted to [int]: the shift does not drop bits, the return does. *)
Definition bswap16 (x : Z) : Z := u16 (Z.lor (Z.shiftr x 8) (Z.shiftl x 8)).

Definition bswap32 (v : Z) : Z :=
  Z.lor (Z.lor (Z.lor
    (Z.shiftr (Z.land v 0xff000000) 24) (Z.shiftr (Z.land v 0x00ff0000) 8))
    (u32 (Z.shiftl (Z.land v 0x0000ff00) 8))) (u32 (Z.shiftl (Z.land v 0x000000ff) 24)).

Definition bswap64 (v : Z) : Z :=
  let byte k := Z.land v (Z.shiftl 0xff (k * 8)) in
  Z.lor (Z.lor (Z.lor (Z.lor (Z.lor (Z.lor (Z.lor
    (Z.shiftr (byte 7) (7 * 8))
    (Z.shiftr (byte 6) (5 * 8)))
    (Z.shiftr (byte 5) (3 * 8)))
    (Z.shiftr (byte 4) (1 * 8)))
    (u64 (Z.shiftl (byte 3) (1 * 8))))
    (u64 (Z.shiftl (byte 2) (3 * 8))))
    (u64 (Z.shiftl (byte 1) (5 * 8))))
    (u64 (Z.shiftl (byte 0) (7 * 8))).

Definition from_hex (c : Z) : Z :=
  if (c >=? 48) && (c <=? 57) then c - 48
  else if (c >=? 65) && (c <=? 70) then c - 65 + 10
  else if (c >=? 97) && (c <=? 102) then c - 97 + 10
  else -1.

(** ** Lemmas *)

Lemma length_le_bytes n v : length (le_bytes n v) = n.
Proof. revert v. induction n; intros; simpl; [done|]. by rewrite IHn. Qed.

Lemma le_bytes_ok n v : bytes_ok (le_bytes n v).
Proof.
  revert v. induction n; intros; simpl; constructor; [|apply IHn].
  apply Z.mod_pos_bound; lia.
Qed.

Lemma le_val_bytes n v : le_val (le_bytes n v) = v mod 256 ^ Z.of_nat n.
Proof.
  revert v. induction n as [|n IH]; intros v.
  - simpl. by rewrite Z.mod_1_r.
  - cbn [le_bytes le_val]. rewrite IH.
    rewrite Nat2Z.inj_succ, Z.pow_succ_r by lia.
    rewrite Z.rem_mul_r by lia. lia.
Qed.

Lemma le_bytes_val bs : bytes_ok bs -> le_bytes (length bs) (le_val bs) = bs.
Proof.
  induction 1 as [|b bs Hb _ IH]; [done|]. cbn [length le_val le_bytes].
  unfold byte_ok in Hb.
  assert ((b + 256 * le_val bs) mod 256 = b) as ->.
  { rewrite (Z.mul_comm 256), Z.mod_add by lia. by apply Z.mod_small. }
  assert ((b + 256 * le_val bs) / 256 = le_val bs) as ->.
  { rewrite (Z.mul_comm 256), Z.div_add by lia. rewrite Z.div_small by lia. lia. }
  by rewrite IH.
Qed.

Lemma le_val_range bs : bytes_ok bs -> 0 <= le_val bs < 256 ^ zlen bs.
Proof.
  induction 1 as [|b bs Hb _ IH]; [change (zlen (@nil Z)) with 0; simpl; lia|]. cbn [le_val].
  rewrite zlen_cons, Z.pow_add_r by (pose proof (zlen_nonneg bs); lia).
  unfold byte_ok in Hb. change (256 ^ 1) with 256. lia.
Qed.

Lemma bytes_ok_zslice l lo hi : bytes_ok l -> bytes_ok (zslice l lo hi).
Proof. intros H. unfold zslice. by apply Forall_take, Forall_drop. Qed.

Lemma load_Some w mem off v : load w mem off = Some v ->
  0 <= off /\ off + w <= zlen mem /\ v = le_val (zslice mem off (off + w)).
Proof. unfold load. case_match; [|done]. intros [= <-]. zbool. split_and!; [lia|lia|done]. Qed.

Lemma wp_load w mem off (Q : Z -> Prop) :
  0 <= off -> off + w <= zlen mem ->
  Q (le_val (zslice mem off (off + w))) -> wp (load w mem off) Q.
Proof.
  intros. unfold load. by replace ((0 <=? off) && (off + w <=? zlen mem)) with true by lia.
Qed.

Lemma put_list_spec mem off bs :
  0 <= off -> off + zlen bs <= zlen mem ->
  wp (put_list mem off bs) (fun mem' =>
    zlen mem' = zlen mem /\
    forall k, rd mem' k = if (off <=? k) && (k <? off + zlen bs) then rd bs (k - off) else rd mem k).
Proof.
  revert mem off. induction bs as [|b bs IH]; intros mem off Ho Hl; cbn [put_list].
  - simpl. split; [done|]. intros k. rewrite zlen_nil.
    by replace ((off <=? k) && (k <? off + 0)) with false by lia.
  - rewrite zlen_cons in Hl. pose proof (zlen_nonneg bs). repeat arr_step.
    eapply wp_mono; [apply IH; autorewrite with zlen; lia|]. cbv beta.
    intros mem' [Hlen Hrd]. rewrite zlen_upd in Hlen. split; [done|].
    intros k. rewrite Hrd, zlen_cons.
    destruct (decide (k = off)) as [->|].
    + replace ((off + 1 <=? off) && _) with false by lia.
      replace ((off <=? off) && _) with true by lia.
      rewrite rd_upd_eq by lia. by rewrite Z.sub_diag.
    + rewrite rd_upd_ne by lia.
      destruct ((off + 1 <=? k) && (k <? off + 1 + zlen bs)) eqn:E; zbool.
      * replace ((off <=? k) && _) with true by lia. rewrite rd_cons_pos by lia. f_equal. lia.
      * by replace ((off <=? k) && _) with false by lia.
      * by replace ((off <=? k) && _) with false by lia.
Qed.

Lemma zlen_le_bytes w v : 0 <= w -> zlen (le_bytes (Z.to_nat w) v) = w.
Proof. intros. unfold zlen. rewrite length_le_bytes. lia. Qed.

Lemma bytes_ok_rd l k b : bytes_ok l -> rd l k = Some b -> byte_ok b.
Proof.
  intros H Hb. pose proof (rd_Some_range _ _ _ Hb). rewrite rd_lookup in Hb by lia.
  by eapply Forall_lookup_1.
Qed.

Lemma bytes_ok_intro l : (forall k b, rd l k = Some b -> byte_ok b) -> bytes_ok l.
Proof.
  intros H. apply Forall_lookup_2. intros i b Hb. apply (H (Z.of_nat i)).
  rewrite rd_lookup by lia. by rewrite Nat2Z.id.
Qed.

(** A stored word is what a load at the same place returns, and the other
    bytes are untouched. *)
Lemma store_spec w mem off v :
  0 <= w -> 0 <= off -> off + w <= zlen mem -> bytes_ok mem ->
  wp (store w mem off v) (fun mem' =>
    zlen mem' = zlen mem /\ bytes_ok mem' /\
    load w mem' off = Some (v mod 2 ^ (8 * w)) /\
    forall k, ~ off <= k < off + w -> rd mem' k = rd mem k).
Proof.
  intros Hw Ho Hl Hok. unfold store.
  eapply wp_mono; [apply put_list_spec; rewrite ?zlen_le_bytes; lia|]. cbv beta.
  intros mem' [Hlen Hrd]. rewrite zlen_le_bytes in Hrd by done.
  assert (zslice mem' off (off + w) = le_bytes (Z.to_nat w) v) as Hsl.
  { apply list_ext; rewrite zlen_zslice by lia; [rewrite zlen_le_bytes; lia|].
    intros i Hi. rewrite rd_zslice by lia. rewrite Hrd.
    replace ((off <=? off + i) && _) with true by lia. f_equal. lia. }
  split_and!; [done| | |].
  - apply bytes_ok_intro. intros k b Hb. rewrite Hrd in Hb. case_match.
    + by eapply bytes_ok_rd; [apply le_bytes_ok|].
    + by eapply bytes_ok_rd.
  - unfold load. replace ((0 <=? off) && _) with true by lia. rewrite Hsl, le_val_bytes.
    do 2 f_equal. rewrite Z2Nat.id by lia. change 256 with (2 ^ 8). by rewrite <- Z.pow_mul_r by lia.
  - intros k Hk. rewrite Hrd. by replace ((off <=? k) && _) with false by lia.
Qed.

(** ** Byte swapping *)

Lemma le_val_byte bs k b : bytes_ok bs -> bs !! k = Some b ->
  (le_val bs / 2 ^ (8 * Z.of_nat k)) mod 256 = b.
Proof.
  intros Hok. revert k. induction Hok as [|c bs Hc Hok IH]; intros k Hk; [done|].
  unfold byte_ok in Hc. destruct k as [|k]; cbn [le_val].
  - simplify_eq/=. rewrite Z.div_1_r, (Z.mul_comm 256), Z.mod_add by lia. by apply Z.mod_small.
  - rewrite <- (IH k Hk). replace (8 * Z.of_nat (S k)) with (8 + 8 * Z.of_nat k) by lia.
    rewrite Z.pow_add_r by lia. rewrite <- Z.div_div by lia. change (2 ^ 8) with 256.
    rewrite (Z.mul_comm 256), Z.div_add by lia. by rewrite (Z.div_small c), Z.add_0_l by lia.
Qed.

(** A masked byte moved down, or up inside a [w]-bit word. *)
Lemma byte_down v k s : 0 <= s <= k ->
  Z.shiftr (Z.land v (255 * 2 ^ k)) s = (v / 2 ^ k) mod 256 * 2 ^ (k - s).
Proof.
  intros. change 255 with (2 ^ 8 - 1). rewrite land_mask_shift by lia.
  rewrite Z.shiftr_div_pow2 by lia. replace k with (k - s + s) at 2 by lia.
  rewrite Z.pow_add_r, Z.mul_assoc, Z.div_mul by lia. done.
Qed.

Lemma byte_up w v k s : 0 <= k -> 0 <= s -> k + s + 8 <= w ->
  uwrap w (Z.shiftl (Z.land v (255 * 2 ^ k)) s) = (v / 2 ^ k) mod 256 * 2 ^ (k + s).
Proof.
  intros. change 255 with (2 ^ 8 - 1). rewrite land_mask_shift by lia.
  rewrite Z.shiftl_mul_pow2, <- Z.mul_assoc, <- Z.pow_add_r by lia.
  unfold uwrap. apply Z.mod_small. change (2 ^ 8) with 256.
  pose proof (Z.mod_pos_bound (v / 2 ^ k) 256 ltac:(lia)).
  assert (2 ^ (k + s + 8) <= 2 ^ w) by (apply Z.pow_le_mono_r; lia).
  rewrite (Z.pow_add_r 2 (k + s) 8) in * by lia. change (2 ^ 8) with 256 in *.
  assert (0 < 2 ^ (k + s)) by (apply Z.pow_pos_nonneg; lia). nia.
Qed.

(** Evaluate closed sums in exponents. *)
Ltac norm_exps := repeat match goal with
  | |- context [2 ^ (?a - ?b)] => let e := eval vm_compute in (a - b) in change (a - b) with e
  | |- context [2 ^ (?a + ?b)] => let e := eval vm_compute in (a + b) in change (a + b) with e
  end.

(**  [bswap16], [bswap32] and [bswap64] reverse the bytes of a word. *)
Theorem bswap_reverses bs :
  bytes_ok bs ->
  (length bs = 2%nat -> bswap16 (le_val bs) = le_val (reverse bs)) /\
  (length bs = 4%nat -> bswap32 (le_val bs) = le_val (reverse bs)) /\
  (length bs = 8%nat -> bswap64 (le_val bs) = le_val (reverse bs)).
Proof.
  intros Hok. split_and!; intros Hl.
  - destruct bs as [|b0 [|b1 [|]]]; try done. change (reverse [b0; b1]) with [b1; b0].
    assert (0 <= b0 < 256 /\ 0 <= b1 < 256) as [H0 H1].
    { split; [apply (bytes_ok_rd _ 0 _ Hok)|apply (bytes_ok_rd _ 1 _ Hok)]; done. }
    unfold bswap16. rewrite Z.shiftr_div_pow2, Z.shiftl_mul_pow2 by lia. cbn [le_val].
    change (2 ^ 8) with 256. replace ((b0 + 256 * (b1 + 256 * 0)) / 256) with b1
      by (apply (Z.div_unique _ _ _ b0); lia).
    rewrite (lor_add b1 _ 8) by lia. unfold uwrap. symmetry. change (2 ^ 8) with 256.
    apply (Z.mod_unique _ _ b1); lia.
  - destruct bs as [|b0 [|b1 [|b2 [|b3 [|]]]]]; try done.
    change (reverse _) with [b3; b2; b1; b0].
    unfold bswap32.
    change 0xff000000 with (255 * 2 ^ 24). change 0x00ff0000 with (255 * 2 ^ 16).
    change 0x0000ff00 with (255 * 2 ^ 8). change 0x000000ff with (255 * 2 ^ 0).
    rewrite !byte_down, !byte_up by lia. norm_exps.
    rewrite (le_val_byte _ 0 b0), (le_val_byte _ 1 b1), (le_val_byte _ 2 b2), (le_val_byte _ 3 b3) by done.
    repeat (apply Forall_cons in Hok as [? Hok]). unfold byte_ok in *.
    rewrite (lor_add _ _ 8), (lor_add _ _ 16), (lor_add _ _ 24) by lia.
    cbn [le_val]. lia.
  - destruct bs as [|b0 [|b1 [|b2 [|b3 [|b4 [|b5 [|b6 [|b7 [|]]]]]]]]]; try done.
    change (reverse _) with [b7; b6; b5; b4; b3; b2; b1; b0].
    unfold bswap64. rewrite !Z.shiftl_mul_pow2 with (a := 0xff) by lia. change 0xff with 255.
    rewrite !byte_down, !byte_up by lia. norm_exps.
    rewrite (le_val_byte _ 0 b0), (le_val_byte _ 1 b1), (le_val_byte _ 2 b2), (le_val_byte _ 3 b3),
      (le_val_byte _ 4 b4), (le_val_byte _ 5 b5), (le_val_byte _ 6 b6), (le_val_byte _ 7 b7) by done.
    repeat (apply Forall_cons in Hok as [? Hok]). unfold byte_ok in *.
    rewrite (lor_add _ _ 8), (lor_add _ _ 16), (lor_add _ _ 24), (lor_add _ _ 32), (lor_add _ _ 40), (lor_add _ _ 48), (lor_add _ _ 56) by lia.
    cbn [le_val]. lia.
Qed.

(** What a [put_] accessor stores at an address the [get_] accessor of
    the same width reads back (the signed one as its two's complement value),
    at any alignment, and no other byte changes. *)
Theorem put_get mem p v :
  bytes_ok mem -> 0 <= p -> p + 8 <= zlen mem ->
  (exists m, put_u16 mem p v = Some m /\ get_u16 m p = Some (u16 v) /\ get_i16 m p = Some (s16 v) /\
     forall k, ~ p <= k < p + 2 -> rd m k = rd mem k) /\
  (exists m, put_u32 mem p v = Some m /\ get_u32 m p = Some (u32 v) /\ get_i32 m p = Some (s32 v) /\
     forall k, ~ p <= k < p + 4 -> rd m k = rd mem k) /\
  (exists m, put_u64 mem p v = Some m /\ get_u64 m p = Some (u64 v) /\ get_i64 m p = Some (s64 v) /\
     forall k, ~ p <= k < p + 8 -> rd m k = rd mem k).
Proof.
  intros Hok Hp Hl.
  assert (forall w, 0 < w <= 8 -> exists m, store w mem p v = Some m /\
    load w m p = Some (uwrap (8 * w) v) /\ forall k, ~ p <= k < p + w -> rd m k = rd mem k) as Hst.
  { intros w Hw. pose proof (store_spec w mem p v ltac:(lia) Hp ltac:(lia) Hok) as Hwp.
    apply wp_exists in Hwp as (m & ? & ? & ? & ? & ?). by exists m. }
  unfold put_u16, get_u16, get_i16, put_u32, get_u32, get_i32, put_u64, get_u64, get_i64.
  split_and!;
    [destruct (Hst 2 ltac:(lia)) as (m & -> & Hld & Hrd)
    |destruct (Hst 4 ltac:(lia)) as (m & -> & Hld & Hrd)
    |destruct (Hst 8 ltac:(lia)) as (m & -> & Hld & Hrd)];
    exists m; rewrite Hld; (split_and!; [done|done| |done]); simpl; f_equal; by apply swrap_uwrap.
Qed.

Lemma bswap_reverses_witness : bswap32 0x04030201 = 0x01020304.
Proof.
  apply (bswap_reverses [1; 2; 3; 4]); [|done]. repeat constructor; unfold byte_ok; lia.
Defined.

Lemma put_get_witness :
  exists m, put_u32 (replicate 9 7) 1 (-2) = Some m /\ get_u32 m 1 = Some 0xfffffffe /\
    get_i32 m 1 = Some (-2) /\ forall k, ~ 1 <= k < 1 + 4 -> rd m k = rd (replicate 9 7) k.
Proof.
  apply (put_get (replicate 9 7) 1 (-2)); [|lia|vm_compute; discriminate].
  repeat constructor; unfold byte_ok; lia.
Defined.
