(* ===== verification/Exchange.v ===== *)
(** * The byte-level exchange routines of cutils.c

    [exchange_func] selects, from the alignment of the array and of the
    element size, the routine [rqsort] and [heapsortx] use to exchange two
    elements.  All of them exchange two blocks of bytes, so that on an array
    of elements of [size] bytes they perform the [swap] of file CArray. *)

From S2P Require Import Prelude CArray CBytes Rqsort.
Open Scope Z_scope.

(** [t = *ap; *ap = *bp; *bp = t] on [w]-byte words. *)
Definition exchange_word (w : Z) (mem : list Z) (a b : Z) : option (list Z) :=
  t ← load w mem a;
  u ← load w mem b;
  mem ← store w mem a u;
  store w mem b t.

Fixpoint exchange_words (w : Z) (n : nat) (mem : list Z) (a b : Z) : option (list Z) :=
  match n with
  | O => Some mem
  | S n => mem ← exchange_word w mem a b; exchange_words w n mem (a + w) (b + w)
  end.

(** Two 64-bit words at a time. *)
Definition exchange_pair (mem : list Z) (a b : Z) : option (list Z) :=
  t ← load 8 mem a;
  u ← load 8 mem (a + 8);
  v ← load 8 mem b;
  mem ← store 8 mem a v;
  v ← load 8 mem (b + 8);
  mem ← store 8 mem (a + 8) v;
  mem ← store 8 mem b t;
  store 8 mem (b + 8) u.

Fixpoint exchange_pairs (n : nat) (mem : list Z) (a b : Z) : option (list Z) :=
  match n with
  | O => Some mem
  | S n => mem ← exchange_pair mem a b; exchange_pairs n mem (a + 16) (b + 16)
  end.

Definition exchange_bytes (mem : list Z) (a b size : Z) : option (list Z) :=
  exchange_words 1 (Z.to_nat size) mem a b.
Definition exchange_one_byte (mem : list Z) (a b size : Z) : option (list Z) :=
  exchange_word 1 mem a b.
Definition exchange_int16s (mem : list Z) (a b size : Z) : option (list Z) :=
  exchange_words 2 (Z.to_nat (size / 2)) mem a b.
Definition exchange_one_int16 (mem : list Z) (a b size : Z) : option (list Z) :=
  exchange_word 2 mem a b.
Definition exchange_int32s (mem : list Z) (a b size : Z) : option (list Z) :=
  exchange_words 4 (Z.to_nat (size / 4)) mem a b.
Definition exchange_one_int32 (mem : list Z) (a b size : Z) : option (list Z) :=
  exchange_word 4 mem a b.
Definition exchange_int64s (mem : list Z) (a b size : Z) : option (list Z) :=
  exchange_words 8 (Z.to_nat (size / 8)) mem a b.
Definition exchange_one_int64 (mem : list Z) (a b size : Z) : option (list Z) :=
  exchange_word 8 mem a b.
Definition exchange_int128s (mem : list Z) (a b size : Z) : option (list Z) :=
  exchange_pairs (Z.to_nat (size / (8 * 2))) mem a b.
Definition exchange_one_int128 (mem : list Z) (a b size : Z) : option (list Z) :=
  exchange_pair mem a b.

Definition exchange_f : Type := list Z -> Z -> Z -> Z -> option (list Z).

(** The dispatch on [((uintptr_t)base | (uintptr_t)size) & 15]. *)
Definition exchange_func (base size : Z) : exchange_f :=
  let k := Z.land (Z.lor base size) 15 in
  if k =? 0 then
    if size =? 16 then exchange_one_int128 else exchange_int128s
  else if k =? 8 then
    if size =? 8 then exchange_one_int64 else exchange_int64s
  else if (k =? 4) || (k =? 12) then
    if size =? 4 then exchange_one_int32 else exchange_int32s
  else if (k =? 2) || (k =? 6) || (k =? 10) || (k =? 14) then
    if size =? 2 then exchange_one_int16 else exchange_int16s
  else
    if size =? 1 then exchange_one_byte else exchange_bytes.

(** ** Block exchange *)

(** [mem'] is [mem] with the [n]-byte blocks at [a] and [b] exchanged. *)
Definition blockswap (mem mem' : list Z) (a b n : Z) : Prop :=
  zlen mem' = zlen mem /\ bytes_ok mem' /\
  forall k, rd mem' k =
    if (a <=? k) && (k <? a + n) then rd mem (k - a + b)
    else if (b <=? k) && (k <? b + n) then rd mem (k - b + a)
    else rd mem k.

(** Two blocks of [n] bytes inside [mem] that do not overlap or coincide. *)
Definition blocks (mem : list Z) (a b n : Z) : Prop :=
  0 <= a /\ 0 <= b /\ 0 <= n /\ a + n <= zlen mem /\ b + n <= zlen mem /\
  (a + n <= b \/ b + n <= a \/ a = b).

Lemma blockswap_0 mem a b : bytes_ok mem -> blockswap mem mem a b 0.
Proof.
  intros. split_and!; [done|done|]. intros k.
  by repeat (case_match; zbool; try lia).
Qed.

(** Exchanging the first [w] bytes and then the other [n]. *)
Lemma blockswap_app mem mem1 mem2 a b w n :
  0 <= w -> 0 <= n -> (a + (w + n) <= b \/ b + (w + n) <= a \/ a = b) ->
  blockswap mem mem1 a b w -> blockswap mem1 mem2 (a + w) (b + w) n ->
  blockswap mem mem2 a b (w + n).
Proof.
  intros Hw Hn Hd (Hl1 & _ & H1) (Hl2 & Hok & H2). split_and!; [lia|done|].
  intros k. rewrite H2, !H1.
  repeat (case_match; zbool; try lia); f_equal; lia.
Qed.

Lemma le_val_zslice_store mem a w :
  0 <= a -> 0 <= w -> a + w <= zlen mem -> bytes_ok mem ->
  le_bytes (Z.to_nat w) (le_val (zslice mem a (a + w))) = zslice mem a (a + w).
Proof.
  intros. assert (Z.to_nat w = length (zslice mem a (a + w))) as ->.
  { pose proof (zlen_zslice mem a (a + w)). unfold zlen in *. lia. }
  by apply le_bytes_val, bytes_ok_zslice.
Qed.

(** Storing a word that was loaded copies its bytes. *)
Lemma store_copy w mem src c dst :
  0 <= w -> 0 <= c -> c + w <= zlen src -> bytes_ok src ->
  0 <= dst -> dst + w <= zlen mem -> bytes_ok mem ->
  wp (store w mem dst (le_val (zslice src c (c + w)))) (fun mem' =>
    zlen mem' = zlen mem /\ bytes_ok mem' /\
    forall k, rd mem' k = if (dst <=? k) && (k <? dst + w) then rd src (k - dst + c) else rd mem k).
Proof.
  intros. unfold store. rewrite le_val_zslice_store by done.
  eapply wp_mono; [apply put_list_spec; rewrite ?zlen_zslice; lia|]. cbv beta.
  intros mem' [Hl Hrd]. rewrite zlen_zslice in Hrd by lia.
  replace (c + w - c) with w in Hrd by lia.
  assert (forall k, rd mem' k = if (dst <=? k) && (k <? dst + w) then rd src (k - dst + c) else rd mem k) as Hrd'.
  { intros k. rewrite Hrd. case_match; [|done]. zbool. rewrite rd_zslice by lia. f_equal. lia. }
  split_and!; [done| |done].
  apply bytes_ok_intro. intros k b Hb. rewrite Hrd' in Hb.
  case_match; (eapply bytes_ok_rd; [|exact Hb]; done).
Qed.

Lemma exchange_word_spec w mem a b :
  0 < w -> blocks mem a b w -> bytes_ok mem ->
  wp (exchange_word w mem a b) (fun mem' => blockswap mem mem' a b w).
Proof.
  intros Hw (Ha & Hb & Hn & Hla & Hlb & Hd) Hok. unfold exchange_word.
  wp_step. apply wp_load; [lia|lia|]. wp_step. apply wp_load; [lia|lia|].
  wp_step. eapply wp_mono; [apply store_copy; lia || done|]. cbv beta. intros m1 (Hl1 & Hok1 & H1).
  eapply wp_mono; [apply store_copy; lia || done|]. cbv beta. intros m2 (Hl2 & Hok2 & H2).
  split_and!; [lia|done|]. intros k. rewrite H2, H1.
  repeat (case_match; zbool; try lia); f_equal; lia.
Qed.

Lemma exchange_pair_spec mem a b :
  blocks mem a b 16 -> bytes_ok mem ->
  wp (exchange_pair mem a b) (fun mem' => blockswap mem mem' a b 16).
Proof.
  intros (Ha & Hb & _ & Hla & Hlb & Hd) Hok. unfold exchange_pair.
  do 3 (wp_step; apply wp_load; [lia|lia|]).
  wp_step. eapply wp_mono; [apply store_copy; lia || done|]. cbv beta. intros m1 (Hl1 & Hok1 & H1).
  wp_step. apply wp_load; [lia|lia|].
  wp_step. eapply wp_mono; [apply store_copy; lia || done|]. cbv beta. intros m2 (Hl2 & Hok2 & H2).
  wp_step. eapply wp_mono; [apply (store_copy 8 m2 mem); lia || done|]. cbv beta. intros m3 (Hl3 & Hok3 & H3).
  eapply wp_mono; [apply (store_copy 8 m3 mem); lia || done|]. cbv beta. intros m4 (Hl4 & Hok4 & H4).
  split_and!; [lia|done|]. intros k. rewrite H4, H3, H2, !H1.
  repeat (case_match; zbool; try lia); f_equal; lia.
Qed.

Lemma blocks_tail mem mem' a b w n :
  0 <= w -> 0 <= n -> zlen mem' = zlen mem -> blocks mem a b (w + n) ->
  blocks mem' (a + w) (b + w) n.
Proof. unfold blocks. intros ?? -> ?. lia. Qed.

Lemma blocks_head mem a b w n : 0 <= w -> 0 <= n -> blocks mem a b (w + n) -> blocks mem a b w.
Proof. unfold blocks. lia. Qed.

Lemma exchange_words_spec w n mem a b :
  0 < w -> blocks mem a b (Z.of_nat n * w) -> bytes_ok mem ->
  wp (exchange_words w n mem a b) (fun mem' => blockswap mem mem' a b (Z.of_nat n * w)).
Proof.
  intros Hw. revert mem a b. induction n as [|n IH]; intros mem a b Hbl Hok; cbn [exchange_words].
  - by apply blockswap_0.
  - replace (Z.of_nat (S n) * w) with (w + Z.of_nat n * w) in * by lia.
    wp_step. eapply wp_mono; [apply exchange_word_spec; [done|eapply blocks_head; [| |done]; lia|done]|].
    cbv beta. intros m1 Hb1. eapply wp_mono.
    { apply IH; [eapply blocks_tail; [| |apply Hb1|done]; lia|apply Hb1]. }
    cbv beta. intros m2 Hb2. eapply blockswap_app; [lia|lia| |done|done].
    unfold blocks in Hbl. lia.
Qed.

Lemma exchange_pairs_spec n mem a b :
  blocks mem a b (Z.of_nat n * 16) -> bytes_ok mem ->
  wp (exchange_pairs n mem a b) (fun mem' => blockswap mem mem' a b (Z.of_nat n * 16)).
Proof.
  revert mem a b. induction n as [|n IH]; intros mem a b Hbl Hok; cbn [exchange_pairs].
  - by apply blockswap_0.
  - replace (Z.of_nat (S n) * 16) with (16 + Z.of_nat n * 16) in * by lia.
    wp_step. eapply wp_mono; [apply exchange_pair_spec; [eapply blocks_head; [| |done]; lia|done]|].
    cbv beta. intros m1 Hb1. eapply wp_mono.
    { apply IH; [eapply blocks_tail; [| |apply Hb1|done]; lia|apply Hb1]. }
    cbv beta. intros m2 Hb2. eapply blockswap_app; [lia|lia| |done|done].
    unfold blocks in Hbl. lia.
Qed.

(** ** The dispatch *)

(** The word size of the selected routine divides the element size. *)
Lemma exchange_dispatch base size :
  let k := Z.land (Z.lor base size) 15 in
  (k = 0 -> size mod 16 = 0) /\ (k = 8 -> size mod 8 = 0) /\
  (k = 4 \/ k = 12 -> size mod 4 = 0) /\
  (k = 2 \/ k = 6 \/ k = 10 \/ k = 14 -> size mod 2 = 0).
Proof.
  intros k.
  assert (k = Z.lor (base mod 16) (size mod 16)) as Hk.
  { subst k. rewrite Z.land_lor_distr_l. change 15 with (2 ^ 4 - 1). by rewrite !land_mod by lia. }
  pose proof (Z.mod_pos_bound base 16 ltac:(lia)) as Hx.
  pose proof (Z.mod_pos_bound size 16 ltac:(lia)) as Hy.
  assert (forall d, (d | 16) -> 0 < d -> size mod d = (size mod 16) mod d) as Hd.
  { intros d Hdiv ?. by rewrite Z.mod_mod_divide. }
  rewrite (Hd 8) by (done || by exists 2). rewrite (Hd 4) by (done || by exists 4).
  rewrite (Hd 2) by (done || by exists 8).
  rewrite Hk. clear Hk k Hd. generalize dependent (base mod 16).
  generalize dependent (size mod 16). intros y Hy x Hx.
  pose (ok := fun x y => let k := Z.lor x y in
    (implb (k =? 0) (y =? 0)) && (implb (k =? 8) (y mod 8 =? 0)) &&
    (implb ((k =? 4) || (k =? 12)) (y mod 4 =? 0)) &&
    (implb ((k =? 2) || (k =? 6) || (k =? 10) || (k =? 14)) (y mod 2 =? 0))).
  assert (forallb (fun x => forallb (ok x) (seqZ 0 16)) (seqZ 0 16) = true) as Hall
    by (vm_compute; done).
  rewrite forallb_forall in Hall. specialize (Hall x).
  rewrite <- list_elem_of_In, elem_of_seqZ, forallb_forall in Hall.
  specialize (Hall ltac:(lia) y). rewrite <- list_elem_of_In, elem_of_seqZ in Hall.
  specialize (Hall ltac:(lia)). unfold ok in Hall.
  repeat (apply andb_true_iff in Hall as [Hall ?]).
  split_and!; intros Hcase;
    repeat match goal with
    | H : implb ?c ?d = true |- _ => destruct c eqn:?; simpl in H; zbool
    end; lia.
Qed.

Lemma div_mul_exact size d : 0 < d -> 0 <= size -> size mod d = 0 ->
  Z.of_nat (Z.to_nat (size / d)) * d = size.
Proof.
  intros. pose proof (Z.div_mod size d ltac:(lia)).
  pose proof (Z.div_pos size d ltac:(lia) ltac:(lia)). lia.
Qed.

Lemma exchange_words_span w mem a b span :
  0 < w -> 0 <= span -> span mod w = 0 -> blocks mem a b span -> bytes_ok mem ->
  wp (exchange_words w (Z.to_nat (span / w)) mem a b) (fun mem' => blockswap mem mem' a b span).
Proof.
  intros Hw Hs Hm Hbl Hok. pose proof (div_mul_exact span w Hw Hs Hm) as Heq.
  pose proof (exchange_words_spec w (Z.to_nat (span / w)) mem a b Hw) as H.
  rewrite Heq in H. by apply H.
Qed.

Lemma exchange_pairs_span mem a b span :
  0 <= span -> span mod 16 = 0 -> blocks mem a b span -> bytes_ok mem ->
  wp (exchange_pairs (Z.to_nat (span / (8 * 2))) mem a b) (fun mem' => blockswap mem mem' a b span).
Proof.
  intros Hs Hm Hbl Hok. pose proof (div_mul_exact span 16 ltac:(lia) Hs Hm) as Heq.
  pose proof (exchange_pairs_spec (Z.to_nat (span / 16)) mem a b) as H.
  rewrite Heq in H. by apply H.
Qed.

(** Any routine the dispatch selects for elements of [size] bytes exchanges
    blocks of [span] bytes, [span] being [size] itself or, for the routine
    selected with [size | 128], any multiple of the element size. *)
Lemma exchange_func_spec base size span mem a b :
  0 < span ->
  (span = size \/ (128 <= size /\ forall d, (d | 16) -> size mod d = 0 -> span mod d = 0)) ->
  blocks mem a b span -> bytes_ok mem ->
  wp (exchange_func base size mem a b span) (fun mem' => blockswap mem mem' a b span).
Proof.
  intros Hspan Hsz Hbl Hok. unfold exchange_func.
  destruct (exchange_dispatch base size) as (D16 & D8 & D4 & D2).
  set (k := Z.land (Z.lor base size) 15) in *. clearbody k.
  assert (forall d, (d | 16) -> size mod d = 0 -> span mod d = 0) as Hdiv.
  { intros d Hd Hm. destruct Hsz as [->|[_ Hs]]; [done|by apply Hs]. }
  repeat match goal with |- wp ((if ?c then _ else _) _ _ _ _) _ => destruct c eqn:? end; zbool;
    unfold exchange_one_int128, exchange_int128s, exchange_one_int64, exchange_int64s,
      exchange_one_int32, exchange_int32s, exchange_one_int16, exchange_int16s,
      exchange_one_byte, exchange_bytes.
  all: try (assert (span = size) as -> by lia; subst size;
            first [by apply exchange_pair_spec | by apply exchange_word_spec]).
  - apply exchange_pairs_span; [lia|apply Hdiv; [by exists 1|by apply D16]|done|done].
  - apply exchange_words_span; [lia|lia|apply Hdiv; [by exists 2|by apply D8]|done|done].
  - apply exchange_words_span; [lia|lia|apply Hdiv; [by exists 4|by apply D4; auto]|done|done].
  - apply exchange_words_span; [lia|lia|apply Hdiv; [by exists 4|by apply D4; auto]|done|done].
  - apply exchange_words_span; [lia|lia|apply Hdiv; [by exists 8|apply D2; lia]|done|done].
  - apply exchange_words_span; [lia|lia|apply Hdiv; [by exists 8|apply D2; lia]|done|done].
  - apply exchange_words_span; [lia|lia|apply Hdiv; [by exists 8|apply D2; lia]|done|done].
  - apply exchange_words_span; [lia|lia|apply Hdiv; [by exists 8|apply D2; lia]|done|done].
  - pose proof (exchange_words_span 1 mem a b span) as H'. rewrite Z.div_1_r in H'.
    apply H'; [lia|lia|apply Z.mod_1_r|done|done].
Qed.

(** ** The element view *)

(** An array of elements of [size] bytes each. *)
Definition elements (size : Z) (els : list (list Z)) : Prop :=
  Forall (fun e => zlen e = size /\ bytes_ok e) els.

Lemma zlen_concat size els : elements size els -> zlen (concat els) = zlen els * size.
Proof.
  induction 1 as [|e els [He _] _ IH]; [done|]. cbn [concat]. rewrite zlen_app, zlen_cons. lia.
Qed.

Lemma bytes_ok_concat size els : elements size els -> bytes_ok (concat els).
Proof.
  induction 1 as [|e els [_ He] _ IH]; [constructor|]. cbn [concat]. by apply Forall_app.
Qed.

Lemma rd_concat size els i k e :
  elements size els -> rd els i = Some e -> 0 <= k < size ->
  rd (concat els) (i * size + k) = rd e k.
Proof.
  intros Hels. revert i. induction Hels as [|e0 els [He0 _] _ IH]; intros i Hi Hk.
  - apply rd_Some_range in Hi. unfold zlen in Hi. simpl in Hi. lia.
  - cbn [concat]. pose proof (rd_Some_range _ _ _ Hi).
    destruct (decide (i = 0)) as [->|].
    + rewrite rd_cons_0 in Hi. simplify_eq. rewrite rd_app_l by lia. f_equal; lia.
    + rewrite rd_cons_pos in Hi by lia. rewrite rd_app_r by nia.
      rewrite <- (IH (i - 1)) by done. f_equal. lia.
Qed.

Lemma elements_rd size els i e : elements size els -> rd els i = Some e -> zlen e = size /\ bytes_ok e.
Proof.
  intros H He. pose proof (rd_Some_range _ _ _ He). rewrite rd_lookup in He by lia.
  by apply (Forall_lookup_1 _ _ _ _ H He).
Qed.

Lemma elements_upd size els i e :
  elements size els -> zlen e = size -> bytes_ok e -> elements size (upd els i e).
Proof. intros. unfold upd. by apply Forall_insert. Qed.

(** Exchanging two runs of blocks exchanges the runs of elements. *)
Lemma blockswap_elements size els els' i j n mem' :
  0 < size -> 0 <= i -> 0 <= j -> 0 <= n -> i + n <= zlen els -> j + n <= zlen els ->
  elements size els -> elements size els' -> zlen els' = zlen els ->
  (forall q, rd els' q = if (i <=? q) && (q <? i + n) then rd els (q - i + j)
                         else if (j <=? q) && (q <? j + n) then rd els (q - j + i)
                         else rd els q) ->
  blockswap (concat els) mem' (i * size) (j * size) (n * size) ->
  mem' = concat els'.
Proof.
  intros Hs Hi Hj Hn Hin Hjn Hels Hels' Hlen Hq (Hl & _ & Hrd).
  rewrite (zlen_concat size) in Hl by done.
  apply list_ext; [rewrite (zlen_concat size els') by done; lia|].
  intros b Hb. rewrite Hl in Hb.
  pose proof (Z.div_mod b size ltac:(lia)) as Hdm.
  pose proof (Z.mod_pos_bound b size ltac:(lia)) as Hm.
  set (q := b / size) in *. set (r := b mod size) in *. clearbody q r.
  assert (0 <= q < zlen els) as Hq0 by nia.
  replace b with (q * size + r) by lia. clear b Hb Hdm.
  destruct (rd_is_Some els' q) as [e He]; [lia|].
  rewrite (rd_concat size els' q r e) by done. rewrite Hq in He. rewrite Hrd. clear Hq Hrd.
  assert (forall a c, a <= c -> a * size <= c * size) as Hmono by (intros; nia).
  assert (forall a c, a + n <= c -> a * size + n * size <= c * size) as Hmono2 by (intros; nia).
  assert (forall a, q < a -> q * size + r < a * size) as Hlt by (intros; nia).
  assert (forall a, q < a + n -> q * size + r < a * size + n * size) as Hlt2 by (intros; nia).
  destruct ((i <=? q) && (q <? i + n)) eqn:E1; [|destruct ((j <=? q) && (q <? j + n)) eqn:E2].
  - zbool. replace ((i * size <=? q * size + r) && _) with true
      by (symmetry; apply andb_true_iff; rewrite Z.leb_le, Z.ltb_lt; split; [specialize (Hmono i q); lia|by apply Hlt2]).
    rewrite <- (rd_concat size els (q - i + j) r e) by done. f_equal. lia.
  - replace ((i * size <=? q * size + r) && _) with false.
    + zbool; (replace ((j * size <=? q * size + r) && _) with true
        by (symmetry; apply andb_true_iff; rewrite Z.leb_le, Z.ltb_lt; split; [specialize (Hmono j q); lia|by apply Hlt2]));
      rewrite <- (rd_concat size els (q - j + i) r e) by done; f_equal; lia.
    + symmetry. apply andb_false_iff. rewrite Z.leb_gt, Z.ltb_ge. zbool; [left; by apply Hlt|].
      right. specialize (Hmono2 i q). lia.
  - replace ((i * size <=? q * size + r) && _) with false.
    + replace ((j * size <=? q * size + r) && _) with false; [by rewrite (rd_concat size els q r e)|].
      symmetry. apply andb_false_iff. rewrite Z.leb_gt, Z.ltb_ge. clear E1. zbool; [left; by apply Hlt|].
      right. specialize (Hmono2 j q). lia.
    + symmetry. apply andb_false_iff. rewrite Z.leb_gt, Z.ltb_ge. clear E2. zbool; [left; by apply Hlt|].
      right. specialize (Hmono2 i q). lia.
Qed.

Lemma blocks_concat size els i j n :
  0 < size -> 0 <= i -> 0 <= j -> 0 <= n -> i + n <= zlen els -> j + n <= zlen els ->
  (i + n <= j \/ j + n <= i \/ i = j) -> elements size els ->
  blocks (concat els) (i * size) (j * size) (n * size).
Proof. intros. unfold blocks. rewrite (zlen_concat size) by done. nia. Qed.

Lemma elements_swap_block size n els a b els' :
  elements size els -> swap_block n els a b = Some els' -> elements size els'.
Proof.
  revert els a b. induction n as [|n IH]; intros els a b Hels Hsw; cbn [swap_block] in Hsw;
    [by simplify_eq|].
  unfold swap in Hsw. destruct (rd els a) as [x|] eqn:Hx; [|done]. simpl in Hsw.
  destruct (rd els b) as [y|] eqn:Hy; [|done]. simpl in Hsw.
  destruct (elements_rd _ _ _ _ Hels Hx), (elements_rd _ _ _ _ Hels Hy).
  destruct (wr els a y) as [e1|] eqn:Hw; [|done]. simpl in Hsw. apply wr_Some in Hw as [_ ->].
  destruct (wr (upd els a y) b x) as [e2|] eqn:Hw; [|done]. simpl in Hsw. apply wr_Some in Hw as [_ ->].
  apply IH in Hsw; [done|]. by apply elements_upd; [apply elements_upd|..].
Qed.

Lemma lor_128_ge size : 0 <= size -> 128 <= Z.lor size 128.
Proof.
  intros. pose proof (Z.log2_le_mono 0 0). rewrite Z.lor_comm.
  assert (Z.lor 128 size = 128 + Z.ldiff size 128) as ->.
  { rewrite Z.add_nocarry_lxor.
    - rewrite Z.lxor_lor.
      + apply Z.bits_inj'. intros n Hn. rewrite !Z.lor_spec, Z.ldiff_spec.
        by destruct (Z.testbit 128 n), (Z.testbit size n).
      + apply Z.bits_inj'. intros n Hn. rewrite Z.land_spec, Z.ldiff_spec, Z.bits_0.
        by destruct (Z.testbit 128 n), (Z.testbit size n).
    - apply Z.bits_inj'. intros n Hn. rewrite Z.land_spec, Z.ldiff_spec, Z.bits_0.
      by destruct (Z.testbit 128 n), (Z.testbit size n). }
  assert (0 <= Z.ldiff size 128) by (apply Z.ldiff_nonneg; by left). lia.
Qed.

Lemma lor_128_mod size d : (d | 16) -> Z.lor size 128 mod d = 0 -> size mod d = 0.
Proof.
  intros Hd Hm. destruct (decide (d = 0)) as [->|]; [destruct Hd; lia|].
  assert ((Z.lor size 128) mod 16 = size mod 16) as H16.
  { change 16 with (2 ^ 4). rewrite <- !Z.land_ones by lia. rewrite Z.land_lor_distr_l. apply Z.lor_0_r. }
  rewrite <- (Z.mod_mod_divide size 16 d Hd). rewrite <- H16. by rewrite (Z.mod_mod_divide _ 16 d Hd).
Qed.

(** ** Properties *)

(** C31. The exchange routine selected for an array of [size]-byte elements
    performs the element swap the sorting routines are written with. *)
Theorem exchange_swaps_elements base size els i j x y :
  0 < size -> elements size els -> rd els i = Some x -> rd els j = Some y ->
  exchange_func base size (concat els) (i * size) (j * size) size
    = Some (concat (upd (upd els i y) j x)) /\
  swap els i j = Some (upd (upd els i y) j x).
Proof.
  intros Hs Hels Hx Hy. split; [|by apply swap_spec].
  pose proof (rd_Some_range _ _ _ Hx). pose proof (rd_Some_range _ _ _ Hy).
  destruct (elements_rd _ _ _ _ Hels Hx), (elements_rd _ _ _ _ Hels Hy).
  pose proof (blocks_concat size els i j 1) as Hbl. rewrite Z.mul_1_l in Hbl.
  specialize (Hbl ltac:(lia) ltac:(lia) ltac:(lia) ltac:(lia) ltac:(lia) ltac:(lia) ltac:(lia) Hels).
  pose proof (exchange_func_spec base size size _ _ _ Hs (or_introl eq_refl) Hbl
                (bytes_ok_concat _ _ Hels)) as Hwp.
  apply wp_exists in Hwp as (mem' & -> & Hbs). f_equal.
  apply (blockswap_elements size els _ i j 1); try lia; try done.
  - by apply elements_upd; [apply elements_upd|..].
  - by autorewrite with zlen.
  - intros q. rewrite (rd_swap els i j x y) by done.
    destruct (Z.eqb_spec q j), (Z.eqb_spec q i); subst;
      repeat (case_match; zbool; try lia); try (rewrite <- Hx || rewrite <- Hy; f_equal; lia); try done.
  - by rewrite Z.mul_1_l.
Qed.

(**  The routine selected with [size | 128] exchanges runs of elements:
    it is the [swap_block] of the partition pass. *)
Theorem exchange_swaps_blocks base size els i j n :
  0 < size -> 0 < n -> 0 <= i -> i + n <= j -> j + n <= zlen els -> elements size els ->
  exists els', swap_block (Z.to_nat n) els i j = Some els' /\
    exchange_func base (Z.lor size 128) (concat els) (i * size) (j * size) (n * size)
      = Some (concat els').
Proof.
  intros Hs Hn Hi Hij Hj Hels.
  pose proof (swap_block_spec (Z.to_nat n) els i j 0 (zlen els)
                ltac:(lia) ltac:(lia) ltac:(lia) ltac:(lia)) as Hsw.
  apply wp_exists in Hsw as (els' & Hsw & Hp & Hrd). exists els'. split; [done|].
  rewrite Z2Nat.id in Hrd by lia.
  pose proof (exchange_func_spec base (Z.lor size 128) (n * size) (concat els) (i * size) (j * size)) as Hwp.
  apply wp_exists in Hwp as (mem' & -> & Hbs).
  - f_equal. eapply (blockswap_elements size els els' i j n); try lia; try done.
    + by eapply elements_swap_block.
    + by eapply perm_in_zlen.
  - nia.
  - right. split; [by apply lor_128_ge; lia|]. intros d Hd Hm.
    destruct (decide (d = 0)) as [->|]; [destruct Hd; lia|].
    rewrite Z.mul_mod by done. rewrite (lor_128_mod size d) by done. by rewrite Z.mul_0_r, Z.mod_0_l.
  - apply blocks_concat; try lia; done.
  - by eapply bytes_ok_concat.
Qed.

(** Witnesses, on an array of 3-byte records and on runs of two of them. *)
Definition records : list (list Z) := [[1; 2; 3]; [4; 5; 6]; [7; 8; 9]; [10; 11; 12]; [13; 14; 15]].

Lemma records_elements : elements 3 records.
Proof. repeat constructor; unfold byte_ok; simpl; lia. Qed.

Lemma exchange_swaps_elements_witness :
  exchange_func 0 3 (concat records) (1 * 3) (4 * 3) 3
    = Some (concat (upd (upd records 1 [13; 14; 15]) 4 [4; 5; 6])) /\
  swap records 1 4 = Some (upd (upd records 1 [13; 14; 15]) 4 [4; 5; 6]).
Proof. apply (exchange_swaps_elements 0 3 records 1 4); [lia|apply records_elements|done|done]. Defined.

Lemma exchange_swaps_blocks_witness :
  exists els', swap_block (Z.to_nat 2) records 0 3 = Some els' /\
    exchange_func 0 (Z.lor 3 128) (concat records) (0 * 3) (3 * 3) (2 * 3) = Some (concat els').
Proof.
  apply (exchange_swaps_blocks 0 3 records 0 3 2); [lia|lia|lia|lia|vm_compute; discriminate|].
  apply records_elements.
Defined.
