(* ===== verification/Utf8.v ===== *)
(** * UTF-8 encoding and decoding (cutils.c)

    [unicode_to_utf8] writes to a buffer of at least [UTF8_CHAR_LEN_MAX]
    bytes; the model returns the bytes written, whose number is the return
    value of the C function.  [unicode_from_utf8] reads from a byte array; it
    returns the code point (or -1) and the new read position when it is
    updated. *)

From S2P Require Import Prelude CArray CBytes.
Open Scope Z_scope.

(** A store through [uint8_t *]. *)
Definition unicode_to_utf8 (c : Z) : list Z :=
  if c <? 0x80 then [u8 c]
  else if c <? 0x800 then
    [u8 (Z.lor (Z.shiftr c 6) 0xc0); u8 (Z.lor (Z.land c 0x3f) 0x80)]
  else if c <? 0x10000 then
    [u8 (Z.lor (Z.shiftr c 12) 0xe0);
     u8 (Z.lor (Z.land (Z.shiftr c 6) 0x3f) 0x80);
     u8 (Z.lor (Z.land c 0x3f) 0x80)]
  else if c <? 0x00200000 then
    [u8 (Z.lor (Z.shiftr c 18) 0xf0);
     u8 (Z.lor (Z.land (Z.shiftr c 12) 0x3f) 0x80);
     u8 (Z.lor (Z.land (Z.shiftr c 6) 0x3f) 0x80);
     u8 (Z.lor (Z.land c 0x3f) 0x80)]
  else if c <? 0x04000000 then
    [u8 (Z.lor (Z.shiftr c 24) 0xf8);
     u8 (Z.lor (Z.land (Z.shiftr c 18) 0x3f) 0x80);
     u8 (Z.lor (Z.land (Z.shiftr c 12) 0x3f) 0x80);
     u8 (Z.lor (Z.land (Z.shiftr c 6) 0x3f) 0x80);
     u8 (Z.lor (Z.land c 0x3f) 0x80)]
  else if c <? 0x80000000 then
    [u8 (Z.lor (Z.shiftr c 30) 0xfc);
     u8 (Z.lor (Z.land (Z.shiftr c 24) 0x3f) 0x80);
     u8 (Z.lor (Z.land (Z.shiftr c 18) 0x3f) 0x80);
     u8 (Z.lor (Z.land (Z.shiftr c 12) 0x3f) 0x80);
     u8 (Z.lor (Z.land (Z.shiftr c 6) 0x3f) 0x80);
     u8 (Z.lor (Z.land c 0x3f) 0x80)]
  else [].

Definition utf8_min_code : list Z := [0x80; 0x800; 0x10000; 0x00200000; 0x04000000].
Definition utf8_first_code_mask : list Z := [0x1f; 0xf; 0x7; 0x3; 0x1].

(** The [switch] on the first byte: number of continuation bytes. *)
Definition utf8_len (c : Z) : option Z :=
  if (0xc0 <=? c) && (c <=? 0xdf) then Some 1
  else if (0xe0 <=? c) && (c <=? 0xef) then Some 2
  else if (0xf0 <=? c) && (c <=? 0xf7) then Some 3
  else if (0xf8 <=? c) && (c <=? 0xfb) then Some 4
  else if (0xfc <=? c) && (c <=? 0xfd) then Some 5
  else None.

(** [for(i = 0; i < l; i++)]: [None] inside is the [return -1] of the loop. *)
Fixpoint utf8_cont (mem : list Z) (l : nat) (p c : Z) : option (option (Z * Z)) :=
  match l with
  | O => Some (Some (c, p))
  | S l =>
      b ← rd mem p;
      if (b <? 0x80) || (b >=? 0xc0) then Some None
      else utf8_cont mem l (p + 1) (Z.lor (Z.shiftl c 6) (Z.land b 0x3f))
  end.

Definition unicode_from_utf8 (mem : list Z) (p max_len : Z) : option (Z * option Z) :=
  c ← rd mem p;
  let p := p + 1 in
  if c <? 0x80 then Some (c, Some p) else
  match utf8_len c with
  | None => Some (-1, None)
  | Some l =>
      if l >? max_len - 1 then Some (-1, None) else
      mask ← rd utf8_first_code_mask (l - 1);
      r ← utf8_cont mem (Z.to_nat l) p (Z.land c mask);
      match r with
      | None => Some (-1, None)
      | Some (c, p) =>
          min_code ← rd utf8_min_code (l - 1);
          if c <? min_code then Some (-1, None) else Some (c, Some p)
      end
  end.

(** ** The bytes as arithmetic *)

Lemma cont_byte x : 0 <= x -> u8 (Z.lor (Z.land x 0x3f) 0x80) = 0x80 + x mod 64.
Proof.
  intros. change 0x3f with (2 ^ 6 - 1). rewrite land_mod by lia. change (2 ^ 6) with 64.
  pose proof (Z.mod_pos_bound x 64 ltac:(lia)).
  change 0x80 with (1 * 2 ^ 7) at 1. rewrite lor_add by lia.
  rewrite uwrap_id; unfold in_u; lia.
Qed.

Lemma lead_byte x m k : 0 <= k -> 0 <= x < 2 ^ k -> 0 <= m -> (m + 1) * 2 ^ k <= 256 ->
  u8 (Z.lor x (m * 2 ^ k)) = x + m * 2 ^ k.
Proof. intros. rewrite lor_add by lia. apply uwrap_id. unfold in_u. lia. Qed.

(** The encoder with divisions in place of shifts and masks. *)
Lemma unicode_to_utf8_arith c : 0 <= c < 2 ^ 31 ->
  unicode_to_utf8 c =
  if c <? 0x80 then [c]
  else if c <? 0x800 then [0xc0 + c / 64; 0x80 + c mod 64]
  else if c <? 0x10000 then [0xe0 + c / 4096; 0x80 + c / 64 mod 64; 0x80 + c mod 64]
  else if c <? 0x00200000 then
    [0xf0 + c / 2 ^ 18; 0x80 + c / 4096 mod 64; 0x80 + c / 64 mod 64; 0x80 + c mod 64]
  else if c <? 0x04000000 then
    [0xf8 + c / 2 ^ 24; 0x80 + c / 2 ^ 18 mod 64; 0x80 + c / 4096 mod 64;
     0x80 + c / 64 mod 64; 0x80 + c mod 64]
  else [0xfc + c / 2 ^ 30; 0x80 + c / 2 ^ 24 mod 64; 0x80 + c / 2 ^ 18 mod 64;
        0x80 + c / 4096 mod 64; 0x80 + c / 64 mod 64; 0x80 + c mod 64].
Proof.
  intros Hc. unfold unicode_to_utf8.
  rewrite !Z.shiftr_div_pow2 by lia. change (2 ^ 6) with 64. change (2 ^ 12) with 4096.
  assert (forall d, 0 < d -> 0 <= c / d) as Hpos by (intros; apply Z.div_pos; lia).
  rewrite !cont_byte by (apply Hpos || idtac; lia).
  destruct (c <? 0x80) eqn:E1; zbool; [rewrite uwrap_id by (unfold in_u; lia); done|].
  destruct (c <? 0x800) eqn:E2; zbool.
  { change 0xc0 with (6 * 2 ^ 5) at 1. rewrite lead_byte; [f_equal; lia|lia| |lia|lia].
    split; [by apply Hpos|]. apply Z.div_lt_upper_bound; lia. }
  destruct (c <? 0x10000) eqn:E3; zbool.
  { change 0xe0 with (14 * 2 ^ 4) at 1. rewrite lead_byte; [f_equal; lia|lia| |lia|lia].
    split; [by apply Hpos|]. apply Z.div_lt_upper_bound; lia. }
  destruct (c <? 0x00200000) eqn:E4; zbool.
  { change 0xf0 with (30 * 2 ^ 3) at 1. rewrite lead_byte; [f_equal; lia|lia| |lia|lia].
    split; [by apply Hpos|]. apply Z.div_lt_upper_bound; lia. }
  destruct (c <? 0x04000000) eqn:E5; zbool.
  { change 0xf8 with (62 * 2 ^ 2) at 1. rewrite lead_byte; [f_equal; lia|lia| |lia|lia].
    split; [by apply Hpos|]. apply Z.div_lt_upper_bound; lia. }
  replace (c <? 0x80000000) with true by lia.
  change 0xfc with (126 * 2 ^ 1) at 1. rewrite lead_byte; [f_equal; lia|lia| |lia|lia].
  split; [by apply Hpos|]. apply Z.div_lt_upper_bound; lia.
Qed.

(** One continuation step as arithmetic. *)
Lemma utf8_step c b : 0 <= b -> Z.lor (Z.shiftl c 6) (Z.land b 0x3f) = c * 64 + b mod 64.
Proof.
  intros. change 0x3f with (2 ^ 6 - 1). rewrite land_mod by lia.
  rewrite Z.shiftl_mul_pow2 by lia. apply lor_add'; [lia|]. by apply Z.mod_pos_bound.
Qed.

Definition is_cont (b : Z) : Prop := 0x80 <= b < 0xc0.
Definition add_cont (c b : Z) : Z := c * 64 + b mod 64.

Lemma utf8_cont_Some mem bs p c :
  0 <= p -> Forall is_cont bs -> (forall k, 0 <= k < zlen bs -> rd mem (p + k) = rd bs k) ->
  utf8_cont mem (length bs) p c = Some (Some (fold_left add_cont bs c, p + zlen bs)).
Proof.
  intros Hp Hbs. revert p c Hp. induction Hbs as [|b bs Hb _ IH]; intros p c Hp Hrd.
  - cbn. do 3 f_equal. unfold zlen. simpl. lia.
  - rewrite zlen_cons in Hrd. pose proof (zlen_nonneg bs).
    cbn [length utf8_cont fold_left].
    assert (rd mem p = Some b) as -> by (specialize (Hrd 0 ltac:(lia)); by rewrite Z.add_0_r in Hrd).
    simpl. unfold is_cont in Hb.
    replace ((b <? 128) || (b >=? 192)) with false by lia.
    rewrite utf8_step by lia. rewrite IH; [do 3 f_equal; rewrite zlen_cons; lia|lia|].
    intros k Hk. replace (p + 1 + k) with (p + (k + 1)) by lia. rewrite Hrd by lia.
    rewrite rd_cons_pos by lia. f_equal. lia.
Qed.

Lemma utf8_cont_inv mem l p c c' p' :
  utf8_cont mem l p c = Some (Some (c', p')) ->
  exists bs, length bs = l /\ Forall is_cont bs /\ c' = fold_left add_cont bs c /\
    p' = p + Z.of_nat l /\ (forall k, 0 <= k < zlen bs -> rd mem (p + k) = rd bs k).
Proof.
  revert p c. induction l as [|l IH]; intros p c H; cbn [utf8_cont] in H.
  - simplify_eq. exists []. split_and!; try done; [lia|]. intros k. unfold zlen. simpl. lia.
  - destruct (rd mem p) as [b|] eqn:Hb; [|done]. simpl in H.
    destruct ((b <? 128) || (b >=? 192)) eqn:E; [done|]. zbool.
    apply IH in H as (bs & Hl & Hbs & -> & -> & Hrd).
    exists (b :: bs). split_and!.
    + simpl. lia.
    + constructor; [unfold is_cont; lia|done].
    + cbn [fold_left]. by rewrite utf8_step by lia.
    + lia.
    + intros k Hk. rewrite zlen_cons in Hk.
      destruct (decide (k = 0)) as [->|]; [by rewrite Z.add_0_r|].
      rewrite rd_cons_pos by lia. rewrite <- Hrd by lia. f_equal. lia.
Qed.

(** Reading with an out-of-line continuation never leaves the buffer. *)
Lemma utf8_cont_defined mem l p c :
  0 <= p -> p + Z.of_nat l <= zlen mem -> wp (utf8_cont mem l p c) (fun _ => True).
Proof.
  revert p c. induction l as [|l IH]; intros p c ??; cbn [utf8_cont]; [done|].
  repeat arr_step; try done; apply IH; lia.
Qed.

Definition first_mask (l : Z) : Z := 2 ^ (6 - l) - 1.

Lemma utf8_len_range c l : utf8_len c = Some l ->
  1 <= l <= 5 /\ 256 - 2 ^ (7 - l) <= c < 256 - 2 ^ (6 - l).
Proof.
  unfold utf8_len. intros H.
  repeat (case_match; [simplify_eq; zbool; simpl; lia|]). done.
Qed.

Lemma utf8_len_intro c l : 1 <= l <= 5 -> 256 - 2 ^ (7 - l) <= c < 256 - 2 ^ (6 - l) ->
  utf8_len c = Some l.
Proof.
  intros Hl. assert (l = 1 \/ l = 2 \/ l = 3 \/ l = 4 \/ l = 5) as Hcase by lia.
  unfold utf8_len.
  destruct Hcase as [->|[->|[->|[->| ->]]]]; simpl; intros;
    repeat (case_match; [zbool; first [done | lia]|]); zbool; lia.
Qed.

Lemma first_code_mask l : 1 <= l <= 5 -> rd utf8_first_code_mask (l - 1) = Some (first_mask l).
Proof.
  intros Hl. assert (l = 1 \/ l = 2 \/ l = 3 \/ l = 4 \/ l = 5) as Hcase by lia.
  by destruct Hcase as [->|[->|[->|[->| ->]]]].
Qed.

(** The smallest code of each encoded length. *)
Definition min_code (l : Z) : Z := if l =? 1 then 0x80 else 2 ^ (5 * l + 1).

Lemma min_code_rd l : 1 <= l <= 5 -> rd utf8_min_code (l - 1) = Some (min_code l).
Proof.
  intros Hl. assert (l = 1 \/ l = 2 \/ l = 3 \/ l = 4 \/ l = 5) as Hcase by lia.
  by destruct Hcase as [->|[->|[->|[->| ->]]]].
Qed.

(** The shape of an encoding: a lead byte announcing [l] continuation bytes. *)
Lemma unicode_to_utf8_shape c : 0x80 <= c < 2 ^ 31 ->
  exists b l bs, unicode_to_utf8 c = b :: bs /\ 1 <= l <= 5 /\ zlen bs = l /\
    utf8_len b = Some l /\ Forall is_cont bs /\
    fold_left add_cont bs (b mod 2 ^ (6 - l)) = c /\ min_code l <= c.
Proof.
  intros Hc. rewrite unicode_to_utf8_arith by lia. unfold min_code.
  assert (forall x, is_cont (0x80 + x mod 64)) as Hcont.
  { intros x. pose proof (Z.mod_pos_bound x 64 ltac:(lia)). unfold is_cont. lia. }
  change (2 ^ 18) with 262144. change (2 ^ 24) with 16777216. change (2 ^ 30) with 1073741824.
  repeat (case_match; zbool; try lia).
  1: exists (0xc0 + c / 64), 1. 2: exists (0xe0 + c / 4096), 2. 3: exists (0xf0 + c / 262144), 3.
  4: exists (0xf8 + c / 16777216), 4. 5: exists (0xfc + c / 1073741824), 5.
  all: eexists; split_and!; [reflexivity|lia|lia|done| | | |].
  all: try (apply utf8_len_intro; [lia|]; simpl; Z.to_euclidean_division_equations; lia).
  all: try (repeat constructor; apply Hcont).
  all: try (unfold add_cont; cbn [fold_left]; simpl; Z.to_euclidean_division_equations; lia).
Qed.

Lemma land_first_mask c l : 1 <= l <= 5 -> Z.land c (first_mask l) = c mod 2 ^ (6 - l).
Proof. intros. unfold first_mask. apply land_mod. lia. Qed.

(** A lead byte and its continuation bytes are the encoding of the value they
    decode to, when the value is not too small for their number. *)
Lemma utf8_encode_decode b l bs :
  utf8_len b = Some l -> zlen bs = l -> Forall is_cont bs ->
  min_code l <= fold_left add_cont bs (b mod 2 ^ (6 - l)) ->
  let c := fold_left add_cont bs (b mod 2 ^ (6 - l)) in
  0 <= c < 2 ^ 31 /\ unicode_to_utf8 c = b :: bs.
Proof.
  intros Hl Hlen Hbs Hmin c.
  destruct (utf8_len_range b l Hl) as [Hl5 Hb]. clear Hl.
  fold c in Hmin. unfold min_code in Hmin. unfold zlen in Hlen.
  assert (forall x, is_cont x -> 0 <= x mod 64 < 64 /\ x = 0x80 + x mod 64) as Hcont.
  { unfold is_cont. intros x ?. Z.to_euclidean_division_equations. lia. }
  assert (Hc : c = fold_left add_cont bs (b mod 2 ^ (6 - l))) by done. clearbody c.
  unfold add_cont in Hc.
  assert (l = 1 \/ l = 2 \/ l = 3 \/ l = 4 \/ l = 5) as Hcase by lia.
  destruct Hcase as [->|[->|[->|[->| ->]]]]; simpl in Hb, Hmin.
  1: destruct bs as [|b1 [|]]; try (simpl in Hlen; lia).
  2: destruct bs as [|b1 [|b2 [|]]]; try (simpl in Hlen; lia).
  3: destruct bs as [|b1 [|b2 [|b3 [|]]]]; try (simpl in Hlen; lia).
  4: destruct bs as [|b1 [|b2 [|b3 [|b4 [|]]]]]; try (simpl in Hlen; lia).
  5: destruct bs as [|b1 [|b2 [|b3 [|b4 [|b5 [|]]]]]]; try (simpl in Hlen; lia).
  all: rewrite !Forall_cons in Hbs; cbn [fold_left] in Hc; simpl in Hc;
    repeat match goal with
    | H : is_cont _ /\ _ |- _ => let H' := fresh in destruct H as [H' H]; apply Hcont in H'
    end; clear Hbs Hcont Hlen.
  all: assert (0 <= c < 2 ^ 31) as Hr by (Z.to_euclidean_division_equations; lia).
  all: split; [done|]; rewrite unicode_to_utf8_arith by done.
  all: change (2 ^ 18) with 262144; change (2 ^ 24) with 16777216; change (2 ^ 30) with 1073741824.
  all: repeat (case_match; zbool; [try (exfalso; Z.to_euclidean_division_equations; lia)|];
               try (exfalso; Z.to_euclidean_division_equations; lia)).
  all: repeat f_equal; Z.to_euclidean_division_equations; lia.
Qed.

Lemma utf8_accepts mem p max_len c p' :
  bytes_ok mem -> 1 <= max_len ->
  unicode_from_utf8 mem p max_len = Some (c, Some p') ->
  0 <= c < 2 ^ 31 /\ p < p' <= p + max_len /\ zslice mem p p' = unicode_to_utf8 c.
Proof.
  intros Hok Hmax. unfold unicode_from_utf8.
  destruct (rd mem p) as [b|] eqn:Hb; [|done]. simpl.
  pose proof (rd_Some_range _ _ _ Hb). pose proof (bytes_ok_rd _ _ _ Hok Hb) as Hbb. unfold byte_ok in Hbb.
  destruct (b <? 128) eqn:E.
  - intros [= <- <-]. zbool. split_and!; try lia.
    rewrite (zslice_snoc mem p p b) by (done || lia). rewrite zslice_nil. simpl.
    rewrite unicode_to_utf8_arith by lia. by replace (b <? 128) with true by lia.
  - destruct (utf8_len b) as [l|] eqn:Hul; [|done].
    destruct (utf8_len_range _ _ Hul) as [Hl _].
    destruct (l >? max_len - 1) eqn:E2; [done|]. zbool.
    rewrite first_code_mask by done. simpl. rewrite land_first_mask by done.
    destruct (utf8_cont _ _ _ _) as [[[c1 p1]|]|] eqn:Hcont; [|done|done]. simpl.
    rewrite min_code_rd by done. simpl.
    destruct (c1 <? min_code l) eqn:E3; [done|]. zbool. intros [= -> ->].
    apply utf8_cont_inv in Hcont as (bs & Hlen & Hbs & -> & -> & Hrd).
    assert (zlen bs = l) as Hzl by (unfold zlen; lia).
    destruct (utf8_encode_decode b l bs Hul Hzl Hbs E3) as [? Henc].
    split_and!; try lia. rewrite Henc.
    destruct (rd_is_Some bs (l - 1)) as [z Hz]; [lia|]. rewrite <- Hrd in Hz by lia.
    apply rd_Some_range in Hz.
    apply list_ext.
    + rewrite zlen_zslice, zlen_cons by lia. lia.
    + rewrite zlen_zslice by lia. intros k Hk. rewrite rd_zslice by lia.
      destruct (decide (k = 0)) as [->|]; [by rewrite Z.add_0_r|].
      rewrite rd_cons_pos by lia. rewrite <- Hrd by lia. f_equal. lia.
Qed.

(** ** Properties *)

(** C32. Decoding an encoded code point gives the code point back and
    consumes exactly the bytes of the encoding, whatever surrounds them. *)
Theorem utf8_roundtrip c pre post max_len :
  0 <= c < 2 ^ 31 -> zlen (unicode_to_utf8 c) <= max_len ->
  unicode_from_utf8 (pre ++ unicode_to_utf8 c ++ post) (zlen pre) max_len
    = Some (c, Some (zlen pre + zlen (unicode_to_utf8 c))).
Proof.
  intros Hc Hmax. pose proof (zlen_nonneg pre). unfold unicode_from_utf8.
  destruct (decide (c < 0x80)).
  - rewrite unicode_to_utf8_arith in * by done.
    replace (c <? 128) with true in * by lia. simpl.
    rewrite rd_mid by done. simpl. by replace (c <? 128) with true by lia.
  - destruct (unicode_to_utf8_shape c ltac:(lia)) as (b & l & bs & Henc & Hl & Hlen & Hul & Hbs & Hv & Hmin).
    rewrite Henc in *. simpl app. rewrite rd_mid by done. simpl.
    destruct (utf8_len_range _ _ Hul) as [_ Hb].
    assert (2 ^ (7 - l) <= 2 ^ 6) by (apply Z.pow_le_mono_r; lia).
    replace (b <? 128) with false by lia. rewrite Hul.
    rewrite zlen_cons in Hmax |- *. replace (l >? max_len - 1) with false by lia.
    rewrite first_code_mask by done. simpl. rewrite land_first_mask by done.
    replace (Z.to_nat l) with (length bs) by (unfold zlen in Hlen; lia).
    rewrite utf8_cont_Some; [|lia|done|].
    + simpl. rewrite min_code_rd by done. simpl. rewrite Hv.
      replace (c <? min_code l) with false by lia. do 3 f_equal. lia.
    + intros k Hk. rewrite rd_app_r by lia. rewrite rd_cons_pos by lia.
      rewrite rd_app_l by lia. f_equal. lia.
Qed.

(** The decoder accepts only canonical encodings: what it accepts is a
    code point below [2^31] and the bytes it consumed are the encoding of
    that code point (no overlong forms), inside the [max_len] it was given. *)
Theorem utf8_canonical mem p max_len c p' :
  bytes_ok mem -> 1 <= max_len ->
  unicode_from_utf8 mem p max_len = Some (c, Some p') ->
  0 <= c < 2 ^ 31 /\ p < p' <= p + max_len /\ zslice mem p p' = unicode_to_utf8 c.
Proof. apply utf8_accepts. Qed.

(** On any bytes the decoder is defined, reads only the [max_len] bytes
    it was given, and updates the read position exactly when it succeeds. *)
Theorem utf8_decode_safe mem p max_len :
  bytes_ok mem -> 0 <= p -> 1 <= max_len -> p + max_len <= zlen mem ->
  exists c pp, unicode_from_utf8 mem p max_len = Some (c, pp) /\ (pp = None <-> c = -1).
Proof.
  intros Hok Hp Hmax Hlen.
  assert (wp (unicode_from_utf8 mem p max_len) (fun '(c, pp) => pp = None -> c = -1)) as Hwp.
  { unfold unicode_from_utf8. wp_step. apply wp_rd; [lia|]. intros b Hb. wp_step; [done|].
    destruct (utf8_len b) as [l|] eqn:Hul; [|done].
    destruct (utf8_len_range _ _ Hul) as [Hl _]. wp_step; [done|].
    rewrite first_code_mask by done. wp_step. wp_step. wp_step.
    eapply wp_mono; [apply utf8_cont_defined; lia|]. intros [[c1 p1]|] _; [|done].
    rewrite min_code_rd by done. wp_step. wp_step. by wp_step. }
  apply wp_exists in Hwp as ([c pp] & Heq & Hnone). exists c, pp. split; [done|].
  split; [done|]. destruct pp as [p'|]; [|done]. intros ->.
  apply utf8_accepts in Heq as [? _]; [lia|done|done].
Qed.

(** Witnesses: U+20AC between two ASCII letters. *)
Lemma utf8_roundtrip_witness :
  unicode_from_utf8 ([65] ++ unicode_to_utf8 0x20ac ++ [66]) 1 6 = Some (0x20ac, Some 4).
Proof. apply (utf8_roundtrip 0x20ac [65] [66] 6); [lia|vm_compute; discriminate]. Defined.

Lemma euro_bytes_ok : bytes_ok [65; 226; 130; 172; 66].
Proof. repeat constructor; unfold byte_ok; lia. Qed.

Lemma utf8_canonical_witness :
  0 <= 0x20ac < 2 ^ 31 /\ 1 < 4 <= 1 + 3 /\
  zslice [65; 226; 130; 172; 66] 1 4 = unicode_to_utf8 0x20ac.
Proof.
  apply (utf8_canonical [65; 226; 130; 172; 66] 1 3 0x20ac 4); [apply euro_bytes_ok|lia|reflexivity].
Defined.

Lemma utf8_decode_safe_witness :
  exists c pp, unicode_from_utf8 [65; 226; 130; 172; 66] 2 3 = Some (c, pp) /\ (pp = None <-> c = -1).
Proof.
  apply (utf8_decode_safe [65; 226; 130; 172; 66] 2 3); [apply euro_bytes_ok|lia|lia|].
  vm_compute. discriminate.
Defined.
