(* ===== verification/CStr.v ===== *)
(** * C strings: [pstrcpy], [pstrcat], [strstart], [has_suffix] (cutils.c)

    A C string is a byte array that holds a terminating 0; [cstring mem s]
    says that the string stored at the start of [mem] is [s]. *)

From S2P Require Import Prelude CArray.
Open Scope Z_scope.

(** [mem] starts with the bytes of [s], none of them 0, and a 0. *)
Definition cstring (mem s : list Z) : Prop :=
  Forall (fun c => c <> 0) s /\ exists rest, mem = s ++ 0 :: rest.

(** The C library's [strlen], walking to the terminator. *)
Fixpoint strlen_from (mem : list Z) : option Z :=
  match mem with
  | [] => None
  | c :: mem => if c =? 0 then Some 0 else n ← strlen_from mem; Some (n + 1)
  end.
Definition strlen (mem : list Z) : option Z := strlen_from mem.

(** ** Definitions *)

(** The loop of [pstrcpy]: [q] is the write position, [k] the read position. *)
Definition pstrcpy_body (buf_size off : Z) (str : list Z) (st : list Z * Z * Z)
  : option ((list Z * Z * Z) + (list Z * Z)) :=
  let '(buf, q, k) := st in
  c ← rd str k;
  if (c =? 0) || (q >=? off + buf_size - 1) then Some (inr (buf, q))
  else buf ← wr buf q c; Some (inl (buf, q + 1, k + 1)).

(** [pstrcpy(buf + off, buf_size, str)] *)
Definition pstrcpy (buf : list Z) (off buf_size : Z) (str : list Z) : option (list Z) :=
  if buf_size <=? 0 then Some buf else
  '(buf, q) ← loop (length str + 1) (pstrcpy_body buf_size off str) (buf, off, 0);
  wr buf q 0.

Definition pstrcat (buf : list Z) (buf_size : Z) (s : list Z) : option (list Z) :=
  len ← strlen buf;
  if len <? buf_size then pstrcpy buf len (buf_size - len) s else Some buf.

(** Returns the flag and, when it is 1, the position stored through [ptr]. *)
Definition strstart_body (str val : list Z) (st : Z * Z) : option ((Z * Z) + (Z * option Z)) :=
  let '(p, q) := st in
  vq ← rd val q;
  if vq =? 0 then Some (inr (1, Some p)) else
  sp ← rd str p;
  if negb (sp =? vq) then Some (inr (0, None)) else Some (inl (p + 1, q + 1)).

Definition strstart (str val : list Z) : option (Z * option Z) :=
  loop (length val + 1) (strstart_body str val) (0, 0).

(** The C library's [memcmp] being zero on two blocks of [n] bytes. *)
Definition mem_eq (a : list Z) (ap : Z) (b : list Z) (bp : Z) (n : Z) : bool :=
  bool_decide (zslice a ap (ap + n) = zslice b bp (bp + n)).

Definition has_suffix (str suffix : list Z) : option Z :=
  len ← strlen str;
  slen ← strlen suffix;
  Some (Zb ((len >=? slen) && mem_eq str (len - slen) suffix 0 slen)).

(** ** Lemmas *)

Lemma strlen_cstring mem s : cstring mem s -> strlen mem = Some (zlen s).
Proof.
  intros [Hs [rest ->]]. unfold strlen. induction Hs as [|c s Hc _ IH]; [done|].
  simpl. replace (c =? 0) with false by lia. rewrite IH. simpl. by rewrite zlen_cons.
Qed.

Lemma cstring_rd mem s k : cstring mem s -> 0 <= k < zlen s ->
  exists c, rd mem k = Some c /\ c <> 0 /\ rd s k = Some c.
Proof.
  intros [Hs [rest ->]] Hk. rewrite rd_app_l by lia.
  destruct (rd_is_Some s k Hk) as [c Hc]. exists c. split_and!; [done| |done].
  rewrite rd_lookup in Hc by lia. by apply (Forall_lookup_1 _ _ _ _ Hs Hc).
Qed.

Lemma cstring_end mem s : cstring mem s -> rd mem (zlen s) = Some 0.
Proof. intros [Hs [rest ->]]. by apply rd_mid. Qed.

Lemma cstring_zlen mem s : cstring mem s -> zlen s < zlen mem.
Proof. intros [_ [rest ->]]. rewrite zlen_app, zlen_cons. pose proof (zlen_nonneg rest). lia. Qed.

(** The copy: the first [n] characters and a terminator, [n] being the
    smaller of the string's length and [buf_size - 1]. *)
Lemma pstrcpy_spec buf off buf_size str s :
  cstring str s -> 0 <= off -> 0 < buf_size -> off + buf_size <= zlen buf ->
  let n := Z.min (zlen s) (buf_size - 1) in
  wp (pstrcpy buf off buf_size str) (fun buf' =>
    zlen buf' = zlen buf /\
    (forall k, rd buf' k = if (off <=? k) && (k <? off + n) then rd s (k - off)
                           else if k =? off + n then Some 0 else rd buf k)).
Proof.
  intros Hs Ho Hb Hl n. pose proof (zlen_nonneg s). pose proof (cstring_zlen _ _ Hs) as Hzl.
  unfold pstrcpy. wp_step; [lia|]. wp_step.
  eapply (wp_mono _ (fun '(b, q) => q = off + n /\ zlen b = zlen buf /\
    forall k, rd b k = if (off <=? k) && (k <? off + n) then rd s (k - off) else rd buf k)).
  - apply (wp_loop (fun '(b, q, k) => 0 <= k <= n /\ q = off + k /\ zlen b = zlen buf /\
        forall j, rd b j = if (off <=? j) && (j <? off + k) then rd s (j - off) else rd buf j)
      (fun '(_, _, k) => Z.to_nat (n - k))).
    + split_and!; try lia. intros j. by replace ((off <=? j) && _) with false by lia.
    + unfold zlen in Hzl. unfold n, zlen. lia.
    + intros [[b q] k] (Hk & -> & Hlb & Hrd). unfold pstrcpy_body. wp_step.
      assert (exists c, rd str k = Some c /\ (c = 0 <-> k = zlen s) /\ (k < zlen s -> rd s k = Some c))
        as (c & -> & Hc0 & Hcs).
      { destruct (decide (k = zlen s)) as [->|].
        - exists 0. rewrite (cstring_end _ _ Hs). split_and!; [done|done|lia].
        - destruct (cstring_rd _ _ k Hs ltac:(lia)) as (c & ? & ? & ?). exists c. split_and!; [done|lia|done]. }
      wp_step. wp_step.
      * wp_step. assert (k = n) as -> by lia. done.
      * wp_step. assert (k = n) as -> by lia. done.
      * repeat arr_step. split; [|lia]. split_and!; try lia; [by rewrite zlen_upd|].
        intros j. destruct (decide (j = off + k)) as [->|].
        -- rewrite rd_upd_eq by lia. replace ((off <=? off + k) && _) with true by lia.
           rewrite <- Hcs by lia. f_equal. lia.
        -- rewrite rd_upd_ne by lia. rewrite Hrd. by repeat (case_match; zbool; try lia).
  - intros [b q] (-> & Hlb & Hrd). repeat arr_step. autorewrite with zlen. split; [done|].
    intros k. destruct (decide (k = off + n)) as [->|].
    + rewrite rd_upd_eq by lia. by repeat (case_match; zbool; try lia).
    + rewrite rd_upd_ne by lia. rewrite Hrd. by repeat (case_match; zbool; try lia).
Qed.

Lemma cstring_intro mem s :
  zlen s < zlen mem -> Forall (fun c => c <> 0) s ->
  (forall k, 0 <= k < zlen s -> rd mem k = rd s k) -> rd mem (zlen s) = Some 0 -> cstring mem s.
Proof.
  intros Hl Hs Hrd Hend. split; [done|]. exists (drop (Z.to_nat (zlen s + 1)) mem).
  rewrite (rd_split _ _ _ Hend) at 1. f_equal.
  apply list_ext; [rewrite zlen_take; pose proof (zlen_nonneg s); lia|].
  pose proof (zlen_nonneg s). rewrite zlen_take by lia. intros k Hk. rewrite <- Hrd by lia.
  rewrite !rd_lookup by lia. apply lookup_take_lt. lia.
Qed.

Lemma strstart_spec str val s v :
  cstring str s -> cstring val v ->
  wp (strstart str val) (fun '(r, pp) =>
    (r = 1 /\ pp = Some (zlen v) /\ v `prefix_of` s) \/ (r = 0 /\ pp = None /\ ~ v `prefix_of` s)).
Proof.
  intros Hs Hv. pose proof (cstring_zlen _ _ Hv) as Hzl. pose proof (zlen_nonneg v).
  apply (wp_loop (fun '(p, q) => p = q /\ 0 <= q <= zlen v /\ q <= zlen s /\
           zslice v 0 q = zslice s 0 q) (fun '(_, q) => Z.to_nat (zlen v - q))).
  - split_and!; try lia; [apply zlen_nonneg|by rewrite !zslice_nil].
  - unfold zlen in *. lia.
  - intros [p q] (-> & Hq & Hqs & Hpre). unfold strstart_body. wp_step.
    destruct (decide (q = zlen v)) as [->|].
    + rewrite (cstring_end _ _ Hv). wp_step. simpl. left. split_and!; [done|done|].
      rewrite zslice_full in Hpre. rewrite Hpre. exists (drop (Z.to_nat (zlen v)) s).
      unfold zslice. rewrite Z.sub_0_r. simpl. rewrite drop_0. symmetry. apply take_drop.
    + destruct (cstring_rd _ _ q Hv ltac:(lia)) as (c & -> & Hc & Hvc). wp_step.
      replace (c =? 0) with false by lia. wp_step.
      destruct (decide (q = zlen s)) as [->|].
      * rewrite (cstring_end _ _ Hs). wp_step. replace (0 =? c) with false by lia. simpl.
        right. split_and!; [done|done|]. intros [k ->]. rewrite zlen_app in *.
        pose proof (zlen_nonneg k). lia.
      * destruct (cstring_rd _ _ q Hs ltac:(lia)) as (d & -> & Hd & Hsd). wp_step.
        destruct (Z.eqb_spec d c) as [->|Hne]; simpl.
        -- split; [|lia]. split_and!; try lia.
           by rewrite (zslice_snoc v 0 q c), (zslice_snoc s 0 q c), Hpre by (done || lia).
        -- right. split_and!; [done|done|]. intros [k ->]. rewrite rd_app_l in Hsd by lia. congruence.
Qed.

(** ** Properties *)

(** [pstrcpy] stores the longest prefix of the source that fits with its
    terminator: the buffer then holds that prefix as a C string, and no byte
    past the terminator is touched. *)
Theorem pstrcpy_truncates buf buf_size str s :
  cstring str s -> 0 < buf_size -> buf_size <= zlen buf ->
  let t := take (Z.to_nat (buf_size - 1)) s in
  exists buf', pstrcpy buf 0 buf_size str = Some buf' /\ cstring buf' t /\
    zlen buf' = zlen buf /\ forall k, zlen t < k -> rd buf' k = rd buf k.
Proof.
  intros Hs Hb Hl t. pose proof (pstrcpy_spec buf 0 buf_size str s Hs ltac:(lia) Hb ltac:(lia)) as Hwp.
  apply wp_exists in Hwp as (buf' & -> & Hlen & Hrd). exists buf'.
  assert (zlen t = Z.min (zlen s) (buf_size - 1)) as Ht.
  { unfold t, zlen. rewrite length_take. lia. }
  rewrite <- Ht in Hrd. rewrite Z.add_0_l in Hrd. pose proof (zlen_nonneg t).
  split_and!; [done| |done|].
  - apply cstring_intro; [lia|by apply Forall_take, Hs| |].
    + intros k Hk. rewrite Hrd. replace ((0 <=? k) && _) with true by lia.
      unfold t. rewrite !rd_lookup by lia. rewrite Z.sub_0_r. symmetry. apply lookup_take_lt. lia.
    + rewrite Hrd. by repeat (case_match; zbool; try lia).
  - intros k Hk. rewrite Hrd. by repeat (case_match; zbool; try lia).
Qed.

(**  [pstrcat] appends and truncates: the buffer holds the two strings
    joined, cut to [buf_size - 1] characters, or is unchanged when the first
    string already fills it. *)
Theorem pstrcat_truncates buf buf_size str a s :
  cstring buf a -> cstring str s -> buf_size <= zlen buf ->
  exists buf', pstrcat buf buf_size str = Some buf' /\ zlen buf' = zlen buf /\
    cstring buf' (if zlen a <? buf_size then take (Z.to_nat (buf_size - 1)) (a ++ s) else a).
Proof.
  intros Ha Hs Hl. unfold pstrcat. rewrite (strlen_cstring _ _ Ha). simpl.
  pose proof (zlen_nonneg a). pose proof (zlen_nonneg s).
  destruct (zlen a <? buf_size) eqn:E; zbool; [|by exists buf].
  pose proof (pstrcpy_spec buf (zlen a) (buf_size - zlen a) str s Hs ltac:(lia) ltac:(lia) ltac:(lia)) as Hwp.
  apply wp_exists in Hwp as (buf' & -> & Hlen & Hrd). exists buf'. split_and!; [done|done|].
  set (t := take (Z.to_nat (buf_size - 1)) (a ++ s)).
  assert (zlen t = zlen a + Z.min (zlen s) (buf_size - zlen a - 1)) as Ht.
  { unfold t, zlen in *. rewrite length_take, length_app. lia. }
  rewrite <- Ht in Hrd.
  apply cstring_intro; [lia| | |].
  - apply Forall_take, Forall_app. split; [apply Ha|apply Hs].
  - intros k Hk. rewrite Hrd.
    assert (rd t k = rd (a ++ s) k) as -> by (unfold t; rewrite !rd_lookup by lia; apply lookup_take_lt; lia).
    destruct (decide (k < zlen a)).
    + repeat (case_match; zbool; try lia). destruct Ha as [_ [rest ->]]. by rewrite !rd_app_l by lia.
    + repeat (case_match; zbool; try lia). by rewrite rd_app_r by lia.
  - rewrite Hrd. by repeat (case_match; zbool; try lia).
Qed.

(**  [strstart] decides the prefix relation and, when it holds, stores
    the position just past the prefix; [has_suffix] decides the suffix
    relation. *)
Theorem strstart_has_suffix_decide str val s v :
  cstring str s -> cstring val v ->
  strstart str val = Some (if decide (v `prefix_of` s) then (1, Some (zlen v)) else (0, None)) /\
  has_suffix str val = Some (Zb (bool_decide (v `suffix_of` s))).
Proof.
  intros Hs Hv. split.
  - pose proof (strstart_spec str val s v Hs Hv) as Hwp.
    apply wp_exists in Hwp as ([r pp] & -> & [(->&->&?)|(->&->&?)]); by case_decide.
  - unfold has_suffix. rewrite (strlen_cstring _ _ Hs), (strlen_cstring _ _ Hv). simpl.
    do 2 f_equal. pose proof (zlen_nonneg v).
    assert (zslice val 0 (zlen v) = v) as Hval.
    { destruct Hv as [_ [rest ->]]. unfold zslice. rewrite Z.sub_0_r. simpl.
      rewrite drop_0. unfold zlen. rewrite Nat2Z.id. apply take_app_length. }
    unfold mem_eq. rewrite Z.add_0_l, Hval.
    destruct (zlen s >=? zlen v) eqn:E; zbool; simpl.
    + apply bool_decide_ext. replace (zlen s - zlen v + zlen v) with (zlen s) by lia.
      destruct Hs as [_ [rest ->]].
      assert (zslice (s ++ 0 :: rest) (zlen s - zlen v) (zlen s) = drop (Z.to_nat (zlen s - zlen v)) s) as ->.
      { unfold zslice. rewrite drop_app_le by (unfold zlen in *; lia).
        rewrite take_app_le by (rewrite length_drop; unfold zlen in *; lia).
        apply take_ge. rewrite length_drop. unfold zlen in *. lia. }
      split.
      * intros <-. exists (take (Z.to_nat (zlen s - zlen v)) s). symmetry. apply take_drop.
      * intros [k ->]. rewrite zlen_app. replace (zlen k + zlen v - zlen v) with (zlen k) by lia.
        unfold zlen. rewrite Nat2Z.id. apply drop_app_length.
    + symmetry. apply bool_decide_eq_false_2. intros [k ->]. rewrite zlen_app in E.
      pose proof (zlen_nonneg k). lia.
Qed.

(** Witnesses: the strings "abcd" and "ab" in buffers of six bytes. *)
Definition buf_abcd : list Z := [97; 98; 99; 100; 0; 7].
Definition buf_ab : list Z := [97; 98; 0; 7; 7; 7].

Lemma buf_abcd_string : cstring buf_abcd [97; 98; 99; 100].
Proof. split; [repeat constructor; lia|by exists [7]]. Qed.

Lemma buf_ab_string : cstring buf_ab [97; 98].
Proof. split; [repeat constructor; lia|by exists [7; 7; 7]]. Qed.

Lemma pstrcpy_truncates_witness :
  exists buf', pstrcpy buf_ab 0 4 buf_abcd = Some buf' /\ cstring buf' [97; 98; 99] /\
    zlen buf' = zlen buf_ab /\ forall k, 3 < k -> rd buf' k = rd buf_ab k.
Proof.
  apply (pstrcpy_truncates buf_ab 4 buf_abcd [97; 98; 99; 100]);
    [apply buf_abcd_string|lia|vm_compute; discriminate].
Defined.

Lemma pstrcat_truncates_witness :
  exists buf', pstrcat buf_ab 6 buf_abcd = Some buf' /\ zlen buf' = zlen buf_ab /\
    cstring buf' [97; 98; 97; 98; 99].
Proof.
  apply (pstrcat_truncates buf_ab 6 buf_abcd [97; 98] [97; 98; 99; 100]);
    [apply buf_ab_string|apply buf_abcd_string|vm_compute; discriminate].
Defined.

Lemma strstart_has_suffix_witness :
  strstart buf_abcd buf_ab = Some (1, Some 2) /\ has_suffix buf_abcd buf_ab = Some 0.
Proof.
  apply (strstart_has_suffix_decide buf_abcd buf_ab [97; 98; 99; 100] [97; 98]);
    [apply buf_abcd_string|apply buf_ab_string].
Defined.
