(* ===== verification/DynBuf.v ===== *)
(** * Dynamic buffers (cutils.c, cutils.h)

    [realloc_func] is supplied by the caller (the C library's [realloc] by
    default): it is a parameter, with what [realloc] documents as the class
    [ReallocLaws].  [buf] is the allocated block, of which the first [size]
    bytes are the contents.  [size_t] arithmetic wraps at [2^64]. *)

From S2P Require Import Prelude CArray CBytes CStr.
Open Scope Z_scope.

Definition realloc_t : Type := list Z -> Z -> option (list Z).

(** A successful reallocation returns a block of the requested size that
    keeps the old bytes that fit. *)
Class ReallocLaws (realloc_func : realloc_t) : Prop := {
  realloc_zlen b n b' : 0 <= n -> realloc_func b n = Some b' -> zlen b' = n;
  realloc_keep b n b' k : realloc_func b n = Some b' -> 0 <= k < Z.min (zlen b) n ->
    rd b' k = rd b k }.

(** The callback refuses some request. *)
Definition oom (realloc_func : realloc_t) : Prop := exists b n, realloc_func b n = None.

Record dynbuf := DynBuf { buf : list Z; size : Z; allocated_size : Z; error : bool }.

Section ops.
  Context (realloc_func : realloc_t).

Definition dbuf_init2 : dynbuf := DynBuf [] 0 0 false.
Definition dbuf_init : dynbuf := dbuf_init2.

  (** Return code and new state; -1 is an allocation error. *)
Definition dbuf_realloc (s : dynbuf) (new_size : Z) : Z * dynbuf :=
    if new_size >? allocated_size s then
      if error s then (-1, s) else
      let size' := u64 (allocated_size s * 3) / 2 in
      let new_size := if size' >? new_size then size' else new_size in
      match realloc_func (buf s) new_size with
      | None => (-1, DynBuf (buf s) (size s) (allocated_size s) true)
      | Some new_buf => (0, DynBuf new_buf (size s) new_size (error s))
      end
    else (0, s).

Definition set_buf (s : dynbuf) (b : list Z) : dynbuf :=
    DynBuf b (size s) (allocated_size s) (error s).
Definition set_size (s : dynbuf) (n : Z) : dynbuf :=
    DynBuf (buf s) n (allocated_size s) (error s).

  (** [memcpy] of [data] at [offset]. *)
Definition dbuf_write (s : dynbuf) (offset : Z) (data : list Z) : option (Z * dynbuf) :=
    let len := zlen data in
    let end_ := u64 (offset + len) in
    let '(r, s) := dbuf_realloc s end_ in
    if negb (r =? 0) then Some (-1, s) else
    b ← put_list (buf s) offset data;
    let s := set_buf s b in
    Some (0, if end_ >? size s then set_size s end_ else s).

Definition dbuf_put (s : dynbuf) (data : list Z) : option (Z * dynbuf) :=
    let len := zlen data in
    let '(r, s) := if u64 (size s + len) >? allocated_size s
                   then dbuf_realloc s (u64 (size s + len)) else (0, s) in
    if negb (r =? 0) then Some (-1, s) else
    b ← put_list (buf s) (size s) data;
    Some (0, set_size (set_buf s b) (u64 (size s + len))).

  (** The source is read from the block after the reallocation. *)
Definition dbuf_put_self (s : dynbuf) (offset len : Z) : option (Z * dynbuf) :=
    let '(r, s) := if u64 (size s + len) >? allocated_size s
                   then dbuf_realloc s (u64 (size s + len)) else (0, s) in
    if negb (r =? 0) then Some (-1, s) else
    if negb ((0 <=? offset) && (offset + len <=? zlen (buf s))) then None else
    b ← put_list (buf s) (size s) (zslice (buf s) offset (offset + len));
    Some (0, set_size (set_buf s b) (u64 (size s + len))).

Definition dbuf_putc (s : dynbuf) (c : Z) : option (Z * dynbuf) := dbuf_put s [c].

Definition dbuf_putstr (s : dynbuf) (str : list Z) : option (Z * dynbuf) :=
    len ← strlen str; dbuf_put s (take (Z.to_nat len) str).

  (** [out] is the text [vsnprintf] produces for the format and arguments; it
      writes at most [n - 1] bytes of it and a terminator in a room of [n]. *)
Definition vsnprintf_at (b : list Z) (off n : Z) (out : list Z) : option (list Z) :=
    put_list b off (take (Z.to_nat (n - 1)) out ++ [0]).

Definition dbuf_printf (s : dynbuf) (out : list Z) : option (Z * dynbuf) :=
    let len := zlen out in
    if len <? 128 then dbuf_put s out
    else
      let '(r, s) := dbuf_realloc s (u64 (u64 (size s + len) + 1)) in
      if negb (r =? 0) then Some (-1, s) else
      b ← vsnprintf_at (buf s) (size s) (u64 (allocated_size s - size s)) out;
      Some (0, set_size (set_buf s b) (u64 (size s + len))).

Definition dbuf_free (s : dynbuf) : dynbuf := DynBuf [] 0 0 false.

Definition dbuf_put_u16 (s : dynbuf) (val : Z) : option (Z * dynbuf) := dbuf_put s (le_bytes 2 val).
Definition dbuf_put_u32 (s : dynbuf) (val : Z) : option (Z * dynbuf) := dbuf_put s (le_bytes 4 val).
Definition dbuf_put_u64 (s : dynbuf) (val : Z) : option (Z * dynbuf) := dbuf_put s (le_bytes 8 val).

Definition dbuf_error (s : dynbuf) : bool := error s.
Definition dbuf_set_error (s : dynbuf) : dynbuf :=
    DynBuf (buf s) (size s) (allocated_size s) true.

  (** A caller that appends chunks and looks at [dbuf_error] at the end. *)
Fixpoint dbuf_puts (s : dynbuf) (chunks : list (list Z)) : option dynbuf :=
    match chunks with
    | [] => Some s
    | data :: chunks => '(_, s) ← dbuf_put s data; dbuf_puts s chunks
    end.
End ops.

(** ** Invariant and contents *)

Definition dbuf_ok (s : dynbuf) : Prop :=
  zlen (buf s) = allocated_size s /\ 0 <= size s <= allocated_size s /\ allocated_size s < 2 ^ 64.

Definition contents (s : dynbuf) : list Z := zslice (buf s) 0 (size s).

Section lemmas.
  Context (realloc_func : realloc_t) `{!ReallocLaws realloc_func}.
  Implicit Types s : dynbuf.

  (** A failing operation latches the error and leaves the contents alone. *)
Definition failed s (s' : dynbuf) : Prop :=
    dbuf_ok s' /\ contents s' = contents s /\ size s' = size s /\ error s' = true /\
    (error s = true \/ oom realloc_func).

  (** A growth step. *)
Lemma dbuf_realloc_spec s n :
    dbuf_ok s -> 0 <= n < 2 ^ 64 ->
    let '(r, s') := dbuf_realloc realloc_func s n in
    (r = -1 /\ failed s s') \/
    (r = 0 /\ dbuf_ok s' /\ contents s' = contents s /\ size s' = size s /\ error s' = error s /\
     n <= allocated_size s').
  Proof.
    intros Hok Hn. pose proof Hok as (Hl & Hs & Ha). unfold dbuf_realloc, failed.
    destruct (n >? allocated_size s) eqn:E; zbool.
    - destruct (error s) eqn:He; [left; split_and!; try done; by left|].
      set (m := if u64 (allocated_size s * 3) / 2 >? n then u64 (allocated_size s * 3) / 2 else n).
      assert (n <= m < 2 ^ 64) as Hm.
      { pose proof (uwrap_range 64 (allocated_size s * 3) ltac:(lia)) as Hu. unfold in_u in Hu.
        assert (u64 (allocated_size s * 3) / 2 < 2 ^ 64) by (apply Z.div_lt_upper_bound; lia).
        unfold m. case_match; zbool; lia. }
      destruct (realloc_func (buf s) m) as [b'|] eqn:Hr;
        [right|left; split_and!; try done; right; by exists (buf s), m].
      pose proof (realloc_zlen (buf s) m b' ltac:(lia) Hr). clearbody m.
      split_and!; try done; simpl; try lia; [unfold dbuf_ok; simpl; lia|].
      unfold contents; simpl. apply list_ext; rewrite !zlen_zslice by lia; [done|].
      intros k Hk. rewrite !rd_zslice by lia. apply (realloc_keep _ _ _ _ Hr). lia.
    - right. by split_and!; try lia.
  Qed.

  (** Writing [data] into a block that has room for it. *)
Lemma put_list_contents b n data :
    0 <= n -> n + zlen data <= zlen b ->
    wp (put_list b n data) (fun b' =>
      zlen b' = zlen b /\ zslice b' 0 (n + zlen data) = zslice b 0 n ++ data).
  Proof.
    intros Hn Hl. pose proof (zlen_nonneg data).
    eapply wp_mono; [apply put_list_spec; lia|]. cbv beta. intros b' [Hlen Hrd]. split; [done|].
    apply list_ext; [rewrite zlen_app, !zlen_zslice by lia; lia|].
    rewrite zlen_zslice by lia. intros k Hk. rewrite rd_zslice by lia. rewrite Hrd, Z.add_0_l.
    destruct (decide (k < n)).
    - replace ((n <=? k) && _) with false by lia.
      rewrite rd_app_l by (rewrite zlen_zslice; lia). by rewrite rd_zslice by lia.
    - replace ((n <=? k) && _) with true by lia.
      rewrite rd_app_r by (rewrite zlen_zslice; lia). rewrite zlen_zslice by lia. f_equal. lia.
  Qed.

  (** A successful append. *)
Definition appended s (data : list Z) (s' : dynbuf) : Prop :=
    dbuf_ok s' /\ contents s' = contents s ++ data /\ size s' = size s + zlen data /\ error s' = error s.

  (** The growth test shared by the append operations. *)
Lemma grow_spec s len :
    dbuf_ok s -> 0 <= len -> size s + len < 2 ^ 64 ->
    let '(r, s') := if u64 (size s + len) >? allocated_size s
                    then dbuf_realloc realloc_func s (u64 (size s + len)) else (0, s) in
    (r = -1 /\ failed s s') \/
    (r = 0 /\ dbuf_ok s' /\ contents s' = contents s /\ size s' = size s /\ error s' = error s /\
     size s + len <= allocated_size s').
  Proof.
    intros Hok Hlen Hsum. pose proof Hok as (Hl & Hs & Ha).
    rewrite uwrap_id by (unfold in_u; lia).
    destruct (size s + len >? allocated_size s) eqn:E; zbool.
    - pose proof (dbuf_realloc_spec s (size s + len) Hok ltac:(lia)) as H.
      by destruct (dbuf_realloc _ _ _).
    - right. by split_and!.
  Qed.

Lemma dbuf_put_spec s data :
    dbuf_ok s -> size s + zlen data < 2 ^ 64 ->
    wp (dbuf_put realloc_func s data) (fun '(r, s') =>
      (r = 0 /\ appended s data s') \/ (r = -1 /\ failed s s')).
  Proof.
    intros Hok Hsum. pose proof (zlen_nonneg data). unfold dbuf_put.
    pose proof (grow_spec s (zlen data) Hok ltac:(lia) Hsum) as Hg.
    destruct (if _ >? _ then _ else _) as [r s1].
    destruct Hg as [[-> Hf]|(-> & (Hl1 & Hs1 & Ha1) & Hc1 & Hsz1 & He1 & Hroom)]; simpl; [by right|].
    wp_step. eapply wp_mono; [apply put_list_contents; lia|]. cbv beta. intros b [Hlb Hzb]. wp_step.
    left. split; [done|]. rewrite uwrap_id by (unfold in_u; lia). unfold appended, contents in *. simpl.
    split_and!; try lia; try done.
    - unfold dbuf_ok. simpl. lia.
    - by rewrite Hzb, Hc1.
  Qed.

Lemma appended_error s data s' : appended s data s' -> error s' = error s.
  Proof. by intros (_ & _ & _ & ?). Qed.

Lemma dbuf_put_self_spec s offset len :
    dbuf_ok s -> 0 <= offset -> 0 <= len -> offset + len <= size s -> size s + len < 2 ^ 64 ->
    wp (dbuf_put_self realloc_func s offset len) (fun '(r, s') =>
      (r = 0 /\ appended s (zslice (contents s) offset (offset + len)) s') \/ (r = -1 /\ failed s s')).
  Proof.
    intros Hok Ho Hl Hin Hsum. unfold dbuf_put_self.
    pose proof (grow_spec s len Hok Hl Hsum) as Hg.
    destruct (if _ >? _ then _ else _) as [r s1].
    destruct Hg as [[-> Hf]|(-> & (Hl1 & Hs1 & Ha1) & Hc1 & Hsz1 & He1 & Hroom)]; simpl; [by right|].
    replace (negb _) with false by lia.
    assert (zslice (buf s1) offset (offset + len) = zslice (contents s) offset (offset + len)) as ->.
    { rewrite <- Hc1. unfold contents. by rewrite zslice_zslice by lia. }
    assert (zlen (zslice (contents s) offset (offset + len)) = len) as Hzl.
    { destruct Hok as (?&?&?). unfold contents. rewrite !zlen_zslice; rewrite ?zlen_zslice; lia. }
    wp_step. eapply wp_mono; [apply put_list_contents; lia|]. cbv beta. intros b [Hlb Hzb]. wp_step.
    left. split; [done|]. rewrite uwrap_id by (unfold in_u; lia). unfold appended, contents in *. simpl.
    rewrite Hzl in *. split_and!; try lia; try done.
    - unfold dbuf_ok. simpl. lia.
    - by rewrite Hzb, Hc1.
  Qed.

Lemma dbuf_printf_spec s out :
    dbuf_ok s -> size s + zlen out + 1 < 2 ^ 64 ->
    wp (dbuf_printf realloc_func s out) (fun '(r, s') =>
      (r = 0 /\ appended s out s') \/ (r = -1 /\ failed s s')).
  Proof.
    intros Hok Hsum. pose proof (zlen_nonneg out). pose proof (Hok) as (Hl & Hs & Ha).
    unfold dbuf_printf. wp_step; [apply dbuf_put_spec; [done|lia]|].
    rewrite !uwrap_id by (unfold in_u; rewrite ?uwrap_id; unfold in_u; lia).
    pose proof (dbuf_realloc_spec s (size s + zlen out + 1) Hok ltac:(lia)) as Hg.
    destruct (dbuf_realloc _ _ _) as [r s1].
    destruct Hg as [[-> Hf]|(-> & (Hl1 & Hs1 & Ha1) & Hc1 & Hsz1 & He1 & Hroom)]; simpl; [by right|].
    rewrite !uwrap_id by (unfold in_u; lia).
    wp_step. unfold vsnprintf_at. rewrite take_ge by (unfold zlen in *; lia).
    eapply wp_mono; [apply put_list_contents; [lia|rewrite zlen_app; change (zlen [0]) with 1; lia]|].
    cbv beta. intros b [Hlb Hzb]. wp_step.
    left. split; [done|]. unfold appended, contents in *. simpl.
    split_and!; try lia; try done.
    - unfold dbuf_ok. simpl. lia.
    - rewrite zlen_app in Hzb. change (zlen [0]) with 1 in Hzb. rewrite app_assoc in Hzb.
      rewrite <- Hc1. set (x := zslice (buf s1) 0 (size s1) ++ out) in *.
      assert (size s1 + zlen out = zlen x) as Hx by (unfold x; rewrite zlen_app, zlen_zslice; lia).
      rewrite <- (zslice_zslice b (size s1 + (zlen out + 1))) by lia.
      rewrite Hzb, Hx. apply zslice_app_l.
  Qed.

  (** Overwriting inside the contents, or extending them. *)
Lemma dbuf_write_spec s offset data :
    dbuf_ok s -> 0 <= offset <= size s -> offset + zlen data < 2 ^ 64 ->
    wp (dbuf_write realloc_func s offset data) (fun '(r, s') =>
      (r = 0 /\ dbuf_ok s' /\ error s' = error s /\
       contents s' = take (Z.to_nat offset) (contents s) ++ data ++
                     drop (Z.to_nat (offset + zlen data)) (contents s)) \/
      (r = -1 /\ failed s s')).
  Proof.
    intros Hok Ho Hsum. pose proof (zlen_nonneg data). unfold dbuf_write.
    rewrite uwrap_id by (unfold in_u; lia).
    pose proof (dbuf_realloc_spec s (offset + zlen data) Hok ltac:(lia)) as Hg.
    destruct (dbuf_realloc _ _ _) as [r s1].
    destruct Hg as [[-> Hf]|(-> & (Hl1 & Hs1 & Ha1) & Hc1 & Hsz1 & He1 & Hroom)]; simpl; [by right|].
    wp_step. eapply wp_mono; [apply put_list_spec; lia|]. cbv beta. intros b [Hlb Hrd]. wp_step.
    left. split; [done|]. rewrite <- Hc1.
    assert (zlen (contents s1) = size s1) as Hcl by (unfold contents; rewrite zlen_zslice; lia).
    assert (forall k, 0 <= k < size s1 -> rd (contents s1) k = rd (buf s1) k) as Hcr.
    { intros k Hk. unfold contents. by rewrite rd_zslice by lia. }
    set (n := Z.max (size s1) (offset + zlen data)).
    assert ((if offset + zlen data >? size s1 then set_size (set_buf s1 b) (offset + zlen data)
             else set_buf s1 b) = set_size (set_buf s1 b) n) as ->.
    { unfold n. destruct (_ >? _) eqn:E; zbool; unfold set_size, set_buf; simpl; f_equal; lia. }
    split_and!; [unfold dbuf_ok; simpl; lia|done|].
    unfold contents at 1. simpl.
    apply list_ext.
    { rewrite zlen_zslice, !zlen_app, zlen_take by lia.
      assert (zlen (drop (Z.to_nat (offset + zlen data)) (contents s1))
              = Z.max 0 (size s1 - (offset + zlen data))) as ->; [|lia].
      rewrite <- Hcl. unfold zlen. rewrite length_drop. unfold zlen in *. lia. }
    rewrite zlen_zslice by lia. intros k Hk. rewrite rd_zslice, Hrd, Z.add_0_l by lia.
    destruct (decide (k < offset)); [|destruct (decide (k < offset + zlen data))].
    - replace ((offset <=? k) && _) with false by lia.
      rewrite rd_app_l by (rewrite zlen_take; lia).
      rewrite <- Hcr by lia. rewrite !rd_lookup by lia. symmetry. apply lookup_take_lt. lia.
    - replace ((offset <=? k) && _) with true by lia.
      rewrite rd_app_r by (rewrite zlen_take; lia). rewrite zlen_take by lia.
      by rewrite rd_app_l by lia.
    - replace ((offset <=? k) && _) with false by lia.
      rewrite rd_app_r by (rewrite zlen_take; lia). rewrite zlen_take by lia.
      rewrite rd_app_r by lia. rewrite <- Hcr by lia.
      rewrite !rd_lookup by lia. rewrite lookup_drop. f_equal. lia.
  Qed.

Lemma dbuf_puts_spec s chunks :
    dbuf_ok s -> size s + zlen (concat chunks) < 2 ^ 64 ->
    wp (dbuf_puts realloc_func s chunks) (fun s' =>
      dbuf_ok s' /\ (error s = true -> error s' = true) /\
      (error s' = true -> error s = true \/ oom realloc_func) /\
      size s' <= size s + zlen (concat chunks) /\
      (error s' = false -> contents s' = contents s ++ concat chunks)).
  Proof.
    revert s. induction chunks as [|data chunks IH]; intros s Hok Hsum; cbn [dbuf_puts concat] in *.
    - simpl. split_and!; try done; [by left|unfold zlen; simpl; lia|]. intros _. by rewrite app_nil_r.
    - rewrite zlen_app in *. pose proof (zlen_nonneg (concat chunks)). pose proof (zlen_nonneg data).
      wp_step. eapply wp_mono; [apply dbuf_put_spec; [done|lia]|]. cbv beta.
      intros [r s1] [[-> (Hok1 & Hc1 & Hs1 & He1)]|[-> (Hok1 & Hc1 & Hs1 & He1 & Hwhy)]].
      + eapply wp_mono; [apply IH; [done|lia]|]. cbv beta. intros s' (? & Hst & Hoom & ? & Hc).
        split_and!; [done| | |lia|].
        * intros. apply Hst. congruence.
        * rewrite <- He1. done.
        * intros. rewrite Hc, Hc1 by done. by rewrite app_assoc.
      + eapply wp_mono; [apply IH; [done|lia]|]. cbv beta. intros s' (? & Hst & Hoom & ? & Hc).
        split_and!; [done| |done|lia|].
        * intros. by apply Hst.
        * intros Hf. by rewrite Hst in Hf.
  Qed.
End lemmas.

(** ** Properties *)

(** C36. Every append ([dbuf_put] and the operations built on it) either
    returns 0 and appends exactly its bytes, keeping the error flag, or
    returns -1, latches the error flag and leaves the contents alone, which
    happens only after a refused allocation; it never writes outside the
    allocated block. *)
Theorem dbuf_put_refines (realloc_func : realloc_t) `{!ReallocLaws realloc_func} (s : dynbuf) (data : list Z) :
  dbuf_ok s -> size s + zlen data < 2 ^ 64 ->
  exists r s', dbuf_put realloc_func s data = Some (r, s') /\ dbuf_ok s' /\
    ((r = 0 /\ contents s' = contents s ++ data /\ error s' = error s) \/
     (r = -1 /\ contents s' = contents s /\ error s' = true /\ (error s = true \/ oom realloc_func))).
Proof.
  intros Hok Hsum. pose proof (dbuf_put_spec realloc_func s data Hok Hsum) as Hwp.
  apply wp_exists in Hwp as ([r s'] & -> & [[-> (?&?&?&?)]|[-> (?&?&?&?&?)]]); eauto 12.
Qed.

(** A caller may ignore the individual return codes: if the error flag
    is clear after a sequence of appends then the buffer holds all of them, in
    order; the flag is set only by a refused allocation, and once set it stays
    set. *)
Theorem dbuf_puts_all_or_error (realloc_func : realloc_t) `{!ReallocLaws realloc_func}
    (s : dynbuf) (chunks : list (list Z)) :
  dbuf_ok s -> size s + zlen (concat chunks) < 2 ^ 64 ->
  exists s', dbuf_puts realloc_func s chunks = Some s' /\ dbuf_ok s' /\
    (error s = true -> error s' = true) /\
    (error s' = true -> error s = true \/ oom realloc_func) /\
    (dbuf_error s' = false -> contents s' = contents s ++ concat chunks).
Proof.
  intros Hok Hsum. pose proof (dbuf_puts_spec realloc_func s chunks Hok Hsum) as Hwp.
  apply wp_exists in Hwp as (s' & -> & ? & ? & ? & ? & ?). eauto 10.
Qed.

(** Witness: a [realloc] that fails above 64 bytes. *)
Definition realloc64 : realloc_t := fun b n =>
  if 64 <? n then None else Some (take (Z.to_nat n) (b ++ replicate (Z.to_nat n) 0)).

#[export] Instance realloc64_laws : ReallocLaws realloc64.
Proof.
  split; unfold realloc64; intros; case_match; simplify_eq.
  - unfold zlen. rewrite length_take, length_app, length_replicate. lia.
  - rewrite !rd_lookup by lia. rewrite lookup_take_lt by lia. apply lookup_app_l. unfold zlen in *. lia.
Qed.

Lemma dbuf_init_ok : dbuf_ok dbuf_init.
Proof. unfold dbuf_ok. simpl. change (zlen []) with 0. lia. Qed.

Lemma dbuf_put_refines_witness :
  exists r s', dbuf_put realloc64 dbuf_init [1; 2; 3] = Some (r, s') /\ dbuf_ok s' /\
    ((r = 0 /\ contents s' = contents dbuf_init ++ [1; 2; 3] /\ error s' = false) \/
     (r = -1 /\ contents s' = contents dbuf_init /\ error s' = true /\ (false = true \/ oom realloc64))).
Proof. apply (dbuf_put_refines realloc64 dbuf_init [1; 2; 3] dbuf_init_ok). done. Defined.

Lemma dbuf_puts_all_or_error_witness :
  exists s', dbuf_puts realloc64 dbuf_init [[1; 2]; []; [3]] = Some s' /\ dbuf_ok s' /\
    (error dbuf_init = true -> error s' = true) /\
    (error s' = true -> error dbuf_init = true \/ oom realloc64) /\
    (dbuf_error s' = false -> contents s' = contents dbuf_init ++ [1; 2; 3]).
Proof. apply (dbuf_puts_all_or_error realloc64 dbuf_init [[1; 2]; []; [3]] dbuf_init_ok). done. Defined.
