(* ===== verification/ListHead.v ===== *)
(** * Intrusive doubly-linked lists (list.h)

    The heap maps the address of a [struct list_head] to its [prev] and
    [next] fields; 0 is [NULL].  Accessing a field of an address that holds
    no node is undefined behaviour. *)

From S2P Require Import Prelude.
Open Scope Z_scope.

Definition get_prev (h : gmap Z (Z * Z)) (a : Z) : option Z := fst <$> h !! a.
Definition get_next (h : gmap Z (Z * Z)) (a : Z) : option Z := snd <$> h !! a.
Definition set_prev (h : gmap Z (Z * Z)) (a v : Z) : option (gmap Z (Z * Z)) :=
  n ← h !! a; Some (<[a := (v, n.2)]> h).
Definition set_next (h : gmap Z (Z * Z)) (a v : Z) : option (gmap Z (Z * Z)) :=
  n ← h !! a; Some (<[a := (n.1, v)]> h).

(** ** Operations *)

Definition init_list_head (h : gmap Z (Z * Z)) (head : Z) : option (gmap Z (Z * Z)) :=
  h ← set_prev h head head; set_next h head head.

(** [__list_add] *)
Definition list_add_between (h : gmap Z (Z * Z)) (el prev next : Z) : option (gmap Z (Z * Z)) :=
  h ← set_next h prev el;
  h ← set_prev h el prev;
  h ← set_next h el next;
  set_prev h next el.

Definition list_add (h : gmap Z (Z * Z)) (el head : Z) : option (gmap Z (Z * Z)) :=
  n ← get_next h head; list_add_between h el head n.

Definition list_add_tail (h : gmap Z (Z * Z)) (el head : Z) : option (gmap Z (Z * Z)) :=
  p ← get_prev h head; list_add_between h el p head.

Definition list_del (h : gmap Z (Z * Z)) (el : Z) : option (gmap Z (Z * Z)) :=
  prev ← get_prev h el;
  next ← get_next h el;
  h ← set_next h prev next;
  h ← set_prev h next prev;
  h ← set_prev h el 0;
  set_next h el 0.

Definition list_empty (h : gmap Z (Z * Z)) (el : Z) : option bool :=
  n ← get_next h el; Some (n =? el).

(** The elements the body of [list_for_each] ([list_for_each_prev]) sees. *)
Definition for_each_body (get : gmap Z (Z * Z) -> Z -> option Z) (h : gmap Z (Z * Z)) (head : Z)
    (st : Z * list Z) : option ((Z * list Z) + list Z) :=
  let '(el, seen) := st in
  if el =? head then Some (inr (reverse seen)) else
  el' ← get h el; Some (inl (el', el :: seen)).

Definition list_for_each (fuel : nat) (h : gmap Z (Z * Z)) (head : Z) : option (list Z) :=
  el ← get_next h head; loop fuel (for_each_body get_next h head) (el, []).

Definition list_for_each_prev (fuel : nat) (h : gmap Z (Z * Z)) (head : Z) : option (list Z) :=
  el ← get_prev h head; loop fuel (for_each_body get_prev h head) (el, []).

(** [list_for_each_safe] with a body that unlinks every element. *)
Definition del_all_body (head : Z) (st : gmap Z (Z * Z) * Z * Z)
  : option ((gmap Z (Z * Z) * Z * Z) + gmap Z (Z * Z)) :=
  let '(h, el, el1) := st in
  if el =? head then Some (inr h) else
  h ← list_del h el;
  let el := el1 in
  el1 ← get_next h el;
  Some (inl (h, el, el1)).

Definition list_for_each_safe_del (fuel : nat) (h : gmap Z (Z * Z)) (head : Z) : option (gmap Z (Z * Z)) :=
  el ← get_next h head;
  el1 ← get_next h el;
  loop fuel (del_all_body head) (h, el, el1).

(** ** Representation *)

(** The chain of links from [a] through [xs] to [b]. *)
Fixpoint chain (h : gmap Z (Z * Z)) (a : Z) (xs : list Z) (b : Z) : Prop :=
  match xs with
  | [] => get_next h a = Some b /\ get_prev h b = Some a
  | x :: xs => get_next h a = Some x /\ get_prev h x = Some a /\ chain h x xs b
  end.

(** The circular list with head [head] and elements [xs]. *)
Definition dll (h : gmap Z (Z * Z)) (head : Z) (xs : list Z) : Prop :=
  NoDup (head :: xs) /\ chain h head xs head.

Section lemmas.
  Implicit Types (h : gmap Z (Z * Z)) (a b el p n head : Z) (xs ys : list Z).

  (** Lookups after the updates an operation makes. *)
Lemma set_next_Some h a v x : h !! a = Some x -> set_next h a v = Some (<[a := (x.1, v)]> h).
  Proof. intros Hx. unfold set_next. by rewrite Hx. Qed.
Lemma set_prev_Some h a v x : h !! a = Some x -> set_prev h a v = Some (<[a := (v, x.2)]> h).
  Proof. intros Hx. unfold set_prev. by rewrite Hx. Qed.

Lemma get_next_Some h a v : get_next h a = Some v -> exists p, h !! a = Some (p, v).
  Proof. unfold get_next. destruct (h !! a) as [[??]|]; [|done]. intros [= ->]. eauto. Qed.
Lemma get_prev_Some h a v : get_prev h a = Some v -> exists n, h !! a = Some (v, n).
  Proof. unfold get_prev. destruct (h !! a) as [[??]|]; [|done]. intros [= ->]. eauto. Qed.

  (** The chain only looks at [next] of [a :: xs] and [prev] of [xs ++ [b]]. *)
Lemma chain_frame h h' a xs b :
    chain h a xs b ->
    (forall x, x ∈ a :: xs -> get_next h' x = get_next h x) ->
    (forall x, x ∈ xs ++ [b] -> get_prev h' x = get_prev h x) ->
    chain h' a xs b.
  Proof.
    revert a. induction xs as [|x xs IH]; intros a Hc Hn Hp; cbn [chain] in *.
    - rewrite Hn, Hp by set_solver. done.
    - destruct Hc as (? & ? & ?). rewrite Hn, Hp by set_solver.
      split_and!; [done|done|]. apply IH; [done| |].
      + intros y Hy. apply Hn. set_solver.
      + intros y Hy. apply Hp. set_solver.
  Qed.

Lemma chain_app h a xs x ys b :
    chain h a (xs ++ x :: ys) b <-> chain h a xs x /\ chain h x ys b.
  Proof.
    revert a. induction xs as [|y xs IH]; intros a; cbn [app chain]; [tauto|].
    rewrite IH. tauto.
  Qed.

  (** The link around a position of the chain. *)
Fixpoint lastd a xs : Z := match xs with [] => a | x :: xs => lastd x xs end.

Lemma lastd_elem a xs : lastd a xs ∈ a :: xs.
  Proof. revert a. induction xs as [|x xs IH]; intros a; simpl; [set_solver|]. specialize (IH x). set_solver. Qed.

Lemma lastd_snoc a xs x : lastd a (xs ++ [x]) = x.
  Proof. revert a. induction xs; intros; simpl; auto. Qed.

Lemma chain_link h a xs ys b :
    chain h a (xs ++ ys) b ->
    get_next h (lastd a xs) = Some (hd b ys) /\ get_prev h (hd b ys) = Some (lastd a xs).
  Proof.
    revert a. induction xs as [|x xs IH]; intros a Hc.
    - destruct ys; cbn in *; naive_solver.
    - cbn [app chain] in Hc. destruct Hc as (_ & _ & Hc). by apply IH.
  Qed.

  (** [h'] links [p] to [q] and differs from [h] only in [next] of [p] and
      [el] and in [prev] of [q] and [el]. *)
Definition relinked h h' p q el : Prop :=
    (forall x, x <> p -> x <> el -> get_next h' x = get_next h x) /\
    (forall x, x <> q -> x <> el -> get_prev h' x = get_prev h x).

Lemma chain_insert h h' a xs ys b el :
    let p := lastd a xs in let q := hd b ys in
    chain h a (xs ++ ys) b -> NoDup (a :: xs ++ ys) -> b ∉ xs ++ ys -> el ∉ a :: b :: xs ++ ys ->
    get_next h' p = Some el -> get_prev h' el = Some p ->
    get_next h' el = Some q -> get_prev h' q = Some el -> relinked h h' p q el ->
    chain h' a (xs ++ el :: ys) b.
  Proof.
    intros p q. subst p q. revert a. induction xs as [|x xs IH]; intros a Hc Hnd Hb Hel Hp Hpe Hn Hne Hre.
    - cbn [app chain lastd] in *. split_and!; [done|done|].
      destruct ys as [|y ys]; cbn [chain hd] in *; [done|]. destruct Hc as (_ & _ & Hc).
      split_and!; [done|done|]. apply NoDup_cons in Hnd as [Ha Hnd]. apply NoDup_cons in Hnd as [Hy _].
      apply (chain_frame h); [done| |]; intros z Hz; apply Hre; set_solver.
    - cbn [app chain lastd] in *. destruct Hc as (Hc1 & Hc2 & Hc3).
      apply NoDup_cons in Hnd as [Ha Hnd].
      pose proof (lastd_elem x xs) as Hl.
      assert (x <> hd b ys) as Hxq.
      { intros ->. destruct ys; cbn in *; [set_solver|]. apply NoDup_cons in Hnd as [? _]. set_solver. }
      rewrite (proj1 Hre a), (proj2 Hre x) by (try done; set_solver).
      split_and!; [done|done|]. apply IH; try done; set_solver.
  Qed.

Lemma chain_remove h h' a xs ys b el :
    let p := lastd a xs in let q := hd b ys in
    chain h a (xs ++ el :: ys) b -> NoDup (a :: xs ++ el :: ys) -> b ∉ xs ++ el :: ys ->
    get_next h' p = Some q -> get_prev h' q = Some p -> relinked h h' p q el ->
    chain h' a (xs ++ ys) b.
  Proof.
    intros p q. subst p q. revert a. induction xs as [|x xs IH]; intros a Hc Hnd Hb Hp Hn Hre.
    - cbn [app chain lastd] in *. destruct Hc as (_ & _ & Hc).
      apply NoDup_cons in Hnd as [Ha Hnd]. apply NoDup_cons in Hnd as [He Hnd].
      destruct ys as [|y ys]; cbn [chain hd] in *; [done|]. destruct Hc as (_ & _ & Hc).
      split_and!; [done|done|]. apply NoDup_cons in Hnd as [Hy _].
      apply (chain_frame h); [done| |]; intros z Hz; apply Hre; set_solver.
    - cbn [app chain lastd] in *. destruct Hc as (Hc1 & Hc2 & Hc3).
      apply NoDup_cons in Hnd as [Ha Hnd]. pose proof (Hnd) as Hnd'.
      apply NoDup_cons in Hnd' as [Hx _].
      pose proof (lastd_elem x xs) as Hl.
      assert (x <> hd b ys) as Hxq.
      { intros ->. destruct ys; cbn in *; set_solver. }
      rewrite (proj1 Hre a), (proj2 Hre x) by (try done; set_solver).
      split_and!; [done|done|]. apply IH; try done; set_solver.
  Qed.

  (** [__list_add] between two nodes. *)
Lemma list_add_between_spec h el p q :
    is_Some (h !! p) -> is_Some (h !! q) -> is_Some (h !! el) -> el <> p -> el <> q ->
    wp (list_add_between h el p q) (fun h' =>
      get_next h' p = Some el /\ get_prev h' el = Some p /\
      get_next h' el = Some q /\ get_prev h' q = Some el /\ relinked h h' p q el /\
      forall x, x <> p -> x <> q -> x <> el -> h' !! x = h !! x).
  Proof.
    intros [[pp pn] Hp] [[qp qn] Hq] [[ep en] He] ??. unfold list_add_between, set_next, set_prev.
    rewrite Hp. simpl. rewrite lookup_insert_ne, He by done. simpl.
    rewrite lookup_insert_eq. simpl. rewrite lookup_insert_ne by done. simpl.
    rewrite !lookup_insert. unfold relinked, get_next, get_prev.
    destruct (decide (p = q)) as [->|Hpq]; repeat (case_decide; [done|]); rewrite ?Hq; simpl;
      split_and!; intros; rewrite !lookup_insert; repeat (case_decide; simplify_eq);
      by rewrite ?Hp, ?Hq, ?He.
  Qed.

Lemma chain_alloc h a xs b x : chain h a xs b -> x ∈ a :: b :: xs -> is_Some (h !! x).
  Proof.
    revert a. induction xs as [|y xs IH]; intros a Hc Hx; cbn [chain] in Hc.
    - destruct Hc as [(?&?)%get_next_Some (?&?)%get_prev_Some]. set_solver.
    - destruct Hc as ((?&?)%get_next_Some & _ & Hc).
      destruct (decide (x = a)) as [->|]; [by eauto|]. apply (IH y); [done|]. set_solver.
  Qed.

  (** Insertion at any position of a list. *)
Lemma dll_insert h head xs ys el :
    dll h head (xs ++ ys) -> is_Some (h !! el) -> el ∉ head :: xs ++ ys ->
    wp (list_add_between h el (lastd head xs) (hd head ys)) (fun h' =>
      dll h' head (xs ++ el :: ys) /\
      forall x, x ∉ head :: xs ++ el :: ys -> h' !! x = h !! x).
  Proof.
    intros [Hnd Hc] Hel Hni. pose proof (lastd_elem head xs) as Hl.
    assert (hd head ys ∈ head :: ys) as Hh by (destruct ys; set_solver).
    eapply wp_mono.
    { apply list_add_between_spec; [| |done|set_solver|set_solver];
        (eapply chain_alloc; [done|set_solver]). }
    cbv beta. intros h' (H1 & H2 & H3 & H4 & Hre & Hout). split.
    - split.
      + apply NoDup_cons in Hnd as [Ha Hnd]. apply NoDup_cons. split; [set_solver|].
        rewrite <- Permutation_middle. apply NoDup_cons. split; [set_solver|done].
      + apply (chain_insert h); try done; [by apply NoDup_cons in Hnd as [? _]|set_solver].
    - intros x Hx. apply Hout; set_solver.
  Qed.

Lemma dll_nodes h head xs : dll h head xs ->
    get_next h head = Some (hd head xs) /\ get_prev h head = Some (lastd head xs).
  Proof.
    intros [_ Hc]. split.
    - by apply (chain_link h head [] xs head).
    - pose proof (chain_link h head xs [] head) as H. rewrite app_nil_r in H. by apply H.
  Qed.

Lemma list_add_spec h head xs el :
    dll h head xs -> is_Some (h !! el) -> el ∉ head :: xs ->
    wp (list_add h el head) (fun h' => dll h' head (el :: xs) /\
      forall x, x ∉ head :: el :: xs -> h' !! x = h !! x).
  Proof.
    intros Hd Hel Hni. unfold list_add. rewrite (proj1 (dll_nodes _ _ _ Hd)). simpl.
    by apply (dll_insert h head [] xs el).
  Qed.

Lemma list_add_tail_spec h head xs el :
    dll h head xs -> is_Some (h !! el) -> el ∉ head :: xs ->
    wp (list_add_tail h el head) (fun h' => dll h' head (xs ++ [el]) /\
      forall x, x ∉ head :: xs ++ [el] -> h' !! x = h !! x).
  Proof.
    intros Hd Hel Hni. unfold list_add_tail. rewrite (proj2 (dll_nodes _ _ _ Hd)). simpl.
    apply (dll_insert h head xs [] el); by rewrite ?app_nil_r.
  Qed.

Lemma list_del_spec h head xs el ys :
    dll h head (xs ++ el :: ys) ->
    wp (list_del h el) (fun h' => dll h' head (xs ++ ys) /\ h' !! el = Some (0, 0) /\
      forall x, x ∉ head :: xs ++ el :: ys -> h' !! x = h !! x).
  Proof.
    intros [Hnd Hc]. pose proof (lastd_elem head xs) as Hl.
    assert (hd head ys ∈ head :: ys) as Hh by (destruct ys; set_solver).
    pose proof (chain_link h head xs (el :: ys) head Hc) as [Hn1 Hp1].
    assert (chain h head ((xs ++ [el]) ++ ys) head) as Hc' by (by rewrite <- app_assoc).
    pose proof (chain_link _ _ _ _ _ Hc') as [Hn2 Hp2]. rewrite lastd_snoc in *. cbn [hd] in *.
    set (p := lastd head xs) in *. set (q := hd head ys) in *.
    assert (el <> p /\ el <> q) as [Hep Heq].
    { apply NoDup_cons in Hnd as [? Hnd]. apply NoDup_app in Hnd as (_ & Hdis & Hnd).
      apply NoDup_cons in Hnd as [? _]. split; intros Heq; subst p q; [|set_solver].
      rewrite <- Heq in Hl. apply elem_of_cons in Hl as [->|Hl]; [set_solver|].
      by apply (Hdis el Hl); left. }
    assert (relinked h h p q el) by (by split).
    unfold list_del. rewrite Hp1, Hn2. simpl.
    apply get_next_Some in Hn1 as [pp Hpp]. apply get_prev_Some in Hp2 as [qn Hqq].
    apply get_prev_Some in Hp1 as [en Hee].
    rewrite (set_next_Some _ _ _ _ Hpp). simpl.
    assert (<[p:=(pp, q)]> h !! q = Some (if decide (p = q) then (pp, q) else (el, qn))) as Hlq.
    { rewrite lookup_insert. by case_decide. }
    rewrite (set_prev_Some _ _ _ _ Hlq). simpl.
    unfold set_prev, set_next.
    rewrite !lookup_insert_ne, Hee by done. simpl. rewrite lookup_insert_eq. simpl.
    split_and!.
    - split.
      + apply NoDup_cons in Hnd as [? Hnd]. apply NoDup_cons. split; [set_solver|].
        rewrite <- Permutation_middle in Hnd. by apply NoDup_cons in Hnd as [_ ?].
      + apply (chain_remove h _ head xs ys head el); try done.
        * by apply NoDup_cons in Hnd as [? _].
        * fold p q. unfold get_next. rewrite !lookup_insert_ne by done. rewrite lookup_insert.
          repeat (case_decide; simplify_eq); simpl; [done|by rewrite lookup_insert_eq].
        * fold p q. unfold get_prev. rewrite !lookup_insert_ne by done. by rewrite lookup_insert_eq.
        * fold p q. split; intros x ??; unfold get_next, get_prev; rewrite !lookup_insert;
            repeat (case_decide; simplify_eq); simpl; by rewrite ?Hqq, ?Hpp.
    - by rewrite lookup_insert_eq.
    - intros x Hx. rewrite !lookup_insert_ne; [done|..]; set_solver.
  Qed.

Lemma init_list_head_spec h head :
    is_Some (h !! head) -> wp (init_list_head h head) (fun h' => dll h' head [] /\
      forall x, x <> head -> h' !! x = h !! x).
  Proof.
    intros [[p n] Hh]. unfold init_list_head, set_prev, set_next. rewrite Hh. simpl.
    rewrite lookup_insert_eq. simpl. split.
    - split; [apply NoDup_singleton|]. cbn. unfold get_next, get_prev. by rewrite !lookup_insert_eq.
    - intros x ?. by rewrite !lookup_insert_ne by done.
  Qed.

  (** Walking forward from a node of the chain. *)
Lemma for_each_chain h head el xs seen fuel :
    chain h el xs head -> head ∉ el :: xs -> (length xs + 1 < fuel)%nat ->
    loop fuel (for_each_body get_next h head) (el, seen) = Some (reverse seen ++ el :: xs).
  Proof.
    revert el seen fuel. induction xs as [|x xs IH]; intros el seen [|fuel] Hc Hni Hf; try (simpl in *; lia);
      cbn [loop for_each_body chain] in *.
    - replace (el =? head) with false by (symmetry; apply Z.eqb_neq; set_solver).
      destruct Hc as [-> _]. simpl. destruct fuel; [lia|]. cbn [loop for_each_body].
      rewrite Z.eqb_refl. by rewrite reverse_cons.
    - replace (el =? head) with false by (symmetry; apply Z.eqb_neq; set_solver).
      destruct Hc as (-> & _ & Hc). simpl. rewrite IH by (try done; simpl in *; try lia; set_solver).
      by rewrite reverse_cons, <- app_assoc.
  Qed.

  (** Walking backward: the chain seen from its end. *)
Lemma for_each_prev_chain h a b xs seen fuel :
    chain h a xs b -> a ∉ xs -> (length xs < fuel)%nat ->
    loop fuel (for_each_body get_prev h a) (lastd a xs, seen) = Some (reverse seen ++ reverse xs).
  Proof.
    revert b seen fuel. induction xs as [|x xs IH] using rev_ind; intros b seen [|fuel] Hc Hni Hf; try lia.
    - cbn [lastd loop for_each_body]. rewrite Z.eqb_refl. by rewrite app_nil_r.
    - rewrite lastd_snoc. cbn [loop for_each_body]. rewrite length_app in Hf. simpl in Hf.
      replace (x =? a) with false by (symmetry; apply Z.eqb_neq; set_solver).
      apply chain_app in Hc as [Hc _].
      pose proof (chain_link h a xs [] x) as Hlk. rewrite app_nil_r in Hlk.
      destruct (Hlk Hc) as [_ Hpv]. cbn [hd] in Hpv. rewrite Hpv. simpl.
      rewrite (IH x) by (try done; try lia; set_solver).
      by rewrite reverse_cons, reverse_snoc, <- app_assoc.
  Qed.

Lemma dll_next_hd h head xs : dll h head xs -> exists n, get_next h (hd head xs) = Some n.
  Proof.
    intros [_ Hc]. destruct (chain_alloc h head xs head (hd head xs) Hc) as [[p n] Hn].
    - destruct xs; set_solver.
    - exists n. unfold get_next. by rewrite Hn.
  Qed.

Lemma del_all_spec h head xs el1 fuel :
    dll h head xs -> get_next h (hd head xs) = Some el1 -> (length xs < fuel)%nat ->
    wp (loop fuel (del_all_body head) (h, hd head xs, el1)) (fun h' =>
      dll h' head [] /\ (forall x, x ∈ xs -> h' !! x = Some (0, 0)) /\
      forall x, x ∉ head :: xs -> h' !! x = h !! x).
  Proof.
    revert h el1 fuel. induction xs as [|x xs IH]; intros h el1 [|fuel] Hd Hn Hf; try (simpl in Hf; lia);
      cbn [hd loop del_all_body] in *.
    - rewrite Z.eqb_refl. simpl. split_and!; [done|set_solver|done].
    - pose proof (Hd) as [Hnd Hc]. apply NoDup_cons in Hnd as [Hni Hnd]. apply NoDup_cons in Hnd as [Hnx _].
      replace (x =? head) with false by (symmetry; apply Z.eqb_neq; set_solver).
      assert (el1 = hd head xs) as ->.
      { destruct Hc as (_ & _ & Hc). pose proof (chain_link h x [] xs head Hc) as [H _].
        cbn [lastd] in H. congruence. }
      pose proof (list_del_spec h head [] x xs Hd) as Hdel.
      apply wp_exists in Hdel as (h1 & -> & Hd1 & Hx0 & Hout). simpl in *.
      destruct (dll_next_hd _ _ _ Hd1) as [n1 Hn1]. rewrite Hn1. simpl.
      eapply wp_mono; [apply IH; [done|done|simpl in Hf; lia]|]. cbv beta.
      intros h' (Hd' & Hall & Hout'). split_and!; [done| |].
      + intros y Hy. apply elem_of_cons in Hy as [->|Hy]; [|by apply Hall].
        rewrite Hout' by set_solver. done.
      + intros y Hy. rewrite Hout' by set_solver. apply Hout. set_solver.
  Qed.
End lemmas.

(** ** Properties *)

(** [list_add] and [list_add_tail] insert an unlinked node at the front
    and at the back of a list, [list_del] unlinks any element and clears its
    links; none of them touches a node outside the list. *)
Theorem list_ops_correct h head xs el ys :
  dll h head (xs ++ ys) -> is_Some (h !! el) -> el ∉ head :: xs ++ ys ->
  (exists h1, list_add h el head = Some h1 /\ dll h1 head (el :: xs ++ ys) /\
     (forall x, x ∉ head :: el :: xs ++ ys -> h1 !! x = h !! x)) /\
  (exists h2, list_add_tail h el head = Some h2 /\ dll h2 head ((xs ++ ys) ++ [el]) /\
     (forall x, x ∉ head :: (xs ++ ys) ++ [el] -> h2 !! x = h !! x)) /\
  (forall h3, dll h3 head (xs ++ el :: ys) ->
     exists h4, list_del h3 el = Some h4 /\ dll h4 head (xs ++ ys) /\ h4 !! el = Some (0, 0) /\
     (forall x, x ∉ head :: xs ++ el :: ys -> h4 !! x = h3 !! x)).
Proof.
  intros Hd Hel Hni. split_and!.
  - by apply wp_exists, list_add_spec.
  - by apply wp_exists, list_add_tail_spec.
  - intros h3 Hd3. by apply wp_exists, list_del_spec.
Qed.

(**  [list_for_each] visits the elements of a list in order,
    [list_for_each_prev] in reverse order, both within as many steps as the
    list has elements (and one more test), and [list_empty] tells whether
    there are any. *)
Theorem list_traversals h head xs :
  dll h head xs ->
  list_for_each (length xs + 1) h head = Some xs /\
  list_for_each_prev (length xs + 1) h head = Some (reverse xs) /\
  list_empty h head = Some (bool_decide (xs = [])).
Proof.
  intros Hd. pose proof (dll_nodes _ _ _ Hd) as [Hn Hp]. destruct Hd as [Hnd Hc].
  apply NoDup_cons in Hnd as [Hni Hnd].
  unfold list_for_each, list_for_each_prev, list_empty. rewrite Hn, Hp. simpl. split_and!.
  - destruct xs as [|x xs]; cbn [hd length Nat.add].
    + cbn [loop for_each_body]. by rewrite Z.eqb_refl.
    + destruct Hc as (_ & _ & Hc).
      replace (S (length xs + 1)) with (length xs + 2)%nat by lia.
      rewrite (for_each_chain h head x xs []) by (done || lia). done.
  - rewrite (for_each_prev_chain h head head) by (done || lia). done.
  - f_equal. destruct xs as [|x xs]; cbn [hd].
    + by rewrite Z.eqb_refl.
    + rewrite bool_decide_eq_false_2 by done. apply Z.eqb_neq. set_solver.
Qed.

(** A [list_for_each_safe] loop whose body unlinks the current element
    empties the list: it never reads a freed link, every element ends up
    unlinked and nothing else changes. *)
Theorem list_for_each_safe_empties h head xs :
  dll h head xs ->
  exists h', list_for_each_safe_del (length xs + 1) h head = Some h' /\ dll h' head [] /\
    (forall x, x ∈ xs -> h' !! x = Some (0, 0)) /\ (forall x, x ∉ head :: xs -> h' !! x = h !! x).
Proof.
  intros Hd. unfold list_for_each_safe_del. rewrite (proj1 (dll_nodes _ _ _ Hd)). simpl.
  destruct (dll_next_hd _ _ _ Hd) as [n Hn]. rewrite Hn. simpl.
  apply wp_exists, del_all_spec; [done|done|lia].
Qed.

(** Witnesses: a list of two nodes at 20 and 30 with its head at 10, and an
    unlinked node at 40. *)
Definition two_nodes : gmap Z (Z * Z) :=
  {[ 10 := (30, 20); 20 := (10, 30); 30 := (20, 10); 40 := (0, 0) ]}.

Definition three_nodes : gmap Z (Z * Z) :=
  {[ 10 := (30, 20); 20 := (10, 40); 30 := (40, 10); 40 := (20, 30) ]}.

Lemma two_nodes_dll : dll two_nodes 10 [20; 30].
Proof. split; [repeat constructor; set_solver|vm_compute; done]. Qed.

Lemma three_nodes_dll : dll three_nodes 10 ([20] ++ 40 :: [30]).
Proof. split; [repeat constructor; set_solver|vm_compute; done]. Qed.

Lemma list_ops_correct_witness :
  (exists h1, list_add two_nodes 40 10 = Some h1 /\ dll h1 10 [40; 20; 30]) /\
  (exists h2, list_add_tail two_nodes 40 10 = Some h2 /\ dll h2 10 [20; 30; 40]) /\
  (exists h4, list_del three_nodes 40 = Some h4 /\ dll h4 10 [20; 30]).
Proof.
  destruct (list_ops_correct two_nodes 10 [20] 40 [30]) as ((h1 & ? & ? & _) & (h2 & ? & ? & _) & Hdel);
    [apply two_nodes_dll|by exists (0, 0)|set_solver|].
  destruct (Hdel three_nodes three_nodes_dll) as (h4 & ? & ? & _).
  eauto 10.
Defined.

Lemma list_traversals_witness :
  list_for_each 3 two_nodes 10 = Some [20; 30] /\
  list_for_each_prev 3 two_nodes 10 = Some [30; 20] /\
  list_empty two_nodes 10 = Some false.
Proof. apply (list_traversals two_nodes 10 [20; 30] two_nodes_dll). Defined.

Lemma list_for_each_safe_empties_witness :
  exists h', list_for_each_safe_del 3 two_nodes 10 = Some h' /\ dll h' 10 [] /\
    (forall x, x ∈ [20; 30] -> h' !! x = Some (0, 0)) /\
    (forall x, x ∉ [10; 20; 30] -> h' !! x = two_nodes !! x).
Proof. apply (list_for_each_safe_empties two_nodes 10 [20; 30] two_nodes_dll). Defined.
