(* ===== verification/CharRange.v ===== *)
(** * Sets of code points as sorted interval bounds (libunicode.c, CharRange)

    A [CharRange] is a growable array of [uint32_t] points; the even-indexed
    points open half-open intervals that the following odd-indexed point
    closes.  The block the points live in is obtained from the caller's
    [realloc_func], a parameter that satisfies the laws of [realloc]; it is
    measured here in 4-byte words.  [len] and [size] are C [int]s: their
    overflow is undefined behaviour ([None]). *)

From S2P Require Import Prelude CArray Rqsort CBytes DynBuf.
Open Scope Z_scope.

Record charrange := CharRange { cr_len : Z; cr_size : Z; points : list Z }.

Inductive CharRangeOpEnum := CR_OP_UNION | CR_OP_INTER | CR_OP_XOR.

(** An [int] result that must not overflow. *)
Definition ckint (x : Z) : option Z :=
  if (- 2 ^ 31 <=? x) && (x <? 2 ^ 31) then Some x else None.

Definition UINT32_MAX : Z := 0xffffffff.

Section ops.
Context (realloc_func : realloc_t).

Definition cr_init : charrange := CharRange 0 0 [].

Definition cr_realloc (cr : charrange) (size : Z) : option (Z * charrange) :=
  if size >? cr_size cr then
    t ← ckint (cr_size cr * 3);
    let new_size := max_int size (Z.quot t 2) in
    match realloc_func (points cr) new_size with
    | None => Some (-1, cr)
    | Some new_buf => Some (0, CharRange (cr_len cr) new_size new_buf)
    end
  else Some (0, cr).

Definition cr_copy (cr cr1 : charrange) : option (Z * charrange) :=
  '(r, cr) ← cr_realloc cr (cr_len cr1);
  if negb (r =? 0) then Some (-1, cr) else
  pts ← put_list (points cr) 0 (zslice (points cr1) 0 (cr_len cr1));
  Some (0, CharRange (cr_len cr1) (cr_size cr) pts).

Definition cr_add_point (cr : charrange) (v : Z) : option (Z * charrange) :=
  '(r, cr) ← (if cr_len cr >=? cr_size cr
              then n ← ckint (cr_len cr + 1); cr_realloc cr n else Some (0, cr));
  if negb (r =? 0) then Some (-1, cr) else
  pts ← wr (points cr) (cr_len cr) v;
  Some (0, CharRange (cr_len cr + 1) (cr_size cr) pts).

Definition cr_add_interval (cr : charrange) (c1 c2 : Z) : option (Z * charrange) :=
  n ← ckint (cr_len cr + 2);
  '(r, cr) ← (if n >? cr_size cr then cr_realloc cr n else Some (0, cr));
  if negb (r =? 0) then Some (-1, cr) else
  pts ← wr (points cr) (cr_len cr) c1;
  pts ← wr pts (cr_len cr + 1) c2;
  Some (0, CharRange (cr_len cr + 2) (cr_size cr) pts).

(** The inner loop of [cr_compress]: the last interval that touches [j]. *)
Definition merge_body (pt : list Z) (len j : Z) : option (Z + Z) :=
  if j + 3 <? len then
    x ← rd pt (j + 1); y ← rd pt (j + 2);
    if x =? y then Some (inl (j + 2)) else Some (inr j)
  else Some (inr j).

Definition compress_body (len : Z) (st : list Z * Z * Z) : option ((list Z * Z * Z) + (list Z * Z)) :=
  let '(pt, i, k) := st in
  if i + 1 <? len then
    x ← rd pt i; y ← rd pt (i + 1);
    if x =? y then Some (inl (pt, i + 2, k)) else
    j ← loop (Z.to_nat len) (merge_body pt len) i;
    x ← rd pt i; pt ← wr pt k x;
    y ← rd pt (j + 1); pt ← wr pt (k + 1) y;
    Some (inl (pt, j + 2, k + 2))
  else Some (inr (pt, k)).

Definition cr_compress (cr : charrange) : option charrange :=
  '(pt, k) ← loop (Z.to_nat (cr_len cr) + 1) (compress_body (cr_len cr)) (points cr, 0, 0);
  Some (CharRange k (cr_size cr) pt).

(** The next point of [a] and [b] in increasing order. *)
Definition next_point (a_pt : list Z) (a_len : Z) (b_pt : list Z) (b_len a_idx b_idx : Z)
    : option (option (Z * Z * Z)) :=
  if (a_idx <? a_len) && (b_idx <? b_len) then
    a ← rd a_pt a_idx; b ← rd b_pt b_idx;
    if a <? b then Some (Some (a, a_idx + 1, b_idx))
    else if a =? b then Some (Some (a, a_idx + 1, b_idx + 1))
    else Some (Some (b, a_idx, b_idx + 1))
  else if a_idx <? a_len then a ← rd a_pt a_idx; Some (Some (a, a_idx + 1, b_idx))
  else if b_idx <? b_len then b ← rd b_pt b_idx; Some (Some (b, a_idx, b_idx + 1))
  else Some None.

Definition op_is_in (op : CharRangeOpEnum) (a_idx b_idx : Z) : Z :=
  match op with
  | CR_OP_UNION => Z.lor (Z.land a_idx 1) (Z.land b_idx 1)
  | CR_OP_INTER => Z.land (Z.land a_idx 1) (Z.land b_idx 1)
  | CR_OP_XOR => Z.lxor (Z.land a_idx 1) (Z.land b_idx 1)
  end.

(** The loop leaves with [Some cr] to be compressed, or with the [cr] an
    allocation failure left behind. *)
Definition op_body (a_pt : list Z) (a_len : Z) (b_pt : list Z) (b_len : Z) (op : CharRangeOpEnum)
    (st : charrange * Z * Z) : option ((charrange * Z * Z) + (Z * charrange)) :=
  let '(cr, a_idx, b_idx) := st in
  nxt ← next_point a_pt a_len b_pt b_len a_idx b_idx;
  match nxt with
  | None => Some (inr (0, cr))
  | Some (v, a_idx, b_idx) =>
      if negb (op_is_in op a_idx b_idx =? Z.land (cr_len cr) 1) then
        '(r, cr) ← cr_add_point cr v;
        if negb (r =? 0) then Some (inr (-1, cr)) else Some (inl (cr, a_idx, b_idx))
      else Some (inl (cr, a_idx, b_idx))
  end.

Definition cr_op (cr : charrange) (a_pt : list Z) (a_len : Z) (b_pt : list Z) (b_len : Z)
    (op : CharRangeOpEnum) : option (Z * charrange) :=
  '(r, cr) ← loop (Z.to_nat a_len + Z.to_nat b_len + 1) (op_body a_pt a_len b_pt b_len op) (cr, 0, 0);
  if negb (r =? 0) then Some (-1, cr) else
  cr ← cr_compress cr; Some (0, cr).

Definition cr_union1 (cr : charrange) (b_pt : list Z) (b_len : Z) : option (Z * charrange) :=
  cr_op (CharRange 0 0 []) (points cr) (cr_len cr) b_pt b_len CR_OP_UNION.

Definition cr_union_interval (cr : charrange) (c1 c2 : Z) : option (Z * charrange) :=
  cr_union1 cr [c1; u32 (c2 + 1)] 2.

Definition cr_invert (cr : charrange) : option (Z * charrange) :=
  let len := cr_len cr in
  n ← ckint (len + 2);
  '(r, cr) ← cr_realloc cr n;
  if negb (r =? 0) then Some (-1, cr) else
  pts ← put_list (points cr) 1 (zslice (points cr) 0 len);
  pts ← wr pts 0 0;
  pts ← wr pts (len + 1) UINT32_MAX;
  cr ← cr_compress (CharRange (len + 2) (cr_size cr) pts);
  Some (0, cr).
End ops.

(** [cr_sort_and_remove_overlap] sorts the array of intervals, that is, of
    8-byte records, by their first point. *)
Definition point_cmp (p1 p2 : Z * Z) : Z :=
  Zb (p1.1 >? p2.1) - Zb (p1.1 <? p2.1).

Fixpoint intervals (l : list Z) : list (Z * Z) :=
  match l with a :: b :: l => (a, b) :: intervals l | _ => [] end.

Fixpoint bounds (l : list (Z * Z)) : list Z :=
  match l with [] => [] | (a, b) :: l => a :: b :: bounds l end.

Definition absorb_body (pts : list Z) (len : Z) (st : Z * Z) : option ((Z * Z) + (Z * Z)) :=
  let '(i, end_) := st in
  if i <? len then
    start1 ← rd pts i; end1 ← rd pts (i + 1);
    if start1 >? end_ then Some (inr (i, end_))
    else if end1 <=? end_ then Some (inl (i + 2, end_))
    else Some (inl (i + 2, end1))
  else Some (inr (i, end_)).

Definition overlap_body (len : Z) (st : list Z * Z * Z) : option ((list Z * Z * Z) + (list Z * Z)) :=
  let '(pts, i, j) := st in
  if i <? len then
    start ← rd pts i; end_ ← rd pts (i + 1);
    '(i, end_) ← loop (Z.to_nat len) (absorb_body pts len) (i + 2, end_);
    pts ← wr pts j start;
    pts ← wr pts (j + 1) end_;
    Some (inl (pts, i, j + 2))
  else Some (inr (pts, j)).

Definition cr_sort_and_remove_overlap (cr : charrange) : option charrange :=
  let n := Z.quot (cr_len cr) 2 in
  sorted ← rqsort point_cmp (intervals (zslice (points cr) 0 (2 * n))) n 8;
  let pts := bounds sorted ++ zslice (points cr) (2 * n) (zlen (points cr)) in
  '(pts, j) ← loop (Z.to_nat (cr_len cr) + 1) (overlap_body (cr_len cr)) (pts, 0, 0);
  Some (CharRange j (cr_size cr) pts).

(** ** The set a point list denotes *)

(** [c] is in the set when an odd number of points is at or below it. *)
Fixpoint in_pts (l : list Z) (c : Z) : bool :=
  match l with [] => false | p :: l => xorb (p <=? c) (in_pts l c) end.

Definition pts (cr : charrange) : list Z := zslice (points cr) 0 (cr_len cr).

(** What the comment on [points] promises: even length, nondecreasing. *)
Definition sorted_pts (l : list Z) : Prop := StronglySorted Z.le l /\ Z.even (zlen l) = true.

(** The canonical form: no empty and no touching intervals. *)
Definition canonical_pts (l : list Z) : Prop := StronglySorted Z.lt l /\ Z.even (zlen l) = true.

Definition op_bool (op : CharRangeOpEnum) : bool -> bool -> bool :=
  match op with CR_OP_UNION => orb | CR_OP_INTER => andb | CR_OP_XOR => xorb end.

Definition cr_ok (B : Z) (cr : charrange) : Prop :=
  zlen (points cr) = cr_size cr /\ 0 <= cr_len cr <= cr_size cr /\ 2 * cr_size cr <= 3 * B.

Lemma in_pts_app l l' c : in_pts (l ++ l') c = xorb (in_pts l c) (in_pts l' c).
Proof. induction l as [|p l IH]; simpl; [by destruct (in_pts l' c)|]. rewrite IH. by rewrite xorb_assoc. Qed.

Lemma in_pts_snoc l v c : in_pts (l ++ [v]) c = xorb (in_pts l c) (v <=? c).
Proof. rewrite in_pts_app. simpl. by rewrite xorb_false_r. Qed.

Lemma in_pts_above l c : Forall (fun p => p <= c) l -> in_pts l c = Z.odd (zlen l).
Proof.
  induction 1 as [|p l Hp _ IH]; [done|]. cbn [in_pts]. rewrite IH, zlen_cons, Z.odd_add.
  replace (p <=? c) with true by lia. by destruct (Z.odd (zlen l)).
Qed.

Lemma in_pts_below l c : Forall (fun p => c < p) l -> in_pts l c = false.
Proof.
  induction 1 as [|p l Hp _ IH]; [done|]. cbn [in_pts]. rewrite IH. by replace (p <=? c) with false by lia.
Qed.

Lemma StronglySorted_snoc (R : Z -> Z -> Prop) l x :
  StronglySorted R l -> Forall (fun y => R y x) l -> StronglySorted R (l ++ [x]).
Proof.
  induction 1 as [|y l _ IH Hy]; intros Hx; simpl; [by repeat constructor|].
  apply Forall_cons in Hx as [? Hx]. constructor; [by apply IH|].
  apply Forall_app. split; [done|by repeat constructor].
Qed.

Lemma StronglySorted_rd (R : Z -> Z -> Prop) l i j x y :
  StronglySorted R l -> i < j -> rd l i = Some x -> rd l j = Some y -> R x y.
Proof.
  intros Hs. revert i j. induction Hs as [|z l _ IH Hz]; intros i j Hij Hx Hy; [by rewrite rd_lookup in Hx by (pose proof (rd_Some_range _ _ _ Hx); lia)|].
  pose proof (rd_Some_range _ _ _ Hx). rewrite (rd_cons_pos _ _ j) in Hy by lia.
  destruct (decide (i = 0)) as [->|].
  - rewrite rd_cons_0 in Hx. simplify_eq. pose proof (rd_Some_range _ _ _ Hy).
    rewrite rd_lookup in Hy by lia. by eapply Forall_lookup_1 in Hy.
  - rewrite rd_cons_pos in Hx by lia. by apply (IH (i - 1) (j - 1)); [lia|..].
Qed.

Lemma Forall_zslice_rd (P : Z -> Prop) l n :
  0 <= n <= zlen l -> (forall i x, 0 <= i < n -> rd l i = Some x -> P x) -> Forall P (zslice l 0 n).
Proof.
  intros Hn H. apply Forall_lookup_2. intros i x Hx.
  pose proof (lookup_lt_Some _ _ _ Hx). pose proof (zlen_zslice l 0 n ltac:(lia) ltac:(lia)) as Hz.
  unfold zlen in Hz. apply (H (Z.of_nat i)); [lia|].
  rewrite <- (Z.add_0_l (Z.of_nat i)), <- (rd_zslice l 0 n) by lia. rewrite rd_lookup by lia. by rewrite Nat2Z.id.
Qed.

Lemma zslice_step2 (l : list Z) i x y :
  0 <= i -> rd l i = Some x -> rd l (i + 1) = Some y -> zslice l 0 (i + 2) = zslice l 0 i ++ [x; y].
Proof.
  intros Hi Hx Hy. replace (i + 2) with (i + 1 + 1) by lia.
  rewrite (zslice_snoc _ _ _ y) by (done || lia). rewrite (zslice_snoc _ _ _ x) by (done || lia).
  by rewrite <- app_assoc.
Qed.

Lemma zslice_ext (l l' : list Z) lo hi :
  0 <= lo <= hi -> hi <= zlen l -> hi <= zlen l' -> (forall q, lo <= q < hi -> rd l q = rd l' q) ->
  zslice l lo hi = zslice l' lo hi.
Proof.
  intros ??? H. apply list_ext; rewrite !zlen_zslice by lia; [done|].
  intros i Hi. rewrite !rd_zslice by lia. apply H. lia.
Qed.

(** ** [cr_compress] *)

Section compress.
Context (l0 : list Z) (len : Z) (Hlen : 0 <= len <= zlen l0) (Heven : Z.even len = true)
  (Hsorted : StronglySorted Z.le (zslice l0 0 len)).

Lemma l0_sorted i j x y : i <= j < len -> rd l0 i = Some x -> rd l0 j = Some y -> x <= y.
Proof.
  intros Hij Hx Hy. pose proof (rd_Some_range _ _ _ Hx).
  destruct (decide (i = j)) as [->|]; [simplify_eq; lia|].
  apply (StronglySorted_rd Z.le (zslice l0 0 len) i j x y); try done; [lia|..];
    by rewrite rd_zslice by lia.
Qed.

Lemma even_step n m : Z.even n = true -> Z.even m = true -> n < m -> n + 1 < m.
Proof. intros Hn Hm ?. assert (n + 1 <> m) by (intros <-; by rewrite Z.even_add, Hn in Hm). lia. Qed.

(** The merged run from [i] denotes one interval. *)
Definition run (i j : Z) : Prop :=
  exists x y, rd l0 i = Some x /\ rd l0 (j + 1) = Some y /\
    forall c, in_pts (zslice l0 0 (j + 2)) c = xorb (in_pts (zslice l0 0 i) c) (in_pts [x; y] c).

Lemma run_start i : 0 <= i -> i + 1 < len -> run i i.
Proof.
  intros Hi Hl. destruct (rd_is_Some l0 i ltac:(lia)) as [x Hx].
  destruct (rd_is_Some l0 (i + 1) ltac:(lia)) as [y Hy]. exists x, y. split_and!; [done|done|].
  intros c. by rewrite (zslice_step2 _ _ x y), in_pts_app by done.
Qed.

Lemma run_step i j : 0 <= i <= j -> j + 3 < len -> run i j -> rd l0 (j + 1) = rd l0 (j + 2) -> run i (j + 2).
Proof.
  intros Hi Hl (x & y & Hx & Hy & Hc) Heq. destruct (rd_is_Some l0 (j + 3) ltac:(lia)) as [z Hz].
  exists x, z. split_and!; [done|rewrite <- Hz; f_equal; lia|]. intros c.
  rewrite (zslice_step2 _ _ y z), in_pts_app, Hc; [|lia|congruence|rewrite <- Hz; f_equal; lia].
  simpl. rewrite !xorb_false_r, !xorb_assoc. f_equal. f_equal. by destruct (y <=? c), (z <=? c).
Qed.

Lemma merge_spec fuel pt i :
  (forall q, i <= q < len -> rd pt q = rd l0 q) -> zlen pt = zlen l0 ->
  0 <= i -> i + 1 < len -> Z.even i = true -> len <= Z.of_nat fuel ->
  wp (loop fuel (merge_body pt len) i) (fun j =>
    i <= j /\ j + 1 < len /\ Z.even j = true /\ run i j /\
    (j + 3 < len -> rd l0 (j + 1) <> rd l0 (j + 2))).
Proof.
  intros Hpt Hz Hi Hil Hei Hf.
  apply (wp_loop (fun j => i <= j /\ j + 1 < len /\ Z.even j = true /\ run i j)
    (fun j => Z.to_nat (len - 2 - j))).
  - split_and!; try done; by apply run_start.
  - lia.
  - clear Hil. intros j (Hj & Hjl & Hej & Hq). unfold merge_body. wp_step.
    + rewrite !Hpt by lia.
      wp_step. apply wp_rd; [lia|]. intros x Hx. wp_step. apply wp_rd; [lia|]. intros y Hy.
      wp_step; wp_step.
      * subst y. split; [|lia].
        split_and!; [lia| |by rewrite Z.even_add, Hej|apply run_step; (done || lia || congruence)].
        apply even_step; [by rewrite Z.even_add, Hej|done|lia].
      * split_and!; try done. intros _. congruence.
    + wp_step. split_and!; try done. lia.
Qed.

Definition compress_inv (st : list Z * Z * Z) : Prop :=
  let '(pt, i, k) := st in
  zlen pt = zlen l0 /\ 0 <= k <= i /\ i <= len /\ Z.even i = true /\ Z.even k = true /\
  (forall q, i <= q < len -> rd pt q = rd l0 q) /\
  StronglySorted Z.lt (zslice pt 0 k) /\
  (forall c, in_pts (zslice pt 0 k) c = in_pts (zslice l0 0 i) c) /\
  (forall q y, i <= q < len -> rd l0 q = Some y -> Forall (fun x => x < y) (zslice pt 0 k)) /\
  (forall P, Forall P (zslice l0 0 len) -> Forall P (zslice pt 0 k)).

(** Emitting the interval [x, y) of a run. *)
Lemma compress_emit pt i j k x y :
  compress_inv (pt, i, k) -> i <= j -> j + 1 < len -> Z.even j = true ->
  rd l0 i = Some x -> rd l0 (j + 1) = Some y -> x < y ->
  (forall c, in_pts (zslice l0 0 (j + 2)) c = xorb (in_pts (zslice l0 0 i) c) (in_pts [x; y] c)) ->
  (j + 3 < len -> rd l0 (j + 1) <> rd l0 (j + 2)) ->
  compress_inv (upd (upd pt k x) (k + 1) y, j + 2, k + 2).
Proof.
  intros (Hz & Hk & Hi & Hei & Hek & Hpt & Hs & Hin & Hlt & HP) Hij Hj Hej Hx Hy Hxy Hrun Hgap.
  assert (zslice (upd (upd pt k x) (k + 1) y) 0 (k + 2) = zslice pt 0 k ++ [x; y]) as Hout.
  { rewrite (zslice_step2 _ _ x y); [|lia| |].
    - f_equal. apply zslice_ext; autorewrite with zlen; try lia. intros q ?. by rewrite !rd_upd_ne by lia.
    - rewrite rd_upd_ne by lia. apply rd_upd_eq. lia.
    - apply rd_upd_eq. autorewrite with zlen. lia. }
  unfold compress_inv. rewrite Hout. autorewrite with zlen.
  pose proof (even_step j len Hej Heven ltac:(lia)).
  split_and!; try lia; try (rewrite Z.even_add; by rewrite ?Hej, ?Hek).
  - intros q Hq. rewrite !rd_upd_ne by lia. apply Hpt. lia.
  - replace [x; y] with ([x] ++ [y]) by done. rewrite app_assoc.
    assert (Forall (fun z => z < x) (zslice pt 0 k)) as Hlx by (apply (Hlt i); [lia|done]).
    apply StronglySorted_snoc; [by apply StronglySorted_snoc|].
    apply Forall_app. split; [|by repeat constructor]. eapply Forall_impl; [exact Hlx|]. simpl. lia.
  - intros c. rewrite in_pts_app, Hrun, Hin. done.
  - intros q z Hq Hz'. assert (y < z) as Hyz.
    { destruct (rd_is_Some l0 (j + 2) ltac:(lia)) as [w Hw].
      pose proof (even_step (j + 2) len ltac:(by rewrite Z.even_add, Hej) Heven ltac:(lia)).
      specialize (Hgap ltac:(lia)). rewrite Hy, Hw in Hgap.
      pose proof (l0_sorted (j + 1) (j + 2) y w ltac:(lia) Hy Hw).
      pose proof (l0_sorted (j + 2) q w z ltac:(lia) Hw Hz'). assert (y <> w) by congruence. lia. }
    apply Forall_app. split; [|repeat constructor; lia].
    eapply Forall_impl; [apply (Hlt i x); [lia|done]|]. simpl. lia.
  - intros P HPl. apply Forall_app. split; [by apply HP|].
    assert (forall q z, 0 <= q < len -> rd l0 q = Some z -> P z) as HPq.
    { intros q z Hq Hr. rewrite <- (Z.add_0_l q), <- (rd_zslice l0 0 len) in Hr by lia.
      rewrite rd_lookup in Hr by lia. by eapply Forall_lookup_1. }
    repeat constructor; [by apply (HPq i); [lia|]|by apply (HPq (j + 1)); [lia|]].
Qed.

Lemma compress_spec :
  wp (loop (Z.to_nat len + 1) (compress_body len) (l0, 0, 0)) (fun '(pt, k) =>
    zlen pt = zlen l0 /\ 0 <= k <= len /\ canonical_pts (zslice pt 0 k) /\
    (forall c, in_pts (zslice pt 0 k) c = in_pts (zslice l0 0 len) c) /\
    (forall P, Forall P (zslice l0 0 len) -> Forall P (zslice pt 0 k))).
Proof.
  apply (wp_loop compress_inv (fun '(_, i, _) => Z.to_nat (len - i))).
  - unfold compress_inv. rewrite !zslice_nil. split_and!; try done; try lia. constructor.
  - lia.
  - intros [[pt i] k] Hinv. pose proof Hinv as (Hz & Hk & Hi & Hei & Hek & Hpt & Hs & Hin & Hlt & HP).
    unfold compress_body. wp_step.
    + rewrite !Hpt by lia. wp_step. apply wp_rd; [lia|]. intros x Hx.
      wp_step. apply wp_rd; [lia|]. intros y Hy. wp_step.
      * subst y. wp_step. split; [|lia]. unfold compress_inv.
        split_and!; try lia; try done.
        { by rewrite Z.even_add, Hei. }
        { intros q ?. apply Hpt. lia. }
        { intros c. rewrite Hin, (zslice_step2 _ _ x x), in_pts_app by (done || lia).
          simpl. by destruct (x <=? c); rewrite !xorb_false_r. }
        { intros q y ??. by apply (Hlt q); [lia|]. }
      * wp_step. eapply wp_mono; [apply merge_spec; try done; lia|]. cbv beta.
        intros j (Hij & Hj & Hej & (x' & z & Hx' & Hzj & Hrun) & Hgap).
        rewrite Hx in Hx'. injection Hx' as <-.
        repeat arr_step. rewrite rd_upd_ne, Hpt, Hzj in Hrd0 by lia. injection Hrd0 as <-.
        rewrite Hx in Hrd. injection Hrd as <-. split; [|lia].
        eapply compress_emit; try done.
        pose proof (l0_sorted i (i + 1) x y ltac:(lia) Hx Hy).
        pose proof (l0_sorted (i + 1) (j + 1) y z ltac:(lia) Hy Hzj). lia.
    + wp_step. assert (i = len) as ->.
      { destruct (decide (i < len)); [|lia]. pose proof (even_step i len Hei Heven). lia. }
      split_and!; try done; try lia. unfold canonical_pts. by rewrite zlen_zslice, Z.sub_0_r by lia.
Qed.
End compress.

(** ** Growing operations *)

Section lemmas.
Context (realloc_func : realloc_t) `{!ReallocLaws realloc_func} (B : Z) (HB : B <= 2 ^ 29).
Implicit Types cr : charrange.

Lemma cr_ok_pts_zlen cr : cr_ok B cr -> zlen (pts cr) = cr_len cr.
Proof. intros (?&?&?). unfold pts. rewrite zlen_zslice by lia. lia. Qed.

Lemma cr_realloc_spec cr n :
  cr_ok B cr -> n <= B ->
  wp (cr_realloc realloc_func cr n) (fun '(r, cr') =>
    cr_ok B cr' /\ pts cr' = pts cr /\ cr_len cr' = cr_len cr /\
    ((r = -1 /\ oom realloc_func) \/ (r = 0 /\ n <= cr_size cr'))).
Proof.
  intros (Hz & Hl & Hs) Hn. unfold cr_realloc. wp_step; [|wp_step; split_and!; try done; right; lia].
  wp_step. unfold ckint. replace (_ && _) with true by lia. wp_step.
  destruct (realloc_func (points cr) _) as [b|] eqn:Hr; wp_step;
    [|split_and!; try done; left; split; [done|by eexists _, _]].
  assert (0 <= Z.quot (cr_size cr * 3) 2 /\ Z.quot (cr_size cr * 3) 2 * 2 <= cr_size cr * 3) as [??].
  { rewrite Z.quot_div_nonneg by lia. pose proof (Z.mul_div_le (cr_size cr * 3) 2). split; [apply Z.div_pos|]; lia. }
  set (m := max_int n (Z.quot (cr_size cr * 3) 2)) in *.
  assert (n <= m /\ 2 * m <= 3 * B /\ 0 <= m) as (?&?&Hm).
  { unfold m, max_int. case_match; zbool; split_and!; lia. }
  pose proof (realloc_zlen _ _ _ Hm Hr) as Hbl.
  unfold cr_ok, pts. simpl. split_and!; try lia.
  apply zslice_ext; try lia. intros q Hq. apply (realloc_keep _ _ _ _ Hr). lia.
Qed.

(** Storing at the end of the points. *)
Lemma pts_store cr v :
  cr_ok B cr -> cr_len cr < cr_size cr ->
  cr_ok B (CharRange (cr_len cr + 1) (cr_size cr) (upd (points cr) (cr_len cr) v)) /\
  pts (CharRange (cr_len cr + 1) (cr_size cr) (upd (points cr) (cr_len cr) v)) = pts cr ++ [v].
Proof.
  intros (Hz & Hl & Hs) Hlt. unfold cr_ok, pts. simpl. autorewrite with zlen. split; [lia|].
  rewrite (zslice_snoc _ _ _ v) by (lia || by apply rd_upd_eq; lia). f_equal.
  apply zslice_ext; autorewrite with zlen; try lia. intros q ?. by rewrite rd_upd_ne by lia.
Qed.

Definition grown cr (vs : list Z) (x : Z * charrange) : Prop :=
  cr_ok B x.2 /\ ((x.1 = -1 /\ oom realloc_func /\ pts x.2 = pts cr) \/ (x.1 = 0 /\ pts x.2 = pts cr ++ vs)).

Lemma cr_add_point_spec cr v :
  cr_ok B cr -> cr_len cr < B -> wp (cr_add_point realloc_func cr v) (grown cr [v]).
Proof.
  intros Hok Hl. unfold cr_add_point. wp_step.
  assert (wp (if cr_len cr >=? cr_size cr then n ← ckint (cr_len cr + 1); cr_realloc realloc_func cr n
              else Some (0, cr)) (fun '(r, cr') =>
    cr_ok B cr' /\ pts cr' = pts cr /\ cr_len cr' = cr_len cr /\
    ((r = -1 /\ oom realloc_func) \/ (r = 0 /\ cr_len cr < cr_size cr')))) as Hgrow.
  { destruct (Hok) as (?&?&?). wp_step; [|wp_step; split_and!; try done; right; lia].
    unfold ckint. replace (_ && _) with true by lia. simpl.
    eapply wp_mono; [apply cr_realloc_spec; [done|lia]|]. intros [r cr'] (?&?&?&[[??]|[??]]);
      split_and!; try done; [by left|right; lia]. }
  eapply wp_mono; [exact Hgrow|]. intros [r cr'] (Hok' & Hp & Hl' & [[-> ?]|[-> Hs]]); simpl.
  - split; [done|by left].
  - destruct (Hok') as (?&?&?). rewrite wr_upd by lia. simpl.
    destruct (pts_store cr' v Hok' ltac:(lia)) as [??]. split; [done|]. right. simpl. by rewrite <- Hp.
Qed.

Lemma cr_add_interval_spec cr c1 c2 :
  cr_ok B cr -> cr_len cr + 2 <= B -> wp (cr_add_interval realloc_func cr c1 c2) (grown cr [c1; c2]).
Proof.
  intros Hok Hl. unfold cr_add_interval. destruct (Hok) as (?&?&?).
  unfold ckint. replace (_ && _) with true by lia. simpl. wp_step.
  assert (wp (if cr_len cr + 2 >? cr_size cr then cr_realloc realloc_func cr (cr_len cr + 2)
              else Some (0, cr)) (fun '(r, cr') =>
    cr_ok B cr' /\ pts cr' = pts cr /\ cr_len cr' = cr_len cr /\
    ((r = -1 /\ oom realloc_func) \/ (r = 0 /\ cr_len cr + 2 <= cr_size cr')))) as Hgrow.
  { wp_step; [by apply cr_realloc_spec|]. wp_step. split_and!; try done. right; lia. }
  eapply wp_mono; [exact Hgrow|]. intros [r cr'] (Hok' & Hp & Hl' & [[-> ?]|[-> Hs]]); simpl.
  - split; [done|by left].
  - destruct (Hok') as (?&?&?). rewrite wr_upd by lia. simpl. rewrite wr_upd by (autorewrite with zlen; lia). simpl.
    destruct (pts_store cr' c1 Hok' ltac:(lia)) as [Hok1 Hp1].
    destruct (pts_store _ c2 Hok1 ltac:(simpl; lia)) as [Hok2 Hp2]. simpl in *.
    rewrite <- Z.add_assoc in Hok2, Hp2. split; [done|]. right. simpl. split; [done|].
    rewrite <- Hp. rewrite Hp1 in Hp2. by rewrite <- app_assoc in Hp2.
Qed.

Lemma cr_compress_spec cr :
  cr_ok B cr -> sorted_pts (pts cr) ->
  wp (cr_compress cr) (fun cr' => cr_ok B cr' /\ canonical_pts (pts cr') /\ cr_len cr' <= cr_len cr /\
    (forall c, in_pts (pts cr') c = in_pts (pts cr) c) /\
    (forall P, Forall P (pts cr) -> Forall P (pts cr'))).
Proof.
  intros Hok [Hs He]. rewrite (cr_ok_pts_zlen _ Hok) in He. destruct Hok as (Hz & Hl & Hsz).
  unfold cr_compress. wp_step.
  eapply wp_mono; [apply compress_spec; [lia|done|done]|].
  intros [pt k] (Hpz & Hk & Hcan & Hin & HP). wp_step.
  split_and!; try done; unfold cr_ok; simpl; lia.
Qed.
End lemmas.

(** ** [cr_op] *)

Lemma op_is_in_bool op ai bi : op_is_in op ai bi = Zb (op_bool op (Z.odd ai) (Z.odd bi)).
Proof. unfold op_is_in. rewrite !land_1. by destruct op, (Z.odd ai), (Z.odd bi). Qed.

Lemma Zb_eqb_false a b : a <> b -> (Zb a =? Zb b) = false.
Proof. by destruct a, b. Qed.

Section op.
Context (realloc_func : realloc_t) `{!ReallocLaws realloc_func} (B : Z) (HB : B <= 2 ^ 29).
Context (a_pt : list Z) (a_len : Z) (b_pt : list Z) (b_len : Z) (op : CharRangeOpEnum).
Context (Ha : 0 <= a_len <= zlen a_pt) (Hb : 0 <= b_len <= zlen b_pt) (Hab : a_len + b_len <= B).
Context (Hsa : sorted_pts (zslice a_pt 0 a_len)) (Hsb : sorted_pts (zslice b_pt 0 b_len)).

Lemma slice_le l n q y :
  0 <= n <= zlen l -> StronglySorted Z.le (zslice l 0 n) -> 0 <= q < n -> rd l q = Some y ->
  Forall (fun x => x <= y) (zslice l 0 q).
Proof.
  intros Hn Hs Hq Hy. apply Forall_zslice_rd; [lia|]. intros i x Hi Hx.
  apply (StronglySorted_rd Z.le (zslice l 0 n) i q x y); try done; [lia|..]; by rewrite rd_zslice by lia.
Qed.

(** The points not consumed yet. *)
Definition remaining (ai bi y : Z) : Prop :=
  (exists q, ai <= q < a_len /\ rd a_pt q = Some y) \/ (exists q, bi <= q < b_len /\ rd b_pt q = Some y).

Lemma remaining_mono ai bi ai' bi' y : ai <= ai' -> bi <= bi' -> remaining ai' bi' y -> remaining ai bi y.
Proof. intros ?? [(q&?&?)|(q&?&?)]; [left|right]; exists q; split; (done || lia). Qed.

Definition consumed_le (ai bi v : Z) : Prop :=
  Forall (fun x => x <= v) (zslice a_pt 0 ai) /\ Forall (fun x => x <= v) (zslice b_pt 0 bi).

Definition next_ok (ai bi v ai' bi' : Z) : Prop :=
  ai <= ai' <= a_len /\ bi <= bi' <= b_len /\ ai + bi < ai' + bi' /\
  remaining ai bi v /\ (forall y, remaining ai' bi' y -> v <= y) /\ consumed_le ai' bi' v /\
  forall c, c < v -> in_pts (zslice a_pt 0 ai') c = in_pts (zslice a_pt 0 ai) c /\
                     in_pts (zslice b_pt 0 bi') c = in_pts (zslice b_pt 0 bi) c.

Lemma remaining_ge l n i q x y :
  0 <= n <= zlen l -> StronglySorted Z.le (zslice l 0 n) -> 0 <= i <= q -> q < n ->
  rd l i = Some x -> rd l q = Some y -> x <= y.
Proof.
  intros Hn Hs Hi Hq Hx Hy. destruct (decide (i = q)) as [->|]; [simplify_eq; lia|].
  apply (StronglySorted_rd Z.le (zslice l 0 n) i q x y); try done; [lia|..]; by rewrite rd_zslice by lia.
Qed.

(** Consuming the point [v] at [i] of a list whose points it bounds. *)
Lemma consume l i v :
  0 <= i -> rd l i = Some v -> Forall (fun x => x <= v) (zslice l 0 i) ->
  Forall (fun x => x <= v) (zslice l 0 (i + 1)) /\
  forall c, c < v -> in_pts (zslice l 0 (i + 1)) c = in_pts (zslice l 0 i) c.
Proof.
  intros Hi Hv Hle. rewrite (zslice_snoc _ _ _ v) by (done || lia). split.
  - apply Forall_app. split; [done|by repeat constructor].
  - intros c Hc. rewrite in_pts_snoc. replace (v <=? c) with false by lia. by rewrite xorb_false_r.
Qed.

Lemma next_point_spec ai bi :
  0 <= ai <= a_len -> 0 <= bi <= b_len ->
  (forall y, remaining ai bi y -> consumed_le ai bi y) ->
  wp (next_point a_pt a_len b_pt b_len ai bi) (fun o =>
    match o with
    | None => ai = a_len /\ bi = b_len
    | Some (v, ai', bi') => next_ok ai bi v ai' bi'
    end).
Proof.
  intros Hai Hbi Hcons. destruct Hsa as [Hsa' _], Hsb as [Hsb' _].
  assert (forall v, ai < a_len -> rd a_pt ai = Some v ->
    (forall y, remaining ai bi y -> v <= y) -> next_ok ai bi v (ai + 1) bi) as HA.
  { intros v Hlt Hv Hmin. assert (remaining ai bi v) as Hr by (left; exists ai; split; [lia|done]).
    destruct (Hcons v Hr) as [Hca Hcb]. destruct (consume a_pt ai v ltac:(lia) Hv Hca) as [Hca' Hin].
    split_and!; try lia; try done.
    - intros y Hy. apply Hmin. eapply remaining_mono; [..|exact Hy]; lia.
    - intros c Hc. split; [by apply Hin|done]. }
  assert (forall v, bi < b_len -> rd b_pt bi = Some v ->
    (forall y, remaining ai bi y -> v <= y) -> next_ok ai bi v ai (bi + 1)) as HBb.
  { intros v Hlt Hv Hmin. assert (remaining ai bi v) as Hr by (right; exists bi; split; [lia|done]).
    destruct (Hcons v Hr) as [Hca Hcb]. destruct (consume b_pt bi v ltac:(lia) Hv Hcb) as [Hcb' Hin].
    split_and!; try lia; try done.
    - intros y Hy. apply Hmin. eapply remaining_mono; [..|exact Hy]; lia.
    - intros c Hc. split; [done|by apply Hin]. }
  assert (forall x q y, rd a_pt ai = Some x -> ai <= q < a_len -> rd a_pt q = Some y -> x <= y) as HlA
    by (intros; eapply (remaining_ge a_pt a_len ai q); eauto; lia).
  assert (forall x q y, rd b_pt bi = Some x -> bi <= q < b_len -> rd b_pt q = Some y -> x <= y) as HlB
    by (intros; eapply (remaining_ge b_pt b_len bi q); eauto; lia).
  unfold next_point. repeat arr_step; try done.
  - apply HA; try done. intros y [(q&?&?)|(q&?&?)]; [by eapply HlA|].
    assert (v0 <= y) by (by eapply HlB). lia.
  - subst v0. assert (remaining ai bi v) as Hr by (left; exists ai; split; [lia|done]).
    destruct (Hcons v Hr) as [Hca Hcb].
    destruct (consume a_pt ai v ltac:(lia) Hrd Hca) as [Hca' HinA].
    destruct (consume b_pt bi v ltac:(lia) Hrd0 Hcb) as [Hcb' HinB].
    split_and!; try lia; try done.
    + intros y [(q&?&?)|(q&?&?)]; [apply (HlA v q y)|apply (HlB v q y)]; try done; lia.
    + intros c Hc'. split; [by apply HinA|by apply HinB].
  - apply HBb; try done. intros y [(q&?&?)|(q&?&?)]; [|by eapply HlB].
    assert (v <= y) by (by eapply HlA). lia.
  - exfalso; lia.
  - apply HBb; try done. intros y [(q&?&?)|(q&?&?)]; [lia|by eapply HlB].
  - lia.
  - apply HA; try done. intros y [(q&?&?)|(q&?&?)]; [by eapply HlA|lia].
  - exfalso; lia.
  - lia.
Qed.

Definition op_inv (st : charrange * Z * Z) : Prop :=
  let '(cr, ai, bi) := st in
  cr_ok B cr /\ 0 <= ai <= a_len /\ 0 <= bi <= b_len /\ cr_len cr <= ai + bi /\
  Z.odd (cr_len cr) = op_bool op (Z.odd ai) (Z.odd bi) /\
  StronglySorted Z.le (pts cr) /\
  (forall y, remaining ai bi y -> consumed_le ai bi y /\ Forall (fun x => x <= y) (pts cr)) /\
  (forall c, in_pts (pts cr) c = op_bool op (in_pts (zslice a_pt 0 ai) c) (in_pts (zslice b_pt 0 bi) c)) /\
  (forall P, (forall y, remaining 0 0 y -> P y) -> Forall P (pts cr)).

(** The invariant after the point [v], which the output does or does not get. *)
Lemma op_inv_step cr ai bi v ai' bi' cr' :
  op_inv (cr, ai, bi) -> next_ok ai bi v ai' bi' -> cr_ok B cr' ->
  (if bool_decide (Z.odd (cr_len cr) = op_bool op (Z.odd ai') (Z.odd bi'))
   then pts cr' = pts cr else pts cr' = pts cr ++ [v]) ->
  op_inv (cr', ai', bi').
Proof.
  intros (Hok & Hai & Hbi & Hl & Hodd & Hs & Hrem & Hin & HP)
    (Ha' & Hb' & Hlt & Hv & Hmin & Hcons & Hbelow) Hok' Hpts.
  destruct (Hrem v Hv) as [_ Hpv].
  pose proof (cr_ok_pts_zlen B _ Hok) as Hz. pose proof (cr_ok_pts_zlen B _ Hok') as Hz'.
  assert (exists vs, pts cr' = pts cr ++ vs /\ (vs = [] \/ vs = [v]) /\
    Z.odd (cr_len cr') = op_bool op (Z.odd ai') (Z.odd bi') /\ cr_len cr' <= cr_len cr + 1) as (vs & Hvs & Hcase & Hodd' & Hl').
  { case_bool_decide as Heq; rewrite Hpts in Hz'; autorewrite with zlen in Hz'; rewrite Hz in Hz'.
    - exists []. rewrite app_nil_r. split_and!; [done|by left|congruence|lia].
    - exists [v]. split_and!; [done|by right| |].
      + rewrite <- Hz'. change (zlen [v]) with 1. rewrite Z.odd_add.
        destruct (Z.odd (cr_len cr)), (op_bool op (Z.odd ai') (Z.odd bi')); simpl; congruence.
      + change (zlen [v]) with 1 in Hz'. lia. }
  assert (Forall (fun x => x <= v) (pts cr')) as Hpv'.
  { rewrite Hvs. apply Forall_app. split; [done|]. destruct Hcase as [-> | ->]; by repeat constructor. }
  split_and!; try done; try lia.
  - rewrite Hvs. destruct Hcase as [-> | ->]; [by rewrite app_nil_r|by apply StronglySorted_snoc].
  - intros y Hy. specialize (Hmin y Hy). destruct Hcons.
    split_and!; [split|]; (eapply Forall_impl; [eassumption|simpl; lia]).
  - intros c. destruct (decide (v <= c)).
    + destruct Hcons. rewrite !in_pts_above by (eapply Forall_impl; [eassumption|simpl; lia]).
      rewrite Hz', !zlen_zslice, !Z.sub_0_r by lia. done.
    + destruct (Hbelow c ltac:(lia)) as [-> ->]. rewrite <- Hin, Hvs.
      destruct Hcase as [-> | ->]; [by rewrite app_nil_r|].
      rewrite in_pts_snoc. replace (v <=? c) with false by lia. by rewrite xorb_false_r.
  - intros P HPr. rewrite Hvs. apply Forall_app. split; [by apply HP|].
    assert (P v) by (apply HPr; eapply remaining_mono; [..|exact Hv]; lia).
    destruct Hcase as [-> | ->]; by repeat constructor.
Qed.

Lemma cr_op_spec cr :
  cr_ok B cr -> cr_len cr = 0 ->
  wp (cr_op realloc_func cr a_pt a_len b_pt b_len op) (fun '(r, cr') => cr_ok B cr' /\
    ((r = -1 /\ oom realloc_func) \/ (r = 0 /\ canonical_pts (pts cr') /\ cr_len cr' <= a_len + b_len /\
      (forall c, in_pts (pts cr') c = op_bool op (in_pts (zslice a_pt 0 a_len) c) (in_pts (zslice b_pt 0 b_len) c)) /\
      (forall P, Forall P (zslice a_pt 0 a_len) -> Forall P (zslice b_pt 0 b_len) -> Forall P (pts cr'))))).
Proof.
  intros Hok Hl0. unfold cr_op. wp_step.
  apply (wp_mono _ (fun '(r, cr') => cr_ok B cr' /\ ((r = -1 /\ oom realloc_func) \/ (r = 0 /\ op_inv (cr', a_len, b_len))))).
  - apply (wp_loop op_inv (fun '(_, ai, bi) => Z.to_nat (a_len - ai + (b_len - bi)))).
    + unfold op_inv. rewrite Hl0. unfold pts. rewrite Hl0, !zslice_nil.
      split_and!; try done; try lia; [by destruct op|constructor|by destruct op].
    + lia.
    + clear Hok Hl0 cr. intros [[cr ai] bi] Hinv.
      pose proof Hinv as (Hok & Hai & Hbi & Hl & Hodd & Hs & Hrem & Hin & HP).
      unfold op_body. wp_step. eapply wp_mono.
      { apply next_point_spec; [lia|lia|]. intros y Hy. by apply Hrem. }
      intros [[[v ai'] bi']|]; [|intros [-> ->]; wp_step; split; [done|by right]].
      intros Hn. destruct (Hn) as (?&?&?&_). rewrite op_is_in_bool, land_1.
      pose proof (fun cr' => op_inv_step cr ai bi v ai' bi' cr' Hinv Hn) as Hstep.
      destruct (bool_decide (Z.odd (cr_len cr) = op_bool op (Z.odd ai') (Z.odd bi'))) eqn:Hd.
      * apply bool_decide_eq_true in Hd. rewrite Hd, Z.eqb_refl. simpl.
        split; [by apply Hstep|lia].
      * apply bool_decide_eq_false in Hd.
        rewrite Zb_eqb_false by congruence.
        simpl. wp_step. eapply wp_mono; [apply (cr_add_point_spec realloc_func B HB); [done|lia]|].
        intros [r cr'] [Hok' Hg]; simpl in *. destruct Hg as [(-> & Hoom & Hp)|[-> Hp]]; simpl; [by split; [|left]|].
        split; [by apply Hstep|lia].
  - intros [r cr'] [Hok' [[-> ?]|[-> Hinv]]]; simpl; [by split; [|left]|].
    destruct Hinv as (_ & _ & _ & Hl & Hodd & Hs & Hrem & Hin & HP). wp_step.
    eapply wp_mono; [apply (cr_compress_spec B); [done|]|].
    + split; [done|]. rewrite (cr_ok_pts_zlen B _ Hok'), <- Z.negb_odd, Hodd.
      destruct Hsa as [_ He1], Hsb as [_ He2]. rewrite zlen_zslice, Z.sub_0_r, <- Z.negb_odd in He1, He2 by lia.
      zbool. rewrite He1, He2. by destruct op.
    + cbv beta. intros cr2 (? & ? & ? & Hin2 & HP2). wp_step. split; [done|]. right.
      split_and!; try done; [lia|intros c; by rewrite Hin2|]. intros P HPa HPb. apply HP2, HP.
      intros y [(q&Hq&Hr)|(q&Hq&Hr)]; [clear HPb|clear HPa].
      * rewrite <- (Z.add_0_l q), <- (rd_zslice _ 0 a_len) in Hr by lia. rewrite rd_lookup in Hr by lia.
        by eapply Forall_lookup_1.
      * rewrite <- (Z.add_0_l q), <- (rd_zslice _ 0 b_len) in Hr by lia. rewrite rd_lookup in Hr by lia.
        by eapply Forall_lookup_1.
Qed.
End op.

(** ** Copy, union and complement *)

Section derived.
Context (realloc_func : realloc_t) `{!ReallocLaws realloc_func} (B : Z) (HB : B <= 2 ^ 29).
Implicit Types cr : charrange.

Lemma cr_init_ok : 0 <= B -> cr_ok B cr_init.
Proof. intros. unfold cr_ok. simpl. change (zlen []) with 0. lia. Qed.

Lemma cr_copy_spec B1 cr cr1 :
  cr_ok B cr -> cr_ok B1 cr1 -> cr_len cr1 <= B ->
  wp (cr_copy realloc_func cr cr1) (fun '(r, cr') => cr_ok B cr' /\
    ((r = -1 /\ oom realloc_func /\ pts cr' = pts cr) \/ (r = 0 /\ pts cr' = pts cr1))).
Proof.
  intros Hok Hok1 HB1. unfold cr_copy. wp_step.
  eapply wp_mono; [apply cr_realloc_spec; [done|done|done|done]|].
  intros [r cr'] (Hok' & Hp & Hl & [[-> ?]|[-> Hn]]); simpl; [by split; [|left]|].
  pose proof (cr_ok_pts_zlen _ _ Hok1) as Hz1. destruct Hok1 as (?&?&?), Hok' as (?&?&?).
  wp_step. eapply wp_mono; [apply put_list_spec; [lia|unfold pts in Hz1; lia]|].
  cbv beta. unfold pts in Hz1. rewrite Hz1. intros b [Hbz Hrd]. wp_step.
  assert (zslice b 0 (cr_len cr1) = zslice (points cr1) 0 (cr_len cr1)) as Hsl.
  { apply zslice_ext; try lia. intros q Hq. rewrite Hrd. replace (_ && _) with true by lia.
    rewrite rd_zslice by lia. f_equal. lia. }
  unfold cr_ok, pts. simpl. split; [lia|]. by right.
Qed.

Lemma cr_union1_spec B1 cr b_pt b_len :
  cr_ok B1 cr -> 0 <= b_len <= zlen b_pt -> cr_len cr + b_len <= B ->
  sorted_pts (pts cr) -> sorted_pts (zslice b_pt 0 b_len) ->
  wp (cr_union1 realloc_func cr b_pt b_len) (fun '(r, cr') => cr_ok B cr' /\
    ((r = -1 /\ oom realloc_func) \/ (r = 0 /\ canonical_pts (pts cr') /\ cr_len cr' <= cr_len cr + b_len /\
      (forall c, in_pts (pts cr') c = in_pts (pts cr) c || in_pts (zslice b_pt 0 b_len) c) /\
      (forall P, Forall P (pts cr) -> Forall P (zslice b_pt 0 b_len) -> Forall P (pts cr'))))).
Proof.
  intros (?&?&?) Hb HBs Hs1 Hs2. unfold cr_union1.
  eapply wp_mono; [apply (cr_op_spec realloc_func B HB); try done; try lia; apply cr_init_ok; lia|].
  intros [r cr'] [Hok' [[-> ?]|(->&?&?&?&?)]]; (split; [done|]); [by left|right; split_and!; done].
Qed.

Lemma cr_invert_spec cr :
  cr_ok B cr -> cr_len cr + 2 <= B -> sorted_pts (pts cr) ->
  Forall (fun p => 0 <= p <= UINT32_MAX) (pts cr) ->
  wp (cr_invert realloc_func cr) (fun '(r, cr') => cr_ok B cr' /\
    ((r = -1 /\ oom realloc_func /\ pts cr' = pts cr) \/ (r = 0 /\ canonical_pts (pts cr') /\ cr_len cr' <= cr_len cr + 2 /\
      (forall c, 0 <= c < UINT32_MAX -> in_pts (pts cr') c = negb (in_pts (pts cr) c)) /\
      Forall (fun p => 0 <= p <= UINT32_MAX) (pts cr')))).
Proof.
  intros Hok Hn [Hs He] Hrange. pose proof (cr_ok_pts_zlen _ _ Hok) as Hz.
  destruct (Hok) as (?&?&?). unfold cr_invert, ckint. replace (_ && _) with true by lia. simpl. wp_step.
  eapply wp_mono; [apply cr_realloc_spec; [done|done|done|lia]|].
  intros [r cr1] (Hok1 & Hp & Hl & [[-> ?]|[-> Hsz]]); simpl; [by split; [|left]|].
  destruct (Hok1) as (?&?&?). wp_step. rewrite <- Hl. change (zslice (points cr1) 0 (cr_len cr1)) with (pts cr1).
  rewrite Hp, Hl. eapply wp_mono; [apply put_list_spec; lia|]. cbv beta. rewrite Hz. intros b [Hbz Hrd].
  repeat arr_step. set (b' := upd (upd b 0 0) (cr_len cr + 1) UINT32_MAX).
  set (cr2 := CharRange (cr_len cr + 2) (cr_size cr1) b').
  assert (pts cr2 = 0 :: pts cr ++ [UINT32_MAX]) as Hp2.
  { unfold pts at 1. simpl.
    apply list_ext; unfold b'; [rewrite zlen_zslice by (autorewrite with zlen; lia); rewrite zlen_cons, zlen_app, Hz; change (zlen [UINT32_MAX]) with 1; lia|].
    rewrite zlen_zslice by (autorewrite with zlen; lia). intros i Hi. rewrite rd_zslice, Z.add_0_l by lia.
    destruct (decide (i = cr_len cr + 1)) as [->|].
    { rewrite rd_upd_eq by (autorewrite with zlen; lia). rewrite rd_cons_pos by lia. symmetry. apply rd_mid. lia. }
    rewrite rd_upd_ne by lia. destruct (decide (i = 0)) as [->|]; [by rewrite rd_upd_eq by lia|].
    rewrite rd_upd_ne, Hrd by lia. replace (_ && _) with true by lia.
    rewrite rd_cons_pos, rd_app_l by lia. done. }
  assert (cr_ok B cr2) as Hok2 by (unfold cr_ok, cr2, b'; simpl; autorewrite with zlen; lia).
  eapply wp_mono; [apply (cr_compress_spec B); [done|]|].
  - rewrite Hp2. split.
    + constructor; [apply StronglySorted_snoc; [done|]|apply Forall_app; split; [|repeat constructor; unfold UINT32_MAX; lia]].
      all: eapply Forall_impl; [exact Hrange|simpl; lia].
    + rewrite zlen_cons, zlen_app, Hz. change (zlen [UINT32_MAX]) with 1.
      rewrite <- Z.add_assoc, Z.even_add. rewrite Hz in He. by rewrite He.
  - cbv beta. rewrite Hp2. intros cr3 (? & ? & Hl3 & Hin & HP). wp_step. split; [done|]. right.
    split_and!; try done.
    + intros c Hc. rewrite Hin. simpl. rewrite in_pts_snoc. replace (0 <=? c) with true by lia.
      replace (UINT32_MAX <=? c) with false by lia. by rewrite xorb_false_r, xorb_true_l.
    + apply HP. constructor; [unfold UINT32_MAX; lia|]. apply Forall_app. split; [done|].
      repeat constructor; unfold UINT32_MAX; lia.
Qed.
End derived.

(** ** [cr_sort_and_remove_overlap] *)

Definition in_ivs (s : list (Z * Z)) (c : Z) : bool :=
  existsb (fun '(a, b) => (a <=? c) && (c <? b)) s.

#[export] Instance point_cmp_laws : CmpLaws point_cmp.
Proof.
  split; unfold point_cmp; [intros [x ex] [y ey]|intros [x ex] [y ey] [z ez]]; simpl.
  - destruct (x >? y) eqn:?, (x <? y) eqn:?, (y >? x) eqn:?, (y <? x) eqn:?; zbool; simpl; lia.
  - destruct (x >? y) eqn:?, (x <? y) eqn:?, (y >? z) eqn:?, (y <? z) eqn:?, (x >? z) eqn:?, (x <? z) eqn:?;
      zbool; simpl; lia.
Qed.

Lemma point_cmp_le p q : point_cmp p q <= 0 -> p.1 <= q.1.
Proof. unfold point_cmp. destruct (p.1 >? q.1) eqn:?, (p.1 <? q.1) eqn:?; zbool; simpl; lia. Qed.

Lemma in_ivs_app s s' c : in_ivs (s ++ s') c = in_ivs s c || in_ivs s' c.
Proof. apply existsb_app. Qed.

Lemma in_ivs_perm s s' c : s ≡ₚ s' -> in_ivs s c = in_ivs s' c.
Proof.
  intros Hp. unfold in_ivs. apply eq_true_iff_eq. rewrite !existsb_exists.
  split; intros (x & Hx & ?); exists x; (split; [|done]); rewrite <- list_elem_of_In in *;
    by rewrite Hp in * || rewrite <- Hp in *.
Qed.

Lemma zlen_bounds s : zlen (bounds s) = 2 * zlen s.
Proof. induction s as [|[a b] s IH]; [done|]. cbn [bounds]. rewrite !zlen_cons, IH. lia. Qed.

Lemma rd_bounds s m : 0 <= m ->
  rd (bounds s) (2 * m) = fst <$> rd s m /\ rd (bounds s) (2 * m + 1) = snd <$> rd s m.
Proof.
  revert m. induction s as [|[a b] s IH]; intros m Hm.
  - by rewrite !rd_lookup by lia.
  - cbn [bounds]. destruct (decide (m = 0)) as [->|]; [done|].
    rewrite !(rd_cons_pos _ _ (2 * m)), !(rd_cons_pos _ _ (2 * m + 1)), (rd_cons_pos _ _ m) by lia.
    rewrite !(rd_cons_pos _ _ (2 * m - 1)), !(rd_cons_pos _ _ (2 * m + 1 - 1)) by lia.
    destruct (IH (m - 1) ltac:(lia)) as [<- <-]. split; f_equal; lia.
Qed.

Lemma bounds_intervals l : Z.even (zlen l) = true -> bounds (intervals l) = l.
Proof.
  induction l as [l IH] using (induction_ltof1 _ length). intros He.
  destruct l as [|a [|b l]]; [done|done|]. cbn [intervals bounds]. rewrite (IH l); [done|unfold ltof; simpl; lia|].
  rewrite !zlen_cons, <- Z.add_assoc, Z.even_add in He. by destruct (Z.even (zlen l)).
Qed.

Section overlap.
Context (s : list (Z * Z)) (rest : list Z) (Hs : sorted_in point_cmp s 0 (zlen s))
  (Hle : Forall (fun p => p.1 <= p.2) s).
Let pts0 := bounds s ++ rest.
Let len := 2 * zlen s.

Lemma rd_pts0 m p : rd s m = Some p -> rd pts0 (2 * m) = Some p.1 /\ rd pts0 (2 * m + 1) = Some p.2.
Proof.
  intros Hp. pose proof (rd_Some_range _ _ _ Hp). pose proof (zlen_bounds s).
  unfold pts0. rewrite !rd_app_l by lia. destruct (rd_bounds s m ltac:(lia)) as [-> ->]. by rewrite Hp.
Qed.

Lemma starts_sorted m m' p p' : m <= m' -> rd s m = Some p -> rd s m' = Some p' -> p.1 <= p'.1.
Proof.
  intros Hm Hp Hp'. pose proof (rd_Some_range _ _ _ Hp). pose proof (rd_Some_range _ _ _ Hp').
  destruct (decide (m = m')) as [->|]; [simplify_eq; lia|]. apply point_cmp_le, (Hs m m'); (done || lia).
Qed.

Definition in_iv (start end_ c : Z) : bool := (start <=? c) && (c <? end_).

Lemma absorb_spec fuel pts m p :
  zlen pts = zlen pts0 -> (forall q, 2 * m + 2 <= q < len -> rd pts q = rd pts0 q) ->
  rd s m = Some p -> len <= Z.of_nat fuel ->
  wp (loop fuel (absorb_body pts len) (2 * m + 2, p.2)) (fun '(i, end_) =>
    exists m', i = 2 * m' /\ m < m' <= zlen s /\ p.2 <= end_ /\
      (forall p', rd s m' = Some p' -> end_ < p'.1) /\
      forall c, in_ivs (zslice s 0 m') c = in_ivs (zslice s 0 m) c || in_iv p.1 end_ c).
Proof.
  intros Hz Hpts Hp Hf. pose proof (rd_Some_range _ _ _ Hp) as Hm.
  apply (wp_loop (fun '(i, end_) => exists m', i = 2 * m' /\ m < m' <= zlen s /\ p.2 <= end_ /\
      forall c, in_ivs (zslice s 0 m') c = in_ivs (zslice s 0 m) c || in_iv p.1 end_ c)
    (fun '(i, _) => Z.to_nat (len - i))).
  - exists (m + 1). split_and!; try lia. intros c. rewrite (zslice_snoc _ _ _ p) by (done || lia).
    rewrite in_ivs_app. destruct p. simpl. by rewrite orb_false_r.
  - unfold len. lia.
  - intros [i end_] (m' & -> & Hm' & Hend & Hin). unfold absorb_body, len.
    pose proof (zlen_bounds s). assert (zlen pts0 = 2 * zlen s + zlen rest) by (unfold pts0; rewrite zlen_app; lia).
    pose proof (zlen_nonneg rest). wp_step.
    + destruct (rd_is_Some s m' ltac:(lia)) as [[s1 e1] Hp']. destruct (rd_pts0 _ _ Hp') as [Hr1 Hr2].
      rewrite !Hpts by (unfold len; lia). rewrite Hr1, Hr2. simpl.
      assert (forall c, in_ivs (zslice s 0 (m' + 1)) c = in_ivs (zslice s 0 m) c || (in_iv p.1 end_ c || in_iv s1 e1 c)) as Hin'.
      { intros c. rewrite (zslice_snoc _ _ _ (s1, e1)) by (done || lia). rewrite in_ivs_app, Hin.
        simpl. by rewrite orb_false_r, orb_assoc. }
      pose proof (starts_sorted m m' _ _ ltac:(lia) Hp Hp') as Hst. simpl in Hst.
      repeat wp_step.
      * exists m'. split_and!; try done; try lia. intros p' Hp2. simplify_eq. simpl. lia.
      * split; [|lia]. exists (m' + 1). split_and!; try lia. intros c. rewrite Hin'. f_equal.
        unfold in_iv. destruct (p.1 <=? c) eqn:?, (c <? end_) eqn:?, (s1 <=? c) eqn:?, (c <? e1) eqn:?; zbool; simpl; try done; lia.
      * split; [|lia]. exists (m' + 1). split_and!; try lia. intros c. rewrite Hin'. f_equal.
        unfold in_iv. destruct (p.1 <=? c) eqn:?, (c <? end_) eqn:?, (s1 <=? c) eqn:?, (c <? e1) eqn:?; zbool; simpl; try done; lia.
    + wp_step. exists m'. split_and!; try done; try lia. intros p' Hp'.
      pose proof (rd_Some_range _ _ _ Hp'). lia.
Qed.

Definition overlap_inv (st : list Z * Z * Z) : Prop :=
  let '(pts, i, j) := st in exists m, i = 2 * m /\ 0 <= m <= zlen s /\
    zlen pts = zlen pts0 /\ 0 <= j <= i /\ Z.even j = true /\
    (forall q, i <= q < len -> rd pts q = rd pts0 q) /\
    StronglySorted Z.le (zslice pts 0 j) /\
    (forall p, rd s m = Some p -> Forall (fun x => x < p.1) (zslice pts 0 j)) /\
    (forall c, in_pts (zslice pts 0 j) c = in_ivs (zslice s 0 m) c).

Lemma in_pts_then_interval l start end_ c :
  Z.even (zlen l) = true -> Forall (fun x => x < start) l -> start <= end_ ->
  in_pts (l ++ [start; end_]) c = in_pts l c || in_iv start end_ c.
Proof.
  intros He Hl Hse. rewrite in_pts_app. simpl. unfold in_iv.
  destruct (start <=? c) eqn:Hc; zbool.
  - rewrite (in_pts_above l) by (eapply Forall_impl; [exact Hl|simpl; lia]).
    rewrite <- Z.negb_even, He. simpl. destruct (end_ <=? c) eqn:?, (c <? end_) eqn:?; zbool; simpl; (done || lia).
  - replace (end_ <=? c) with false by lia. simpl. by rewrite xorb_false_r, orb_false_r.
Qed.

Lemma overlap_spec :
  wp (loop (Z.to_nat len + 1) (overlap_body len) (pts0, 0, 0)) (fun '(pts, j) =>
    zlen pts = zlen pts0 /\ 0 <= j <= len /\ sorted_pts (zslice pts 0 j) /\
    (forall c, in_pts (zslice pts 0 j) c = in_ivs s c)).
Proof.
  assert (zlen pts0 = len + zlen rest) as Hz0 by (unfold pts0, len; rewrite zlen_app, zlen_bounds; lia).
  pose proof (zlen_nonneg rest) as Hrest.
  apply (wp_loop overlap_inv (fun '(_, i, _) => Z.to_nat (len - i))).
  - exists 0. rewrite !zslice_nil. split_and!; try done; try lia; try constructor. unfold zlen; lia.
  - lia.
  - intros [[ps i] j] (m & -> & Hm & Hz & Hj & Hej & Hpts & Hst & Hlt & Hin). unfold overlap_body. wp_step.
    + assert (m < zlen s) as Hms by (unfold len in *; lia).
      destruct (rd_is_Some s m ltac:(lia)) as [p Hp]. destruct (rd_pts0 _ _ Hp) as [Hr1 Hr2].
      assert (p.1 <= p.2) as Hpp.
      { rewrite rd_lookup in Hp by lia. by eapply (Forall_lookup_1 _ _ _ _ Hle). }
      rewrite !Hpts by (unfold len in *; lia). rewrite Hr1, Hr2. simpl. wp_step.
      eapply wp_mono; [apply (absorb_spec _ ps m p); try done; [intros; apply Hpts|]; lia|].
      intros [i' end_] (m' & -> & Hm' & Hend & Hgap & Hin'). unfold len in *. repeat arr_step. split; [|lia].
      assert (zslice (upd (upd ps j p.1) (j + 1) end_) 0 (j + 2) = zslice ps 0 j ++ [p.1; end_]) as Hout.
      { rewrite (zslice_step2 _ _ p.1 end_); [|lia| |].
        - f_equal. apply zslice_ext; autorewrite with zlen; try lia. intros q ?. by rewrite !rd_upd_ne by lia.
        - rewrite rd_upd_ne by lia. apply rd_upd_eq. lia.
        - apply rd_upd_eq. autorewrite with zlen. lia. }
      exists m'. rewrite Hout. autorewrite with zlen. specialize (Hlt p Hp).
      split_and!; try lia; try (rewrite Z.even_add; by rewrite Hej).
      * intros q Hq. rewrite !rd_upd_ne by lia. apply Hpts. unfold len. lia.
      * change [p.1; end_] with ([p.1] ++ [end_]). rewrite app_assoc.
        apply StronglySorted_snoc; [apply StronglySorted_snoc; [done|]|apply Forall_app; split; [|repeat constructor; lia]].
        all: eapply Forall_impl; [exact Hlt|simpl; lia].
      * intros p' Hp'. specialize (Hgap p' Hp'). apply Forall_app. split; [|repeat constructor; lia].
        eapply Forall_impl; [exact Hlt|]. simpl. lia.
      * intros c. rewrite in_pts_then_interval; [|by rewrite zlen_zslice, Z.sub_0_r by lia|done|lia].
        by rewrite Hin, Hin'.
    + wp_step. assert (m = zlen s) as -> by (unfold len in *; lia). rewrite zslice_full in Hin.
      split_and!; try done; try lia. unfold sorted_pts. by rewrite zlen_zslice, Z.sub_0_r by lia.
Qed.
End overlap.

Lemma cr_sort_and_remove_overlap_spec B cr :
  cr_ok B cr -> Z.even (cr_len cr) = true -> Forall (fun p => p.1 <= p.2) (intervals (pts cr)) ->
  wp (cr_sort_and_remove_overlap cr) (fun cr' => cr_ok B cr' /\ sorted_pts (pts cr') /\ cr_len cr' <= cr_len cr /\
    forall c, in_pts (pts cr') c = in_ivs (intervals (pts cr)) c).
Proof.
  intros (Hz & Hl & Hsz) He Hle. unfold cr_sort_and_remove_overlap.
  apply Z.even_spec in He as [n Hn]. rewrite Z.quot_div_nonneg by lia.
  replace (cr_len cr / 2) with n by (rewrite Hn, Z.mul_comm, Z.div_mul; lia). rewrite <- Hn.
  change (zslice (points cr) 0 (cr_len cr)) with (pts cr). set (ivs := intervals (pts cr)) in *.
  assert (zlen (pts cr) = cr_len cr) as Hpz by (unfold pts; rewrite zlen_zslice; lia).
  assert (bounds ivs = pts cr) as Hb by (apply bounds_intervals; rewrite Hpz, Hn, Z.even_mul; done).
  assert (zlen ivs = n) as Hiv by (pose proof (zlen_bounds ivs) as Hzb; rewrite Hb in Hzb; lia).
  wp_step. eapply wp_mono; [apply rqsort_spec; lia|]. cbv beta. intros s (Hp & Hsrt).
  specialize (Hsrt _). pose proof (perm_in_zlen _ _ _ _ Hp) as Hzs. apply perm_in_perm in Hp.
  assert (n = zlen s) as Hns by lia. rewrite Hns in Hn, Hsrt. rewrite Hn. wp_step. set (rest := zslice (points cr) (2 * zlen s) _).
  eapply wp_mono; [apply (overlap_spec s rest)|]; [done|by rewrite <- Hp|].
  intros [ps j] (Hzp & Hj & Hso & Hin). wp_step.
  assert (zlen ps = zlen (points cr)).
  { rewrite Hzp, zlen_app, zlen_bounds. unfold rest. rewrite zlen_zslice by lia. lia. }
  unfold cr_ok. simpl. split_and!; try lia; try done.
  intros c. etransitivity; [apply Hin|]. by apply in_ivs_perm.
Qed.

(** ** Properties

    The set of a point list, read as the comment in libunicode.h has it: the
    union of its half-open intervals. *)

Definition set_of (l : list Z) (c : Z) : bool := in_ivs (intervals l) c.

Lemma set_of_in_pts l c : sorted_pts l -> set_of l c = in_pts l c.
Proof.
  unfold set_of. induction l as [l IH] using (induction_ltof1 _ length). intros [Hs He].
  destruct l as [|a [|b l]]; [done|done|]. cbn [intervals in_pts].
  apply StronglySorted_inv in Hs as [Hs Ha]. apply StronglySorted_inv in Hs as [Hs Hb].
  apply Forall_cons in Ha as [Hab Ha].
  assert (Z.even (zlen l) = true) as He'.
  { rewrite !zlen_cons, <- Z.add_assoc, Z.even_add in He. by destruct (Z.even (zlen l)). }
  assert (in_ivs (intervals l) c = in_pts l c) as Hl by (apply IH; [unfold ltof; simpl; lia|done]).
  cbn [in_ivs existsb]. change (existsb _ (intervals l)) with (in_ivs (intervals l) c). rewrite Hl.
  destruct (c <? b) eqn:Hcb; zbool.
  - rewrite (in_pts_below l) by (eapply Forall_impl; [exact Hb|simpl; lia]).
    replace (b <=? c) with false by lia. by destruct (a <=? c).
  - replace (b <=? c) with true by lia. replace (a <=? c) with true by lia. by destruct (in_pts l c).
Qed.

Lemma canonical_sorted l : canonical_pts l -> sorted_pts l.
Proof.
  intros [Hs He]. split; [|done]. clear He. induction Hs as [|x l _ IH Hx]; constructor; [done|].
  eapply Forall_impl; [exact Hx|]. simpl. lia.
Qed.

(** The operations on whole ranges, with the sets they denote. *)
Section sets.
Context (realloc_func : realloc_t) `{!ReallocLaws realloc_func} (B : Z) (HB : B <= 2 ^ 29).
Implicit Types cr a b : charrange.

Lemma cr_op_sets cr a b op Ba Bb :
  cr_ok B cr -> cr_len cr = 0 -> cr_ok Ba a -> cr_ok Bb b -> cr_len a + cr_len b <= B ->
  sorted_pts (pts a) -> sorted_pts (pts b) ->
  wp (cr_op realloc_func cr (points a) (cr_len a) (points b) (cr_len b) op) (fun '(r, cr') => cr_ok B cr' /\
    ((r = -1 /\ oom realloc_func) \/ (r = 0 /\ canonical_pts (pts cr') /\ cr_len cr' <= cr_len a + cr_len b /\
      (forall c, set_of (pts cr') c = op_bool op (set_of (pts a) c) (set_of (pts b) c)) /\
      (forall P, Forall P (pts a) -> Forall P (pts b) -> Forall P (pts cr'))))).
Proof.
  intros Hok Hl (?&?&_) (?&?&_) HBab Ha Hb.
  eapply wp_mono; [apply (cr_op_spec realloc_func B HB (points a) (cr_len a) (points b) (cr_len b)); (done || lia)|].
  intros [r cr'] [Hok' [?|(-> & Hcan & ? & Hin & ?)]]; (split; [done|]); [by left|right]. split_and!; try done.
  intros c. rewrite !set_of_in_pts by (done || by apply canonical_sorted). apply Hin.
Qed.

Lemma cr_invert_sets cr :
  cr_ok B cr -> cr_len cr + 2 <= B -> sorted_pts (pts cr) -> Forall (fun p => 0 <= p <= UINT32_MAX) (pts cr) ->
  wp (cr_invert realloc_func cr) (fun '(r, cr') => cr_ok B cr' /\
    ((r = -1 /\ oom realloc_func /\ pts cr' = pts cr) \/
     (r = 0 /\ canonical_pts (pts cr') /\ cr_len cr' <= cr_len cr + 2 /\
      (forall c, 0 <= c < UINT32_MAX -> set_of (pts cr') c = negb (set_of (pts cr) c)) /\
      Forall (fun p => 0 <= p <= UINT32_MAX) (pts cr')))).
Proof.
  intros Hok Hl Hs Hr. eapply wp_mono; [by apply (cr_invert_spec realloc_func B HB)|].
  intros [r cr'] [Hok' [?|(-> & Hcan & ? & Hin & ?)]]; (split; [done|]); [by left|right]. split_and!; try done.
  intros c Hc. rewrite !set_of_in_pts by (done || by apply canonical_sorted). by apply Hin.
Qed.

Lemma cr_sort_and_remove_overlap_sets cr :
  cr_ok B cr -> Z.even (cr_len cr) = true -> Forall (fun p => p.1 <= p.2) (intervals (pts cr)) ->
  wp (cr_sort_and_remove_overlap cr) (fun cr' => cr_ok B cr' /\ sorted_pts (pts cr') /\ cr_len cr' <= cr_len cr /\
    forall c, set_of (pts cr') c = set_of (pts cr) c).
Proof.
  intros Hok He Hle. eapply wp_mono; [by apply cr_sort_and_remove_overlap_spec|]. cbv beta.
  intros cr' (? & ? & ? & Hin). split_and!; try done. intros c. rewrite set_of_in_pts by done. apply Hin.
Qed.
End sets.

(** C22. [cr_op] computes the union, intersection or symmetric difference of
    two sets given by their sorted points, in canonical form (no empty and no
    adjacent intervals); it fails only when an allocation is refused, and every
    array access is in bounds. *)
Theorem cr_op_set (realloc_func : realloc_t) `{!ReallocLaws realloc_func}
    (cr : charrange) (a_pt : list Z) a_len (b_pt : list Z) b_len op B :
  cr_ok B cr -> cr_len cr = 0 -> a_len + b_len <= B -> B <= 2 ^ 29 ->
  0 <= a_len <= zlen a_pt -> 0 <= b_len <= zlen b_pt ->
  sorted_pts (zslice a_pt 0 a_len) -> sorted_pts (zslice b_pt 0 b_len) ->
  exists r cr', cr_op realloc_func cr a_pt a_len b_pt b_len op = Some (r, cr') /\ cr_ok B cr' /\
    ((r = -1 /\ oom realloc_func) \/
     (r = 0 /\ canonical_pts (pts cr') /\
      forall c, set_of (pts cr') c =
        op_bool op (set_of (zslice a_pt 0 a_len) c) (set_of (zslice b_pt 0 b_len) c))).
Proof.
  intros Hok Hl HB1 HB Ha Hb Hsa Hsb.
  pose proof (cr_op_spec realloc_func B HB a_pt a_len b_pt b_len op Ha Hb HB1 Hsa Hsb cr Hok Hl) as Hwp.
  apply wp_exists in Hwp as ([r cr'] & -> & Hok' & Hr). exists r, cr'. split_and!; [done|done|].
  destruct Hr as [?|(-> & Hcan & _ & Hin & _)]; [by left|right]. split_and!; [done|done|].
  intros c. rewrite !set_of_in_pts by (done || by apply canonical_sorted). apply Hin.
Qed.

(** [cr_invert] complements the set inside [0, UINT32_MAX), in canonical
    form. *)
Theorem cr_invert_complement (realloc_func : realloc_t) `{!ReallocLaws realloc_func} (cr : charrange) B :
  cr_ok B cr -> cr_len cr + 2 <= B -> B <= 2 ^ 29 -> sorted_pts (pts cr) ->
  Forall (fun p => 0 <= p <= UINT32_MAX) (pts cr) ->
  exists r cr', cr_invert realloc_func cr = Some (r, cr') /\ cr_ok B cr' /\
    ((r = -1 /\ oom realloc_func /\ pts cr' = pts cr) \/
     (r = 0 /\ canonical_pts (pts cr') /\
      forall c, 0 <= c < UINT32_MAX -> set_of (pts cr') c = negb (set_of (pts cr) c))).
Proof.
  intros Hok Hl HB Hs Hr. pose proof (cr_invert_sets realloc_func B HB cr Hok Hl Hs Hr) as Hwp.
  apply wp_exists in Hwp as ([r cr'] & -> & Hok' & Hres). exists r, cr'. split_and!; [done|done|].
  destruct Hres as [?|(-> & ? & _ & ? & _)]; [by left|by right].
Qed.

(** [cr_sort_and_remove_overlap] turns any array of intervals, in any
    order and overlapping at will, into sorted points of their union. *)
Theorem cr_sort_and_remove_overlap_union (cr : charrange) B :
  cr_ok B cr -> Z.even (cr_len cr) = true -> Forall (fun p => p.1 <= p.2) (intervals (pts cr)) ->
  exists cr', cr_sort_and_remove_overlap cr = Some cr' /\ cr_ok B cr' /\ sorted_pts (pts cr') /\
    forall c, set_of (pts cr') c = set_of (pts cr) c.
Proof.
  intros Hok He Hle. pose proof (cr_sort_and_remove_overlap_sets B cr Hok He Hle) as Hwp.
  apply wp_exists in Hwp as (cr' & -> & ? & ? & _ & Hin). by exists cr'.
Qed.

(**  [cr_union_interval] adds the closed interval from [c1] to [c2] to a
    set. *)
Theorem cr_union_interval_set (realloc_func : realloc_t) `{!ReallocLaws realloc_func} (cr : charrange) B c1 c2 :
  cr_ok B cr -> cr_len cr + 2 <= B -> B <= 2 ^ 29 -> sorted_pts (pts cr) -> 0 <= c1 <= c2 -> c2 < UINT32_MAX ->
  exists r cr', cr_union_interval realloc_func cr c1 c2 = Some (r, cr') /\ cr_ok B cr' /\
    ((r = -1 /\ oom realloc_func) \/
     (r = 0 /\ canonical_pts (pts cr') /\
      forall c, set_of (pts cr') c = set_of (pts cr) c || ((c1 <=? c) && (c <=? c2)))).
Proof.
  intros Hok Hl HB Hs Hc Hmax. unfold UINT32_MAX in Hmax. unfold cr_union_interval.
  rewrite uwrap_id by (unfold in_u; lia).
  assert (sorted_pts [c1; c2 + 1]) as Hs2 by (split; [repeat constructor; lia|done]).
  pose proof (cr_union1_spec realloc_func B HB B cr [c1; c2 + 1] 2 Hok ltac:(done) ltac:(lia) Hs Hs2) as Hwp.
  apply wp_exists in Hwp as ([r cr'] & -> & Hok' & Hr). exists r, cr'. split_and!; [done|done|].
  destruct Hr as [?|(-> & Hcan & _ & Hin & _)]; [by left|right]. split_and!; [done|done|].
  intros c. rewrite !set_of_in_pts by (done || by apply canonical_sorted). rewrite Hin. f_equal.
  simpl. rewrite xorb_false_r.
  destruct (c1 <=? c) eqn:?, (c2 + 1 <=? c) eqn:?, (c <=? c2) eqn:?; zbool; simpl; (done || lia).
Qed.

(** Witnesses. *)
Definition digits : charrange := CharRange 2 3 [48; 58; 0].

Lemma digits_ok : cr_ok 8 digits.
Proof. unfold cr_ok; simpl. change (zlen _) with 3. lia. Qed.

Lemma digits_sorted : sorted_pts (pts digits).
Proof. split; [repeat constructor; lia|done]. Qed.

Lemma cr_op_set_witness :
  exists r cr', cr_op realloc64 cr_init [48; 58] 2 [50; 60; 70; 80] 4 CR_OP_XOR = Some (r, cr') /\ cr_ok 8 cr' /\
    ((r = -1 /\ oom realloc64) \/
     (r = 0 /\ canonical_pts (pts cr') /\
      forall c, set_of (pts cr') c = xorb (set_of [48; 58] c) (set_of [50; 60; 70; 80] c))).
Proof.
  apply (cr_op_set realloc64 cr_init [48; 58] 2 [50; 60; 70; 80] 4 CR_OP_XOR 8); try done;
    (split; [repeat constructor; lia|done]).
Defined.

Lemma cr_invert_complement_witness :
  exists r cr', cr_invert realloc64 digits = Some (r, cr') /\ cr_ok 8 cr' /\
    ((r = -1 /\ oom realloc64 /\ pts cr' = pts digits) \/
     (r = 0 /\ canonical_pts (pts cr') /\
      forall c, 0 <= c < UINT32_MAX -> set_of (pts cr') c = negb (set_of [48; 58] c))).
Proof.
  apply (cr_invert_complement realloc64 digits 8); [apply digits_ok|done|done|apply digits_sorted|].
  repeat constructor; unfold UINT32_MAX; lia.
Defined.

Definition overlapping : charrange := CharRange 6 6 [70; 90; 10; 20; 15; 30].

Lemma cr_sort_and_remove_overlap_witness :
  exists cr', cr_sort_and_remove_overlap overlapping = Some cr' /\ cr_ok 8 cr' /\ sorted_pts (pts cr') /\
    forall c, set_of (pts cr') c = set_of [70; 90; 10; 20; 15; 30] c.
Proof.
  apply (cr_sort_and_remove_overlap_union overlapping 8); [|done|repeat constructor; simpl; lia].
  unfold cr_ok; simpl. change (zlen _) with 6. lia.
Defined.

Lemma cr_union_interval_witness :
  exists r cr', cr_union_interval realloc64 digits 65 90 = Some (r, cr') /\ cr_ok 8 cr' /\
    ((r = -1 /\ oom realloc64) \/
     (r = 0 /\ canonical_pts (pts cr') /\
      forall c, set_of (pts cr') c = set_of [48; 58] c || ((65 <=? c) && (c <=? 90)))).
Proof.
  apply (cr_union_interval_set realloc64 digits 8 65 90);
    [apply digits_ok|done|done|apply digits_sorted|lia|done].
Defined.
