(* ===== verification/RunTable.v ===== *)
(** * Tables of runs of code points and their binary search

    Several tables of libunicode.c are arrays of words that each describe a
    run of consecutive code points; every user of such a table contains the
    same binary search for the run of a code point.  This file relates that
    search to a linear scan. *)

From S2P Require Import Prelude CArray.
Open Scope Z_scope.

Section run_table.
Context (table : list Z) (code len : Z -> Z).

Definition run_last (v : Z) : Z := code v + len v.
Definition run_has (c v : Z) : bool := (code v <=? c) && (c <? run_last v).

(** Runs in order, disjoint, below [max]. *)
Fixpoint table_sorted (max : Z) (l : list Z) : bool :=
  match l with
  | [] => true
  | v :: l => (0 <=? code v) && (0 <=? len v) && (run_last v <? max)
              && forallb (fun w => run_last v <=? code w) l && table_sorted max l
  end.

Lemma table_sorted_rd max l i j v w :
  table_sorted max l = true -> i < j -> rd l i = Some v -> rd l j = Some w -> run_last v <= code w.
Proof.
  revert i j. induction l as [|x l IH]; intros i j Hs Hij Hv Hw;
    pose proof (rd_Some_range _ _ _ Hv) as Hi; [change (zlen []) with 0 in Hi; lia|].
  cbn [table_sorted] in Hs. zbool. rewrite (rd_cons_pos _ _ j) in Hw by lia.
  destruct (decide (i = 0)) as [->|].
  - rewrite rd_cons_0 in Hv. simplify_eq. pose proof (rd_Some_range _ _ _ Hw).
    rewrite rd_lookup in Hw by lia. apply list_elem_of_lookup_2, list_elem_of_In in Hw.
    match goal with H : forallb _ _ = true |- _ => pose proof (proj1 (forallb_forall _ _) H _ Hw) end.
    cbv beta in *. zbool. done.
  - rewrite rd_cons_pos in Hv by lia. by apply (IH (i - 1) (j - 1)); [|lia|..].
Qed.

Lemma table_sorted_range max l i v :
  table_sorted max l = true -> rd l i = Some v -> 0 <= code v <= run_last v /\ run_last v < max.
Proof.
  revert i. induction l as [|x l IH]; intros i Hs Hv;
    pose proof (rd_Some_range _ _ _ Hv) as Hi; [change (zlen []) with 0 in Hi; lia|].
  cbn [table_sorted] in Hs. zbool. destruct (decide (i = 0)) as [->|].
  - rewrite rd_cons_0 in Hv. simplify_eq. unfold run_last in *. lia.
  - rewrite rd_cons_pos in Hv by lia. by apply (IH (i - 1)).
Qed.

(** What a search for [c] may return. *)
Definition run_result (c : Z) (r : option (Z * Z)) : Prop :=
  match r with
  | Some (idx, v) => rd table idx = Some v /\ code v <= c < run_last v
  | None => forall idx v, rd table idx = Some v -> ~ code v <= c < run_last v
  end.

Lemma run_result_unique max c r r' :
  table_sorted max table = true -> run_result c r -> run_result c r' -> r = r'.
Proof.
  intros Hs. destruct r as [[i v]|], r' as [[j w]|]; simpl; try done.
  - intros [Hv Hc] [Hw Hc']. assert (i = j) as ->; [|congruence].
    destruct (decide (i < j)).
    { pose proof (table_sorted_rd _ _ i j v w Hs ltac:(lia) Hv Hw). unfold run_last in *. lia. }
    destruct (decide (j < i)); [|lia].
    pose proof (table_sorted_rd _ _ j i w v Hs ltac:(lia) Hw Hv). unfold run_last in *. lia.
  - intros [Hv Hc] Hn. by destruct (Hn i v).
  - intros Hn [Hv Hc]. by destruct (Hn j w).
Qed.

(** Reference: the linear scan. *)
Definition index_runs : list (Z * Z) := zip (seqZ 0 (zlen table)) table.

Definition find_run (c : Z) : option (Z * Z) := head (filter (fun e => run_has c e.2 = true) index_runs).

Lemma index_runs_elem idx v : (idx, v) ∈ index_runs <-> rd table idx = Some v.
Proof.
  unfold index_runs. rewrite list_elem_of_lookup. split.
  - intros [k Hk]. rewrite lookup_zip_with in Hk.
    destruct (seqZ 0 _ !! k) as [i|] eqn:Hi; [|done]. simpl in Hk.
    destruct (table !! k) as [w|] eqn:Hw; [|done]. simpl in Hk. simplify_eq.
    apply lookup_seqZ in Hi as [-> Hi]. rewrite rd_lookup by lia.
    by replace (Z.to_nat (0 + Z.of_nat k)) with k by lia.
  - intros Hv. pose proof (rd_Some_range _ _ _ Hv) as Hr. rewrite rd_lookup in Hv by lia.
    exists (Z.to_nat idx). rewrite lookup_zip_with, lookup_seqZ_lt by lia. simpl. rewrite Hv. simpl.
    do 2 f_equal. lia.
Qed.

Lemma find_run_spec c : run_result c (find_run c).
Proof.
  unfold find_run. destruct (filter _ index_runs) as [|[idx v] l] eqn:Hf; simpl.
  - intros idx v Hv Hc. apply (not_elem_of_nil (idx, v)). rewrite <- Hf. apply list_elem_of_filter.
    split; [|by apply index_runs_elem]. simpl. unfold run_has. lia.
  - assert ((idx, v) ∈ filter (fun e => run_has c e.2 = true) index_runs) as Hin by (rewrite Hf; left).
    apply list_elem_of_filter in Hin as [Hin Hel]. simpl in Hin. unfold run_has in Hin. zbool.
    split; [by apply index_runs_elem|lia].
Qed.

Lemma find_run_Some c idx v : find_run c = Some (idx, v) -> rd table idx = Some v /\ code v <= c < run_last v.
Proof. intros Hr. pose proof (find_run_spec c) as H. by rewrite Hr in H. Qed.

(** A loop that searches the run of [c] by bisection finds the same run. *)
Lemma bisect {R} max c (body : Z * Z -> option ((Z * Z) + R)) (found : Z -> Z -> option R) (none : R) :
  table_sorted max table = true -> zlen table < 2 ^ 30 ->
  (forall lo hi, lo > hi -> body (lo, hi) = Some (inr none)) ->
  (forall lo hi v, 0 <= lo <= hi -> hi < zlen table -> rd table ((hi + lo) / 2) = Some v ->
     body (lo, hi) = if c <? code v then Some (inl (lo, (hi + lo) / 2 - 1))
                     else if c >=? run_last v then Some (inl ((hi + lo) / 2 + 1, hi))
                     else r ← found ((hi + lo) / 2) v; Some (inr r)) ->
  loop (length table + 1) body (0, zlen table - 1) =
    match find_run c with Some (idx, v) => found idx v | None => Some none end.
Proof.
  intros Hs Hmax Hout Hin.
  assert (forall fuel lo hi, 0 <= lo <= hi + 1 -> hi < zlen table -> hi - lo + 1 < Z.of_nat fuel ->
    (forall i v, i < lo -> rd table i = Some v -> run_last v <= c) ->
    (forall i v, hi < i -> rd table i = Some v -> c < code v) ->
    loop fuel body (lo, hi) = match find_run c with Some (idx, v) => found idx v | None => Some none end) as Hloop.
  { induction fuel as [|fuel IH]; intros lo hi Hlo Hhi Hf Hbelow Habove; [lia|]. cbn [loop].
    destruct (decide (lo > hi)) as [|Hle].
    - rewrite Hout by done.
      assert (find_run c = None) as ->; [|done].
      apply (run_result_unique max c); [done|apply find_run_spec|]. intros i v Hv.
      destruct (decide (i < lo)); [pose proof (Hbelow i v ltac:(done) Hv)|pose proof (Habove i v ltac:(lia) Hv)]; lia.
    - assert (lo <= (hi + lo) / 2 <= hi) as Hidx
        by (pose proof (Z.mul_div_le (hi + lo) 2); pose proof (Z.mul_succ_div_gt (hi + lo) 2); lia).
      destruct (rd_is_Some table ((hi + lo) / 2) ltac:(lia)) as [v Hv]. rewrite (Hin lo hi v) by (done || lia).
      set (idx := (hi + lo) / 2) in *. clearbody idx.
      destruct (table_sorted_range _ _ _ _ Hs Hv) as [? ?]. destruct (c <? code v) eqn:Ec; [|destruct (c >=? run_last v) eqn:Ee]; zbool.
      + apply IH; try lia; [done|]. intros i w Hi Hw. destruct (decide (i = idx)) as [->|]; [simplify_eq; lia|].
        pose proof (table_sorted_rd _ _ idx i v w Hs ltac:(lia) Hv Hw). lia.
      + apply IH; try lia; [|done]. intros i w Hi Hw. destruct (decide (i = idx)) as [->|]; [simplify_eq; lia|].
        pose proof (table_sorted_rd _ _ i idx w v Hs ltac:(lia) Hw Hv). lia.
      + assert (find_run c = Some (idx, v)) as ->.
        { apply (run_result_unique max c); [done|apply find_run_spec|]. split; [done|lia]. }
        by destruct (found idx v). }
  apply Hloop; try lia; [pose proof (zlen_nonneg table); lia|unfold zlen; lia|..];
    intros i v Hi Hv; pose proof (rd_Some_range _ _ _ Hv); lia.
Qed.

(** A test of every code point of every run. *)
Definition forall_runs (f : Z -> Z -> Z -> bool) : bool :=
  forallb (fun '(idx, v) => forallb (fun k => f (code v + k) idx v) (seqZ 0 (len v))) index_runs.

Lemma forall_runs_rd f c idx v :
  forall_runs f = true -> rd table idx = Some v -> code v <= c < run_last v -> f c idx v = true.
Proof.
  intros Hall Hv Hc. unfold forall_runs in Hall. rewrite forallb_forall in Hall.
  apply index_runs_elem, list_elem_of_In, Hall in Hv. rewrite forallb_forall in Hv.
  specialize (Hv (c - code v)). replace (code v + (c - code v)) with c in Hv by lia.
  apply Hv. apply list_elem_of_In, elem_of_seqZ. unfold run_last in Hc. lia.
Qed.
End run_table.
