(* ===== verification/UnicodeTables.v ===== *)
(** * The compressed tables of libunicode-table.h

    The case conversion runs ([case_conv_table1], one 32-bit word per run:
    17 bits of first code point, 7 of length, 4 of type, 4 of data, extended by
    [case_conv_table2] and [case_conv_ext]) and the run-length coded property
    tables with their block indexes. *)

From S2P Require Import Prelude.
Open Scope Z_scope.

Definition case_conv_table1 : list Z := [
  0x209a30; 0x309a00; 0x5a8173; 0x601730; 0x6c0730; 0x6f81b3; 0x701700; 0x7c0700; 0x7f8100;
  0x803040; 0x9801c3; 0x988190; 0x990640; 0x9c9040; 0xa481b4; 0xa52e40; 0xbc0130; 0xbc8640;
  0xbf8170; 0xc00100; 0xc08130; 0xc10440; 0xc30130; 0xc38240; 0xc48230; 0xc58240; 0xc70130;
  0xc78130; 0xc80130; 0xc88240; 0xc98130; 0xca0130; 0xca8100; 0xcb0130; 0xcb8130; 0xcc0240;
  0xcd0100; 0xce0130; 0xce8130; 0xcf0100; 0xcf8130; 0xd00640; 0xd30130; 0xd38240; 0xd48130;
  0xd60240; 0xd70130; 0xd78240; 0xd88230; 0xd98440; 0xdb8130; 0xdc0240; 0xde0240; 0xdf8100;
  0xe20350; 0xe38350; 0xe50350; 0xe69040; 0xee8100; 0xef1240; 0xf801b4; 0xf88350; 0xfa0240;
  0xfb0130; 0xfb8130; 0xfc2840; 0x1100130; 0x1111240; 0x11d0131; 0x11d8240; 0x11e8130; 0x11f0131;
  0x11f8201; 0x1208240; 0x1218130; 0x1220130; 0x1228130; 0x1230a40; 0x1280101; 0x1288101;
  0x1290101; 0x1298100; 0x12a0100; 0x12b0200; 0x12c8100; 0x12d8100; 0x12e0101; 0x1300100;
  0x1308101; 0x1318100; 0x1328101; 0x1330101; 0x1340100; 0x1348100; 0x1350101; 0x1358101;
  0x1360101; 0x1378100; 0x1388101; 0x1390100; 0x13a8100; 0x13e8101; 0x1400100; 0x1410101;
  0x1418100; 0x1438101; 0x1440100; 0x1448100; 0x1450200; 0x1460100; 0x1490100; 0x14e8101;
  0x14f0101; 0x1a28173; 0x1b80440; 0x1bb0240; 0x1bd8300; 0x1bf8130; 0x1c30130; 0x1c40330;
  0x1c60130; 0x1c70230; 0x1c801d0; 0x1c89130; 0x1d18930; 0x1d60100; 0x1d68300; 0x1d801d3;
  0x1d89100; 0x1e10173; 0x1e18900; 0x1e60100; 0x1e68200; 0x1e78130; 0x1e80173; 0x1e88173;
  0x1ea8173; 0x1eb0173; 0x1eb8100; 0x1ec1840; 0x1f80173; 0x1f88173; 0x1f90100; 0x1f98100;
  0x1fa01a0; 0x1fa8173; 0x1fb8240; 0x1fc8130; 0x1fd0240; 0x1fe8330; 0x2001030; 0x2082030;
  0x2182000; 0x2281000; 0x2302240; 0x2453640; 0x2600130; 0x2608e40; 0x2678100; 0x2686040;
  0x298a630; 0x2b0a600; 0x2c381b5; 0x8502631; 0x8638131; 0x8668131; 0x8682b00; 0x87e8300;
  0x9d05011; 0x9f80610; 0x9fc0620; 0xe400174; 0xe408174; 0xe410174; 0xe418174; 0xe420174;
  0xe428174; 0xe430174; 0xe438180; 0xe440180; 0xe482b30; 0xe5e8330; 0xebc8101; 0xebe8101;
  0xec70101; 0xf007e40; 0xf3f1840; 0xf4b01b5; 0xf4b81b6; 0xf4c01b6; 0xf4c81b6; 0xf4d01b7;
  0xf4d8180; 0xf4f0130; 0xf506040; 0xf800800; 0xf840830; 0xf880600; 0xf8c0630; 0xf900800;
  0xf940830; 0xf980800; 0xf9c0830; 0xfa00600; 0xfa40630; 0xfa801b0; 0xfa88100; 0xfa901d3;
  0xfa98100; 0xfaa01d3; 0xfaa8100; 0xfab01d3; 0xfab8100; 0xfac8130; 0xfad8130; 0xfae8130;
  0xfaf8130; 0xfb00800; 0xfb40830; 0xfb80200; 0xfb90400; 0xfbb0200; 0xfbc0201; 0xfbd0201;
  0xfbe0201; 0xfc008b7; 0xfc40867; 0xfc808b8; 0xfcc0868; 0xfd008b8; 0xfd40868; 0xfd80200;
  0xfd901b9; 0xfd981b1; 0xfda01b9; 0xfdb01b1; 0xfdb81d7; 0xfdc0230; 0xfdd0230; 0xfde0161;
  0xfdf0173; 0xfe101b9; 0xfe181b2; 0xfe201ba; 0xfe301b2; 0xfe381d8; 0xfe40430; 0xfe60162;
  0xfe80200; 0xfe901d0; 0xfe981d0; 0xfeb01b0; 0xfeb81d0; 0xfec0230; 0xfed0230; 0xff00201;
  0xff101d3; 0xff181d3; 0xff201ba; 0xff28101; 0xff301b0; 0xff381d3; 0xff40230; 0xff50230;
  0xff60131; 0xff901ba; 0xff981b2; 0xffa01bb; 0xffb01b2; 0xffb81d9; 0xffc0230; 0xffd0230;
  0xffe0162; 0x109301a0; 0x109501a0; 0x109581a0; 0x10990131; 0x10a70101; 0x10b01031; 0x10b81001;
  0x10c18240; 0x125b1a31; 0x12681a01; 0x16003031; 0x16183001; 0x16300240; 0x16310130; 0x16318130;
  0x16320130; 0x16328100; 0x16330100; 0x16338640; 0x16368130; 0x16370130; 0x16378130; 0x16380130;
  0x16390240; 0x163a8240; 0x163f0230; 0x16406440; 0x16758440; 0x16790240; 0x16802600; 0x16938100;
  0x16968100; 0x53202e40; 0x53401c40; 0x53910e40; 0x53993e40; 0x53bc8440; 0x53be8130; 0x53bf0a40;
  0x53c58240; 0x53c68130; 0x53c80440; 0x53ca0101; 0x53cb1440; 0x53d50130; 0x53d58130; 0x53d60130;
  0x53d68130; 0x53d70130; 0x53d80130; 0x53d88130; 0x53d90130; 0x53d98131; 0x53da1040; 0x53e20131;
  0x53e28130; 0x53e30130; 0x53e38440; 0x53e80240; 0x53eb0440; 0x53fa8240; 0x55a98101; 0x55b85020;
  0x7d8001b2; 0x7d8081b2; 0x7d8101b2; 0x7d8181da; 0x7d8201da; 0x7d8281b3; 0x7d8301b3; 0x7d8981bb;
  0x7d8a01bb; 0x7d8a81bb; 0x7d8b01bc; 0x7d8b81bb; 0x7f909a31; 0x7fa09a01; 0x82002831; 0x82142801;
  0x82582431; 0x826c2401; 0x82b80b31; 0x82be0f31; 0x82c60731; 0x82ca0231; 0x82cb8b01; 0x82d18f01;
  0x82d98701; 0x82dd8201; 0x86403331; 0x86603301; 0x8c502031; 0x8c602001; 0xb7202031; 0xb7302001;
  0xf4802231; 0xf4912201
].

Definition case_conv_table2 : list Z := [
  1; 0; 156; 6; 7; 77; 3; 4; 16; 0; 143; 11; 0; 0; 17; 0; 8; 0; 83; 74; 81; 0; 82; 0; 83; 0; 58;
  84; 85; 0; 87; 89; 63; 93; 92; 0; 70; 97; 99; 66; 100; 0; 102; 0; 104; 0; 106; 0; 108; 0; 110; 0;
  0; 64; 0; 0; 0; 0; 26; 0; 147; 0; 0; 32; 53; 0; 39; 0; 33; 0; 36; 34; 42; 0; 19; 107; 109; 0; 38;
  36; 39; 20; 22; 24; 27; 28; 62; 30; 63; 31; 57; 61; 34; 33; 65; 30; 64; 37; 37; 38; 40; 32; 42;
  72; 44; 67; 46; 75; 48; 76; 50; 68; 66; 153; 0; 0; 149; 143; 125; 126; 131; 132; 18; 128; 130;
  118; 119; 18; 123; 163; 124; 120; 121; 138; 146; 152; 166; 160; 133; 0; 154; 161; 147; 117; 51;
  149; 0; 142; 0; 116; 153; 152; 151; 150; 0; 0; 158; 0; 156; 0; 161; 160; 21; 46; 47; 48; 180;
  181; 79; 170; 169; 18; 20; 30; 33; 34; 34; 42; 52; 53; 166; 167; 54; 31; 73; 0; 0; 151; 1; 90;
  218; 29; 54; 5; 0; 196; 195; 198; 197; 200; 199; 202; 201; 204; 203; 196; 213; 69; 214; 66; 215;
  70; 216; 206; 208; 210; 212; 218; 217; 238; 246; 254; 14; 7; 15; 128; 159; 0; 33; 128; 163; 237;
  0; 192; 64; 198; 96; 231; 219; 230; 153; 192; 0; 0; 6; 96; 220; 41; 253; 21; 18; 6; 22; 248; 221;
  6; 21; 18; 132; 8; 198; 22; 255; 223; 3; 192; 64; 0; 70; 96; 222; 224; 109; 55; 56; 57; 21; 20;
  23; 22; 0; 26; 25; 28; 27; 0; 95; 183; 101; 68; 71; 0; 79; 98; 78; 80; 0; 0; 72; 0; 0; 0; 163;
  164; 165; 0; 0; 0; 0; 0; 182; 0; 0; 90; 0; 71; 0; 91; 86; 88; 96; 94; 112; 105; 111; 78; 0; 59;
  103; 184; 0; 0; 0; 0; 69; 168; 138; 139; 140; 171; 172; 88; 88; 175; 148; 176; 111; 178; 93; 92;
  95; 94; 97; 96; 102; 103; 104; 105; 98; 99; 100; 101; 107; 106; 109; 108; 111; 110; 113; 112
].

Definition case_conv_ext : list Z := [
  0x399; 0x308; 0x301; 0x3a5; 0x313; 0x300; 0x342; 0x391; 0x397; 0x3a9; 0x46; 0x49; 0x4c; 0x53;
  0x69; 0x307; 0x2bc; 0x4e; 0x4a; 0x30c; 0x535; 0x552; 0x48; 0x331; 0x54; 0x57; 0x30a; 0x59; 0x41;
  0x2be; 0x1f08; 0x1f80; 0x1f28; 0x1f90; 0x1f68; 0x1fa0; 0x1fba; 0x386; 0x1fb3; 0x1fca; 0x389;
  0x1fc3; 0x3a1; 0x1ffa; 0x38f; 0x1ff3; 0x544; 0x546; 0x53b; 0x54e; 0x53d; 0x3b8; 0x462; 0xa64a;
  0x1e60; 0x3c9; 0x6b; 0xe5
].

Definition unicode_prop_Cased1_table : list Z := [
  64; 169; 128; 142; 128; 252; 128; 211; 128; 140; 128; 141; 129; 141; 2; 128; 225; 128; 145; 133;
  154; 1; 0; 1; 17; 0; 1; 4; 8; 1; 8; 48; 8; 1; 21; 32; 0; 57; 153; 49; 157; 132; 64; 148; 128;
  214; 130; 166; 128; 65; 98; 128; 166; 128; 75; 114; 128; 76; 2; 248; 2; 128; 143; 128; 176; 64;
  219; 8; 128; 65; 208; 128; 140; 128; 143; 140; 228; 3; 1; 137; 0; 20; 40; 16; 17; 2; 1; 24; 11;
  36; 75; 38; 1; 1; 134; 229; 128; 96; 121; 182; 129; 64; 145; 129; 189; 136; 148; 5; 128; 152;
  128; 162; 0; 128; 155; 18; 130; 67; 52; 162; 6; 128; 141; 96; 92; 21; 1; 16; 169; 128; 136; 96;
  204; 68; 212; 128; 198; 1; 8; 9; 11; 128; 139; 0; 6; 128; 192; 3; 15; 6; 128; 155; 3; 4; 0; 22;
  128; 65; 83; 129; 152; 128; 152; 128; 158; 128; 152; 128; 158; 128; 152; 128; 158; 128; 152; 128;
  158; 128; 152; 7; 71; 51; 137; 128; 147; 45; 65; 4; 189; 80; 193; 153; 133; 153; 133; 153
].

Definition unicode_prop_Cased1_index : list Z := [
  185; 2; 224; 192; 29; 32; 229; 44; 32; 177; 7; 33; 193; 214; 33; 74; 241; 1; 138; 241; 1
].

Definition unicode_prop_Case_Ignorable_table : list Z := [
  166; 5; 128; 138; 128; 162; 0; 128; 198; 3; 0; 3; 1; 129; 65; 246; 64; 191; 25; 24; 136; 8; 128;
  64; 250; 134; 64; 206; 4; 128; 176; 172; 0; 1; 1; 0; 171; 128; 138; 133; 137; 138; 0; 162; 128;
  137; 148; 143; 128; 228; 56; 137; 3; 160; 0; 128; 157; 154; 218; 138; 185; 138; 24; 8; 151; 151;
  170; 130; 171; 6; 13; 135; 168; 185; 182; 0; 3; 59; 2; 134; 137; 129; 140; 128; 142; 128; 185; 3;
  31; 128; 147; 129; 153; 1; 129; 184; 3; 11; 9; 18; 128; 157; 10; 128; 138; 129; 184; 3; 32; 11;
  128; 147; 129; 149; 40; 128; 185; 1; 0; 31; 6; 129; 138; 129; 157; 128; 188; 128; 139; 128; 177;
  2; 128; 182; 0; 20; 16; 30; 129; 138; 129; 156; 128; 185; 1; 5; 4; 129; 147; 129; 155; 129; 184;
  11; 31; 128; 147; 129; 156; 128; 199; 6; 16; 128; 217; 1; 134; 138; 136; 225; 1; 136; 136; 0;
  134; 200; 129; 154; 0; 0; 128; 182; 141; 4; 1; 132; 138; 128; 163; 136; 128; 229; 24; 40; 9; 129;
  152; 11; 130; 143; 131; 140; 1; 13; 128; 142; 128; 221; 128; 66; 95; 130; 67; 177; 130; 156; 129;
  157; 129; 157; 129; 191; 8; 55; 1; 138; 16; 32; 172; 132; 178; 128; 192; 129; 161; 128; 245; 19;
  129; 136; 5; 130; 64; 218; 9; 128; 185; 0; 48; 0; 1; 61; 137; 8; 166; 7; 158; 176; 131; 175; 0;
  32; 4; 128; 167; 136; 139; 129; 159; 25; 8; 130; 183; 0; 10; 0; 130; 185; 57; 129; 191; 133; 209;
  16; 140; 6; 24; 40; 17; 177; 190; 140; 128; 161; 228; 65; 188; 0; 130; 138; 130; 140; 130; 140;
  130; 140; 129; 139; 39; 129; 137; 1; 1; 132; 176; 32; 137; 0; 140; 128; 143; 140; 178; 160; 75;
  138; 129; 240; 130; 252; 128; 142; 128; 223; 159; 174; 128; 65; 212; 128; 163; 26; 36; 128; 220;
  133; 220; 130; 96; 111; 21; 128; 68; 225; 133; 65; 13; 128; 225; 24; 137; 0; 155; 131; 207; 129;
  141; 161; 205; 128; 150; 130; 230; 18; 15; 2; 3; 128; 152; 12; 128; 64; 150; 129; 153; 145; 140;
  128; 165; 135; 152; 138; 173; 130; 175; 1; 25; 129; 144; 128; 148; 129; 193; 41; 9; 129; 139; 7;
  128; 162; 128; 138; 128; 178; 0; 17; 12; 8; 128; 154; 128; 141; 12; 8; 128; 227; 132; 136; 130;
  248; 1; 3; 128; 96; 79; 47; 128; 64; 146; 144; 66; 60; 143; 16; 139; 143; 161; 1; 128; 64; 168;
  6; 5; 128; 138; 128; 162; 0; 128; 174; 128; 172; 129; 194; 128; 148; 130; 66; 0; 128; 64; 225;
  128; 64; 148; 132; 68; 4; 40; 169; 128; 136; 66; 69; 16; 12; 131; 167; 19; 128; 64; 164; 129; 66;
  60; 131; 65; 130; 129; 207; 130; 197; 138; 176; 131; 250; 128; 181; 142; 168; 1; 129; 137; 130;
  176; 25; 9; 3; 128; 137; 128; 177; 130; 163; 32; 135; 189; 128; 139; 129; 179; 136; 137; 25; 128;
  222; 17; 0; 13; 1; 128; 64; 156; 2; 135; 148; 129; 184; 10; 128; 164; 50; 132; 64; 194; 57; 16;
  128; 150; 128; 211; 40; 3; 8; 129; 64; 237; 29; 8; 129; 154; 129; 212; 57; 0; 129; 233; 0; 1; 40;
  128; 228; 17; 24; 132; 65; 2; 136; 1; 64; 255; 8; 3; 128; 64; 143; 25; 11; 128; 159; 137; 167;
  41; 31; 128; 136; 41; 130; 173; 140; 1; 65; 149; 48; 40; 128; 209; 149; 14; 1; 1; 249; 42; 0; 8;
  48; 128; 199; 10; 0; 128; 65; 90; 129; 138; 129; 179; 36; 0; 128; 84; 236; 144; 133; 142; 96; 54;
  153; 132; 186; 134; 136; 131; 68; 10; 128; 190; 144; 191; 8; 129; 96; 64; 10; 24; 48; 129; 76;
  157; 8; 131; 82; 91; 173; 129; 150; 66; 31; 130; 136; 143; 14; 157; 131; 64; 147; 130; 71; 186;
  182; 131; 177; 56; 141; 128; 149; 32; 142; 69; 79; 48; 144; 14; 1; 4; 132; 189; 160; 128; 64;
  159; 141; 65; 111; 128; 188; 131; 65; 250; 132; 67; 223; 134; 236; 135; 74; 174; 132; 108; 12; 0;
  128; 157; 223; 255; 64; 239
].

Definition unicode_prop_Case_Ignorable_index : list Z := [
  190; 5; 0; 254; 7; 0; 82; 10; 160; 193; 11; 0; 130; 13; 0; 63; 16; 128; 212; 23; 64; 207; 26; 32;
  245; 28; 0; 128; 32; 0; 22; 160; 0; 198; 168; 0; 194; 170; 96; 86; 254; 32; 177; 7; 1; 117; 16;
  1; 235; 18; 33; 65; 22; 1; 92; 26; 1; 67; 31; 1; 46; 207; 65; 37; 224; 1; 240; 1; 14
].

Definition unicode_prop_ID_Start_table : list Z := [
  192; 153; 133; 153; 174; 128; 137; 3; 4; 150; 128; 158; 128; 65; 201; 131; 139; 141; 38; 0; 128;
  64; 128; 32; 9; 24; 5; 0; 16; 0; 147; 128; 210; 128; 64; 138; 135; 64; 165; 128; 165; 8; 133;
  168; 198; 154; 27; 172; 170; 162; 8; 226; 0; 142; 14; 129; 137; 17; 128; 143; 0; 157; 156; 216;
  138; 128; 151; 160; 136; 11; 4; 149; 24; 136; 2; 128; 150; 152; 134; 138; 132; 151; 5; 144; 169;
  185; 181; 16; 145; 6; 137; 142; 143; 31; 9; 129; 149; 6; 0; 19; 16; 143; 128; 140; 8; 130; 141;
  129; 137; 7; 43; 9; 149; 6; 1; 1; 1; 158; 24; 128; 146; 130; 143; 136; 2; 128; 149; 6; 1; 4; 16;
  145; 128; 142; 129; 150; 128; 138; 57; 9; 149; 6; 1; 4; 16; 157; 8; 130; 142; 128; 144; 0; 42;
  16; 26; 8; 0; 10; 10; 18; 139; 149; 128; 179; 56; 16; 150; 128; 143; 16; 153; 17; 1; 129; 157; 3;
  56; 16; 150; 128; 137; 4; 16; 158; 8; 129; 142; 129; 144; 136; 2; 128; 168; 8; 143; 4; 23; 130;
  151; 44; 145; 130; 151; 128; 136; 0; 14; 185; 175; 1; 139; 134; 185; 8; 0; 32; 151; 0; 128; 137;
  1; 136; 1; 32; 128; 148; 131; 159; 128; 190; 56; 163; 154; 132; 242; 170; 147; 128; 143; 43; 26;
  2; 14; 19; 140; 139; 128; 144; 165; 0; 32; 129; 170; 128; 65; 76; 3; 14; 0; 3; 129; 168; 3; 129;
  160; 3; 14; 0; 3; 129; 142; 128; 184; 3; 129; 194; 164; 143; 143; 213; 13; 130; 66; 107; 129;
  144; 128; 153; 132; 202; 130; 138; 134; 145; 140; 146; 141; 145; 141; 140; 2; 142; 179; 162; 3;
  128; 194; 216; 134; 168; 0; 132; 197; 137; 158; 176; 157; 12; 138; 171; 131; 153; 181; 150; 136;
  180; 209; 128; 220; 174; 144; 135; 181; 157; 140; 129; 137; 171; 153; 163; 168; 130; 137; 163;
  129; 136; 134; 170; 10; 168; 24; 40; 10; 4; 64; 191; 191; 65; 21; 13; 129; 165; 13; 15; 0; 0; 0;
  128; 158; 129; 180; 6; 0; 18; 6; 19; 13; 131; 140; 34; 6; 243; 128; 140; 128; 143; 140; 228; 3;
  1; 137; 0; 13; 40; 0; 0; 128; 143; 11; 36; 24; 144; 168; 74; 118; 64; 228; 43; 17; 139; 165; 0;
  32; 129; 183; 48; 143; 150; 136; 48; 48; 48; 48; 48; 48; 48; 134; 66; 37; 130; 152; 136; 52; 12;
  131; 213; 28; 128; 217; 3; 132; 170; 128; 221; 144; 159; 175; 143; 65; 255; 89; 191; 191; 96; 86;
  140; 194; 173; 129; 65; 12; 130; 143; 137; 129; 147; 174; 143; 158; 129; 207; 166; 136; 129; 230;
  129; 191; 33; 0; 4; 151; 143; 2; 3; 128; 150; 156; 179; 141; 177; 189; 42; 0; 129; 138; 155; 137;
  150; 152; 156; 134; 174; 155; 128; 143; 32; 137; 137; 32; 168; 150; 16; 135; 147; 150; 16; 130;
  177; 0; 17; 12; 8; 0; 151; 17; 138; 50; 139; 41; 41; 133; 136; 48; 48; 170; 128; 141; 133; 242;
  156; 96; 43; 163; 139; 150; 131; 176; 96; 33; 3; 65; 109; 129; 233; 165; 134; 139; 36; 0; 137;
  128; 140; 4; 0; 1; 1; 128; 235; 160; 65; 106; 145; 191; 129; 181; 167; 139; 243; 32; 64; 134;
  163; 153; 133; 153; 138; 216; 21; 13; 13; 10; 162; 139; 128; 153; 128; 146; 1; 128; 142; 129;
  141; 161; 250; 196; 180; 65; 10; 156; 130; 176; 174; 159; 140; 157; 132; 165; 137; 157; 129; 163;
  31; 4; 169; 64; 157; 145; 163; 131; 163; 131; 167; 135; 179; 139; 138; 128; 142; 6; 1; 128; 138;
  128; 142; 6; 1; 194; 65; 54; 136; 149; 137; 135; 151; 40; 169; 128; 136; 196; 41; 0; 171; 1; 16;
  129; 150; 137; 150; 136; 158; 192; 146; 1; 137; 149; 137; 153; 197; 183; 41; 191; 128; 142; 24;
  16; 156; 169; 156; 130; 156; 162; 56; 155; 154; 181; 137; 149; 137; 146; 140; 145; 237; 200; 182;
  178; 140; 178; 140; 163; 65; 91; 169; 41; 205; 156; 137; 7; 149; 169; 145; 173; 148; 154; 150;
  139; 180; 184; 9; 128; 140; 172; 159; 152; 153; 163; 156; 1; 7; 162; 16; 139; 175; 141; 131; 148;
  0; 128; 162; 145; 128; 152; 146; 129; 190; 48; 0; 24; 142; 128; 137; 134; 174; 165; 57; 9; 149;
  6; 1; 4; 16; 145; 128; 139; 132; 64; 157; 180; 145; 131; 147; 130; 157; 175; 147; 8; 128; 64;
  183; 174; 168; 131; 163; 175; 147; 128; 186; 170; 140; 128; 198; 154; 164; 134; 64; 184; 171;
  243; 191; 158; 57; 1; 56; 8; 151; 142; 0; 128; 221; 57; 166; 143; 0; 128; 155; 128; 137; 167; 48;
  148; 128; 138; 173; 146; 128; 145; 200; 65; 6; 136; 128; 164; 144; 128; 176; 157; 239; 48; 8;
  165; 148; 128; 152; 40; 8; 159; 141; 128; 65; 70; 146; 142; 0; 140; 128; 161; 251; 128; 206; 67;
  153; 229; 238; 144; 64; 195; 74; 75; 224; 142; 68; 47; 144; 133; 79; 184; 66; 70; 96; 33; 184;
  66; 56; 134; 158; 144; 206; 144; 157; 145; 175; 143; 131; 158; 148; 132; 146; 66; 175; 191; 255;
  202; 32; 193; 140; 191; 8; 128; 155; 87; 247; 135; 68; 213; 169; 136; 96; 34; 230; 24; 48; 8; 65;
  34; 142; 128; 156; 17; 128; 141; 31; 65; 139; 73; 3; 234; 132; 140; 130; 136; 134; 137; 87; 101;
  212; 128; 198; 1; 8; 9; 11; 128; 139; 0; 6; 128; 192; 3; 15; 6; 128; 155; 3; 4; 0; 22; 128; 65;
  83; 129; 152; 128; 152; 128; 158; 128; 152; 128; 158; 128; 152; 128; 158; 128; 152; 128; 158;
  128; 152; 7; 71; 51; 158; 45; 65; 4; 189; 64; 145; 172; 137; 134; 143; 128; 65; 64; 157; 145;
  171; 65; 227; 155; 66; 243; 48; 24; 8; 142; 128; 64; 196; 186; 195; 48; 68; 179; 24; 154; 1; 0;
  8; 128; 137; 3; 0; 0; 40; 24; 0; 0; 2; 1; 0; 8; 0; 0; 0; 0; 1; 0; 11; 6; 3; 3; 0; 128; 137; 128;
  144; 34; 4; 128; 144; 81; 67; 96; 166; 223; 159; 80; 57; 133; 64; 221; 129; 86; 129; 141; 93; 48;
  76; 30; 66; 29; 69; 225; 83; 74; 132; 80; 95
].

Definition unicode_prop_ID_Start_index : list Z := [
  246; 3; 32; 166; 7; 0; 169; 9; 32; 177; 10; 0; 186; 11; 32; 59; 13; 32; 199; 14; 32; 73; 18; 0;
  155; 22; 0; 172; 25; 0; 192; 29; 128; 128; 32; 32; 112; 45; 0; 0; 50; 0; 218; 167; 0; 76; 170;
  32; 199; 215; 32; 252; 253; 32; 157; 2; 33; 150; 5; 1; 243; 8; 1; 179; 12; 33; 115; 17; 97; 52;
  19; 1; 27; 23; 33; 138; 26; 1; 52; 31; 33; 191; 106; 1; 35; 177; 161; 173; 212; 1; 111; 215; 1;
  255; 231; 97; 94; 238; 1; 225; 235; 34; 176; 35; 3
].

Definition unicode_prop_ID_Continue1_table : list Z := [
  175; 137; 164; 128; 214; 128; 66; 71; 239; 150; 128; 64; 250; 132; 65; 8; 172; 0; 1; 1; 0; 199;
  138; 175; 158; 40; 228; 49; 41; 8; 25; 137; 150; 128; 157; 154; 218; 138; 142; 137; 160; 136;
  136; 128; 151; 24; 136; 2; 4; 170; 130; 187; 135; 169; 151; 128; 160; 181; 16; 145; 6; 137; 9;
  137; 144; 130; 183; 0; 49; 9; 130; 136; 128; 137; 9; 137; 141; 1; 130; 183; 0; 35; 9; 18; 128;
  147; 139; 16; 138; 130; 183; 0; 56; 16; 130; 147; 9; 137; 137; 40; 130; 183; 0; 49; 9; 22; 130;
  137; 9; 137; 145; 128; 186; 34; 16; 131; 136; 128; 141; 137; 143; 132; 182; 0; 48; 16; 30; 129;
  138; 9; 137; 144; 130; 183; 0; 48; 16; 30; 129; 138; 9; 137; 16; 139; 131; 182; 8; 48; 16; 131;
  136; 128; 137; 9; 137; 144; 130; 197; 3; 40; 0; 61; 137; 9; 188; 1; 134; 139; 56; 137; 214; 1;
  136; 138; 48; 137; 189; 13; 137; 138; 0; 0; 3; 129; 176; 147; 1; 132; 138; 128; 163; 136; 128;
  227; 147; 128; 137; 139; 27; 16; 17; 50; 131; 140; 139; 128; 142; 66; 190; 130; 136; 136; 67;
  159; 131; 155; 130; 156; 129; 157; 129; 191; 159; 136; 1; 137; 160; 16; 138; 64; 142; 128; 245;
  139; 131; 139; 137; 137; 255; 138; 187; 132; 184; 137; 128; 156; 129; 138; 133; 137; 149; 141;
  128; 143; 176; 132; 174; 144; 138; 137; 144; 136; 139; 130; 157; 140; 129; 137; 171; 141; 175;
  147; 135; 137; 133; 137; 245; 16; 148; 24; 40; 10; 64; 197; 191; 66; 62; 129; 146; 128; 250; 140;
  24; 130; 139; 75; 253; 130; 64; 140; 128; 223; 159; 66; 41; 133; 232; 129; 96; 117; 132; 137;
  196; 3; 137; 159; 129; 207; 129; 65; 15; 2; 3; 128; 150; 35; 128; 210; 129; 177; 145; 137; 137;
  133; 145; 140; 138; 155; 135; 152; 140; 171; 131; 174; 141; 142; 137; 138; 128; 137; 137; 174;
  141; 139; 7; 9; 137; 160; 130; 177; 0; 17; 12; 8; 128; 168; 36; 129; 64; 235; 56; 9; 137; 96; 79;
  35; 128; 66; 224; 143; 143; 143; 17; 151; 130; 64; 191; 137; 164; 128; 66; 188; 128; 64; 225;
  128; 64; 148; 132; 65; 36; 137; 69; 86; 16; 12; 131; 167; 19; 128; 64; 164; 129; 66; 60; 31; 137;
  65; 112; 129; 207; 130; 197; 138; 176; 131; 249; 130; 180; 142; 158; 138; 9; 137; 131; 172; 138;
  48; 172; 137; 42; 163; 141; 128; 137; 33; 171; 128; 139; 130; 175; 141; 59; 128; 139; 209; 139;
  40; 8; 64; 156; 139; 132; 137; 43; 182; 8; 49; 9; 130; 136; 128; 137; 9; 50; 132; 64; 191; 145;
  136; 137; 24; 208; 147; 139; 137; 64; 212; 49; 136; 154; 129; 209; 144; 142; 137; 208; 140; 135;
  137; 210; 142; 131; 137; 64; 241; 142; 64; 164; 137; 197; 40; 9; 24; 0; 129; 139; 137; 246; 49;
  50; 128; 155; 137; 167; 48; 31; 128; 136; 138; 173; 143; 65; 148; 56; 135; 143; 137; 183; 149;
  128; 141; 249; 42; 0; 8; 48; 7; 137; 175; 32; 8; 39; 137; 65; 72; 131; 136; 8; 128; 175; 50; 132;
  140; 137; 84; 229; 5; 142; 96; 54; 9; 137; 213; 137; 165; 132; 186; 134; 152; 137; 67; 244; 0;
  182; 51; 208; 128; 138; 129; 96; 76; 170; 129; 82; 96; 173; 129; 150; 66; 29; 34; 47; 57; 134;
  157; 131; 64; 147; 130; 69; 136; 177; 65; 255; 182; 131; 177; 56; 141; 128; 149; 32; 142; 69; 79;
  48; 144; 14; 1; 4; 227; 128; 64; 159; 134; 136; 137; 65; 99; 128; 188; 141; 65; 241; 141; 67;
  213; 134; 236; 52; 137; 82; 149; 137; 108; 5; 5; 64; 239
].

Definition unicode_prop_ID_Continue1_index : list Z := [
  250; 6; 0; 112; 9; 0; 240; 10; 64; 87; 12; 0; 240; 13; 96; 199; 15; 32; 234; 23; 64; 5; 27; 0;
  65; 32; 0; 12; 168; 128; 55; 170; 32; 80; 254; 32; 58; 13; 33; 116; 17; 1; 90; 20; 33; 68; 25;
  129; 90; 29; 161; 245; 106; 33; 69; 210; 65; 175; 226; 33; 240; 1; 14
].

Definition unicode_cc_table : list Z := [
  178; 207; 212; 0; 232; 3; 220; 0; 232; 0; 216; 4; 220; 1; 202; 3; 220; 1; 202; 10; 220; 4; 1; 3;
  220; 199; 0; 240; 192; 2; 220; 194; 1; 220; 128; 194; 3; 220; 192; 0; 232; 1; 220; 192; 65; 233;
  0; 234; 65; 233; 0; 234; 0; 233; 204; 176; 226; 196; 176; 216; 0; 220; 195; 0; 220; 194; 0; 222;
  0; 220; 197; 5; 220; 193; 0; 220; 193; 0; 222; 0; 228; 192; 73; 10; 67; 19; 128; 0; 23; 128; 65;
  24; 128; 192; 0; 220; 128; 0; 18; 176; 23; 199; 66; 30; 175; 71; 27; 193; 1; 220; 196; 0; 220;
  193; 0; 220; 143; 0; 35; 176; 52; 198; 129; 195; 0; 220; 192; 129; 193; 128; 0; 220; 193; 0; 220;
  162; 0; 36; 157; 192; 0; 220; 193; 0; 220; 193; 2; 220; 192; 1; 220; 192; 0; 220; 194; 0; 220;
  192; 0; 220; 192; 0; 220; 192; 0; 220; 193; 176; 111; 198; 0; 220; 192; 136; 0; 220; 151; 195;
  128; 200; 128; 194; 128; 196; 170; 2; 220; 176; 11; 192; 2; 220; 195; 169; 196; 4; 220; 205; 128;
  0; 220; 193; 0; 220; 193; 0; 220; 194; 2; 220; 66; 27; 194; 0; 220; 193; 1; 220; 196; 176; 11; 0;
  7; 143; 0; 9; 130; 192; 0; 220; 193; 176; 54; 0; 7; 143; 0; 9; 175; 192; 176; 12; 0; 7; 143; 0;
  9; 176; 61; 0; 7; 143; 0; 9; 176; 61; 0; 7; 143; 0; 9; 176; 78; 0; 9; 176; 61; 0; 7; 143; 0; 9;
  134; 0; 84; 0; 91; 176; 52; 0; 7; 143; 0; 9; 176; 60; 1; 9; 143; 0; 9; 176; 75; 0; 9; 176; 60; 1;
  103; 0; 9; 140; 3; 107; 176; 59; 1; 118; 0; 9; 140; 3; 122; 176; 27; 1; 220; 154; 0; 220; 128; 0;
  220; 128; 0; 216; 176; 6; 65; 129; 128; 0; 132; 132; 3; 130; 129; 0; 130; 128; 193; 0; 9; 128;
  193; 176; 13; 0; 220; 176; 63; 0; 7; 128; 1; 9; 176; 33; 0; 220; 178; 158; 194; 179; 131; 1; 9;
  157; 0; 9; 176; 108; 0; 9; 137; 192; 176; 154; 0; 228; 176; 94; 0; 222; 192; 0; 220; 176; 170;
  192; 0; 220; 176; 22; 0; 9; 147; 199; 129; 0; 220; 175; 196; 5; 220; 193; 0; 220; 128; 1; 220;
  193; 1; 220; 196; 0; 220; 195; 176; 52; 0; 7; 142; 0; 9; 165; 192; 0; 220; 198; 176; 5; 1; 9;
  176; 9; 0; 7; 138; 1; 9; 176; 18; 0; 7; 176; 103; 194; 65; 0; 4; 220; 193; 3; 220; 192; 65; 0; 5;
  1; 131; 0; 220; 133; 192; 130; 193; 176; 149; 193; 0; 220; 198; 0; 220; 193; 0; 234; 0; 214; 0;
  220; 0; 202; 228; 0; 232; 1; 228; 0; 220; 0; 218; 192; 0; 233; 0; 220; 192; 0; 220; 178; 159;
  193; 1; 1; 195; 2; 1; 193; 131; 192; 130; 1; 1; 192; 0; 220; 192; 1; 1; 3; 220; 192; 184; 3; 205;
  194; 176; 92; 0; 9; 176; 47; 223; 177; 249; 0; 218; 0; 228; 0; 232; 0; 222; 1; 224; 176; 56; 1;
  8; 184; 109; 163; 192; 131; 201; 159; 193; 176; 31; 193; 176; 227; 0; 9; 164; 0; 9; 176; 102; 0;
  9; 154; 209; 176; 8; 2; 220; 164; 0; 9; 176; 46; 0; 7; 139; 0; 9; 176; 190; 192; 128; 193; 0;
  220; 129; 193; 132; 193; 128; 192; 176; 3; 0; 9; 176; 197; 0; 9; 184; 70; 255; 0; 26; 178; 208;
  198; 6; 220; 193; 179; 156; 0; 220; 176; 177; 0; 220; 176; 100; 196; 182; 97; 0; 220; 128; 192;
  167; 192; 0; 1; 0; 220; 131; 0; 9; 176; 116; 192; 0; 220; 178; 12; 195; 177; 82; 193; 176; 31; 2;
  220; 176; 21; 1; 220; 194; 0; 220; 192; 3; 220; 176; 0; 192; 0; 220; 192; 0; 220; 176; 143; 0; 9;
  168; 0; 9; 141; 0; 9; 176; 8; 0; 9; 0; 7; 176; 20; 194; 175; 1; 9; 176; 13; 0; 7; 176; 27; 0; 9;
  136; 0; 7; 176; 57; 0; 9; 0; 7; 176; 129; 0; 7; 0; 9; 176; 31; 1; 7; 143; 0; 9; 151; 198; 130;
  196; 176; 156; 0; 9; 130; 0; 7; 150; 192; 176; 50; 0; 9; 0; 7; 176; 202; 0; 9; 0; 7; 176; 77; 0;
  9; 176; 69; 0; 9; 0; 7; 176; 66; 0; 9; 176; 220; 0; 9; 0; 7; 176; 209; 1; 9; 131; 0; 7; 176; 107;
  0; 9; 176; 34; 0; 9; 145; 0; 9; 176; 32; 0; 9; 177; 116; 0; 9; 176; 209; 0; 7; 128; 1; 9; 176;
  32; 0; 9; 177; 120; 1; 9; 184; 67; 124; 4; 1; 176; 10; 198; 180; 136; 1; 6; 184; 68; 123; 0; 1;
  184; 12; 149; 1; 216; 2; 1; 130; 0; 226; 4; 216; 135; 7; 220; 129; 196; 1; 220; 157; 195; 176;
  99; 194; 184; 5; 138; 198; 128; 208; 129; 198; 128; 193; 128; 196; 176; 51; 192; 176; 111; 198;
  177; 70; 192; 176; 12; 195; 177; 203; 1; 232; 0; 220; 192; 179; 175; 6; 220; 176; 60; 197; 0; 7
].

Definition unicode_cc_index : list Z := [
  77; 3; 0; 151; 5; 32; 198; 5; 0; 231; 6; 0; 69; 7; 0; 156; 8; 0; 77; 9; 0; 60; 11; 0; 61; 13; 0;
  54; 15; 0; 56; 16; 32; 58; 25; 0; 203; 26; 32; 211; 28; 0; 207; 29; 0; 226; 32; 0; 46; 48; 32;
  43; 169; 32; 237; 171; 0; 57; 10; 1; 81; 15; 1; 115; 17; 1; 117; 19; 1; 43; 23; 33; 63; 28; 33;
  158; 188; 33; 8; 224; 1; 68; 233; 1; 75; 233; 1
].

