(* ===== verification/UnicodeCase.v ===== *)
(** * Case conversion (libunicode.c)

    [lre_case_conv] (conv_type 0: to upper, 1: to lower, 2: case folding) and
    the regular-expression canonicalization [lre_canonicalize].  The result
    array [res] is the list of the code points written; its length is the C
    return value.  Reading a table outside its bounds is [None].

    [lre_case_conv_entry] calls [lre_case_conv] again, through
    [lre_case_conv1], only to convert to lower case; that call never calls
    back.  The C recursion is therefore unrolled once: the operations take the
    function to call as [conv1]. *)

From S2P Require Import Prelude CArray RunTable UnicodeTables.
Open Scope Z_scope.

Definition RUN_TYPE_U : Z := 0.
Definition RUN_TYPE_L : Z := 1.
Definition RUN_TYPE_UF : Z := 2.
Definition RUN_TYPE_LF : Z := 3.
Definition RUN_TYPE_UL : Z := 4.
Definition RUN_TYPE_LSU : Z := 5.
Definition RUN_TYPE_U2L_399_EXT2 : Z := 6.
Definition RUN_TYPE_UF_D20 : Z := 7.
Definition RUN_TYPE_UF_D1_EXT : Z := 8.
Definition RUN_TYPE_U_EXT : Z := 9.
Definition RUN_TYPE_LF_EXT : Z := 10.
Definition RUN_TYPE_UF_EXT2 : Z := 11.
Definition RUN_TYPE_LF_EXT2 : Z := 12.
Definition RUN_TYPE_UF_EXT3 : Z := 13.

(** The fields of a [case_conv_table1] word. *)
Definition run_code (v : Z) : Z := Z.shiftr v (32 - 17).
Definition run_len (v : Z) : Z := Z.land (Z.shiftr v (32 - 17 - 7)) 0x7f.
Definition run_type (v : Z) : Z := Z.land (Z.shiftr v (32 - 17 - 7 - 4)) 0xf.

Definition lre_case_conv_entry_with (conv1 : Z -> option Z) (c conv_type idx v : Z) : option (list Z) :=
  let is_lower := Zb (negb (conv_type =? 0)) in
  let type := run_type v in
  t2 ← rd case_conv_table2 idx;
  let data := Z.lor (Z.shiftl (Z.land v 0xf) 8) t2 in
  let code := run_code v in
  if (type =? RUN_TYPE_U) || (type =? RUN_TYPE_L) || (type =? RUN_TYPE_UF) || (type =? RUN_TYPE_LF) then
    if (conv_type =? Z.land type 1) || ((type >=? RUN_TYPE_UF) && (conv_type =? 2)) then
      t ← rd case_conv_table1 data;
      Some [u32 (c - code + Z.shiftr t (32 - 17))]
    else Some [c]
  else if type =? RUN_TYPE_UL then
    let a := u32 (c - code) in
    if negb (Z.land a 1 =? 1 - is_lower) then Some [c] else Some [u32 (Z.lxor a 1 + code)]
  else if type =? RUN_TYPE_LSU then
    let a := u32 (c - code) in
    if a =? 1 then Some [u32 (c + (2 * is_lower - 1))]
    else if a =? (1 - is_lower) * 2 then Some [u32 (c + (2 * is_lower - 1) * 2)]
    else Some [c]
  else if type =? RUN_TYPE_U2L_399_EXT2 then
    if is_lower =? 0 then
      e ← rd case_conv_ext (Z.shiftr data 6);
      Some [u32 (c - code + e); 0x399]
    else
      e ← rd case_conv_ext (Z.land data 0x3f);
      Some [u32 (c - code + e)]
  else if type =? RUN_TYPE_UF_D20 then
    if conv_type =? 1 then Some [c] else Some [data + Zb (conv_type =? 2) * 0x20]
  else if type =? RUN_TYPE_UF_D1_EXT then
    if conv_type =? 1 then Some [c] else
    e ← rd case_conv_ext data; Some [e + Zb (conv_type =? 2)]
  else if (type =? RUN_TYPE_U_EXT) || (type =? RUN_TYPE_LF_EXT) then
    if negb (is_lower =? type - RUN_TYPE_U_EXT) then Some [c] else
    e ← rd case_conv_ext data; Some [e]
  else if type =? RUN_TYPE_LF_EXT2 then
    if is_lower =? 0 then Some [c] else
    e0 ← rd case_conv_ext (Z.shiftr data 6);
    e1 ← rd case_conv_ext (Z.land data 0x3f);
    Some [u32 (c - code + e0); e1]
  else if type =? RUN_TYPE_UF_EXT2 then
    if conv_type =? 1 then Some [c] else
    e0 ← rd case_conv_ext (Z.shiftr data 6);
    e1 ← rd case_conv_ext (Z.land data 0x3f);
    let r0 := u32 (c - code + e0) in
    if conv_type =? 2 then
      r0 ← conv1 r0; r1 ← conv1 e1; Some [r0; r1]
    else Some [r0; e1]
  else
    (* RUN_TYPE_UF_EXT3 and default *)
    if conv_type =? 1 then Some [c] else
    e0 ← rd case_conv_ext (Z.shiftr data 8);
    e1 ← rd case_conv_ext (Z.land (Z.shiftr data 4) 0xf);
    e2 ← rd case_conv_ext (Z.land data 0xf);
    if conv_type =? 2 then
      e0 ← conv1 e0; e1 ← conv1 e1; e2 ← conv1 e2; Some [e0; e1; e2]
    else Some [e0; e1; e2].

(** The binary search that [lre_case_conv], [lre_canonicalize] and
    [lre_is_cased] each contain: the index and word of the run of [c]. *)
Definition search_body (c : Z) (st : Z * Z) : option ((Z * Z) + option (Z * Z)) :=
  let '(idx_min, idx_max) := st in
  if idx_min <=? idx_max then
    let idx := u32 (idx_max + idx_min) / 2 in
    v ← rd case_conv_table1 idx;
    let code := run_code v in
    let len := run_len v in
    if c <? code then Some (inl (idx_min, idx - 1))
    else if c >=? u32 (code + len) then Some (inl (idx + 1, idx_max))
    else Some (inr (Some (idx, v)))
  else Some (inr None).

Definition search (c : Z) : option (option (Z * Z)) :=
  loop (length case_conv_table1 + 1) (search_body c) (0, zlen case_conv_table1 - 1).

Definition ascii_lower (c : Z) : Z := if (c >=? 65) && (c <=? 90) then c - 65 + 97 else c.
Definition ascii_upper (c : Z) : Z := if (c >=? 97) && (c <=? 122) then c - 97 + 65 else c.

Definition lre_case_conv_with (conv1 : Z -> option Z) (c conv_type : Z) : option (list Z) :=
  if c <? 128 then
    Some [if negb (conv_type =? 0) then ascii_lower c else ascii_upper c]
  else
    r ← search c;
    match r with
    | Some (idx, v) => lre_case_conv_entry_with conv1 c conv_type idx v
    | None => Some [c]
    end.

(** The inner calls, all with [conv_type] 1. *)
Definition lre_case_conv1 (c : Z) : option Z :=
  res ← lre_case_conv_with (fun _ => None) c 1; rd res 0.

Definition lre_case_conv_entry : Z -> Z -> Z -> Z -> option (list Z) := lre_case_conv_entry_with lre_case_conv1.
Definition lre_case_conv : Z -> Z -> option (list Z) := lre_case_conv_with lre_case_conv1.

Definition lre_case_folding_entry (c idx v : Z) (is_unicode : bool) : option Z :=
  if is_unicode then
    res ← lre_case_conv_entry c 2 idx v;
    if zlen res =? 1 then rd res 0
    else if c =? 0xfb06 then Some 0xfb05
    else if c =? 0x01fd3 then Some 0x390
    else if c =? 0x01fe3 then Some 0x3b0
    else Some c
  else if c <? 128 then Some (ascii_upper c)
  else
    res ← lre_case_conv_entry c 0 idx v;
    r0 ← rd res 0;
    Some (if (zlen res =? 1) && (r0 >=? 128) then r0 else c).

Definition lre_canonicalize (c : Z) (is_unicode : bool) : option Z :=
  if c <? 128 then Some (if is_unicode then ascii_lower c else ascii_upper c)
  else
    r ← search c;
    match r with
    | Some (idx, v) => lre_case_folding_entry c idx v is_unicode
    | None => Some c
    end.

(** ** The table: 370 runs in order, below 0x20000 *)

Definition run_end : Z -> Z := run_last run_code run_len.
Definition run_of : Z -> option (Z * Z) := find_run case_conv_table1 run_code run_len.
Definition all_runs : (Z -> Z -> Z -> bool) -> bool := forall_runs case_conv_table1 run_code run_len.

Lemma table1_sorted : table_sorted run_code run_len 0x20000 case_conv_table1 = true.
Proof. vm_cast_no_check (@eq_refl bool true). Qed.

Lemma zlen_table1 : zlen case_conv_table1 = 370.
Proof. reflexivity. Qed.

#[global] Opaque case_conv_table1 case_conv_table2 case_conv_ext.

Lemma run_rd_lt i j v w :
  i < j -> rd case_conv_table1 i = Some v -> rd case_conv_table1 j = Some w -> run_end v <= run_code w.
Proof. by apply table_sorted_rd with (1 := table1_sorted). Qed.

Lemma run_rd_range i v : rd case_conv_table1 i = Some v -> 0 <= run_code v <= run_end v /\ run_end v < 0x20000.
Proof. by apply table_sorted_range with (1 := table1_sorted). Qed.

Lemma all_runs_rd f c idx v :
  all_runs f = true -> rd case_conv_table1 idx = Some v -> run_code v <= c < run_end v -> f c idx v = true.
Proof. apply forall_runs_rd. Qed.

Lemma run_of_Some c idx v : run_of c = Some (idx, v) ->
  rd case_conv_table1 idx = Some v /\ run_code v <= c < run_end v.
Proof. apply find_run_Some. Qed.

Lemma run_of_intro c idx v : rd case_conv_table1 idx = Some v -> run_code v <= c < run_end v -> run_of c = Some (idx, v).
Proof. intros. apply (run_result_unique _ run_code run_len _ c _ _ table1_sorted); [apply find_run_spec|done]. Qed.

(** The binary search finds the run of [c] if there is one. *)
Lemma search_run_of c : search c = Some (run_of c).
Proof.
  unfold search. rewrite (bisect _ run_code run_len 0x20000 c _ (fun idx v => Some (Some (idx, v))) None table1_sorted).
  - unfold run_of. by destruct (find_run _ _ _ c) as [[]|].
  - by rewrite zlen_table1.
  - intros lo hi Hlt. unfold search_body. by replace (lo <=? hi) with false by lia.
  - rewrite zlen_table1. intros lo hi v Hlo Hhi Hv. unfold search_body. replace (lo <=? hi) with true by lia.
    rewrite (uwrap_id 32 (hi + lo)) by (unfold in_u; lia). rewrite Hv. cbn [mbind option_bind].
    destruct (run_rd_range _ _ Hv). fold (run_end v).
    change (run_code v + run_len v) with (run_end v). by rewrite uwrap_id by (unfold in_u; lia).
Qed.

(** The recursion is one level deep: conversion to lower case does not use
    the function it would recurse through. *)
Lemma case_conv_lower_no_recursion f g c : lre_case_conv_with f c 1 = lre_case_conv_with g c 1.
Proof.
  unfold lre_case_conv_with. case_match; [done|]. destruct (search c) as [[[idx v]|]|]; [|done..]. simpl.
  unfold lre_case_conv_entry_with. destruct (rd case_conv_table2 idx); [|done]. simpl.
  repeat case_match; done.
Qed.

Definition conv_types : list Z := [0; 1; 2].

(** What [lre_case_conv] means: the table entry of the run of [c], if any. *)
Definition case_conv_table (c conv_type : Z) : option (list Z) :=
  match run_of c with Some (idx, v) => lre_case_conv_entry c conv_type idx v | None => Some [c] end.

Definition case_folding_table (c : Z) (is_unicode : bool) : option Z :=
  match run_of c with Some (idx, v) => lre_case_folding_entry c idx v is_unicode | None => Some c end.

(** The ASCII shortcuts agree with the table. *)
Lemma ascii_check :
  forallb (fun c => forallb (fun t => bool_decide (lre_case_conv c t = case_conv_table c t)) conv_types &&
    bool_decide (lre_canonicalize c true = case_folding_table c true) &&
    bool_decide (lre_canonicalize c false = case_folding_table c false)) (seqZ 0 128) = true.
Proof. vm_cast_no_check (@eq_refl bool true). Qed.

Lemma case_conv_lookup c t : 0 <= c -> t ∈ conv_types -> lre_case_conv c t = case_conv_table c t.
Proof.
  intros Hc Ht. destruct (decide (c < 128)).
  - pose proof ascii_check as Hk. rewrite forallb_forall in Hk.
    specialize (Hk c ltac:(apply list_elem_of_In, elem_of_seqZ; lia)). zbool.
    rewrite forallb_forall in H. eapply bool_decide_eq_true_1, H. by apply list_elem_of_In.
  - unfold lre_case_conv, lre_case_conv_with. replace (c <? 128) with false by lia.
    rewrite search_run_of. simpl. unfold case_conv_table, lre_case_conv_entry. by destruct (run_of c) as [[]|].
Qed.

Lemma canonicalize_lookup c u : 0 <= c -> lre_canonicalize c u = case_folding_table c u.
Proof.
  intros Hc. destruct (decide (c < 128)).
  - pose proof ascii_check as Hk. rewrite forallb_forall in Hk.
    specialize (Hk c ltac:(apply list_elem_of_In, elem_of_seqZ; lia)). zbool.
    by destruct u; eapply bool_decide_eq_true_1.
  - unfold lre_canonicalize. replace (c <? 128) with false by lia.
    rewrite search_run_of. simpl. unfold case_folding_table. by destruct (run_of c) as [[]|].
Qed.

(** Everything the properties below need of the runs, evaluated. *)
Definition conv_ok (c idx v t : Z) : bool :=
  match lre_case_conv_entry c t idx v with
  | None => false
  | Some res => (1 <=? zlen res) && (zlen res <=? 3) && forallb (fun d => (0 <=? d) && (d <? 0x20000)) res
      && ((t =? 2) || bool_decide (res = [c]) || forallb (fun d => bool_decide (lre_case_conv d t = Some [d])) res)
  end.

Definition fold_ok (c idx v : Z) (u : bool) : bool :=
  match lre_case_folding_entry c idx v u with
  | None => false
  | Some d => (0 <=? d) && (d <? 0x20000) && ((d =? c) || bool_decide (lre_canonicalize d u = Some d))
  end.

Lemma conv_check : all_runs (fun c idx v => forallb (conv_ok c idx v) conv_types) = true.
Proof. vm_cast_no_check (@eq_refl bool true). Qed.

Lemma fold_check : all_runs (fun c idx v => fold_ok c idx v true && fold_ok c idx v false) = true.
Proof. vm_cast_no_check (@eq_refl bool true). Qed.

Lemma canonicalize_fixpoint c u :
  0 <= c ->
  exists d, lre_canonicalize c u = Some d /\ (d = c \/ 0 <= d < 0x20000) /\ lre_canonicalize d u = Some d.
Proof.
  intros Hc. rewrite canonicalize_lookup by done. unfold case_folding_table.
  destruct (run_of c) as [[idx v]|] eqn:Hr.
  - destruct (run_of_Some _ _ _ Hr) as [Hv Hcv].
    pose proof (all_runs_rd _ _ _ _ fold_check Hv Hcv) as Hk. cbv beta in Hk.
    apply andb_true_iff in Hk as [Hk1 Hk2]. assert (fold_ok c idx v u = true) as Hk by (by destruct u).
    unfold fold_ok in Hk. destruct (lre_case_folding_entry c idx v u) as [d|] eqn:Hd; [|done]. exists d.
    clear Hk1 Hk2. zbool; (split_and!; [done|by right|]); [|by eapply bool_decide_eq_true_1].
    subst d. rewrite canonicalize_lookup by done. unfold case_folding_table. by rewrite Hr.
  - exists c. split_and!; [done|by left|]. rewrite canonicalize_lookup by done.
    unfold case_folding_table. by rewrite Hr.
Qed.

(** ** Properties *)

(** The binary search and the ASCII shortcuts of [lre_case_conv] and
    [lre_canonicalize] compute what a linear scan of the run table computes. *)
Theorem case_conv_is_table_lookup c t u :
  0 <= c -> t ∈ conv_types ->
  lre_case_conv c t = case_conv_table c t /\ lre_canonicalize c u = case_folding_table c u.
Proof. intros. split; [by apply case_conv_lookup|by apply canonicalize_lookup]. Qed.

(**  For every code point, upper-casing, lower-casing and case folding
    stay inside the tables and return one to three code points; upper- and
    lower-casing the result again changes nothing. *)
Theorem case_conv_idempotent c t :
  0 <= c -> t ∈ conv_types ->
  exists res, lre_case_conv c t = Some res /\ 1 <= zlen res <= 3 /\
    Forall (fun d => d = c \/ 0 <= d < 0x20000) res /\
    (t <> 2 -> Forall (fun d => lre_case_conv d t = Some [d]) res).
Proof.
  intros Hc Ht. rewrite case_conv_lookup by done. unfold case_conv_table.
  destruct (run_of c) as [[idx v]|] eqn:Hr.
  - destruct (run_of_Some _ _ _ Hr) as [Hv Hcv].
    pose proof (all_runs_rd _ _ _ _ conv_check Hv Hcv) as Hk. cbv beta in Hk. rewrite forallb_forall in Hk.
    specialize (Hk t ltac:(by apply list_elem_of_In)). unfold conv_ok in Hk.
    destruct (lre_case_conv_entry c t idx v) as [res|] eqn:Hres; [|done]. exists res.
    apply andb_true_iff in Hk as [Hk Hid]. revert Hid. zbool. intros Hid. split_and!; [done|done|done| |].
    + clear Hid. apply Forall_forall. intros d Hd. right. rewrite forallb_forall in H0.
      apply list_elem_of_In in Hd. specialize (H0 d Hd). cbv beta in H0. zbool. lia.
    + intros Hne. rewrite !orb_true_iff in Hid. destruct Hid as [[Hid|Hid]|Hid]; [by zbool| |].
      { apply bool_decide_eq_true_1 in Hid as ->. repeat constructor.
        rewrite case_conv_lookup by done. unfold case_conv_table. by rewrite Hr. }
      rewrite forallb_forall in Hid. apply Forall_forall. intros d Hd.
      apply list_elem_of_In in Hd. by eapply bool_decide_eq_true_1, Hid.
  - exists [c]. split_and!; [done|done|done|repeat constructor; by left|]. intros _. repeat constructor.
    rewrite case_conv_lookup by done. unfold case_conv_table. by rewrite Hr.
Qed.

(**  Regular-expression canonicalization is total and idempotent, with and
    without the unicode flag. *)
Theorem canonicalize_idempotent c u :
  0 <= c ->
  exists d, lre_canonicalize c u = Some d /\ (d = c \/ 0 <= d < 0x20000) /\ lre_canonicalize d u = Some d.
Proof. apply canonicalize_fixpoint. Qed.

(** Witnesses: U+00DF (sharp s) and U+212A (the Kelvin sign). *)
Lemma case_conv_is_table_lookup_witness :
  lre_case_conv 0xdf 0 = case_conv_table 0xdf 0 /\ lre_canonicalize 0x212a true = case_folding_table 0x212a true.
Proof.
  split; [apply (case_conv_is_table_lookup 0xdf 0 true)|apply (case_conv_is_table_lookup 0x212a 0 true)];
    (lia || left).
Defined.

Lemma case_conv_idempotent_witness :
  exists res, lre_case_conv 0xdf 0 = Some res /\ 1 <= zlen res <= 3 /\
    Forall (fun d => d = 0xdf \/ 0 <= d < 0x20000) res /\
    (0 <> 2 -> Forall (fun d => lre_case_conv d 0 = Some [d]) res).
Proof. apply (case_conv_idempotent 0xdf 0); [lia|left]. Defined.

Lemma canonicalize_idempotent_witness :
  exists d, lre_canonicalize 0x212a true = Some d /\ (d = 0x212a \/ 0 <= d < 0x20000) /\
    lre_canonicalize d true = Some d.
Proof. apply (canonicalize_idempotent 0x212a true). lia. Defined.

Example kelvin_folds : lre_canonicalize 0x212a true = Some 107 /\ lre_case_conv 0xdf 0 = Some [83; 83].
Proof. vm_compute. done. Qed.
