(* ===== verification/RegexpCanon.v ===== *)
(** * Character sets under case folding (libunicode.c)

    [unicode_case1], the set of the characters a case conversion modifies, and
    [cr_regexp_canonicalize], the image of a character set under the
    regular-expression canonicalization. *)

From S2P Require Import Prelude CArray Rqsort CBytes DynBuf CharRange RunTable UnicodeTables UnicodeCase.
Open Scope Z_scope.

Definition CASE_U : Z := 1.
Definition CASE_L : Z := 2.
Definition CASE_F : Z := 4.

Definition MR (type : Z) : Z := Z.shiftl 1 type.
Definition or_all (l : list Z) : Z := fold_left Z.lor l 0.

Definition tab_run_mask : list Z := [
  or_all (MR <$> [RUN_TYPE_U; RUN_TYPE_UF; RUN_TYPE_UL; RUN_TYPE_LSU; RUN_TYPE_U2L_399_EXT2; RUN_TYPE_UF_D20;
    RUN_TYPE_UF_D1_EXT; RUN_TYPE_U_EXT; RUN_TYPE_UF_EXT2; RUN_TYPE_UF_EXT3]);
  or_all (MR <$> [RUN_TYPE_L; RUN_TYPE_LF; RUN_TYPE_UL; RUN_TYPE_LSU; RUN_TYPE_U2L_399_EXT2; RUN_TYPE_LF_EXT;
    RUN_TYPE_LF_EXT2]);
  or_all (MR <$> [RUN_TYPE_UF; RUN_TYPE_LF; RUN_TYPE_UL; RUN_TYPE_LSU; RUN_TYPE_U2L_399_EXT2; RUN_TYPE_LF_EXT;
    RUN_TYPE_LF_EXT2; RUN_TYPE_UF_D20; RUN_TYPE_UF_D1_EXT; RUN_TYPE_LF_EXT; RUN_TYPE_UF_EXT2; RUN_TYPE_UF_EXT3]) ].

Definition case1_mask (case_mask : Z) : Z :=
  fold_left (fun mask '(i, m) => if negb (Z.land (Z.shiftr case_mask i) 1 =? 0) then Z.lor mask m else mask)
    (zip [0; 1; 2] tab_run_mask) 0.

Section ops.
Context (realloc_func : realloc_t).

(** A sequence of [cr_add_interval] calls, each followed by
    [if (...) return -1]. *)
Fixpoint add_intervals (cr : charrange) (l : list (Z * Z)) : option (Z * charrange) :=
  match l with
  | [] => Some (0, cr)
  | (c1, c2) :: l =>
      '(r, cr) ← cr_add_interval realloc_func cr c1 c2;
      if negb (r =? 0) then Some (-1, cr) else add_intervals cr l
  end.

(** The intervals the body of the loop adds for the run [v]. *)
Definition case1_run (case_mask v : Z) : list (Z * Z) :=
  let code := run_code v in
  let type := run_type v in
  let len := run_len v in
  let is_u := negb (Z.land case_mask CASE_U =? 0) in
  let both := is_u && negb (Z.land case_mask (Z.lor CASE_L CASE_F) =? 0) in
  if Z.land (Z.shiftr (case1_mask case_mask) type) 1 =? 0 then []
  else if (type =? RUN_TYPE_UL) && negb both then
    let code := code + Zb is_u in
    (fun i => (code + 2 * i, code + 2 * i + 1)) <$> seqZ 0 ((len + 1) / 2)
  else if (type =? RUN_TYPE_LSU) && negb both then
    (if is_u then [] else [(code, code + 1)]) ++ [(code + 1, code + 2)] ++
    (if is_u then [(code + 2, code + 3)] else [])
  else [(code, code + len)].

Fixpoint case1_loop (cr : charrange) (case_mask : Z) (table : list Z) : option (Z * charrange) :=
  match table with
  | [] => Some (0, cr)
  | v :: table =>
      '(r, cr) ← add_intervals cr (case1_run case_mask v);
      if negb (r =? 0) then Some (-1, cr) else case1_loop cr case_mask table
  end.

Definition unicode_case1 (cr : charrange) (case_mask : Z) : option (Z * charrange) :=
  if case_mask =? 0 then Some (0, cr) else case1_loop cr case_mask case_conv_table1.

(** The inner search of [cr_regexp_canonicalize]: advance to the run of [c].
    Running off the table is a failed [assert]. *)
Definition advance_body (c : Z) (st : Z * Z) : option ((Z * Z) + (Z * Z)) :=
  let '(idx, v) := st in
  if (c >=? run_code v) && (c <? u32 (run_code v + run_len v)) then Some (inr (idx, v))
  else v ← rd case_conv_table1 (idx + 1); Some (inl (idx + 1, v)).

(** The state of the conversion loop: current run, pending interval, result. *)
Record canon := Canon { cn_idx : Z; cn_v : Z; d_start : Z; d_end : Z; cr_result : charrange }.

(** One character: its image extends the pending interval or starts a new
    one.  The status of [cr_add_interval] is not looked at. *)
Definition canon_char (is_unicode : bool) (c : Z) (s : canon) : option canon :=
  '(idx, v) ← loop (length case_conv_table1) (advance_body c) (cn_idx s, cn_v s);
  d ← lre_case_folding_entry c idx v is_unicode;
  if d_start s =? u32 (-1) then Some (Canon idx v d (u32 (d + 1)) (cr_result s))
  else if d_end s =? d then Some (Canon idx v (d_start s) (u32 (d_end s + 1)) (cr_result s))
  else
    '(_, cr) ← cr_add_interval realloc_func (cr_result s) (d_start s) (d_end s);
    Some (Canon idx v d (u32 (d + 1)) cr).

Definition canon_range_body (is_unicode : bool) (end_ : Z) (st : Z * canon) : option ((Z * canon) + canon) :=
  let '(c, s) := st in
  if c <? end_ then s ← canon_char is_unicode c s; Some (inl (c + 1, s)) else Some (inr s).

Definition canon_inter_body (is_unicode : bool) (inter : charrange) (st : Z * canon) : option ((Z * canon) + canon) :=
  let '(i, s) := st in
  if i <? cr_len inter then
    start ← rd (points inter) i;
    end_ ← rd (points inter) (i + 1);
    s ← loop (Z.to_nat (end_ - start) + 1) (canon_range_body is_unicode end_) (start, s);
    Some (inl (i + 2, s))
  else Some (inr s).

Definition cr_regexp_canonicalize (cr : charrange) (is_unicode : bool) : option (Z * charrange) :=
  '(r, cr_mask) ← unicode_case1 cr_init (if is_unicode then CASE_F else CASE_U);
  if negb (r =? 0) then Some (-1, cr) else
  '(r, cr_inter) ← cr_op realloc_func cr_init (points cr_mask) (cr_len cr_mask) (points cr) (cr_len cr) CR_OP_INTER;
  if negb (r =? 0) then Some (-1, cr) else
  '(r, cr_mask) ← cr_invert realloc_func cr_mask;
  if negb (r =? 0) then Some (-1, cr) else
  '(r, cr_sub) ← cr_op realloc_func cr_init (points cr_mask) (cr_len cr_mask) (points cr) (cr_len cr) CR_OP_INTER;
  if negb (r =? 0) then Some (-1, cr) else
  v ← rd case_conv_table1 0;
  s ← loop (Z.to_nat (cr_len cr_inter) + 1) (canon_inter_body is_unicode cr_inter)
        (0, Canon 0 v (u32 (-1)) (u32 (-1)) cr_init);
  '(r, result) ← (if negb (d_start s =? u32 (-1))
                  then cr_add_interval realloc_func (cr_result s) (d_start s) (d_end s)
                  else Some (0, cr_result s));
  if negb (r =? 0) then Some (-1, cr) else
  result ← cr_sort_and_remove_overlap result;
  cr_op realloc_func (CharRange 0 (cr_size cr) (points cr))
    (points result) (cr_len result) (points cr_sub) (cr_len cr_sub) CR_OP_UNION.
End ops.

(** A [realloc] that never fails. *)
Definition realloc_total : realloc_t := fun b n => Some (take (Z.to_nat n) (b ++ replicate (Z.to_nat n) 0)).

#[export] Instance realloc_total_laws : ReallocLaws realloc_total.
Proof.
  split; unfold realloc_total; intros; simplify_eq.
  - unfold zlen. rewrite length_take, length_app, length_replicate. lia.
  - rewrite !rd_lookup by lia. rewrite lookup_take_lt by lia. apply lookup_app_l. unfold zlen in *. lia.
Qed.

(** ** [unicode_case1] *)

Definition case1_ivs (case_mask : Z) : list (Z * Z) := concat (case1_run case_mask <$> case_conv_table1).

Lemma bounds_app s s' : bounds (s ++ s') = bounds s ++ bounds s'.
Proof. induction s as [|[a b] s IH]; [done|]. simpl. by rewrite IH. Qed.

Section case1.
Context (realloc_func : realloc_t) `{!ReallocLaws realloc_func} (B : Z) (HB : B <= 2 ^ 29).

Definition added (cr : charrange) (l : list (Z * Z)) (x : Z * charrange) : Prop :=
  cr_ok B x.2 /\ ((x.1 = -1 /\ oom realloc_func) \/ (x.1 = 0 /\ pts x.2 = pts cr ++ bounds l)).

Lemma add_intervals_spec cr l :
  cr_ok B cr -> cr_len cr + 2 * zlen l <= B -> wp (add_intervals realloc_func cr l) (added cr l).
Proof.
  revert cr. induction l as [|[c1 c2] l IH]; intros cr Hok Hl; cbn [add_intervals].
  - simpl. split; [done|right]. simpl. by rewrite app_nil_r.
  - rewrite zlen_cons in Hl. pose proof (zlen_nonneg l). wp_step.
    eapply wp_mono; [apply cr_add_interval_spec; [done|done|done|lia]|].
    intros [r cr'] [Hok' Hr]; simpl in *. destruct Hr as [(-> & ? & ?)|(-> & Hp)]; simpl.
    + split; [done|by left].
    + assert (cr_len cr' = cr_len cr + 2) as Hl'.
      { rewrite <- (cr_ok_pts_zlen _ _ Hok'), Hp, zlen_app, (cr_ok_pts_zlen _ _ Hok). done. }
      eapply wp_mono; [apply IH; [done|lia]|]. intros [r cr2] [Hok2 Hr2]; simpl in *.
      split; [done|]. simpl. destruct Hr2 as [?|[? Hp2]]; [by left|right]. split; [done|].
      rewrite Hp2, Hp. by rewrite <- app_assoc.
Qed.

Lemma case1_loop_spec cr m table :
  cr_ok B cr -> cr_len cr + 2 * zlen (concat (case1_run m <$> table)) <= B ->
  wp (case1_loop realloc_func cr m table) (added cr (concat (case1_run m <$> table))).
Proof.
  revert cr. induction table as [|v table IH]; intros cr Hok Hl; cbn [case1_loop fmap list_fmap concat] in *.
  - simpl. split; [done|right]. simpl. by rewrite app_nil_r.
  - change (list_fmap Z (list (Z * Z)) (case1_run m) table) with (case1_run m <$> table) in *.
    rewrite zlen_app in Hl. pose proof (zlen_nonneg (concat (case1_run m <$> table))). wp_step.
    eapply wp_mono; [apply add_intervals_spec; [done|lia]|].
    intros [r cr'] [Hok' Hr]; simpl in *. destruct Hr as [[-> ?]|[-> Hp]]; simpl.
    + split; [done|by left].
    + assert (cr_len cr' = cr_len cr + 2 * zlen (case1_run m v)) as Hl'.
      { rewrite <- (cr_ok_pts_zlen _ _ Hok'), Hp, zlen_app, (cr_ok_pts_zlen _ _ Hok), zlen_bounds. done. }
      eapply wp_mono; [apply IH; [done|lia]|]. intros [r cr2] [Hok2 Hr2]; simpl in *.
      split; [done|]. simpl. destruct Hr2 as [?|[? Hp2]]; [by left|right]. split; [done|].
      rewrite Hp2, Hp, bounds_app. by rewrite <- app_assoc.
Qed.
End case1.

(** Facts about the sets, evaluated on the table. *)
Definition case_masks : list Z := [1; 2; 3; 4; 5; 6; 7].

(** Some conversion selected by [m] modifies [c]. *)
Definition modified (m c : Z) : bool :=
  existsb (fun t => Z.testbit m t && negb (bool_decide (lre_case_conv c t = Some [c]))) conv_types.

Fixpoint sortedb (l : list Z) : bool :=
  match l with [] => true | x :: l => forallb (Z.leb x) l && sortedb l end.

Lemma sortedb_sorted l : sortedb l = true -> StronglySorted Z.le l.
Proof.
  induction l as [|x l IH]; simpl; intros H; constructor; zbool; [by apply IH|].
  apply Forall_forall. intros y Hy. rewrite forallb_forall in H. by apply Z.leb_le, H, list_elem_of_In.
Qed.

(** Some conversion selected by [m] modifies [c], by the table entry. *)
Definition modified_entry (m c idx v : Z) : bool :=
  existsb (fun t => Z.testbit m t && negb (bool_decide (lre_case_conv_entry c t idx v = Some [c]))) conv_types.

Definition run_ok (m v : Z) : bool :=
  let s := case1_run m v in
  sortedb (bounds s) && forallb (fun x => (run_code v <=? x) && (x <=? run_end v)) (bounds s) && (zlen s <=? 64).

Lemma run_check : forallb (fun m => forallb (run_ok m) case_conv_table1) case_masks = true.
Proof. vm_cast_no_check (@eq_refl bool true). Qed.

Lemma modified_check :
  all_runs (fun c idx v => forallb (fun m =>
    Bool.eqb (in_ivs (case1_run m v) c) (modified_entry m c idx v)) case_masks) = true.
Proof. vm_cast_no_check (@eq_refl bool true). Qed.

(** Characters outside the set of a conversion are fixed by the matching
    canonicalization. *)
Lemma fixed_check :
  all_runs (fun c idx v =>
    (in_ivs (case1_run CASE_F v) c || bool_decide (lre_case_folding_entry c idx v true = Some c)) &&
    (in_ivs (case1_run CASE_U v) c || bool_decide (lre_case_folding_entry c idx v false = Some c))) = true.
Proof. vm_cast_no_check (@eq_refl bool true). Qed.

Lemma elem_bounds s a b : (a, b) ∈ s -> a ∈ bounds s /\ b ∈ bounds s.
Proof.
  induction s as [|[x y] s IH]; [by intros ?%not_elem_of_nil|]. intros [Heq|Hin]%elem_of_cons; simpl.
  - simplify_eq. split; set_solver.
  - destruct (IH Hin). split; set_solver.
Qed.

Lemma in_ivs_concat ls c : in_ivs (concat ls) c = existsb (fun s => in_ivs s c) ls.
Proof. induction ls as [|s ls IH]; [done|]. simpl. by rewrite in_ivs_app, IH. Qed.

Lemma StronglySorted_app (l1 l2 : list Z) :
  StronglySorted Z.le l1 -> StronglySorted Z.le l2 -> (forall x y, x ∈ l1 -> y ∈ l2 -> x <= y) ->
  StronglySorted Z.le (l1 ++ l2).
Proof.
  induction 1 as [|x l1 _ IH Hx]; intros H2 H; simpl; [done|]. constructor.
  - apply IH; [done|]. intros. apply H; [by right|done].
  - apply Forall_app. split; [done|]. apply Forall_forall. intros y Hy. apply H; [by left|done].
Qed.

Section mask.
Context (m : Z) (Hm : m ∈ case_masks).

Lemma run_ok_elem v : v ∈ case_conv_table1 -> run_ok m v = true.
Proof.
  intros Hv. pose proof run_check as Hk. rewrite forallb_forall in Hk.
  specialize (Hk m ltac:(by apply list_elem_of_In)). cbv beta in Hk. rewrite forallb_forall in Hk.
  by apply Hk, list_elem_of_In.
Qed.

Lemma run_ok_bounds v x : run_ok m v = true -> x ∈ bounds (case1_run m v) -> run_code v <= x <= run_end v.
Proof.
  unfold run_ok. intros Hk Hx. zbool. rewrite forallb_forall in H1. apply list_elem_of_In in Hx.
  specialize (H1 x Hx). cbv beta in H1. zbool. lia.
Qed.

Lemma run_ok_in v c : run_ok m v = true -> in_ivs (case1_run m v) c = true -> run_code v <= c < run_end v.
Proof.
  intros Hk Hin. apply existsb_exists in Hin as ([a b] & Hab & Hc). zbool.
  apply list_elem_of_In, elem_bounds in Hab as [Ha Hb].
  pose proof (run_ok_bounds v a Hk Ha). pose proof (run_ok_bounds v b Hk Hb). lia.
Qed.

Lemma rd_elem {A} (l : list A) i x : rd l i = Some x -> x ∈ l.
Proof. intros Hx. pose proof (rd_Some_range _ _ _ Hx). rewrite rd_lookup in Hx by lia. by eapply list_elem_of_lookup_2. Qed.

(** Only the run of [c] contributes to the membership of [c]. *)
Lemma case1_in c :
  in_ivs (case1_ivs m) c = match run_of c with Some (_, v) => in_ivs (case1_run m v) c | None => false end.
Proof.
  unfold case1_ivs. rewrite in_ivs_concat.
  assert (forall v, v ∈ case_conv_table1 -> in_ivs (case1_run m v) c = true ->
            exists idx, run_of c = Some (idx, v)) as Hrun.
  { intros v Hv Hin. pose proof (run_ok_in v c (run_ok_elem v Hv) Hin) as Hc.
    apply list_elem_of_lookup in Hv as [k Hk]. exists (Z.of_nat k).
    apply run_of_intro; [|done]. rewrite rd_lookup by lia. by rewrite Nat2Z.id. }
  apply eq_true_iff_eq. rewrite existsb_exists. split.
  - intros (s & Hs & Hin). apply list_elem_of_In, list_elem_of_fmap in Hs as (v & -> & Hv).
    destruct (Hrun v Hv Hin) as [idx ->]. done.
  - destruct (run_of c) as [[idx v]|] eqn:Hr; [|done]. intros Hin. exists (case1_run m v). split; [|done].
    apply list_elem_of_In, list_elem_of_fmap. exists v. split; [done|].
    destruct (run_of_Some _ _ _ Hr) as [Hv _]. by eapply rd_elem.
Qed.

Lemma case1_bounds_runs l x :
  (forall v, v ∈ l -> run_ok m v = true) -> x ∈ bounds (concat (case1_run m <$> l)) ->
  exists v, v ∈ l /\ run_code v <= x <= run_end v.
Proof.
  induction l as [|v l IH]; intros Hok Hx; [by apply not_elem_of_nil in Hx|].
  cbn [fmap list_fmap concat] in Hx. rewrite bounds_app in Hx. apply elem_of_app in Hx as [Hx|Hx].
  - exists v. split; [by left|]. apply run_ok_bounds; [apply Hok; by left|done].
  - destruct IH as (w & ? & ?); [intros; apply Hok; by right|done|]. exists w. split; [by right|done].
Qed.

Lemma case1_sorted l :
  (forall v, v ∈ l -> run_ok m v = true) -> table_sorted run_code run_len 0x20000 l = true ->
  StronglySorted Z.le (bounds (concat (case1_run m <$> l))) /\
  zlen (concat (case1_run m <$> l)) <= 64 * zlen l.
Proof.
  induction l as [|v l IH]; intros Hok Hs; [split; [constructor|done]|].
  cbn [fmap list_fmap concat]. change (list_fmap Z (list (Z * Z)) (case1_run m) l) with (case1_run m <$> l).
  assert (run_ok m v = true) as Hv by (apply Hok; by left).
  cbn [table_sorted] in Hs. apply andb_true_iff in Hs as [Hs Hs']. apply andb_true_iff in Hs as [Hs Hall].
  rewrite forallb_forall in Hall.
  destruct IH as [IHs IHl]; [intros; apply Hok; by right|done|].
  rewrite bounds_app, zlen_app, zlen_cons. split.
  - apply StronglySorted_app; [| done |].
    + unfold run_ok in Hv. zbool. by apply sortedb_sorted.
    + intros x y Hx Hy. pose proof (run_ok_bounds v x Hv Hx).
      apply case1_bounds_runs in Hy as (w & Hw & ?); [|intros; apply Hok; by right].
      apply list_elem_of_In, Hall in Hw. cbv beta in Hw. zbool. unfold run_end in *. lia.
  - unfold run_ok in Hv. zbool. lia.
Qed.

Lemma case1_ivs_facts :
  sorted_pts (bounds (case1_ivs m)) /\ zlen (case1_ivs m) <= 23680 /\
  Forall (fun p => 0 <= p <= UINT32_MAX) (bounds (case1_ivs m)).
Proof.
  destruct (case1_sorted case_conv_table1 run_ok_elem table1_sorted) as [Hs Hl]. rewrite zlen_table1 in Hl.
  split_and!; [split; [done|]|done|].
  - rewrite zlen_bounds. by rewrite Z.even_mul.
  - apply Forall_forall. intros x Hx. apply case1_bounds_runs in Hx as (v & Hv & ?); [|apply run_ok_elem].
    apply list_elem_of_lookup in Hv as [k Hk].
    assert (rd case_conv_table1 (Z.of_nat k) = Some v) as Hr by (rewrite rd_lookup, Nat2Z.id by lia; done).
    pose proof (run_rd_range _ _ Hr). unfold UINT32_MAX. lia.
Qed.

Lemma case1_in_modified c : 0 <= c -> in_ivs (case1_ivs m) c = modified m c.
Proof.
  intros Hc. rewrite case1_in. destruct (run_of c) as [[idx v]|] eqn:Hr.
  - destruct (run_of_Some _ _ _ Hr) as [Hv Hcv].
    pose proof (all_runs_rd _ _ _ _ modified_check Hv Hcv) as Hk. cbv beta in Hk. rewrite forallb_forall in Hk.
    specialize (Hk m ltac:(by apply list_elem_of_In)). apply Bool.eqb_prop in Hk. rewrite Hk.
    assert (forall t, t ∈ conv_types -> lre_case_conv c t = lre_case_conv_entry c t idx v) as Heq.
    { intros t Ht. rewrite case_conv_lookup by done. unfold case_conv_table. by rewrite Hr. }
    unfold modified, modified_entry, conv_types. cbn [existsb].
    rewrite !Heq by (unfold conv_types; set_solver). done.
  - symmetry. unfold modified, conv_types. cbn [existsb].
    rewrite !case_conv_lookup by (done || unfold conv_types; set_solver). unfold case_conv_table. rewrite Hr.
    rewrite !bool_decide_eq_true_2 by done. by rewrite !andb_false_r.
Qed.
End mask.

Section canon.
Context (realloc_func : realloc_t) `{!ReallocLaws realloc_func} (B : Z) (HB : B <= 2 ^ 29) (HB0 : 2 ^ 20 <= B).

Lemma unicode_case1_spec cr m :
  m ∈ case_masks -> cr_ok B cr -> cr_len cr = 0 ->
  wp (unicode_case1 realloc_func cr m) (added realloc_func B cr (case1_ivs m)).
Proof.
  intros Hm Hok Hl. unfold unicode_case1.
  replace (m =? 0) with false by (unfold case_masks in Hm; set_solver).
  apply case1_loop_spec; [done|done|done|].
  destruct (case1_ivs_facts m Hm) as (_ & ? & _). fold (case1_ivs m). lia.
Qed.

(** The canonical form of [c], for [c] in the table. *)
Definition canon_mask (u : bool) : Z := if u then CASE_F else CASE_U.

Lemma canon_mask_in u : canon_mask u ∈ case_masks.
Proof. destruct u; unfold canon_mask, case_masks, CASE_F, CASE_U; set_solver. Qed.

Lemma canon_fixed u c : 0 <= c -> in_ivs (case1_ivs (canon_mask u)) c = false -> lre_canonicalize c u = Some c.
Proof.
  intros Hc Hin. rewrite case1_in in Hin by apply canon_mask_in.
  rewrite canonicalize_lookup by done. unfold case_folding_table.
  destruct (run_of c) as [[idx v]|] eqn:Hr; [|done].
  destruct (run_of_Some _ _ _ Hr) as [Hv Hcv].
  pose proof (all_runs_rd _ _ _ _ fixed_check Hv Hcv) as Hk. cbv beta in Hk.
  apply andb_true_iff in Hk as [Hk1 Hk2]. destruct u; simpl in Hin.
  - rewrite Hin in Hk1. by eapply bool_decide_eq_true_1.
  - rewrite Hin in Hk2. by eapply bool_decide_eq_true_1.
Qed.

(** The search of the run of [c] from an earlier run. *)
Lemma advance_spec c idx v j w :
  rd case_conv_table1 idx = Some v -> (idx = 0 \/ run_code v <= c) -> run_of c = Some (j, w) ->
  wp (loop (length case_conv_table1) (advance_body c) (idx, v)) (fun '(idx', v') => idx' = j /\ v' = w).
Proof.
  intros Hv Hle Hrun. destruct (run_of_Some _ _ _ Hrun) as [Hw Hc].
  assert (forall i x, rd case_conv_table1 i = Some x -> i < j -> run_end x <= run_code w) as Hlow
    by (intros; by eapply (run_rd_lt i j)).
  assert (idx <= j) as Hij.
  { destruct (decide (j < idx)); [|lia]. pose proof (rd_Some_range _ _ _ Hw). destruct Hle as [->|Hle]; [lia|].
    pose proof (run_rd_lt j idx w v ltac:(lia) Hw Hv). lia. }
  pose proof (rd_Some_range _ _ _ Hv) as Hr. pose proof (rd_Some_range _ _ _ Hw) as Hrj.
  apply (wp_loop (fun '(i, x) => rd case_conv_table1 i = Some x /\ 0 <= i <= j) (fun '(i, _) => Z.to_nat (j - i))).
  - split; [done|lia].
  - unfold zlen in Hrj. lia.
  - intros [i x] (Hx & Hi). unfold advance_body.
    destruct (run_rd_range _ _ Hx) as [? Hend].
    change (run_code x + run_len x) with (run_end x). rewrite uwrap_id by (unfold in_u; lia). wp_step.
    + wp_step. assert (Some (i, x) = Some (j, w)) as Heq.
      { rewrite <- Hrun. symmetry. apply run_of_intro; [done|lia]. }
      by simplify_eq.
    + assert (i <> j) by (intros ->; rewrite Hw in Hx; simplify_eq; lia).
      wp_step. apply wp_rd; [lia|]. intros y Hy. wp_step. split; [|lia]. split; [done|lia].
    + assert (i <> j) by (intros ->; rewrite Hw in Hx; simplify_eq; unfold run_end in *; lia).
      wp_step. apply wp_rd; [lia|]. intros y Hy. wp_step. split; [|lia]. split; [done|lia].
Qed.

(** What the intervals collected so far stand for. *)
Definition pending (s : canon) (d : Z) : bool :=
  negb (d_start s =? u32 (-1)) && ((d_start s <=? d) && (d <? d_end s)).

Definition collected (s : canon) (d : Z) : bool := set_of (pts (cr_result s)) d || pending s d.

(** Before the character [c]: [seen] tells the characters already done. *)
Definition canon_inv (u : bool) (seen : Z -> Prop) (c : Z) (s : canon) : Prop :=
  rd case_conv_table1 (cn_idx s) = Some (cn_v s) /\ (cn_idx s = 0 \/ run_code (cn_v s) <= c) /\
  (d_start s = u32 (-1) \/ 0 <= d_start s < d_end s /\ d_end s <= 0x20000) /\
  cr_ok B (cr_result s) /\ Z.even (cr_len (cr_result s)) = true /\ 0 <= cr_len (cr_result s) <= 2 * c /\
  Forall (fun p => p.1 <= p.2) (intervals (pts (cr_result s))) /\
  (oom realloc_func \/ forall d, collected s d = true <-> exists c', seen c' /\ lre_canonicalize c' u = Some d).

Lemma intervals_app_pair l a b : Z.even (zlen l) = true -> intervals (l ++ [a; b]) = intervals l ++ [(a, b)].
Proof.
  induction l as [l IH] using (induction_ltof1 _ length). intros He. destruct l as [|x [|y l]]; [done|done|].
  cbn [intervals app]. rewrite IH; [done|unfold ltof; simpl; lia|].
  rewrite !zlen_cons, <- Z.add_assoc, Z.even_add in He. by destruct (Z.even (zlen l)).
Qed.

Lemma set_of_app_pair l a b d : Z.even (zlen l) = true ->
  set_of (l ++ [a; b]) d = set_of l d || ((a <=? d) && (d <? b)).
Proof. intros. unfold set_of. rewrite intervals_app_pair, in_ivs_app by done. simpl. by rewrite orb_false_r. Qed.

(** The new intervals cover the old ones and [d]. *)
Lemma canon_inv_step u seen c s s' d :
  canon_inv u seen c s -> lre_canonicalize c u = Some d -> 0 <= c ->
  rd case_conv_table1 (cn_idx s') = Some (cn_v s') -> run_code (cn_v s') <= c ->
  0 <= d_start s' < d_end s' -> d_end s' <= 0x20000 ->
  cr_ok B (cr_result s') -> Z.even (cr_len (cr_result s')) = true ->
  0 <= cr_len (cr_result s') <= cr_len (cr_result s) + 2 ->
  Forall (fun p => p.1 <= p.2) (intervals (pts (cr_result s'))) ->
  (oom realloc_func \/ forall d', collected s' d' = collected s d' || (d' =? d)) ->
  canon_inv u (fun c' => seen c' \/ c' = c) (c + 1) s'.
Proof.
  intros (_ & _ & _ & _ & _ & Hl & _ & Hsem) Hd Hc Hr Hrc Hds Hde Hok He Hlen Hle Hcol.
  split_and!; try done; try lia.
  destruct Hcol as [?|Hcol]; [by left|]. destruct Hsem as [?|Hsem]; [by left|]. right.
  intros d'. rewrite Hcol, orb_true_iff, Hsem. split.
  - intros [(c' & ? & ?)|Heq]; [exists c'; naive_solver|]. zbool. subst. exists c. naive_solver.
  - intros (c' & [?| ->] & Hc'); [left; by exists c'|right]. rewrite Hd in Hc'. simplify_eq. lia.
Qed.

Lemma canon_char_spec u seen c s j w :
  canon_inv u seen c s -> 0 <= c -> run_of c = Some (j, w) ->
  wp (canon_char realloc_func u c s) (canon_inv u (fun c' => seen c' \/ c' = c) (c + 1)).
Proof.
  intros Hinv Hc Hrun. pose proof Hinv as (Hr & Hrc & Hds & Hok & He & Hl & Hle & _).
  destruct (run_of_Some _ _ _ Hrun) as [Hw Hcw].
  pose proof (run_rd_range _ _ Hw) as [_ Hend].
  destruct (canonicalize_fixpoint c u Hc) as (d & Hd & Hdr & _).
  assert (0 <= d < 0x20000) as Hdd by (destruct Hdr; lia).
  assert (lre_case_folding_entry c j w u = Some d) as Hfold.
  { rewrite canonicalize_lookup in Hd by done. unfold case_folding_table in Hd. by rewrite Hrun in Hd. }
  unfold canon_char. wp_step. eapply wp_mono; [by eapply advance_spec|]. intros [idx v] [-> ->].
  rewrite Hfold. simpl. change (u32 (-1)) with 4294967295 in *. rewrite uwrap_id by (unfold in_u; lia).
  wp_step; [|destruct Hds as [?|[Hds Hde]]; [done|]; wp_step].
  - wp_step. eapply (canon_inv_step u seen c s _ d); try done; simpl; try lia. right. intros d'.
    unfold collected, pending. simpl. rewrite Hc0. change (u32 (-1)) with 4294967295. simpl.
    replace (d =? 4294967295) with false by lia. simpl. rewrite orb_false_r. f_equal. lia.
  - wp_step. rewrite uwrap_id by (unfold in_u; lia).
    eapply (canon_inv_step u seen c s _ d); try done; simpl; try lia. right. intros d'.
    unfold collected, pending. simpl. change (u32 (-1)) with 4294967295.
    replace (d_start s =? 4294967295) with false by lia. simpl. rewrite <- orb_assoc. f_equal. lia.
  - wp_step. eapply wp_mono; [apply (cr_add_interval_spec realloc_func B HB); [done|lia]|].
    intros [r cr'] [Hok' Hg]; simpl in *.
    assert (cr_len cr' = cr_len (cr_result s) \/ cr_len cr' = cr_len (cr_result s) + 2) as Hl'.
    { rewrite <- (cr_ok_pts_zlen _ _ Hok'), <- (cr_ok_pts_zlen _ _ Hok).
      destruct Hg as [(_ & _ & ->)|[_ ->]]; [by left|right]. by rewrite zlen_app. }
    eapply (canon_inv_step u seen c s _ d); try done; simpl; try lia.
    + destruct Hl' as [-> | ->]; [done|]. by rewrite Z.even_add, He.
    + destruct Hg as [(_ & _ & ->)|[_ ->]]; [done|].
      rewrite intervals_app_pair by (by rewrite (cr_ok_pts_zlen _ _ Hok)).
      apply Forall_app. split; [done|repeat constructor; simpl; lia].
    + destruct Hg as [(_ & ? & _)|[_ Hp]]; [by left|right]. intros d'.
      unfold collected, pending. simpl. rewrite Hp, set_of_app_pair by (by rewrite (cr_ok_pts_zlen _ _ Hok)).
      change (u32 (-1)) with 4294967295. replace (d =? 4294967295) with false by lia.
      replace (d_start s =? 4294967295) with false by lia. simpl. f_equal. lia.
Qed.

Lemma canon_inv_weaken u seen seen' c c' s :
  canon_inv u seen c s -> c <= c' -> (forall x, seen x <-> seen' x) -> canon_inv u seen' c' s.
Proof.
  intros (?&Hrc&?&?&?&?&?&Hsem) Hc Hs. split_and!; try done; try lia.
  destruct Hsem as [?|Hsem]; [by left|right]. intros d. rewrite Hsem. naive_solver.
Qed.

Lemma canon_range_spec u seen start end_ s :
  canon_inv u seen start s -> 0 <= start <= end_ ->
  (forall c, start <= c < end_ -> is_Some (run_of c)) ->
  wp (loop (Z.to_nat (end_ - start) + 1) (canon_range_body realloc_func u end_) (start, s))
    (canon_inv u (fun c' => seen c' \/ start <= c' < end_) end_).
Proof.
  intros Hinv Hse Hruns.
  apply (wp_loop (fun '(c, s) => start <= c <= end_ /\ canon_inv u (fun c' => seen c' \/ start <= c' < c) c s)
    (fun '(c, _) => Z.to_nat (end_ - c))).
  - split; [lia|]. eapply canon_inv_weaken; [exact Hinv|lia|]. intros x. split; [by left|intros [?|?]; [done|lia]].
  - lia.
  - intros [c s1] [Hc Hi]. unfold canon_range_body. wp_step.
    + destruct (Hruns c ltac:(lia)) as [[j w] Hrun]. wp_step.
      eapply wp_mono; [eapply canon_char_spec; [exact Hi|lia|exact Hrun]|]. cbv beta. intros s2 Hi2. wp_step.
      split; [|lia]. split; [lia|]. eapply canon_inv_weaken; [exact Hi2|lia|]. intros x.
      split; [intros [[?|?]|?]; [by left|right; lia|right; lia]|].
      intros [?|?]; [by left; left|]. destruct (decide (x = c)); [by right|left; right; lia].
    + wp_step. by replace end_ with c by lia.
Qed.

Lemma canon_inter_spec u inter s :
  cr_ok B inter -> canonical_pts (pts inter) -> Forall (fun p => 0 <= p) (pts inter) ->
  (forall c, set_of (pts inter) c = true -> is_Some (run_of c)) -> canon_inv u (fun _ => False) 0 s ->
  wp (loop (Z.to_nat (cr_len inter) + 1) (canon_inter_body realloc_func u inter) (0, s)) (fun s' =>
    exists c, canon_inv u (fun c' => set_of (pts inter) c' = true) c s' /\ 0 <= c < 0x40000).
Proof.
  intros Hok Hcan Hpos Hruns Hinv. pose proof (cr_ok_pts_zlen _ _ Hok) as Hz.
  destruct (Hok) as (Hzp & Hl & _). destruct Hcan as [Hsort Hev]. rewrite Hz in Hev.
  assert (forall q, 0 <= q < cr_len inter -> rd (points inter) q = rd (pts inter) q) as Hrd.
  { intros q Hq. unfold pts. by rewrite rd_zslice by lia. }
  apply (wp_loop (fun '(i, s) => 0 <= i <= cr_len inter /\ Z.even i = true /\ exists c, 0 <= c < 0x40000 /\
      (forall q y, i <= q -> rd (pts inter) q = Some y -> c <= y) /\
      canon_inv u (fun c' => set_of (zslice (pts inter) 0 i) c' = true) c s)
    (fun '(i, _) => Z.to_nat (cr_len inter - i))).
  - split_and!; try done; try lia. exists 0. split_and!; try lia.
    + intros q y Hq Hy. rewrite rd_lookup in Hy by lia. by eapply Forall_lookup_1 in Hy.
    + rewrite zslice_nil. eapply canon_inv_weaken; [exact Hinv|lia|]. by intros x.
  - lia.
  - intros [i s1] (Hi & Hei & c & Hc & Hahead & Hci). unfold canon_inter_body. wp_step.
    + pose proof (even_step i (cr_len inter) Hei Hev Hc0) as Hi1.
      rewrite !Hrd by lia. repeat arr_step. rename v into a, v0 into b.
      pose proof (StronglySorted_rd Z.lt _ i (i + 1) a b Hsort ltac:(lia) Hrd0 Hrd1) as Hab.
      pose proof (Hahead i a ltac:(lia) Hrd0) as Hca.
      assert (zslice (pts inter) 0 (i + 2) = zslice (pts inter) 0 i ++ [a; b]) as Hsl
        by (apply zslice_step2; (done || lia)).
      assert (forall x, set_of (zslice (pts inter) 0 (i + 2)) x = set_of (zslice (pts inter) 0 i) x || ((a <=? x) && (x <? b))) as Hset.
      { intros x. rewrite Hsl. apply set_of_app_pair. by rewrite zlen_zslice, Z.sub_0_r by lia. }
      assert (forall x, a <= x < b -> is_Some (run_of x)) as Hrun.
      { intros x Hx. apply Hruns. rewrite set_of_in_pts by (apply canonical_sorted; split; [done|by rewrite Hz]).
        rewrite <- (take_drop (Z.to_nat (i + 2)) (pts inter)), in_pts_app.
        rewrite (in_pts_below (drop _ _)).
        - rewrite xorb_false_r. replace (take (Z.to_nat (i + 2)) (pts inter)) with (zslice (pts inter) 0 (i + 2))
            by (unfold zslice; simpl; by rewrite Z.sub_0_r).
          rewrite Hsl, in_pts_app, (in_pts_above (zslice (pts inter) 0 i)).
          + rewrite zlen_zslice, Z.sub_0_r by lia. rewrite <- Z.negb_even, Hei. simpl.
            replace (a <=? x) with true by lia. by replace (b <=? x) with false by lia.
          + apply Forall_zslice_rd; [lia|]. intros q y Hq Hy.
            pose proof (StronglySorted_rd Z.lt _ q i y a Hsort ltac:(lia) Hy Hrd0). lia.
        - apply Forall_lookup_2. intros k y Hk. rewrite lookup_drop in Hk.
          assert (rd (pts inter) (i + 2 + Z.of_nat k) = Some y) as Hy
            by (rewrite rd_lookup by lia; rewrite <- Hk; f_equal; lia).
          pose proof (StronglySorted_rd Z.lt _ (i + 1) (i + 2 + Z.of_nat k) b y Hsort ltac:(lia) Hrd1 Hy). lia. }
      eapply wp_mono; [eapply (canon_range_spec u _ a b)|].
      * eapply canon_inv_weaken; [exact Hci|lia|]. by intros x.
      * lia.
      * exact Hrun.
      * cbv beta. intros s2 Hi2. wp_step. pose proof (rd_Some_range _ _ _ Hrd1) as Hri. rewrite Hz in Hri.
        split; [|lia]. split_and!; try lia; [by rewrite Z.even_add, Hei|].
        exists b. split_and!; [lia| | |].
        { destruct (Hrun (b - 1) ltac:(lia)) as [[j w] Hj]. destruct (run_of_Some _ _ _ Hj) as [Hw Hbw].
          pose proof (run_rd_range _ _ Hw). lia. }
        { intros q y Hq Hy. pose proof (StronglySorted_rd Z.lt _ (i + 1) q b y Hsort ltac:(lia) Hrd1 Hy). lia. }
        eapply canon_inv_weaken; [exact Hi2|lia|]. intros x. rewrite Hset. simpl.
        rewrite orb_true_iff, andb_true_iff, Z.leb_le, Z.ltb_lt. done.
    + wp_step. exists c. split; [|done]. replace i with (cr_len inter) in Hci by lia.
      rewrite <- Hz, zslice_full in Hci. done.
Qed.

(** The interval still pending at the end of the loop. *)
Lemma canon_flush u seen c s :
  canon_inv u seen c s -> 0 <= c < 0x40000 ->
  wp (if negb (d_start s =? u32 (-1)) then cr_add_interval realloc_func (cr_result s) (d_start s) (d_end s)
      else Some (0, cr_result s))
    (fun '(r, cr') => cr_ok B cr' /\ ((r = -1 /\ oom realloc_func) \/
      (r = 0 /\ Z.even (cr_len cr') = true /\ cr_len cr' <= 0x80002 /\
       Forall (fun p => p.1 <= p.2) (intervals (pts cr')) /\
       (oom realloc_func \/ forall d, set_of (pts cr') d = true <-> exists c', seen c' /\ lre_canonicalize c' u = Some d)))).
Proof.
  intros (_ & _ & Hds & Hok & He & Hl & Hle & Hsem) Hc. wp_step.
  - destruct Hds as [?|[Hds Hde]]; [done|].
    eapply wp_mono; [apply (cr_add_interval_spec realloc_func B HB); [done|lia]|].
    intros [r cr'] [Hok' Hg]; simpl in *. split; [done|]. destruct Hg as [(-> & ? & _)|[-> Hp]]; [by left|right].
    assert (zlen (pts (cr_result s)) = cr_len (cr_result s)) as Hz by (by apply (cr_ok_pts_zlen B)).
    assert (cr_len cr' = cr_len (cr_result s) + 2) as Hl'.
    { rewrite <- (cr_ok_pts_zlen _ _ Hok'), Hp, zlen_app, Hz. done. }
    split_and!; [done|rewrite Hl'; by rewrite Z.even_add, He|lia| |].
    + rewrite Hp, intervals_app_pair by (by rewrite Hz). apply Forall_app.
      split; [done|repeat constructor; simpl; lia].
    + destruct Hsem as [?|Hsem]; [by left|right]. intros d. rewrite <- Hsem.
      rewrite Hp, set_of_app_pair by (by rewrite Hz). unfold collected, pending.
      rewrite (proj2 (Z.eqb_neq _ _) Hc0). done.
  - wp_step. split; [done|right]. split_and!; try done; try lia.
    destruct Hsem as [?|Hsem]; [by left|right]. intros d. rewrite <- Hsem. unfold collected, pending.
    rewrite (proj2 (Z.eqb_eq _ _) Hc0). simpl. by rewrite orb_false_r.
Qed.

Lemma canon_start u v : rd case_conv_table1 0 = Some v ->
  canon_inv u (fun _ => False) 0 (Canon 0 v (u32 (-1)) (u32 (-1)) cr_init).
Proof.
  intros Hv. unfold canon_inv. cbn [cn_idx cn_v d_start d_end cr_result].
  split_and!; try done; try (by left); try lia.
  - apply cr_init_ok. lia.
  - right. intros d. unfold collected, pending. simpl. split; [done|by intros (c & [] & _)].
Qed.

(** Points between 0 and [UINT32_MAX] denote code points in that range. *)
Lemma set_of_range l c :
  Forall (fun p => 0 <= p <= UINT32_MAX) l -> set_of l c = true -> 0 <= c < UINT32_MAX.
Proof.
  intros Hl Hin. unfold set_of in Hin. apply existsb_exists in Hin as ([a b] & Hab & Hc). zbool.
  assert (forall l, Forall (fun p => 0 <= p <= UINT32_MAX) l -> (a, b) ∈ intervals l -> 0 <= a /\ b <= UINT32_MAX) as Hbd.
  { clear. induction l as [l IH] using (induction_ltof1 _ length). intros Hl Hin.
    destruct l as [|x [|y l]]; [by apply not_elem_of_nil in Hin..|]. cbn [intervals] in Hin.
    apply Forall_cons in Hl as [Hx Hl]. apply Forall_cons in Hl as [Hy Hl].
    apply elem_of_cons in Hin as [Heq|Hin]; [simplify_eq; lia|].
    by apply (IH l); [unfold ltof; simpl; lia|..]. }
  destruct (Hbd l Hl ltac:(by apply list_elem_of_In)). lia.
Qed.

Lemma canon_image u cr inter mask sub result final :
  Forall (fun p => 0 <= p <= UINT32_MAX) (pts cr) ->
  (forall c, set_of inter c = in_ivs (case1_ivs (canon_mask u)) c && set_of (pts cr) c) ->
  (forall c, 0 <= c < UINT32_MAX -> set_of mask c = negb (in_ivs (case1_ivs (canon_mask u)) c)) ->
  (forall c, set_of sub c = set_of mask c && set_of (pts cr) c) ->
  (forall d, set_of result d = true <-> exists c', set_of inter c' = true /\ lre_canonicalize c' u = Some d) ->
  (forall d, set_of final d = set_of result d || set_of sub d) ->
  forall d, set_of final d = true <-> exists c, set_of (pts cr) c = true /\ lre_canonicalize c u = Some d.
Proof.
  intros Hrng Hinter Hmask Hsub Hres Hfin d. rewrite Hfin, orb_true_iff, Hres. split.
  - intros [(c & Hc & Hd)|Hd].
    + exists c. rewrite Hinter in Hc. zbool. done.
    + rewrite Hsub in Hd. zbool. exists d. split; [done|].
      pose proof (set_of_range _ _ Hrng H0). rewrite Hmask in H by done. zbool.
      apply canon_fixed; [lia|done].
  - intros (c & Hc & Hd). pose proof (set_of_range _ _ Hrng Hc) as Hcr.
    destruct (in_ivs (case1_ivs (canon_mask u)) c) eqn:Hin.
    + left. exists c. by rewrite Hinter, Hin, Hc.
    + right. rewrite canon_fixed in Hd by (done || lia). simplify_eq. rewrite Hsub, Hmask, Hin, Hc by done. done.
Qed.

Lemma intervals_bounds l : intervals (bounds l) = l.
Proof. induction l as [|[x y] l IH]; [done|]. simpl. by rewrite IH. Qed.

(** The mask as a range. *)
Lemma canon_mask_spec u :
  wp (unicode_case1 realloc_func cr_init (canon_mask u)) (fun '(r, cm) => cr_ok B cm /\
    ((r = -1 /\ oom realloc_func) \/ (r = 0 /\ sorted_pts (pts cm) /\ cr_len cm <= 47360 /\
      Forall (fun p => 0 <= p <= UINT32_MAX) (pts cm) /\
      forall c, set_of (pts cm) c = in_ivs (case1_ivs (canon_mask u)) c))).
Proof.
  destruct (case1_ivs_facts _ (canon_mask_in u)) as (Hms & Hml & Hmr).
  eapply wp_mono; [apply (unicode_case1_spec cr_init); [apply canon_mask_in|apply cr_init_ok; lia|done]|].
  intros [r cm] [Hokm Hr]; simpl in Hokm, Hr. split; [done|]. destruct Hr as [?|[-> Hpm]]; [by left|right].
  change (pts cm = bounds (case1_ivs (canon_mask u))) in Hpm.
  rewrite Hpm. split_and!; try done.
  - rewrite <- (cr_ok_pts_zlen _ _ Hokm), Hpm, zlen_bounds. lia.
  - intros c. unfold set_of. by rewrite intervals_bounds.
Qed.

Lemma canon_spec cr u :
  cr_ok B cr -> cr_len cr + 2 ^ 20 <= B -> sorted_pts (pts cr) ->
  Forall (fun p => 0 <= p <= UINT32_MAX) (pts cr) ->
  wp (cr_regexp_canonicalize realloc_func cr u) (fun '(r, cr') => cr_ok B cr' /\
    (oom realloc_func \/ (r = 0 /\ canonical_pts (pts cr') /\
      forall d, set_of (pts cr') d = true <-> exists c, set_of (pts cr) c = true /\ lre_canonicalize c u = Some d))).
Proof.
  intros Hok Hlen Hsort Hrange. assert (cr_ok B cr_init) as Hinit by (apply cr_init_ok; lia).
  unfold cr_regexp_canonicalize. fold (canon_mask u).
  wp_step. eapply wp_mono; [apply canon_mask_spec|].
  intros [r cm] [Hokm [[-> ?]|(-> & Hms & Hlm & Hmr & Hsm)]]; simpl; [by split; [|left]|].
  wp_step. eapply wp_mono; [by apply (cr_op_sets realloc_func B HB _ cm cr _ B B); try lia|].
  intros [r ci] [Hoki [[-> ?]|(-> & Hcan & Hli & Hini & HPi)]]; simpl; [by split; [|left]|].
  wp_step. eapply wp_mono; [apply (cr_invert_sets realloc_func B HB cm); (done || lia)|].
  intros [r cn] [Hokn [(-> & ? & _)|(-> & Hcann & Hln & Hinn & _)]]; simpl; [by split; [|left]|].
  wp_step. eapply wp_mono; [apply (cr_op_sets realloc_func B HB _ cn cr _ B B); (done || lia || by apply canonical_sorted)|].
  intros [r cs] [Hoks [[-> ?]|(-> & Hcans & Hls & Hins & _)]]; simpl; [by split; [|left]|].
  destruct (rd_is_Some case_conv_table1 0 ltac:(rewrite zlen_table1; lia)) as [v Hv]. rewrite Hv. simpl.
  wp_step. eapply wp_mono; [apply (canon_inter_spec u ci); try done|].
  { apply (HPi (fun p => 0 <= p)); (eapply Forall_impl; [eassumption|simpl; lia]). }
  { intros c Hc. rewrite Hini, Hsm in Hc. simpl in Hc. zbool. rewrite case1_in in H by apply canon_mask_in.
    by destruct (run_of c). }
  { by apply canon_start. }
  intros s (c & Hinv & Hc). wp_step. eapply wp_mono; [by apply (canon_flush u _ c s Hinv)|].
  intros [r cf] [Hokf [[-> ?]|(-> & Hef & Hlf & Hlef & Hsf)]]; simpl; [by split; [|left]|].
  wp_step. eapply wp_mono; [by apply (cr_sort_and_remove_overlap_sets B)|]. cbv beta.
  intros cz (Hokz & Hsz & Hlz & Hinz).
  assert (cr_ok B (CharRange 0 (cr_size cr) (points cr))) as Hok0 by (destruct Hok as (?&?&?); unfold cr_ok; simpl; lia).
  eapply wp_mono; [apply (cr_op_sets realloc_func B HB _ cz cs _ B B); (done || lia || by apply canonical_sorted)|].
  intros [r cr'] [Hok' [[-> ?]|(-> & Hcan' & _ & Hin' & _)]]; (split; [done|]); [by left|].
  destruct Hsf as [?|Hsf]; [by left|right]. split_and!; [done|done|].
  apply (canon_image u cr (pts ci) (pts cn) (pts cs) (pts cz)); try done.
  - intros x. by rewrite Hini, Hsm.
  - intros x Hx. by rewrite Hinn, Hsm.
  - intros x. by rewrite Hinz.
Qed.
End canon.

(** ** Properties *)

(** [unicode_case1] collects exactly the characters that one of the
    selected conversions (upper-casing, lower-casing, case folding) modifies. *)
Theorem unicode_case1_set (realloc_func : realloc_t) `{!ReallocLaws realloc_func} (cr : charrange) m B :
  m ∈ case_masks -> cr_ok B cr -> cr_len cr = 0 -> 2 ^ 20 <= B <= 2 ^ 29 ->
  exists r cr', unicode_case1 realloc_func cr m = Some (r, cr') /\ cr_ok B cr' /\
    ((r = -1 /\ oom realloc_func) \/
     (r = 0 /\ sorted_pts (pts cr') /\ forall c, 0 <= c -> set_of (pts cr') c = modified m c)).
Proof.
  intros Hm Hok Hl [HB0 HB]. destruct (case1_ivs_facts m Hm) as (Hs & _).
  pose proof (unicode_case1_spec realloc_func B HB HB0 cr m Hm Hok Hl) as Hwp.
  apply wp_exists in Hwp as ([r cr'] & -> & Hok' & Hr); simpl in *. exists r, cr'. split_and!; [done|done|].
  destruct Hr as [?|[-> Hp]]; [by left|right].
  unfold pts in Hp at 2. rewrite Hl, zslice_nil in Hp. simpl in Hp. rewrite Hp. split_and!; [done|done|].
  intros c Hc. unfold set_of. rewrite intervals_bounds. by apply case1_in_modified.
Qed.

(** C23. [cr_regexp_canonicalize] replaces a character set by its image under
    [lre_canonicalize], in canonical form, unless an allocation is refused; it
    never runs off the case table and never overflows. *)
Theorem cr_regexp_canonicalize_image (realloc_func : realloc_t) `{!ReallocLaws realloc_func} (cr : charrange) u B :
  cr_ok B cr -> cr_len cr + 2 ^ 20 <= B -> B <= 2 ^ 29 -> sorted_pts (pts cr) ->
  Forall (fun p => 0 <= p <= UINT32_MAX) (pts cr) ->
  exists r cr', cr_regexp_canonicalize realloc_func cr u = Some (r, cr') /\ cr_ok B cr' /\
    (oom realloc_func \/ (r = 0 /\ canonical_pts (pts cr') /\
      forall d, set_of (pts cr') d = true <->
        exists c, set_of (pts cr) c = true /\ lre_canonicalize c u = Some d)).
Proof.
  intros Hok Hl HB Hs Hr. destruct (Hok) as (?&?&?).
  pose proof (canon_spec realloc_func B HB ltac:(lia) cr u Hok Hl Hs Hr) as Hwp.
  apply wp_exists in Hwp as ([r cr'] & -> & ? & ?). by exists r, cr'.
Qed.

Lemma unicode_case1_set_witness :
  exists r cr', unicode_case1 realloc_total cr_init 5 = Some (r, cr') /\ cr_ok (2 ^ 20) cr' /\
    ((r = -1 /\ oom realloc_total) \/
     (r = 0 /\ sorted_pts (pts cr') /\ forall c, 0 <= c -> set_of (pts cr') c = modified 5 c)).
Proof.
  apply (unicode_case1_set realloc_total cr_init 5 (2 ^ 20)); [|by apply cr_init_ok|done|done].
  unfold case_masks. set_solver.
Defined.

Definition capitals : charrange := CharRange 2 2 [65; 91].

Lemma cr_regexp_canonicalize_image_witness :
  exists r cr', cr_regexp_canonicalize realloc_total capitals true = Some (r, cr') /\ cr_ok (2 ^ 21) cr' /\
    (oom realloc_total \/ (r = 0 /\ canonical_pts (pts cr') /\
      forall d, set_of (pts cr') d = true <->
        exists c, set_of (pts capitals) c = true /\ lre_canonicalize c true = Some d)).
Proof.
  apply (cr_regexp_canonicalize_image realloc_total capitals true (2 ^ 21)); [|done|done| |].
  - unfold cr_ok; simpl. change (zlen _) with 2. lia.
  - split; [repeat constructor; lia|done].
  - repeat constructor; unfold UINT32_MAX; lia.
Defined.
