(* ===== verification/UnicodeProp.v ===== *)
(** * Table-driven character properties (libunicode.c)

    The property tables are run-length coded bytes with an index of 24-bit
    words: word [k] holds the first code point of block [k + 1] (21 bits) and
    the offset of its first byte inside the block (3 bits). *)

From S2P Require Import Prelude CArray UnicodeTables UnicodeCase.
Open Scope Z_scope.

Definition get_le24 (ptr : list Z) (off : Z) : option Z :=
  a ← rd ptr off; b ← rd ptr (off + 1); c ← rd ptr (off + 2);
  Some (Z.lor (Z.lor a (Z.shiftl b 8)) (Z.shiftl c 16)).

Definition UNICODE_INDEX_BLOCK_LEN : Z := 32.

Definition index_code (v : Z) : Z := Z.land v (Z.shiftl 1 21 - 1).

Definition index_body (index_table : list Z) (c : Z) (st : Z * Z) : option ((Z * Z) + Z) :=
  let '(idx_min, idx_max) := st in
  if idx_max - idx_min >? 1 then
    let idx := (idx_max + idx_min) / 2 in
    v ← get_le24 index_table (idx * 3);
    if c <? index_code v then Some (inl (idx_min, idx)) else Some (inl (idx, idx_max))
  else Some (inr idx_min).

(** The position in the table and [*pcode]; [None] inside stands for -1. *)
Definition get_index_pos (c : Z) (index_table : list Z) (index_table_len : Z) : option (option (Z * Z)) :=
  v ← get_le24 index_table 0;
  if c <? index_code v then Some (Some (0, 0)) else
  let idx_max := index_table_len - 1 in
  code ← get_le24 index_table (idx_max * 3);
  if c >=? code then Some None else
  idx_min ← loop (Z.to_nat index_table_len) (index_body index_table c) (0, idx_max);
  v ← get_le24 index_table (idx_min * 3);
  Some (Some ((idx_min + 1) * UNICODE_INDEX_BLOCK_LEN + Z.shiftr v 21, index_code v)).

Definition in_table_body (table : list Z) (c : Z) (st : Z * Z * bool) : option ((Z * Z * bool) + bool) :=
  let '(p, code, bit) := st in
  b ← rd table p;
  if b <? 64 then
    let code := u32 (code + (Z.shiftr b 3 + 1)) in
    if c <? code then Some (inr bit) else
    let bit := negb bit in
    let code := u32 (code + (Z.land b 7 + 1)) in
    if c <? code then Some (inr bit) else Some (inl (p + 1, code, negb bit))
  else
    '(p, code) ← (if b >=? 0x80 then Some (p + 1, u32 (code + (b - 0x80 + 1)))
      else if b <? 0x60 then
        b1 ← rd table (p + 1);
        Some (p + 2, u32 (code + (Z.lor (Z.shiftl (b - 0x40) 8) b1 + 1)))
      else
        b1 ← rd table (p + 1); b2 ← rd table (p + 2);
        Some (p + 3, u32 (code + (Z.lor (Z.lor (Z.shiftl (b - 0x60) 16) (Z.shiftl b1 8)) b2 + 1))));
    if c <? code then Some (inr bit) else Some (inl (p, code, negb bit)).

Definition lre_is_in_table (c : Z) (table index_table : list Z) (index_table_len : Z) : option bool :=
  pos ← get_index_pos c index_table index_table_len;
  match pos with
  | None => Some false
  | Some (p, code) => loop (length table + 1) (in_table_body table c) (p, code, false)
  end.

Definition lre_is_cased (c : Z) : option bool :=
  r ← search c;
  match r with
  | Some _ => Some true
  | None => lre_is_in_table c unicode_prop_Cased1_table unicode_prop_Cased1_index
              (zlen unicode_prop_Cased1_index / 3)
  end.

Definition lre_is_case_ignorable (c : Z) : option bool :=
  lre_is_in_table c unicode_prop_Case_Ignorable_table unicode_prop_Case_Ignorable_index
    (zlen unicode_prop_Case_Ignorable_index / 3).

Definition lre_is_id_start (c : Z) : option bool :=
  lre_is_in_table c unicode_prop_ID_Start_table unicode_prop_ID_Start_index
    (zlen unicode_prop_ID_Start_index / 3).

Definition lre_is_id_continue (c : Z) : option bool :=
  b ← lre_is_id_start c;
  match b with
  | true => Some true
  | false => lre_is_in_table c unicode_prop_ID_Continue1_table unicode_prop_ID_Continue1_index
               (zlen unicode_prop_ID_Continue1_index / 3)
  end.

(** ** Combining classes *)

(** The length of a run of [unicode_cc_table] and the position of the byte
    after its length bytes. *)
Definition cc_run_len (table : list Z) (p b : Z) : option (Z * Z) :=
  let n := Z.land b 0x3f in
  if n <? 48 then Some (n, p)
  else if n <? 56 then
    b1 ← rd table p;
    Some (Z.lor (Z.shiftl (n - 48) 8) b1 + 48, p + 1)
  else
    b1 ← rd table p; b2 ← rd table (p + 1);
    Some (Z.lor (Z.lor (Z.shiftl (n - 56) 8) (Z.shiftl b1 8)) b2 + (48 + Z.shiftl 1 11), p + 2).

Definition get_cc_body (table : list Z) (c : Z) (st : Z * Z) : option ((Z * Z) + Z) :=
  let '(p, code) := st in
  b ← rd table p;
  let type := Z.shiftr b 6 in
  '(n, p) ← cc_run_len table (p + 1) b;
  let p := if type <=? 1 then p + 1 else p in
  let c1 := u32 (code + n + 1) in
  if c <? c1 then
    if type =? 0 then v ← rd table (p - 1); Some (inr v)
    else if type =? 1 then v ← rd table (p - 1); Some (inr (u32 (v + c - code)))
    else if type =? 2 then Some (inr 0)
    else Some (inr 230)
  else Some (inl (p, c1)).

Definition unicode_get_cc (c : Z) : option Z :=
  pos ← get_index_pos c unicode_cc_index (zlen unicode_cc_index / 3);
  match pos with
  | None => Some 0
  | Some (p, code) => loop (length unicode_cc_table + 1) (get_cc_body unicode_cc_table c) (p, code)
  end.

Example props_sample :
  lre_is_id_start 36 = Some false /\ lre_is_id_start 0x4e00 = Some true /\ lre_is_id_continue 0x30 = Some true /\
  lre_is_cased 0x2c7d = Some true /\ lre_is_case_ignorable 39 = Some true /\
  unicode_get_cc 0x301 = Some 230 /\ unicode_get_cc 0x323 = Some 220 /\ unicode_get_cc 0x1e949 = Some 230.
Proof. vm_compute. split_and!; reflexivity. Qed.

(** ** Reference: a table decoded from its first byte

    A list of runs: length and value of consecutive ranges of code points. *)

Fixpoint run_lookup {R} (code : Z) (runs : list (Z * R)) (c : Z) : option (R * Z) :=
  match runs with
  | [] => None
  | (n, r) :: runs => if c <? code + n then Some (r, c - code) else run_lookup (code + n) runs c
  end.

Fixpoint total {R} (runs : list (Z * R)) : Z :=
  match runs with [] => 0 | (n, _) :: runs => n + total runs end.

Fixpoint decode_bits (bit : bool) (l : list Z) : list (Z * bool) :=
  match l with
  | [] => []
  | b :: l =>
      if b <? 64 then (Z.shiftr b 3 + 1, bit) :: (Z.land b 7 + 1, negb bit) :: decode_bits bit l
      else if b >=? 0x80 then (b - 0x80 + 1, bit) :: decode_bits (negb bit) l
      else if b <? 0x60 then
        match l with
        | b1 :: l => (Z.lor (Z.shiftl (b - 0x40) 8) b1 + 1, bit) :: decode_bits (negb bit) l
        | [] => []
        end
      else
        match l with
        | b1 :: b2 :: l =>
            (Z.lor (Z.lor (Z.shiftl (b - 0x60) 16) (Z.shiftl b1 8)) b2 + 1, bit) :: decode_bits (negb bit) l
        | _ => []
        end
  end.

Lemma total_app {R} (a b : list (Z * R)) : total (a ++ b) = total a + total b.
Proof. induction a as [|[n r] a IH]; [done|]. simpl. rewrite IH. lia. Qed.

Lemma run_lookup_app {R} code (a b : list (Z * R)) c :
  Forall (fun e => 0 < e.1) a -> code + total a <= c -> run_lookup code (a ++ b) c = run_lookup (code + total a) b c.
Proof.
  revert code. induction a as [|[n r] a IH]; intros code Hp Hc; simpl in *; [by rewrite Z.add_0_r|].
  apply Forall_cons in Hp as [Hn Hp]. simpl in Hn.
  assert (0 <= total a).
  { clear -Hp. induction Hp as [|[? ?] ? ? _ IH]; simpl in *; lia. }
  replace (c <? code + n) with false by lia. rewrite IH by (done || lia). f_equal. lia.
Qed.

Section index.
Context {R} `{!EqDecision R} (decode : list Z -> list (Z * R)) (table index : list Z) (n : Z).

Definition word (k : Z) : Z := default 0 (get_le24 index (k * 3)).
Definition block_pos (k : Z) : Z := (k + 1) * UNICODE_INDEX_BLOCK_LEN + Z.shiftr (word k) 21.
Definition last_code : Z := word (n - 1).

(** Decoding block [k] continues the decoding of the table. *)
Definition block_ok (runs : list (Z * R)) (k : Z) : bool :=
  let suf := decode (drop (Z.to_nat (block_pos k)) table) in
  let j := (length runs - length suf)%nat in
  bool_decide (drop j runs = suf) && (total (take j runs) =? index_code (word k)) && (0 <=? block_pos k).

Definition index_ok : bool :=
  let runs := decode table in
  (1 <? n) && (n * 3 <=? zlen index) && forallb (fun e => 0 <? e.1) runs && (total runs <? 2 ^ 31) &&
  (last_code <=? total runs) && (index_code last_code =? last_code) &&
  (index_code (word 0) <=? last_code) &&
  forallb (block_ok runs) (seqZ 0 (n - 1)).

Lemma word_Some k : n * 3 <= zlen index -> 0 <= k < n -> get_le24 index (k * 3) = Some (word k).
Proof.
  intros Hn Hk. unfold word, get_le24.
  destruct (rd_is_Some index (k * 3) ltac:(lia)) as [a ->], (rd_is_Some index (k * 3 + 1) ltac:(lia)) as [b ->],
    (rd_is_Some index (k * 3 + 2) ltac:(lia)) as [e ->]. done.
Qed.

Lemma run_lookup_total code (runs : list (Z * R)) c :
  Forall (fun e => 0 < e.1) runs -> c < code + total runs -> runs <> [] -> is_Some (run_lookup code runs c).
Proof.
  revert code. induction runs as [|[m r] runs IH]; intros code Hp Hc Hne; [done|]. simpl in *.
  destruct (c <? code + m) eqn:E; [by eexists|]. zbool. apply Forall_cons in Hp as [_ Hp].
  destruct runs as [|x runs]; [simpl in *; lia|]. apply IH; (done || lia).
Qed.

Lemma get_index_pos_spec c :
  index_ok = true -> 0 <= c ->
  wp (get_index_pos c index n) (fun r =>
    match r with
    | None => last_code <= c
    | Some (pos, code) => c < last_code /\ 0 <= pos /\ 0 <= code <= c /\
        code + total (decode (drop (Z.to_nat pos) table)) < 2 ^ 31 /\
        (forall P, Forall P (decode table) -> Forall P (decode (drop (Z.to_nat pos) table))) /\
        run_lookup code (decode (drop (Z.to_nat pos) table)) c = run_lookup 0 (decode table) c
    end).
Proof.
  unfold index_ok. intros Hok Hc. zbool.
  match goal with H : forallb (block_ok _) _ = true |- _ => rename H into Hblocks end.
  match goal with H : forallb (fun e => _) _ = true |- _ => rename H into Hpos end.
  assert (Forall (fun e : Z * R => 0 < e.1) (decode table)) as Hp.
  { apply Forall_forall. intros e He. rewrite forallb_forall in Hpos. apply list_elem_of_In, Hpos in He. zbool. done. }
  assert (forall k, 0 <= k < n - 1 -> index_code (word k) <= c -> c < last_code ->
    0 <= block_pos k /\ 0 <= index_code (word k) /\
    index_code (word k) + total (decode (drop (Z.to_nat (block_pos k)) table)) < 2 ^ 31 /\
    (forall P, Forall P (decode table) -> Forall P (decode (drop (Z.to_nat (block_pos k)) table))) /\
    run_lookup (index_code (word k)) (decode (drop (Z.to_nat (block_pos k)) table)) c = run_lookup 0 (decode table) c) as Hblock.
  { intros k Hk Hle Hlast. rewrite forallb_forall in Hblocks.
    specialize (Hblocks k ltac:(apply list_elem_of_In, elem_of_seqZ; lia)). unfold block_ok in Hblocks. zbool.
    match goal with H : bool_decide _ = true |- _ => apply bool_decide_eq_true_1 in H as Hsuf end.
    set (j := (length (decode table) - length (decode (drop (Z.to_nat (block_pos k)) table)))%nat) in *.
    assert (decode table = take j (decode table) ++ decode (drop (Z.to_nat (block_pos k)) table)) as Hsplit
      by (rewrite <- Hsuf; symmetry; apply take_drop).
    set (pre := take j (decode table)) in *. clearbody pre j.
    rewrite Hsplit in *. apply Forall_app in Hp as [Hp1 Hp2]. rewrite total_app in *.
    assert (0 <= total pre) by (clear -Hp1; induction Hp1 as [|[? ?] ? ? _ IH]; simpl in *; lia).
    split_and!; try lia; [by intros P [_ ?]%Forall_app|].
    rewrite run_lookup_app by (done || lia). f_equal. lia. }
  unfold get_index_pos. change (get_le24 index 0) with (get_le24 index (0 * 3)).
  rewrite (word_Some 0) by lia. cbn [mbind option_bind]. wp_step.
  { wp_step. change (drop (Z.to_nat 0) table) with table. by split_and!; try lia. }
  rewrite (word_Some (n - 1)) by lia. cbn [mbind option_bind]. fold last_code. wp_step; [by wp_step|]. wp_step.
  apply (wp_mono _ (fun k => 0 <= k < n - 1 /\ index_code (word k) <= c)).
  - apply (wp_loop (fun '(lo, hi) => 0 <= lo < hi /\ hi <= n - 1 /\ index_code (word lo) <= c)
      (fun '(lo, hi) => Z.to_nat (hi - lo))); [lia|lia|].
    intros [lo hi] (Hlo & Hhi & Hle). unfold index_body. wp_step; [|wp_step; lia].
    assert (lo < (hi + lo) / 2 < hi) as Hmid.
    { pose proof (Z.mul_div_le (hi + lo) 2). pose proof (Z.mul_succ_div_gt (hi + lo) 2). lia. }
    rewrite (word_Some ((hi + lo) / 2)) by lia. cbn [mbind option_bind]. repeat wp_step; (split; [|lia]); lia.
  - intros k (Hk & Hle). rewrite (word_Some k) by lia. cbn [mbind option_bind]. fold (block_pos k).
    destruct (Hblock k ltac:(lia) Hle ltac:(lia)) as (?&?&?&?&?). by split_and!.
Qed.
End index.

(** ** The scanning loops follow the decoding *)

Lemma rd_drop (table : list Z) p k l : 0 <= p -> drop (Z.to_nat p) table = l -> 0 <= k -> rd table (p + k) = rd l k.
Proof. intros Hp <- Hk. rewrite !rd_lookup by lia. rewrite lookup_drop. f_equal. lia. Qed.

Lemma drop_more (table : list Z) p k l l' : 0 <= p -> drop (Z.to_nat p) table = l -> drop k l = l' ->
  drop (Z.to_nat (p + Z.of_nat k)) table = l'.
Proof. intros Hp <- <-. rewrite drop_drop. f_equal. lia. Qed.

Definition byte (b : Z) : bool := (0 <=? b) && (b <? 256).

Lemma decode_bits_pos bit l : Forall (fun b => 0 <= b) l -> Forall (fun e => 0 < e.1) (decode_bits bit l).
Proof.
  revert bit. induction l as [l IH] using (induction_ltof1 _ length). intros bit Hl.
  destruct l as [|b l]; [constructor|]. apply Forall_cons in Hl as [Hb Hl]. cbn [decode_bits].
  assert (0 <= Z.shiftr b 3) by (apply Z.shiftr_nonneg; lia).
  assert (0 <= Z.land b 7) by (apply Z.land_nonneg; lia).
  repeat case_match; subst; zbool; repeat constructor; simpl; try lia;
    try (apply IH; [unfold ltof; simpl; lia|]; by repeat (apply Forall_cons in Hl as [_ Hl])).
  - apply Forall_cons in Hl as [? Hl]. assert (0 <= Z.lor (Z.shiftl (b - 64) 8) z); [|lia].
    apply Z.lor_nonneg. split; [apply Z.shiftl_nonneg; lia|done].
  - apply Forall_cons in Hl as [? Hl]. apply Forall_cons in Hl as [? Hl].
    assert (0 <= Z.lor (Z.lor (Z.shiftl (b - 96) 16) (Z.shiftl z 8)) z0); [|lia].
    rewrite !Z.lor_nonneg. split_and!; [apply Z.shiftl_nonneg; lia|by apply Z.shiftl_nonneg|done].
Qed.

Lemma total_nonneg {R} (runs : list (Z * R)) : Forall (fun e => 0 < e.1) runs -> 0 <= total runs.
Proof. induction 1 as [|[? ?] ? ? _ IH]; simpl in *; lia. Qed.

(** The run a lookup finds. *)
Lemma run_lookup_elem {R} code (runs : list (Z * R)) c e o :
  Forall (fun e => 0 < e.1) runs -> code <= c -> run_lookup code runs c = Some (e, o) ->
  exists n, (n, e) ∈ runs /\ 0 <= o < n.
Proof.
  revert code. induction runs as [|[n r] runs IH]; intros code Hp Hc He; [done|]. simpl in He.
  apply Forall_cons in Hp as [Hn Hp]. destruct (c <? code + n) eqn:E; zbool.
  - simplify_eq. exists n. split; [by left|lia].
  - destruct (IH (code + n) Hp ltac:(lia) He) as (m & ? & ?). exists m. split; [by right|done].
Qed.

Section scan.
Context (table : list Z) (c : Z).

Lemma in_table_loop fuel l p code bit r o :
  drop (Z.to_nat p) table = l -> 0 <= p -> (length l < fuel)%nat -> Forall (fun b => 0 <= b) l -> 0 <= code ->
  code + total (decode_bits bit l) < 2 ^ 32 ->
  run_lookup code (decode_bits bit l) c = Some (r, o) ->
  loop fuel (in_table_body table c) (p, code, bit) = Some r.
Proof.
  revert l p code bit. induction fuel as [|fuel IH]; intros l p code bit Hl Hp Hf Hb Hcode Htot Hrun; [lia|].
  pose proof (decode_bits_pos bit l Hb) as Hpos.
  destruct l as [|b l]; [done|]. cbn [loop]. unfold in_table_body at 1.
  pose proof (rd_drop table p 0 _ Hp Hl ltac:(lia)) as Hr0. rewrite Z.add_0_r, rd_cons_0 in Hr0. rewrite Hr0.
  pose proof (rd_drop table p 1 _ Hp Hl ltac:(lia)) as Hr1.
  pose proof (rd_drop table p 2 _ Hp Hl ltac:(lia)) as Hr2.
  cbn [mbind option_bind]. cbn [decode_bits] in *. apply Forall_cons in Hb as [Hb0 Hb].
  destruct (b <? 64) eqn:E1; [|destruct (b >=? 128) eqn:E2; [|destruct (b <? 96) eqn:E3]].
  - cbn [total run_lookup] in *. apply Forall_cons in Hpos as [Hp1 Hpos]. apply Forall_cons in Hpos as [Hp2 Hpos].
    pose proof (total_nonneg _ Hpos). simpl in Hp1, Hp2. rewrite !uwrap_id by (unfold in_u; lia).
    destruct (c <? _) eqn:Ec; [by simplify_eq|]. destruct (c <? code + (Z.shiftr b 3 + 1) + _) eqn:Ec2; [by simplify_eq|].
    rewrite negb_involutive. apply (IH l); try done; try lia.
    + by apply (drop_more table p 1 (b :: l)).
    + simpl in Hf. lia.
  - cbn [total run_lookup mbind option_bind] in *. apply Forall_cons in Hpos as [Hp1 Hpos].
    pose proof (total_nonneg _ Hpos). simpl in Hp1. rewrite !uwrap_id by (unfold in_u; lia).
    destruct (c <? _) eqn:Ec; [by simplify_eq|]. apply (IH l); try done; try lia.
    + by apply (drop_more table p 1 (b :: l)).
    + simpl in Hf. lia.
  - destruct l as [|b1 l]; [done|]. rewrite Hr1. rewrite rd_cons_pos, Z.sub_diag, rd_cons_0 by lia.
    cbn [total run_lookup mbind option_bind] in *. apply Forall_cons in Hpos as [Hp1 Hpos].
    apply Forall_cons in Hb as [Hb1 Hb].
    pose proof (total_nonneg _ Hpos). simpl in Hp1. rewrite !uwrap_id by (unfold in_u; lia).
    destruct (c <? _) eqn:Ec; [by simplify_eq|]. apply (IH l); try done; try lia.
    + by apply (drop_more table p 2 (b :: b1 :: l)).
    + simpl in Hf. lia.
  - destruct l as [|b1 [|b2 l]]; [done|done|]. 
    change (rd (b :: b1 :: b2 :: l) 1) with (Some b1) in Hr1. change (rd (b :: b1 :: b2 :: l) 2) with (Some b2) in Hr2.
    rewrite Hr1, Hr2.
    cbn [total run_lookup mbind option_bind] in *. apply Forall_cons in Hpos as [Hp1 Hpos].
    apply Forall_cons in Hb as [Hb1 Hb]. apply Forall_cons in Hb as [Hb2 Hb].
    pose proof (total_nonneg _ Hpos). simpl in Hp1. rewrite !uwrap_id by (unfold in_u; lia).
    destruct (c <? _) eqn:Ec; [by simplify_eq|]. apply (IH l); try done; try lia.
    + by apply (drop_more table p 3 (b :: b1 :: b2 :: l)).
    + simpl in Hf. lia.
Qed.

(** The whole lookup, against the table decoded from its first byte. *)
Definition bits_of (index : list Z) (n : Z) : bool :=
  if c <? last_code index n
  then match run_lookup 0 (decode_bits false table) c with Some (bit, _) => bit | None => false end
  else false.

Lemma index_ok_last {R} `{!EqDecision R} (decode : list Z -> list (Z * R)) index n :
  index_ok decode table index n = true -> Forall (fun e => 0 < e.1) (decode table) /\ last_code index n <= total (decode table).
Proof.
  unfold index_ok. intros Hok. zbool. split; [|done].
  match goal with H : forallb (fun e => _) _ = true |- _ => rename H into Hpos end.
  apply Forall_forall. intros e He. rewrite forallb_forall in Hpos. apply list_elem_of_In, Hpos in He. zbool. done.
Qed.

Lemma is_in_table_spec index n :
  index_ok (decode_bits false) table index n = true -> forallb byte table = true -> 0 <= c ->
  lre_is_in_table c table index n = Some (bits_of index n).
Proof.
  intros Hok Hby Hc. unfold lre_is_in_table, bits_of.
  destruct (index_ok_last _ _ _ Hok) as [Hpos Hlast].
  pose proof (get_index_pos_spec (decode_bits false) table index n c Hok Hc) as Hwp.
  apply wp_exists in Hwp as (r & -> & Hr). cbn [mbind option_bind].
  destruct r as [[p code]|]; [|by replace (c <? last_code index n) with false by lia].
  destruct Hr as (Hcl & Hp & Hcode & Htot & _ & Heq). replace (c <? last_code index n) with true by lia.
  destruct (run_lookup_total 0 (decode_bits false table) c Hpos ltac:(lia)) as [[bit o] Hbit].
  { intros Hn. rewrite Hn in Hlast. simpl in Hlast. lia. }
  rewrite Hbit. rewrite Hbit in Heq.
  eapply (in_table_loop _ _ p code false bit o eq_refl); try done; try lia.
  - rewrite length_drop. lia.
  - apply Forall_drop, Forall_forall. intros b Hb. rewrite forallb_forall in Hby.
    apply list_elem_of_In, Hby in Hb. unfold byte in Hb. zbool. lia.
Qed.
End scan.

(** ** Combining classes against the decoded table *)

(** The length of the run of byte [b] and the bytes after it. *)
Definition cc_len (b : Z) (l : list Z) : option (Z * list Z) :=
  let n := Z.land b 0x3f in
  if n <? 48 then Some (n, l)
  else if n <? 56 then
    match l with b1 :: l => Some (Z.lor (Z.shiftl (n - 48) 8) b1 + 48, l) | [] => None end
  else
    match l with
    | b1 :: b2 :: l => Some (Z.lor (Z.lor (Z.shiftl (n - 56) 8) (Z.shiftl b1 8)) b2 + (48 + Z.shiftl 1 11), l)
    | _ => None
    end.

(** The runs of [unicode_cc_table]: type and value byte, if any. *)
Fixpoint decode_cc_fuel (fuel : nat) (l : list Z) : list (Z * (Z * Z)) :=
  match fuel, l with
  | S fuel, b :: l =>
      let type := Z.shiftr b 6 in
      match cc_len b l with
      | Some (n, l) =>
          if type <=? 1 then
            match l with v :: l => (n + 1, (type, v)) :: decode_cc_fuel fuel l | [] => [] end
          else (n + 1, (type, 0)) :: decode_cc_fuel fuel l
      | None => []
      end
  | _, _ => []
  end.

Definition decode_cc (l : list Z) : list (Z * (Z * Z)) := decode_cc_fuel (length l) l.

Definition cc_value (e : Z * Z) (o : Z) : Z :=
  let '(type, v) := e in
  if type =? 0 then v else if type =? 1 then v + o else if type =? 2 then 0 else 230.

Definition prop_tables : list (list Z * list Z) := [
  (unicode_prop_Cased1_table, unicode_prop_Cased1_index);
  (unicode_prop_Case_Ignorable_table, unicode_prop_Case_Ignorable_index);
  (unicode_prop_ID_Start_table, unicode_prop_ID_Start_index);
  (unicode_prop_ID_Continue1_table, unicode_prop_ID_Continue1_index) ].

Lemma prop_check :
  forallb (fun '(table, index) => index_ok (decode_bits false) table index (zlen index / 3) && forallb byte table)
    prop_tables = true.
Proof. vm_cast_no_check (@eq_refl bool true). Qed.

#[global] Opaque unicode_cc_table unicode_cc_index
  unicode_prop_Cased1_table unicode_prop_Cased1_index unicode_prop_Case_Ignorable_table
  unicode_prop_Case_Ignorable_index unicode_prop_ID_Start_table unicode_prop_ID_Start_index
  unicode_prop_ID_Continue1_table unicode_prop_ID_Continue1_index.

Section scan_cc.
Context (table : list Z) (c : Z) (Hnn : Forall (fun b => 0 <= b) table).

Lemma cc_len_spec p b l n l' :
  drop (Z.to_nat p) table = l -> 0 <= p -> cc_len b l = Some (n, l') ->
  exists p', p <= p' /\ cc_run_len table p b = Some (n, p') /\ drop (Z.to_nat p') table = l' /\ (length l' <= length l)%nat.
Proof.
  intros Hl Hp Hlen. unfold cc_len, cc_run_len in *.
  pose proof (rd_drop table p 0 _ Hp Hl ltac:(lia)) as Hr0. rewrite Z.add_0_r in Hr0.
  pose proof (rd_drop table p 1 _ Hp Hl ltac:(lia)) as Hr1.
  destruct (Z.land b 63 <? 48); [|destruct (Z.land b 63 <? 56)].
  - simplify_eq. exists p. split_and!; (done || lia).
  - destruct l as [|b1 l]; [done|]. change (rd (b1 :: l) 0) with (Some b1) in Hr0. simplify_eq.
    exists (p + 1). rewrite Hr0. split_and!; [lia|done|by apply (drop_more table p 1 (b1 :: l'))|simpl; lia].
  - destruct l as [|b1 [|b2 l]]; [done|done|]. change (rd (b1 :: b2 :: l) 0) with (Some b1) in Hr0.
    change (rd (b1 :: b2 :: l) 1) with (Some b2) in Hr1. simplify_eq. exists (p + 2). rewrite Hr0, Hr1.
    split_and!; [lia|done|by apply (drop_more table p 2 (b1 :: b2 :: l'))|simpl; lia].
Qed.

Definition cc_ok (e : Z * (Z * Z)) : Prop := 0 < e.1 /\ 0 <= e.2.2 <= 255.

Lemma total_cc_nonneg runs : Forall cc_ok runs -> 0 <= total runs.
Proof. intros H. apply total_nonneg. eapply Forall_impl; [exact H|]. by intros e [? _]. Qed.

Lemma get_cc_loop fuel f l p code e o :
  drop (Z.to_nat p) table = l -> 0 <= p -> (length l < fuel)%nat -> 0 <= code <= c ->
  Forall cc_ok (decode_cc_fuel f l) -> code + total (decode_cc_fuel f l) < 2 ^ 31 ->
  run_lookup code (decode_cc_fuel f l) c = Some (e, o) ->
  loop fuel (get_cc_body table c) (p, code) = Some (cc_value e o).
Proof.
  revert f l p code. induction fuel as [|fuel IH]; intros f l p code Hl Hp Hf Hcode Hok Htot Hrun; [lia|].
  destruct f as [|f]; [done|]. destruct l as [|b l]; [done|]. cbn [decode_cc_fuel] in *.
  destruct (cc_len b l) as [[n l']|] eqn:Hlen; [|done].
  pose proof (rd_drop table p 0 _ Hp Hl ltac:(lia)) as Hr0. rewrite Z.add_0_r, rd_cons_0 in Hr0.
  assert (drop (Z.to_nat (p + 1)) table = l) as Hl1 by (by apply (drop_more table p 1 (b :: l))).
  destruct (cc_len_spec (p + 1) b l n l' Hl1 ltac:(lia) Hlen) as (p' & Hp' & Hcr & Hl' & Hll).
  cbn [loop]. unfold get_cc_body at 1. rewrite Hr0. cbn [mbind option_bind]. rewrite Hcr. cbn [mbind option_bind].
  simpl in Hf. destruct (Z.shiftr b 6 <=? 1) eqn:Et.
  - destruct l' as [|v l'']; [done|]. cbn [run_lookup total] in *.
    apply Forall_cons in Hok as [[Hn Hv] Hok]. simpl in Hn, Hv. pose proof (total_cc_nonneg _ Hok).
    pose proof (rd_drop table p' 0 _ ltac:(lia) Hl' ltac:(lia)) as Hrv. rewrite Z.add_0_r, rd_cons_0 in Hrv.
    replace (p' + 1 - 1) with p' by lia. rewrite Hrv. rewrite Z.add_assoc in *.
    rewrite (uwrap_id 32 (code + n + 1)) by (unfold in_u; lia).
    destruct (c <? code + n + 1) eqn:Ec; zbool.
    + simplify_eq. unfold cc_value. destruct (Z.shiftr b 6 =? 0) eqn:E0; [done|].
      destruct (Z.shiftr b 6 =? 1) eqn:E1; [|].
      2: { assert (0 <= Z.shiftr b 6); [|zbool; lia]. apply Z.shiftr_nonneg.
           rewrite rd_lookup in Hr0 by lia. by apply (Forall_lookup_1 _ _ _ _ Hnn Hr0). }
      cbn [mbind option_bind]. rewrite uwrap_id by (unfold in_u; lia). f_equal. lia.
    + apply (IH f l''); try done; try lia; [by apply (drop_more table p' 1 (v :: l'')); [lia|..]|simpl in Hll; lia].
  - cbn [run_lookup total] in *. apply Forall_cons in Hok as [[Hn Hv] Hok]. simpl in Hn, Hv.
    pose proof (total_cc_nonneg _ Hok). rewrite Z.add_assoc in *.
    rewrite (uwrap_id 32 (code + n + 1)) by (unfold in_u; lia).
    destruct (c <? code + n + 1) eqn:Ec; zbool.
    + simplify_eq. unfold cc_value. replace (Z.shiftr b 6 =? 0) with false by lia.
      replace (Z.shiftr b 6 =? 1) with false by lia. by destruct (Z.shiftr b 6 =? 2).
    + apply (IH f l'); try done; lia.
Qed.

(** The whole lookup, against the table decoded from its first byte. *)
Definition cc_of_runs (index : list Z) (n : Z) : Z :=
  if c <? last_code index n
  then match run_lookup 0 (decode_cc table) c with Some (e, o) => cc_value e o | None => 0 end
  else 0.

Definition cc_range (e : Z * (Z * Z)) : bool :=
  let '(n, (type, v)) := e in (0 <=? v) && (v + (if type =? 1 then n - 1 else 0) <=? 255).

Lemma cc_lookup_spec index n :
  index_ok decode_cc table index n = true -> forallb cc_range (decode_cc table) = true -> 0 <= c ->
  (pos ← get_index_pos c index n;
   match pos with
   | None => Some 0
   | Some (p, code) => loop (length table + 1) (get_cc_body table c) (p, code)
   end) = Some (cc_of_runs index n) /\ 0 <= cc_of_runs index n <= 255.
Proof.
  intros Hok Hv Hc. rewrite forallb_forall in Hv. unfold cc_of_runs.
  destruct (index_ok_last _ _ _ _ Hok) as [Hpos Hlast].
  assert (Forall cc_ok (decode_cc table)) as Hcc.
  { apply Forall_forall. intros [m [t v]] He. pose proof (proj1 (Forall_forall _ _) Hpos _ He) as Hm.
    split; [done|]. simpl in Hm |- *. apply list_elem_of_In, Hv in He. unfold cc_range in He. zbool.
    destruct (t =? 1); lia. }
  pose proof (get_index_pos_spec decode_cc table index n c Hok Hc) as Hwp.
  apply wp_exists in Hwp as (r & -> & Hr). cbn [mbind option_bind].
  destruct r as [[p code]|]; [|rewrite (proj2 (Z.ltb_ge _ _) Hr); split; [done|lia]].
  destruct Hr as (Hcl & Hp & Hcode & Htot & HP & Heq). rewrite (proj2 (Z.ltb_lt _ _) Hcl).
  destruct (run_lookup_total 0 (decode_cc table) c Hpos ltac:(lia)) as [[e o] He].
  { intros Hnil. rewrite Hnil in Hlast. simpl in Hlast. lia. }
  rewrite He in *. split.
  - eapply (get_cc_loop _ _ _ p code e o eq_refl); try done; try lia; [rewrite length_drop; lia|by apply HP].
  - destruct (run_lookup_elem 0 _ _ _ _ Hpos Hc He) as (m & Hel & Ho).
    apply list_elem_of_In, Hv in Hel. destruct e as [t v]. unfold cc_value, cc_range in *.
    apply andb_true_iff in Hel as [Hv0 Hv1]. revert Hv1.
    destruct (t =? 0) eqn:?, (t =? 1) eqn:?, (t =? 2) eqn:?; intros Hv1; zbool; lia.
Qed.
End scan_cc.

Definition cc_of (c : Z) : Z := cc_of_runs unicode_cc_table c unicode_cc_index 29.

Lemma cc_index_ok : index_ok decode_cc unicode_cc_table unicode_cc_index 29 = true.
Proof. vm_cast_no_check (@eq_refl bool true). Qed.

Lemma cc_bytes : forallb byte unicode_cc_table = true.
Proof. vm_cast_no_check (@eq_refl bool true). Qed.

Lemma cc_ranges : forallb cc_range (decode_cc unicode_cc_table) = true.
Proof. vm_cast_no_check (@eq_refl bool true). Qed.

Lemma cc_index_len : zlen unicode_cc_index / 3 = 29.
Proof. vm_compute. reflexivity. Qed.

Lemma bytes_nonneg table : forallb byte table = true -> Forall (fun b => 0 <= b) table.
Proof.
  intros Hby. apply Forall_forall. intros b Hb. rewrite forallb_forall in Hby.
  apply list_elem_of_In, Hby in Hb. unfold byte in Hb. zbool. lia.
Qed.

Lemma get_cc_spec c : 0 <= c -> unicode_get_cc c = Some (cc_of c) /\ 0 <= cc_of c <= 255.
Proof.
  intros Hc. unfold unicode_get_cc, cc_of. rewrite cc_index_len.
  exact (cc_lookup_spec unicode_cc_table c (bytes_nonneg _ cc_bytes) unicode_cc_index 29 cc_index_ok cc_ranges Hc).
Qed.

(** ** Properties *)

(** Property lookup through the block index gives, for every code point,
    the value the run-length coded table decodes to from its first byte: the
    predicates [lre_is_cased], [lre_is_case_ignorable], [lre_is_id_start] and
    [lre_is_id_continue] are total and stay inside their tables. *)
Theorem prop_lookup_correct c :
  0 <= c ->
  let set table index := bits_of table c index (zlen index / 3) in
  lre_is_cased c = Some (bool_decide (is_Some (run_of c)) || set unicode_prop_Cased1_table unicode_prop_Cased1_index) /\
  lre_is_case_ignorable c = Some (set unicode_prop_Case_Ignorable_table unicode_prop_Case_Ignorable_index) /\
  lre_is_id_start c = Some (set unicode_prop_ID_Start_table unicode_prop_ID_Start_index) /\
  lre_is_id_continue c = Some (set unicode_prop_ID_Start_table unicode_prop_ID_Start_index ||
                               set unicode_prop_ID_Continue1_table unicode_prop_ID_Continue1_index).
Proof.
  intros Hc set.
  assert (forall table index, (table, index) ∈ prop_tables ->
    lre_is_in_table c table index (zlen index / 3) = Some (set table index)) as Hin.
  { intros table index Hel. pose proof prop_check as Hk. rewrite forallb_forall in Hk.
    apply list_elem_of_In, Hk in Hel. zbool. by apply is_in_table_spec. }
  clearbody set. unfold prop_tables in Hin. unfold lre_is_cased, lre_is_case_ignorable, lre_is_id_start, lre_is_id_continue.
  split_and!.
  - rewrite search_run_of. cbn [mbind option_bind]. destruct (run_of c) as [[? ?]|].
    + rewrite bool_decide_eq_true_2 by eauto. done.
    + rewrite bool_decide_eq_false_2 by (intros [? ?]; discriminate). apply Hin. set_solver.
  - apply Hin. set_solver.
  - apply Hin. set_solver.
  - unfold lre_is_id_start. rewrite !Hin by set_solver. cbn [mbind option_bind].
    destruct (set unicode_prop_ID_Start_table unicode_prop_ID_Start_index); reflexivity.
Qed.

(** [unicode_get_cc] gives every code point the combining class of its run
    in the decoded table, a value between 0 and 255. *)
Theorem get_cc_correct c : 0 <= c -> unicode_get_cc c = Some (cc_of c) /\ 0 <= cc_of c <= 255.
Proof. apply get_cc_spec. Qed.

Lemma prop_lookup_correct_witness :
  lre_is_id_start 0x4e00 = Some (bits_of unicode_prop_ID_Start_table 0x4e00 unicode_prop_ID_Start_index
                                   (zlen unicode_prop_ID_Start_index / 3)).
Proof. apply (prop_lookup_correct 0x4e00). lia. Defined.

Lemma get_cc_correct_witness : unicode_get_cc 0x323 = Some (cc_of 0x323) /\ 0 <= cc_of 0x323 <= 255.
Proof. apply (get_cc_correct 0x323). lia. Defined.
