(* ===== verification/UnicodeSets.v ===== *)
(** * Sets of characters by name (libunicode.c)

    The sets that the property escapes of regular expressions denote: general
    categories, scripts and binary properties.  A name is searched in a name
    table, a run-length coded table is scanned and its runs are added to a range;
    derived properties are computed by a small stack machine on ranges. *)

From Stdlib Require Import String Ascii.
From S2P Require Import Prelude CArray Rqsort CBytes DynBuf CStr CharRange RunTable UnicodeTables UnicodeCase RegexpCanon UnicodeProp UnicodeSetTables.
Open Scope Z_scope.

(** ** Definitions *)

(** The C library's [strchr]: the offset of the first [c] before the NUL. *)
Fixpoint strchr (mem : list Z) (c : Z) : option (option Z) :=
  match mem with
  | [] => None
  | b :: mem =>
      if b =? c then Some (Some 0) else if b =? 0 then Some None
      else r ← strchr mem c; Some (option_map (Z.add 1) r)
  end.

(** The inner loop of [unicode_find_name] at [p]: the position was found
    ([inl tt]), or the next entry starts at [p]. *)
Definition find_part_body (tab name : list Z) (name_len : Z) (p : Z) : option (Z + (unit + Z)) :=
  let rest := drop (Z.to_nat p) tab in
  r ← strchr rest 44;
  len ← (match r with None => strlen rest | Some k => Some k end);
  if (len =? name_len) && mem_eq tab p name 0 name_len then Some (inr (inl tt))
  else
    let p := p + (len + 1) in
    match r with None => Some (inr (inr p)) | Some _ => Some (inl p) end.

Definition find_entry_body (tab name : list Z) (name_len : Z) (st : Z * Z) : option ((Z * Z) + Z) :=
  let '(p, pos) := st in
  b ← rd tab p;
  if b =? 0 then Some (inr (-1))
  else
    r ← loop (length tab + 1) (find_part_body tab name name_len) p;
    match r with
    | inl _ => Some (inr pos)
    | inr p => Some (inl (p, pos + 1))
    end.

Definition unicode_find_name (tab name : list Z) : option Z :=
  name_len ← strlen name;
  loop (length tab + 1) (find_entry_body tab name name_len) (0, 0).

(** *** General categories *)

(** A run of [unicode_gc_table] at [p]: its length less one, its category and
    the position behind it. *)
Definition gc_run (p : Z) : option (Z * Z * Z) :=
  b ← rd unicode_gc_table p;
  let p := p + 1 in
  let n := Z.shiftr b 5 in
  let v := Z.land b 0x1f in
  if n =? 7 then
    n ← rd unicode_gc_table p;
    let p := p + 1 in
    if n <? 128 then Some (n + 7, v, p)
    else if n <? 128 + 64 then
      b1 ← rd unicode_gc_table p;
      Some (Z.lor (Z.shiftl (n - 128) 8) b1 + (7 + 128), v, p + 1)
    else
      b1 ← rd unicode_gc_table p; b2 ← rd unicode_gc_table (p + 1);
      Some (Z.lor (Z.lor (Z.shiftl (n - 128 - 64) 16) (Z.shiftl b1 8)) b2 + (7 + 128 + Z.shiftl 1 14), v, p + 2)
  else Some (n, v, p).

Definition M (id : UnicodeGCEnum) : Z := Z.shiftl 1 (gc_idx id).

(** The intervals a run [c0 .. c) of category [v] adds; the value 31 is a run of
    alternating upper and lower case letters. *)
Definition gc_ivs (gc_mask c0 c v : Z) : list (Z * Z) :=
  if v =? 31 then
    let both := Z.lor (M UNICODE_GC_Lu) (M UNICODE_GC_Ll) in
    let b := Z.land gc_mask both in
    if b =? 0 then []
    else if b =? both then [(c0, c)]
    else
      let c0 := c0 + Zb (negb (Z.land gc_mask (M UNICODE_GC_Ll) =? 0)) in
      (fun i => (c0 + 2 * i, c0 + 2 * i + 1)) <$> seqZ 0 ((c - c0 + 1) / 2)
  else if Z.land (Z.shiftr gc_mask v) 1 =? 0 then [] else [(c0, c)].

Section ops.
Context (realloc_func : realloc_t).

Definition gc_body (gc_mask : Z) (st : Z * Z * charrange) : option ((Z * Z * charrange) + (Z * charrange)) :=
  let '(p, c, cr) := st in
  if p <? zlen unicode_gc_table then
    '(n, v, p) ← gc_run p;
    let c0 := c in
    let c := u32 (c + (n + 1)) in
    '(r, cr) ← add_intervals realloc_func cr (gc_ivs gc_mask c0 c v);
    if negb (r =? 0) then Some (inr (-1, cr)) else Some (inl (p, c, cr))
  else Some (inr (0, cr)).

Definition unicode_general_category1 (cr : charrange) (gc_mask : Z) : option (Z * charrange) :=
  loop (length unicode_gc_table + 1) (gc_body gc_mask) (0, 0, cr).

(** *** Binary properties *)

(** The lengths of the one or two runs at [p] and the position behind them. *)
Definition prop_run (table : list Z) (p : Z) : option (list Z * Z) :=
  b ← rd table p;
  let p := p + 1 in
  if b <? 64 then Some ([Z.shiftr b 3 + 1; Z.land b 7 + 1], p)
  else if b >=? 0x80 then Some ([b - 0x80 + 1], p)
  else if b <? 0x60 then
    b1 ← rd table p; Some ([Z.lor (Z.shiftl (b - 0x40) 8) b1 + 1], p + 1)
  else
    b1 ← rd table p; b2 ← rd table (p + 1);
    Some ([Z.lor (Z.lor (Z.shiftl (b - 0x60) 16) (Z.shiftl b1 8)) b2 + 1], p + 2).

(** The runs in turn: a run is added when [bit] is set, and [bit] flips. *)
Fixpoint prop_add (cr : charrange) (c : Z) (bit : bool) (lens : list Z) : option (Z * charrange * Z * bool) :=
  match lens with
  | [] => Some (0, cr, c, bit)
  | n :: lens =>
      let c0 := c in
      let c := u32 (c + n) in
      '(r, cr) ← (if bit then cr_add_interval realloc_func cr c0 c else Some (0, cr));
      if negb (r =? 0) then Some (-1, cr, c, bit) else prop_add cr c (negb bit) lens
  end.

Definition prop_body (table : list Z) (len : Z) (st : Z * Z * bool * charrange)
    : option ((Z * Z * bool * charrange) + (Z * charrange)) :=
  let '(p, c, bit, cr) := st in
  if p <? len then
    '(lens, p) ← prop_run table p;
    '(r, cr, c, bit) ← prop_add cr c bit lens;
    if negb (r =? 0) then Some (inr (-1, cr)) else Some (inl (p, c, bit, cr))
  else Some (inr (0, cr)).

Definition unicode_prop1 (cr : charrange) (prop_idx : Z) : option (Z * charrange) :=
  table ← rd unicode_prop_table prop_idx;
  len ← rd unicode_prop_len_table prop_idx;
  loop (length table + 1) (prop_body table len) (0, 0, false, cr).

(** *** Scripts *)

Definition script_run (p : Z) : option (Z * Z * Z) :=
  b ← rd unicode_script_table p;
  let p := p + 1 in
  let type := Z.shiftr b 7 in
  let n := Z.land b 0x7f in
  '(n, p) ← (if n <? 96 then Some (n, p)
    else if n <? 112 then
      b1 ← rd unicode_script_table p; Some (Z.lor (Z.shiftl (n - 96) 8) b1 + 96, p + 1)
    else
      b1 ← rd unicode_script_table p; b2 ← rd unicode_script_table (p + 1);
      Some (Z.lor (Z.lor (Z.shiftl (n - 112) 16) (Z.shiftl b1 8)) b2 + (96 + Z.shiftl 1 12), p + 2));
  if type =? 0 then Some (n, 0, p) else v ← rd unicode_script_table p; Some (n, v, p + 1).

Definition script_body (script_idx : Z) (st : Z * Z * charrange) : option ((Z * Z * charrange) + (Z * charrange)) :=
  let '(p, c, cr) := st in
  if p <? zlen unicode_script_table then
    '(n, v, p) ← script_run p;
    let c1 := u32 (c + n + 1) in
    '(r, cr) ← add_intervals realloc_func cr (if v =? script_idx then [(c, c1)] else []);
    if negb (r =? 0) then Some (inr (-1, cr)) else Some (inl (p, c1, cr))
  else Some (inr (0, cr)).

(** The length less one of a run of the extensions, the number of its scripts
    and the position of the first. *)
Definition ext_run (p : Z) : option (Z * Z * Z) :=
  b ← rd unicode_script_ext_table p;
  let p := p + 1 in
  '(n, p) ← (if b <? 128 then Some (b, p)
    else if b <? 128 + 64 then
      b1 ← rd unicode_script_ext_table p; Some (Z.lor (Z.shiftl (b - 128) 8) b1 + 128, p + 1)
    else
      b1 ← rd unicode_script_ext_table p; b2 ← rd unicode_script_ext_table (p + 1);
      Some (Z.lor (Z.lor (Z.shiftl (b - 128 - 64) 16) (Z.shiftl b1 8)) b2 + (128 + Z.shiftl 1 14), p + 2));
  v_len ← rd unicode_script_ext_table p;
  Some (n, v_len, p + 1).

(** [for(i = 0; i < v_len; i++)]: one of the [n] scripts at [p] is [script_idx]. *)
Fixpoint ext_has (script_idx p : Z) (n : nat) : option bool :=
  match n with
  | O => Some false
  | S n => v ← rd unicode_script_ext_table p; if v =? script_idx then Some true else ext_has script_idx (p + 1) n
  end.

Definition ext_body (script_idx : Z) (is_common : bool) (st : Z * Z * charrange)
    : option ((Z * Z * charrange) + (Z * charrange)) :=
  let '(p, c, cr) := st in
  if p <? zlen unicode_script_ext_table then
    '(n, v_len, p) ← ext_run p;
    let c1 := u32 (c + n + 1) in
    has ← (if is_common then Some (negb (v_len =? 0)) else ext_has script_idx p (Z.to_nat v_len));
    '(r, cr) ← add_intervals realloc_func cr (if (has : bool) then [(c, c1)] else []);
    if negb (r =? 0) then Some (inr (-1, cr)) else Some (inl (p + v_len, c1, cr))
  else Some (inr (0, cr)).

(** The error path jumps back to its own label: a failed allocation does not
    return. *)
Definition unicode_script (cr : charrange) (script_name : list Z) (is_ext : bool) : option (Z * charrange) :=
  script_idx ← unicode_find_name unicode_script_name_table script_name;
  if script_idx <? 0 then Some (-2, cr) else
  let script_idx := script_idx + UNICODE_SCRIPT_Unknown + 1 in
  let is_common := (script_idx =? UNICODE_SCRIPT_Common) || (script_idx =? UNICODE_SCRIPT_Inherited) in
  let cr1 := if is_ext then cr_init else cr in
  '(r, cr1) ← loop (length unicode_script_table + 1) (script_body script_idx) (0, 0, cr1);
  if negb (r =? 0) then None else
  if is_ext then
    '(r, cr2) ← loop (length unicode_script_ext_table + 1) (ext_body script_idx is_common) (0, 0, cr_init);
    if negb (r =? 0) then None else
    if is_common then
      '(r, cr2) ← cr_invert realloc_func cr2;
      if negb (r =? 0) then None else
      '(r, cr) ← cr_op realloc_func cr (points cr1) (cr_len cr1) (points cr2) (cr_len cr2) CR_OP_INTER;
      if negb (r =? 0) then None else Some (0, cr)
    else
      '(r, cr) ← cr_op realloc_func cr (points cr1) (cr_len cr1) (points cr2) (cr_len cr2) CR_OP_UNION;
      if negb (r =? 0) then None else Some (0, cr)
  else Some (0, cr1).

(** *** Derived properties *)

Inductive pop :=
  | POP_GC (mask : Z) | POP_PROP (prop : UnicodePropertyEnum) | POP_CASE (mask : Z)
  | POP_UNION | POP_INTER | POP_XOR | POP_INVERT.

Definition POP_STACK_LEN_MAX : Z := 4.

(** A new range on the stack, filled by [fill]; the top of the stack is first. *)
Definition pop_push (fill : charrange -> option (Z * charrange)) (stack : list charrange) : option (Z * list charrange) :=
  if zlen stack <? POP_STACK_LEN_MAX then
    '(r, cr) ← fill cr_init;
    if negb (r =? 0) then Some (-1, cr :: stack) else Some (0, cr :: stack)
  else None.

Definition pop_binary (op : CharRangeOpEnum) (stack : list charrange) : option (Z * list charrange) :=
  match stack with
  | cr2 :: cr1 :: stack' =>
      if zlen stack <? POP_STACK_LEN_MAX then
        '(r, cr3) ← cr_op realloc_func cr_init (points cr1) (cr_len cr1) (points cr2) (cr_len cr2) op;
        if negb (r =? 0) then Some (-1, cr3 :: stack) else Some (0, cr3 :: stack')
      else None
  | _ => None
  end.

Definition pop_step (op : pop) (stack : list charrange) : option (Z * list charrange) :=
  match op with
  | POP_GC a => pop_push (fun cr => unicode_general_category1 cr a) stack
  | POP_PROP a => pop_push (fun cr => unicode_prop1 cr (prop_idx a)) stack
  | POP_CASE a => pop_push (fun cr => unicode_case1 realloc_func cr a) stack
  | POP_UNION => pop_binary CR_OP_UNION stack
  | POP_INTER => pop_binary CR_OP_INTER stack
  | POP_XOR => pop_binary CR_OP_XOR stack
  | POP_INVERT =>
      match stack with
      | cr1 :: stack =>
          '(r, cr1) ← cr_invert realloc_func cr1;
          if negb (r =? 0) then Some (-1, cr1 :: stack) else Some (0, cr1 :: stack)
      | [] => None
      end
  end.

Fixpoint pop_loop (ops : list pop) (stack : list charrange) : option (Z * list charrange) :=
  match ops with
  | [] => Some (0, stack)
  | op :: ops => '(r, stack) ← pop_step op stack; if negb (r =? 0) then Some (-1, stack) else pop_loop ops stack
  end.

(** The argument list up to [POP_END]. *)
Definition unicode_prop_ops (cr : charrange) (ops : list pop) : option (Z * charrange) :=
  '(r, stack) ← pop_loop ops [];
  if negb (r =? 0) then Some (-1, cr)
  else match stack with
       | [cr1] => cr_copy realloc_func cr cr1
       | _ => None
       end.

Definition Ms (l : list UnicodeGCEnum) : Z := fold_left Z.lor (M <$> l) 0.

Definition unicode_gc_mask_table : list Z := [
  Ms [UNICODE_GC_Lu; UNICODE_GC_Ll; UNICODE_GC_Lt];
  Ms [UNICODE_GC_Lu; UNICODE_GC_Ll; UNICODE_GC_Lt; UNICODE_GC_Lm; UNICODE_GC_Lo];
  Ms [UNICODE_GC_Mn; UNICODE_GC_Mc; UNICODE_GC_Me];
  Ms [UNICODE_GC_Nd; UNICODE_GC_Nl; UNICODE_GC_No];
  Ms [UNICODE_GC_Sm; UNICODE_GC_Sc; UNICODE_GC_Sk; UNICODE_GC_So];
  Ms [UNICODE_GC_Pc; UNICODE_GC_Pd; UNICODE_GC_Ps; UNICODE_GC_Pe; UNICODE_GC_Pi; UNICODE_GC_Pf; UNICODE_GC_Po];
  Ms [UNICODE_GC_Zs; UNICODE_GC_Zl; UNICODE_GC_Zp];
  Ms [UNICODE_GC_Cc; UNICODE_GC_Cf; UNICODE_GC_Cs; UNICODE_GC_Co; UNICODE_GC_Cn]
].

Definition unicode_general_category (cr : charrange) (gc_name : list Z) : option (Z * charrange) :=
  gc_idx0 ← unicode_find_name unicode_gc_name_table gc_name;
  if gc_idx0 <? 0 then Some (-2, cr) else
  gc_mask ← (if gc_idx0 <=? gc_idx UNICODE_GC_Co then Some (u32 (Z.shiftl 1 gc_idx0))
             else rd unicode_gc_mask_table (gc_idx0 - gc_idx UNICODE_GC_LC));
  unicode_general_category1 cr gc_mask.

(** The programs of the derived properties. *)
Definition gc_letters : list UnicodeGCEnum :=
  [UNICODE_GC_Lu; UNICODE_GC_Ll; UNICODE_GC_Lt; UNICODE_GC_Lm; UNICODE_GC_Lo; UNICODE_GC_Nl].

Definition prop_program (p : UnicodePropertyEnum) : option (list pop) :=
  match p with
  | UNICODE_PROP_Assigned => Some [POP_GC (M UNICODE_GC_Cn); POP_INVERT]
  | UNICODE_PROP_Math => Some [POP_GC (M UNICODE_GC_Sm); POP_PROP UNICODE_PROP_Other_Math; POP_UNION]
  | UNICODE_PROP_Lowercase => Some [POP_GC (M UNICODE_GC_Ll); POP_PROP UNICODE_PROP_Other_Lowercase; POP_UNION]
  | UNICODE_PROP_Uppercase => Some [POP_GC (M UNICODE_GC_Lu); POP_PROP UNICODE_PROP_Other_Uppercase; POP_UNION]
  | UNICODE_PROP_Cased => Some [POP_GC (Ms [UNICODE_GC_Lu; UNICODE_GC_Ll; UNICODE_GC_Lt]);
      POP_PROP UNICODE_PROP_Other_Uppercase; POP_UNION; POP_PROP UNICODE_PROP_Other_Lowercase; POP_UNION]
  | UNICODE_PROP_Alphabetic => Some [POP_GC (Ms gc_letters); POP_PROP UNICODE_PROP_Other_Uppercase; POP_UNION;
      POP_PROP UNICODE_PROP_Other_Lowercase; POP_UNION; POP_PROP UNICODE_PROP_Other_Alphabetic; POP_UNION]
  | UNICODE_PROP_Grapheme_Base => Some [POP_GC (Ms [UNICODE_GC_Cc; UNICODE_GC_Cf; UNICODE_GC_Cs; UNICODE_GC_Co;
      UNICODE_GC_Cn; UNICODE_GC_Zl; UNICODE_GC_Zp; UNICODE_GC_Me; UNICODE_GC_Mn]);
      POP_PROP UNICODE_PROP_Other_Grapheme_Extend; POP_UNION; POP_INVERT]
  | UNICODE_PROP_Grapheme_Extend => Some [POP_GC (Ms [UNICODE_GC_Me; UNICODE_GC_Mn]);
      POP_PROP UNICODE_PROP_Other_Grapheme_Extend; POP_UNION]
  | UNICODE_PROP_XID_Start => Some [POP_GC (Ms gc_letters); POP_PROP UNICODE_PROP_Other_ID_Start; POP_UNION;
      POP_PROP UNICODE_PROP_Pattern_Syntax; POP_PROP UNICODE_PROP_Pattern_White_Space; POP_UNION;
      POP_PROP UNICODE_PROP_XID_Start1; POP_UNION; POP_INVERT; POP_INTER]
  | UNICODE_PROP_XID_Continue => Some [
      POP_GC (Ms (gc_letters ++ [UNICODE_GC_Mn; UNICODE_GC_Mc; UNICODE_GC_Nd; UNICODE_GC_Pc]));
      POP_PROP UNICODE_PROP_Other_ID_Start; POP_UNION; POP_PROP UNICODE_PROP_Other_ID_Continue; POP_UNION;
      POP_PROP UNICODE_PROP_Pattern_Syntax; POP_PROP UNICODE_PROP_Pattern_White_Space; POP_UNION;
      POP_PROP UNICODE_PROP_XID_Continue1; POP_UNION; POP_INVERT; POP_INTER]
  | UNICODE_PROP_Changes_When_Titlecased =>
      Some [POP_CASE CASE_U; POP_PROP UNICODE_PROP_Changes_When_Titlecased1; POP_XOR]
  | UNICODE_PROP_Changes_When_Casefolded =>
      Some [POP_CASE CASE_F; POP_PROP UNICODE_PROP_Changes_When_Casefolded1; POP_XOR]
  | UNICODE_PROP_Changes_When_NFKC_Casefolded =>
      Some [POP_CASE CASE_F; POP_PROP UNICODE_PROP_Changes_When_NFKC_Casefolded1; POP_XOR]
  | UNICODE_PROP_ID_Continue => Some [POP_PROP UNICODE_PROP_ID_Start; POP_PROP UNICODE_PROP_ID_Continue1; POP_XOR]
  | _ => None
  end.

Definition unicode_prop (cr : charrange) (prop_name : list Z) : option (Z * charrange) :=
  prop_idx0 ← unicode_find_name unicode_prop_name_table prop_name;
  if prop_idx0 <? 0 then Some (-2, cr) else
  let prop_idx0 := prop_idx0 + prop_idx UNICODE_PROP_ASCII_Hex_Digit in
  prop ← rd prop_enum prop_idx0;
  match prop with
  | UNICODE_PROP_ASCII => add_intervals realloc_func cr [(0, 0x7f + 1)]
  | UNICODE_PROP_Any => add_intervals realloc_func cr [(0, 0x10ffff + 1)]
  | UNICODE_PROP_Changes_When_Uppercased => unicode_case1 realloc_func cr CASE_U
  | UNICODE_PROP_Changes_When_Lowercased => unicode_case1 realloc_func cr CASE_L
  | UNICODE_PROP_Changes_When_Casemapped => unicode_case1 realloc_func cr (Z.lor (Z.lor CASE_U CASE_L) CASE_F)
  | _ =>
      match prop_program prop with
      | Some ops => unicode_prop_ops cr ops
      | None => if prop_idx0 >=? zlen unicode_prop_table then Some (-2, cr) else unicode_prop1 cr prop_idx0
      end
  end.
End ops.

Example sets_sample :
  option_map (fun x => (x.1, pts x.2)) (unicode_general_category realloc_total cr_init (bytes "Zl" ++ [0])) = Some (0, [0x2028; 0x2029]) /\
  option_map (fun x => (x.1, pts x.2)) (unicode_prop realloc_total cr_init (bytes "Regional_Indicator" ++ [0])) = Some (0, [0x1f1e6; 0x1f200]) /\
  option_map (fun x => (x.1, pts x.2)) (unicode_prop realloc_total cr_init (bytes "Assigned," ++ [0])) = Some (-2, []) /\
  option_map (fun x => (x.1, pts x.2)) (unicode_script realloc_total cr_init (bytes "Ogam" ++ [0]) false) = Some (0, [5760; 5789]).
Proof. vm_compute. split_and!; reflexivity. Qed.
