(* ===== verification/UnicodeSetsSpec.v ===== *)
(** * Correctness of the sets of characters by name

    The tables decoded from their first byte to their last give every code point
    its category, its script, its script extensions and its bit of a property;
    the functions of UnicodeSets build exactly the sets that these references
    define. *)

From Stdlib Require Import String Ascii.
From S2P Require Import Prelude CArray Rqsort CBytes DynBuf CStr CharRange RunTable UnicodeTables UnicodeCase RegexpCanon UnicodeProp UnicodeSetTables UnicodeSets.
Open Scope Z_scope.

(** ** Intervals of the runs of a table *)

Section runs.
Context {R : Type} (ivs : Z -> Z -> R -> list (Z * Z)) (sel : R -> Z -> bool).

(** The intervals selected from consecutive runs that start at [c]. *)
Fixpoint run_ivs (c : Z) (runs : list (Z * R)) : list (Z * Z) :=
  match runs with [] => [] | (n, r) :: runs => ivs c n r ++ run_ivs (c + n) runs end.

(** The intervals of one run are sorted, inside it, and select its offsets. *)
Definition run_ok (e : Z * R) : Prop :=
  0 < e.1 /\ forall c, StronglySorted Z.le (bounds (ivs c e.1 e.2)) /\ Forall (fun p => c <= p <= c + e.1) (bounds (ivs c e.1 e.2)) /\
    forall x, c <= x < c + e.1 -> in_ivs (ivs c e.1 e.2) x = sel e.2 (x - c).

Definition run_in (c : Z) (runs : list (Z * R)) (x : Z) : bool :=
  match run_lookup c runs x with Some (r, o) => sel r o | None => false end.

Lemma in_ivs_outside s lo hi x : Forall (fun p => lo <= p <= hi) (bounds s) -> x < lo \/ hi <= x -> in_ivs s x = false.
Proof.
  induction s as [|[a b] s IH]; [done|]. cbn [bounds]. rewrite !Forall_cons. intros (Ha & Hb & Hs) Hx. cbn [in_ivs existsb].
  replace ((a <=? x) && (x <? b)) with false by lia. by apply IH.
Qed.

Lemma run_ivs_spec c runs : Forall run_ok runs ->
  StronglySorted Z.le (bounds (run_ivs c runs)) /\ Forall (fun p => c <= p <= c + total runs) (bounds (run_ivs c runs)) /\
  forall x, c <= x -> in_ivs (run_ivs c runs) x = run_in c runs x.
Proof.
  intros Hr. revert c. induction Hr as [|[n r] runs (Hn & Hok) Hrs IH]; intros c; [split; [constructor|]; split; [constructor|done]|].
  cbn [run_ivs total fst snd] in *. destruct (Hok c) as (S1 & F1 & I1). destruct (IH (c + n)) as (S2 & F2 & I2). rewrite bounds_app.
  assert (0 <= total runs) as Ht by (apply total_nonneg; eapply Forall_impl; [exact Hrs|]; by intros e [? _]).
  split_and!.
  - apply StronglySorted_app; [done|done|]. intros p q Hp Hq. rewrite Forall_forall in F1, F2. specialize (F1 p Hp). specialize (F2 q Hq). lia.
  - apply Forall_app. split; (eapply Forall_impl; [done|]); cbv beta; lia.
  - intros x Hx. rewrite in_ivs_app. unfold run_in. cbn [run_lookup]. destruct (x <? c + n) eqn:E; zbool.
    + rewrite (I1 x) by lia. rewrite (in_ivs_outside _ _ _ x F2) by lia. apply orb_false_r.
    + rewrite (in_ivs_outside _ _ _ x F1) by lia. cbn [orb]. apply I2. lia.
Qed.

(** A bound on the number of intervals. *)
Lemma run_ivs_zlen cost c runs : (forall c n r, (n, r) ∈ runs -> zlen (ivs c n r) <= cost n r) ->
  zlen (run_ivs c runs) <= foldr (fun e acc => cost e.1 e.2 + acc) 0 runs.
Proof.
  revert c. induction runs as [|[n r] runs IH]; intros c Hc; cbn [run_ivs foldr fst snd]; [done|]. rewrite zlen_app.
  pose proof (Hc c n r ltac:(by left)). pose proof (IH (c + n) ltac:(intros c' n' r' H'; apply Hc; by right)). lia.
Qed.
End runs.

(** ** Scanning loops *)

Section scan.
Context (realloc_func : realloc_t) `{!ReallocLaws realloc_func} (B : Z) (HB : B <= 2 ^ 29).
Context {R S St : Type} (ivs : Z -> Z -> R -> list (Z * Z)) (next : S -> option (list (Z * R) * S)) (more : S -> bool)
  (mk : S -> Z -> charrange -> St) (body : St -> option (St + (Z * charrange))).

(** The runs that the loop reads from the state [s] on. *)
Fixpoint trace (fuel : nat) (s : S) : option (list (Z * R)) :=
  match fuel with
  | O => None
  | Datatypes.S fuel =>
      if more s then '(rs, s) ← next s; l ← trace fuel s; Some (rs ++ l) else Some []
  end.

Context (Hmore : forall s rs s' c cr (Q : St + (Z * charrange) -> Prop), more s = true -> next s = Some (rs, s') ->
  0 <= c -> c + total rs < 2 ^ 32 -> Forall (fun e => 0 < e.1) rs ->
  wp (add_intervals realloc_func cr (run_ivs ivs c rs)) (fun '(r, cr') => Q (if r =? 0 then inl (mk s' (c + total rs) cr') else inr (-1, cr'))) ->
  wp (body (mk s c cr)) Q).
Context (Hend : forall s c cr, more s = false -> body (mk s c cr) = Some (inr (0, cr))).

Lemma run_ivs_app c a b : run_ivs ivs c (a ++ b) = run_ivs ivs c a ++ run_ivs ivs (c + total a) b.
Proof using .
  revert c. induction a as [|[n r] a IH]; intros c; cbn [run_ivs app total]; [by rewrite Z.add_0_r|].
  rewrite IH, <- app_assoc. do 3 f_equal. lia.
Qed.

Lemma scan_loop fuel s runs c cr : trace fuel s = Some runs -> Forall (fun e => 0 < e.1) runs -> 0 <= c -> c + total runs < 2 ^ 32 ->
  cr_ok B cr -> cr_len cr + 2 * zlen (run_ivs ivs c runs) <= B ->
  wp (loop fuel body (mk s c cr)) (added realloc_func B cr (run_ivs ivs c runs)).
Proof using All.
  revert s runs c cr. induction fuel as [|fuel IH]; intros s runs c cr Ht Hp Hc Hsum Hok Hl; [done|]. cbn [trace] in Ht. cbn [loop].
  destruct (more s) eqn:E.
  - destruct (next s) as [[rs s']|] eqn:En; [|done]. cbn [mbind option_bind] in Ht. destruct (trace fuel s') as [l|] eqn:Et; [|done]. cbn in Ht. injection Ht as <-.
    apply Forall_app in Hp as [Hp1 Hp2]. rewrite total_app in Hsum. pose proof (total_nonneg _ Hp1). pose proof (total_nonneg _ Hp2).
    rewrite run_ivs_app in Hl |- *. rewrite zlen_app in Hl. pose proof (zlen_nonneg (run_ivs ivs c rs)). pose proof (zlen_nonneg (run_ivs ivs (c + total rs) l)).
    set (Q := fun x : St + (Z * charrange) => wp (match x with inl s' => loop fuel body s' | inr r => Some r end) (added realloc_func B cr (run_ivs ivs c rs ++ run_ivs ivs (c + total rs) l))).
    assert (wp (body (mk s c cr)) Q) as Hb; [|destruct (body (mk s c cr)) as [[?|?]|]; [exact Hb..|done]].
    eapply Hmore; [done|done|lia|lia|done|]. eapply wp_mono; [apply (add_intervals_spec realloc_func B HB cr); [done|lia]|].
    intros [r cr'] [Hok' Hr]. cbn [fst snd] in *. unfold Q. destruct Hr as [(-> & Ho)|(-> & Hpts)]; cbn [Z.eqb].
    + split; [done|by left].
    + eapply wp_mono; [apply (IH s' l); try done; try lia|].
      * pose proof (cr_ok_pts_zlen B cr Hok) as L1. pose proof (cr_ok_pts_zlen B cr' Hok') as L2. rewrite Hpts, zlen_app, zlen_bounds in L2. lia.
      * intros [r2 cr2] [Hok2 Hr2]. split; [done|]. cbn [fst snd] in *. destruct Hr2 as [?|[-> Hp3]]; [by left|right]. split; [done|].
        by rewrite Hp3, Hpts, bounds_app, app_assoc.
  - injection Ht as <-. rewrite Hend by done. cbn [run_ivs]. split; [done|right]. cbn. by rewrite app_nil_r.
Qed.
End scan.

(** A range with the set [f] of the code points below [UINT32_MAX], in at most
    [N] points. *)
Definition is_set (B N : Z) (f : Z -> bool) (cr : charrange) : Prop :=
  cr_ok B cr /\ cr_len cr <= N /\ sorted_pts (pts cr) /\ Forall (fun p => 0 <= p <= UINT32_MAX) (pts cr) /\
  forall c, 0 <= c < UINT32_MAX -> set_of (pts cr) c = f c.

(** A set built in an empty range, unless the allocator refuses. *)
Definition built (realloc_func : realloc_t) (B N : Z) (f : Z -> bool) (x : Z * charrange) : Prop :=
  cr_ok B x.2 /\ ((x.1 = -1 /\ oom realloc_func) \/ (x.1 = 0 /\ is_set B N f x.2)).

Lemma added_built realloc_func B N cr l f x : pts cr = [] -> added realloc_func B cr l x -> 2 * zlen l <= N ->
  StronglySorted Z.le (bounds l) -> Forall (fun p => 0 <= p <= UINT32_MAX) (bounds l) -> (forall c, 0 <= c -> in_ivs l c = f c) ->
  built realloc_func B N f x.
Proof.
  intros Hp [Hok Hx] HN Hs Hr Hf. split; [done|]. destruct Hx as [?|[? E]]; [by left|right]. rewrite Hp in E. cbn [app] in E. unfold is_set. rewrite <- (cr_ok_pts_zlen _ _ Hok), E. split_and!; try done.
  - by rewrite zlen_bounds.
  - split; [done|]. rewrite zlen_bounds. by rewrite Z.even_mul.
  - intros c Hc. unfold set_of. rewrite intervals_bounds. apply Hf. lia.
Qed.

Lemma built_weaken realloc_func B N N' f f' x : built realloc_func B N f x -> N <= N' -> (forall c, 0 <= c < UINT32_MAX -> f c = f' c) -> built realloc_func B N' f' x.
Proof.
  intros [Hok [?|(? & Hs)]] HN Hf; (split; [done|]); [by left|right]. split; [done|]. destruct Hs as (? & ? & ? & ? & Hc).
  split_and!; try done; [lia|]. intros c Hc0. rewrite Hc by done. by apply Hf.
Qed.

Lemma empty_pts B cr : cr_ok B cr -> cr_len cr = 0 -> pts cr = [].
Proof. intros Hok Hl. pose proof (cr_ok_pts_zlen B cr Hok) as Hz. rewrite Hl in Hz. destruct (pts cr); [done|]. rewrite zlen_cons in Hz. pose proof (zlen_nonneg l). lia. Qed.

Definition runs_eqb {R} `{!EqDecision R} (a : option (list (Z * R))) (b : list (Z * R)) : bool := bool_decide (a = Some b).

Lemma runs_eqb_true {R} `{!EqDecision R} (a : option (list (Z * R))) b : runs_eqb a b = true -> a = Some b.
Proof. apply bool_decide_eq_true. Qed.

(** ** General categories *)

(** The runs of the table: length and category. *)
Fixpoint decode_gc (l : list Z) : list (Z * Z) :=
  match l with
  | [] => []
  | b :: l =>
      let v := b mod 32 in
      if b / 32 =? 7 then
        match l with
        | [] => []
        | n :: l =>
            if n <? 128 then (n + 8, v) :: decode_gc l
            else if n <? 192 then match l with b1 :: l => ((n - 128) * 256 + b1 + 136, v) :: decode_gc l | _ => [] end
            else match l with
                 | b1 :: b2 :: l => ((n - 192) * 65536 + b1 * 256 + b2 + 16520, v) :: decode_gc l
                 | _ => []
                 end
        end
      else (b / 32 + 1, v) :: decode_gc l
  end.

Definition gc_runs : list (Z * Z) := decode_gc unicode_gc_table.

(** The category at offset [o] of a run. *)
Definition gc_at (v o : Z) : Z := if v =? 31 then (if Z.even o then gc_idx UNICODE_GC_Lu else gc_idx UNICODE_GC_Ll) else v.

Definition gc_of (c : Z) : option Z := match run_lookup 0 gc_runs c with Some (v, o) => Some (gc_at v o) | None => None end.

Definition gc_sel (mask v o : Z) : bool := Z.testbit mask (gc_at v o).

Definition gc_next (p : Z) : option (list (Z * Z) * Z) := '(n, v, p) ← gc_run p; Some ([(n + 1, v)], p).

Definition gc_cost (n v : Z) : Z := if v =? 31 then n + 1 else 1.

Lemma gc_checks :
  runs_eqb (trace gc_next (fun p => p <? zlen unicode_gc_table) (length unicode_gc_table + 1) 0) gc_runs = true /\
  forallb (fun e => (0 <? e.1) && (0 <=? e.2) && (e.2 <? 32)) gc_runs = true /\ total gc_runs = 0x110000 /\
  foldr (fun e acc => gc_cost e.1 e.2 + acc) 0 gc_runs <= 2 ^ 14.
Proof. split_and!; vm_compute; congruence. Qed.

Lemma testbit_land mask v : 0 <= v -> (Z.land (Z.shiftr mask v) 1 =? 0) = negb (Z.testbit mask v).
Proof. intros Hv. rewrite land_1, <- Z.bit0_odd, Z.shiftr_spec, Z.add_0_l by lia. by destruct (Z.testbit mask v). Qed.

(** Every other code point from [c] on. *)
Fixpoint stride (c : Z) (n : nat) : list (Z * Z) :=
  match n with O => [] | S n => (c, c + 1) :: stride (c + 2) n end.

Lemma stride_seqZ c n k : (fun i => (c + 2 * i, c + 2 * i + 1)) <$> seqZ k (Z.of_nat n) = stride (c + 2 * k) n.
Proof.
  revert k. induction n as [|n IH]; intros k; [done|]. rewrite seqZ_cons by lia. cbn [fmap list_fmap stride].
  f_equal. replace (Z.pred (Z.of_nat (S n))) with (Z.of_nat n) by lia. unfold fmap in IH. rewrite IH. f_equal. lia.
Qed.

Lemma stride_spec c n hi : c + 2 * Z.of_nat n <= hi + 1 ->
  StronglySorted Z.le (bounds (stride c n)) /\ Forall (fun p => c <= p <= hi) (bounds (stride c n)) /\ zlen (stride c n) = Z.of_nat n /\
  forall x, in_ivs (stride c n) x = (c <=? x) && (x <? c + 2 * Z.of_nat n) && Z.even (x - c).
Proof.
  revert c. induction n as [|n IH]; intros c Hc.
  { split; [constructor|]. split; [constructor|]. split; [done|]. intros x. cbn [stride in_ivs existsb]. replace (c + 2 * Z.of_nat 0) with c by lia. by replace ((c <=? x) && (x <? c)) with false by lia. }
  destruct (IH (c + 2) ltac:(lia)) as (S1 & F1 & L1 & I1). cbn [stride bounds]. rewrite zlen_cons, L1.
  assert (Forall (fun p => c + 1 <= p) (bounds (stride (c + 2) n))) as F2 by (eapply Forall_impl; [exact F1|cbv beta; lia]).
  split_and!; [|constructor; [lia|constructor; [lia|]]|lia|].
  - constructor; [constructor; [done|exact F2]|]. constructor; [lia|]. eapply Forall_impl; [exact F2|cbv beta; lia].
  - eapply Forall_impl; [exact F1|cbv beta; lia].
  - intros x. cbn [in_ivs existsb]. fold (in_ivs (stride (c + 2) n) x). rewrite I1.
    replace (x - c) with (x - (c + 2) + 2 * 1) by lia. rewrite Z.even_add_mul_2.
    destruct (Z.even (x - (c + 2))) eqn:E; [|rewrite !andb_false_r, orb_false_r; apply not_true_iff_false; intros F; assert (x = c) as -> by lia; replace (c - (c + 2)) with (-2) in E by lia; done].
    assert (x <> c + 1) by (intros ->; replace (c + 1 - (c + 2)) with (-1) in E by lia; done).
    rewrite !andb_true_r. apply eq_iff_eq_true. rewrite orb_true_iff, !andb_true_iff, !Z.leb_le, !Z.ltb_lt. clear - H. lia.
Qed.

Lemma land_bit m k : 0 <= k -> Z.land m (2 ^ k) = 2 ^ k * Zb (Z.testbit m k).
Proof.
  intros Hk. apply Z.bits_inj'. intros i Hi. rewrite Z.land_spec. destruct (decide (i = k)) as [-> |].
  - rewrite Z.pow2_bits_true by done. destruct (Z.testbit m k); cbn [Zb]; [by rewrite Z.mul_1_r, Z.pow2_bits_true by done|by rewrite Z.mul_0_r, Z.bits_0].
  - rewrite Z.pow2_bits_false, andb_false_r by done. destruct (Z.testbit m k); cbn [Zb]; [by rewrite Z.mul_1_r, Z.pow2_bits_false by done|by rewrite Z.mul_0_r, Z.bits_0].
Qed.

(** The intervals of a run are those of its selected offsets. *)
Lemma gc_run_ok mask e : 0 < e.1 -> 0 <= e.2 -> run_ok (fun c n v => gc_ivs mask c (c + n) v) (gc_sel mask) e.
Proof.
  destruct e as [n v]. cbn [fst snd]. intros Hn Hv. split; [done|]. cbn [fst snd]. intros c. unfold gc_ivs, gc_sel, gc_at.
  assert (StronglySorted Z.le (bounds [(c, c + n)]) /\ Forall (fun p => c <= p <= c + n) (bounds [(c, c + n)])) as [W1 W2].
  { cbn. split; repeat constructor; lia. }
  assert (forall x, c <= x < c + n -> in_ivs [(c, c + n)] x = true) as W3 by (intros x Hx; cbn; lia).
  destruct (v =? 31) eqn:E31; zbool.
  - change (M UNICODE_GC_Ll) with (2 ^ 2). change (Z.lor (M UNICODE_GC_Lu) (2 ^ 2)) with 6. change (gc_idx UNICODE_GC_Lu) with 1. change (gc_idx UNICODE_GC_Ll) with 2.
    assert (Z.land mask 6 = Z.lor (2 ^ 1 * Zb (Z.testbit mask 1)) (2 ^ 2 * Zb (Z.testbit mask 2))) as ->
      by (change 6 with (Z.lor (2 ^ 1) (2 ^ 2)); rewrite Z.land_lor_distr_r, !land_bit; done).
    rewrite land_bit by done.
    assert (forall b, Z.testbit mask 1 = negb b -> Z.testbit mask 2 = b ->
      let s := (fun i => (c + Zb b + 2 * i, c + Zb b + 2 * i + 1)) <$> seqZ 0 ((c + n - (c + Zb b) + 1) / 2) in
      StronglySorted Z.le (bounds s) /\ Forall (fun p => c <= p <= c + n) (bounds s) /\
      forall x, c <= x < c + n -> in_ivs s x = Z.testbit mask (if Z.even (x - c) then 1 else 2)) as Hstride.
    { intros b Hb1 Hb2. cbv zeta. assert (0 <= Zb b <= 1) by (by destruct b). set (k := (c + n - (c + Zb b) + 1) / 2).
      assert (2 * k <= n - Zb b + 1 < 2 * k + 2) by (unfold k; Z.to_euclidean_division_equations; lia).
      clearbody k. rewrite <- (Z2Nat.id k) by lia. rewrite stride_seqZ. destruct (stride_spec (c + Zb b + 2 * 0) (Z.to_nat k) (c + n) ltac:(lia)) as (S1 & F1 & _ & I1).
      split_and!; [done|eapply Forall_impl; [exact F1|cbv beta; lia]|]. intros x Hx. rewrite I1.
      replace (x - (c + Zb b + 2 * 0)) with (x - c - Zb b) by lia. rewrite Z.even_sub.
      destruct b; cbn [Zb negb Z.even] in *; destruct (Z.even (x - c)) eqn:Ev; cbn [eqb]; rewrite ?andb_false_r, ?andb_true_r, ?Hb1, ?Hb2; try done.
      - assert (x <> c) by (intros ->; by rewrite Z.sub_diag in Ev). rewrite Z2Nat.id by lia. clear - H0 H1 Hx. apply andb_true_iff. lia.
      - rewrite Z2Nat.id by lia. clear - H0 Hx. apply andb_true_iff. lia. }
    destruct (Z.testbit mask 1) eqn:B1, (Z.testbit mask 2) eqn:B2; cbn [Zb].
    + split_and!; [done|done|]. intros x Hx. rewrite W3 by done. by destruct (Z.even (x - c)).
    + exact (Hstride false eq_refl eq_refl).
    + exact (Hstride true eq_refl eq_refl).
    + split_and!; [constructor|constructor|]. intros x Hx. by destruct (Z.even (x - c)).
  - rewrite testbit_land by done. destruct (Z.testbit mask v); cbn [negb]; [by split_and!|]. split_and!; [constructor|constructor|done].
Qed.

(** Whether the category of [c] is in [mask]. *)
Definition gc_in (mask c : Z) : bool := match gc_of c with Some v => Z.testbit mask v | None => false end.

Lemma run_in_gc mask c : run_in (gc_sel mask) 0 gc_runs c = gc_in mask c.
Proof. unfold run_in, gc_in, gc_of, gc_sel. by destruct (run_lookup 0 gc_runs c) as [[v o]|]. Qed.

Lemma run_ivs_all {R} (ivs : Z -> Z -> R -> list (Z * Z)) sel runs : Forall (run_ok ivs sel) runs -> total runs <= UINT32_MAX ->
  StronglySorted Z.le (bounds (run_ivs ivs 0 runs)) /\ Forall (fun p => 0 <= p <= UINT32_MAX) (bounds (run_ivs ivs 0 runs)) /\
  forall x, 0 <= x -> in_ivs (run_ivs ivs 0 runs) x = run_in sel 0 runs x.
Proof.
  intros Hr Ht. destruct (run_ivs_spec _ _ 0 runs Hr) as (S1 & F1 & I1). split_and!; [done| |done].
  eapply Forall_impl; [exact F1|cbv beta; lia].
Qed.

Lemma forallb_run_ok {R} (P : Z * R -> bool) (Q : Z * R -> Prop) runs : forallb P runs = true -> (forall e, P e = true -> Q e) -> Forall Q runs.
Proof. intros Hb HP. apply Forall_forall. intros e He. apply HP. apply list_elem_of_In in He. exact (proj1 (forallb_forall _ _) Hb e He). Qed.

(** A scan of a whole table into an empty range builds the set of its runs. *)
Lemma scan_built (realloc_func : realloc_t) `{!ReallocLaws realloc_func} B {R S St} (ivs : Z -> Z -> R -> list (Z * Z)) (sel : R -> Z -> bool)
    (next : S -> option (list (Z * R) * S)) (more : S -> bool) (mk : S -> Z -> charrange -> St) body fuel s runs cost N f cr :
  B <= 2 ^ 29 ->
  (forall s rs s' c cr (Q : St + (Z * charrange) -> Prop), more s = true -> next s = Some (rs, s') ->
    0 <= c -> c + total rs < 2 ^ 32 -> Forall (fun e => 0 < e.1) rs ->
    wp (add_intervals realloc_func cr (run_ivs ivs c rs)) (fun '(r, cr') => Q (if r =? 0 then inl (mk s' (c + total rs) cr') else inr (-1, cr'))) ->
    wp (body (mk s c cr)) Q) ->
  (forall s c cr, more s = false -> body (mk s c cr) = Some (inr (0, cr))) ->
  trace next more fuel s = Some runs -> Forall (run_ok ivs sel) runs -> total runs <= UINT32_MAX ->
  (forall c n r, (n, r) ∈ runs -> zlen (ivs c n r) <= cost n r) -> foldr (fun e acc => cost e.1 e.2 + acc) 0 runs <= N -> 2 * N <= B ->
  (forall c, 0 <= c -> run_in sel 0 runs c = f c) ->
  cr_ok B cr -> cr_len cr = 0 -> wp (loop fuel body (mk s 0 cr)) (built realloc_func B (2 * N) f).
Proof.
  intros HB Hmore Hend Ht Hr Hsum Hc HN HNB Hf Hok Hl.
  assert (Forall (fun e => 0 < e.1) runs) as Hpos by (eapply Forall_impl; [exact Hr|]; intros e He; apply He).
  pose proof (run_ivs_zlen ivs cost 0 runs Hc) as Hz. destruct (run_ivs_all ivs sel runs Hr Hsum) as (S1 & F1 & I1).
  eapply wp_mono; [eapply (scan_loop realloc_func B HB ivs next more mk body Hmore Hend fuel s runs 0 cr Ht Hpos)|].
  - lia.
  - unfold UINT32_MAX in Hsum. lia.
  - done.
  - lia.
  - intros x Hx. eapply added_built; [by eapply empty_pts|exact Hx|lia|done|done|]. intros c Hc0. rewrite I1 by done. by apply Hf.
Qed.

Section sets.
Context (realloc_func : realloc_t) `{!ReallocLaws realloc_func} (B : Z) (HB : 2 ^ 20 <= B <= 2 ^ 29).

Lemma gc_ivs_zlen mask c n v : 0 < n -> zlen (gc_ivs mask c (c + n) v) <= gc_cost n v.
Proof using .
  intros Hn. unfold gc_ivs, gc_cost. destruct (v =? 31); [|by destruct (_ =? 0)]. destruct (_ =? 0); [rewrite zlen_nil; lia|].
  destruct (_ =? _); [rewrite zlen_cons, zlen_nil; lia|]. unfold zlen. rewrite length_fmap, length_seqZ.
  destruct (negb _); cbn [Zb]; Z.to_euclidean_division_equations; lia.
Qed.

Lemma gc_runs_ok : Forall (fun e => 0 < e.1 /\ 0 <= e.2) gc_runs.
Proof using . destruct gc_checks as (_ & Hr & _). eapply forallb_run_ok; [exact Hr|]. intros e He. apply andb_true_iff in He as [He _]. apply andb_true_iff in He as [He1 He2]. split; [by apply Z.ltb_lt|by apply Z.leb_le]. Qed.

Lemma gc_body_scan mask p rs p' c cr' Q : (p <? zlen unicode_gc_table) = true -> gc_next p = Some (rs, p') -> 0 <= c -> c + total rs < 2 ^ 32 -> Forall (fun e => 0 < e.1) rs ->
  wp (add_intervals realloc_func cr' (run_ivs (fun c n v => gc_ivs mask c (c + n) v) c rs))
    (fun '(r, cr2) => Q (if r =? 0 then inl (p', c + total rs, cr2) else inr (-1, cr2))) ->
  wp (gc_body realloc_func mask (p, c, cr')) Q.
Proof using .
  intros Hm Hn Hc Hs Hp HQ. unfold gc_body. rewrite Hm. unfold gc_next in Hn.
  destruct (gc_run p) as [[[n v] p'']|]; [|done]. cbn in Hn. injection Hn as <- <-. cbn [total run_ivs fst snd] in *. cbn [mbind option_bind].
  rewrite app_nil_r in HQ. apply Forall_cons in Hp as [Hp _]. cbn [fst] in Hp. rewrite uwrap_id by (split; lia). rewrite Z.add_0_r in HQ.
  destruct (add_intervals _ _ _) as [[r cr2]|]; [|done]. cbn in HQ |- *. by destruct (r =? 0).
Qed.

Lemma gc_set mask cr : cr_ok B cr -> cr_len cr = 0 ->
  wp (unicode_general_category1 realloc_func cr mask) (built realloc_func B (2 ^ 15) (gc_in mask)).
Proof using All.
  intros Hok Hl. destruct gc_checks as (Ht & _ & Hsum & Hcost). apply runs_eqb_true in Ht. pose proof gc_runs_ok as Hr.
  unfold unicode_general_category1. change (2 ^ 15) with (2 * 2 ^ 14). apply (scan_built realloc_func B (fun c n v => gc_ivs mask c (c + n) v) (gc_sel mask) gc_next (fun p => p <? zlen unicode_gc_table)
    (fun p c cr => (p, c, cr)) (gc_body realloc_func mask) _ 0 gc_runs gc_cost (2 ^ 14)).
  - lia.
  - intros. by eapply gc_body_scan.
  - intros p c cr' Hm. unfold gc_body. by rewrite Hm.
  - exact Ht.
  - eapply Forall_impl; [exact Hr|]. intros e [? ?]. by apply gc_run_ok.
  - rewrite Hsum. by vm_compute.
  - intros c n v Hin. rewrite Forall_forall in Hr. apply gc_ivs_zlen. exact (proj1 (Hr _ Hin)).
  - exact Hcost.
  - lia.
  - intros c _. apply run_in_gc.
  - done.
  - done.
Qed.
(** ** Binary properties *)

(** The runs whose value satisfies [P], whole. *)
Definition pick_ivs {R} (P : R -> bool) (c n : Z) (r : R) : list (Z * Z) := if P r then [(c, c + n)] else [].
Definition pick_sel {R} (P : R -> bool) (r : R) (o : Z) : bool := P r.

Lemma pick_run_ok {R} (P : R -> bool) e : 0 < e.1 -> run_ok (pick_ivs P) (pick_sel P) e.
Proof using .
  intros Hn. split; [done|]. intros c. destruct e as [n r]. cbn [fst snd] in *. unfold pick_ivs, pick_sel. destruct (P r).
  - cbn. split_and!; [repeat constructor; lia|repeat constructor; lia|]. intros x Hx. lia.
  - split_and!; [constructor|constructor|done].
Qed.

Lemma pick_ivs_zlen {R} (P : R -> bool) c n r : zlen (pick_ivs P c n r) <= 1.
Proof using . unfold pick_ivs. by destruct (P r). Qed.

Lemma sum_ones {R} (l : list (Z * R)) : foldr (fun e acc => 1 + acc) 0 l = zlen l.
Proof using . induction l as [|e l IH]; [done|]. cbn [foldr]. rewrite zlen_cons. lia. Qed.

Definition bit_ivs : Z -> Z -> bool -> list (Z * Z) := pick_ivs (fun b => b).
Definition bit_sel : bool -> Z -> bool := pick_sel (fun b => b).

(** The code points whose bit is set in the decoded table of a property. *)
Definition prop_bits (table : list Z) (c : Z) : bool := run_in bit_sel 0 (decode_bits false table) c.

Definition prop_in (p : UnicodePropertyEnum) (c : Z) : bool :=
  match rd unicode_prop_table (prop_idx p) with Some table => prop_bits table c | None => false end.

(** The runs of alternating values that start with [bit]. *)
Fixpoint alternate (bit : bool) (lens : list Z) : list (Z * bool) :=
  match lens with [] => [] | n :: lens => (n, bit) :: alternate (negb bit) lens end.

Definition last_bit (bit : bool) (lens : list Z) : bool := fold_left (fun b _ => negb b) lens bit.

Definition prop_next (table : list Z) (s : Z * bool) : option (list (Z * bool) * (Z * bool)) :=
  '(lens, p) ← prop_run table s.1; Some (alternate s.2 lens, (p, last_bit s.2 lens)).

Definition prop_table_ok (table : list Z) : bool :=
  runs_eqb (trace (prop_next table) (fun s => s.1 <? zlen table) (length table + 1) (0, false)) (decode_bits false table)
  && forallb (fun e => 0 <? e.1) (decode_bits false table) && (total (decode_bits false table) <=? 0x110000)
  && (zlen (decode_bits false table) <=? 2 ^ 11).

Lemma prop_tables_ok : forallb prop_table_ok unicode_prop_table = true.
Proof using . vm_cast_no_check (@eq_refl bool true). Qed.

Lemma prop_add_wp lens cr c bit (Q : Z * charrange * Z * bool -> Prop) : 0 <= c -> c + total (alternate bit lens) < 2 ^ 32 ->
  Forall (fun e => 0 < e.1) (alternate bit lens) ->
  wp (add_intervals realloc_func cr (run_ivs bit_ivs c (alternate bit lens))) (fun '(r, cr') =>
    if r =? 0 then Q (0, cr', c + total (alternate bit lens), last_bit bit lens) else forall c' b', Q (-1, cr', c', b')) ->
  wp (prop_add realloc_func cr c bit lens) Q.
Proof using .
  revert cr c bit. induction lens as [|n lens IH]; intros cr c bit Hc Hs Hp HQ.
  { cbn in HQ |- *. by rewrite Z.add_0_r in HQ. }
  cbn [alternate run_ivs total prop_add] in *. apply Forall_cons in Hp as [Hn Hp]. cbn [fst] in Hn.
  pose proof (total_nonneg _ Hp). rewrite uwrap_id by (split; lia). destruct bit; cbn [bit_ivs pick_ivs app negb] in *.
  - cbn [add_intervals] in HQ. destruct (cr_add_interval realloc_func cr c (c + n)) as [[r cr']|]; [|done]. cbn [mbind option_bind] in *.
    destruct (r =? 0) eqn:E; cbn [negb] in *; [|exact (HQ _ _)]. apply IH; [lia|lia|done|]. by rewrite Z.add_assoc in HQ.
  - cbn [mbind option_bind]. change (0 =? 0) with true. cbn [negb]. apply IH; [lia|lia|done|]. by rewrite Z.add_assoc in HQ.
Qed.

Lemma prop_body_scan table s rs s' c cr' Q : (s.1 <? zlen table) = true -> prop_next table s = Some (rs, s') -> 0 <= c -> c + total rs < 2 ^ 32 -> Forall (fun e => 0 < e.1) rs ->
  wp (add_intervals realloc_func cr' (run_ivs bit_ivs c rs))
    (fun '(r, cr2) => Q (if r =? 0 then inl (s'.1, c + total rs, s'.2, cr2) else inr (-1, cr2))) ->
  wp (prop_body realloc_func table (zlen table) (s.1, c, s.2, cr')) Q.
Proof using .
  intros Hm Hn Hc Hs Hp HQ. unfold prop_body. rewrite Hm. unfold prop_next in Hn.
  destruct (prop_run table s.1) as [[lens p'']|]; [|done]. cbn in Hn. injection Hn as <- <-. cbn [fst snd] in HQ. cbn [mbind option_bind].
  apply wp_bind. apply prop_add_wp; [done|done|done|]. eapply wp_mono; [exact HQ|]. intros [r cr2] H2. by destruct (r =? 0).
Qed.

Lemma prop1_set i table cr : rd unicode_prop_table i = Some table -> cr_ok B cr -> cr_len cr = 0 ->
  wp (unicode_prop1 realloc_func cr i) (built realloc_func B (2 ^ 12) (prop_bits table)).
Proof using All.
  intros Ht Hok Hl. unfold unicode_prop1. rewrite Ht. cbn [mbind option_bind].
  assert (rd unicode_prop_len_table i = Some (zlen table)) as ->.
  { unfold unicode_prop_len_table. pose proof (rd_Some_range _ _ _ Ht). rewrite rd_lookup in Ht by lia. rewrite rd_lookup by lia. by rewrite list_lookup_fmap, Ht. }
  cbn [mbind option_bind]. pose proof prop_tables_ok as Hk. rewrite forallb_forall in Hk.
  specialize (Hk table ltac:(apply list_elem_of_In; by eapply rd_elem)). unfold prop_table_ok in Hk.
  apply andb_true_iff in Hk as [Hk Hlen]. apply andb_true_iff in Hk as [Hk Hsum]. apply andb_true_iff in Hk as [Htr Hpos].
  apply runs_eqb_true in Htr. apply Z.leb_le in Hsum, Hlen.
  assert (Forall (fun e => 0 < e.1) (decode_bits false table)) as Hr by (eapply forallb_run_ok; [exact Hpos|]; intros e He; by apply Z.ltb_lt).
  change (2 ^ 12) with (2 * 2 ^ 11). apply (scan_built realloc_func B bit_ivs bit_sel (prop_next table) (fun s => s.1 <? zlen table)
    (fun s c cr => (s.1, c, s.2, cr)) (prop_body realloc_func table (zlen table)) _ (0, false) (decode_bits false table) (fun _ _ => 1) (2 ^ 11)).
  - lia.
  - intros. by eapply prop_body_scan.
  - intros s c cr' Hm. unfold prop_body. by rewrite Hm.
  - exact Htr.
  - eapply Forall_impl; [exact Hr|]. intros e ?. by apply pick_run_ok.
  - unfold UINT32_MAX. lia.
  - intros c n b _. apply pick_ivs_zlen.
  - by rewrite sum_ones.
  - lia.
  - done.
  - done.
  - done.
Qed.
(** ** Case changes *)

Lemma case1_set m cr : m ∈ case_masks -> cr_ok B cr -> cr_len cr = 0 ->
  wp (unicode_case1 realloc_func cr m) (built realloc_func B (2 ^ 16) (modified m)).
Proof using All.
  intros Hm Hok Hl. destruct (case1_ivs_facts m Hm) as (Hs & HN & Hr).
  eapply wp_mono; [apply (unicode_case1_spec realloc_func B ltac:(lia) ltac:(lia) cr m Hm Hok Hl)|]. intros x Hx.
  eapply added_built; [by eapply empty_pts|exact Hx|lia|apply Hs|done|]. intros c Hc. by apply case1_in_modified.
Qed.

(** ** Scripts *)

(** A run length of [l], less one: one, two or three bytes. *)
Definition decode_len (lo1 lo2 base1 base2 b : Z) (l : list Z) : option (Z * list Z) :=
  if b <? lo1 then Some (b, l)
  else if b <? lo2 then match l with b1 :: l => Some ((b - lo1) * 256 + b1 + base1, l) | [] => None end
  else match l with b1 :: b2 :: l => Some ((b - lo2) * 65536 + b1 * 256 + b2 + base2, l) | _ => None end.

(** The runs of the script table: length and script. *)
Fixpoint decode_script (fuel : nat) (l : list Z) : list (Z * Z) :=
  match fuel, l with
  | S fuel, b :: l =>
      match decode_len 96 112 96 4192 (b mod 128) l with
      | None => []
      | Some (n, l) =>
          if b <? 128 then (n + 1, 0) :: decode_script fuel l
          else match l with v :: l => (n + 1, v) :: decode_script fuel l | [] => [] end
      end
  | _, _ => []
  end.

(** The runs of the extensions: length and scripts. *)
Fixpoint decode_ext (fuel : nat) (l : list Z) : list (Z * list Z) :=
  match fuel, l with
  | S fuel, b :: l =>
      match decode_len 128 192 128 16512 b l with
      | Some (n, k :: l) => (n + 1, take (Z.to_nat k) l) :: decode_ext fuel (drop (Z.to_nat k) l)
      | _ => []
      end
  | _, _ => []
  end.

Definition script_runs : list (Z * Z) := decode_script (length unicode_script_table) unicode_script_table.
Definition ext_runs : list (Z * list Z) := decode_ext (length unicode_script_ext_table) unicode_script_ext_table.

Definition script_next (p : Z) : option (list (Z * Z) * Z) := '(n, v, p) ← script_run p; Some ([(n + 1, v)], p).

Definition ext_next (p : Z) : option (list (Z * list Z) * Z) :=
  '(n, k, p) ← ext_run p; l ← mapM (rd unicode_script_ext_table) (seqZ p k); if 0 <=? k then Some ([(n + 1, l)], p + k) else None.

Lemma script_checks :
  runs_eqb (trace script_next (fun p => p <? zlen unicode_script_table) (length unicode_script_table + 1) 0) script_runs = true /\
  forallb (fun e => 0 <? e.1) script_runs = true /\ (total script_runs <=? 0x110000) && (zlen script_runs <=? 2 ^ 14) = true /\
  runs_eqb (trace ext_next (fun p => p <? zlen unicode_script_ext_table) (length unicode_script_ext_table + 1) 0) ext_runs = true /\
  forallb (fun e => 0 <? e.1) ext_runs = true /\ (total ext_runs <=? 0x110000) && (zlen ext_runs <=? 2 ^ 14) = true.
Proof using . split_and!; vm_cast_no_check (@eq_refl bool true). Qed.

#[local] Opaque gc_runs script_runs ext_runs.

(** The script of a code point, and its script extensions. *)
Definition script_is (idx c : Z) : bool := run_in (pick_sel (fun v => v =? idx)) 0 script_runs c.
Definition ext_any (c : Z) : bool := run_in (pick_sel (fun l => negb (zlen l =? 0))) 0 ext_runs c.
Definition ext_is (idx c : Z) : bool := run_in (pick_sel (existsb (fun v => v =? idx))) 0 ext_runs c.

Lemma script_body_scan idx p rs p' c cr' Q : (p <? zlen unicode_script_table) = true -> script_next p = Some (rs, p') -> 0 <= c -> c + total rs < 2 ^ 32 -> Forall (fun e => 0 < e.1) rs ->
  wp (add_intervals realloc_func cr' (run_ivs (pick_ivs (fun v => v =? idx)) c rs))
    (fun '(r, cr2) => Q (if r =? 0 then inl (p', c + total rs, cr2) else inr (-1, cr2))) ->
  wp (script_body realloc_func idx (p, c, cr')) Q.
Proof using .
  intros Hm Hn Hc Hs Hp HQ. unfold script_body. rewrite Hm. unfold script_next in Hn.
  destruct (script_run p) as [[[n v] p'']|]; [|done]. cbn in Hn. injection Hn as <- <-. cbn [total run_ivs fst snd] in *. cbn [mbind option_bind].
  rewrite app_nil_r in HQ. apply Forall_cons in Hp as [Hp _]. cbn [fst] in Hp. rewrite uwrap_id by (split; lia). rewrite Z.add_0_r, Z.add_assoc in HQ.
  unfold pick_ivs in HQ. rewrite Z.add_assoc in HQ. destruct (add_intervals _ _ _) as [[r cr2]|]; [|done]. cbn in HQ |- *. by destruct (r =? 0).
Qed.

Lemma ext_has_spec idx p (k : nat) l : mapM (rd unicode_script_ext_table) (seqZ p (Z.of_nat k)) = Some l -> ext_has idx p k = Some (existsb (fun v => v =? idx) l).
Proof using .
  revert p l. induction k as [|k IH]; intros p l Hl; [by injection Hl as <-|].
  rewrite seqZ_cons in Hl by lia. replace (Z.pred (Z.of_nat (S k))) with (Z.of_nat k) in Hl by lia. cbn [mapM] in Hl. cbn [ext_has].
  destruct (rd unicode_script_ext_table p) as [v|]; [|done]. cbn [mbind option_bind] in Hl |- *.
  destruct (mapM _ (seqZ (Z.succ p) (Z.of_nat k))) as [l'|] eqn:E; [|done]. cbn in Hl. injection Hl as <-. cbn [existsb].
  destruct (v =? idx); [done|]. rewrite <- Z.add_1_r in E. by rewrite (IH _ _ E).
Qed.

(** Which runs of the extensions are collected. *)
Definition ext_pick (idx : Z) (is_common : bool) : list Z -> bool :=
  if is_common then fun l => negb (zlen l =? 0) else existsb (fun v => v =? idx).

Lemma ext_body_scan idx b p rs p' c cr' Q : (p <? zlen unicode_script_ext_table) = true -> ext_next p = Some (rs, p') -> 0 <= c -> c + total rs < 2 ^ 32 -> Forall (fun e => 0 < e.1) rs ->
  wp (add_intervals realloc_func cr' (run_ivs (pick_ivs (ext_pick idx b)) c rs))
    (fun '(r, cr2) => Q (if r =? 0 then inl (p', c + total rs, cr2) else inr (-1, cr2))) ->
  wp (ext_body realloc_func idx b (p, c, cr')) Q.
Proof using .
  intros Hm Hn Hc Hs Hp HQ. unfold ext_body. rewrite Hm. unfold ext_next in Hn.
  destruct (ext_run p) as [[[n k] p'']|] eqn:Er; [|done]. cbn [mbind option_bind] in Hn |- *.
  destruct (mapM _ (seqZ p'' k)) as [l|] eqn:El; [|done]. cbn in Hn. destruct (0 <=? k) eqn:Hk; [|done]. apply Z.leb_le in Hk. injection Hn as <- <-. cbn [total run_ivs fst snd] in *.
  rewrite app_nil_r in HQ. apply Forall_cons in Hp as [Hp _]. cbn [fst] in Hp. rewrite uwrap_id by (split; lia). rewrite Z.add_0_r, Z.add_assoc in HQ.
  assert ((if b then Some (negb (k =? 0)) else ext_has idx p'' (Z.to_nat k)) = Some (ext_pick idx b l)) as ->.
  { destruct b; cbn [ext_pick].
    - apply length_mapM in El || apply mapM_length in El. rewrite length_seqZ in El. unfold zlen. rewrite <- El, Z2Nat.id by done. done.
    - apply ext_has_spec. by rewrite Z2Nat.id. }
  cbn [mbind option_bind]. unfold pick_ivs in HQ. rewrite Z.add_assoc in HQ. destruct (add_intervals _ _ _) as [[r cr2]|]; [|done]. cbn in HQ |- *. by destruct (r =? 0).
Qed.

Lemma script_set idx cr : cr_ok B cr -> cr_len cr = 0 ->
  wp (loop (length unicode_script_table + 1) (script_body realloc_func idx) (0, 0, cr)) (built realloc_func B (2 ^ 15) (script_is idx)).
Proof using All.
  intros Hok Hl. destruct script_checks as (Ht & Hpos & Hsum & _). apply runs_eqb_true in Ht. apply andb_true_iff in Hsum as [Hsum Hlen]. apply Z.leb_le in Hsum, Hlen.
  change (2 ^ 15) with (2 * 2 ^ 14). apply (scan_built realloc_func B (pick_ivs (fun v => v =? idx)) (pick_sel (fun v => v =? idx)) script_next
    (fun p => p <? zlen unicode_script_table) (fun p c cr => (p, c, cr)) (script_body realloc_func idx) _ 0 script_runs (fun _ _ => 1) (2 ^ 14)).
  - lia.
  - intros. by eapply script_body_scan.
  - intros p c cr' Hm. unfold script_body. by rewrite Hm.
  - exact Ht.
  - eapply forallb_run_ok; [exact Hpos|]. intros e He. apply pick_run_ok. by apply Z.ltb_lt.
  - unfold UINT32_MAX. lia.
  - intros c n v _. apply pick_ivs_zlen.
  - by rewrite sum_ones.
  - lia.
  - intros c _. unfold script_is. reflexivity.
  - exact Hok.
  - exact Hl.
Qed.

Lemma ext_set idx b cr : cr_ok B cr -> cr_len cr = 0 ->
  wp (loop (length unicode_script_ext_table + 1) (ext_body realloc_func idx b) (0, 0, cr))
    (built realloc_func B (2 ^ 15) (run_in (pick_sel (ext_pick idx b)) 0 ext_runs)).
Proof using All.
  intros Hok Hl. destruct script_checks as (_ & _ & _ & Ht & Hpos & Hsum). apply runs_eqb_true in Ht. apply andb_true_iff in Hsum as [Hsum Hlen]. apply Z.leb_le in Hsum, Hlen.
  change (2 ^ 15) with (2 * 2 ^ 14). apply (scan_built realloc_func B (pick_ivs (ext_pick idx b)) (pick_sel (ext_pick idx b)) ext_next
    (fun p => p <? zlen unicode_script_ext_table) (fun p c cr => (p, c, cr)) (ext_body realloc_func idx b) _ 0 ext_runs (fun _ _ => 1) (2 ^ 14)).
  - lia.
  - intros. by eapply ext_body_scan.
  - intros p c cr' Hm. unfold ext_body. by rewrite Hm.
  - exact Ht.
  - eapply forallb_run_ok; [exact Hpos|]. intros e He. apply pick_run_ok. by apply Z.ltb_lt.
  - unfold UINT32_MAX. lia.
  - intros c n v _. apply pick_ivs_zlen.
  - by rewrite sum_ones.
  - lia.
  - intros c _. reflexivity.
  - exact Hok.
  - exact Hl.
Qed.

(** Set operations on ranges that are sets. *)
Lemma op_set op N1 N2 f1 f2 cr cr1 cr2 : is_set B N1 f1 cr1 -> is_set B N2 f2 cr2 -> N1 + N2 <= B -> cr_ok B cr -> cr_len cr = 0 ->
  wp (cr_op realloc_func cr (points cr1) (cr_len cr1) (points cr2) (cr_len cr2) op)
    (built realloc_func B (N1 + N2) (fun c => op_bool op (f1 c) (f2 c))).
Proof using All.
  intros (Hok1 & L1 & S1 & R1 & F1) (Hok2 & L2 & S2 & R2 & F2) HN Hok Hl.
  eapply wp_mono; [apply (cr_op_sets realloc_func B ltac:(lia) cr cr1 cr2 op B B); try done; lia|].
  intros [r cr'] (Hok' & [?|(-> & Hc & Hl' & Hs & HP)]); (split; [done|]); [by left|right]. split; [done|]. cbn [snd]. split_and!; [done|lia|by apply canonical_sorted|by apply HP|].
  intros c Hc0. by rewrite Hs, F1, F2.
Qed.

Lemma invert_set N f cr : is_set B N f cr -> N + 2 <= B -> wp (cr_invert realloc_func cr) (built realloc_func B (N + 2) (fun c => negb (f c))).
Proof using All.
  intros (Hok & L & S1 & R & F) HN. eapply wp_mono; [apply (cr_invert_sets realloc_func B ltac:(lia) cr); try done; lia|].
  intros [r cr'] (Hok' & [(-> & ? & ?)|(-> & Hc & Hl' & Hs & HP)]); (split; [done|]); [by left|right]. split; [done|]. cbn [snd]. split_and!; [done|lia|by apply canonical_sorted|done|].
  intros c Hc0. by rewrite Hs, F.
Qed.

(** The set of the script [idx], or of its extensions: the code points with the
    script or with the script among their extensions; for the scripts Common and
    Inherited, those with the script and no extension. *)
Definition script_sem (idx : Z) (is_ext : bool) (c : Z) : bool :=
  if is_ext then
    if (idx =? UNICODE_SCRIPT_Common) || (idx =? UNICODE_SCRIPT_Inherited) then script_is idx c && negb (ext_any c)
    else script_is idx c || ext_is idx c
  else script_is idx c.

(** The result of [unicode_script]; a refused allocation is never reported. *)
Definition script_built (f : Z -> bool) (x : option (Z * charrange)) : Prop :=
  (x = None /\ oom realloc_func) \/ exists cr, x = Some (0, cr) /\ is_set B (2 ^ 17) f cr.

Lemma built_or {A} N f (x : option (Z * charrange)) (k : Z * charrange -> option A) (Q : option A -> Prop) :
  wp x (built realloc_func B N f) -> (oom realloc_func -> forall cr, Q (k (-1, cr))) -> (forall cr, is_set B N f cr -> Q (k (0, cr))) -> Q (x ≫= k).
Proof using .
  destruct x as [[r cr]|]; [|done]. intros [Hok Hr]. cbn [fst snd] in Hr. destruct Hr as [[-> Ho]|[-> Hs]]; cbn [mbind option_bind]; eauto.
Qed.

Lemma script_main cr name is_ext k : unicode_find_name unicode_script_name_table name = Some k -> 0 <= k -> cr_ok B cr -> cr_len cr = 0 ->
  script_built (script_sem (k + 1) is_ext) (unicode_script realloc_func cr name is_ext).
Proof using All.
  intros Hf Hk Hok Hl. unfold unicode_script. rewrite Hf. cbn [mbind option_bind]. replace (k <? 0) with false by lia.
  replace (k + UNICODE_SCRIPT_Unknown + 1) with (k + 1) by (unfold UNICODE_SCRIPT_Unknown; lia).
  pose proof (cr_init_ok B ltac:(lia)) as Hinit. unfold script_sem. destruct is_ext.
  - eapply built_or; [by apply script_set|intros Ho cr1; by left|]. intros cr1 H1. cbn [Z.eqb negb].
    eapply built_or; [by apply ext_set|intros Ho cr2; by left|]. intros cr2 H2. cbn [Z.eqb negb].
    destruct ((k + 1 =? UNICODE_SCRIPT_Common) || (k + 1 =? UNICODE_SCRIPT_Inherited)); cbn [ext_pick] in H2.
    + eapply built_or; [apply (invert_set _ _ _ H2); lia|intros Ho cr3; by left|]. intros cr3 H3. cbn [Z.eqb negb].
      eapply built_or; [apply (op_set CR_OP_INTER _ _ _ _ _ _ _ H1 H3); (done || lia)|intros Ho cr4; by left|]. intros cr4 H4. cbn [Z.eqb negb].
      right. eexists. split; [done|]. destruct H4 as (? & ? & ? & ? & ?). split_and!; try done; lia.
    + eapply built_or; [apply (op_set CR_OP_UNION _ _ _ _ _ _ _ H1 H2); (done || lia)|intros Ho cr4; by left|]. intros cr4 H4. cbn [Z.eqb negb].
      right. eexists. split; [done|]. destruct H4 as (? & ? & ? & ? & ?). split_and!; try done; lia.
  - eapply built_or; [by apply script_set|intros Ho cr1; by left|]. intros cr1 H1. cbn [Z.eqb negb].
    right. eexists. split; [done|]. destruct H1 as (? & ? & ? & ? & ?). split_and!; try done; lia.
Qed.
End sets.
