(* ===== verification/UnicodePropSets.v ===== *)
(** * Derived properties and sets by name

    The stack machine of the derived properties refines an evaluation of its
    program on sets; the name tables are searched like lists of lists of aliases;
    the sets that names denote. *)

From Stdlib Require Import String Ascii.
From S2P Require Import Prelude CArray Rqsort CBytes DynBuf CStr CharRange RunTable UnicodeTables UnicodeCase RegexpCanon UnicodeProp UnicodeSetTables UnicodeSets UnicodeSetsSpec.
Open Scope Z_scope.

(** ** Programs on sets *)

Definition sem_push (f : Z -> bool) (st : list (Z -> bool)) : option (list (Z -> bool)) :=
  if zlen st <? POP_STACK_LEN_MAX then Some (f :: st) else None.

Definition sem_binary (op : CharRangeOpEnum) (st : list (Z -> bool)) : option (list (Z -> bool)) :=
  match st with
  | f2 :: f1 :: st' => if zlen st <? POP_STACK_LEN_MAX then Some ((fun c => op_bool op (f1 c) (f2 c)) :: st') else None
  | _ => None
  end.

Definition sem_step (op : pop) (st : list (Z -> bool)) : option (list (Z -> bool)) :=
  match op with
  | POP_GC a => sem_push (gc_in a) st
  | POP_PROP a => if prop_idx a <? zlen unicode_prop_table then sem_push (prop_in a) st else None
  | POP_CASE a => if existsb (Z.eqb a) case_masks then sem_push (modified a) st else None
  | POP_UNION => sem_binary CR_OP_UNION st
  | POP_INTER => sem_binary CR_OP_INTER st
  | POP_XOR => sem_binary CR_OP_XOR st
  | POP_INVERT => match st with f :: st => Some ((fun c => negb (f c)) :: st) | [] => None end
  end.

Fixpoint pop_sem (ops : list pop) (st : list (Z -> bool)) : option (list (Z -> bool)) :=
  match ops with [] => Some st | op :: ops => st ← sem_step op st; pop_sem ops st end.

Lemma prop_idx_nonneg p : 0 <= prop_idx p.
Proof. by destruct p. Qed.

Section refine.
Context (realloc_func : realloc_t) `{!ReallocLaws realloc_func} (B : Z) (HB : 2 ^ 20 <= B <= 2 ^ 29).

Definition rep (cr : charrange) (f : Z -> bool) : Prop := is_set B (cr_len cr) f cr.
Definition stack_pts (stack : list charrange) : Z := foldr (fun cr acc => cr_len cr + acc) 0 stack.

(** A step of the machine: out of memory, or the step on sets. *)
Definition stepped (S : Z) (st : list (Z -> bool)) (x : Z * list charrange) : Prop :=
  (x.1 = -1 /\ oom realloc_func) \/ (x.1 = 0 /\ Forall2 rep x.2 st /\ stack_pts x.2 <= S).

Lemma is_set_rep N f cr : is_set B N f cr -> rep cr f /\ cr_len cr <= N.
Proof using . intros (? & ? & ? & ? & ?). by split_and!. Qed.

Lemma Forall2_zlen {A C} (P : A -> C -> Prop) l k : Forall2 P l k -> zlen l = zlen k.
Proof using . intros H. unfold zlen. by rewrite (Forall2_length _ _ _ H). Qed.

Lemma stack_pts_nonneg stack st : Forall2 rep stack st -> 0 <= stack_pts stack.
Proof using .
  induction 1 as [|cr f stack st Hr Hst IH]; [done|]. cbn [stack_pts foldr]. fold (stack_pts stack). destruct Hr as ((_ & ? & _) & _). lia.
Qed.

Lemma pop_push_spec S fill f stack st st' : sem_push f st = Some st' -> Forall2 rep stack st -> stack_pts stack <= S ->
  wp (fill cr_init) (built realloc_func B (2 ^ 16) f) -> wp (pop_push fill stack) (stepped (S + 2 ^ 16) st').
Proof using .
  intros Hs Hst HS Hf. unfold pop_push, sem_push in *. rewrite (Forall2_zlen _ _ _ Hst). destruct (_ <? _); [|done]. injection Hs as <-.
  eapply (built_or realloc_func B _ _ (fill cr_init) _ (fun x => wp x _)); [exact Hf|intros Ho cr; by left|]. intros cr Hcr. cbn [Z.eqb negb]. right.
  apply is_set_rep in Hcr as [??]. split; [done|]. split; [by constructor|]. cbn [snd stack_pts foldr]. fold (stack_pts stack). lia.
Qed.

Lemma pop_binary_spec S op stack st st' : sem_binary op st = Some st' -> Forall2 rep stack st -> stack_pts stack <= S -> S <= B ->
  wp (pop_binary realloc_func op stack) (stepped (S + 2 ^ 16) st').
Proof using All.
  intros Hs Hst HS HSB. unfold sem_binary in Hs. destruct Hst as [|cr2 f2 stack st H2 Hst]; [done|]. destruct Hst as [|cr1 f1 stack st H1 Hst]; [done|].
  unfold pop_binary. rewrite !zlen_cons in *. rewrite (Forall2_zlen _ _ _ Hst). destruct (_ <? _); [|done]. injection Hs as <-.
  cbn [stack_pts foldr] in HS. fold (stack_pts stack) in HS.
  pose proof (stack_pts_nonneg _ _ Hst) as Hn.
  eapply (built_or realloc_func B _ _ (cr_op _ _ _ _ _ _ _) _ (fun x => wp x _)).
  - apply (op_set realloc_func B HB op _ _ _ _ _ _ _ H1 H2); [lia|apply cr_init_ok; lia|done].
  - intros Ho cr. by left.
  - intros cr Hcr. right. apply is_set_rep in Hcr as [??]. split; [done|]. split; [by constructor|].
    cbn [snd stack_pts foldr]. fold (stack_pts stack). lia.
Qed.

Lemma pop_step_spec S op stack st st' : sem_step op st = Some st' -> Forall2 rep stack st -> stack_pts stack <= S -> S + 2 ^ 16 <= B ->
  wp (pop_step realloc_func op stack) (stepped (S + 2 ^ 16) st').
Proof using All.
  intros Hs Hst HS HSB. pose proof (cr_init_ok B ltac:(lia)) as Hinit. destruct op; cbn [sem_step pop_step] in *; try (by eapply pop_binary_spec; eauto; lia).
  - eapply pop_push_spec; [done..|]. eapply wp_mono; [by apply gc_set|]. intros x Hx. by eapply built_weaken.
  - pose proof (prop_idx_nonneg prop) as Hp. destruct (_ <? _) eqn:E; [|done]. apply Z.ltb_lt in E.
    destruct (rd_is_Some unicode_prop_table (prop_idx prop) ltac:(lia)) as [table Ht].
    eapply pop_push_spec; [done..|]. eapply wp_mono; [by eapply prop1_set|]. intros x Hx. eapply built_weaken; [exact Hx|lia|]. intros c _. unfold prop_in. by rewrite Ht.
  - destruct (existsb _ _) eqn:E; [|done]. apply existsb_exists in E as (m & Hm & E). apply Z.eqb_eq in E as <-. apply list_elem_of_In in Hm.
    eapply pop_push_spec; [done..|]. by apply case1_set.
  - destruct Hst as [|cr f stack st H1 Hst]; [done|]. injection Hs as <-. cbn [stack_pts foldr] in HS. fold (stack_pts stack) in HS.
    pose proof (stack_pts_nonneg _ _ Hst). eapply (built_or realloc_func B _ _ (cr_invert _ _) _ (fun x => wp x _)).
    + apply (invert_set realloc_func B HB _ _ _ H1). lia.
    + intros Ho cr'. by left.
    + intros cr' Hcr. right. apply is_set_rep in Hcr as [??]. split; [done|]. split; [by constructor|].
      cbn [snd stack_pts foldr]. fold (stack_pts stack). lia.
Qed.

Lemma pop_loop_spec S ops stack st st' : pop_sem ops st = Some st' -> Forall2 rep stack st -> stack_pts stack <= S -> S + 2 ^ 16 * zlen ops <= B ->
  wp (pop_loop realloc_func ops stack) (stepped (S + 2 ^ 16 * zlen ops) st').
Proof using All.
  revert S stack st. induction ops as [|op ops IH]; intros S stack st Hs Hst HS HSB.
  { injection Hs as <-. right. change (zlen (@nil pop)) with 0 in *. split_and!; (done || cbn [snd]; lia). }
  cbn [pop_sem pop_loop] in *. destruct (sem_step op st) as [st1|] eqn:E; [|done]. cbn [mbind option_bind] in Hs.
  rewrite zlen_cons in *. pose proof (zlen_nonneg ops). apply wp_bind. eapply wp_mono; [apply (pop_step_spec S op stack st st1 E Hst HS); lia|].
  intros [r stack1] Hr. destruct Hr as [[Hr Ho]|(Hr & Hst1 & HS1)]; cbn [fst snd] in *; subst r; cbn [Z.eqb negb]; [by left|].
  replace (S + 2 ^ 16 * (zlen ops + 1)) with (S + 2 ^ 16 + 2 ^ 16 * zlen ops) by lia. eapply IH; [done..|lia].
Qed.

(** A program of at most sixteen instructions that leaves one set. *)
Lemma prop_ops_set ops f cr : pop_sem ops [] = Some [f] -> zlen ops <= 16 -> cr_ok B cr -> cr_len cr = 0 ->
  wp (unicode_prop_ops realloc_func cr ops) (built realloc_func B (2 ^ 20) f).
Proof using All.
  intros Hs Hz Hok Hl. unfold unicode_prop_ops. apply wp_bind. eapply wp_mono; [apply (pop_loop_spec 0 ops [] [] [f] Hs); [constructor|done|lia]|].
  intros [r stack] [[Hr Ho]|(Hr & Hst & HS)]; cbn [fst snd] in *; subst r; cbn [Z.eqb negb]; [split; [done|by left]|].
  inversion Hst as [|cr1 f1 stack0 st0 (Hok1 & L1 & S1 & R1 & F1) Hst0]; subst. inversion Hst0; subst. cbn [stack_pts foldr] in HS.
  eapply wp_mono; [apply (cr_copy_spec realloc_func B ltac:(lia) B cr cr1); [done|done|lia]|].
  intros [r cr'] [Hok' Hr]. split; [done|]. cbn [fst snd]. destruct Hr as [(-> & ? & _)|(-> & Hp)]; [by left|right]. split; [done|].
  unfold is_set. rewrite Hp, <- (cr_ok_pts_zlen _ _ Hok'), Hp, (cr_ok_pts_zlen _ _ Hok1). split_and!; try done. lia.
Qed.
End refine.

(** ** Names *)

Definition clean (q : list Z) : Prop := Forall (fun b => b <> 0 /\ b <> 44) q.

(** The names of an entry: its parts between commas. *)
Fixpoint split_comma (l : list Z) : list (list Z) :=
  match l with
  | [] => [[]]
  | b :: l =>
      if b =? 44 then [] :: split_comma l
      else match split_comma l with q :: qs => (b :: q) :: qs | [] => [[b]] end
  end.

Fixpoint join_comma (ps : list (list Z)) : list Z :=
  match ps with [] => [] | [q] => q | q :: ps => q ++ 44 :: join_comma ps end.

(** The position of the first entry that has the name [s]. *)
Fixpoint find_pos (s : list Z) (es : list (list (list Z))) (pos : Z) : Z :=
  match es with [] => -1 | ps :: es => if bool_decide (s ∈ ps) then pos else find_pos s es (pos + 1) end.

Definition encode_names (es : list (list (list Z))) : list Z := concat ((fun ps => join_comma ps ++ [0]) <$> es) ++ [0].

Lemma split_comma_cons l : exists q qs, split_comma l = q :: qs.
Proof. destruct l as [|b l]; cbn [split_comma]; [eauto|]. destruct (b =? 44); [eauto|]. destruct (split_comma l); eauto. Qed.

Lemma split_comma_spec l : Forall (fun b => b <> 0) l -> Forall clean (split_comma l) /\ join_comma (split_comma l) = l.
Proof.
  induction 1 as [|b l Hb Hl [IH1 IH2]]; [split; [repeat constructor|done]|]. cbn [split_comma]. destruct (split_comma_cons l) as (q & qs & E). rewrite E in *.
  destruct (b =? 44) eqn:E44; zbool.
  - split; [by constructor; [constructor|]|]. subst b. cbn [join_comma app]. by rewrite <- IH2.
  - apply Forall_cons in IH1 as [Hq Hqs]. split; [constructor; [by constructor|done]|]. cbn [join_comma] in *. by destruct qs; rewrite <- IH2.
Qed.

Lemma strchr_sep q sep rest : clean q -> sep = 44 \/ sep = 0 -> strchr (q ++ sep :: rest) 44 = Some (if sep =? 44 then Some (zlen q) else None).
Proof.
  intros Hq Hs. induction Hq as [|b q [Hb0 Hb] Hq IH]; cbn [strchr app].
  - destruct Hs as [-> | ->]; done.
  - replace (b =? 44) with false by lia. replace (b =? 0) with false by lia. rewrite IH. cbn [mbind option_bind].
    destruct (sep =? 44); [|done]. cbn [option_map]. rewrite zlen_cons. do 2 f_equal. lia.
Qed.

Section find.
Context (tab name s : list Z) (Hname : cstring name s).

Lemma mem_eq_part p q rest : 0 <= p -> drop (Z.to_nat p) tab = q ++ rest -> (zlen q =? zlen s) && mem_eq tab p name 0 (zlen s) = bool_decide (q = s).
Proof using Hname.
  intros Hp Hd. destruct (zlen q =? zlen s) eqn:E; zbool.
  - cbn [andb]. unfold mem_eq. destruct Hname as [_ [r ->]].
    assert (zslice (s ++ 0 :: r) 0 (0 + zlen s) = s) as ->.
    { unfold zslice. rewrite Z.add_0_l, Z.sub_0_r. cbn [Z.to_nat]. rewrite drop_0. unfold zlen. rewrite Nat2Z.id. apply take_app_length. }
    unfold zslice. rewrite Hd. replace (p + zlen s - p) with (zlen q) by lia. unfold zlen. rewrite Nat2Z.id, take_app_length. done.
  - cbn [andb]. symmetry. apply bool_decide_eq_false_2. by intros ->.
Qed.

Lemma find_part_step p q sep rest : 0 <= p -> clean q -> sep = 44 \/ sep = 0 -> drop (Z.to_nat p) tab = q ++ sep :: rest ->
  find_part_body tab name (zlen s) p = Some (if bool_decide (q = s) then inr (inl tt)
    else if sep =? 44 then inl (p + (zlen q + 1)) else inr (inr (p + (zlen q + 1)))).
Proof using Hname.
  intros Hp Hq Hs Hd. unfold find_part_body. rewrite Hd, strchr_sep by done. cbn [mbind option_bind].
  assert ((match (if sep =? 44 then Some (zlen q) else None) with None => strlen (q ++ sep :: rest) | Some k => Some k end) = Some (zlen q)) as ->.
  { destruct Hs as [-> | ->]; [done|]. cbn [Z.eqb]. apply strlen_cstring. split; [|eauto]. eapply Forall_impl; [exact Hq|]. intros b [? _]. done. }
  cbn [mbind option_bind]. rewrite (mem_eq_part p q (sep :: rest)) by done. destruct (bool_decide (q = s)); [done|]. by destruct (sep =? 44).
Qed.

Lemma find_parts ps fuel p rest : ps <> [] -> Forall clean ps -> 0 <= p -> drop (Z.to_nat p) tab = join_comma ps ++ 0 :: rest -> (length ps <= fuel)%nat ->
  loop fuel (find_part_body tab name (zlen s)) p = Some (if bool_decide (s ∈ ps) then inl tt else inr (p + zlen (join_comma ps) + 1)).
Proof using Hname.
  intros Hne Hc. revert fuel p Hne. induction Hc as [|q ps Hq Hps IH]; intros fuel p Hne Hp Hd Hf; [done|].
  destruct fuel as [|fuel]; [simpl in Hf; lia|]. cbn [loop]. destruct ps as [|q2 ps].
  - cbn [join_comma] in *. rewrite (find_part_step p q 0 rest) by auto. destruct (bool_decide (q = s)) eqn:E.
    + apply bool_decide_eq_true in E as ->. rewrite bool_decide_eq_true_2 by (by left). done.
    + apply bool_decide_eq_false in E. rewrite bool_decide_eq_false_2 by (intros F; apply list_elem_of_singleton in F; congruence). cbn [Z.eqb]. do 2 f_equal. lia.
  - set (ps2 := q2 :: ps) in *. change (join_comma (q :: ps2)) with (q ++ 44 :: join_comma ps2) in *. rewrite <- app_assoc in Hd. cbn [app] in Hd.
    rewrite (find_part_step p q 44 (join_comma ps2 ++ 0 :: rest)) by auto. destruct (bool_decide (q = s)) eqn:E.
    + apply bool_decide_eq_true in E as ->. rewrite bool_decide_eq_true_2 by (by left). done.
    + apply bool_decide_eq_false in E. change (44 =? 44) with true. cbv iota beta. pose proof (zlen_nonneg q).
      rewrite IH; [|done|lia| |simpl in *; lia].
      * rewrite zlen_app, zlen_cons. assert (bool_decide (s ∈ ps2) = bool_decide (s ∈ q :: ps2)) as ->; [|replace (p + (zlen q + 1) + zlen (join_comma ps2) + 1) with (p + (zlen q + (zlen (join_comma ps2) + 1)) + 1) by lia; reflexivity].
        apply bool_decide_ext. rewrite elem_of_cons. split; [by right|]. by intros [?|?].
      * replace (p + (zlen q + 1)) with (p + Z.of_nat (length (q ++ [44]))) by (unfold zlen; rewrite length_app; simpl; lia).
        eapply drop_more; [done|exact Hd|]. change (q ++ 44 :: join_comma ps2 ++ 0 :: rest) with (q ++ [44] ++ join_comma ps2 ++ 0 :: rest). rewrite app_assoc. apply drop_app_length.
Qed.

Lemma length_join ps : (length ps <= length (join_comma ps) + 1)%nat.
Proof using . induction ps as [|q ps IH]; [simpl; lia|]. destruct ps as [|q2 ps]; [simpl; lia|]. cbn [join_comma]. rewrite length_app. simpl in *. lia. Qed.

Definition entry_ok (ps : list (list Z)) : Prop := ps <> [] /\ Forall clean ps /\ join_comma ps <> [].

Lemma clean_join ps : Forall clean ps -> Forall (fun b => b <> 0) (join_comma ps).
Proof using .
  induction 1 as [|q ps Hq Hps IH]; [constructor|]. assert (Forall (fun b => b <> 0) q) by (eapply Forall_impl; [exact Hq|by intros b [? _]]).
  destruct ps as [|q2 ps]; [done|]. change (join_comma (q :: q2 :: ps)) with (q ++ 44 :: join_comma (q2 :: ps)).
  apply Forall_app. split; [done|]. by constructor.
Qed.

Lemma find_entries es fuel p pos : Forall entry_ok es -> 0 <= p -> drop (Z.to_nat p) tab = encode_names es -> (length es < fuel)%nat ->
  loop fuel (find_entry_body tab name (zlen s)) (p, pos) = Some (find_pos s es pos).
Proof using Hname.
  intros Hes. revert fuel p pos. induction Hes as [|ps es (Hne & Hps & Hj) Hes IH]; intros fuel p pos Hp Hd Hf; (destruct fuel as [|fuel]; [simpl in Hf; lia|]); cbn [loop].
  - unfold find_entry_body. pose proof (rd_drop tab p 0 _ Hp Hd ltac:(lia)) as E. rewrite Z.add_0_r in E. by rewrite E.
  - unfold encode_names in Hd. rewrite fmap_cons in Hd. cbn [concat] in Hd. rewrite <- !app_assoc in Hd. cbn [app] in Hd. fold (encode_names es) in Hd.
    unfold find_entry_body at 1. pose proof (rd_drop tab p 0 _ Hp Hd ltac:(lia)) as E. rewrite Z.add_0_r in E. rewrite E.
    destruct (join_comma ps) as [|b0 l0] eqn:Ej; [done|]. pose proof (clean_join ps Hps) as H0. rewrite Ej in H0. apply Forall_cons in H0 as [H0 _].
    change (rd ((b0 :: l0) ++ 0 :: encode_names es) 0) with (Some b0). cbn [mbind option_bind]. replace (b0 =? 0) with false by lia.
    rewrite <- Ej in Hd. rewrite (find_parts ps (length tab + 1) p (encode_names es)); [|done|done|done|done|].
    2:{ pose proof (length_join ps). apply (f_equal length) in Hd. rewrite length_drop, length_app in Hd. simpl in Hd. lia. }
    cbn [mbind option_bind find_pos]. destruct (bool_decide (s ∈ ps)); [done|]. pose proof (zlen_nonneg (join_comma ps)).
    apply IH; [lia| |simpl in Hf; lia]. replace (p + zlen (join_comma ps) + 1) with (p + Z.of_nat (length (join_comma ps ++ [0]))) by (unfold zlen; rewrite length_app; simpl; lia).
    eapply drop_more; [done|exact Hd|]. change (join_comma ps ++ 0 :: encode_names es) with (join_comma ps ++ [0] ++ encode_names es). rewrite app_assoc. apply drop_app_length.
Qed.
End find.

(** The names of the entries of a table. *)
Definition names_of (l : list string) : list (list (list Z)) := (fun e => split_comma (bytes e)) <$> l.

Definition name_ok (e : string) : bool := negb (bool_decide (bytes e = [])) && forallb (fun b => negb (b =? 0)) (bytes e).

Lemma name_ok_entry e : name_ok e = true -> entry_ok (split_comma (bytes e)) /\ join_comma (split_comma (bytes e)) = bytes e.
Proof.
  unfold name_ok. intros H. apply andb_true_iff in H as [H1 H2]. apply negb_true_iff, bool_decide_eq_false in H1.
  assert (Forall (fun b => b <> 0) (bytes e)) as H3.
  { apply Forall_forall. intros b Hb. apply list_elem_of_In in Hb. rewrite forallb_forall in H2. specialize (H2 b Hb). cbv beta in H2. lia. }
  destruct (split_comma_spec _ H3) as [H4 H5]. rewrite H5. split; [|done]. unfold entry_ok. rewrite H5. split_and!; [|done|done].
  destruct (split_comma_cons (bytes e)) as (q & qs & ->). done.
Qed.

Lemma name_table_encode l : Forall (fun e => name_ok e = true) l -> name_table l = encode_names (names_of l) /\ Forall entry_ok (names_of l).
Proof.
  intros Hl. unfold name_table, encode_names, names_of. rewrite <- list_fmap_compose. split.
  - f_equal. f_equal. apply list_fmap_ext. intros i e Hi. unfold compose. rewrite (proj2 (name_ok_entry e (Forall_lookup_1 _ _ _ _ Hl Hi))). done.
  - apply Forall_fmap. eapply Forall_impl; [exact Hl|]. intros e He. by apply name_ok_entry.
Qed.

Lemma length_encode es : (length es <= length (concat ((fun ps => join_comma ps ++ [0%Z]) <$> es)))%nat.
Proof. induction es as [|ps es IH]; [simpl; lia|]. rewrite fmap_cons. cbn [concat length]. rewrite !length_app. simpl. lia. Qed.

Lemma find_name_spec l name s : Forall (fun e => name_ok e = true) l -> cstring name s ->
  unicode_find_name (name_table l) name = Some (find_pos s (names_of l) 0).
Proof.
  intros Hl Hn. destruct (name_table_encode l Hl) as [E Hes]. unfold unicode_find_name. rewrite (strlen_cstring _ _ Hn). cbn [mbind option_bind].
  apply find_entries; [done|done|done|by rewrite drop_0|]. rewrite E. unfold encode_names. rewrite length_app. cbn [length].
  pose proof (length_encode (names_of l)). lia.
Qed.

Lemma names_ok : forallb name_ok (unicode_gc_name_names ++ unicode_script_name_names ++ unicode_prop_name_names) = true.
Proof. vm_cast_no_check (@eq_refl bool true). Qed.

Lemma names_ok_all : Forall (fun e => name_ok e = true) (unicode_gc_name_names ++ unicode_script_name_names ++ unicode_prop_name_names).
Proof. apply Forall_forall. intros e He. apply list_elem_of_In in He. exact (proj1 (forallb_forall _ _) names_ok e He). Qed.

(** ** General categories by name *)

(** The first letter of the name of a category. *)
Definition gc_letter (i : Z) : option Z := e ← rd unicode_gc_name_names i; head (bytes e).

(** The categories of entry [i]: the category itself, the cased letters, or the
    categories whose names start with the same letter. *)
Definition gc_denotes (i v : Z) : bool :=
  if i <? gc_idx UNICODE_GC_LC then v =? i
  else if i =? gc_idx UNICODE_GC_LC then existsb (Z.eqb v) (gc_idx <$> [UNICODE_GC_Lu; UNICODE_GC_Ll; UNICODE_GC_Lt])
  else bool_decide (gc_letter v = gc_letter i).

Definition gc_named (i c : Z) : bool := match gc_of c with Some v => gc_denotes i v | None => false end.

Definition gc_mask (i : Z) : option Z :=
  if i <=? gc_idx UNICODE_GC_Co then Some (u32 (Z.shiftl 1 i)) else rd unicode_gc_mask_table (i - gc_idx UNICODE_GC_LC).

Definition gc_mask_ok (i : Z) : bool :=
  match gc_mask i with Some m => forallb (fun v => eqb (Z.testbit m v) (gc_denotes i v)) (seqZ 0 30) | None => false end.

Lemma gc_masks_ok : forallb gc_mask_ok (seqZ 0 38) && (zlen unicode_gc_name_names =? 38)
  && forallb (fun e => (0 <=? e.2) && ((e.2 <? 30) || (e.2 =? 31))) gc_runs = true.
Proof. vm_cast_no_check (@eq_refl bool true). Qed.

Lemma gc_of_range c v : 0 <= c -> gc_of c = Some v -> 0 <= v < 30.
Proof.
  intros Hc. unfold gc_of. destruct (run_lookup 0 gc_runs c) as [[w o]|] eqn:E; [|done]. intros [= <-].
  pose proof gc_masks_ok as H. apply andb_true_iff in H as [_ H].
  assert (Forall (fun e => 0 < e.1) gc_runs) as Hpos by (eapply Forall_impl; [exact gc_runs_ok|]; intros e He; apply He).
  destruct (run_lookup_elem 0 gc_runs c w o Hpos Hc E) as (m & Hin & _). apply list_elem_of_In in Hin. rewrite forallb_forall in H. specialize (H _ Hin). cbn [snd] in H.
  unfold gc_at. destruct (w =? 31) eqn:E31; [destruct (Z.even o); cbn; lia|]. lia.
Qed.

Lemma find_pos_range s es pos : 0 <= pos -> find_pos s es pos = -1 \/ pos <= find_pos s es pos < pos + zlen es.
Proof.
  revert pos. induction es as [|ps es IH]; intros pos Hp; cbn [find_pos]; [by left|]. rewrite zlen_cons. pose proof (zlen_nonneg es).
  destruct (bool_decide _); [right; lia|]. destruct (IH (pos + 1) ltac:(lia)); [by left|right; lia].
Qed.

(** ** Properties by name *)

(** The set of a property: from its table, by a case conversion that changes the
    character, or derived from other properties and general categories. *)
Definition prop_sem (p : UnicodePropertyEnum) (c : Z) : bool :=
  let gc l := match gc_of c with Some v => existsb (Z.eqb v) (gc_idx <$> l) | None => false end in
  let prop q := prop_in q c in
  let excluded q := prop UNICODE_PROP_Pattern_Syntax || prop UNICODE_PROP_Pattern_White_Space || prop q in
  match p with
  | UNICODE_PROP_ASCII => c <? 128
  | UNICODE_PROP_Any => c <? 0x110000
  | UNICODE_PROP_Assigned => negb (gc [UNICODE_GC_Cn])
  | UNICODE_PROP_Math => gc [UNICODE_GC_Sm] || prop UNICODE_PROP_Other_Math
  | UNICODE_PROP_Lowercase => gc [UNICODE_GC_Ll] || prop UNICODE_PROP_Other_Lowercase
  | UNICODE_PROP_Uppercase => gc [UNICODE_GC_Lu] || prop UNICODE_PROP_Other_Uppercase
  | UNICODE_PROP_Cased => gc [UNICODE_GC_Lu; UNICODE_GC_Ll; UNICODE_GC_Lt] || prop UNICODE_PROP_Other_Uppercase || prop UNICODE_PROP_Other_Lowercase
  | UNICODE_PROP_Alphabetic => gc gc_letters || prop UNICODE_PROP_Other_Uppercase || prop UNICODE_PROP_Other_Lowercase || prop UNICODE_PROP_Other_Alphabetic
  | UNICODE_PROP_Grapheme_Base =>
      negb (gc [UNICODE_GC_Cc; UNICODE_GC_Cf; UNICODE_GC_Cs; UNICODE_GC_Co; UNICODE_GC_Cn; UNICODE_GC_Zl; UNICODE_GC_Zp; UNICODE_GC_Me; UNICODE_GC_Mn]
            || prop UNICODE_PROP_Other_Grapheme_Extend)
  | UNICODE_PROP_Grapheme_Extend => gc [UNICODE_GC_Me; UNICODE_GC_Mn] || prop UNICODE_PROP_Other_Grapheme_Extend
  | UNICODE_PROP_XID_Start => (gc gc_letters || prop UNICODE_PROP_Other_ID_Start) && negb (excluded UNICODE_PROP_XID_Start1)
  | UNICODE_PROP_XID_Continue =>
      (gc (gc_letters ++ [UNICODE_GC_Mn; UNICODE_GC_Mc; UNICODE_GC_Nd; UNICODE_GC_Pc]) || prop UNICODE_PROP_Other_ID_Start || prop UNICODE_PROP_Other_ID_Continue)
      && negb (excluded UNICODE_PROP_XID_Continue1)
  | UNICODE_PROP_Changes_When_Uppercased => modified CASE_U c
  | UNICODE_PROP_Changes_When_Lowercased => modified CASE_L c
  | UNICODE_PROP_Changes_When_Casemapped => modified 7 c
  | UNICODE_PROP_Changes_When_Titlecased => xorb (modified CASE_U c) (prop UNICODE_PROP_Changes_When_Titlecased1)
  | UNICODE_PROP_Changes_When_Casefolded => xorb (modified CASE_F c) (prop UNICODE_PROP_Changes_When_Casefolded1)
  | UNICODE_PROP_Changes_When_NFKC_Casefolded => xorb (modified CASE_F c) (prop UNICODE_PROP_Changes_When_NFKC_Casefolded1)
  | UNICODE_PROP_ID_Continue => xorb (prop UNICODE_PROP_ID_Start) (prop UNICODE_PROP_ID_Continue1)
  | p => prop p
  end.

Lemma Ms_bit l v : 0 <= v -> Z.testbit (Ms l) v = existsb (Z.eqb v) (gc_idx <$> l).
Proof.
  intros Hv. unfold Ms. assert (forall acc, Z.testbit (fold_left Z.lor (M <$> l) acc) v = Z.testbit acc v || existsb (Z.eqb v) (gc_idx <$> l)) as H; [|by rewrite H, Z.bits_0].
  induction l as [|x l IH]; intros acc; [by rewrite orb_false_r|]. rewrite !fmap_cons. cbn [fold_left existsb]. rewrite IH, Z.lor_spec, <- orb_assoc. f_equal. f_equal.
  unfold M. rewrite Z.shiftl_1_l. assert (0 <= gc_idx x) by (by destruct x). rewrite Z.pow2_bits_eqb by done. apply Z.eqb_sym.
Qed.

Lemma gc_in_Ms l c : 0 <= c -> gc_in (Ms l) c = match gc_of c with Some v => existsb (Z.eqb v) (gc_idx <$> l) | None => false end.
Proof. intros Hc. unfold gc_in. destruct (gc_of c) as [v|] eqn:E; [|done]. apply Ms_bit. pose proof (gc_of_range c v Hc E). lia. Qed.

Lemma M_Ms x : M x = Ms [x].
Proof. by destruct x. Qed.

(** The programs compute these sets. *)
Lemma program_sem p ops : prop_program p = Some ops -> zlen ops <= 16 /\ exists f, pop_sem ops [] = Some [f] /\ forall c, 0 <= c -> f c = prop_sem p c.
Proof.
  intros Hp. destruct p; try discriminate Hp; injection Hp as <-; (split; [by vm_compute|]); rewrite ?M_Ms; (eexists; split; [reflexivity|]); intros c Hc; cbn [op_bool prop_sem];
    rewrite ?gc_in_Ms by done; reflexivity.
Qed.

(** The properties without a program of their own: those with a table. *)
Lemma plain_sem p : prop_program p = None -> prop_idx p < zlen unicode_prop_table -> forall c, prop_sem p c = prop_in p c.
Proof. by destruct p. Qed.

(** The properties that [unicode_prop] does not compute by a program or a table. *)
Definition special (p : UnicodePropertyEnum) : bool :=
  match p with
  | UNICODE_PROP_ASCII | UNICODE_PROP_Any | UNICODE_PROP_Changes_When_Uppercased | UNICODE_PROP_Changes_When_Lowercased
  | UNICODE_PROP_Changes_When_Casemapped => true
  | _ => false
  end.

Lemma special_match {A} p (a1 a2 a3 a4 a5 d : A) : special p = false ->
  match p with
  | UNICODE_PROP_ASCII => a1 | UNICODE_PROP_Any => a2 | UNICODE_PROP_Changes_When_Uppercased => a3
  | UNICODE_PROP_Changes_When_Lowercased => a4 | UNICODE_PROP_Changes_When_Casemapped => a5 | _ => d
  end = d.
Proof. by destruct p. Qed.

(** The table of property names numbers the enumeration. *)
Lemma prop_enum_idx : forallb (fun i => match rd prop_enum i with Some p => (prop_idx p =? i)
    && (match prop_program p with Some _ => true | None => special p || (i <? zlen unicode_prop_table) end) | None => false end)
  (seqZ (prop_idx UNICODE_PROP_ASCII_Hex_Digit) (zlen unicode_prop_name_names)) = true.
Proof. vm_compute. reflexivity. Qed.

Section named.
Context (realloc_func : realloc_t) `{!ReallocLaws realloc_func} (B : Z) (HB : 2 ^ 20 <= B <= 2 ^ 29) (cr : charrange) (Hok : cr_ok B cr) (Hl : cr_len cr = 0).

Lemma interval_set hi : 0 <= hi <= UINT32_MAX -> wp (add_intervals realloc_func cr [(0, hi)]) (built realloc_func B (2 ^ 20) (fun c => c <? hi)).
Proof using All.
  intros Hhi. eapply wp_mono; [apply (add_intervals_spec realloc_func B ltac:(lia) cr [(0, hi)] Hok); change (zlen [(0, hi)]) with 1; lia|].
  intros x Hx. eapply added_built; [by eapply empty_pts|exact Hx|done| | |].
  - cbn. repeat constructor. lia.
  - cbn. repeat constructor; unfold UINT32_MAX in *; lia.
  - intros c Hc. cbn. rewrite orb_false_r. by replace (0 <=? c) with true by lia.
Qed.

Lemma program_set p ops : prop_program p = Some ops -> wp (unicode_prop_ops realloc_func cr ops) (built realloc_func B (2 ^ 20) (prop_sem p)).
Proof using All.
  intros Hp. destruct (program_sem p ops Hp) as (Hz & f & Hf & Hs). eapply wp_mono; [by apply prop_ops_set|]. intros x Hx.
  eapply built_weaken; [exact Hx|done|]. intros c Hc. apply Hs. lia.
Qed.

Lemma plain_set p : prop_program p = None -> (prop_idx p <? zlen unicode_prop_table) = true ->
  wp (if prop_idx p >=? zlen unicode_prop_table then Some (-2, cr) else unicode_prop1 realloc_func cr (prop_idx p)) (built realloc_func B (2 ^ 20) (prop_sem p)).
Proof using All.
  intros Hn Hi. apply Z.ltb_lt in Hi. replace (_ >=? _) with false by lia. pose proof (prop_idx_nonneg p).
  destruct (rd_is_Some unicode_prop_table (prop_idx p) ltac:(lia)) as [table Ht]. eapply wp_mono; [by eapply prop1_set|]. intros x Hx.
  eapply built_weaken; [exact Hx|done|]. intros c _. rewrite plain_sem by done. unfold prop_in. by rewrite Ht.
Qed.

Lemma case_set m p : m ∈ case_masks -> (forall c, prop_sem p c = modified m c) -> wp (unicode_case1 realloc_func cr m) (built realloc_func B (2 ^ 20) (prop_sem p)).
Proof using All.
  intros Hm Hp. eapply wp_mono; [by apply case1_set|]. intros x Hx. eapply built_weaken; [exact Hx|done|]. intros c _. by rewrite Hp.
Qed.

Lemma prop_set name i p : unicode_find_name unicode_prop_name_table name = Some i -> 0 <= i < zlen unicode_prop_name_names ->
  rd prop_enum (i + prop_idx UNICODE_PROP_ASCII_Hex_Digit) = Some p -> wp (unicode_prop realloc_func cr name) (built realloc_func B (2 ^ 20) (prop_sem p)).
Proof using All.
  intros Hf Hi Hp. unfold unicode_prop. rewrite Hf. cbn [mbind option_bind]. replace (i <? 0) with false by lia. rewrite Hp. cbn [mbind option_bind].
  pose proof prop_enum_idx as Hk. rewrite forallb_forall in Hk.
  specialize (Hk (i + prop_idx UNICODE_PROP_ASCII_Hex_Digit)). rewrite Hp in Hk.
  assert (In (i + prop_idx UNICODE_PROP_ASCII_Hex_Digit) (seqZ (prop_idx UNICODE_PROP_ASCII_Hex_Digit) (zlen unicode_prop_name_names))) as Hin by (apply list_elem_of_In, elem_of_seqZ; lia).
  apply Hk in Hin. apply andb_true_iff in Hin as [He Hin]. apply Z.eqb_eq in He. rewrite <- He in Hin |- *. clear - HB Hok Hl Hin ReallocLaws0.
  destruct (special p) eqn:Es.
  - clear Hin. destruct p; try discriminate Es; cbv iota.
    + eapply wp_mono; [apply (interval_set (0x7f + 1)); unfold UINT32_MAX; lia|]. intros x Hx. by eapply built_weaken.
    + eapply wp_mono; [apply (interval_set (0x10ffff + 1)); unfold UINT32_MAX; lia|]. intros x Hx. by eapply built_weaken.
    + by apply case_set; [unfold case_masks; set_solver|].
    + by apply case_set; [unfold case_masks; set_solver|].
    + by apply case_set; [unfold case_masks; set_solver|].
  - rewrite special_match by done. destruct (prop_program p) as [ops|] eqn:Ep; [by apply program_set|]. apply plain_set; [done|].
    exact Hin.
Qed.
End named.

(** ** Theorems *)

(** The entry of a table that the C string [s] names, or -1. *)
Definition entry_of (names : list string) (s : list Z) : Z := find_pos s (names_of names) 0.

Lemma entry_range names s : entry_of names s = -1 \/ 0 <= entry_of names s < zlen names.
Proof. pose proof (find_pos_range s (names_of names) 0 ltac:(lia)) as H. unfold names_of, zlen in H. rewrite length_fmap in H. unfold zlen. unfold entry_of, names_of. lia. Qed.

Lemma find_gc name s : cstring name s -> unicode_find_name unicode_gc_name_table name = Some (entry_of unicode_gc_name_names s).
Proof. intros Hs. apply find_name_spec; [|done]. pose proof names_ok_all as H. by apply Forall_app in H as [H _]. Qed.

Lemma find_script name s : cstring name s -> unicode_find_name unicode_script_name_table name = Some (entry_of unicode_script_name_names s).
Proof. intros Hs. apply find_name_spec; [|done]. pose proof names_ok_all as H. apply Forall_app in H as [_ H]. by apply Forall_app in H as [H _]. Qed.

Lemma find_prop name s : cstring name s -> unicode_find_name unicode_prop_name_table name = Some (entry_of unicode_prop_name_names s).
Proof. intros Hs. apply find_name_spec; [|done]. pose proof names_ok_all as H. apply Forall_app in H as [_ H]. by apply Forall_app in H as [_ H]. Qed.

(** [unicode_find_name] returns the position of the first entry of the table one
    of whose comma-separated names is exactly the given string, and -1 when there
    is none; it stays inside the table. *)
Theorem unicode_find_name_correct names name s : Forall (fun e => name_ok e = true) names -> cstring name s ->
  unicode_find_name (name_table names) name = Some (entry_of names s).
Proof. apply find_name_spec. Qed.

(** C26. [unicode_general_category] on an empty range: -2 for an unknown name;
    otherwise the set of the characters whose general category is the named one,
    one of the cased letters (LC), or one whose name starts with the letter of the
    named group. *)
Theorem unicode_general_category_set (realloc_func : realloc_t) `{!ReallocLaws realloc_func} cr name s B :
  2 ^ 20 <= B <= 2 ^ 29 -> cr_ok B cr -> cr_len cr = 0 -> cstring name s ->
  let i := entry_of unicode_gc_name_names s in
  exists r cr', unicode_general_category realloc_func cr name = Some (r, cr') /\
    if i =? -1 then r = -2 /\ cr' = cr else built realloc_func B (2 ^ 15) (gc_named i) (r, cr').
Proof.
  intros HB Hok Hl Hs i. unfold unicode_general_category. rewrite (find_gc _ _ Hs). cbn [mbind option_bind]. fold i.
  destruct (entry_range unicode_gc_name_names s) as [E|E]; fold i in E; [rewrite E; by exists (-2), cr|].
  replace (i <? 0) with false by lia. replace (i =? -1) with false by lia.
  pose proof gc_masks_ok as Hk. apply andb_true_iff in Hk as [Hk _]. apply andb_true_iff in Hk as [Hk Hn]. apply Z.eqb_eq in Hn. rewrite forallb_forall in Hk.
  assert (gc_mask_ok i = true) as Hm by (apply Hk, list_elem_of_In, elem_of_seqZ; lia). unfold gc_mask_ok in Hm. fold (gc_mask i).
  destruct (gc_mask i) as [m|]; [|done]. cbn [mbind option_bind]. rewrite forallb_forall in Hm.
  pose proof (gc_set realloc_func B HB m cr Hok Hl) as Hwp. apply wp_exists in Hwp as ([r cr'] & -> & Hb). exists r, cr'. split; [done|].
  eapply built_weaken; [exact Hb|done|]. intros c Hc. unfold gc_in, gc_named. destruct (gc_of c) as [v|] eqn:Ec; [|done].
  pose proof (gc_of_range c v ltac:(lia) Ec). specialize (Hm v ltac:(apply list_elem_of_In, elem_of_seqZ; lia)). by apply eqb_prop.
Qed.

(** C25. [unicode_prop] on an empty range: -2 for an unknown name; otherwise the set of
    the named property, from its table, from the case conversions, or derived by
    the stack machine (whose stack never overflows). *)
Theorem unicode_prop_set (realloc_func : realloc_t) `{!ReallocLaws realloc_func} cr name s B :
  2 ^ 20 <= B <= 2 ^ 29 -> cr_ok B cr -> cr_len cr = 0 -> cstring name s ->
  let i := entry_of unicode_prop_name_names s in
  exists r cr', unicode_prop realloc_func cr name = Some (r, cr') /\
    match rd prop_enum (i + prop_idx UNICODE_PROP_ASCII_Hex_Digit) with
    | Some p => if i =? -1 then r = -2 /\ cr' = cr else built realloc_func B (2 ^ 20) (prop_sem p) (r, cr')
    | None => False
    end.
Proof.
  intros HB Hok Hl Hs i. pose proof (find_prop _ _ Hs) as Hf. fold i in Hf.
  destruct (entry_range unicode_prop_name_names s) as [E|E]; fold i in E.
  - exists (-2), cr. unfold unicode_prop. rewrite Hf, E. done.
  - replace (i =? -1) with false by lia. change (prop_idx UNICODE_PROP_ASCII_Hex_Digit) with 16. change (zlen unicode_prop_name_names) with 53 in E.
    destruct (rd_is_Some prop_enum (i + 16)) as [p Hp]; [change (zlen prop_enum) with 70; lia|]. rewrite Hp.
    pose proof (prop_set realloc_func B HB cr Hok Hl name i p Hf ltac:(change (zlen unicode_prop_name_names) with 53; lia) Hp) as Hwp.
    apply wp_exists in Hwp as ([r cr'] & -> & Hb). by exists r, cr'.
Qed.

(** C27. [unicode_script] on an empty range: -2 for an unknown name; otherwise the set
    of the script, with extensions when they are asked for.  A refused allocation
    is the only other outcome, and it never returns: the label [fail] jumps to
    itself. *)
Theorem unicode_script_set (realloc_func : realloc_t) `{!ReallocLaws realloc_func} cr name s is_ext B :
  2 ^ 20 <= B <= 2 ^ 29 -> cr_ok B cr -> cr_len cr = 0 -> cstring name s ->
  let i := entry_of unicode_script_name_names s in
  if i =? -1 then unicode_script realloc_func cr name is_ext = Some (-2, cr)
  else (unicode_script realloc_func cr name is_ext = None /\ oom realloc_func) \/
       exists cr', unicode_script realloc_func cr name is_ext = Some (0, cr') /\ is_set B (2 ^ 17) (script_sem (i + 1) is_ext) cr'.
Proof.
  intros HB Hok Hl Hs i. pose proof (find_script _ _ Hs) as Hf. fold i in Hf.
  destruct (entry_range unicode_script_name_names s) as [E|E]; fold i in E.
  - rewrite E. unfold unicode_script. rewrite Hf, E. done.
  - replace (i =? -1) with false by lia. exact (script_main realloc_func B HB cr name is_ext i Hf ltac:(lia) Hok Hl).
Qed.

(** ** Witnesses *)

Lemma cstring_of s : forallb (fun b => negb (b =? 0)) (bytes s) = true -> cstring (bytes s ++ [0]) (bytes s).
Proof.
  intros H. split; [|by exists []]. apply Forall_forall. intros b Hb. apply list_elem_of_In in Hb. rewrite forallb_forall in H. specialize (H b Hb). cbv beta in H. lia.
Qed.

Lemma unicode_find_name_correct_witness :
  unicode_find_name (name_table ["Lu,Uppercase_Letter"; "Nd,Decimal_Number,digit"]%string) (bytes "digit" ++ [0]) = Some 1.
Proof.
  rewrite (unicode_find_name_correct ["Lu,Uppercase_Letter"; "Nd,Decimal_Number,digit"]%string (bytes "digit" ++ [0]) (bytes "digit")).
  - reflexivity.
  - repeat constructor.
  - by apply cstring_of.
Defined.

Lemma unicode_general_category_set_witness :
  exists r cr', unicode_general_category realloc_total cr_init (bytes "Letter" ++ [0]) = Some (r, cr') /\
    built realloc_total (2 ^ 20) (2 ^ 15) (gc_named (gc_idx UNICODE_GC_L)) (r, cr').
Proof.
  apply (unicode_general_category_set realloc_total cr_init (bytes "Letter" ++ [0]) (bytes "Letter") (2 ^ 20)); [lia|by apply cr_init_ok|done|by apply cstring_of].
Defined.

Lemma unicode_prop_set_witness :
  exists r cr', unicode_prop realloc_total cr_init (bytes "XIDS" ++ [0]) = Some (r, cr') /\
    built realloc_total (2 ^ 20) (2 ^ 20) (prop_sem UNICODE_PROP_XID_Start) (r, cr').
Proof.
  apply (unicode_prop_set realloc_total cr_init (bytes "XIDS" ++ [0]) (bytes "XIDS") (2 ^ 20)); [lia|by apply cr_init_ok|done|by apply cstring_of].
Defined.

Lemma unicode_script_set_witness :
  (unicode_script realloc_total cr_init (bytes "Grek" ++ [0]) true = None /\ oom realloc_total) \/
  exists cr', unicode_script realloc_total cr_init (bytes "Grek" ++ [0]) true = Some (0, cr') /\
    is_set (2 ^ 20) (2 ^ 17) (script_sem (entry_of unicode_script_name_names (bytes "Greek") + 1) true) cr'.
Proof.
  apply (unicode_script_set realloc_total cr_init (bytes "Grek" ++ [0]) (bytes "Grek") true (2 ^ 20)); [lia|by apply cr_init_ok|done|by apply cstring_of].
Defined.
