(* ===== verification/UnicodeAgree.v ===== *)
(** * Agreement of the membership tests with the sets by name

    The indexed lookups of [lre_is_id_start], [lre_is_id_continue],
    [lre_is_cased] and [lre_is_case_ignorable] and the sets of the properties of
    these names, computed by different code from different tables, contain the
    same characters; the tables of [ID_Start] and [ID_Continue] are those that the
    definition of these properties derives. *)

From S2P Require Import Prelude CArray Rqsort CBytes DynBuf CStr CharRange RunTable UnicodeTables UnicodeCase RegexpCanon UnicodeProp UnicodeSetTables UnicodeSets UnicodeSetsSpec UnicodePropSets.
Open Scope Z_scope.

(** ** Pointwise operations on runs *)

Definition bruns : Type := list (Z * bool).
Definition bval (a : bruns) (c : Z) : bool := run_in bit_sel 0 a c.

(** The value of [f] on the values of two lists of runs. *)
Fixpoint brun_op (f : bool -> bool -> bool) (fuel : nat) (a b : bruns) : bruns :=
  match fuel with
  | O => []
  | S fuel =>
      match a, b with
      | [], [] => []
      | (n, x) :: a', [] => (n, f x false) :: brun_op f fuel a' []
      | [], (m, y) :: b' => (m, f false y) :: brun_op f fuel [] b'
      | (n, x) :: a', (m, y) :: b' =>
          if n <? m then (n, f x y) :: brun_op f fuel a' ((m - n, y) :: b')
          else if m <? n then (m, f x y) :: brun_op f fuel ((n - m, x) :: a') b'
          else (n, f x y) :: brun_op f fuel a' b'
      end
  end.

Definition bop (f : bool -> bool -> bool) (a b : bruns) : bruns := brun_op f (length a + length b) a b.

Definition pos_runs (a : bruns) : Prop := Forall (fun e => 0 < e.1) a.

Lemma run_in_cons code n x (a : bruns) c : run_in bit_sel code ((n, x) :: a) c = if c <? code + n then x else run_in bit_sel (code + n) a c.
Proof. unfold run_in. cbn [run_lookup]. by destruct (c <? code + n). Qed.

Lemma brun_op_spec f : f false false = false -> forall fuel a b code c, (length a + length b <= fuel)%nat -> pos_runs a -> pos_runs b -> code <= c ->
  pos_runs (brun_op f fuel a b) /\ run_in bit_sel code (brun_op f fuel a b) c = f (run_in bit_sel code a c) (run_in bit_sel code b c).
Proof.
  intros Hf. unfold pos_runs. induction fuel as [|fuel IH]; intros a b code c Hl Ha Hb Hc.
  { destruct a, b; simpl in Hl; try lia. cbn. by rewrite Hf. }
  destruct a as [|[n x] a], b as [|[m y] b]; cbn [brun_op length] in *.
  - cbn. by rewrite Hf.
  - apply Forall_cons in Hb as [Hm Hb]. cbn [fst] in Hm. rewrite run_in_cons, (run_in_cons code m y b). destruct (c <? code + m) eqn:E; zbool.
    + split; [constructor; [done|]; apply (IH [] b (code + m) (code + m)); simpl; (done || lia)|done].
    + destruct (IH [] b (code + m) c) as [I1 I2]; [simpl; lia|done..|]. rewrite I2. split; [by constructor|done].
  - apply Forall_cons in Ha as [Hn Ha]. cbn [fst] in Hn. rewrite run_in_cons, (run_in_cons code n x a). destruct (c <? code + n) eqn:E; zbool.
    + split; [constructor; [done|]; apply (IH a [] (code + n) (code + n)); simpl; (done || lia)|done].
    + destruct (IH a [] (code + n) c) as [I1 I2]; [simpl; lia|done..|]. rewrite I2. split; [by constructor|done].
  - apply Forall_cons in Ha as [Hn Ha], Hb as [Hm Hb]. cbn [fst] in Hn, Hm. destruct (n <? m) eqn:E1; [|destruct (m <? n) eqn:E2]; zbool.
    + rewrite !run_in_cons.
      assert (forall d, code + n <= d -> pos_runs (brun_op f fuel a ((m - n, y) :: b)) /\
        run_in bit_sel (code + n) (brun_op f fuel a ((m - n, y) :: b)) d = f (run_in bit_sel (code + n) a d) (run_in bit_sel (code + n) ((m - n, y) :: b) d)) as I.
      { intros d Hd. apply IH; [simpl; lia|done|constructor; [simpl; lia|done]|done]. }
      split; [constructor; [done|]; by apply (I (code + n))|].
      destruct (c <? code + n) eqn:E; zbool; [by replace (c <? code + m) with true by lia|].
      destruct (I c ltac:(lia)) as [_ ->]. rewrite run_in_cons. by replace (code + n + (m - n)) with (code + m) by lia.
    + rewrite !run_in_cons.
      assert (forall d, code + m <= d -> pos_runs (brun_op f fuel ((n - m, x) :: a) b) /\
        run_in bit_sel (code + m) (brun_op f fuel ((n - m, x) :: a) b) d = f (run_in bit_sel (code + m) ((n - m, x) :: a) d) (run_in bit_sel (code + m) b d)) as I.
      { intros d Hd. apply IH; [simpl; lia|constructor; [simpl; lia|done]|done|done]. }
      split; [constructor; [done|]; by apply (I (code + m))|].
      destruct (c <? code + m) eqn:E; zbool; [by replace (c <? code + n) with true by lia|].
      destruct (I c ltac:(lia)) as [_ ->]. rewrite run_in_cons. by replace (code + m + (n - m)) with (code + n) by lia.
    + assert (m = n) as -> by lia. rewrite !run_in_cons. destruct (IH a b (code + n) (code + n)) as [I0 _]; [lia|done|done|lia|].
      split; [by constructor|]. destruct (c <? code + n) eqn:E; zbool; [done|]. by apply IH; [lia|..].
Qed.

Lemma bop_spec f a b : f false false = false -> pos_runs a -> pos_runs b ->
  pos_runs (bop f a b) /\ forall c, 0 <= c -> bval (bop f a b) c = f (bval a c) (bval b c).
Proof.
  intros Hf Ha Hb. split; [apply (brun_op_spec f Hf _ a b 0 0); done|]. intros c Hc. by apply brun_op_spec.
Qed.

(** Equal everywhere: the exclusive or is false on every run. *)
Definition bruns_eqb (a b : bruns) : bool := forallb (fun e => negb e.2) (bop xorb a b).

Lemma all_false (a : bruns) code c : forallb (fun e => negb e.2) a = true -> run_in bit_sel code a c = false.
Proof.
  revert code. induction a as [|[n x] a IH]; intros code Ha; [done|]. cbn [forallb snd] in Ha. apply andb_true_iff in Ha as [Hx Ha].
  rewrite run_in_cons. destruct (c <? code + n); [by destruct x|by apply IH].
Qed.

Lemma bruns_eqb_spec a b : bruns_eqb a b = true -> pos_runs a -> pos_runs b -> forall c, 0 <= c -> bval a c = bval b c.
Proof.
  intros He Ha Hb c Hc. destruct (bop_spec xorb a b eq_refl Ha Hb) as [_ H]. specialize (H c Hc). unfold bval at 1 in H. rewrite all_false in H by exact He.
  by destruct (bval a c), (bval b c).
Qed.

(** ** The sets as runs *)

Definition prop_runs (p : UnicodePropertyEnum) : bruns :=
  match rd unicode_prop_table (prop_idx p) with Some table => decode_bits false table | None => [] end.

Lemma prop_bits_bval table c : prop_bits table c = bval (decode_bits false table) c.
Proof. reflexivity. Qed.

Lemma prop_in_bits p table c : rd unicode_prop_table (prop_idx p) = Some table -> prop_in p c = prop_bits table c.
Proof. intros E. unfold prop_in. by rewrite E. Qed.

Lemma prop_in_bval p c : prop_in p c = bval (prop_runs p) c.
Proof. unfold prop_in, prop_bits, prop_runs, bval. by destruct (rd unicode_prop_table (prop_idx p)). Qed.

(** The runs of general categories, for a set with both or none of the upper
    and lower case letters. *)
Definition gc_bruns (l : list UnicodeGCEnum) : bruns :=
  (fun e => (e.1, Z.testbit (Ms l) (gc_at e.2 0))) <$> gc_runs.

Lemma run_lookup_fmap {R T} (g : R -> T) runs code c :
  run_lookup code ((fun e => (e.1, g e.2)) <$> runs) c = match run_lookup code runs c with Some (r, o) => Some (g r, o) | None => None end.
Proof.
  revert code. induction runs as [|[n r] runs IH]; intros code; [done|]. rewrite fmap_cons. cbn [run_lookup fst snd]. destruct (c <? code + n); [done|]. apply IH.
Qed.

Lemma gc_bval l c : Z.testbit (Ms l) 1 = Z.testbit (Ms l) 2 -> gc_in (Ms l) c = bval (gc_bruns l) c.
Proof.
  intros He. unfold bval, gc_bruns, run_in. rewrite (run_lookup_fmap (fun v => Z.testbit (Ms l) (gc_at v 0)) gc_runs).
  unfold gc_in, gc_of. destruct (run_lookup 0 gc_runs c) as [[v o]|]; [|done]. unfold bit_sel, pick_sel, gc_at.
  destruct (v =? 31); [|done]. change (gc_idx UNICODE_GC_Lu) with 1. change (gc_idx UNICODE_GC_Ll) with 2. by destruct (Z.even o).
Qed.

(** The runs of the case conversion table. *)
Fixpoint case_bruns (code : Z) (l : list Z) : bruns :=
  match l with
  | [] => []
  | v :: l =>
      let r := (run_end v - run_code v, true) :: case_bruns (run_end v) l in
      if code <? run_code v then (run_code v - code, false) :: r else r
  end.

Lemma case_bruns_spec max l code c : table_sorted run_code run_len max l = true -> forallb (fun v => code <=? run_code v) l = true -> code <= c ->
  run_in bit_sel code (case_bruns code l) c = existsb (run_has run_code run_len c) l.
Proof.
  revert code. induction l as [|v l IH]; intros code Hs Hf Hc; [done|]. cbn [table_sorted forallb existsb case_bruns] in *. zbool.
  assert (run_code v <= run_end v) by (unfold run_end, run_last; lia).
  assert (c < run_end v -> existsb (run_has run_code run_len c) l = false) as Hout.
  { intros Hlt. apply not_true_iff_false. intros E. apply existsb_exists in E as (w & Hw & E). rewrite forallb_forall in H3. specialize (H3 w Hw). unfold run_has in E. fold (run_end v) in H3. lia. }
  assert (run_in bit_sel (run_code v) ((run_end v - run_code v, true) :: case_bruns (run_end v) l) c = (run_has run_code run_len c v) || existsb (run_has run_code run_len c) l \/ c < run_code v) as [E|E].
  { destruct (decide (c < run_code v)); [by right|left]. rewrite run_in_cons. replace (run_code v + (run_end v - run_code v)) with (run_end v) by lia.
    unfold run_has at 1. fold (run_end v). replace (run_code v <=? c) with true by lia. destruct (c <? run_end v) eqn:E; zbool; [done|]. by apply IH. }
  - destruct (code <? run_code v) eqn:Ec; zbool; [|by replace code with (run_code v) by lia].
    rewrite run_in_cons. replace (code + (run_code v - code)) with (run_code v) by lia. destruct (c <? run_code v) eqn:Ev; zbool; [|done].
    rewrite Hout by lia. unfold run_has. by replace (run_code v <=? c) with false by lia.
  - replace (code <? run_code v) with true by lia. rewrite run_in_cons. replace (code + (run_code v - code)) with (run_code v) by lia. replace (c <? run_code v) with true by lia.
    rewrite Hout by lia. unfold run_has. by replace (run_code v <=? c) with false by lia.
Qed.

Lemma run_of_has c : bool_decide (is_Some (run_of c)) = existsb (run_has run_code run_len c) case_conv_table1.
Proof.
  pose proof (find_run_spec case_conv_table1 run_code run_len c) as H. fold (run_of c) in H. destruct (run_of c) as [[idx v]|]; cbn [run_result] in H.
  - rewrite bool_decide_eq_true_2 by eauto. symmetry. apply existsb_exists. exists v. destruct H as [Hv Hc]. split; [apply list_elem_of_In; by eapply rd_elem|]. unfold run_has. lia.
  - rewrite bool_decide_eq_false_2 by (by intros [? ?]). symmetry. apply not_true_iff_false. intros E. apply existsb_exists in E as (v & Hv & E).
    apply list_elem_of_In, list_elem_of_lookup in Hv as [k Hk]. apply (H (Z.of_nat k) v); [rewrite rd_lookup, Nat2Z.id by lia; done|]. unfold run_has in E. lia.
Qed.

(** ** Indexed lookups *)

Lemma last_codes : forallb (fun '(table, index) => last_code index (zlen index / 3) =? total (decode_bits false table)) prop_tables = true.
Proof. vm_cast_no_check (@eq_refl bool true). Qed.

Lemma run_lookup_beyond {R} code (runs : list (Z * R)) c : Forall (fun e => 0 < e.1) runs -> code + total runs <= c -> run_lookup code runs c = None.
Proof.
  revert code. induction runs as [|[n r] runs IH]; intros code Hp Hc; [done|]. cbn [run_lookup total] in *. apply Forall_cons in Hp as [Hn Hp]. cbn [fst] in Hn.
  pose proof (total_nonneg _ Hp). replace (c <? code + n) with false by lia. apply IH; [done|lia].
Qed.

Lemma in_table_prop table index c : (table, index) ∈ prop_tables -> 0 <= c -> lre_is_in_table c table index (zlen index / 3) = Some (prop_bits table c).
Proof.
  intros Hin Hc. apply list_elem_of_In in Hin. pose proof (proj1 (forallb_forall _ _) prop_check _ Hin) as Hk. pose proof (proj1 (forallb_forall _ _) last_codes _ Hin) as Hl.
  cbv beta iota in Hk, Hl. apply andb_true_iff in Hk as [Hk Hb]. apply Z.eqb_eq in Hl. destruct (index_ok_last table _ _ _ Hk) as [Hpos _].
  rewrite (is_in_table_spec table c index _ Hk Hb Hc). f_equal. unfold bits_of, prop_bits, run_in. rewrite Hl. destruct (c <? total (decode_bits false table)) eqn:E; zbool.
  - by destruct (run_lookup 0 _ c) as [[b o]|].
  - by rewrite run_lookup_beyond.
Qed.

(** ** Derivations *)

Definition andn (a b : bool) : bool := a && negb b.

Definition gc_continue : list UnicodeGCEnum := gc_letters ++ [UNICODE_GC_Mn; UNICODE_GC_Mc; UNICODE_GC_Nd; UNICODE_GC_Pc].
Definition gc_cased : list UnicodeGCEnum := [UNICODE_GC_Lu; UNICODE_GC_Ll; UNICODE_GC_Lt].

(** The derivations, on the runs of the categories and properties. *)
Definition derive_check (gl gco gca ois oic ou ol ps pw ids ic1 cs c1 : bruns) : bool :=
  bruns_eqb (bop andn (bop orb gl ois) (bop orb ps pw)) ids &&
  bruns_eqb (bop andn (bop orb (bop orb gco ois) oic) (bop orb ps pw)) (bop orb ids ic1) &&
  bruns_eqb (bop xorb ids ic1) (bop orb ids ic1) && bruns_eqb (bop orb (bop orb gca ou) ol) (bop orb cs c1) &&
  forallb (forallb (fun e => 0 <? e.1)) [gl; gco; gca; ois; oic; ou; ol; ps; pw; ids; ic1; cs; c1].

Lemma derivations_ok : derive_check (gc_bruns gc_letters) (gc_bruns gc_continue) (gc_bruns gc_cased)
  (prop_runs UNICODE_PROP_Other_ID_Start) (prop_runs UNICODE_PROP_Other_ID_Continue) (prop_runs UNICODE_PROP_Other_Uppercase)
  (prop_runs UNICODE_PROP_Other_Lowercase) (prop_runs UNICODE_PROP_Pattern_Syntax) (prop_runs UNICODE_PROP_Pattern_White_Space)
  (prop_runs UNICODE_PROP_ID_Start) (prop_runs UNICODE_PROP_ID_Continue1) (case_bruns 0 case_conv_table1)
  (decode_bits false unicode_prop_Cased1_table) = true.
Proof. vm_cast_no_check (@eq_refl bool true). Qed.

Lemma pos_of a : forallb (fun e : Z * bool => 0 <? e.1) a = true -> pos_runs a.
Proof. intros H. eapply forallb_run_ok; [exact H|]. intros e He. by apply Z.ltb_lt. Qed.

Lemma bop_pos f a b : f false false = false -> pos_runs a -> pos_runs b -> pos_runs (bop f a b).
Proof. intros Hf Ha Hb. by apply bop_spec. Qed.

Lemma bop_val f a b c : f false false = false -> pos_runs a -> pos_runs b -> 0 <= c -> bval (bop f a b) c = f (bval a c) (bval b c).
Proof. intros Hf Ha Hb. by apply bop_spec. Qed.

#[local] Hint Resolve bop_pos : agree.
#[local] Hint Extern 1 (_ = false) => reflexivity : agree.

Section derive.
Context (c : Z) (Hc : 0 <= c) (gl gco gca ois oic ou ol ps pw ids ic1 cs c1 : bruns).

Lemma derive_vals : derive_check gl gco gca ois oic ou ol ps pw ids ic1 cs c1 = true ->
  (bval gl c || bval ois c) && negb (bval ps c || bval pw c) = bval ids c /\
  (bval gco c || bval ois c || bval oic c) && negb (bval ps c || bval pw c) = bval ids c || bval ic1 c /\
  xorb (bval ids c) (bval ic1 c) = bval ids c || bval ic1 c /\
  bval gca c || bval ou c || bval ol c = bval cs c || bval c1 c.
Proof using All.
  intros Hd. apply andb_true_iff in Hd as [Hd Hp]. cbn [forallb] in Hp.
  repeat match type of Hp with _ && _ = true => apply andb_true_iff in Hp as [?%pos_of Hp] end.
  apply andb_true_iff in Hd as [Hd Hcased]. apply andb_true_iff in Hd as [Hd Hxor]. apply andb_true_iff in Hd as [Hstart Hcont].
  pose proof (fun f a b (Hf : f false false = false) Ha Hb => bop_val f a b c Hf Ha Hb Hc) as Hv.
  apply bruns_eqb_spec with (c := c) in Hstart, Hcont, Hxor, Hcased; auto 10 with agree.
  repeat match goal with H : context [bval (bop _ _ _) c] |- _ => rewrite Hv in H by auto 10 with agree end.
  unfold andn in *. split_and!; assumption.
Qed.
End derive.

Lemma derived_vals c : 0 <= c ->
  let gc l := gc_in (Ms l) c in
  let prop q := prop_in q c in
  let pattern := prop UNICODE_PROP_Pattern_Syntax || prop UNICODE_PROP_Pattern_White_Space in
  (gc gc_letters || prop UNICODE_PROP_Other_ID_Start) && negb pattern = prop UNICODE_PROP_ID_Start /\
  (gc gc_continue || prop UNICODE_PROP_Other_ID_Start || prop UNICODE_PROP_Other_ID_Continue) && negb pattern
    = prop UNICODE_PROP_ID_Start || prop UNICODE_PROP_ID_Continue1 /\
  xorb (prop UNICODE_PROP_ID_Start) (prop UNICODE_PROP_ID_Continue1) = prop UNICODE_PROP_ID_Start || prop UNICODE_PROP_ID_Continue1 /\
  gc gc_cased || prop UNICODE_PROP_Other_Uppercase || prop UNICODE_PROP_Other_Lowercase
    = bval (case_bruns 0 case_conv_table1) c || prop_bits unicode_prop_Cased1_table c.
Proof.
  intros Hc gc prop pattern. subst gc prop pattern. cbv beta. rewrite !prop_in_bval, !gc_bval by reflexivity.
  rewrite prop_bits_bval. exact (derive_vals c Hc _ _ _ _ _ _ _ _ _ _ _ _ _ derivations_ok).
Qed.

(** C24. The membership tests of the parser and of the case conversions agree on
    every character with the sets that regular expressions build for the
    properties ID_Start, ID_Continue, Case_Ignorable and Cased; and the tables of
    ID_Start and ID_Continue are what the Unicode definition derives from general
    categories and the stability properties. *)
Theorem membership_agrees c : 0 <= c ->
  let gc l := gc_in (Ms l) c in
  let pattern := prop_in UNICODE_PROP_Pattern_Syntax c || prop_in UNICODE_PROP_Pattern_White_Space c in
  lre_is_id_start c = Some (prop_sem UNICODE_PROP_ID_Start c) /\
  lre_is_id_continue c = Some (prop_sem UNICODE_PROP_ID_Continue c) /\
  lre_is_case_ignorable c = Some (prop_sem UNICODE_PROP_Case_Ignorable c) /\
  lre_is_cased c = Some (prop_sem UNICODE_PROP_Cased c) /\
  prop_sem UNICODE_PROP_ID_Start c = (gc gc_letters || prop_in UNICODE_PROP_Other_ID_Start c) && negb pattern /\
  prop_sem UNICODE_PROP_ID_Continue c =
    (gc gc_continue || prop_in UNICODE_PROP_Other_ID_Start c || prop_in UNICODE_PROP_Other_ID_Continue c) && negb pattern.
Proof.
  intros Hc gc pattern. destruct (derived_vals c Hc) as (Hstart & Hcont & Hxor & Hcased). fold pattern in Hstart, Hcont. cbv zeta beta in Hcased, Hxor. unfold gc.
  assert (forall t i, (t, i) ∈ prop_tables -> lre_is_in_table c t i (zlen i / 3) = Some (prop_bits t c)) as Ht by (intros; by apply in_table_prop).
  unfold prop_tables in Ht. cbn [prop_sem].
  rewrite !(prop_in_bits UNICODE_PROP_ID_Start unicode_prop_ID_Start_table), (prop_in_bits UNICODE_PROP_Case_Ignorable unicode_prop_Case_Ignorable_table),
    !(prop_in_bits UNICODE_PROP_ID_Continue1 unicode_prop_ID_Continue1_table) in * by reflexivity.
  assert (lre_is_id_start c = Some (prop_bits unicode_prop_ID_Start_table c)) as Hs by (unfold lre_is_id_start; apply Ht; do 2 right; left).
  split_and!; [exact Hs| | | | |].
  - unfold lre_is_id_continue. rewrite Hs. cbn [mbind option_bind]. rewrite Hxor. destruct (prop_bits unicode_prop_ID_Start_table c); [reflexivity|]. cbn [orb].
    apply Ht. do 3 right. left.
  - unfold lre_is_case_ignorable. apply Ht. right. left.
  - unfold lre_is_cased. rewrite search_run_of. cbn [mbind option_bind]. rewrite <- (gc_in_Ms gc_cased) by done. rewrite Hcased. unfold bval.
    rewrite (case_bruns_spec 0x20000 case_conv_table1 0 c table1_sorted eq_refl Hc), <- run_of_has. destruct (run_of c).
    + rewrite bool_decide_eq_true_2 by eauto. reflexivity.
    + rewrite bool_decide_eq_false_2 by (by intros [? ?]). cbn [orb]. apply Ht. left.
  - symmetry. exact Hstart.
  - rewrite Hxor. symmetry. exact Hcont.
Qed.

Lemma membership_agrees_witness : lre_is_id_start 0x4e00 = Some (prop_sem UNICODE_PROP_ID_Start 0x4e00).
Proof. apply (membership_agrees 0x4e00). lia. Defined.
