(* ===== verification/UnicodeNormTables.v ===== *)
(** * The normalization tables of libunicode-table.h

    [unicode_decomp_table1]: one word per run of decomposable code points (18
    bits of first code point, 7 of length, 6 of type, 1 compatibility flag);
    [unicode_decomp_table2]: the offset of the run in [unicode_decomp_data], or
    the decomposition itself; [unicode_comp_table]: the composable characters,
    in the order of their decompositions. *)

From S2P Require Import Prelude.
Open Scope Z_scope.

Definition unicode_decomp_table1 : list Z := [
  0x280081; 0x2a0097; 0x2a8081; 0x2bc097; 0x2c8115; 0x2d0097; 0x2d4081; 0x2e0097; 0x2e4115;
  0x2f0199; 0x302016; 0x400842; 0x448a42; 0x4a0442; 0x4c0096; 0x4c8117; 0x4d0242; 0x4e4342;
  0x4fc12f; 0x50c342; 0x5240bf; 0x530342; 0x550942; 0x5a0842; 0x5e0096; 0x5e4342; 0x5fc081;
  0x680142; 0x6bc142; 0x710185; 0x71c317; 0x734844; 0x778344; 0x798342; 0x7b02be; 0x7c4197;
  0x7d0142; 0x7e0444; 0x800e42; 0x878142; 0x898744; 0xac0483; 0xb60317; 0xb80283; 0xd00214;
  0xd10096; 0xdd0080; 0xde8097; 0xdf8080; 0xe10097; 0xe1413e; 0xe1c080; 0xe204be; 0xea83ae;
  0xf282ae; 0xf401ad; 0xf4c12e; 0xf54103; 0xfc0303; 0xfe4081; 0x100023e; 0x101c0be; 0x10301be;
  0x10640be; 0x10e40be; 0x114023e; 0x115c0be; 0x11701be; 0x11d8144; 0x1304144; 0x1340244;
  0x1358144; 0x1368344; 0x1388344; 0x13a8644; 0x13e0144; 0x161c085; 0x18882ae; 0x19d422f;
  0x1b00184; 0x1b4c084; 0x24a4084; 0x24c4084; 0x24d0084; 0x256042e; 0x272c12e; 0x2770120;
  0x277c084; 0x28cc084; 0x28d8084; 0x29641ae; 0x2978084; 0x2d20084; 0x2d2c12e; 0x2d70120;
  0x2e50084; 0x2f281ae; 0x3120084; 0x3300084; 0x331c122; 0x332812e; 0x35281ae; 0x3768084;
  0x37701ae; 0x38cc085; 0x3acc085; 0x3b7012f; 0x3c30081; 0x3d0c084; 0x3d34084; 0x3d48084;
  0x3d5c084; 0x3d70084; 0x3da4084; 0x3dcc084; 0x3dd412e; 0x3ddc085; 0x3de0084; 0x3de4085;
  0x3e04084; 0x3e4c084; 0x3e74084; 0x3e88084; 0x3e9c084; 0x3eb0084; 0x3ee4084; 0x4098084;
  0x43f0081; 0x6c18484; 0x6c48084; 0x6cec184; 0x6d00120; 0x6d0c084; 0x74b0383; 0x74cc41f;
  0x74f1783; 0x75e0081; 0x766d283; 0x7801d44; 0x78e8942; 0x7931844; 0x79f0d42; 0x7a58216;
  0x7a68085; 0x7a6c0be; 0x7a80d44; 0x7aea044; 0x7c00122; 0x7c08344; 0x7c20122; 0x7c28344;
  0x7c40122; 0x7c48244; 0x7c60122; 0x7c68244; 0x7c8113e; 0x7d08244; 0x7d20122; 0x7d28244;
  0x7d40122; 0x7d48344; 0x7d64c3e; 0x7dc4080; 0x7dc80be; 0x7dcc080; 0x7dd00be; 0x7dd4080;
  0x7dd80be; 0x7ddc080; 0x7de00be; 0x7de4080; 0x7de80be; 0x7dec080; 0x7df00be; 0x7df4080;
  0x7e00820; 0x7e40820; 0x7e80820; 0x7ec05be; 0x7eec080; 0x7ef00be; 0x7ef4097; 0x7ef8080;
  0x7efc117; 0x7f0443e; 0x7f24080; 0x7f280be; 0x7f2c080; 0x7f303be; 0x7f4c080; 0x7f582ae;
  0x7f6c080; 0x7f7433e; 0x7f8c080; 0x7f903ae; 0x7fac080; 0x7fb013e; 0x7fb8102; 0x7fc83be;
  0x7fe4080; 0x7fe80be; 0x7fec080; 0x7ff00be; 0x7ff4080; 0x7ff8097; 0x800011e; 0x8008495;
  0x8044081; 0x805c097; 0x8090081; 0x8094097; 0x8098099; 0x80bc081; 0x80cc085; 0x80d00b1;
  0x80d8085; 0x80dc0b1; 0x80f0197; 0x811c197; 0x815c0b3; 0x817c081; 0x81c0595; 0x81ec081;
  0x81f0215; 0x820051f; 0x8228583; 0x8254415; 0x82a0097; 0x8400119; 0x8408081; 0x840c0bf;
  0x8414119; 0x841c081; 0x84240bf; 0x842852d; 0x8454081; 0x8458097; 0x8464295; 0x8480097;
  0x8484099; 0x8488097; 0x8490081; 0x8498080; 0x84a0081; 0x84a8102; 0x84b0495; 0x84d421f;
  0x84e4081; 0x84ec099; 0x84f0283; 0x8514295; 0x8540119; 0x854809b; 0x854c619; 0x857c097;
  0x8580081; 0x8584097; 0x8588099; 0x858c097; 0x8590081; 0x8594097; 0x8598099; 0x859c09b;
  0x85a0097; 0x85a4081; 0x85a8097; 0x85ac099; 0x85b0295; 0x85c4097; 0x85c8099; 0x85cc097;
  0x85d0081; 0x85d4097; 0x85d8099; 0x85dc09b; 0x85e0097; 0x85e4081; 0x85e8097; 0x85ec099;
  0x85f0215; 0x8624099; 0x866813e; 0x86b80be; 0x87341be; 0x88100be; 0x88240be; 0x88300be;
  0x88901be; 0x88b0085; 0x88b40b1; 0x88bc085; 0x88c00b1; 0x89040be; 0x89100be; 0x891c1be;
  0x89801be; 0x89b42be; 0x89d0144; 0x89e0144; 0x8a00144; 0x8a10144; 0x8a20144; 0x8ab023e;
  0x8b80244; 0x8ba8220; 0x8ca411e; 0x918049f; 0x91a4523; 0x91cc097; 0x91d04a5; 0x91f452b;
  0x921c09b; 0x92204a1; 0x9244525; 0x926c099; 0x9270d25; 0x92d8d1f; 0x9340d1f; 0x93a8081;
  0xa8300b3; 0xa9d0099; 0xa9d4097; 0xa9d8099; 0xab700be; 0xb1f0115; 0xb5bc081; 0xba7c081;
  0xbbcc081; 0xbc004ad; 0xbc244ad; 0xbc484ad; 0xbc6f383; 0xbe0852d; 0xbe31d03; 0xbf1882d;
  0xc000081; 0xc0d8283; 0xc130b84; 0xc194284; 0xc1c0122; 0xc1cc122; 0xc1d8122; 0xc1e4122;
  0xc1f0122; 0xc250084; 0xc26c123; 0xc278084; 0xc27c085; 0xc2b0b84; 0xc314284; 0xc340122;
  0xc34c122; 0xc358122; 0xc364122; 0xc370122; 0xc3d0084; 0xc3dc220; 0xc3f8084; 0xc3fc085;
  0xc4c4a2d; 0xc51451f; 0xc53ca9f; 0xc5915ad; 0xc648703; 0xc800741; 0xc838089; 0xc83c129;
  0xc8441a9; 0xc850089; 0xc854129; 0xc85c2a9; 0xc870089; 0xc87408f; 0xc87808d; 0xc881241;
  0xc910203; 0xc940099; 0xc9444a3; 0xc968323; 0xc98072d; 0xc9b84af; 0xc9dc2a1; 0xc9f00b5;
  0xc9f40b3; 0xc9f8085; 0xca01883; 0xcac4223; 0xcad4523; 0xcafc097; 0xcb004a1; 0xcb241a5;
  0xcb30097; 0xcb34099; 0xcb38097; 0xcb3c099; 0xcb417ad; 0xcbfc085; 0xcc001b3; 0xcc0c0b1;
  0xcc100b3; 0xcc14131; 0xcc1c0b5; 0xcc200b3; 0xcc241b1; 0xcc30133; 0xcc38131; 0xcc40085;
  0xcc440b1; 0xcc48133; 0xcc50085; 0xcc540b5; 0xcc580b7; 0xcc5c0b5; 0xcc600b1; 0xcc64135;
  0xcc6c0b3; 0xcc701b1; 0xcc7c0b3; 0xcc800b5; 0xcc840b3; 0xcc881b1; 0xcc9422f; 0xcca4131;
  0xccac0b5; 0xccb00b1; 0xccb40b3; 0xccb80b5; 0xccbc0b1; 0xccc012f; 0xccc80b5; 0xcccc0b3;
  0xccd00b5; 0xccd40b1; 0xccd80b5; 0xccdc085; 0xcce02b1; 0xccf40b3; 0xccf80b1; 0xccfc085;
  0xcd001b1; 0xcd0c0b3; 0xcd101b1; 0xcd1c0b5; 0xcd200b3; 0xcd24085; 0xcd280b5; 0xcd2c085;
  0xcd30133; 0xcd381b1; 0xcd440b3; 0xcd48085; 0xcd4c0b1; 0xcd500b3; 0xcd54085; 0xcd580b5;
  0xcd5c0b1; 0xcd60521; 0xcd88525; 0xcdb02a5; 0xcdc4099; 0xcdc8117; 0xcdd0099; 0xcdd4197;
  0xcde0127; 0xcde8285; 0xcdfc089; 0xce0043f; 0xce20099; 0xce2409b; 0xce283bf; 0xce44219;
  0xce54205; 0xce6433f; 0xce7c131; 0xce84085; 0xce881b1; 0xce94085; 0xce98107; 0xcea0089;
  0xcea4097; 0xcea8219; 0xceb809d; 0xcebc08d; 0xcec083f; 0xcf00105; 0xcf0809b; 0xcf0c197;
  0xcf1809b; 0xcf1c099; 0xcf20517; 0xcf48099; 0xcf4c117; 0xcf54119; 0xcf5c097; 0xcf6009b;
  0xcf64099; 0xcf68217; 0xcf78119; 0xcf804a1; 0xcfa4525; 0xcfcc525; 0xcff4125; 0xcffc099;
  0x29a70103; 0x29dc0081; 0x29fc8195; 0x29fe0103; 0x2ad70203; 0x2ada4081; 0x3e401482; 0x3e4a7f82;
  0x3e6a3f82; 0x3e8aa102; 0x3e9b0110; 0x3e9c2f82; 0x3eb3c590; 0x3ec00197; 0x3ec0c119; 0x3ec1413f;
  0x3ec4c2af; 0x3ec74184; 0x3ec804ad; 0x3eca4081; 0x3eca8304; 0x3ecc03a0; 0x3ece02a0; 0x3ecf8084;
  0x3ed00120; 0x3ed0c120; 0x3ed184ae; 0x3ed3c085; 0x3ed4312d; 0x3ef4cbad; 0x3efa892f; 0x3eff022d;
  0x3f002f2f; 0x3f1782a5; 0x3f18c0b1; 0x3f1907af; 0x3f1cffaf; 0x3f3c81a5; 0x3f3d64af; 0x3f542031;
  0x3f649b31; 0x3f7c0131; 0x3f7c83b3; 0x3f7e40b1; 0x3f7e80bd; 0x3f7ec0bb; 0x3f7f00b3; 0x3f840503;
  0x3f8c01ad; 0x3f8cc315; 0x3f8e462d; 0x3f91cc03; 0x3f97c695; 0x3f9c01af; 0x3f9d0085; 0x3f9d852f;
  0x3fa03aad; 0x3fbd442f; 0x3fc06f1f; 0x3fd7c11f; 0x3fd85fad; 0x3fe80081; 0x3fe84f1f; 0x3ff0831f;
  0x3ff2831f; 0x3ff4831f; 0x3ff6819f; 0x3ff80783; 0x41e04d83; 0x41e70f91; 0x44268192; 0x442ac092;
  0x444b8112; 0x44d2c112; 0x452ec212; 0x456e8112; 0x464e0092; 0x74578392; 0x746ec312; 0x75000d1f;
  0x75068d1f; 0x750d0d1f; 0x7513839f; 0x7515891f; 0x751a0d1f; 0x75208d1f; 0x75271015; 0x752f439f;
  0x7531459f; 0x75340d1f; 0x753a8d1f; 0x75410395; 0x7543441f; 0x7545839f; 0x75478d1f; 0x754e0795;
  0x7552839f; 0x75548d1f; 0x755b0d1f; 0x75618d1f; 0x75680d1f; 0x756e8d1f; 0x75750d1f; 0x757b8d1f;
  0x75820d1f; 0x75888d1f; 0x758f0d1f; 0x75958d1f; 0x759c0d1f; 0x75a28d1f; 0x75a90103; 0x75aa089f;
  0x75ae4081; 0x75ae839f; 0x75b04081; 0x75b08c9f; 0x75b6c081; 0x75b7032d; 0x75b8889f; 0x75bcc081;
  0x75bd039f; 0x75bec081; 0x75bf0c9f; 0x75c54081; 0x75c5832d; 0x75c7089f; 0x75cb4081; 0x75cb839f;
  0x75cd4081; 0x75cd8c9f; 0x75d3c081; 0x75d4032d; 0x75d5889f; 0x75d9c081; 0x75da039f; 0x75dbc081;
  0x75dc0c9f; 0x75e24081; 0x75e2832d; 0x75e4089f; 0x75e84081; 0x75e8839f; 0x75ea4081; 0x75ea8c9f;
  0x75f0c081; 0x75f1042d; 0x75f3851f; 0x75f6051f; 0x75f8851f; 0x75fb051f; 0x75fd851f; 0x780c049f;
  0x780e419f; 0x780f059f; 0x7811c203; 0x7812d0ad; 0x781b0103; 0x7b80022d; 0x7b814dad; 0x7b884203;
  0x7b89c081; 0x7b8a452d; 0x7b8d0403; 0x7b908081; 0x7b91dc03; 0x7ba0052d; 0x7ba2c8ad; 0x7ba84483;
  0x7baac8ad; 0x7c400097; 0x7c404521; 0x7c440d25; 0x7c4a8087; 0x7c4ac115; 0x7c4b4117; 0x7c4c0d1f;
  0x7c528217; 0x7c538099; 0x7c53c097; 0x7c5a8197; 0x7c640097; 0x7c80012f; 0x7c808081; 0x7c841603;
  0x7c9004c1; 0x7c940103; 0x7efc051f; 0xbe0001ac; 0xbe00d110; 0xbe0947ac; 0xbe0d3910; 0xbe29872c;
  0xbe2d022c; 0xbe2e3790; 0xbe49ff90; 0xbe69bc10
].

Definition unicode_decomp_table2 : list Z := [
  32; 0; 97; 2; 4; 6; 956; 8; 10; 12; 21; 149; 165; 185; 193; 195; 199; 203; 209; 215; 221; 224;
  230; 248; 264; 266; 115; 272; 274; 276; 288; 300; 324; 333; 339; 354; 360; 362; 374; 402; 404;
  425; 443; 455; 465; 469; 697; 471; 59; 473; 475; 183; 481; 508; 524; 536; 541; 547; 551; 931;
  563; 575; 578; 587; 590; 593; 605; 608; 617; 620; 623; 629; 632; 641; 650; 668; 671; 675; 687;
  697; 709; 713; 717; 721; 725; 743; 749; 753; 757; 761; 765; 773; 777; 781; 787; 791; 795; 803;
  807; 811; 815; 821; 829; 833; 841; 845; 849; 3851; 855; 859; 863; 867; 871; 875; 879; 883; 889;
  893; 897; 901; 905; 909; 913; 917; 921; 925; 929; 4316; 933; 969; 973; 985; 989; 993; 1007; 1009;
  1085; 1103; 1177; 1264; 1282; 1354; 1380; 1388; 1392; 1395; 1434; 1530; 1534; 1543; 1547; 1556;
  1560; 1566; 1570; 1576; 1678; 1684; 1688; 1694; 1698; 1707; 940; 1779; 941; 1782; 942; 1785; 943;
  1788; 972; 1791; 973; 1794; 974; 1797; 1801; 1805; 1809; 902; 1842; 1845; 953; 1847; 1851; 904;
  1875; 905; 1878; 912; 1899; 906; 1911; 944; 1929; 910; 1945; 1951; 1955; 908; 1976; 911; 1979;
  180; 1982; 1984; 1986; 8208; 1995; 46; 1997; 1999; 32; 2002; 2006; 2011; 2015; 2020; 2026; 2032;
  32; 2038; 8722; 2049; 2053; 2055; 2077; 2085; 2087; 67; 2093; 2096; 400; 2102; 2105; 78; 2117;
  2119; 2124; 2126; 2129; 90; 937; 90; 2131; 2135; 2144; 105; 2146; 2149; 2159; 2164; 2170; 2174;
  2210; 73; 2212; 2214; 2217; 86; 2219; 2221; 2224; 2228; 88; 2230; 2232; 2235; 2240; 2242; 2245;
  118; 2247; 2249; 2252; 2256; 120; 2258; 2260; 2263; 2267; 2270; 2276; 2279; 2288; 2291; 2294;
  2297; 2306; 2310; 2315; 2319; 2324; 2327; 2330; 2339; 2348; 2363; 2366; 2369; 2372; 2375; 2378;
  2390; 2396; 2400; 2402; 2404; 2408; 2410; 2416; 2424; 2428; 2432; 2438; 2441; 2447; 2449; 48;
  2451; 2457; 2460; 2462; 2465; 2468; 11617; 27597; 40863; 2470; 2481; 2492; 2503; 2709; 2721;
  2837; 32; 2855; 2865; 2957; 2977; 2981; 2985; 2989; 2993; 2997; 3001; 3005; 3009; 3013; 3105;
  3125; 3129; 3133; 3137; 3141; 3145; 3149; 3153; 3157; 3161; 3183; 3185; 3187; 3232; 3260; 3292;
  3300; 3308; 3316; 3324; 3332; 3340; 3348; 3362; 3374; 3450; 3458; 3461; 3465; 3469; 3485; 3505;
  3509; 3516; 3522; 3526; 3624; 3628; 3632; 3634; 3638; 3644; 3646; 3649; 3651; 3654; 3703; 3707;
  3721; 3726; 3732; 3740; 3747; 3753; 3764; 3774; 3782; 3786; 3791; 3801; 3805; 3812; 3820; 3827;
  3832; 3844; 3850; 3861; 3867; 3874; 3880; 3891; 3901; 3909; 3916; 3921; 3927; 3934; 3939; 3945;
  3952; 3958; 3965; 3970; 3977; 3981; 3998; 4004; 4009; 4013; 4024; 4030; 4041; 4048; 4054; 4058;
  4065; 4069; 4079; 4090; 4096; 4100; 4105; 4111; 4115; 4122; 4127; 4131; 4137; 4143; 4146; 4150;
  4153; 4159; 4165; 4185; 4193; 4217; 4220; 4224; 4245; 4257; 4273; 4291; 4299; 4303; 4314; 4318;
  4330; 4338; 4340; 4352; 4357; 4369; 4417; 4425; 4429; 4435; 4439; 4442; 4462; 4465; 4469; 4475;
  4477; 4481; 4484; 4492; 4498; 4502; 4508; 4514; 4520; 4523; 42863; 4527; 4530; 4534; 653; 4542;
  4624; 4878; 5132; 5264; 5269; 5459; 5484; 5490; 5496; 5502; 5514; 5526; 43; 5537; 5561; 5565;
  5569; 5573; 5577; 5581; 5601; 5605; 5705; 5730; 5768; 5774; 5964; 5970; 5975; 6007; 6263; 6269;
  6417; 6611; 6775; 6783; 6813; 6818; 6838; 6848; 6854; 6874; 6879; 6885; 6899; 6947; 6960; 6968;
  6972; 6994; 7113; 7131; 7133; 7135; 12644; 7200; 7202; 7204; 7206; 7208; 7210; 7240; 7294; 7364;
  7378; 7383; 7392; 7401; 7419; 7428; 7433; 7465; 7492; 7494; 7496; 7498; 7500; 7502; 7504; 7506;
  7538; 7540; 7542; 7544; 7546; 7553; 7555; 7557; 7559; 7574; 7576; 7578; 7580; 7582; 7584; 7586;
  7588; 7590; 7592; 7594; 7596; 7598; 7600; 7602; 7606; 1012; 7608; 8711; 7610; 8706; 7612; 7620;
  1012; 7622; 8711; 7624; 8706; 7626; 7634; 1012; 7636; 8711; 7638; 8706; 7640; 7648; 1012; 7650;
  8711; 7652; 8706; 7654; 7662; 1012; 7664; 8711; 7666; 8706; 7668; 7678; 7680; 7682; 7684; 7686;
  7688; 7690; 7692; 7694; 7702; 7737; 7741; 7747; 7776; 1581; 7784; 7796; 1580; 7812; 7924; 7936;
  7955; 7973; 7992; 7994; 7998; 8004; 8010; 8012; 8016; 8018; 8026; 8029; 8031; 8037; 8039; 12469;
  8045; 8133; 8155; 8159; 8161; 8166; 8243; 8260; 8517; 8533; 8539; 8789; 9075
].

Definition unicode_decomp_data : list Z := [
  32; 136; 32; 132; 50; 51; 32; 129; 32; 167; 49; 111; 49; 208; 52; 49; 208; 50; 51; 208; 52; 65;
  128; 65; 129; 65; 130; 65; 131; 65; 136; 65; 138; 0; 0; 67; 167; 69; 128; 69; 129; 69; 130; 69;
  136; 73; 128; 73; 129; 73; 130; 73; 136; 0; 0; 78; 131; 79; 128; 79; 129; 79; 130; 79; 131; 79;
  136; 0; 0; 0; 0; 85; 128; 85; 129; 85; 130; 85; 136; 89; 129; 0; 0; 0; 0; 97; 128; 97; 129; 97;
  130; 97; 131; 97; 136; 97; 138; 0; 0; 99; 167; 101; 128; 101; 129; 101; 130; 101; 136; 105; 128;
  105; 129; 105; 130; 105; 136; 0; 0; 110; 131; 111; 128; 111; 129; 111; 130; 111; 131; 111; 136;
  0; 0; 0; 0; 117; 128; 117; 129; 117; 130; 117; 136; 121; 129; 0; 0; 121; 136; 65; 132; 65; 134;
  65; 168; 67; 129; 67; 130; 67; 135; 67; 140; 68; 140; 69; 132; 69; 134; 69; 135; 69; 168; 69;
  140; 71; 130; 71; 134; 71; 135; 71; 167; 72; 130; 73; 131; 73; 132; 73; 134; 73; 168; 73; 135;
  73; 74; 105; 106; 74; 130; 75; 167; 76; 129; 76; 167; 76; 140; 76; 0; 0; 107; 32; 107; 78; 129;
  78; 167; 78; 140; 188; 2; 110; 79; 132; 79; 134; 79; 139; 82; 129; 82; 167; 82; 140; 83; 129; 83;
  130; 83; 167; 83; 140; 84; 167; 84; 140; 85; 131; 85; 132; 85; 134; 85; 138; 85; 139; 85; 168;
  87; 130; 89; 130; 89; 136; 90; 129; 90; 135; 90; 140; 79; 155; 85; 155; 68; 0; 125; 1; 68; 0;
  126; 1; 100; 0; 126; 1; 76; 74; 76; 106; 108; 106; 78; 74; 78; 106; 110; 106; 65; 0; 140; 73; 0;
  140; 79; 0; 140; 85; 0; 140; 220; 0; 132; 220; 0; 129; 220; 0; 140; 220; 0; 128; 196; 0; 132; 38;
  2; 132; 198; 0; 132; 71; 140; 75; 140; 79; 168; 234; 1; 132; 235; 1; 132; 183; 1; 140; 146; 2;
  140; 106; 0; 140; 68; 90; 68; 122; 100; 122; 71; 129; 78; 0; 128; 197; 0; 129; 198; 0; 129; 216;
  0; 129; 65; 143; 65; 145; 69; 143; 69; 145; 73; 143; 73; 145; 79; 143; 79; 145; 82; 143; 82; 145;
  85; 143; 85; 145; 83; 166; 84; 166; 72; 140; 65; 0; 135; 69; 0; 167; 214; 0; 132; 213; 0; 132;
  79; 0; 135; 46; 2; 132; 89; 0; 132; 104; 0; 102; 2; 106; 0; 114; 0; 121; 2; 123; 2; 129; 2; 119;
  0; 121; 0; 32; 134; 32; 135; 32; 138; 32; 168; 32; 131; 32; 139; 99; 2; 108; 0; 115; 0; 120; 0;
  149; 2; 128; 129; 0; 147; 136; 129; 32; 197; 32; 129; 168; 0; 129; 145; 3; 129; 149; 3; 129; 151;
  3; 129; 153; 3; 129; 0; 0; 0; 159; 3; 129; 0; 0; 0; 165; 3; 129; 169; 3; 129; 202; 3; 129; 1; 3;
  152; 7; 164; 7; 176; 0; 180; 0; 182; 0; 184; 0; 202; 0; 1; 3; 184; 7; 196; 7; 190; 0; 196; 0;
  200; 0; 165; 3; 13; 19; 0; 1; 3; 209; 0; 209; 7; 198; 3; 192; 3; 186; 3; 193; 3; 194; 3; 0; 0;
  152; 3; 181; 3; 21; 4; 128; 21; 4; 136; 0; 0; 0; 19; 4; 129; 6; 4; 136; 26; 4; 129; 24; 4; 128;
  35; 4; 134; 24; 4; 134; 56; 4; 134; 53; 4; 128; 53; 4; 136; 0; 0; 0; 51; 4; 129; 86; 4; 136; 58;
  4; 129; 56; 4; 128; 67; 4; 134; 116; 4; 143; 22; 4; 134; 16; 4; 134; 16; 4; 136; 21; 4; 134; 216;
  4; 136; 22; 4; 136; 23; 4; 136; 24; 4; 132; 24; 4; 136; 30; 4; 136; 232; 4; 136; 45; 4; 136; 35;
  4; 132; 35; 4; 136; 35; 4; 139; 39; 4; 136; 43; 4; 136; 101; 5; 130; 5; 39; 6; 0; 44; 0; 45; 33;
  45; 0; 46; 35; 45; 39; 6; 0; 77; 33; 77; 160; 77; 35; 77; 213; 6; 84; 6; 0; 0; 0; 0; 193; 6; 84;
  6; 210; 6; 84; 6; 40; 9; 60; 9; 48; 9; 60; 9; 51; 9; 60; 9; 21; 9; 0; 39; 1; 39; 2; 39; 7; 39;
  12; 39; 13; 39; 22; 39; 26; 39; 190; 9; 9; 0; 9; 25; 161; 9; 188; 9; 175; 9; 188; 9; 50; 10; 60;
  10; 56; 10; 60; 10; 22; 10; 0; 38; 1; 38; 6; 38; 43; 10; 60; 10; 71; 11; 86; 11; 62; 11; 9; 0; 9;
  25; 33; 11; 60; 11; 146; 11; 215; 11; 190; 11; 8; 0; 9; 0; 8; 25; 70; 12; 86; 12; 191; 12; 213;
  12; 198; 12; 213; 12; 194; 12; 4; 0; 8; 19; 62; 13; 8; 0; 9; 0; 8; 25; 217; 13; 202; 13; 202; 13;
  15; 5; 18; 0; 15; 21; 77; 14; 50; 14; 205; 14; 178; 14; 153; 14; 18; 0; 18; 8; 66; 15; 183; 15;
  76; 15; 183; 15; 81; 15; 183; 15; 86; 15; 183; 15; 91; 15; 183; 15; 64; 15; 181; 15; 113; 15;
  114; 15; 113; 15; 0; 3; 65; 15; 178; 15; 129; 15; 179; 15; 128; 15; 179; 15; 129; 15; 113; 15;
  128; 15; 146; 15; 183; 15; 156; 15; 183; 15; 161; 15; 183; 15; 166; 15; 183; 15; 171; 15; 183;
  15; 144; 15; 181; 15; 37; 16; 46; 16; 5; 27; 53; 27; 0; 0; 0; 0; 7; 27; 53; 27; 0; 0; 0; 0; 9;
  27; 53; 27; 0; 0; 0; 0; 11; 27; 53; 27; 0; 0; 0; 0; 13; 27; 53; 27; 17; 27; 53; 27; 58; 27; 53;
  27; 0; 0; 0; 0; 60; 27; 53; 27; 62; 27; 53; 27; 66; 27; 53; 27; 65; 0; 198; 0; 66; 0; 0; 0; 68;
  0; 69; 0; 142; 1; 71; 0; 79; 0; 34; 2; 80; 0; 82; 0; 84; 0; 85; 0; 87; 0; 97; 0; 80; 2; 81; 2; 2;
  29; 98; 0; 100; 0; 101; 0; 89; 2; 91; 2; 92; 2; 103; 0; 0; 0; 107; 0; 109; 0; 75; 1; 111; 0; 84;
  2; 22; 29; 23; 29; 112; 0; 116; 0; 117; 0; 29; 29; 111; 2; 118; 0; 37; 29; 178; 3; 179; 3; 180;
  3; 198; 3; 199; 3; 105; 0; 114; 0; 117; 0; 118; 0; 178; 3; 179; 3; 193; 3; 198; 3; 199; 3; 82; 2;
  99; 0; 85; 2; 240; 0; 92; 2; 102; 0; 95; 2; 97; 2; 101; 2; 104; 2; 105; 2; 106; 2; 123; 29; 157;
  2; 109; 2; 133; 29; 159; 2; 113; 2; 112; 2; 114; 2; 115; 2; 116; 2; 117; 2; 120; 2; 130; 2; 131;
  2; 171; 1; 137; 2; 138; 2; 28; 29; 139; 2; 140; 2; 122; 0; 144; 2; 145; 2; 146; 2; 184; 3; 65; 0;
  165; 66; 0; 135; 66; 0; 163; 66; 0; 177; 199; 0; 129; 68; 0; 135; 68; 0; 163; 68; 0; 177; 68; 0;
  167; 68; 0; 173; 18; 1; 128; 18; 1; 129; 69; 0; 173; 69; 0; 176; 40; 2; 134; 70; 0; 135; 71; 0;
  132; 72; 0; 135; 72; 0; 163; 72; 0; 136; 72; 0; 167; 72; 0; 174; 73; 0; 176; 207; 0; 129; 75; 0;
  129; 75; 0; 163; 75; 0; 177; 76; 0; 163; 54; 30; 132; 76; 177; 76; 173; 77; 129; 77; 135; 77;
  163; 78; 135; 78; 163; 78; 177; 78; 173; 213; 0; 129; 213; 0; 136; 76; 1; 128; 76; 1; 129; 80; 0;
  129; 80; 0; 135; 82; 0; 135; 82; 0; 163; 90; 30; 132; 82; 0; 177; 83; 0; 135; 83; 0; 163; 90; 1;
  135; 96; 1; 135; 98; 30; 135; 84; 0; 135; 84; 0; 163; 84; 0; 177; 84; 0; 173; 85; 0; 164; 85; 0;
  176; 85; 0; 173; 104; 1; 129; 106; 1; 136; 86; 131; 86; 163; 87; 128; 87; 129; 87; 136; 87; 135;
  87; 163; 88; 135; 88; 136; 89; 135; 90; 130; 90; 163; 90; 177; 104; 177; 116; 136; 119; 138; 121;
  138; 97; 0; 190; 2; 127; 1; 135; 65; 0; 163; 65; 0; 137; 194; 0; 129; 194; 0; 128; 194; 0; 137;
  194; 0; 131; 160; 30; 130; 2; 1; 129; 2; 1; 128; 2; 1; 137; 2; 1; 131; 160; 30; 134; 69; 0; 163;
  69; 0; 137; 69; 0; 131; 202; 0; 129; 202; 0; 128; 202; 0; 137; 202; 0; 131; 184; 30; 130; 73; 0;
  137; 73; 0; 163; 79; 0; 163; 79; 0; 137; 212; 0; 129; 212; 0; 128; 212; 0; 137; 212; 0; 131; 204;
  30; 130; 160; 1; 129; 160; 1; 128; 160; 1; 137; 160; 1; 131; 160; 1; 163; 85; 0; 163; 85; 0; 137;
  175; 1; 129; 175; 1; 128; 175; 1; 137; 175; 1; 131; 175; 1; 163; 89; 0; 128; 89; 0; 163; 89; 0;
  137; 89; 0; 131; 177; 3; 19; 3; 0; 31; 128; 0; 31; 129; 0; 31; 194; 145; 3; 19; 3; 8; 31; 128; 8;
  31; 129; 8; 31; 194; 181; 3; 19; 3; 16; 31; 128; 16; 31; 129; 149; 3; 19; 3; 24; 31; 128; 24; 31;
  129; 183; 3; 147; 183; 3; 148; 32; 31; 128; 33; 31; 128; 32; 31; 129; 33; 31; 129; 32; 31; 194;
  33; 31; 194; 151; 3; 147; 151; 3; 148; 40; 31; 128; 41; 31; 128; 40; 31; 129; 41; 31; 129; 40;
  31; 194; 41; 31; 194; 185; 3; 147; 185; 3; 148; 48; 31; 128; 49; 31; 128; 48; 31; 129; 49; 31;
  129; 48; 31; 194; 49; 31; 194; 153; 3; 147; 153; 3; 148; 56; 31; 128; 57; 31; 128; 56; 31; 129;
  57; 31; 129; 56; 31; 194; 57; 31; 194; 191; 3; 147; 191; 3; 148; 64; 31; 128; 64; 31; 129; 159;
  3; 19; 3; 72; 31; 128; 72; 31; 129; 197; 3; 19; 3; 80; 31; 128; 80; 31; 129; 80; 31; 194; 165; 3;
  148; 0; 0; 0; 89; 31; 128; 0; 0; 0; 89; 31; 129; 0; 0; 0; 89; 31; 194; 201; 3; 147; 201; 3; 148;
  96; 31; 128; 97; 31; 128; 96; 31; 129; 97; 31; 129; 96; 31; 194; 97; 31; 194; 169; 3; 147; 169;
  3; 148; 104; 31; 128; 105; 31; 128; 104; 31; 129; 105; 31; 129; 104; 31; 194; 105; 31; 194; 177;
  3; 128; 181; 3; 128; 183; 3; 128; 185; 3; 128; 191; 3; 128; 197; 3; 128; 201; 3; 128; 0; 31; 69;
  3; 32; 31; 69; 3; 96; 31; 69; 3; 177; 3; 134; 177; 3; 132; 112; 31; 197; 177; 3; 197; 172; 3;
  197; 0; 0; 0; 177; 3; 194; 182; 31; 197; 145; 3; 134; 145; 3; 132; 145; 3; 128; 145; 3; 197; 32;
  147; 32; 147; 32; 194; 168; 0; 194; 116; 31; 197; 183; 3; 197; 174; 3; 197; 0; 0; 0; 183; 3; 194;
  198; 31; 197; 149; 3; 128; 151; 3; 128; 151; 3; 197; 191; 31; 128; 191; 31; 129; 191; 31; 194;
  185; 3; 134; 185; 3; 132; 202; 3; 128; 0; 3; 185; 66; 202; 66; 153; 6; 153; 4; 153; 0; 254; 31;
  128; 254; 31; 129; 254; 31; 194; 197; 3; 134; 197; 3; 132; 203; 3; 128; 0; 3; 193; 19; 193; 20;
  197; 66; 203; 66; 165; 6; 165; 4; 165; 0; 161; 3; 148; 168; 0; 128; 133; 3; 96; 0; 124; 31; 197;
  201; 3; 197; 206; 3; 197; 0; 0; 0; 201; 3; 194; 246; 31; 197; 159; 3; 128; 169; 3; 128; 169; 3;
  197; 32; 148; 2; 32; 32; 32; 32; 32; 32; 32; 32; 32; 32; 32; 179; 46; 46; 46; 46; 46; 50; 32; 50;
  32; 50; 32; 0; 0; 0; 53; 32; 53; 32; 53; 32; 0; 0; 0; 33; 33; 0; 0; 32; 133; 63; 63; 63; 33; 33;
  63; 50; 32; 0; 0; 0; 0; 48; 105; 0; 0; 52; 53; 54; 55; 56; 57; 43; 61; 40; 41; 110; 48; 0; 43; 0;
  18; 34; 61; 0; 40; 0; 41; 0; 0; 0; 97; 0; 101; 0; 111; 0; 120; 0; 89; 2; 104; 107; 108; 109; 110;
  112; 115; 116; 82; 115; 97; 47; 99; 97; 47; 115; 176; 0; 67; 99; 47; 111; 99; 47; 117; 176; 0;
  70; 72; 0; 31; 0; 0; 0; 32; 223; 1; 1; 4; 36; 78; 111; 80; 81; 82; 82; 82; 83; 77; 84; 69; 76;
  84; 77; 75; 0; 197; 0; 66; 67; 0; 101; 69; 70; 0; 77; 111; 208; 5; 70; 65; 88; 192; 3; 179; 3;
  147; 3; 160; 3; 17; 34; 68; 100; 101; 105; 106; 49; 208; 55; 49; 208; 57; 49; 208; 49; 48; 49;
  208; 51; 50; 208; 51; 49; 208; 53; 50; 208; 53; 51; 208; 53; 52; 208; 53; 49; 208; 54; 53; 208;
  54; 49; 208; 56; 51; 208; 56; 53; 208; 56; 55; 208; 56; 49; 208; 73; 73; 73; 73; 73; 73; 86; 86;
  73; 86; 73; 73; 86; 73; 73; 73; 73; 88; 88; 73; 88; 73; 73; 76; 67; 68; 77; 105; 105; 105; 105;
  105; 105; 105; 118; 118; 105; 118; 105; 105; 118; 105; 105; 105; 105; 120; 120; 105; 120; 105;
  105; 108; 99; 100; 109; 48; 208; 51; 144; 33; 184; 146; 33; 184; 148; 33; 184; 208; 33; 184; 212;
  33; 184; 210; 33; 184; 3; 34; 184; 8; 34; 184; 11; 34; 184; 35; 34; 184; 0; 0; 0; 37; 34; 184;
  43; 34; 43; 34; 43; 34; 0; 0; 0; 46; 34; 46; 34; 46; 34; 0; 0; 0; 60; 34; 184; 67; 34; 184; 69;
  34; 184; 0; 0; 0; 72; 34; 184; 61; 0; 184; 0; 0; 0; 97; 34; 184; 77; 34; 184; 60; 0; 184; 62; 0;
  184; 100; 34; 184; 101; 34; 184; 114; 34; 184; 118; 34; 184; 122; 34; 184; 130; 34; 184; 134; 34;
  184; 162; 34; 184; 168; 34; 184; 169; 34; 184; 171; 34; 184; 124; 34; 184; 145; 34; 184; 178; 34;
  56; 3; 8; 48; 49; 0; 49; 0; 48; 0; 50; 48; 40; 0; 49; 0; 41; 0; 40; 0; 49; 0; 48; 0; 41; 0; 40;
  50; 48; 41; 49; 0; 46; 0; 49; 0; 48; 0; 46; 0; 50; 48; 46; 40; 0; 97; 0; 41; 0; 65; 0; 97; 0; 43;
  34; 0; 0; 0; 0; 58; 58; 61; 61; 61; 61; 61; 61; 221; 42; 184; 106; 86; 0; 78; 0; 40; 54; 63; 89;
  133; 140; 160; 186; 63; 81; 0; 38; 44; 67; 87; 108; 161; 182; 193; 155; 82; 0; 94; 122; 127; 157;
  166; 193; 206; 231; 182; 83; 200; 83; 227; 83; 215; 86; 31; 87; 235; 88; 2; 89; 10; 89; 21; 89;
  39; 89; 115; 89; 80; 91; 128; 91; 248; 91; 15; 92; 34; 92; 56; 92; 110; 92; 113; 92; 219; 93;
  229; 93; 241; 93; 254; 93; 114; 94; 122; 94; 127; 94; 244; 94; 254; 94; 11; 95; 19; 95; 80; 95;
  97; 95; 115; 95; 195; 95; 8; 98; 54; 98; 75; 98; 47; 101; 52; 101; 135; 101; 151; 101; 164; 101;
  185; 101; 224; 101; 229; 101; 240; 102; 8; 103; 40; 103; 32; 107; 98; 107; 121; 107; 179; 107;
  203; 107; 212; 107; 219; 107; 15; 108; 20; 108; 52; 108; 107; 112; 42; 114; 54; 114; 59; 114; 63;
  114; 71; 114; 89; 114; 91; 114; 172; 114; 132; 115; 137; 115; 220; 116; 230; 116; 24; 117; 31;
  117; 40; 117; 48; 117; 139; 117; 146; 117; 118; 118; 125; 118; 174; 118; 191; 118; 238; 118; 219;
  119; 226; 119; 243; 119; 58; 121; 184; 121; 190; 121; 116; 122; 203; 122; 249; 122; 115; 124;
  248; 124; 54; 127; 81; 127; 138; 127; 189; 127; 1; 128; 12; 128; 18; 128; 51; 128; 127; 128; 137;
  128; 227; 129; 0; 7; 16; 25; 41; 56; 60; 139; 143; 149; 77; 134; 107; 134; 64; 136; 76; 136; 99;
  136; 126; 137; 139; 137; 210; 137; 0; 138; 55; 140; 70; 140; 85; 140; 120; 140; 157; 140; 100;
  141; 112; 141; 179; 141; 171; 142; 202; 142; 155; 143; 176; 143; 181; 143; 145; 144; 73; 145;
  198; 145; 204; 145; 209; 145; 119; 149; 128; 149; 28; 150; 182; 150; 185; 150; 232; 150; 81; 151;
  94; 151; 98; 151; 105; 151; 203; 151; 237; 151; 243; 151; 1; 152; 168; 152; 219; 152; 223; 152;
  150; 153; 153; 153; 172; 153; 168; 154; 216; 154; 223; 154; 37; 155; 47; 155; 50; 155; 60; 155;
  90; 155; 229; 156; 117; 158; 127; 158; 165; 158; 0; 22; 30; 40; 44; 84; 88; 105; 110; 123; 150;
  165; 173; 232; 247; 251; 18; 48; 0; 0; 65; 83; 68; 83; 69; 83; 75; 48; 153; 48; 0; 0; 0; 0; 77;
  48; 153; 48; 0; 0; 0; 0; 79; 48; 153; 48; 0; 0; 0; 0; 81; 48; 153; 48; 0; 0; 0; 0; 83; 48; 153;
  48; 0; 0; 0; 0; 85; 48; 153; 48; 0; 0; 0; 0; 87; 48; 153; 48; 0; 0; 0; 0; 89; 48; 153; 48; 0; 0;
  0; 0; 91; 48; 153; 48; 0; 0; 0; 0; 93; 48; 153; 48; 0; 0; 0; 0; 95; 48; 153; 48; 0; 0; 0; 0; 97;
  48; 153; 48; 100; 48; 153; 48; 0; 0; 0; 0; 102; 48; 153; 48; 0; 0; 0; 0; 104; 48; 153; 48; 111;
  48; 153; 48; 114; 48; 153; 48; 117; 48; 153; 48; 120; 48; 153; 48; 123; 48; 153; 48; 70; 48; 153;
  48; 32; 0; 153; 48; 157; 48; 153; 48; 136; 48; 138; 48; 171; 48; 153; 48; 0; 0; 0; 0; 173; 48;
  153; 48; 0; 0; 0; 0; 175; 48; 153; 48; 0; 0; 0; 0; 177; 48; 153; 48; 0; 0; 0; 0; 179; 48; 153;
  48; 0; 0; 0; 0; 181; 48; 153; 48; 0; 0; 0; 0; 183; 48; 153; 48; 0; 0; 0; 0; 185; 48; 153; 48; 0;
  0; 0; 0; 187; 48; 153; 48; 0; 0; 0; 0; 189; 48; 153; 48; 0; 0; 0; 0; 191; 48; 153; 48; 0; 0; 0;
  0; 193; 48; 153; 48; 196; 48; 153; 48; 0; 0; 0; 0; 198; 48; 153; 48; 0; 0; 0; 0; 200; 48; 153;
  48; 207; 48; 153; 48; 210; 48; 153; 48; 213; 48; 153; 48; 216; 48; 153; 48; 219; 48; 153; 48;
  166; 48; 153; 48; 239; 48; 153; 48; 253; 48; 153; 48; 179; 48; 200; 48; 0; 17; 0; 1; 170; 2; 172;
  173; 3; 4; 5; 176; 177; 178; 179; 180; 181; 26; 6; 7; 8; 33; 9; 17; 97; 17; 20; 17; 76; 0; 1;
  179; 180; 184; 186; 191; 195; 197; 8; 201; 203; 9; 10; 12; 14; 15; 19; 21; 23; 24; 25; 26; 27;
  30; 34; 44; 51; 56; 221; 222; 67; 68; 69; 112; 113; 116; 125; 126; 128; 138; 141; 0; 78; 140; 78;
  9; 78; 219; 86; 10; 78; 45; 78; 11; 78; 50; 117; 89; 78; 25; 78; 1; 78; 41; 89; 48; 87; 186; 78;
  40; 0; 41; 0; 0; 17; 2; 17; 3; 17; 5; 17; 6; 17; 7; 17; 9; 17; 11; 17; 12; 17; 14; 17; 15; 17;
  16; 17; 17; 17; 18; 17; 40; 0; 0; 17; 97; 17; 41; 0; 40; 0; 2; 17; 97; 17; 41; 0; 40; 0; 5; 17;
  97; 17; 41; 0; 40; 0; 9; 17; 97; 17; 41; 0; 40; 0; 11; 17; 97; 17; 41; 0; 40; 0; 14; 17; 97; 17;
  41; 0; 40; 0; 12; 17; 110; 17; 41; 0; 40; 0; 11; 17; 105; 17; 12; 17; 101; 17; 171; 17; 41; 0;
  40; 0; 11; 17; 105; 17; 18; 17; 110; 17; 41; 0; 40; 0; 41; 0; 0; 78; 140; 78; 9; 78; 219; 86;
  148; 78; 109; 81; 3; 78; 107; 81; 93; 78; 65; 83; 8; 103; 107; 112; 52; 108; 40; 103; 209; 145;
  31; 87; 229; 101; 42; 104; 9; 103; 62; 121; 13; 84; 121; 114; 161; 140; 93; 121; 180; 82; 227;
  78; 124; 84; 102; 91; 227; 118; 1; 79; 199; 140; 84; 83; 109; 121; 17; 79; 234; 129; 243; 129;
  79; 85; 124; 94; 135; 101; 143; 123; 80; 84; 69; 50; 0; 49; 0; 51; 0; 48; 0; 0; 17; 0; 2; 3; 5;
  6; 7; 9; 11; 12; 14; 15; 16; 17; 18; 0; 17; 0; 97; 2; 97; 3; 97; 5; 97; 6; 97; 7; 97; 9; 97; 11;
  97; 12; 97; 14; 17; 97; 17; 0; 17; 14; 97; 183; 0; 105; 11; 17; 1; 99; 0; 105; 11; 17; 110; 17;
  0; 78; 140; 78; 9; 78; 219; 86; 148; 78; 109; 81; 3; 78; 107; 81; 93; 78; 65; 83; 8; 103; 107;
  112; 52; 108; 40; 103; 209; 145; 31; 87; 229; 101; 42; 104; 9; 103; 62; 121; 13; 84; 121; 114;
  161; 140; 93; 121; 180; 82; 216; 121; 55; 117; 115; 89; 105; 144; 42; 81; 112; 83; 232; 108; 5;
  152; 17; 79; 153; 81; 99; 107; 10; 78; 45; 78; 11; 78; 230; 93; 243; 83; 59; 83; 151; 91; 102;
  91; 227; 118; 1; 79; 199; 140; 84; 83; 28; 89; 51; 0; 54; 0; 52; 0; 48; 0; 53; 48; 49; 0; 8; 103;
  49; 0; 48; 0; 8; 103; 72; 103; 101; 114; 103; 101; 86; 76; 84; 68; 162; 48; 0; 2; 4; 6; 8; 9; 11;
  13; 15; 17; 19; 21; 23; 25; 27; 29; 31; 34; 36; 38; 40; 41; 42; 43; 44; 45; 48; 51; 54; 57; 60;
  61; 62; 63; 64; 66; 68; 70; 71; 72; 73; 74; 75; 77; 78; 79; 80; 228; 78; 140; 84; 161; 48; 1; 48;
  91; 39; 1; 74; 52; 0; 1; 82; 57; 1; 162; 48; 0; 90; 73; 164; 48; 0; 39; 79; 12; 164; 48; 0; 79;
  29; 2; 5; 79; 168; 48; 0; 17; 7; 84; 33; 168; 48; 0; 84; 3; 84; 164; 48; 6; 79; 21; 6; 88; 60; 7;
  0; 70; 171; 48; 0; 62; 24; 29; 0; 66; 63; 81; 172; 48; 0; 65; 71; 0; 71; 50; 174; 48; 172; 48;
  174; 48; 0; 29; 78; 173; 48; 0; 56; 61; 79; 1; 62; 19; 79; 173; 48; 237; 48; 173; 48; 0; 64; 3;
  60; 51; 173; 48; 0; 64; 52; 79; 27; 62; 173; 48; 0; 64; 66; 22; 27; 176; 48; 0; 57; 48; 164; 48;
  12; 69; 60; 36; 79; 11; 71; 24; 0; 73; 175; 48; 0; 62; 77; 30; 177; 48; 0; 75; 8; 2; 58; 25; 2;
  75; 44; 164; 48; 17; 0; 11; 71; 181; 48; 0; 62; 12; 71; 43; 176; 48; 7; 58; 67; 0; 185; 48; 2;
  58; 8; 2; 58; 15; 7; 67; 0; 183; 48; 16; 0; 18; 52; 17; 60; 19; 23; 164; 48; 42; 31; 36; 43; 0;
  32; 187; 48; 22; 65; 0; 56; 13; 196; 48; 13; 56; 0; 208; 48; 0; 44; 28; 27; 162; 48; 50; 0; 23;
  38; 73; 175; 48; 37; 0; 60; 179; 48; 33; 0; 32; 56; 161; 48; 52; 0; 72; 34; 40; 163; 48; 50; 0;
  89; 37; 167; 48; 47; 28; 16; 0; 68; 213; 48; 0; 20; 30; 175; 48; 41; 0; 16; 77; 60; 218; 48; 189;
  48; 184; 48; 34; 19; 26; 32; 51; 12; 34; 59; 1; 34; 68; 0; 33; 68; 7; 164; 48; 57; 0; 79; 36;
  200; 48; 20; 35; 0; 219; 48; 243; 48; 201; 48; 20; 42; 0; 18; 51; 34; 18; 51; 42; 164; 48; 58; 0;
  11; 73; 164; 48; 58; 0; 71; 58; 31; 43; 58; 71; 11; 183; 48; 39; 60; 0; 48; 60; 175; 48; 48; 0;
  62; 68; 223; 48; 234; 48; 208; 48; 15; 26; 0; 44; 27; 225; 48; 172; 48; 172; 48; 53; 0; 28; 71;
  53; 80; 28; 63; 162; 48; 66; 90; 39; 66; 90; 73; 68; 0; 81; 195; 48; 39; 0; 5; 40; 234; 48; 233;
  48; 212; 48; 23; 0; 40; 214; 48; 21; 38; 0; 21; 236; 48; 224; 48; 178; 48; 58; 65; 22; 0; 65;
  195; 48; 44; 0; 5; 48; 0; 185; 112; 49; 0; 48; 0; 185; 112; 50; 0; 48; 0; 185; 112; 104; 80; 97;
  100; 97; 65; 85; 98; 97; 114; 111; 86; 112; 99; 100; 109; 100; 0; 109; 0; 178; 0; 73; 0; 85; 0;
  115; 94; 16; 98; 45; 102; 140; 84; 39; 89; 99; 107; 14; 102; 187; 108; 42; 104; 15; 95; 26; 79;
  62; 121; 112; 0; 65; 110; 0; 65; 188; 3; 65; 109; 0; 65; 107; 0; 65; 75; 0; 66; 77; 0; 66; 71; 0;
  66; 99; 97; 108; 107; 99; 97; 108; 112; 0; 70; 110; 0; 70; 188; 3; 70; 188; 3; 103; 109; 0; 103;
  107; 0; 103; 72; 0; 122; 107; 72; 122; 77; 72; 122; 71; 72; 122; 84; 72; 122; 188; 3; 19; 33;
  109; 0; 19; 33; 100; 0; 19; 33; 107; 0; 19; 33; 102; 0; 109; 110; 0; 109; 188; 3; 109; 109; 0;
  109; 99; 0; 109; 107; 0; 109; 99; 0; 10; 10; 79; 0; 10; 79; 109; 0; 178; 0; 99; 0; 8; 10; 79; 10;
  10; 80; 0; 10; 80; 109; 0; 179; 0; 107; 0; 109; 0; 179; 0; 109; 0; 21; 34; 115; 0; 109; 0; 21;
  34; 115; 0; 178; 0; 80; 97; 107; 80; 97; 77; 80; 97; 71; 80; 97; 114; 97; 100; 114; 97; 100; 209;
  115; 114; 0; 97; 0; 100; 0; 21; 34; 115; 0; 178; 0; 112; 0; 115; 110; 0; 115; 188; 3; 115; 109;
  0; 115; 112; 0; 86; 110; 0; 86; 188; 3; 86; 109; 0; 86; 107; 0; 86; 77; 0; 86; 112; 0; 87; 110;
  0; 87; 188; 3; 87; 109; 0; 87; 107; 0; 87; 77; 0; 87; 107; 0; 169; 3; 77; 0; 169; 3; 97; 46; 109;
  46; 66; 113; 99; 99; 99; 100; 67; 209; 107; 103; 67; 111; 46; 100; 66; 71; 121; 104; 97; 72; 80;
  105; 110; 75; 75; 75; 77; 107; 116; 108; 109; 108; 110; 108; 111; 103; 108; 120; 109; 98; 109;
  105; 108; 109; 111; 108; 80; 72; 112; 46; 109; 46; 80; 80; 77; 80; 82; 115; 114; 83; 118; 87; 98;
  86; 209; 109; 65; 209; 109; 49; 0; 229; 101; 49; 0; 48; 0; 229; 101; 50; 0; 48; 0; 229; 101; 51;
  0; 48; 0; 229; 101; 103; 97; 108; 74; 4; 76; 4; 67; 70; 81; 38; 1; 83; 1; 39; 167; 55; 171; 107;
  2; 82; 171; 72; 140; 244; 102; 202; 142; 200; 140; 209; 110; 50; 78; 229; 83; 156; 159; 156; 159;
  81; 89; 209; 145; 135; 85; 72; 89; 246; 97; 105; 118; 133; 127; 63; 134; 186; 135; 248; 136; 143;
  144; 2; 106; 27; 109; 217; 112; 222; 115; 61; 132; 106; 145; 241; 153; 130; 78; 117; 83; 4; 107;
  27; 114; 45; 134; 30; 158; 80; 93; 235; 111; 205; 133; 100; 137; 201; 98; 216; 129; 31; 136; 202;
  94; 23; 103; 106; 109; 252; 114; 206; 144; 134; 79; 183; 81; 222; 82; 196; 100; 211; 106; 16;
  114; 231; 118; 1; 128; 6; 134; 92; 134; 239; 141; 50; 151; 111; 155; 250; 157; 140; 120; 127;
  121; 160; 125; 201; 131; 4; 147; 127; 158; 214; 138; 223; 88; 4; 95; 96; 124; 126; 128; 98; 114;
  202; 120; 194; 140; 247; 150; 216; 88; 98; 92; 19; 106; 218; 109; 15; 111; 47; 125; 55; 126; 75;
  150; 210; 82; 139; 128; 220; 81; 204; 81; 28; 122; 190; 125; 241; 131; 117; 150; 128; 139; 207;
  98; 2; 106; 254; 138; 57; 78; 231; 91; 18; 96; 135; 115; 112; 117; 23; 83; 251; 120; 191; 79;
  169; 95; 13; 78; 204; 108; 120; 101; 34; 125; 195; 83; 94; 88; 1; 119; 73; 132; 170; 138; 186;
  107; 176; 143; 136; 108; 254; 98; 229; 130; 160; 99; 101; 117; 174; 78; 105; 81; 201; 81; 129;
  104; 231; 124; 111; 130; 210; 138; 207; 145; 245; 82; 66; 84; 115; 89; 236; 94; 197; 101; 254;
  111; 42; 121; 173; 149; 106; 154; 151; 158; 206; 158; 155; 82; 198; 102; 119; 107; 98; 143; 116;
  94; 144; 97; 0; 98; 154; 100; 35; 111; 73; 113; 137; 116; 202; 121; 244; 125; 111; 128; 38; 143;
  238; 132; 35; 144; 74; 147; 23; 82; 163; 82; 189; 84; 200; 112; 194; 136; 170; 138; 201; 94; 245;
  95; 123; 99; 174; 107; 62; 124; 117; 115; 228; 78; 249; 86; 231; 91; 186; 93; 28; 96; 178; 115;
  105; 116; 154; 127; 70; 128; 52; 146; 246; 150; 72; 151; 24; 152; 139; 79; 174; 121; 180; 145;
  184; 150; 225; 96; 134; 78; 218; 80; 238; 91; 63; 92; 153; 101; 2; 106; 206; 113; 66; 118; 252;
  132; 124; 144; 141; 159; 136; 102; 46; 150; 137; 82; 123; 103; 243; 103; 65; 109; 156; 110; 9;
  116; 89; 117; 107; 120; 16; 125; 94; 152; 109; 81; 46; 98; 120; 150; 43; 80; 25; 93; 234; 109;
  42; 143; 139; 95; 68; 97; 23; 104; 135; 115; 134; 150; 41; 82; 15; 84; 101; 92; 19; 102; 78; 103;
  168; 104; 229; 108; 6; 116; 226; 117; 121; 127; 207; 136; 225; 136; 204; 145; 226; 150; 63; 83;
  186; 110; 29; 84; 208; 113; 152; 116; 250; 133; 163; 150; 87; 156; 159; 158; 151; 103; 203; 109;
  232; 129; 203; 122; 32; 123; 146; 124; 192; 114; 153; 112; 88; 139; 192; 78; 54; 131; 58; 82; 7;
  82; 166; 94; 211; 98; 214; 124; 133; 91; 30; 109; 180; 102; 59; 143; 76; 136; 77; 150; 139; 137;
  211; 94; 64; 81; 192; 85; 0; 0; 0; 0; 90; 88; 0; 0; 116; 102; 0; 0; 0; 0; 222; 81; 42; 115; 202;
  118; 60; 121; 94; 121; 101; 121; 143; 121; 86; 151; 190; 124; 189; 127; 0; 0; 18; 134; 0; 0; 248;
  138; 0; 0; 0; 0; 56; 144; 253; 144; 239; 152; 252; 152; 40; 153; 180; 157; 222; 144; 183; 150;
  174; 79; 231; 80; 77; 81; 201; 82; 228; 82; 81; 83; 157; 85; 6; 86; 104; 86; 64; 88; 168; 88;
  100; 92; 110; 92; 148; 96; 104; 97; 142; 97; 242; 97; 79; 101; 226; 101; 145; 102; 133; 104; 119;
  109; 26; 110; 34; 111; 110; 113; 43; 114; 34; 116; 145; 120; 62; 121; 73; 121; 72; 121; 80; 121;
  86; 121; 93; 121; 141; 121; 142; 121; 64; 122; 129; 122; 192; 123; 244; 125; 9; 126; 65; 126;
  114; 127; 5; 128; 237; 129; 121; 130; 121; 130; 87; 132; 16; 137; 150; 137; 1; 139; 57; 139; 211;
  140; 8; 141; 182; 143; 56; 144; 227; 150; 255; 151; 59; 152; 117; 96; 238; 66; 24; 130; 2; 38;
  78; 181; 81; 104; 81; 128; 79; 69; 81; 128; 81; 199; 82; 250; 82; 157; 85; 85; 85; 153; 85; 226;
  85; 90; 88; 179; 88; 68; 89; 84; 89; 98; 90; 40; 91; 210; 94; 217; 94; 105; 95; 173; 95; 216; 96;
  78; 97; 8; 97; 142; 97; 96; 97; 242; 97; 52; 98; 196; 99; 28; 100; 82; 100; 86; 101; 116; 102;
  23; 103; 27; 103; 86; 103; 121; 107; 186; 107; 65; 109; 219; 110; 203; 110; 34; 111; 30; 112;
  110; 113; 167; 119; 53; 114; 175; 114; 42; 115; 113; 116; 6; 117; 59; 117; 29; 118; 31; 118; 202;
  118; 219; 118; 244; 118; 74; 119; 64; 119; 204; 120; 177; 122; 192; 123; 123; 124; 91; 125; 244;
  125; 62; 127; 5; 128; 82; 131; 239; 131; 121; 135; 65; 137; 134; 137; 150; 137; 191; 138; 248;
  138; 203; 138; 1; 139; 254; 138; 237; 138; 57; 139; 138; 139; 8; 141; 56; 143; 114; 144; 153;
  145; 118; 146; 124; 150; 227; 150; 86; 151; 219; 151; 255; 151; 11; 152; 59; 152; 18; 155; 156;
  159; 74; 40; 68; 40; 213; 51; 157; 59; 24; 64; 57; 64; 73; 82; 208; 92; 211; 126; 67; 159; 142;
  159; 42; 160; 2; 102; 102; 102; 105; 102; 108; 102; 102; 105; 102; 102; 108; 127; 1; 116; 115; 0;
  116; 101; 5; 15; 17; 15; 0; 15; 6; 25; 17; 15; 8; 217; 5; 180; 5; 0; 0; 0; 0; 242; 5; 183; 5;
  208; 5; 18; 0; 3; 4; 11; 12; 13; 24; 26; 233; 5; 193; 5; 233; 5; 194; 5; 73; 251; 193; 5; 73;
  251; 194; 5; 208; 5; 183; 5; 208; 5; 184; 5; 208; 5; 188; 5; 216; 5; 188; 5; 222; 5; 188; 5; 224;
  5; 188; 5; 227; 5; 188; 5; 185; 5; 45; 3; 46; 3; 47; 3; 48; 3; 49; 3; 28; 0; 24; 6; 34; 6; 43; 6;
  208; 5; 220; 5; 113; 6; 0; 0; 10; 10; 10; 10; 13; 13; 13; 13; 15; 15; 15; 15; 9; 9; 9; 9; 14; 14;
  14; 14; 8; 8; 8; 8; 51; 51; 51; 51; 53; 53; 53; 53; 19; 19; 19; 19; 18; 18; 18; 18; 21; 21; 21;
  21; 22; 22; 22; 22; 28; 28; 27; 27; 29; 29; 23; 23; 39; 39; 32; 32; 56; 56; 56; 56; 62; 62; 62;
  62; 66; 66; 66; 66; 64; 64; 64; 64; 73; 73; 74; 74; 74; 74; 79; 79; 80; 80; 80; 80; 77; 77; 77;
  77; 97; 97; 98; 98; 73; 6; 100; 100; 100; 100; 126; 126; 125; 125; 127; 127; 46; 130; 130; 124;
  124; 128; 128; 135; 135; 135; 135; 0; 0; 38; 6; 0; 1; 0; 1; 0; 175; 0; 175; 0; 34; 0; 34; 0; 161;
  0; 161; 0; 160; 0; 160; 0; 162; 0; 162; 0; 170; 0; 170; 0; 170; 0; 35; 0; 35; 0; 35; 204; 6; 0;
  0; 0; 0; 38; 6; 0; 6; 0; 7; 0; 31; 0; 35; 0; 36; 2; 6; 2; 7; 2; 8; 2; 31; 2; 35; 2; 36; 4; 6; 4;
  7; 4; 8; 4; 31; 4; 35; 4; 36; 5; 6; 5; 31; 5; 35; 5; 36; 6; 7; 6; 31; 7; 6; 7; 31; 8; 6; 8; 7; 8;
  31; 13; 6; 13; 7; 13; 8; 13; 31; 15; 7; 15; 31; 16; 6; 16; 7; 16; 8; 16; 31; 17; 7; 17; 31; 18;
  31; 19; 6; 19; 31; 20; 6; 20; 31; 27; 6; 27; 7; 27; 8; 27; 31; 27; 35; 27; 36; 28; 7; 28; 31; 28;
  35; 28; 36; 29; 1; 29; 6; 29; 7; 29; 8; 29; 30; 29; 31; 29; 35; 29; 36; 30; 6; 30; 7; 30; 8; 30;
  31; 30; 35; 30; 36; 31; 6; 31; 7; 31; 8; 31; 31; 31; 35; 31; 36; 32; 6; 32; 7; 32; 8; 32; 31; 32;
  35; 32; 36; 33; 6; 33; 31; 33; 35; 33; 36; 36; 6; 36; 7; 36; 8; 36; 31; 36; 35; 36; 36; 10; 74;
  11; 74; 35; 74; 32; 0; 76; 6; 81; 6; 81; 6; 255; 0; 31; 38; 6; 0; 11; 0; 12; 0; 31; 0; 32; 0; 35;
  0; 36; 2; 11; 2; 12; 2; 31; 2; 32; 2; 35; 2; 36; 4; 11; 4; 12; 4; 31; 38; 6; 4; 32; 4; 35; 4; 36;
  5; 11; 5; 12; 5; 31; 5; 32; 5; 35; 5; 36; 27; 35; 27; 36; 28; 35; 28; 36; 29; 1; 29; 30; 29; 31;
  29; 35; 29; 36; 30; 31; 30; 35; 30; 36; 31; 1; 31; 31; 32; 11; 32; 12; 32; 31; 32; 32; 32; 35;
  32; 36; 35; 74; 36; 11; 36; 12; 36; 31; 36; 32; 36; 35; 36; 36; 0; 6; 0; 7; 0; 8; 0; 31; 0; 33;
  2; 6; 2; 7; 2; 8; 2; 31; 2; 33; 4; 6; 4; 7; 4; 8; 4; 31; 4; 33; 5; 31; 6; 7; 6; 31; 7; 6; 7; 31;
  8; 6; 8; 31; 13; 6; 13; 7; 13; 8; 13; 31; 15; 7; 15; 8; 15; 31; 16; 6; 16; 7; 16; 8; 16; 31; 17;
  7; 18; 31; 19; 6; 19; 31; 20; 6; 20; 31; 27; 6; 27; 7; 27; 8; 27; 31; 28; 7; 28; 31; 29; 6; 29;
  7; 29; 8; 29; 30; 29; 31; 30; 6; 30; 7; 30; 8; 30; 31; 30; 33; 31; 6; 31; 7; 31; 8; 31; 31; 32;
  6; 32; 7; 32; 8; 32; 31; 32; 33; 33; 6; 33; 31; 33; 74; 36; 6; 36; 7; 36; 8; 36; 31; 36; 33; 0;
  31; 0; 33; 2; 31; 2; 33; 4; 31; 4; 33; 5; 31; 5; 33; 13; 31; 13; 33; 14; 31; 14; 33; 29; 30; 29;
  31; 30; 31; 32; 31; 32; 33; 36; 31; 36; 33; 64; 6; 78; 6; 81; 6; 39; 6; 16; 34; 16; 35; 18; 34;
  18; 35; 19; 34; 19; 35; 12; 34; 12; 35; 13; 34; 13; 35; 6; 34; 6; 35; 5; 34; 5; 35; 7; 34; 7; 35;
  14; 34; 14; 35; 15; 34; 15; 35; 13; 5; 13; 6; 13; 7; 13; 30; 13; 10; 12; 10; 14; 10; 15; 10; 16;
  34; 16; 35; 18; 34; 18; 35; 19; 34; 19; 35; 12; 34; 12; 35; 13; 34; 13; 35; 6; 34; 6; 35; 5; 34;
  5; 35; 7; 34; 7; 35; 14; 34; 14; 35; 15; 34; 15; 35; 13; 5; 13; 6; 13; 7; 13; 30; 13; 10; 12; 10;
  14; 10; 15; 10; 13; 5; 13; 6; 13; 7; 13; 30; 12; 32; 13; 32; 16; 30; 12; 5; 12; 6; 12; 7; 13; 5;
  13; 6; 13; 7; 16; 30; 17; 30; 0; 36; 0; 36; 42; 6; 0; 2; 27; 0; 3; 2; 0; 3; 2; 0; 3; 27; 0; 4;
  27; 0; 27; 2; 0; 27; 3; 0; 27; 4; 2; 27; 3; 2; 27; 3; 3; 27; 32; 3; 27; 31; 9; 3; 2; 9; 2; 3; 9;
  2; 31; 9; 27; 3; 9; 27; 3; 9; 27; 2; 9; 27; 27; 9; 27; 27; 11; 3; 3; 11; 3; 3; 11; 27; 27; 10; 3;
  27; 10; 3; 27; 10; 2; 32; 10; 27; 4; 10; 27; 4; 10; 27; 27; 10; 27; 27; 12; 3; 31; 12; 4; 27; 12;
  4; 27; 13; 27; 3; 13; 27; 3; 13; 27; 27; 13; 27; 32; 15; 2; 27; 15; 27; 27; 15; 27; 27; 15; 27;
  31; 16; 27; 27; 16; 27; 32; 16; 27; 31; 23; 4; 27; 23; 4; 27; 24; 27; 3; 24; 27; 27; 26; 3; 27;
  26; 3; 32; 26; 3; 31; 26; 2; 2; 26; 2; 2; 26; 4; 27; 26; 4; 27; 26; 27; 3; 26; 27; 3; 27; 3; 2;
  27; 3; 27; 27; 3; 32; 27; 2; 3; 27; 2; 27; 27; 4; 2; 27; 4; 27; 40; 6; 29; 4; 6; 31; 29; 4; 31;
  29; 29; 30; 5; 29; 30; 5; 33; 30; 4; 29; 30; 4; 29; 30; 4; 33; 30; 29; 34; 30; 29; 33; 34; 29;
  29; 34; 29; 29; 0; 6; 34; 2; 4; 34; 2; 4; 33; 2; 6; 34; 2; 6; 33; 2; 29; 34; 2; 29; 33; 4; 29;
  34; 4; 5; 33; 4; 29; 33; 11; 6; 33; 13; 5; 34; 12; 5; 34; 14; 5; 34; 28; 4; 34; 28; 29; 34; 34;
  5; 34; 34; 4; 34; 34; 29; 34; 29; 29; 34; 26; 29; 34; 30; 5; 34; 26; 29; 5; 28; 5; 29; 17; 29;
  34; 27; 29; 34; 30; 4; 5; 29; 6; 34; 28; 4; 29; 27; 29; 29; 28; 4; 29; 30; 4; 5; 4; 5; 34; 5; 4;
  34; 29; 4; 34; 25; 29; 34; 0; 5; 34; 27; 29; 29; 17; 4; 29; 13; 29; 29; 11; 6; 34; 30; 4; 34; 53;
  6; 0; 15; 157; 13; 15; 157; 39; 6; 0; 29; 29; 32; 0; 28; 1; 10; 30; 6; 30; 8; 14; 29; 18; 30; 10;
  12; 33; 29; 18; 29; 35; 32; 33; 12; 29; 30; 53; 6; 0; 15; 20; 39; 6; 14; 29; 34; 255; 0; 29; 29;
  32; 255; 18; 29; 35; 32; 255; 33; 12; 29; 30; 39; 6; 5; 29; 255; 5; 29; 0; 29; 32; 39; 6; 10;
  165; 0; 29; 44; 0; 1; 48; 2; 48; 58; 0; 59; 0; 33; 0; 63; 0; 22; 48; 23; 48; 38; 32; 19; 32; 18;
  1; 0; 95; 95; 40; 41; 123; 125; 8; 48; 12; 13; 8; 9; 2; 3; 0; 1; 4; 5; 6; 7; 91; 0; 93; 0; 62;
  32; 62; 32; 62; 32; 62; 32; 95; 0; 95; 0; 95; 0; 44; 0; 1; 48; 46; 0; 0; 0; 59; 0; 58; 0; 63; 0;
  33; 0; 20; 32; 40; 0; 41; 0; 123; 0; 125; 0; 20; 48; 21; 48; 35; 38; 42; 43; 45; 60; 62; 61; 0;
  92; 36; 37; 64; 64; 6; 255; 11; 0; 11; 255; 12; 32; 0; 77; 6; 64; 6; 255; 14; 0; 14; 255; 15; 0;
  15; 255; 16; 0; 16; 255; 17; 0; 17; 255; 18; 0; 18; 33; 6; 0; 1; 1; 2; 2; 3; 3; 4; 4; 5; 5; 5; 5;
  6; 6; 7; 7; 7; 7; 8; 8; 9; 9; 9; 9; 10; 10; 10; 10; 11; 11; 11; 11; 12; 12; 12; 12; 13; 13; 13;
  13; 14; 14; 15; 15; 16; 16; 17; 17; 18; 18; 18; 18; 19; 19; 19; 19; 20; 20; 20; 20; 21; 21; 21;
  21; 22; 22; 22; 22; 23; 23; 23; 23; 24; 24; 24; 24; 25; 25; 25; 25; 32; 32; 32; 32; 33; 33; 33;
  33; 34; 34; 34; 34; 35; 35; 35; 35; 36; 36; 36; 36; 37; 37; 37; 37; 38; 38; 38; 38; 39; 39; 40;
  40; 41; 41; 41; 41; 34; 6; 34; 0; 34; 0; 34; 1; 34; 1; 34; 3; 34; 3; 34; 5; 34; 5; 33; 0; 133;
  41; 1; 48; 1; 11; 12; 0; 250; 241; 160; 162; 164; 166; 168; 226; 228; 230; 194; 251; 161; 163;
  165; 167; 169; 170; 172; 174; 176; 178; 180; 182; 184; 186; 188; 190; 192; 195; 197; 199; 201;
  202; 203; 204; 205; 206; 209; 212; 215; 218; 221; 222; 223; 224; 225; 227; 229; 231; 232; 233;
  234; 235; 236; 238; 242; 152; 153; 49; 49; 79; 49; 85; 49; 91; 49; 97; 49; 162; 0; 163; 0; 172;
  0; 175; 0; 166; 0; 165; 0; 169; 32; 0; 0; 2; 37; 144; 33; 145; 33; 146; 33; 147; 33; 160; 37;
  203; 37; 208; 2; 209; 2; 230; 0; 153; 2; 83; 2; 0; 0; 163; 2; 102; 171; 165; 2; 164; 2; 86; 2;
  87; 2; 145; 29; 88; 2; 94; 2; 169; 2; 100; 2; 98; 2; 96; 2; 155; 2; 39; 1; 156; 2; 103; 2; 132;
  2; 170; 2; 171; 2; 108; 2; 4; 223; 142; 167; 110; 2; 5; 223; 142; 2; 6; 223; 248; 0; 118; 2; 119;
  2; 113; 0; 122; 2; 8; 223; 125; 2; 126; 2; 128; 2; 168; 2; 166; 2; 103; 171; 167; 2; 136; 2; 113;
  44; 0; 0; 143; 2; 161; 2; 162; 2; 152; 2; 192; 1; 193; 1; 194; 1; 10; 223; 30; 223; 65; 4; 64; 0;
  0; 0; 0; 20; 153; 16; 186; 16; 0; 0; 0; 0; 155; 16; 186; 16; 5; 5; 165; 16; 186; 16; 5; 49; 17;
  39; 17; 50; 17; 39; 17; 85; 71; 19; 62; 19; 71; 19; 87; 19; 85; 185; 20; 186; 20; 185; 20; 176;
  20; 0; 0; 0; 0; 185; 20; 189; 20; 85; 80; 184; 21; 175; 21; 185; 21; 175; 21; 85; 53; 25; 48; 25;
  5; 87; 209; 101; 209; 88; 209; 101; 209; 95; 209; 110; 209; 95; 209; 111; 209; 95; 209; 112; 209;
  95; 209; 113; 209; 95; 209; 114; 209; 85; 85; 85; 5; 185; 209; 101; 209; 186; 209; 101; 209; 187;
  209; 110; 209; 188; 209; 110; 209; 187; 209; 111; 209; 188; 209; 111; 209; 85; 85; 85; 65; 0; 97;
  0; 65; 0; 97; 0; 105; 0; 65; 0; 97; 0; 65; 0; 67; 68; 0; 0; 71; 0; 0; 74; 75; 0; 0; 78; 79; 80;
  81; 0; 83; 84; 85; 86; 87; 88; 89; 90; 97; 98; 99; 100; 0; 102; 104; 0; 112; 0; 65; 0; 97; 0; 65;
  66; 0; 68; 69; 70; 71; 74; 0; 83; 0; 97; 0; 65; 66; 0; 68; 69; 70; 71; 0; 73; 74; 75; 76; 77; 0;
  79; 83; 0; 97; 0; 65; 0; 97; 0; 65; 0; 97; 0; 65; 0; 97; 0; 65; 0; 97; 0; 65; 0; 97; 0; 65; 0;
  97; 0; 49; 1; 55; 2; 145; 3; 163; 3; 177; 3; 209; 3; 36; 0; 31; 4; 32; 5; 145; 3; 163; 3; 177; 3;
  209; 3; 36; 0; 31; 4; 32; 5; 145; 3; 163; 3; 177; 3; 209; 3; 36; 0; 31; 4; 32; 5; 145; 3; 163; 3;
  177; 3; 209; 3; 36; 0; 31; 4; 32; 5; 145; 3; 163; 3; 177; 3; 209; 3; 36; 0; 31; 4; 32; 5; 11; 12;
  48; 0; 48; 0; 48; 0; 48; 0; 48; 0; 48; 4; 58; 4; 62; 4; 75; 4; 77; 4; 78; 4; 137; 166; 48; 4;
  169; 38; 40; 185; 127; 159; 0; 1; 2; 3; 4; 5; 6; 7; 8; 10; 11; 14; 15; 17; 19; 20; 21; 22; 23;
  24; 26; 27; 97; 38; 37; 47; 123; 81; 166; 177; 4; 39; 6; 0; 1; 5; 8; 42; 6; 30; 8; 3; 13; 32; 25;
  26; 27; 28; 9; 15; 23; 11; 24; 7; 10; 0; 1; 4; 6; 12; 14; 16; 68; 144; 119; 69; 40; 6; 44; 6; 0;
  0; 71; 6; 51; 6; 23; 16; 17; 18; 19; 0; 6; 14; 2; 15; 52; 6; 42; 6; 43; 6; 46; 6; 0; 0; 54; 6; 0;
  0; 58; 6; 45; 6; 0; 0; 74; 6; 0; 0; 68; 6; 0; 0; 70; 6; 51; 6; 57; 6; 0; 0; 53; 6; 66; 6; 0; 0;
  52; 6; 0; 0; 0; 0; 46; 6; 0; 0; 54; 6; 0; 0; 58; 6; 0; 0; 186; 6; 0; 0; 111; 6; 0; 0; 40; 6; 44;
  6; 0; 0; 71; 6; 0; 0; 0; 0; 45; 6; 55; 6; 74; 6; 67; 6; 0; 0; 69; 6; 70; 6; 51; 6; 57; 6; 65; 6;
  53; 6; 66; 6; 0; 0; 52; 6; 42; 6; 43; 6; 46; 6; 0; 0; 54; 6; 56; 6; 58; 6; 110; 6; 0; 0; 161; 6;
  39; 6; 0; 1; 5; 8; 32; 33; 11; 6; 16; 35; 42; 6; 26; 27; 28; 9; 15; 23; 11; 24; 7; 10; 0; 1; 4;
  6; 12; 14; 16; 40; 6; 44; 6; 47; 6; 0; 0; 72; 6; 50; 6; 45; 6; 55; 6; 74; 6; 42; 6; 26; 27; 28;
  9; 15; 23; 11; 24; 7; 10; 0; 1; 4; 6; 12; 14; 16; 48; 46; 48; 0; 44; 0; 40; 0; 65; 0; 41; 0; 20;
  48; 83; 0; 21; 48; 67; 82; 67; 68; 87; 90; 65; 0; 72; 86; 77; 86; 83; 68; 83; 83; 80; 80; 86; 87;
  67; 77; 67; 77; 68; 77; 82; 68; 74; 75; 48; 48; 0; 104; 104; 75; 98; 87; 91; 204; 83; 199; 48;
  140; 78; 26; 89; 227; 137; 41; 89; 164; 78; 32; 102; 33; 113; 153; 101; 77; 82; 140; 95; 141; 81;
  176; 101; 29; 82; 66; 125; 31; 117; 169; 140; 240; 88; 57; 84; 20; 111; 149; 98; 85; 99; 0; 78;
  9; 78; 74; 144; 230; 93; 45; 78; 243; 83; 7; 99; 112; 141; 83; 98; 129; 121; 122; 122; 8; 84;
  128; 110; 9; 103; 8; 103; 51; 117; 114; 82; 182; 85; 77; 145; 20; 48; 21; 48; 44; 103; 9; 78;
  140; 78; 137; 91; 185; 112; 83; 98; 215; 118; 221; 82; 87; 101; 151; 95; 239; 83; 48; 0; 56; 78;
  5; 0; 9; 34; 1; 96; 79; 174; 79; 187; 79; 2; 80; 122; 80; 153; 80; 231; 80; 207; 80; 158; 52; 58;
  6; 77; 81; 84; 81; 100; 81; 119; 81; 28; 5; 185; 52; 103; 81; 141; 81; 75; 5; 151; 81; 164; 81;
  204; 78; 172; 81; 181; 81; 223; 145; 245; 81; 3; 82; 223; 52; 59; 82; 70; 82; 114; 82; 119; 82;
  21; 53; 2; 0; 32; 128; 128; 0; 8; 0; 0; 199; 82; 0; 2; 29; 51; 62; 63; 80; 130; 138; 147; 172;
  182; 184; 184; 184; 44; 10; 112; 112; 202; 83; 223; 83; 99; 11; 235; 83; 241; 83; 6; 84; 158; 84;
  56; 84; 72; 84; 104; 84; 162; 84; 246; 84; 16; 85; 83; 85; 99; 85; 132; 85; 132; 85; 153; 85;
  171; 85; 179; 85; 194; 85; 22; 87; 6; 86; 23; 87; 81; 86; 116; 86; 7; 82; 238; 88; 206; 87; 244;
  87; 13; 88; 139; 87; 50; 88; 49; 88; 172; 88; 228; 20; 242; 88; 247; 88; 6; 89; 26; 89; 34; 89;
  98; 89; 168; 22; 234; 22; 236; 89; 27; 90; 39; 90; 216; 89; 102; 90; 238; 54; 252; 54; 8; 91; 62;
  91; 62; 91; 200; 25; 195; 91; 216; 91; 231; 91; 243; 91; 24; 27; 255; 91; 6; 92; 83; 95; 34; 92;
  129; 55; 96; 92; 110; 92; 192; 92; 141; 92; 228; 29; 67; 93; 230; 29; 110; 93; 107; 93; 124; 93;
  225; 93; 226; 93; 47; 56; 253; 93; 40; 94; 61; 94; 105; 94; 98; 56; 131; 33; 124; 56; 176; 94;
  179; 94; 182; 94; 202; 94; 146; 163; 254; 94; 49; 35; 49; 35; 1; 130; 34; 95; 34; 95; 199; 56;
  184; 50; 218; 97; 98; 95; 107; 95; 227; 56; 154; 95; 205; 95; 215; 95; 249; 95; 129; 96; 58; 57;
  28; 57; 148; 96; 212; 38; 199; 96; 2; 2; 0; 0; 0; 0; 0; 0; 0; 8; 0; 10; 0; 0; 2; 8; 0; 128; 8; 0;
  0; 8; 128; 40; 128; 2; 0; 0; 2; 72; 97; 0; 4; 6; 4; 50; 70; 106; 92; 103; 150; 170; 174; 200;
  211; 93; 98; 0; 84; 119; 243; 12; 43; 61; 99; 252; 98; 104; 99; 131; 99; 228; 99; 241; 43; 34;
  100; 197; 99; 169; 99; 46; 58; 105; 100; 126; 100; 157; 100; 119; 100; 108; 58; 79; 101; 108;
  101; 10; 48; 227; 101; 248; 102; 73; 102; 25; 59; 145; 102; 8; 59; 228; 58; 146; 81; 149; 81; 0;
  103; 156; 102; 173; 128; 217; 67; 23; 103; 27; 103; 33; 103; 94; 103; 83; 103; 195; 51; 73; 59;
  250; 103; 133; 103; 82; 104; 133; 104; 109; 52; 142; 104; 31; 104; 20; 105; 157; 59; 66; 105;
  163; 105; 234; 105; 168; 106; 163; 54; 219; 106; 24; 60; 33; 107; 167; 56; 84; 107; 78; 60; 114;
  107; 159; 107; 186; 107; 187; 107; 141; 58; 11; 29; 250; 58; 78; 108; 188; 60; 191; 108; 205;
  108; 103; 108; 22; 109; 62; 109; 119; 109; 65; 109; 105; 109; 120; 109; 133; 109; 30; 61; 52;
  109; 47; 110; 110; 110; 51; 61; 203; 110; 199; 110; 209; 62; 249; 109; 110; 111; 94; 63; 142; 63;
  198; 111; 57; 112; 30; 112; 27; 112; 150; 61; 74; 112; 125; 112; 119; 112; 173; 112; 37; 5; 69;
  113; 99; 66; 156; 113; 171; 67; 40; 114; 53; 114; 80; 114; 8; 70; 128; 114; 149; 114; 53; 71; 2;
  32; 0; 0; 32; 0; 0; 0; 0; 8; 128; 0; 0; 2; 2; 128; 138; 0; 0; 32; 0; 8; 10; 0; 128; 136; 128; 32;
  20; 72; 122; 115; 139; 115; 172; 62; 165; 115; 184; 62; 184; 62; 71; 116; 92; 116; 113; 116; 133;
  116; 202; 116; 27; 63; 36; 117; 54; 76; 62; 117; 146; 76; 112; 117; 159; 33; 16; 118; 161; 79;
  184; 79; 68; 80; 252; 63; 8; 64; 244; 118; 243; 80; 242; 80; 25; 81; 51; 81; 30; 119; 31; 119;
  31; 119; 74; 119; 57; 64; 139; 119; 70; 64; 150; 64; 29; 84; 78; 120; 140; 120; 204; 120; 227;
  64; 38; 86; 86; 121; 154; 86; 197; 86; 143; 121; 235; 121; 47; 65; 64; 122; 74; 122; 79; 122;
  124; 89; 167; 90; 167; 90; 238; 122; 2; 66; 171; 91; 198; 123; 201; 123; 39; 66; 128; 92; 210;
  124; 160; 66; 232; 124; 227; 124; 0; 125; 134; 95; 99; 125; 1; 67; 199; 125; 2; 126; 69; 126; 52;
  67; 40; 98; 71; 98; 89; 67; 217; 98; 122; 127; 62; 99; 149; 127; 250; 127; 5; 128; 218; 100; 35;
  101; 96; 128; 168; 101; 112; 128; 95; 51; 213; 67; 178; 128; 3; 129; 11; 68; 62; 129; 181; 90;
  167; 103; 181; 103; 147; 51; 156; 51; 1; 130; 4; 130; 158; 143; 107; 68; 145; 130; 139; 130; 157;
  130; 179; 82; 177; 130; 179; 130; 189; 130; 230; 130; 60; 107; 229; 130; 29; 131; 99; 131; 173;
  131; 35; 131; 189; 131; 231; 131; 87; 132; 83; 131; 202; 131; 204; 131; 220; 131; 54; 108; 107;
  109; 2; 0; 0; 32; 34; 42; 160; 10; 0; 32; 128; 40; 0; 168; 32; 32; 0; 2; 128; 34; 2; 138; 8; 0;
  170; 0; 0; 0; 2; 0; 0; 40; 213; 108; 43; 69; 241; 132; 243; 132; 22; 133; 202; 115; 100; 133; 44;
  111; 93; 69; 97; 69; 177; 111; 210; 112; 107; 69; 80; 134; 92; 134; 103; 134; 105; 134; 169; 134;
  136; 134; 14; 135; 226; 134; 121; 135; 40; 135; 107; 135; 134; 135; 215; 69; 225; 135; 1; 136;
  249; 69; 96; 136; 99; 136; 103; 118; 215; 136; 222; 136; 53; 70; 250; 136; 187; 52; 174; 120;
  102; 121; 190; 70; 199; 70; 160; 138; 237; 138; 138; 139; 85; 140; 168; 124; 171; 140; 193; 140;
  27; 141; 119; 141; 47; 127; 4; 8; 203; 141; 188; 141; 240; 141; 222; 8; 212; 142; 56; 143; 210;
  133; 237; 133; 148; 144; 241; 144; 17; 145; 46; 135; 27; 145; 56; 146; 215; 146; 216; 146; 124;
  146; 249; 147; 21; 148; 250; 139; 139; 149; 149; 73; 183; 149; 119; 141; 230; 73; 195; 150; 178;
  93; 35; 151; 69; 145; 26; 146; 110; 74; 118; 74; 224; 151; 10; 148; 178; 74; 150; 148; 11; 152;
  11; 152; 41; 152; 182; 149; 226; 152; 51; 75; 41; 153; 167; 153; 194; 153; 254; 153; 206; 75; 48;
  155; 18; 155; 64; 156; 253; 156; 206; 76; 237; 76; 103; 157; 206; 160; 248; 76; 5; 161; 14; 162;
  145; 162; 187; 158; 86; 77; 249; 158; 254; 158; 5; 159; 15; 159; 22; 159; 59; 159; 0; 166; 2;
  136; 160; 0; 0; 0; 0; 128; 0; 40; 0; 8; 160; 128; 160; 128; 0; 128; 128; 0; 10; 136; 128; 0; 128;
  0; 32; 42; 0; 128
].

Definition unicode_comp_table : list Z := [
  0x4a01; 0x49c0; 0x4a02; 0x280; 0x281; 0x282; 0x283; 0x2c0; 0x2c2; 0xa00; 0x284; 0x2442; 0x285;
  0x7c0; 0x980; 0x982; 0x2440; 0x2280; 0x2c4; 0x2282; 0x2284; 0x2286; 0x2c6; 0x2c8; 0x2ca; 0x2cc;
  0x287; 0x228a; 0x2ce; 0x228c; 0x2290; 0x2292; 0x228e; 0x288; 0x289; 0x28a; 0x2482; 0x300; 0x302;
  0x304; 0x28b; 0x2480; 0x308; 0x984; 0x986; 0x2458; 0xa02; 0x306; 0x2298; 0x229a; 0x229e; 0x900;
  0x30a; 0x22a0; 0x30c; 0x30e; 0x840; 0x310; 0x312; 0x22a2; 0x22a6; 0x9c0; 0x22a4; 0x22a8; 0x22aa;
  0x28c; 0x28d; 0x28e; 0x340; 0x342; 0x344; 0x380; 0x28f; 0x248e; 0x7c2; 0x988; 0x98a; 0x2490;
  0x346; 0x22ac; 0x400; 0x22b0; 0x842; 0x22b2; 0x402; 0x22b4; 0x440; 0x444; 0x22b6; 0x442; 0x22c2;
  0x22c0; 0x22c4; 0x22c6; 0x22c8; 0x940; 0x4c0; 0x291; 0x22ca; 0x4c4; 0x22cc; 0x4c2; 0x22d0;
  0x22ce; 0x292; 0x293; 0x294; 0x295; 0x540; 0x542; 0xa08; 0x296; 0x2494; 0x544; 0x7c4; 0x98c;
  0x98e; 0x6c0; 0x2492; 0x844; 0x2308; 0x230a; 0x580; 0x230c; 0x584; 0x990; 0x992; 0x230e; 0x582;
  0x2312; 0x586; 0x588; 0x2314; 0x58c; 0x2316; 0x998; 0x58a; 0x231e; 0x590; 0x2320; 0x99a; 0x58e;
  0x2324; 0x2322; 0x299; 0x29a; 0x29b; 0x5c0; 0x5c2; 0x5c4; 0x29c; 0x24ac; 0x5c6; 0x5c8; 0x7c6;
  0x994; 0x996; 0x700; 0x24aa; 0x2326; 0x5ca; 0x232a; 0x2328; 0x2340; 0x2342; 0x2344; 0x2346;
  0x5cc; 0x234a; 0x2348; 0x234c; 0x234e; 0x2350; 0x24b8; 0x29d; 0x5ce; 0x24be; 0xa0c; 0x2352;
  0x600; 0x24bc; 0x24ba; 0x640; 0x2354; 0x642; 0x644; 0x2356; 0x2358; 0x2a0; 0x2a1; 0x2a2; 0x2a3;
  0x2c1; 0x2c3; 0xa01; 0x2a4; 0x2443; 0x2a5; 0x7c1; 0x981; 0x983; 0x2441; 0x2281; 0x2c5; 0x2283;
  0x2285; 0x2287; 0x2c7; 0x2c9; 0x2cb; 0x2cd; 0x2a7; 0x228b; 0x2cf; 0x228d; 0x2291; 0x2293; 0x228f;
  0x2a8; 0x2a9; 0x2aa; 0x2483; 0x301; 0x303; 0x305; 0x2ab; 0x2481; 0x309; 0x985; 0x987; 0x2459;
  0xa03; 0x307; 0x2299; 0x229b; 0x229f; 0x901; 0x30b; 0x22a1; 0x30d; 0x30f; 0x841; 0x311; 0x313;
  0x22a3; 0x22a7; 0x9c1; 0x22a5; 0x22a9; 0x22ab; 0x2380; 0x2ac; 0x2ad; 0x2ae; 0x341; 0x343; 0x345;
  0x2af; 0x248f; 0x7c3; 0x989; 0x98b; 0x2491; 0x347; 0x22ad; 0x401; 0x884; 0x22b1; 0x843; 0x22b3;
  0x403; 0x22b5; 0x441; 0x445; 0x22b7; 0x443; 0x22c3; 0x22c1; 0x22c5; 0x22c7; 0x22c9; 0x941; 0x4c1;
  0x2b1; 0x22cb; 0x4c5; 0x22cd; 0x4c3; 0x22d1; 0x22cf; 0x2b2; 0x2b3; 0x2b4; 0x2b5; 0x541; 0x543;
  0xa09; 0x2b6; 0x2495; 0x545; 0x7c5; 0x98d; 0x98f; 0x6c1; 0x2493; 0x845; 0x2309; 0x230b; 0x581;
  0x230d; 0x585; 0x991; 0x993; 0x230f; 0x583; 0x2313; 0x587; 0x589; 0x2315; 0x58d; 0x2317; 0x999;
  0x58b; 0x231f; 0x2381; 0x591; 0x2321; 0x99b; 0x58f; 0x2325; 0x2323; 0x2b9; 0x2ba; 0x2bb; 0x5c1;
  0x5c3; 0x5c5; 0x2bc; 0x24ad; 0x5c7; 0x5c9; 0x7c7; 0x995; 0x997; 0x701; 0x24ab; 0x2327; 0x5cb;
  0x232b; 0x2329; 0x2341; 0x2343; 0x2345; 0x2347; 0x5cd; 0x234b; 0x2349; 0x2382; 0x234d; 0x234f;
  0x2351; 0x24b9; 0x2bd; 0x5cf; 0x24bf; 0xa0d; 0x2353; 0x2bf; 0x24bd; 0x2383; 0x24bb; 0x641;
  0x2355; 0x643; 0x645; 0x2357; 0x2359; 0x3101; 0xc80; 0x2e00; 0x2446; 0x2444; 0x244a; 0x2448;
  0x800; 0x942; 0x944; 0x804; 0x2288; 0x2486; 0x2484; 0x248a; 0x2488; 0x22ae; 0x2498; 0x2496;
  0x249c; 0x249a; 0x2300; 0xa06; 0x2302; 0xa04; 0x946; 0x7ce; 0x7ca; 0x7c8; 0x7cc; 0x2447; 0x2445;
  0x244b; 0x2449; 0x801; 0x943; 0x945; 0x805; 0x2289; 0x2487; 0x2485; 0x248b; 0x2489; 0x22af;
  0x2499; 0x2497; 0x249d; 0x249b; 0x2301; 0xa07; 0x2303; 0xa05; 0x947; 0x7cf; 0x7cb; 0x7c9; 0x7cd;
  0x2450; 0x244e; 0x2454; 0x2452; 0x2451; 0x244f; 0x2455; 0x2453; 0x2294; 0x2296; 0x2295; 0x2297;
  0x2304; 0x2306; 0x2305; 0x2307; 0x2318; 0x2319; 0x231a; 0x231b; 0x232c; 0x232d; 0x232e; 0x232f;
  0x2400; 0x24a2; 0x24a0; 0x24a6; 0x24a4; 0x24a8; 0x24a3; 0x24a1; 0x24a7; 0x24a5; 0x24a9; 0x24b0;
  0x24ae; 0x24b4; 0x24b2; 0x24b6; 0x24b1; 0x24af; 0x24b5; 0x24b3; 0x24b7; 0x882; 0x880; 0x881;
  0x802; 0x803; 0x229c; 0x229d; 0xa0a; 0xa0b; 0x883; 0xb40; 0x2c8a; 0xc81; 0x2c89; 0x2c88; 0x2540;
  0x2541; 0x2d00; 0x2e07; 0xd00; 0x2640; 0x2641; 0x2e80; 0xd01; 0x26c8; 0x26c9; 0x2f00; 0x2f84;
  0xd02; 0x2f83; 0x2f82; 0xd40; 0x26d8; 0x26d9; 0x3186; 0xd04; 0x2740; 0x2741; 0x3100; 0x3086;
  0xd06; 0x3085; 0x3084; 0xd41; 0x2840; 0x3200; 0xd07; 0x284f; 0x2850; 0x3280; 0x2c84; 0x2e03;
  0x2857; 0xd42; 0x2c81; 0x2c80; 0x24c0; 0x24c1; 0x2c86; 0x2c83; 0x28c0; 0xd43; 0x25c0; 0x25c1;
  0x2940; 0xd44; 0x26c0; 0x26c1; 0x2e05; 0x2e02; 0x29c0; 0xd45; 0x2f05; 0x2f04; 0xd80; 0x26d0;
  0x26d1; 0x2f80; 0x2a40; 0xd82; 0x26e0; 0x26e1; 0x3080; 0x3081; 0x2ac0; 0xd83; 0x3004; 0x3003;
  0xd81; 0x27c0; 0x27c1; 0x3082; 0x2b40; 0xd84; 0x2847; 0x2848; 0x3184; 0x3181; 0x2f06; 0xd08;
  0x2f81; 0x3005; 0xd46; 0x3083; 0x3182; 0xe00; 0xe01; 0xf40; 0x1180; 0x1182; 0xf03; 0xf00; 0x11c0;
  0xf01; 0x1140; 0x1202; 0x1204; 0xf81; 0x1240; 0xfc0; 0x1242; 0xf80; 0x1244; 0x1284; 0xf82;
  0x1286; 0x1288; 0x128a; 0x12c0; 0x1282; 0x1181; 0x1183; 0x1043; 0x1040; 0x11c1; 0x1041; 0x1141;
  0x1203; 0x1205; 0x10c1; 0x1241; 0x1000; 0x1243; 0x10c0; 0x1245; 0x1285; 0x10c2; 0x1287; 0x1289;
  0x128b; 0x12c1; 0x1283; 0x1080; 0x1100; 0x1101; 0x1200; 0x1201; 0x1280; 0x1281; 0x1340; 0x1341;
  0x1343; 0x1342; 0x1344; 0x13c2; 0x1400; 0x13c0; 0x1440; 0x1480; 0x14c0; 0x1540; 0x1541; 0x1740;
  0x1700; 0x1741; 0x17c0; 0x1800; 0x1802; 0x1801; 0x1840; 0x1880; 0x1900; 0x18c0; 0x18c1; 0x1901;
  0x1940; 0x1942; 0x1941; 0x1980; 0x19c0; 0x19c2; 0x19c1; 0x1c80; 0x1cc0; 0x1dc0; 0x1f80; 0x2000;
  0x2002; 0x2004; 0x2006; 0x2008; 0x2040; 0x2080; 0x2082; 0x20c0; 0x20c1; 0x2100; 0x22b8; 0x22b9;
  0x2310; 0x2311; 0x231c; 0x231d; 0x244c; 0x2456; 0x244d; 0x2457; 0x248c; 0x248d; 0x249e; 0x249f;
  0x2500; 0x2502; 0x2504; 0x2bc0; 0x2501; 0x2503; 0x2505; 0x2bc1; 0x2bc2; 0x2bc3; 0x2bc4; 0x2bc5;
  0x2bc6; 0x2bc7; 0x2580; 0x2582; 0x2584; 0x2bc8; 0x2581; 0x2583; 0x2585; 0x2bc9; 0x2bca; 0x2bcb;
  0x2bcc; 0x2bcd; 0x2bce; 0x2bcf; 0x2600; 0x2602; 0x2601; 0x2603; 0x2680; 0x2682; 0x2681; 0x2683;
  0x26c2; 0x26c4; 0x26c6; 0x2c00; 0x26c3; 0x26c5; 0x26c7; 0x2c01; 0x2c02; 0x2c03; 0x2c04; 0x2c05;
  0x2c06; 0x2c07; 0x26ca; 0x26cc; 0x26ce; 0x2c08; 0x26cb; 0x26cd; 0x26cf; 0x2c09; 0x2c0a; 0x2c0b;
  0x2c0c; 0x2c0d; 0x2c0e; 0x2c0f; 0x26d2; 0x26d4; 0x26d6; 0x26d3; 0x26d5; 0x26d7; 0x26da; 0x26dc;
  0x26de; 0x26db; 0x26dd; 0x26df; 0x2700; 0x2702; 0x2701; 0x2703; 0x2780; 0x2782; 0x2781; 0x2783;
  0x2800; 0x2802; 0x2804; 0x2801; 0x2803; 0x2805; 0x2842; 0x2844; 0x2846; 0x2849; 0x284b; 0x284d;
  0x2c40; 0x284a; 0x284c; 0x284e; 0x2c41; 0x2c42; 0x2c43; 0x2c44; 0x2c45; 0x2c46; 0x2c47; 0x2851;
  0x2853; 0x2855; 0x2c48; 0x2852; 0x2854; 0x2856; 0x2c49; 0x2c4a; 0x2c4b; 0x2c4c; 0x2c4d; 0x2c4e;
  0x2c4f; 0x2c82; 0x2e01; 0x3180; 0x2c87; 0x2f01; 0x2f02; 0x2f03; 0x2e06; 0x3185; 0x3000; 0x3001;
  0x3002; 0x4640; 0x4641; 0x4680; 0x46c0; 0x46c2; 0x46c1; 0x4700; 0x4740; 0x4780; 0x47c0; 0x47c2;
  0x4900; 0x4940; 0x4980; 0x4982; 0x4a00; 0x49c2; 0x4a03; 0x4a04; 0x4a40; 0x4a41; 0x4a80; 0x4a81;
  0x4ac0; 0x4ac1; 0x4bc0; 0x4bc1; 0x4b00; 0x4b01; 0x4b40; 0x4b41; 0x4bc2; 0x4bc3; 0x4b80; 0x4b81;
  0x4b82; 0x4b83; 0x4c00; 0x4c01; 0x4c02; 0x4c03; 0x5600; 0x5440; 0x5442; 0x5444; 0x5446; 0x5448;
  0x544a; 0x544c; 0x544e; 0x5450; 0x5452; 0x5454; 0x5456; 0x5480; 0x5482; 0x5484; 0x54c0; 0x54c1;
  0x5500; 0x5501; 0x5540; 0x5541; 0x5580; 0x5581; 0x55c0; 0x55c1; 0x5680; 0x58c0; 0x5700; 0x5702;
  0x5704; 0x5706; 0x5708; 0x570a; 0x570c; 0x570e; 0x5710; 0x5712; 0x5714; 0x5716; 0x5740; 0x5742;
  0x5744; 0x5780; 0x5781; 0x57c0; 0x57c1; 0x5800; 0x5801; 0x5840; 0x5841; 0x5880; 0x5881; 0x5900;
  0x5901; 0x5902; 0x5903; 0x5940; 0x8f40; 0x8f42; 0x8f80; 0x8fc0; 0x8fc1; 0x9000; 0x9001; 0x9041;
  0x9040; 0x9043; 0x9080; 0x9081; 0x90c0
].

