(* ===== verification/UnicodeNorm.v ===== *)
(** * Unicode normalization (libunicode.c)

    [to_nfd_rec] expands code points through the decomposition tables, [sort_cc]
    puts combining marks into canonical order and the last loop of
    [unicode_normalize] recombines pairs.  A pointer into
    [unicode_decomp_data] is the suffix of the table it points to. *)

From S2P Require Import Prelude CArray CBytes CStr DynBuf RunTable UnicodeTables UnicodeCase UnicodeProp UnicodeNormTables.
Open Scope Z_scope.

Definition DECOMP_TYPE_C1 : Z := 0.
Definition DECOMP_TYPE_L1 : Z := 1.
Definition DECOMP_TYPE_L7 : Z := 7.
Definition DECOMP_TYPE_LL1 : Z := 8.
Definition DECOMP_TYPE_LL2 : Z := 9.
Definition DECOMP_TYPE_S1 : Z := 10.
Definition DECOMP_TYPE_S5 : Z := 14.
Definition DECOMP_TYPE_I1 : Z := 15.
Definition DECOMP_TYPE_I2_0 : Z := 16.
Definition DECOMP_TYPE_I4_2 : Z := 21.
Definition DECOMP_TYPE_B1 : Z := 22.
Definition DECOMP_TYPE_B8 : Z := 29.
Definition DECOMP_TYPE_B18 : Z := 30.
Definition DECOMP_TYPE_LS2 : Z := 31.
Definition DECOMP_TYPE_PAT3 : Z := 32.
Definition DECOMP_TYPE_S2_UL : Z := 33.
Definition DECOMP_TYPE_LS2_UL : Z := 34.

Definition UNICODE_DECOMP_LEN_MAX : Z := 18.

Definition unicode_short_table : list Z := [0x2044; 0x2215].

Definition unicode_get_short_code (c : Z) : option Z :=
  if c <? 0x80 then Some c
  else if c <? 0x80 + 0x50 then Some (c - 0x80 + 0x300)
  else rd unicode_short_table (c - 0x80 - 0x50).

Definition unicode_get_lower_simple (c : Z) : Z :=
  if (c <? 0x100) || ((c >=? 0x410) && (c <=? 0x42f)) then c + 0x20 else c + 1.

Definition unicode_get16 (p : list Z) (off : Z) : option Z :=
  a ← rd p off; b ← rd p (off + 1); Some (Z.lor a (Z.shiftl b 8)).

(** [for(i = 0; i < l; i++) res[i] = f(i)], leaving with 0 ([Some []]) when
    [stop_at_zero] and a value is 0. *)
Fixpoint fill (stop_at_zero : bool) (f : Z -> option Z) (i : Z) (l : nat) : option (list Z) :=
  match l with
  | O => Some []
  | S l =>
      v ← f i;
      if stop_at_zero && (v =? 0) then Some [0] else
      rest ← fill stop_at_zero f (i + 1) l; Some (v :: rest)
  end.

(** The result of such a loop: empty if it left early with [return 0]. *)
Definition full (r : list Z) : list Z := if existsb (Z.eqb 0) r then [] else r.

(** [res] is the list of code points written; its length is the C return
    value. *)
Definition decomp_at (off : Z) (d : list Z) (c code len type : Z) : option (list Z) :=
  if type =? DECOMP_TYPE_C1 then Some [off] else
  if (DECOMP_TYPE_L1 <=? type) && (type <=? DECOMP_TYPE_L7) then
    let l := type - DECOMP_TYPE_L1 + 1 in
    r ← fill true (fun i => unicode_get16 d ((c - code) * l * 2 + 2 * i)) 0 (Z.to_nat l);
    Some (full r)
  else if (DECOMP_TYPE_LL1 <=? type) && (type <=? DECOMP_TYPE_LL2) then
    let l := type - DECOMP_TYPE_LL1 + 1 in
    let p := len * l * 2 in
    r ← fill true (fun i =>
          let k := (c - code) * l + i in
          lo ← unicode_get16 d (2 * k);
          hi ← rd d (p + k / 4);
          Some (Z.lor lo (Z.shiftl (Z.land (Z.shiftr hi (k mod 4 * 2)) 3) 16))) 0 (Z.to_nat l);
    Some (full r)
  else if (DECOMP_TYPE_S1 <=? type) && (type <=? DECOMP_TYPE_S5) then
    let l := type - DECOMP_TYPE_S1 + 1 in
    r ← fill true (fun i => b ← rd d ((c - code) * l + i); unicode_get_short_code b) 0 (Z.to_nat l);
    Some (full r)
  else if (DECOMP_TYPE_I1 <=? type) && (type <=? DECOMP_TYPE_I4_2) then
    let l := if type =? DECOMP_TYPE_I1 then 1 else 2 + Z.shiftr (type - DECOMP_TYPE_I2_0) 1 in
    let p := if type =? DECOMP_TYPE_I1 then 0 else Z.land (type - DECOMP_TYPE_I2_0) 1 + Zb (l >? 2) in
    fill false (fun i => c1 ← unicode_get16 d (2 * i); Some (if i =? p then u32 (c1 + (c - code)) else c1))
      0 (Z.to_nat l)
  else if (DECOMP_TYPE_B1 <=? type) && (type <=? DECOMP_TYPE_B18) then
    let l := if type =? DECOMP_TYPE_B18 then 18 else type - DECOMP_TYPE_B1 + 1 in
    c_min ← unicode_get16 d 0;
    fill false (fun i => c1 ← rd d (2 + (c - code) * l + i); Some (if c1 =? 0xff then 0x20 else c1 + c_min))
      0 (Z.to_nat l)
  else if type =? DECOMP_TYPE_LS2 then
    let o := (c - code) * 3 in
    c0 ← unicode_get16 d o;
    if c0 =? 0 then Some [] else
    b ← rd d (o + 2); s ← unicode_get_short_code b; Some [c0; s]
  else if type =? DECOMP_TYPE_PAT3 then
    r0 ← unicode_get16 d 0; r2 ← unicode_get16 d 2;
    r1 ← unicode_get16 d (4 + (c - code) * 2);
    Some [r0; r1; r2]
  else if (type =? DECOMP_TYPE_S2_UL) || (type =? DECOMP_TYPE_LS2_UL) then
    let c1 := c - code in
    '(c, o) ← (if type =? DECOMP_TYPE_S2_UL then
                 let o := c1 - Z.land c1 1 in
                 b ← rd d o; s ← unicode_get_short_code b; Some (s, o + 1)
               else
                 let o := Z.shiftr c1 1 * 3 in
                 s ← unicode_get16 d o; Some (s, o + 2));
    let c := if negb (Z.land c1 1 =? 0) then unicode_get_lower_simple c else c in
    b ← rd d o; s ← unicode_get_short_code b; Some [c; s]
  else Some [].

Definition unicode_decomp_entry (c idx code len type : Z) : option (list Z) :=
  off ← rd unicode_decomp_table2 idx;
  decomp_at off (drop (Z.to_nat off) unicode_decomp_data) c code len type.

Definition decomp_code (v : Z) : Z := Z.shiftr v (32 - 18).
Definition decomp_len (v : Z) : Z := Z.land (Z.shiftr v (32 - 18 - 7)) 0x7f.
Definition decomp_type (v : Z) : Z := Z.land (Z.shiftr v (32 - 18 - 7 - 6)) 0x3f.

Definition decomp_body (c : Z) (is_compat1 : bool) (st : Z * Z) : option ((Z * Z) + list Z) :=
  let '(idx_min, idx_max) := st in
  if idx_min <=? idx_max then
    let idx := (idx_max + idx_min) / 2 in
    v ← rd unicode_decomp_table1 idx;
    let code := decomp_code v in
    let len := decomp_len v in
    if c <? code then Some (inl (idx_min, idx - 1))
    else if c >=? u32 (code + len) then Some (inl (idx + 1, idx_max))
    else if Zb is_compat1 <? Z.land v 1 then Some (inr [])
    else res ← unicode_decomp_entry c idx code len (decomp_type v); Some (inr res)
  else Some (inr []).

Definition unicode_decomp_char (c : Z) (is_compat1 : bool) : option (list Z) :=
  loop (length unicode_decomp_table1 + 1) (decomp_body c is_compat1) (0, zlen unicode_decomp_table1 - 1).

(** The character of entry [idx1] of [unicode_comp_table] and its
    decomposition. *)
Definition comp_entry (idx1 : Z) : option (Z * list Z) :=
  let d_idx := Z.shiftr idx1 6 in
  let d_offset := Z.land idx1 0x3f in
  v ← rd unicode_decomp_table1 d_idx;
  let ch := decomp_code v + d_offset in
  pr ← unicode_decomp_entry ch d_idx (decomp_code v) (decomp_len v) (decomp_type v);
  Some (ch, pr).

Definition compose_body (c0 c1 : Z) (st : Z * Z) : option ((Z * Z) + Z) :=
  let '(idx_min, idx_max) := st in
  if idx_min <=? idx_max then
    let idx := (idx_max + idx_min) / 2 in
    idx1 ← rd unicode_comp_table idx;
    '(ch, pr) ← comp_entry idx1;
    p0 ← rd pr 0;
    d ← (if s32 (c0 - p0) =? 0 then p1 ← rd pr 1; Some (s32 (c1 - p1)) else Some (s32 (c0 - p0)));
    if d <? 0 then Some (inl (idx_min, idx - 1))
    else if d >? 0 then Some (inl (idx + 1, idx_max))
    else Some (inr ch)
  else Some (inr 0).

Definition unicode_compose_pair (c0 c1 : Z) : option Z :=
  loop (length unicode_comp_table + 1) (compose_body c0 c1) (0, zlen unicode_comp_table - 1).

Definition compose_pair (c0 c1 : Z) : option Z :=
  if (c0 >=? 0x1100) && (c0 <? 0x1100 + 19) && (c1 >=? 0x1161) && (c1 <? 0x1161 + 21) then
    Some (0xac00 + (c0 - 0x1100) * 588 + (c1 - 0x1161) * 28)
  else if (c0 >=? 0xac00) && (c0 <? 0xac00 + 11172) && ((c0 - 0xac00) mod 28 =? 0)
          && (c1 >=? 0x11a7) && (c1 <? 0x11a7 + 28) then
    Some (c0 + c1 - 0x11a7)
  else unicode_compose_pair c0 c1.

(** ** Canonical ordering *)

(** Make room for [ch1], whose class is [cc1], below the marks of larger class. *)
Definition shift_body (start cc1 : Z) (st : list Z * Z) : option ((list Z * Z) + (list Z * Z)) :=
  let '(buf, k) := st in
  if k >=? start then
    x ← rd buf k; ck ← unicode_get_cc x;
    if ck <=? cc1 then Some (inr (buf, k)) else
    buf ← wr buf (k + 1) x; Some (inl (buf, k - 1))
  else Some (inr (buf, k)).

Definition insert_cc_body (len start : Z) (st : list Z * Z) : option ((list Z * Z) + (list Z * Z)) :=
  let '(buf, j) := st in
  if j <? len then
    ch1 ← rd buf j; cc1 ← unicode_get_cc ch1;
    if cc1 =? 0 then Some (inr (buf, j)) else
    '(buf, k) ← loop (Z.to_nat len + 1) (shift_body start cc1) (buf, j - 1);
    buf ← wr buf (k + 1) ch1; Some (inl (buf, j + 1))
  else Some (inr (buf, j)).

Definition sort_cc_body (len : Z) (st : list Z * Z) : option ((list Z * Z) + list Z) :=
  let '(buf, i) := st in
  if i <? len then
    x ← rd buf i; cc ← unicode_get_cc x;
    if negb (cc =? 0) then
      '(buf, j) ← loop (Z.to_nat len + 1) (insert_cc_body len i) (buf, i + 1);
      Some (inl (buf, j + 1))
    else Some (inl (buf, i + 1))
  else Some (inr buf).

Definition sort_cc (buf : list Z) (len : Z) : option (list Z) :=
  loop (Z.to_nat len + 1) (sort_cc_body len) (buf, 0).

(** ** Decomposition *)

Section ops.
Context (realloc_func : realloc_t).

Definition is_hangul (c : Z) : bool := (c >=? 0xac00) && (c <? 0xd7a4).

Definition hangul_decomp (c : Z) : list Z :=
  let c := c - 0xac00 in
  let v := c mod 28 in
  [0x1100 + c / 588; 0x1161 + c mod 588 / 28] ++ (if negb (v =? 0) then [0x11a7 + v] else []).

(** The status of [dbuf_put_u32] is not looked at: the error flag of the
    buffer is. *)
Definition put_code (dbuf : dynbuf) (c : Z) : option dynbuf :=
  '(_, dbuf) ← dbuf_put_u32 realloc_func dbuf c; Some dbuf.

Fixpoint put_codes (dbuf : dynbuf) (l : list Z) : option dynbuf :=
  match l with [] => Some dbuf | c :: l => dbuf ← put_code dbuf c; put_codes dbuf l end.

(** [fuel] bounds the depth of the recursion. *)
Fixpoint to_nfd_rec (fuel : nat) (is_compat : bool) (dbuf : dynbuf) (src : list Z) : option dynbuf :=
  match fuel with
  | O => None
  | S fuel =>
      foldl (fun acc c =>
        dbuf ← acc;
        if is_hangul c then put_codes dbuf (hangul_decomp c)
        else
          res ← unicode_decomp_char c is_compat;
          match res with
          | [] => put_code dbuf c
          | _ => to_nfd_rec fuel is_compat dbuf res
          end) (Some dbuf) src
  end.
End ops.

Example norm_sample :
  unicode_decomp_char 0xe9 false = Some [0x65; 0x301] /\ unicode_decomp_char 0xfb01 true = Some [0x66; 0x69] /\
  unicode_decomp_char 0xfdfa true = Some [0x635; 0x644; 0x649; 0x20; 0x627; 0x644; 0x644; 0x647; 0x20; 0x639;
    0x644; 0x64a; 0x647; 0x20; 0x648; 0x633; 0x644; 0x645] /\
  unicode_compose_pair 0x65 0x301 = Some 0xe9 /\ unicode_compose_pair 0x65 0x66 = Some 0.
Proof. vm_compute. split_and!; reflexivity. Qed.

(** ** The decomposition table *)

Definition decomp_end : Z -> Z := run_last decomp_code decomp_len.
Definition decomp_run : Z -> option (Z * Z) := find_run unicode_decomp_table1 decomp_code decomp_len.

Lemma decomp_sorted : table_sorted decomp_code decomp_len 0x40000 unicode_decomp_table1 = true.
Proof. vm_cast_no_check (@eq_refl bool true). Qed.

Lemma zlen_decomp_table1 : zlen unicode_decomp_table1 = 699.
Proof. reflexivity. Qed.

Lemma zlen_comp_table : zlen unicode_comp_table = 945.
Proof. reflexivity. Qed.

#[global] Opaque unicode_decomp_table2 unicode_decomp_data.

Lemma decomp_char_lookup c u :
  unicode_decomp_char c u =
    match decomp_run c with
    | Some (idx, v) => if Zb u <? Z.land v 1 then Some []
                       else unicode_decomp_entry c idx (decomp_code v) (decomp_len v) (decomp_type v)
    | None => Some []
    end.
Proof.
  unfold unicode_decomp_char.
  rewrite (bisect _ decomp_code decomp_len 0x40000 c _
    (fun idx v => if Zb u <? Z.land v 1 then Some []
                  else unicode_decomp_entry c idx (decomp_code v) (decomp_len v) (decomp_type v)) [] decomp_sorted).
  - unfold decomp_run. by destruct (find_run _ _ _ c) as [[]|].
  - by rewrite zlen_decomp_table1.
  - intros lo hi Hlt. unfold decomp_body. by replace (lo <=? hi) with false by lia.
  - intros lo hi v Hlo Hhi Hv. unfold decomp_body. replace (lo <=? hi) with true by lia. rewrite Hv. cbn [mbind option_bind].
    destruct (table_sorted_range _ _ _ _ _ _ decomp_sorted Hv).
    change (decomp_code v + decomp_len v) with (run_last decomp_code decomp_len v).
    rewrite (uwrap_id 32 (run_last _ _ v)) by (unfold in_u; lia).
    destruct (c <? decomp_code v), (c >=? run_last decomp_code decomp_len v), (Zb u <? Z.land v 1); try done.
Qed.

(** ** Expansion *)

(** The expansion of a text with a given one-step decomposition. *)
Fixpoint expand_with (dec : Z -> option (list Z)) (fuel : nat) (src : list Z) : option (list Z) :=
  match fuel with
  | O => None
  | S fuel =>
      foldr (fun c acc =>
        out ← (if is_hangul c then Some (hangul_decomp c)
               else res ← dec c;
                    match res with [] => Some [c] | _ => expand_with dec fuel res end);
        rest ← acc; Some (out ++ rest)) (Some []) src
  end.

Definition expand (u : bool) : nat -> list Z -> option (list Z) := expand_with (fun c => unicode_decomp_char c u).

Lemma expand_with_ext dec dec' fuel src : (forall c, dec c = dec' c) -> expand_with dec fuel src = expand_with dec' fuel src.
Proof.
  intros Heq. revert src. induction fuel as [|fuel IH]; intros src; [done|]. cbn [expand_with].
  induction src as [|c src IHs]; [done|]. cbn [foldr]. rewrite IHs, Heq.
  destruct (is_hangul c); [done|]. destruct (dec' c) as [[|? ?]|]; [done| |done].
  cbn [mbind option_bind]. by rewrite IH.
Qed.

(** The decompositions of all the runs, in a finite map. *)
Definition decomp_pairs : list (Z * (Z * option (list Z))) :=
  concat ((fun '(idx, v) =>
    match rd unicode_decomp_table2 idx with
    | None => []
    | Some off =>
        let d := drop (Z.to_nat off) unicode_decomp_data in
        (fun k => (decomp_code v + k,
           (Z.land v 1, decomp_at off d (decomp_code v + k) (decomp_code v) (decomp_len v) (decomp_type v))))
          <$> seqZ 0 (decomp_len v)
    end) <$> index_runs unicode_decomp_table1).

Definition decomp_map : gmap Z (Z * option (list Z)) := list_to_map decomp_pairs.

Definition decomp_in (m : gmap Z (Z * option (list Z))) (u : bool) (c : Z) : option (list Z) :=
  match m !! c with
  | Some (compat, res) => if Zb u <? compat then Some [] else res
  | None => Some []
  end.

(** A code point that decomposition leaves alone. *)
Definition terminal_in (m : gmap Z (Z * option (list Z))) (u : bool) (c : Z) : bool :=
  (0 <=? c) && (c <? 0x40000) && negb (is_hangul c) && bool_decide (decomp_in m u c = Some []).

Definition expand_ok (m : gmap Z (Z * option (list Z))) (u : bool) (c : Z) : bool :=
  match expand_with (decomp_in m u) 4 [c] with
  | None => false
  | Some out => forallb (terminal_in m u) out && (1 <=? zlen out) && (zlen out <=? 18)
  end.

Definition jamos : list Z := seqZ 0x1100 19 ++ seqZ 0x1161 21 ++ seqZ 0x11a7 28.

Lemma expand_check :
  (let m := decomp_map in
   forallb (fun '(c, _) => expand_ok m false c && expand_ok m true c) decomp_pairs &&
   forallb (fun c => terminal_in m false c && terminal_in m true c) jamos &&
   forallb (fun '(idx, _) => bool_decide (is_Some (rd unicode_decomp_table2 idx))) (index_runs unicode_decomp_table1)) = true.
Proof. vm_cast_no_check (@eq_refl bool true). Qed.

#[global] Opaque unicode_decomp_table1 unicode_comp_table.

Lemma table2_defined idx v : rd unicode_decomp_table1 idx = Some v -> is_Some (rd unicode_decomp_table2 idx).
Proof.
  intros Hv. pose proof expand_check as Hk. cbv zeta in Hk. apply andb_true_iff in Hk as [_ Hk].
  rewrite forallb_forall in Hk. apply index_runs_elem, list_elem_of_In, Hk in Hv. by eapply bool_decide_eq_true_1.
Qed.

Lemma decomp_pairs_elem c x :
  (c, x) ∈ decomp_pairs <-> exists idx v, decomp_run c = Some (idx, v) /\
    x = (Z.land v 1, unicode_decomp_entry c idx (decomp_code v) (decomp_len v) (decomp_type v)).
Proof.
  unfold decomp_pairs. rewrite list_elem_of_In, in_concat. unfold unicode_decomp_entry. split.
  - intros (l & Hl & Hc). apply list_elem_of_In in Hc. apply list_elem_of_In, list_elem_of_fmap in Hl as ([idx v] & -> & Hv).
    destruct (rd unicode_decomp_table2 idx) as [off|] eqn:Ht2; [|by apply not_elem_of_nil in Hc].
    apply list_elem_of_fmap in Hc as (k & Heq & Hk). simplify_eq. apply elem_of_seqZ in Hk.
    apply index_runs_elem in Hv. exists idx, v. split; [|by rewrite Ht2].
    apply (run_result_unique _ decomp_code decomp_len _ (decomp_code v + k) _ _ decomp_sorted); [apply find_run_spec|].
    split; [done|]. unfold run_last. lia.
  - intros (idx & v & Hr & ->). apply find_run_Some in Hr as [Hv Hc]. destruct (table2_defined _ _ Hv) as [off Ht2].
    eexists. split; [apply list_elem_of_In, list_elem_of_fmap; exists (idx, v); split; [reflexivity|by apply index_runs_elem]|].
    rewrite Ht2. apply list_elem_of_In, list_elem_of_fmap. exists (c - decomp_code v).
    replace (decomp_code v + (c - decomp_code v)) with c by lia. split; [done|].
    apply elem_of_seqZ. unfold run_last in Hc. lia.
Qed.

Lemma decomp_map_lookup c :
  decomp_map !! c =
    match decomp_run c with
    | Some (idx, v) => Some (Z.land v 1, unicode_decomp_entry c idx (decomp_code v) (decomp_len v) (decomp_type v))
    | None => None
    end.
Proof.
  unfold decomp_map. destruct (list_to_map decomp_pairs !! c) as [x|] eqn:Hm.
  - apply elem_of_list_to_map_2, decomp_pairs_elem in Hm as (idx & v & -> & ->). done.
  - destruct (decomp_run c) as [[idx v]|] eqn:Hr; [|done].
    apply not_elem_of_list_to_map in Hm. destruct Hm. apply list_elem_of_fmap.
    eexists (c, _). split; [done|]. apply decomp_pairs_elem. by exists idx, v.
Qed.

#[global] Opaque decomp_pairs decomp_map.

Lemma decomp_in_map u c : decomp_in decomp_map u c = unicode_decomp_char c u.
Proof.
  unfold decomp_in. rewrite decomp_map_lookup, decomp_char_lookup. by destruct (decomp_run c) as [[]|].
Qed.

(** A code point that decomposition leaves alone. *)
Definition terminal (u : bool) (c : Z) : Prop := 0 <= c < 2 ^ 31 /\ is_hangul c = false /\ unicode_decomp_char c u = Some [].

Lemma terminal_in_map u c : terminal_in decomp_map u c = true -> terminal u c.
Proof.
  unfold terminal_in, terminal. intros H. zbool. rewrite decomp_in_map in *. split_and!; [done|lia|done|].
  by eapply bool_decide_eq_true_1.
Qed.

Lemma forallb_terminal u out : forallb (terminal_in decomp_map u) out = true -> Forall (terminal u) out.
Proof.
  intros H. apply Forall_forall. intros d Hd. rewrite forallb_forall in H.
  apply list_elem_of_In, H in Hd. by apply terminal_in_map.
Qed.

Lemma jamo_terminal u x : x ∈ jamos -> terminal u x.
Proof.
  pose proof expand_check as Hk. cbv zeta in Hk. apply andb_true_iff in Hk as [Hk _].
  apply andb_true_iff in Hk as [_ Hk]. rewrite forallb_forall in Hk.
  intros Hx. apply list_elem_of_In, Hk in Hx. apply terminal_in_map.
  apply andb_true_iff in Hx as [? ?]. destruct u; assumption.
Qed.

Lemma hangul_terminal u c : is_hangul c = true -> Forall (terminal u) (hangul_decomp c).
Proof.
  intros Hc. pose proof (jamo_terminal u) as Hj. unfold is_hangul in Hc. zbool. unfold hangul_decomp. set (n := c - 0xac00).
  assert (0 <= n < 11172) by lia.
  pose proof (Z.mod_pos_bound n 588 ltac:(lia)). pose proof (Z.mod_pos_bound n 28 ltac:(lia)).
  assert (0 <= n / 588 < 19) by (split; [apply Z.div_pos|apply Z.div_lt_upper_bound]; lia).
  assert (0 <= n mod 588 / 28 < 21) by (split; [apply Z.div_pos|apply Z.div_lt_upper_bound]; lia).
  unfold jamos in Hj. apply Forall_app. split.
  - rewrite !Forall_cons. split_and!; [..|by apply Forall_nil]; apply Hj; rewrite !elem_of_app, !elem_of_seqZ; lia.
  - destruct (n mod 28 =? 0) eqn:E; simpl; [by apply Forall_nil|]. zbool. apply Forall_singleton.
    apply Hj. rewrite !elem_of_app, !elem_of_seqZ. lia.
Qed.

Lemma expand_one u c :
  0 <= c < 2 ^ 31 -> exists out, expand u 4 [c] = Some out /\ Forall (terminal u) out /\ 1 <= zlen out <= 18.
Proof.
  intros Hc. unfold expand. destruct (decomp_run c) as [[idx v]|] eqn:Hr.
  - assert (exists x, (c, x) ∈ decomp_pairs) as [x Hx].
    { eexists. apply decomp_pairs_elem. by exists idx, v. }
    pose proof expand_check as Hk. cbv zeta in Hk. apply andb_true_iff in Hk as [Hk _].
    apply andb_true_iff in Hk as [Hk _]. rewrite forallb_forall in Hk. apply list_elem_of_In, Hk in Hx.
    assert (expand_ok decomp_map u c = true) as Hok
      by (apply andb_true_iff in Hx as [? ?]; destruct u; assumption).
    unfold expand_ok in Hok. rewrite (expand_with_ext _ (fun c => unicode_decomp_char c u)) in Hok
      by (intros; apply decomp_in_map).
    destruct (expand_with _ 4 [c]) as [out|]; [|done]. exists out. zbool. split_and!; try done.
    by apply forallb_terminal.
  - cbn [expand_with foldr]. destruct (is_hangul c) eqn:Hh.
    + exists (hangul_decomp c). cbn [mbind option_bind]. rewrite app_nil_r. 
      assert (1 <= zlen (hangul_decomp c) <= 18) by (unfold hangul_decomp; case_match; done).
      split_and!; [done|by apply hangul_terminal|lia|lia].
    + rewrite decomp_char_lookup, Hr. exists [c]. cbn [mbind option_bind].
      split_and!; [done| |done|done]. apply Forall_singleton. split_and!; [lia|lia|done|].
      by rewrite decomp_char_lookup, Hr.
Qed.

Lemma expand_cons u f c src :
  expand u (S f) (c :: src) = (out ← expand u (S f) [c]; rest ← expand u (S f) src; Some (out ++ rest)).
Proof.
  unfold expand. cbn [expand_with foldr].
  destruct (if is_hangul c then _ else _) as [out|]; [|done]. cbn [mbind option_bind]. by rewrite app_nil_r.
Qed.

Lemma expand_nil u f : expand u (S f) [] = Some [].
Proof. done. Qed.

Lemma expand_list u src :
  Forall (fun c => 0 <= c < 2 ^ 31) src ->
  exists out, expand u 4 src = Some out /\ Forall (terminal u) out /\ zlen src <= zlen out <= 18 * zlen src.
Proof.
  induction 1 as [|c src Hc _ (out & IH & Ht & Hl)]; [by exists []|].
  destruct (expand_one u c Hc) as (o & Ho & Hto & Hlo). exists (o ++ out). rewrite expand_cons, Ho, IH.
  rewrite zlen_cons, zlen_app. split_and!; [done|by apply Forall_app|lia|lia].
Qed.

Lemma expand_terminal u f out : Forall (terminal u) out -> expand u (S f) out = Some out.
Proof.
  induction 1 as [|c out (Hc & Hh & Hd) _ IH]; [done|]. rewrite expand_cons, IH.
  unfold expand. cbn [expand_with foldr]. rewrite Hh, Hd. done.
Qed.

(** ** Canonical ordering

    One exchange of the canonical ordering algorithm: two adjacent marks whose
    classes are out of order. *)

Inductive cc_swap : list Z -> list Z -> Prop :=
  | cc_swap_intro a b x y : 0 < cc_of y < cc_of x -> cc_swap (a ++ x :: y :: b) (a ++ y :: x :: b).

(** Adjacent code points [q], [q + 1] of [l] are in order. *)
Definition in_order (l : list Z) (q : Z) : Prop :=
  forall x y, rd l q = Some x -> rd l (q + 1) = Some y -> cc_of y = 0 \/ cc_of x <= cc_of y.

Definition ordered_upto (l : list Z) (n : Z) : Prop := forall q, 0 <= q -> q + 1 < n -> in_order l q.

Definition codes_ok (l : list Z) : Prop := Forall (fun c => 0 <= c) l.

Lemma cc_swap_upd l k x y : rd l k = Some x -> rd l (k + 1) = Some y -> 0 < cc_of y < cc_of x ->
  cc_swap l (upd (upd l (k + 1) x) k y).
Proof.
  intros Hx Hy Hcc. pose proof (rd_Some_range _ _ _ Hx) as Hk. pose proof (rd_Some_range _ _ _ Hy) as Hk1.
  assert (l = take (Z.to_nat k) l ++ x :: y :: drop (Z.to_nat (k + 2)) l) as Hl.
  { rewrite (rd_split l k x Hx) at 1. do 2 f_equal.
    assert (rd (drop (Z.to_nat (k + 1)) l) 0 = Some y) as Hy' by (rewrite <- (rd_drop l (k + 1) 0) by (done || lia); rewrite <- Hy; f_equal; lia).
    rewrite (rd_split _ 0 y Hy'). simpl. f_equal. rewrite drop_drop. f_equal. lia. }
  assert (zlen (take (Z.to_nat k) l) = k) as Hz by (apply zlen_take; lia).
  assert (upd (upd l (k + 1) x) k y = take (Z.to_nat k) l ++ y :: x :: drop (Z.to_nat (k + 2)) l) as ->.
  { rewrite Hl at 1. replace (take (Z.to_nat k) l ++ x :: y :: drop (Z.to_nat (k + 2)) l)
      with ((take (Z.to_nat k) l ++ [x]) ++ y :: drop (Z.to_nat (k + 2)) l) by (by rewrite <- app_assoc).
    rewrite upd_mid by (rewrite zlen_app; change (zlen [x]) with 1; lia). rewrite <- app_assoc. simpl.
    by rewrite upd_mid by lia. }
  rewrite Hl at 1. by constructor.
Qed.

Lemma cc_swap_perm l l' : cc_swap l l' -> l ≡ₚ l'.
Proof. intros [a b x y _]. apply Permutation_app_head, Permutation_swap. Qed.

Lemma cc_swaps_perm l l' : rtc cc_swap l l' -> l ≡ₚ l'.
Proof. induction 1; [done|]. etransitivity; [by apply cc_swap_perm|done]. Qed.

Lemma cc_swaps_ok l l' : rtc cc_swap l l' -> codes_ok l -> codes_ok l'.
Proof. intros H. unfold codes_ok. by rewrite (cc_swaps_perm _ _ H). Qed.

Lemma cc_swaps_zlen l l' : rtc cc_swap l l' -> zlen l' = zlen l.
Proof. intros H. unfold zlen. by rewrite (Permutation_length (cc_swaps_perm _ _ H)). Qed.

Lemma codes_ok_rd l k x : codes_ok l -> rd l k = Some x -> 0 <= x.
Proof.
  intros Hl Hx. pose proof (rd_Some_range _ _ _ Hx). rewrite rd_lookup in Hx by lia. by eapply Forall_lookup_1 in Hx.
Qed.

Lemma upd_upd_same (l : list Z) i x y : upd (upd l i x) i y = upd l i y.
Proof. unfold upd. apply list_insert_insert_eq. Qed.

(** Lookups after moving [ch1] one place down. *)
Lemma rd_moved (l : list Z) k x y q : 0 <= k -> k + 1 < zlen l ->
  rd (upd (upd l (k + 1) x) k y) q = if q =? k then Some y else if q =? k + 1 then Some x else rd l q.
Proof.
  intros. destruct (Z.eqb_spec q k) as [->|].
  - apply rd_upd_eq. autorewrite with zlen. lia.
  - rewrite rd_upd_ne by lia. destruct (Z.eqb_spec q (k + 1)) as [->|]; [apply rd_upd_eq; lia|by apply rd_upd_ne; lia].
Qed.

Section insert.
Context (l1 : list Z) (start j ch1 : Z) (Hok : codes_ok l1) (Hstart : 0 <= start < j) (Hch : rd l1 j = Some ch1)
  (Hcc : 0 < cc_of ch1).

(** [l] is [l1] with [ch1] moved down to place [k + 1]. *)
Definition shift_inv (k : Z) (l : list Z) : Prop :=
  start - 1 <= k <= j - 1 /\ rtc cc_swap l1 l /\ rd l (k + 1) = Some ch1 /\
  (forall q, q < start \/ j < q -> rd l q = rd l1 q) /\
  (forall q x, start <= q <= j -> rd l q = Some x -> cc_of x <> 0) /\
  (forall q, start <= q -> q + 1 <= j -> q <> k -> in_order l q) /\
  (forall x y, start <= k -> k + 2 <= j -> rd l k = Some x -> rd l (k + 2) = Some y -> cc_of x <= cc_of y).

Lemma shift_step k l x :
  shift_inv k l -> start <= k -> rd l k = Some x -> cc_of ch1 < cc_of x ->
  shift_inv (k - 1) (upd (upd l (k + 1) x) k ch1).
Proof.
  intros (Hk & Hsw & Hk1 & Hfr & Hnz & Hord & Hskip) Hks Hx Hlt.
  pose proof (rd_Some_range _ _ _ Hk1) as Hr.
  set (l' := upd (upd l (k + 1) x) k ch1).
  assert (forall q, rd l' q = if q =? k then Some ch1 else if q =? k + 1 then Some x else rd l q) as Hrd
    by (intros; by apply rd_moved; lia).
  assert (cc_of x <> 0) as Hxz by (apply (Hnz k); [lia|done]).
  split_and!; try lia.
  - eapply rtc_r; [done|]. by apply cc_swap_upd.
  - rewrite Hrd. by replace (k - 1 + 1 =? k) with true by lia.
  - intros q Hq. rewrite Hrd. replace (q =? k) with false by lia. replace (q =? k + 1) with false by lia. by apply Hfr.
  - intros q z Hq Hz. rewrite Hrd in Hz. repeat case_match; simplify_eq; [lia|done|by apply (Hnz q)].
  - intros q Hq Hqj Hqk a b Ha Hb. rewrite Hrd in Ha, Hb.
    destruct (decide (q = k)) as [->|]; [|destruct (decide (q = k + 1)) as [->|]].
    + rewrite Z.eqb_refl in Ha. replace (k + 1 =? k) with false in Hb by lia. rewrite Z.eqb_refl in Hb.
      simplify_eq. right. lia.
    + replace (k + 1 =? k) with false in Ha by lia. rewrite Z.eqb_refl in Ha.
      replace (k + 1 + 1 =? k) with false in Hb by lia. replace (k + 1 + 1 =? k + 1) with false in Hb by lia.
      simplify_eq. right. apply (Hskip a b); try done; try lia. rewrite <- Hb. f_equal. lia.
    + replace (q =? k) with false in Ha by lia. replace (q =? k + 1) with false in Ha by lia.
      destruct (decide (q + 1 = k)); [lia|]. replace (q + 1 =? k) with false in Hb by lia.
      replace (q + 1 =? k + 1) with false in Hb by lia. by apply (Hord q).
  - intros a b Hk' Hj Ha Hb. rewrite Hrd in Ha, Hb. replace (k - 1 =? k) with false in Ha by lia.
    replace (k - 1 =? k + 1) with false in Ha by lia. replace (k - 1 + 2 =? k) with false in Hb by lia.
    replace (k - 1 + 2 =? k + 1) with true in Hb by lia. simplify_eq.
    destruct (Hord (k - 1) ltac:(lia) ltac:(lia) ltac:(lia) a b Ha) as [?|?]; [|done|done].
    rewrite <- Hx. f_equal. lia.
Qed.

Lemma shift_spec fuel : j - start + 1 < Z.of_nat fuel ->
  (forall q, start <= q -> q + 1 < j -> in_order l1 q) ->
  (forall q x, start <= q < j -> rd l1 q = Some x -> cc_of x <> 0) ->
  wp (loop fuel (shift_body start (cc_of ch1)) (l1, j - 1)) (fun '(buf, k) =>
    zlen buf = zlen l1 /\ shift_inv k (upd buf (k + 1) ch1) /\ (start <= k -> in_order (upd buf (k + 1) ch1) k)).
Proof.
  intros Hf Hord Hnz. pose proof (rd_Some_range _ _ _ Hch) as Hr.
  apply (wp_loop (fun '(buf, k) => zlen buf = zlen l1 /\ shift_inv k (upd buf (k + 1) ch1))
    (fun '(_, k) => Z.to_nat (k - start + 1))).
  - split; [done|]. replace (j - 1 + 1) with j by lia. rewrite upd_id by done.
    split_and!; try done; try lia.
    + by replace (j - 1 + 1) with j by lia.
    + intros q x Hq Hx. destruct (decide (q = j)) as [->|]; [simplify_eq; lia|]. by apply (Hnz q); [lia|].
    + intros q Hq Hqj Hne. apply Hord; lia.
  - lia.
  - intros [buf k] [Hz Hinv]. pose proof Hinv as (Hk & Hsw & Hk1 & _). unfold shift_body. wp_step.
    + destruct (rd_is_Some buf k ltac:(lia)) as [x Hx]. rewrite Hx. cbn [mbind option_bind].
      set (l := upd buf (k + 1) ch1) in *.
      assert (rd l k = Some x) as Hlx by (unfold l; by rewrite rd_upd_ne by lia).
      rewrite (proj1 (get_cc_spec x ltac:(by eapply codes_ok_rd; [eapply cc_swaps_ok|]))). cbn [mbind option_bind]. wp_step.
      * wp_step. split_and!; [done|done|]. intros _ a b Ha Hb. fold l in Ha, Hb. rewrite Hk1 in Hb. rewrite Hlx in Ha. simplify_eq. by right.
      * wp_step. rewrite wr_upd by lia. simpl. split; [|lia]. autorewrite with zlen. split; [done|].
        replace (k - 1 + 1) with k by lia.
        replace (upd (upd buf (k + 1) x) k ch1) with (upd (upd l (k + 1) x) k ch1)
          by (unfold l; by rewrite upd_upd_same).
        apply shift_step; try done; lia.
    + wp_step. split_and!; [done|done|]. lia.
Qed.

(** Inserting [ch1] extends the ordered segment. *)
Lemma insert_done buf k :
  zlen buf = zlen l1 -> shift_inv k (upd buf (k + 1) ch1) -> (start <= k -> in_order (upd buf (k + 1) ch1) k) ->
  let l := upd buf (k + 1) ch1 in
  rtc cc_swap l1 l /\ (forall q, q < start \/ j < q -> rd l q = rd l1 q) /\
  (forall q, start <= q -> q + 1 < j + 1 -> in_order l q) /\
  (forall q x, start <= q < j + 1 -> rd l q = Some x -> cc_of x <> 0).
Proof.
  intros Hz (Hk & Hsw & Hk1 & Hfr & Hnz & Hord & _) Hkk l. split_and!; [done|done|..].
  - intros q Hq Hqj. destruct (decide (q = k)) as [->|]; [by apply Hkk|apply Hord; lia].
  - intros q x Hq. apply Hnz. lia.
Qed.
End insert.

(** The segment of marks that starts at [start]. *)
Lemma insert_cc_spec l0 len start :
  codes_ok l0 -> zlen l0 = len -> 0 <= start < len ->
  (forall x, rd l0 start = Some x -> cc_of x <> 0) ->
  wp (loop (Z.to_nat len + 1) (insert_cc_body len start) (l0, start + 1)) (fun '(l, j) =>
    start < j <= len /\ rtc cc_swap l0 l /\ (forall q, q < start \/ j <= q -> rd l q = rd l0 q) /\
    (forall q, start <= q -> q + 1 < j -> in_order l q) /\
    (forall x, rd l j = Some x -> cc_of x = 0)).
Proof.
  intros Hok Hz Hs Hcc.
  apply (wp_loop (fun '(l, j) => start < j <= len /\ rtc cc_swap l0 l /\
      (forall q, q < start \/ j <= q -> rd l q = rd l0 q) /\
      (forall q, start <= q -> q + 1 < j -> in_order l q) /\
      (forall q x, start <= q < j -> rd l q = Some x -> cc_of x <> 0))
    (fun '(_, j) => Z.to_nat (len - j))).
  - split_and!; try done; try lia. intros q x Hq. replace q with start by lia. apply Hcc.
  - lia.
  - intros [l j] (Hj & Hsw & Hfr & Hord & Hnz). pose proof (cc_swaps_zlen _ _ Hsw) as Hzl.
    pose proof (cc_swaps_ok _ _ Hsw Hok) as Hokl. unfold insert_cc_body. wp_step.
    + destruct (rd_is_Some l j ltac:(lia)) as [ch1 Hch]. rewrite Hch. cbn [mbind option_bind].
      destruct (get_cc_spec ch1 (codes_ok_rd _ _ _ Hokl Hch)) as [-> Hrange]. cbn [mbind option_bind]. wp_step.
      * wp_step. split_and!; try done; try lia. intros x Hx. rewrite Hx in Hch. by simplify_eq.
      * wp_step. eapply wp_mono; [apply (shift_spec l start j ch1); try done; try lia|].
        intros [buf k] (Hzb & Hinv & Hkk). pose proof Hinv as ((?&?)&_&Hk1&_).
        pose proof (rd_Some_range _ _ _ Hk1) as Hr. autorewrite with zlen in Hr.
        destruct (insert_done l start j ch1 buf k Hzb Hinv Hkk) as (Hsw' & Hfr' & Hord' & Hnz').
        wp_step. rewrite wr_upd by lia. simpl. split; [|lia]. split_and!; try lia; try done.
        { by etransitivity. }
        { intros q Hq. rewrite Hfr' by lia. apply Hfr. lia. }
    + wp_step. split_and!; try done; try lia. intros x Hx. pose proof (rd_Some_range _ _ _ Hx). lia.
Qed.

Lemma sort_cc_spec l0 :
  codes_ok l0 ->
  wp (sort_cc l0 (zlen l0)) (fun l => rtc cc_swap l0 l /\ ordered_upto l (zlen l)).
Proof.
  intros Hok. unfold sort_cc. set (len := zlen l0).
  apply (wp_loop (fun '(l, i) => 0 <= i <= len + 1 /\ rtc cc_swap l0 l /\ ordered_upto l (Z.min i len) /\
      (forall x, 0 < i -> i <= len -> rd l (i - 1) = Some x -> cc_of x = 0))
    (fun '(_, i) => Z.to_nat (len - i))).
  - pose proof (zlen_nonneg l0). split_and!; try done; try lia. intros q ??. lia.
  - pose proof (zlen_nonneg l0). lia.
  - intros [l i] (Hi & Hsw & Hord & Hprev). pose proof (cc_swaps_zlen _ _ Hsw) as Hzl. fold len in Hzl.
    pose proof (cc_swaps_ok _ _ Hsw Hok) as Hokl. unfold sort_cc_body. wp_step.
    + destruct (rd_is_Some l i ltac:(lia)) as [x Hx]. rewrite Hx. cbn [mbind option_bind].
      destruct (get_cc_spec x (codes_ok_rd _ _ _ Hokl Hx)) as [-> Hrange]. cbn [mbind option_bind]. wp_step.
      * wp_step. eapply wp_mono; [apply (insert_cc_spec l len i); try done; try lia|].
        { intros y Hy. by simplify_eq. }
        intros [l' j] (Hj & Hsw' & Hfr & Hord' & Hend). wp_step. split; [|lia]. split_and!; try lia.
        { by etransitivity. }
        { intros q Hq Hqj a b Ha Hb. destruct (decide (q < i)).
          - destruct (decide (q + 1 < i)); [|].
            + rewrite Hfr in Ha by lia. rewrite Hfr in Hb by lia. by apply (Hord q); [lia|lia|..].
            + right. rewrite Hfr in Ha by lia. replace q with (i - 1) in Ha by lia.
              rewrite (Hprev a) by (done || lia).
              pose proof (cc_swaps_ok _ _ Hsw' Hokl) as Hok'. by destruct (get_cc_spec b (codes_ok_rd _ _ _ Hok' Hb)) as [_ [? _]].
          - destruct (decide (q + 1 < j)); [by apply (Hord' q); [lia|lia|..]|].
            left. apply Hend. rewrite <- Hb. f_equal. lia. }
        { intros y _ Hlen Hy. apply Hend. rewrite <- Hy. f_equal. lia. }
      * wp_step. split; [|lia]. split_and!; try lia; try done.
        { intros q Hq Hqj a b Ha Hb. destruct (decide (q + 1 < i)); [by apply (Hord q); [lia|lia|..]|].
          left. replace (q + 1) with i in Hb by lia. by simplify_eq. }
        { intros y _ _ Hy. replace (i + 1 - 1) with i in Hy by lia. by simplify_eq. }
    + wp_step. split; [done|]. rewrite Hzl. replace len with (Z.min i len) by lia. done.
Qed.

(** ** Pair composition *)

(** The key the composition table is sorted by. *)
Definition comp_key (idx1 : Z) : Z :=
  match comp_entry idx1 with Some (_, [p0; p1]) => p0 * 2 ^ 32 + p1 | _ => -1 end.

Fixpoint keys_sorted (max : Z) (l : list Z) : bool :=
  match l with
  | [] => true
  | k :: l => (0 <=? k) && (k + 1 <? max) && forallb (fun k' => k + 1 <=? k') l && keys_sorted max l
  end.

Lemma keys_sorted_table code max l :
  keys_sorted max (code <$> l) = true -> table_sorted code (fun _ => 1) max l = true.
Proof.
  induction l as [|v l IH]; [done|]. cbn [fmap list_fmap keys_sorted table_sorted]. intros H.
  apply andb_true_iff in H as [H Hl]. apply andb_true_iff in H as [H Hall]. zbool.
  rewrite !andb_true_iff. unfold run_last. split_and!; try lia; [|by apply IH].
  rewrite forallb_forall in Hall |- *. intros w Hw. apply Hall, list_elem_of_In, list_elem_of_fmap.
  exists w. split; [done|by apply list_elem_of_In].
Qed.

(** Entries are canonical decompositions of two code points. *)
Definition comp_ok (idx1 : Z) : bool :=
  match comp_entry idx1, rd unicode_decomp_table1 (Z.shiftr idx1 6) with
  | Some (ch, [p0; p1]), Some v =>
      (0 <=? p0) && (p0 <? 2 ^ 31) && (0 <=? p1) && (p1 <? 2 ^ 31) && (Z.land v 1 =? 0) &&
      (Z.land idx1 0x3f <? decomp_len v) && (0 <? ch) && (ch <? 0x40000)
  | _, _ => false
  end.

Lemma comp_sorted : table_sorted comp_key (fun _ => 1) (2 ^ 63) unicode_comp_table = true.
Proof. apply keys_sorted_table. vm_cast_no_check (@eq_refl bool true). Qed.

Lemma comp_check : forallb comp_ok unicode_comp_table = true.
Proof. vm_cast_no_check (@eq_refl bool true). Qed.

Definition comp_find (c0 c1 : Z) : option (Z * Z) :=
  find_run unicode_comp_table comp_key (fun _ => 1) (c0 * 2 ^ 32 + c1).

Lemma comp_entry_facts idx1 : idx1 ∈ unicode_comp_table ->
  exists ch p0 p1, comp_entry idx1 = Some (ch, [p0; p1]) /\ 0 <= p0 < 2 ^ 31 /\ 0 <= p1 < 2 ^ 31 /\ 0 < ch < 0x40000 /\
    comp_key idx1 = p0 * 2 ^ 32 + p1 /\ unicode_decomp_char ch false = Some [p0; p1].
Proof.
  intros Hin. pose proof comp_check as Hk. rewrite forallb_forall in Hk. apply list_elem_of_In, Hk in Hin.
  unfold comp_ok in Hin. destruct (comp_entry idx1) as [[ch [|p0 [|p1 [|]]]]|] eqn:He; try done.
  destruct (rd unicode_decomp_table1 (Z.shiftr idx1 6)) as [v|] eqn:Hv; [|done]. zbool.
  exists ch, p0, p1. split_and!; try done; try lia; [unfold comp_key; by rewrite He|].
  unfold comp_entry in He. rewrite Hv in He. cbn [mbind option_bind] in He.
  destruct (unicode_decomp_entry _ _ _ _ _) as [pr|] eqn:Hd; [|done]. cbn [mbind option_bind] in He. simplify_eq.
  rewrite decomp_char_lookup.
  assert (0 <= Z.land idx1 63) by (change 63 with (2 ^ 6 - 1); rewrite land_mod by lia; apply Z.mod_pos_bound; lia).
  assert (decomp_run (decomp_code v + Z.land idx1 63) = Some (Z.shiftr idx1 6, v)) as ->.
  { apply (run_result_unique _ decomp_code decomp_len _ (decomp_code v + Z.land idx1 63) _ _ decomp_sorted);
      [apply find_run_spec|]. split; [done|]. unfold run_last. lia. }
  replace (Zb false <? Z.land v 1) with false by (simpl; lia). done.
Qed.

Lemma s32_diff a b : 0 <= a < 2 ^ 31 -> 0 <= b < 2 ^ 31 -> s32 (a - b) = a - b.
Proof. intros. apply swrap_id; [lia|]. unfold in_s. lia. Qed.

Lemma compose_pair_lookup c0 c1 :
  0 <= c0 < 2 ^ 31 -> 0 <= c1 < 2 ^ 31 ->
  unicode_compose_pair c0 c1 =
    match comp_find c0 c1 with Some (_, idx1) => fst <$> comp_entry idx1 | None => Some 0 end.
Proof.
  intros Hc0 Hc1. unfold unicode_compose_pair, comp_find.
  apply (bisect _ comp_key (fun _ => 1) (2 ^ 63) (c0 * 2 ^ 32 + c1) _ (fun _ idx1 => fst <$> comp_entry idx1) 0 comp_sorted).
  - by rewrite zlen_comp_table.
  - intros lo hi Hlt. unfold compose_body. by replace (lo <=? hi) with false by lia.
  - intros lo hi idx1 Hlo Hhi Hv. unfold compose_body. replace (lo <=? hi) with true by lia. rewrite Hv.
    cbn [mbind option_bind].
    destruct (comp_entry_facts idx1 ltac:(pose proof (rd_Some_range _ _ _ Hv); rewrite rd_lookup in Hv by lia;
      by eapply list_elem_of_lookup_2)) as (ch & p0 & p1 & He & Hp0 & Hp1 & Hch & Hkey & _).
    rewrite He. cbn [mbind option_bind fmap option_fmap option_map fst].
    change (rd [p0; p1] 0) with (Some p0). change (rd [p0; p1] 1) with (Some p1). cbn [mbind option_bind].
    unfold run_last. rewrite Hkey, !s32_diff by done.
    destruct (c0 - p0 =? 0) eqn:E0; cbn [mbind option_bind]; zbool.
    + destruct (c1 - p1 <? 0) eqn:E1; [|destruct (c1 - p1 >? 0) eqn:E2]; zbool.
      * by replace (c0 * 2 ^ 32 + c1 <? p0 * 2 ^ 32 + p1) with true by nia.
      * replace (c0 * 2 ^ 32 + c1 <? p0 * 2 ^ 32 + p1) with false by nia.
        by replace (c0 * 2 ^ 32 + c1 >=? p0 * 2 ^ 32 + p1 + 1) with true by nia.
      * replace (c0 * 2 ^ 32 + c1 <? p0 * 2 ^ 32 + p1) with false by nia.
        by replace (c0 * 2 ^ 32 + c1 >=? p0 * 2 ^ 32 + p1 + 1) with false by nia.
    + destruct (c0 - p0 <? 0) eqn:E1; [|destruct (c0 - p0 >? 0) eqn:E2]; zbool; [..|lia].
      * by replace (c0 * 2 ^ 32 + c1 <? p0 * 2 ^ 32 + p1) with true by nia.
      * replace (c0 * 2 ^ 32 + c1 <? p0 * 2 ^ 32 + p1) with false by nia.
        by replace (c0 * 2 ^ 32 + c1 >=? p0 * 2 ^ 32 + p1 + 1) with true by nia.
Qed.

(** Pairs as keys. *)
Lemma pair_key_inj a b p q : 0 <= b < 2 ^ 31 -> 0 <= q < 2 ^ 31 -> a * 2 ^ 32 + b = p * 2 ^ 32 + q -> a = p /\ b = q.
Proof. intros. assert (a = p) as -> by nia. lia. Qed.

Lemma compose_pair_spec c0 c1 :
  0 <= c0 < 2 ^ 31 -> 0 <= c1 < 2 ^ 31 ->
  (exists ch idx1, idx1 ∈ unicode_comp_table /\ comp_entry idx1 = Some (ch, [c0; c1]) /\ 0 < ch < 0x40000 /\
     unicode_decomp_char ch false = Some [c0; c1] /\ unicode_compose_pair c0 c1 = Some ch) \/
  ((forall idx1 ch, idx1 ∈ unicode_comp_table -> comp_entry idx1 <> Some (ch, [c0; c1])) /\
   unicode_compose_pair c0 c1 = Some 0).
Proof.
  intros Hc0 Hc1. rewrite compose_pair_lookup by done. unfold comp_find.
  pose proof (find_run_spec unicode_comp_table comp_key (fun _ => 1) (c0 * 2 ^ 32 + c1)) as Hr.
  destruct (find_run _ _ _ _) as [[i idx1]|].
  - left. destruct Hr as [Hv Hkey].
    assert (idx1 ∈ unicode_comp_table) as Hin
      by (pose proof (rd_Some_range _ _ _ Hv); rewrite rd_lookup in Hv by lia; by eapply list_elem_of_lookup_2).
    destruct (comp_entry_facts idx1 Hin) as (ch & p0 & p1 & He & Hp0 & Hp1 & Hch & Hk & Hd).
    unfold run_last in Hkey. rewrite Hk in Hkey.
    destruct (pair_key_inj c0 c1 p0 p1 Hc1 Hp1 ltac:(lia)) as [<- <-].
    exists ch, idx1. split; [done|]. split; [done|]. split; [done|]. split; [done|]. by rewrite He.
  - right. split; [|done]. intros idx1 ch Hin He.
    destruct (comp_entry_facts idx1 Hin) as (ch' & p0 & p1 & He' & _ & _ & _ & Hk & _). rewrite He in He'. simplify_eq.
    apply list_elem_of_lookup in Hin as [k Hk'].
    apply (Hr (Z.of_nat k) idx1); [rewrite rd_lookup, Nat2Z.id by lia; done|]. unfold run_last. rewrite Hk. lia.
Qed.
