(* ===== verification/UnicodeNormalize.v ===== *)
(** * The normalization forms (libunicode.c, [unicode_normalize])

    The buffer is filled through the dynamic buffer as 32-bit integers, then
    sorted and recombined in place.  [src] is the input array; the result is
    the return value and the array stored through [pdst] ([NULL] is the empty
    list). *)

From S2P Require Import Prelude CArray CBytes CStr DynBuf RunTable UnicodeTables UnicodeCase UnicodeProp UnicodeNormTables UnicodeNorm.
Open Scope Z_scope.

Definition UNICODE_NFC : Z := 0.
Definition UNICODE_NFD : Z := 1.
Definition UNICODE_NFKC : Z := 2.
Definition UNICODE_NFKD : Z := 3.

(** The search for the starter: its position (-1 when there is none), or
    [None] when the character is blocked. *)
Definition starter_body (buf : list Z) (st : Z * Z) : option ((Z * Z) + option Z) :=
  let '(starter_pos, last_cc) := st in
  if starter_pos >=? 0 then
    x ← rd buf starter_pos; cc ← unicode_get_cc x;
    if cc =? 0 then Some (inr (Some starter_pos))
    else if cc >=? last_cc then Some (inr None)
    else Some (inl (starter_pos - 1, 256))
  else Some (inr (Some starter_pos)).

(** [compose_pair] with the starter, or 0. *)
Definition try_compose (buf : list Z) (r : option Z) (c : Z) : option Z :=
  match r with
  | Some starter_pos => if starter_pos >=? 0 then s ← rd buf starter_pos; compose_pair s c else Some 0
  | None => Some 0
  end.

Definition compose_loop_body (buf_len : Z) (st : list Z * Z * Z) : option ((list Z * Z * Z) + (list Z * Z)) :=
  let '(buf, i, out_len) := st in
  if i <? buf_len then
    c ← rd buf i; last_cc ← unicode_get_cc c;
    r ← loop (Z.to_nat out_len + 1) (starter_body buf) (out_len - 1, last_cc);
    p ← try_compose buf r c;
    if negb (p =? 0) then
      buf ← wr buf (default (-1) r) p; Some (inl (buf, i + 1, out_len))
    else
      buf ← wr buf out_len c; Some (inl (buf, i + 1, out_len + 1))
  else Some (inr (buf, out_len)).

(** The [int]s stored in a byte buffer. *)
Fixpoint ints_of (fuel : nat) (bytes : list Z) : list Z :=
  match fuel with
  | O => []
  | S fuel => s32 (le_val (take 4 bytes)) :: ints_of fuel (drop 4 bytes)
  end.

Section ops.
Context (realloc_func : realloc_t).

(** Everything after the test of the common case. *)
Definition normalize_slow (dbuf : dynbuf) (src : list Z) (n_type : Z) : option (Z * list Z) :=
  let is_compat := negb (Z.shiftr n_type 1 =? 0) in
  dbuf ← to_nfd_rec realloc_func 4 is_compat dbuf src;
  if dbuf_error dbuf then Some (-1, []) else
  let buf_len := s32 (size dbuf / 4) in
  let buf := ints_of (Z.to_nat buf_len) (buf dbuf) in
  buf ← sort_cc buf buf_len;
  if (buf_len <=? 1) || negb (Z.land n_type 1 =? 0) then Some (buf_len, buf) else
  '(buf, out_len) ← loop (Z.to_nat buf_len + 1) (compose_loop_body buf_len) (buf, 1, 1);
  Some (out_len, take (Z.to_nat out_len) buf).

Definition unicode_normalize (src : list Z) (n_type : Z) : option (Z * list Z) :=
  let '(r, dbuf) := dbuf_realloc realloc_func dbuf_init2 (4 * zlen src) in
  if negb (r =? 0) then Some (-1, []) else
  if (n_type =? UNICODE_NFC) && forallb (fun c => c <? 0x100) src then Some (zlen src, src)
  else normalize_slow dbuf src n_type.
End ops.

(** ** Filling the buffer *)

Section fill.
Context (realloc_func : realloc_t).

Lemma put_codes_app d a b :
  put_codes realloc_func d (a ++ b) = (d ← put_codes realloc_func d a; put_codes realloc_func d b).
Proof.
  revert d. induction a as [|c a IH]; intros d; [done|]. cbn [put_codes app].
  destruct (put_code realloc_func d c); [|done]. cbn [mbind option_bind]. apply IH.
Qed.

Lemma foldl_None {A B} (f : option A -> B -> option A) l : (forall b, f None b = None) -> foldl f None l = None.
Proof. intros Hf. induction l as [|b l IH]; [done|]. simpl. by rewrite Hf. Qed.

(** The recursion writes the expansion, in order. *)
Lemma to_nfd_expand f u d src out :
  expand u f src = Some out -> to_nfd_rec realloc_func f u d src = put_codes realloc_func d out.
Proof.
  revert d src out. induction f as [|f IH]; intros d src out Hex; [done|]. cbn [to_nfd_rec].
  revert d out Hex. induction src as [|c src IHs]; intros d out Hex; [by rewrite expand_nil in Hex; simplify_eq|].
  rewrite expand_cons in Hex. destruct (expand u (S f) [c]) as [o|] eqn:Ho; [|done].
  destruct (expand u (S f) src) as [rest|] eqn:Hrest; [|done]. cbn [mbind option_bind] in Hex. simplify_eq.
  cbn [foldl]. rewrite put_codes_app.
  assert ((if is_hangul c then put_codes realloc_func d (hangul_decomp c)
           else res ← unicode_decomp_char c u;
                match res with [] => put_code realloc_func d c | _ => to_nfd_rec realloc_func f u d res end)
          = put_codes realloc_func d o) as Hc.
  { unfold expand in Ho. cbn [expand_with foldr] in Ho. destruct (is_hangul c).
    - cbn [mbind option_bind] in Ho. rewrite app_nil_r in Ho. by simplify_eq.
    - destruct (unicode_decomp_char c u) as [[|x res]|]; [| |done]; cbn [mbind option_bind] in *.
      + simplify_eq. cbn [put_codes app]. by destruct (put_code realloc_func d c).
      + fold (expand u f) in Ho. destruct (expand u f (x :: res)) as [o'|] eqn:Hr; [|done].
        cbn [mbind option_bind] in Ho. rewrite app_nil_r in Ho. simplify_eq. by apply IH. }
  cbn [mbind option_bind]. rewrite Hc. destruct (put_codes realloc_func d o) as [d'|].
  - cbn [mbind option_bind]. by apply IHs.
  - by apply foldl_None.
Qed.

Lemma put_codes_puts d l : put_codes realloc_func d l = dbuf_puts realloc_func d (le_bytes 4 <$> l).
Proof.
  revert d. induction l as [|c l IH]; intros d; [done|]. cbn [put_codes fmap list_fmap dbuf_puts].
  unfold put_code, dbuf_put_u32. destruct (dbuf_put realloc_func d (le_bytes 4 c)) as [[r d']|]; [|done].
  cbn [mbind option_bind]. apply IH.
Qed.
End fill.

Lemma zlen_words l : zlen (concat (le_bytes 4 <$> l)) = 4 * zlen l.
Proof.
  induction l as [|c l IH]; [done|]. rewrite fmap_cons. cbn [concat]. rewrite zlen_app, IH, zlen_cons.
  change (zlen (le_bytes 4 c)) with 4. lia.
Qed.

Lemma ints_of_words l rest :
  Forall (fun c => 0 <= c < 2 ^ 31) l -> ints_of (length l) (concat (le_bytes 4 <$> l) ++ rest) = l.
Proof.
  induction 1 as [|c l Hc _ IH]; [done|]. cbn [fmap list_fmap concat length ints_of]. rewrite <- app_assoc.
  assert (length (le_bytes 4 c) = 4%nat) as H4 by apply length_le_bytes.
  rewrite <- H4 at 1. rewrite take_app_length. rewrite <- H4 at 2. rewrite drop_app_length.
  f_equal; [|exact IH]. rewrite le_val_bytes. change (256 ^ Z.of_nat 4) with (2 ^ 32).
  rewrite Z.mod_small by lia. apply swrap_id; [lia|]. unfold in_s. lia.
Qed.

(** ** Recomposition, as a function on lists *)

Definition compose_one (out : list Z) (c : Z) : option (list Z) :=
  last_cc ← unicode_get_cc c;
  r ← loop (length out + 1) (starter_body out) (zlen out - 1, last_cc);
  p ← try_compose out r c;
  Some (if negb (p =? 0) then upd out (default (-1) r) p else out ++ [c]).

Definition compose_all (out rest : list Z) : option (list Z) :=
  foldl (fun acc c => out ← acc; compose_one out c) (Some out) rest.

Definition code_range (c : Z) : Prop := 0 <= c < 2 ^ 31.

(** The starter search only looks at the output. *)
Lemma starter_spec out cc :
  Forall code_range out ->
  wp (loop (length out + 1) (starter_body out) (zlen out - 1, cc)) (fun r =>
    match r with Some sp => -1 <= sp < zlen out | None => True end).
Proof.
  intros Hok. apply (wp_loop (fun '(sp, _) => -1 <= sp < zlen out) (fun '(sp, _) => Z.to_nat (sp + 1))).
  - pose proof (zlen_nonneg out). lia.
  - unfold zlen. lia.
  - intros [sp last] Hsp. unfold starter_body. wp_step; [|wp_step; lia].
    destruct (rd_is_Some out sp ltac:(lia)) as [x Hx]. rewrite Hx. cbn [mbind option_bind].
    assert (0 <= x) as Hx0 by (rewrite rd_lookup in Hx by lia; apply (Forall_lookup_1 _ _ _ _ Hok) in Hx; apply Hx).
    destruct (get_cc_spec x Hx0) as [-> _]. cbn [mbind option_bind]. repeat wp_step; try done; lia.
Qed.

Lemma starter_prefix buf out fuel sp cc :
  (forall q, 0 <= q <= sp -> rd buf q = rd out q) ->
  loop fuel (starter_body buf) (sp, cc) = loop fuel (starter_body out) (sp, cc).
Proof.
  revert sp cc. induction fuel as [|fuel IH]; intros sp cc Hpre; [done|]. cbn [loop]. unfold starter_body at 1 3.
  destruct (sp >=? 0) eqn:E; [|done]. zbool. rewrite Hpre by lia.
  destruct (rd out sp) as [x|]; [|done]. cbn [mbind option_bind].
  destruct (unicode_get_cc x) as [k|]; [|done]. cbn [mbind option_bind].
  destruct (k =? 0); [done|]. destruct (k >=? cc); [done|]. apply IH. intros. apply Hpre. lia.
Qed.

Lemma compose_pair_range a b : code_range a -> code_range b -> exists p, compose_pair a b = Some p /\ 0 <= p < 2 ^ 31.
Proof.
  unfold code_range. intros Ha Hb. unfold compose_pair.
  destruct ((a >=? 4352) && _ && _ && _) eqn:E1; [zbool; eexists; split; [done|lia]|].
  clear E1. destruct ((a >=? 44032) && _ && _ && _ && _) eqn:E2; [zbool; eexists; split; [done|lia]|]. clear E2.
  destruct (compose_pair_spec a b Ha Hb) as [(ch & _ & _ & _ & ? & _ & ->)|[_ ->]]; eexists; (split; [done|]); lia.
Qed.

(** The search and the attempt to compose are defined; a composition is with a
    starter of the output. *)
Lemma try_spec out c :
  Forall code_range out -> code_range c ->
  exists r p, loop (length out + 1) (starter_body out) (zlen out - 1, cc_of c) = Some r /\
    try_compose out r c = Some p /\ code_range p /\ (p <> 0 -> exists sp, r = Some sp /\ 0 <= sp < zlen out).
Proof.
  intros Hok Hc. pose proof (starter_spec out (cc_of c) Hok) as Hwp. apply wp_exists in Hwp as (r & -> & Hr).
  exists r. unfold try_compose. destruct r as [sp|]; [|by exists 0].
  destruct (sp >=? 0) eqn:E; [|by exists 0]. zbool.
  destruct (rd_is_Some out sp ltac:(lia)) as [x Hx]. rewrite Hx. cbn [mbind option_bind].
  destruct (compose_pair_range x c) as (p & -> & Hp); [|done|].
  - rewrite rd_lookup in Hx by lia. by apply (Forall_lookup_1 _ _ _ _ Hok) in Hx.
  - exists p. split; [done|]. split; [done|]. split; [done|]. intros _. exists sp. split; [done|lia].
Qed.

(** The state of the recombination loop: the output is a prefix of the buffer
    that never overtakes the unread input. *)
Definition compose_inv (n : Z) (buf : list Z) (i : Z) (out rest : list Z) : Prop :=
  Forall code_range out /\ Forall code_range rest /\ zlen buf = n /\ 0 < zlen out <= i /\ i + zlen rest = n /\
  zslice buf 0 (zlen out) = out /\ (forall q, 0 <= q -> rd buf (i + q) = rd rest q).

Lemma compose_inv_snoc n buf i out c rest :
  compose_inv n buf i out (c :: rest) -> compose_inv n (upd buf (zlen out) c) (i + 1) (out ++ [c]) rest.
Proof.
  intros (Hout & Hrest & Hz & Hol & Hn & Hpre & Hrd). apply Forall_cons in Hrest as [Hc Hrest].
  rewrite zlen_cons in Hn. pose proof (zlen_nonneg rest).
  repeat apply conj; try done; rewrite ?zlen_app, ?zlen_upd; change (zlen [c]) with 1; try lia.
  - apply Forall_app. split; [done|]. by apply Forall_singleton.
  - rewrite (zslice_snoc _ _ _ c) by (lia || (apply rd_upd_eq; lia)). f_equal. rewrite <- Hpre at 3.
    apply list_ext; rewrite !zlen_zslice by (rewrite ?zlen_upd; lia); [done|].
    intros q ?. rewrite !rd_zslice, rd_upd_ne by (rewrite ?zlen_upd; lia). done.
  - intros q Hq'. rewrite rd_upd_ne by lia. replace (i + 1 + q) with (i + (q + 1)) by lia.
    rewrite Hrd by lia. rewrite rd_cons_pos by lia. f_equal. lia.
Qed.

Lemma compose_inv_upd n buf i out c rest sp p : 0 <= sp < zlen out -> code_range p ->
  compose_inv n buf i out (c :: rest) -> compose_inv n (upd buf sp p) (i + 1) (upd out sp p) rest.
Proof.
  intros Hsp Hp (Hout & Hrest & Hz & Hol & Hn & Hpre & Hrd). apply Forall_cons in Hrest as [Hc Hrest].
  rewrite zlen_cons in Hn. pose proof (zlen_nonneg rest).
  repeat apply conj; try done; rewrite ?zlen_upd; try lia.
  - unfold upd. by apply Forall_insert.
  - apply list_ext; rewrite ?zlen_upd; rewrite ?zlen_zslice by (rewrite ?zlen_upd; lia); [lia|].
    intros q ?. rewrite rd_zslice, Z.add_0_l by (rewrite ?zlen_upd; lia). destruct (decide (q = sp)) as [->|].
    + rewrite !rd_upd_eq by lia. done.
    + rewrite !rd_upd_ne by lia. rewrite <- Hpre, rd_zslice by lia. done.
  - intros q Hq'. rewrite rd_upd_ne by lia. replace (i + 1 + q) with (i + (q + 1)) by lia.
    rewrite Hrd by lia. rewrite rd_cons_pos by lia. f_equal. lia.
Qed.

Lemma compose_step n buf i out c rest :
  compose_inv n buf i out (c :: rest) ->
  exists buf' out', compose_one out c = Some out' /\
    compose_loop_body n (buf, i, zlen out) = Some (inl (buf', i + 1, zlen out')) /\
    compose_inv n buf' (i + 1) out' rest.
Proof.
  intros Hinv. pose proof Hinv as (Hout & Hrest & Hz & Hol & Hn & Hpre & Hrd). apply Forall_cons in Hrest as [Hc Hrest].
  rewrite zlen_cons in Hn. pose proof (zlen_nonneg rest).
  pose proof (Hrd 0 ltac:(lia)) as H0. rewrite Z.add_0_r, rd_cons_0 in H0.
  assert (forall q, 0 <= q <= zlen out - 1 -> rd buf q = rd out q) as Hq
    by (intros q Hq; rewrite <- Hpre, rd_zslice by lia; done).
  unfold compose_loop_body, compose_one. replace (i <? n) with true by lia. rewrite H0. cbn [mbind option_bind].
  destruct (get_cc_spec c (proj1 Hc)) as [-> _]. cbn [mbind option_bind].
  replace (Z.to_nat (zlen out) + 1)%nat with (length out + 1)%nat by (unfold zlen; lia).
  rewrite (starter_prefix buf out) by done.
  destruct (try_spec out c Hout Hc) as (r & p & -> & Htry & Hp & Hsp). cbn [mbind option_bind].
  assert (try_compose buf r c = try_compose out r c) as ->.
  { unfold try_compose. destruct r as [sp|]; [|done]. destruct (sp >=? 0) eqn:E; [|done]. zbool.
    destruct (decide (sp < zlen out)); [by rewrite Hq by lia|]. unfold try_compose in Htry.
    replace (sp >=? 0) with true in Htry by lia. rewrite rd_None in Htry by lia. done. }
  rewrite Htry. cbn [mbind option_bind]. destruct (p =? 0) eqn:Ep; zbool; cbn [negb].
  - rewrite wr_upd by lia. cbn [mbind option_bind]. eexists _, _. split; [done|].
    split; [by rewrite zlen_app|]. by apply compose_inv_snoc.
  - destruct (Hsp ltac:(lia)) as (sp & -> & Hs). cbn [default from_option id].
    rewrite wr_upd by lia. cbn [mbind option_bind]. eexists _, _. split; [done|].
    split; [by rewrite zlen_upd|]. by eapply compose_inv_upd.
Qed.

(** The loop in the buffer computes [compose_all]. *)
Lemma compose_loop_gen n fuel rest out buf i :
  compose_inv n buf i out rest -> zlen rest < Z.of_nat fuel ->
  exists buf' res, compose_all out rest = Some res /\
    loop fuel (compose_loop_body n) (buf, i, zlen out) = Some (buf', zlen res) /\
    take (Z.to_nat (zlen res)) buf' = res.
Proof.
  revert rest out buf i. induction fuel as [|fuel IH]; intros rest out buf i Hinv Hf; [pose proof (zlen_nonneg rest); lia|].
  destruct rest as [|c rest].
  - destruct Hinv as (_ & _ & _ & _ & Hn & Hpre & _). change (zlen []) with 0 in Hn.
    cbn [loop]. unfold compose_loop_body at 1. replace (i <? n) with false by lia.
    exists buf, out. split; [done|]. split; [done|]. rewrite <- Hpre at 2. unfold zslice. by rewrite Z.sub_0_r.
  - rewrite zlen_cons in Hf. destruct (compose_step _ _ _ _ _ _ Hinv) as (buf' & out' & Hone & Hbody & Hinv').
    destruct (IH _ _ _ _ Hinv' ltac:(lia)) as (b & res & Hall & Hloop & Htake). exists b, res.
    cbn [loop]. rewrite Hbody. split; [|done]. unfold compose_all in *. cbn [foldl mbind option_bind]. by rewrite Hone.
Qed.

Lemma compose_loop_refines out rest :
  Forall code_range (out ++ rest) -> 0 < zlen out ->
  exists buf res, compose_all out rest = Some res /\
    loop (Z.to_nat (zlen (out ++ rest)) + 1) (compose_loop_body (zlen (out ++ rest))) (out ++ rest, zlen out, zlen out)
      = Some (buf, zlen res) /\ take (Z.to_nat (zlen res)) buf = res.
Proof.
  intros Hok Hpos. apply Forall_app in Hok as [Hok1 Hok2]. pose proof (zlen_nonneg rest).
  apply compose_loop_gen; [|rewrite zlen_app; lia].
  repeat apply conj; try done; rewrite ?zlen_app; try lia; [apply zslice_app_l|].
  intros q Hq. rewrite rd_app_r by lia. f_equal. lia.
Qed.

(** ** The canonical ordering is unique

    The code points of class 0 or [k], in order, are not affected by an
    exchange, and determine an ordered text. *)

Definition track (k : Z) (l : list Z) : list Z := filter (fun c => cc_of c = 0 \/ cc_of c = k) l.

Lemma cc_swap_track k l l' : cc_swap l l' -> track k l = track k l'.
Proof.
  intros [a b x y Hxy]. unfold track. rewrite !filter_app. f_equal. rewrite !filter_cons.
  repeat case_decide; try done; lia.
Qed.

Lemma cc_swaps_track k l l' : rtc cc_swap l l' -> track k l = track k l'.
Proof. induction 1 as [|???? _ IH]; [done|]. etransitivity; [by apply cc_swap_track|done]. Qed.

Inductive ordered : list Z -> Prop :=
  | ordered_nil : ordered []
  | ordered_one x : ordered [x]
  | ordered_cons x y l : cc_of y = 0 \/ cc_of x <= cc_of y -> ordered (y :: l) -> ordered (x :: y :: l).

Lemma ordered_tail x l : ordered (x :: l) -> ordered l.
Proof. inversion 1; [constructor|done]. Qed.

Lemma ordered_upto_ordered l : ordered_upto l (zlen l) -> ordered l.
Proof.
  induction l as [|x [|y l] IH]; intros H; [constructor..|].
  rewrite zlen_cons in H. pose proof (zlen_nonneg (y :: l)). constructor.
  - apply (H 0); [lia|rewrite zlen_cons; pose proof (zlen_nonneg l); lia|done|done].
  - apply IH. intros q Hq Hn u v Hu Hv. apply (H (q + 1) ltac:(lia) ltac:(lia)); rewrite rd_cons_pos by lia.
    + by replace (q + 1 - 1) with q by lia.
    + by replace (q + 1 + 1 - 1) with (q + 1) by lia.
Qed.

(** In an ordered text, no class below the first one comes before the next
    starter. *)
Lemma ordered_track_lt k y l : ordered (y :: l) -> 0 < k < cc_of y ->
  match track k (y :: l) with [] => True | z :: _ => cc_of z = 0 end.
Proof.
  revert y. induction l as [|z l IH]; intros y Ho Hk; unfold track in *; rewrite filter_cons, decide_False by lia.
  - done.
  - inversion Ho as [| |? ? ? Hyz Ho']; subst. destruct (decide (cc_of z = 0)) as [Hz|Hz].
    + rewrite filter_cons, decide_True by lia. done.
    + apply IH; [done|lia].
Qed.

Lemma track_head x l : exists t, track (cc_of x) (x :: l) = x :: t.
Proof. unfold track. rewrite filter_cons, decide_True by lia. eauto. Qed.

Lemma track_heads_lt x y l1 l2 :
  ordered (y :: l2) -> 0 < cc_of x < cc_of y -> track (cc_of x) (x :: l1) <> track (cc_of x) (y :: l2).
Proof.
  intros Ho Hlt Heq. pose proof (ordered_track_lt _ _ _ Ho Hlt) as Hm. destruct (track_head x l1) as [t Ht].
  rewrite <- Heq, Ht in Hm. lia.
Qed.

Lemma track_heads x y l1 l2 : 0 <= x -> 0 <= y ->
  ordered (x :: l1) -> ordered (y :: l2) -> (forall k, track k (x :: l1) = track k (y :: l2)) -> x = y.
Proof.
  intros Hx Hy Ho1 Ho2 Heq. destruct (get_cc_spec x Hx) as [_ Hcx]. destruct (get_cc_spec y Hy) as [_ Hcy].
  assert (cc_of x = 0 \/ cc_of y = 0 \/ cc_of x = cc_of y \/ 0 < cc_of x < cc_of y \/ 0 < cc_of y < cc_of x)
    as [H|[H|[H|[H|H]]]] by lia.
  - specialize (Heq (cc_of y)). unfold track in Heq. rewrite !filter_cons, !decide_True in Heq by lia. congruence.
  - specialize (Heq (cc_of x)). unfold track in Heq. rewrite !filter_cons, !decide_True in Heq by lia. congruence.
  - specialize (Heq (cc_of x)). unfold track in Heq. rewrite !filter_cons, !decide_True in Heq by lia. congruence.
  - by destruct (track_heads_lt x y l1 l2 Ho2 H).
  - by destruct (track_heads_lt y x l2 l1 Ho1 H).
Qed.

Lemma ordered_unique l1 l2 : codes_ok l1 -> codes_ok l2 ->
  ordered l1 -> ordered l2 -> (forall k, track k l1 = track k l2) -> l1 = l2.
Proof.
  revert l2. induction l1 as [|x l1 IH]; intros [|y l2] Hk1 Hk2 Ho1 Ho2 Heq; [done|..].
  - destruct (track_head y l2) as [t Ht]. specialize (Heq (cc_of y)). by rewrite Ht in Heq.
  - destruct (track_head x l1) as [t Ht]. specialize (Heq (cc_of x)). by rewrite Ht in Heq.
  - apply Forall_cons in Hk1 as [? ?]. apply Forall_cons in Hk2 as [? ?].
    assert (x = y) as -> by (by eapply track_heads). f_equal.
    apply IH; try done; [by eapply ordered_tail..|]. intros k. specialize (Heq k). unfold track in *.
    rewrite !filter_cons in Heq. case_decide; congruence.
Qed.

(** ** The specification of the four forms *)

Definition is_compat (n_type : Z) : bool := negb (Z.shiftr n_type 1 =? 0).

(** The full decomposition of a text: every code point expanded, marks in the
    canonical order. *)
Definition decomposed (u : bool) (src l : list Z) : Prop :=
  exists e, expand u 4 src = Some e /\ Forall (terminal u) e /\ rtc cc_swap e l /\ ordered l.

Lemma terminals_codes u l : Forall (terminal u) l -> Forall code_range l.
Proof. intros H. eapply Forall_impl; [exact H|]. by intros c (? & _). Qed.

Lemma codes_codes_ok l : Forall code_range l -> codes_ok l.
Proof. intros H. eapply Forall_impl; [exact H|]. intros c Hc. apply Hc. Qed.

Lemma decomposed_codes u src l : decomposed u src l -> Forall (terminal u) l.
Proof. intros (e & _ & Ht & Hsw & _). by rewrite <- (cc_swaps_perm _ _ Hsw). Qed.

Lemma decomposed_unique u src l1 l2 : decomposed u src l1 -> decomposed u src l2 -> l1 = l2.
Proof.
  intros H1 H2. pose proof (decomposed_codes _ _ _ H1) as Ht1. pose proof (decomposed_codes _ _ _ H2) as Ht2.
  destruct H1 as (e & He1 & _ & Hs1 & Ho1). destruct H2 as (e' & He2 & _ & Hs2 & Ho2).
  rewrite He1 in He2. injection He2 as <-.
  apply ordered_unique; [by eapply codes_codes_ok, terminals_codes..|done|done|].
  intros k. by rewrite <- (cc_swaps_track k _ _ Hs1), <- (cc_swaps_track k _ _ Hs2).
Qed.

Lemma decomposed_idem u src l : decomposed u src l -> decomposed u l l.
Proof.
  intros H. pose proof (decomposed_codes _ _ _ H) as Ht. destruct H as (e & _ & _ & _ & Ho).
  exists l. split; [by apply expand_terminal|]. by split.
Qed.

Section spec.
Context (realloc_func : realloc_t) `{!ReallocLaws realloc_func}.

Lemma words_size e d : dbuf_ok d -> contents d = concat (le_bytes 4 <$> e) -> size d = 4 * zlen e.
Proof.
  intros Hok Hc. rewrite <- zlen_words, <- Hc. unfold contents. destruct Hok as (? & ? & ?).
  rewrite zlen_zslice by lia. lia.
Qed.

Lemma words_read e d : dbuf_ok d -> Forall code_range e -> contents d = concat (le_bytes 4 <$> e) ->
  ints_of (length e) (buf d) = e.
Proof.
  intros Hok He Hc. rewrite <- (take_drop (Z.to_nat (size d)) (buf d)).
  replace (take (Z.to_nat (size d)) (buf d)) with (contents d) by (unfold contents, zslice; by rewrite Z.sub_0_r).
  rewrite Hc. by apply ints_of_words.
Qed.

(** Filling an empty buffer with the expansion. *)
Lemma fill_spec d u src :
  dbuf_ok d -> contents d = [] -> size d = 0 -> error d = false ->
  Forall code_range src -> 18 * zlen src < 2 ^ 31 ->
  exists e d', expand u 4 src = Some e /\ Forall (terminal u) e /\ zlen e < 2 ^ 31 /\
    to_nfd_rec realloc_func 4 u d src = Some d' /\ dbuf_ok d' /\
    (error d' = true -> oom realloc_func) /\
    (error d' = false -> size d' = 4 * zlen e /\ ints_of (length e) (buf d') = e).
Proof.
  intros Hok Hc Hs He Hsrc Hlen. destruct (expand_list u src Hsrc) as (e & Hex & Ht & Hl).
  pose proof (dbuf_puts_spec realloc_func d (le_bytes 4 <$> e) Hok) as Hwp. rewrite zlen_words in Hwp.
  specialize (Hwp ltac:(lia)). apply wp_exists in Hwp as (d' & Hput & Hok' & _ & Hoom & _ & Hcont).
  exists e, d'. split; [done|]. split; [done|]. split; [lia|].
  rewrite (to_nfd_expand _ _ _ _ _ _ Hex), put_codes_puts. split; [done|]. split; [done|]. split.
  - intros H. destruct (Hoom H) as [?|?]; [congruence|done].
  - intros H. rewrite Hc in Hcont. specialize (Hcont H). rewrite app_nil_l in Hcont.
    split; [by apply words_size|]. apply words_read; [done|by eapply terminals_codes|done].
Qed.

Lemma normalize_slow_spec d src n_type :
  dbuf_ok d -> contents d = [] -> size d = 0 -> error d = false ->
  Forall code_range src -> 18 * zlen src < 2 ^ 31 ->
  (normalize_slow realloc_func d src n_type = Some (-1, []) /\ oom realloc_func) \/
  exists l out, decomposed (is_compat n_type) src l /\
    normalize_slow realloc_func d src n_type = Some (zlen out, out) /\
    (if (zlen l <=? 1) || negb (Z.land n_type 1 =? 0) then out = l
     else compose_all (take 1 l) (drop 1 l) = Some out).
Proof.
  intros Hok Hc Hs He Hsrc Hlen.
  destruct (fill_spec d (is_compat n_type) src Hok Hc Hs He Hsrc Hlen) as (e & d' & Hex & Ht & Hl & Hrec & Hok' & Hoom & Hread).
  unfold normalize_slow. fold (is_compat n_type). rewrite Hrec. cbn [mbind option_bind]. unfold dbuf_error.
  destruct (error d') eqn:Herr; [left; by split; [|apply Hoom]|right].
  destruct (Hread eq_refl) as [Hsz Hints].
  assert (size d' / 4 = zlen e) as Hdiv by (rewrite Hsz, Z.mul_comm; by apply Z.div_mul).
  assert (s32 (size d' / 4) = zlen e) as Hbl.
  { rewrite Hdiv. apply swrap_id; [lia|]. unfold in_s. pose proof (zlen_nonneg e). lia. }
  rewrite !Hbl. replace (Z.to_nat (zlen e)) with (length e) by (unfold zlen; lia). rewrite Hints.
  pose proof (sort_cc_spec e (codes_codes_ok _ (terminals_codes _ _ Ht))) as Hwp.
  apply wp_exists in Hwp as (l & -> & Hsw & Ho). cbn [mbind option_bind]. apply ordered_upto_ordered in Ho.
  assert (decomposed (is_compat n_type) src l) as Hdec by (by exists e).
  rewrite <- (cc_swaps_zlen _ _ Hsw). exists l.
  destruct ((zlen l <=? 1) || _) eqn:Hsel; [by exists l|]. apply orb_false_iff in Hsel as [Hsel _]. zbool.
  destruct l as [|x l]; [by change (zlen []) with 0 in Hsel|].
  pose proof (terminals_codes _ _ (decomposed_codes _ _ _ Hdec)) as Hcl.
  destruct (compose_loop_refines [x] l Hcl ltac:(done)) as (b & res & Hall & Hloop & Htake).
  cbn [app] in Hloop. change (zlen [x]) with 1 in Hloop. exists res.
  replace (length e) with (Z.to_nat (zlen (x :: l))) by (rewrite (cc_swaps_zlen _ _ Hsw); unfold zlen; lia).
  rewrite Hloop. cbn [mbind option_bind]. rewrite Htake. by split_and!.
Qed.
End spec.
