(* ===== verification/UnicodeForms.v ===== *)
(** * Correctness of the normalization forms

    Recomposition keeps the text canonically equivalent to its decomposition,
    the latin1 shortcut of [unicode_normalize] agrees with the general path,
    and the results of the four forms are characterised. *)

From S2P Require Import Prelude CArray CBytes CStr DynBuf RunTable UnicodeTables UnicodeCase UnicodeProp UnicodeNormTables UnicodeNorm UnicodeNormalize.
Open Scope Z_scope.

(** ** Code points of class 0 *)

Definition cc_zero_in (runs : list (Z * (Z * Z))) (c : Z) : bool :=
  match run_lookup 0 runs c with Some (e, _) => e.1 =? 2 | None => true end.

Lemma cc_zero_in_spec c : cc_zero_in (decode_cc unicode_cc_table) c = true -> cc_of c = 0.
Proof.
  unfold cc_zero_in, cc_of, cc_of_runs. destruct (c <? _); [|done].
  destruct (run_lookup _ _ _) as [[[t v] o]|]; [|done]. cbn [fst]. intros H. zbool. subst t. done.
Qed.

(** Every run that meets [lo, hi) has class 0. *)
Fixpoint zero_between (lo hi code : Z) (runs : list (Z * (Z * Z))) : bool :=
  match runs with
  | [] => true
  | (n, e) :: runs => ((code + n <=? lo) || (hi <=? code) || (e.1 =? 2)) && zero_between lo hi (code + n) runs
  end.

Lemma zero_between_spec lo hi code runs c e o :
  zero_between lo hi code runs = true -> code <= c -> lo <= c < hi -> run_lookup code runs c = Some (e, o) -> e.1 = 2.
Proof.
  revert code. induction runs as [|[n r] runs IH]; intros code Hz Hcode Hc He; [done|]. cbn [zero_between run_lookup] in *.
  apply andb_true_iff in Hz as [Hz Hr]. destruct (c <? code + n) eqn:E; [apply Z.ltb_lt in E|apply Z.ltb_ge in E].
  - simplify_eq. zbool; try lia; done.
  - apply (IH (code + n)); (done || lia).
Qed.

Lemma zero_between_cc lo hi c :
  zero_between lo hi 0 (decode_cc unicode_cc_table) = true -> 0 <= lo <= c -> c < hi -> cc_of c = 0.
Proof.
  intros Hz Hc Hhi. apply cc_zero_in_spec. unfold cc_zero_in. destruct (run_lookup _ _ _) as [[e o]|] eqn:He; [|done].
  apply Z.eqb_eq, (zero_between_spec lo hi 0 _ c e o Hz ltac:(lia) ltac:(lia) He).
Qed.

Lemma zero_hangul : zero_between 0xac00 0xd7a4 0 (decode_cc unicode_cc_table) = true.
Proof. vm_cast_no_check (@eq_refl bool true). Qed.

Lemma zero_latin : zero_between 0 0x300 0 (decode_cc unicode_cc_table) = true.
Proof. vm_cast_no_check (@eq_refl bool true). Qed.

(** The composites of the table are starters (but U+0344, whose first element
    is a mark), and their second element is not a latin letter. *)
Lemma comp_check_starter :
  (let runs := decode_cc unicode_cc_table in
   forallb (fun idx1 => match comp_entry idx1 with
                        | Some (ch, [p0; p1]) => negb (is_hangul ch) && (cc_zero_in runs ch || (p0 =? 0x308)) && (0x300 <=? p1)
                        | _ => false
                        end) unicode_comp_table) = true.
Proof. vm_cast_no_check (@eq_refl bool true). Qed.

Lemma cc_diaeresis : cc_of 0x308 = 230.
Proof. vm_compute. reflexivity. Qed.

Lemma comp_starter idx1 ch p0 p1 :
  idx1 ∈ unicode_comp_table -> comp_entry idx1 = Some (ch, [p0; p1]) -> 
  is_hangul ch = false /\ (cc_of p0 = 0 -> cc_of ch = 0) /\ 0x300 <= p1.
Proof.
  intros Hin He. pose proof comp_check_starter as Hk. cbv zeta in Hk. rewrite forallb_forall in Hk.
  apply list_elem_of_In, Hk in Hin. rewrite He in Hin. apply andb_true_iff in Hin as [Hin H3].
  apply andb_true_iff in Hin as [H1 H2]. apply negb_true_iff in H1. apply Z.leb_le in H3.
  split; [done|]. split; [|done]. intros H0. apply orb_true_iff in H2 as [H2|H2]; [by apply cc_zero_in_spec|].
  apply Z.eqb_eq in H2. subst p0. by rewrite cc_diaeresis in H0.
Qed.

(** ** Expansion of a composite *)

Lemma expand_unfold_one u f c : is_hangul c = false ->
  expand u (S f) [c] = (res ← unicode_decomp_char c u; match res with [] => Some [c] | _ => expand u f res end).
Proof.
  intros Hh. unfold expand. cbn [expand_with foldr]. rewrite Hh.
  destruct (unicode_decomp_char c u) as [[|x r]|]; [done| |done]. cbn [mbind option_bind].
  destruct (expand_with _ f (x :: r)); cbn [mbind option_bind]; [by rewrite app_nil_r|done].
Qed.

Lemma expand_app u f a b oa ob : expand u (S f) a = Some oa -> expand u (S f) b = Some ob ->
  expand u (S f) (a ++ b) = Some (oa ++ ob).
Proof.
  revert oa. induction a as [|c a IH]; intros oa Ha Hb; [rewrite expand_nil in Ha; by simplify_eq|].
  rewrite expand_cons in Ha. cbn [app]. rewrite expand_cons. destruct (expand u (S f) [c]) as [o|]; [|done].
  destruct (expand u (S f) a) as [oa'|]; [|done]. cbn [mbind option_bind] in *. simplify_eq.
  rewrite (IH _ eq_refl Hb). cbn [mbind option_bind]. by rewrite app_assoc.
Qed.

Lemma expand_mono u f src out : expand u f src = Some out -> expand u (S f) src = Some out.
Proof.
  revert src out. induction f as [|f IH]; intros src out Hex; [done|].
  revert out Hex. induction src as [|c src IHs]; intros out Hex; [done|].
  rewrite expand_cons in Hex |- *. destruct (expand u (S f) [c]) as [o|] eqn:Ho; [|done].
  destruct (expand u (S f) src) as [r|] eqn:Hr; [|done]. rewrite (IHs _ eq_refl).
  enough (expand u (S (S f)) [c] = Some o) as -> by done.
  destruct (is_hangul c) eqn:Hh; [unfold expand in *; cbn [expand_with foldr] in *; by rewrite Hh in *|].
  rewrite expand_unfold_one in Ho |- * by done. destruct (unicode_decomp_char c u) as [[|x l]|]; [done| |done].
  cbn [mbind option_bind] in *. by apply IH.
Qed.

Lemma decomp_canonical u c x l : unicode_decomp_char c false = Some (x :: l) -> unicode_decomp_char c u = Some (x :: l).
Proof.
  destruct u; [|done]. rewrite !decomp_char_lookup. destruct (decomp_run c) as [[idx v]|]; [|done].
  destruct (Zb false <? Z.land v 1) eqn:E0; [done|]. simpl in E0. zbool.
  by replace (Zb true <? Z.land v 1) with false by (simpl; lia).
Qed.

Lemma expand_hangul u f c : is_hangul c = true -> expand u (S f) [c] = Some (hangul_decomp c).
Proof. intros Hh. unfold expand. cbn [expand_with foldr]. rewrite Hh. cbn [mbind option_bind]. by rewrite app_nil_r. Qed.

Lemma hangul_LV l v : 0 <= l < 19 -> 0 <= v < 21 ->
  hangul_decomp (0xac00 + l * 588 + v * 28) = [0x1100 + l; 0x1161 + v].
Proof.
  intros. unfold hangul_decomp. replace (0xac00 + l * 588 + v * 28 - 0xac00) with (l * 588 + v * 28) by lia.
  replace ((l * 588 + v * 28) / 588) with l by (Z.div_mod_to_equations; lia). replace ((l * 588 + v * 28) mod 588) with (v * 28) by (Z.div_mod_to_equations; lia).
  rewrite Z.div_mul by lia. by replace ((l * 588 + v * 28) mod 28) with 0 by (Z.div_mod_to_equations; lia).
Qed.

Lemma hangul_LVT lv t : 0 <= lv < 11172 -> lv mod 28 = 0 -> 0 < t < 28 ->
  hangul_decomp (0xac00 + lv + t) = hangul_decomp (0xac00 + lv) ++ [0x11a7 + t].
Proof.
  intros Hlv H28 Ht. unfold hangul_decomp. replace (0xac00 + lv + t - 0xac00) with (lv + t) by lia.
  replace (0xac00 + lv - 0xac00) with lv by lia. rewrite H28.
  assert (exists m, lv = 28 * m) as [m ->] by (exists (lv / 28); Z.div_mod_to_equations; lia).
  replace ((28 * m + t) / 588) with (28 * m / 588) by (Z.div_mod_to_equations; lia).
  replace ((28 * m + t) mod 588 / 28) with ((28 * m) mod 588 / 28) by (Z.div_mod_to_equations; lia).
  replace ((28 * m + t) mod 28) with t by (Z.div_mod_to_equations; lia). by replace (t =? 0) with false by lia.
Qed.

(** A composition with a starter is undone by the decomposition. *)
Lemma compose_pair_expand u s c p :
  code_range s -> cc_of s = 0 -> terminal u c -> c <> 0x11a7 -> compose_pair s c = Some p -> p <> 0 ->
  cc_of p = 0 /\ exists o, expand u 4 [s] = Some o /\ expand u 4 [p] = Some (o ++ [c]).
Proof.
  intros Hs Hss Hc Hne Hcp Hp. unfold compose_pair in Hcp.
  destruct ((s >=? 4352) && _ && _ && _) eqn:E1.
  { zbool. injection Hcp as <-. split; [apply (zero_between_cc 0xac00 0xd7a4); [exact zero_hangul|lia|lia]|].
    exists [s]. rewrite expand_terminal, expand_hangul.
    - rewrite hangul_LV by lia. split; [done|]. cbn [app]. apply (f_equal Some). f_equal; [lia|]. f_equal. lia.
    - unfold is_hangul. lia.
    - apply Forall_singleton, jamo_terminal. unfold jamos. rewrite !elem_of_app, !elem_of_seqZ. lia. }
  clear E1. destruct ((s >=? 44032) && _ && _ && _ && _) eqn:E2.
  { zbool. assert (s - 0xac00 <= 11144) by (Z.div_mod_to_equations; lia). injection Hcp as <-. split; [apply (zero_between_cc 0xac00 0xd7a4); [exact zero_hangul|lia|lia]|].
    exists (hangul_decomp s). rewrite !expand_hangul by (unfold is_hangul; lia). split; [done|].
    replace (s + c - 4519) with (0xac00 + (s - 0xac00) + (c - 4519)) by lia.
    rewrite hangul_LVT by lia. repeat f_equal; lia. }
  clear E2. destruct Hc as (Hc & Hch & Hcd).
  destruct (compose_pair_spec s c Hs Hc) as [(ch & idx1 & Hin & He & Hchr & Hd & Hu)|[_ Hu]]; [|congruence].
  rewrite Hu in Hcp. injection Hcp as <-. destruct (comp_starter _ _ _ _ Hin He) as (Hh & Hz & _). split; [by apply Hz|].
  destruct (expand_one u ch ltac:(lia)) as (o & Ho & _). destruct (expand_one u s Hs) as (os & Hos & _).
  exists os. split; [done|]. rewrite Ho. rewrite expand_unfold_one in Ho by done.
  rewrite (decomp_canonical u _ _ _ Hd) in Ho. cbn [mbind option_bind] in Ho. apply expand_mono in Ho.
  change [s; c] with ([s] ++ [c]) in Ho. rewrite (expand_app u 3 [s] [c] os [c] Hos) in Ho; [congruence|].
  apply expand_terminal, Forall_singleton. exact (conj Hc (conj Hch Hcd)).
Qed.

(** ** Primary composites

    What recomposition may produce, from the definition of the normalization
    forms (Unicode Standard Annex 15) and not from the code: Hangul syllables,
    and code points whose canonical decomposition is the pair, but for those of
    CompositionExclusions.txt. *)

Definition composition_exclusions : list Z :=
  seqZ 0x958 8 ++ [0x9dc; 0x9dd; 0x9df; 0xa33; 0xa36] ++ seqZ 0xa59 3 ++ [0xa5e; 0xb5c; 0xb5d;
   0xf43; 0xf4d; 0xf52; 0xf57; 0xf5c; 0xf69; 0xf76; 0xf78; 0xf93; 0xf9d; 0xfa2; 0xfa7; 0xfac; 0xfb9; 0x2adc; 0xfb1d; 0xfb1f] ++
  seqZ 0xfb2a 13 ++ seqZ 0xfb38 5 ++ [0xfb3e; 0xfb40; 0xfb41; 0xfb43; 0xfb44] ++ seqZ 0xfb46 9 ++ seqZ 0x1d15e 7 ++ seqZ 0x1d1bb 6.

Inductive primary_composite (s c : Z) : Z -> Prop :=
  | composite_LV l v : s = 0x1100 + l -> c = 0x1161 + v -> 0 <= l < 19 -> 0 <= v < 21 ->
      primary_composite s c (0xac00 + (l * 21 + v) * 28)
  | composite_LVT lv t : s = 0xac00 + lv * 28 -> c = 0x11a7 + t -> 0 <= lv < 399 -> 0 < t < 28 ->
      primary_composite s c (0xac00 + lv * 28 + t)
  | composite_pair p : unicode_decomp_char p false = Some [s; c] -> p ∉ composition_exclusions -> primary_composite s c p.

(** The code points with a canonical entry in the decomposition table. *)
Definition canonical_points : list Z :=
  flat_map (fun v => if Z.land v 1 =? 0 then seqZ (decomp_code v) (decomp_len v) else []) unicode_decomp_table1.

Lemma canonical_points_in p x l : unicode_decomp_char p false = Some (x :: l) -> p ∈ canonical_points.
Proof.
  rewrite decomp_char_lookup. unfold decomp_run. pose proof (find_run_spec unicode_decomp_table1 decomp_code decomp_len p) as Hr.
  destruct (find_run _ _ _ _) as [[idx v]|]; [|done]. destruct Hr as [Hv Hp]. destruct (Zb false <? Z.land v 1) eqn:E; [done|]. intros _.
  unfold canonical_points. apply list_elem_of_In, in_flat_map. exists v. split.
  - pose proof (rd_Some_range _ _ _ Hv). rewrite rd_lookup in Hv by lia. by eapply list_elem_of_In, list_elem_of_lookup_2.
  - cbn [Zb] in E. zbool. pose proof (proj2 (Z.land_nonneg v 1) ltac:(right; lia)). replace (Z.land v 1 =? 0) with true by lia.
    apply list_elem_of_In, elem_of_seqZ. unfold run_last in Hp. lia.
Qed.

(** The composition table holds all pairs but the excluded ones. *)
Lemma composites_check :
  (let excl := composition_exclusions in
   forallb (fun p => match unicode_decomp_char p false with
                     | Some [a; b] => existsb (Z.eqb p) excl || ((0 <? p) && bool_decide (compose_pair a b = Some p))
                     | _ => true
                     end) canonical_points &&
   forallb (fun idx1 => match comp_entry idx1 with Some (ch, _) => negb (existsb (Z.eqb ch) excl) | None => false end)
     unicode_comp_table) = true.
Proof. vm_cast_no_check (@eq_refl bool true). Qed.

Lemma existsb_elem p (l : list Z) : existsb (Z.eqb p) l = true <-> p ∈ l.
Proof.
  rewrite existsb_exists. split; [intros (x & Hx & E); zbool; subst; by apply list_elem_of_In|].
  intros Hp. exists p. split; [by apply list_elem_of_In|apply Z.eqb_refl].
Qed.

Lemma pair_composite s c p : unicode_decomp_char p false = Some [s; c] -> p ∉ composition_exclusions ->
  compose_pair s c = Some p /\ 0 < p.
Proof.
  intros Hd Hex. pose proof composites_check as Hk. cbv zeta in Hk. apply andb_true_iff in Hk as [Hk _]. rewrite forallb_forall in Hk.
  pose proof (canonical_points_in _ _ _ Hd) as Hin. apply list_elem_of_In, Hk in Hin. rewrite Hd in Hin.
  apply orb_true_iff in Hin as [Hin|Hin]; [by apply existsb_elem in Hin|]. apply andb_true_iff in Hin as [Hp Hin].
  apply bool_decide_eq_true in Hin. zbool. split; [done|lia].
Qed.

(** [compose_pair] composes the primary composites and nothing else, but for
    U+11A7. *)
Lemma primary_composite_iff s c p : code_range s -> code_range c -> c <> 0x11a7 ->
  (primary_composite s c p <-> compose_pair s c = Some p /\ p <> 0).
Proof.
  intros Hs Hc Hne. split.
  - intros [l v -> -> Hl Hv|lv t -> -> Hlv Ht|p' Hd Hex]; [| |destruct (pair_composite _ _ _ Hd Hex); split; [done|lia]]; unfold compose_pair.
    + replace (_ && _ && _ && _) with true by lia. split; [f_equal; lia|lia].
    + replace (_ && _ && _ && _) with false by lia. replace (0xac00 + lv * 28 - 0xac00) with (lv * 28) by lia. rewrite Z.mod_mul by lia.
      replace (_ && _ && _ && _ && _) with true by lia. split; [f_equal; lia|lia].
  - intros [Hcp Hp]. unfold compose_pair in Hcp. destruct ((s >=? 4352) && _ && _ && _) eqn:E1.
    { zbool. injection Hcp as <-. replace (44032 + (s - 4352) * 588 + (c - 4449) * 28) with (0xac00 + ((s - 0x1100) * 21 + (c - 0x1161)) * 28) by lia.
      apply composite_LV; lia. }
    clear E1. destruct ((s >=? 44032) && _ && _ && _ && _) eqn:E2.
    { zbool. injection Hcp as <-. assert (s - 44032 = (s - 44032) / 28 * 28) as Hdiv by (Z.div_mod_to_equations; lia).
      replace (s + c - 4519) with (0xac00 + (s - 44032) / 28 * 28 + (c - 0x11a7)) by lia. apply composite_LVT; [lia|lia| |lia].
      split; [apply Z.div_pos; lia|apply Z.div_lt_upper_bound; lia]. }
    clear E2. destruct (compose_pair_spec s c Hs Hc) as [(ch & idx1 & Hin & He & _ & Hd & Hu)|[_ Hu]]; [|congruence].
    rewrite Hu in Hcp. injection Hcp as <-. apply composite_pair; [done|]. pose proof composites_check as Hk. cbv zeta in Hk.
    apply andb_true_iff in Hk as [_ Hk]. rewrite forallb_forall in Hk. apply list_elem_of_In, Hk in Hin. rewrite He in Hin.
    apply negb_true_iff in Hin. intros Hex. apply existsb_elem in Hex. congruence.
Qed.

(** ** Recomposition *)

(** What the search for the starter finds, for a character of class [cc]. *)
Definition unblocked (cc : Z) (M : list Z) : Prop :=
  Forall (fun m => cc_of m <> 0) M /\ match last M with Some m => cc_of m < cc | None => True end.

Lemma starter_found out cc sp :
  Forall code_range out -> loop (length out + 1) (starter_body out) (zlen out - 1, cc) = Some (Some sp) -> 0 <= sp ->
  exists A s M, out = A ++ s :: M /\ zlen A = sp /\ cc_of s = 0 /\ unblocked cc M.
Proof.
  intros Hok Hl Hsp.
  pose proof (wp_loop (fun '(sp, bound) => exists A M, out = A ++ M /\ zlen A = sp + 1 /\ unblocked cc M /\
      ((M = [] /\ bound = cc) \/ (M <> [] /\ bound = 256)))
    (fun '(sp, _) => Z.to_nat (sp + 1))
    (fun r => match r with
      | Some sp => 0 <= sp -> exists A s M, out = A ++ s :: M /\ zlen A = sp /\ cc_of s = 0 /\ unblocked cc M
      | None => True end)
    (starter_body out) (length out + 1) (zlen out - 1, cc)) as Hwp.
  rewrite Hl in Hwp. apply Hwp; [| |clear sp Hl Hsp Hwp|done].
  - exists out, []. rewrite app_nil_r. split; [done|]. split; [lia|]. split; [by split; [constructor|]|by left].
  - unfold zlen. lia.
  - intros [sp bound] (A & M & Hout & HA & HM & Hb). unfold starter_body.
    destruct (sp >=? 0) eqn:E; zbool; [|intros ?; lia].
    destruct A as [|s A _] using rev_ind; [change (zlen []) with 0 in HA; lia|].
    rewrite zlen_app in HA. change (zlen [s]) with 1 in HA. rewrite <- app_assoc in Hout. cbn [app] in Hout.
    assert (code_range s) as Hs by (rewrite Hout in Hok; apply Forall_app in Hok as [_ Hok]; by apply Forall_cons in Hok as [? _]).
    rewrite Hout at 1. rewrite rd_mid by lia. cbn [mbind option_bind].
    destruct (get_cc_spec s (proj1 Hs)) as [-> Hr]. cbn [mbind option_bind].
    destruct (cc_of s =? 0) eqn:E0; [intros _; zbool; exists A, s, M; split; [done|]; split; [lia|]; by split|].
    destruct (cc_of s >=? bound) eqn:E1; [done|]. zbool.
    split; [|lia]. exists A, (s :: M). split; [done|]. split; [lia|]. destruct HM as [HM1 HM2]. split.
    + split; [by constructor|]. destruct Hb as [[-> ->]|[Hne ->]]; [simpl; lia|].
      by destruct M as [|m M]; [|exact HM2].
    + right. split; [done|lia].
Qed.

(** Properties of ordered texts. *)
Lemma ordered_app_r a b : ordered (a ++ b) -> ordered b.
Proof. induction a as [|x a IH]; [done|]. intros H. by apply IH, (ordered_tail x). Qed.

Lemma ordered_replace A s p T : cc_of s = 0 -> cc_of p = 0 -> codes_ok T -> ordered (A ++ s :: T) -> ordered (A ++ p :: T).
Proof.
  intros Hs Hp HT. induction A as [|x A IH]; intros Ho.
  - cbn [app] in *. destruct T as [|t T]; [constructor|]. apply Forall_cons in HT as [Ht _].
    destruct (get_cc_spec t Ht) as [_ ?]. constructor; [lia|by apply ordered_tail in Ho].
  - cbn [app] in *. destruct A as [|y A]; cbn [app] in *; inversion Ho; subst; constructor; auto.
Qed.

Lemma ordered_remove A c T : codes_ok (A ++ c :: T) ->
  match last A with Some m => cc_of m < cc_of c \/ cc_of m = 0 | None => True end ->
  ordered (A ++ c :: T) -> ordered (A ++ T).
Proof.
  intros Hok Hl Ho. induction A as [|x A IH]; [by apply (ordered_tail c)|].
  apply Forall_cons in Hok as [Hx Hok]. destruct A as [|y A].
  - cbn [app last] in *. destruct T as [|t T]; [constructor|]. rewrite !Forall_cons in Hok. destruct Hok as (Hc & Ht & _).
    destruct (get_cc_spec t Ht) as [_ ?], (get_cc_spec x Hx) as [_ ?], (get_cc_spec c Hc) as [_ ?].
    inversion Ho as [| |? ? ? Hxc Ho']; subst. inversion Ho' as [| |? ? ? Hct Ho'']; subst. constructor; [lia|done].
  - cbn [app] in *. inversion Ho; subst. constructor; [done|]. by apply IH.
Qed.

(** A mark moves over marks of smaller classes without effect on the tracks. *)
Lemma marks_below M b : codes_ok M -> ordered (M ++ b) -> Forall (fun m => cc_of m <> 0) M ->
  match last M with Some m => Forall (fun x => cc_of x <= cc_of m) M | None => True end.
Proof.
  induction M as [|x M IH]; intros Hok Ho Hnz; [done|]. apply Forall_cons in Hok as [Hx Hok].
  apply Forall_cons in Hnz as [Hxz Hnz]. destruct M as [|y M]; [simpl; by constructor|].
  specialize (IH Hok (ordered_tail _ _ Ho) Hnz). change (last (x :: y :: M)) with (last (y :: M)).
  destruct (last (y :: M)) as [m|]; [|done]. constructor; [|done].
  cbn [app] in Ho. inversion Ho as [| |? ? ? Hxy _]; subst. apply Forall_cons in IH as [? _].
  apply Forall_cons in Hnz as [? _]. lia.
Qed.

Lemma track_app k a b : track k (a ++ b) = track k a ++ track k b.
Proof. apply filter_app. Qed.

Lemma track_move k M c : codes_ok M -> Forall (fun m => 0 < cc_of m < cc_of c) M -> track k (c :: M) = track k (M ++ [c]).
Proof.
  intros Hok HM. destruct M as [|m M]; [done|].
  assert (0 < cc_of c) as Hc by (apply Forall_cons in HM as [? _]; lia).
  change (c :: m :: M) with ([c] ++ m :: M). rewrite !track_app. destruct (decide (cc_of c = k)) as [<-|Hk].
  - assert (track (cc_of c) (m :: M) = []) as ->; [|by rewrite app_nil_r].
    unfold track. induction HM as [|x l Hx _ IH]; [done|]. apply Forall_cons in Hok as [_ ?].
    rewrite filter_cons, decide_False by lia. by apply IH.
  - assert (track k [c] = []) as ->; [|by rewrite app_nil_r].
    unfold track. rewrite filter_cons, decide_False by lia. done.
Qed.

(** The invariant of the recombination of the decomposed text [l]. *)
Definition recombines (u : bool) (l out rest : list Z) : Prop :=
  Forall code_range out /\ Forall (terminal u) rest /\ Forall (fun x => cc_of x <> 0 -> terminal u x) out /\
  0x11a7 ∉ rest /\ ordered (out ++ rest) /\
  exists e, expand u 4 out = Some e /\ forall k, track k (e ++ rest) = track k l.

Lemma recombines_snoc u l out c rest : recombines u l out (c :: rest) -> recombines u l (out ++ [c]) rest.
Proof.
  intros (Hout & Hrest & Hmarks & Hne & Ho & e & He & Htr). apply Forall_cons in Hrest as [Hc Hrest].
  split; [apply Forall_app; split; [done|]; apply Forall_singleton; apply Hc|].
  split; [exact Hrest|]. split; [apply Forall_app; split; [exact Hmarks|]; by apply Forall_singleton|].
  split; [set_solver|]. split; [by rewrite <- app_assoc|]. exists (e ++ [c]). split.
  - apply expand_app; [exact He|]. apply expand_terminal, Forall_singleton, Hc.
  - intros k. rewrite <- app_assoc. apply Htr.
Qed.

Lemma terminals_of u M : Forall (fun x => cc_of x <> 0 -> terminal u x) M -> Forall (fun m => cc_of m <> 0) M -> Forall (terminal u) M.
Proof. intros H1 H2. rewrite Forall_forall in *. auto. Qed.

(** The marks between a starter and a character that is not blocked from it. *)
Lemma recombines_below u l A s M c rest :
  recombines u l (A ++ s :: M) (c :: rest) -> unblocked (cc_of c) M -> Forall (fun m => 0 < cc_of m < cc_of c) M.
Proof.
  intros (Hout & _ & _ & _ & Ho & _) [HM1 HM2]. apply Forall_app in Hout as [_ Hout]. apply Forall_cons in Hout as [_ HM].
  pose proof (codes_codes_ok _ HM) as HokM. rewrite <- app_assoc in Ho. apply ordered_app_r in Ho. cbn [app] in Ho. apply ordered_tail in Ho.
  pose proof (marks_below M _ HokM Ho HM1) as Hb. rewrite Forall_forall. intros m Hm.
  destruct (last M) as [m'|] eqn:Hl; [|apply last_None in Hl; subst; set_solver].
  unfold codes_ok in HokM. rewrite Forall_forall in Hb, HM1, HokM. pose proof (Hb m Hm). pose proof (HM1 m Hm).
  destruct (get_cc_spec m (HokM m Hm)) as [_ ?]. lia.
Qed.

Lemma recombines_pair u l A s M c rest p :
  recombines u l (A ++ s :: M) (c :: rest) -> cc_of s = 0 -> unblocked (cc_of c) M ->
  compose_pair s c = Some p -> p <> 0 -> code_range p -> recombines u l (A ++ p :: M) rest.
Proof.
  intros Hinv Hs HM' Hcp Hp Hpr. pose proof (recombines_below _ _ _ _ _ _ _ Hinv HM') as Hbelow.
  destruct Hinv as (Hout & Hrest & Hmarks & Hne & Ho & e & He & Htr). destruct HM' as [HM1 HM2].
  apply Forall_cons in Hrest as [Hc Hrest]. apply Forall_app in Hout as [HA Hout]. apply Forall_cons in Hout as [Hsr HM].
  apply Forall_app in Hmarks as [HmA Hmarks]. apply Forall_cons in Hmarks as [_ HmM].
  pose proof (codes_codes_ok _ HM) as HokM. pose proof (codes_codes_ok _ HA) as HokA.
  pose proof (codes_codes_ok _ (terminals_codes _ _ Hrest)) as Hokr. pose proof (proj1 (proj1 Hc)) as Hc0.
  destruct (compose_pair_expand u s c p Hsr Hs Hc ltac:(set_solver) Hcp Hp) as (Hpz & o & Hos & Hop).
  split; [apply Forall_app; split; [exact HA|by constructor]|]. split; [exact Hrest|].
  split; [apply Forall_app; split; [exact HmA|constructor; [congruence|exact HmM]]|]. split; [set_solver|].
  split.
  - rewrite <- app_assoc in Ho |- *. cbn [app] in Ho |- *. apply (ordered_replace _ s); [done|done|by apply Forall_app|].
    rewrite app_comm_cons, app_assoc in Ho. rewrite app_comm_cons, app_assoc. revert Ho. apply ordered_remove.
    + repeat (apply Forall_app; split); try done. constructor; [apply Hsr|done]. by constructor.
    + rewrite last_app_cons. destruct M as [|m M]; [by right|]. change (last (s :: m :: M)) with (last (m :: M)).
      destruct (last (m :: M)); [by left|done].
  - destruct (expand_list u A HA) as (eA & HeA & _). pose proof (expand_terminal u 3 M (terminals_of _ _ HmM HM1)) as HeM.
    exists (eA ++ (o ++ [c]) ++ M). split; [apply expand_app; [done|]; by apply (expand_app u 3 [p] M)|].
    rewrite (expand_app u 3 A (s :: M) eA (o ++ M) HeA) in He by (by apply (expand_app u 3 [s] M)).
    injection He as <-. intros k. rewrite <- Htr, !track_app, <- !app_assoc. do 2 f_equal.
    change (c :: rest) with ([c] ++ rest). rewrite track_app, !app_assoc. f_equal. rewrite <- !track_app.
    by apply (track_move k M c).
Qed.

Lemma recombines_step u l out c rest out' :
  recombines u l out (c :: rest) -> compose_one out c = Some out' -> recombines u l out' rest.
Proof.
  intros Hinv Hone. pose proof Hinv as (Hout & Hrest & _). apply Forall_cons in Hrest as [Hc _].
  unfold compose_one in Hone. destruct (get_cc_spec c (proj1 (proj1 Hc))) as [Hcc _]. rewrite Hcc in Hone.
  cbn [mbind option_bind] in Hone.
  destruct (try_spec out c Hout (proj1 Hc)) as (r & p & Hl & Htry & Hp & Hsp). rewrite Hl in Hone. cbn [mbind option_bind] in Hone.
  rewrite Htry in Hone. cbn [mbind option_bind] in Hone. injection Hone as <-. destruct (p =? 0) eqn:E; zbool; cbn [negb].
  - by apply recombines_snoc.
  - destruct (Hsp E) as (sp & -> & Hr). cbn [default from_option id].
    destruct (starter_found out (cc_of c) sp Hout Hl ltac:(lia)) as (A & s & M & -> & HA & Hs & HM).
    rewrite upd_mid by done. apply (recombines_pair u l A s M c rest p Hinv Hs HM); [|done|done].
    unfold try_compose in Htry. replace (sp >=? 0) with true in Htry by lia. by rewrite rd_mid in Htry by done.
Qed.

Lemma recombines_all u l out rest : recombines u l out rest ->
  exists res, compose_all out rest = Some res /\ recombines u l res [].
Proof.
  revert out. induction rest as [|c rest IH]; intros out Hinv; [by exists out|].
  pose proof Hinv as (Hout & Hrest & _). apply Forall_cons in Hrest as [Hc _].
  assert (exists out', compose_one out c = Some out') as [out' Hone].
  { destruct (try_spec out c Hout (proj1 Hc)) as (r & p & Hl & Htry & _). unfold compose_one.
    destruct (get_cc_spec c (proj1 (proj1 Hc))) as [-> _]. cbn [mbind option_bind]. rewrite Hl. cbn [mbind option_bind].
    rewrite Htry. by eexists. }
  destruct (IH out' (recombines_step _ _ _ _ _ _ Hinv Hone)) as (res & Hres & Hr). exists res. split; [|done].
  unfold compose_all in *. cbn [foldl mbind option_bind]. by rewrite Hone.
Qed.

Lemma recombines_equiv u l res : recombines u l res [] -> codes_ok l -> ordered l -> decomposed u res l.
Proof.
  intros (Hout & _ & _ & _ & _ & e & He & Htr) Hok Ho.
  destruct (expand_list u res Hout) as (e' & He' & Ht & _). rewrite He in He'. injection He' as <-.
  pose proof (codes_codes_ok _ (terminals_codes _ _ Ht)) as Hoke.
  pose proof (sort_cc_spec e Hoke) as Hwp. apply wp_exists in Hwp as (l' & _ & Hsw & Ho').
  assert (l' = l) as ->; [|by exists e].
  apply ordered_unique; [by eapply cc_swaps_ok|done|by apply ordered_upto_ordered|done|].
  intros k. rewrite <- (cc_swaps_track k _ _ Hsw), <- Htr. by rewrite app_nil_r.
Qed.

(** ** The recomposition of the standard

    A character is composed with the last starter before it, unless a mark in
    between blocks it (definition D117 of the standard). *)

Inductive composes (out : list Z) (c : Z) : list Z -> Prop :=
  | composes_merge A s M p : out = A ++ s :: M -> cc_of s = 0 -> Forall (fun m => 0 < cc_of m < cc_of c) M ->
      primary_composite s c p -> composes out c (A ++ p :: M)
  | composes_keep :
      (forall A s M p, out = A ++ s :: M -> cc_of s = 0 -> Forall (fun m => 0 < cc_of m < cc_of c) M -> ~ primary_composite s c p) ->
      composes out c (out ++ [c]).

Inductive recomposes : list Z -> list Z -> list Z -> Prop :=
  | recomposes_end out : recomposes out [] out
  | recomposes_next out c rest out' res : composes out c out' -> recomposes out' rest res -> recomposes out (c :: rest) res.

(** The search of the code finds that starter. *)
Lemma starter_finds A s M T bound fuel :
  Forall code_range (A ++ s :: M) -> cc_of s = 0 -> Forall (fun m => 0 < cc_of m) M ->
  match last M with Some m => cc_of m < bound | None => True end -> zlen M < Z.of_nat fuel ->
  loop fuel (starter_body (A ++ s :: M ++ T)) (zlen A + zlen M, bound) = Some (Some (zlen A)).
Proof.
  intros Hok Hs. revert T bound fuel. induction M as [|m M IH] using rev_ind; intros T bound fuel HM Hb Hf; (destruct fuel as [|fuel]; [match type of Hf with zlen ?x < _ => pose proof (zlen_nonneg x) end; lia|]);
    cbn [loop]; unfold starter_body at 1; pose proof (zlen_nonneg A).
  - rewrite zlen_nil, Z.add_0_r. replace (zlen A >=? 0) with true by lia. cbn [app]. rewrite rd_mid by done. cbn [mbind option_bind].
    apply Forall_app in Hok as [_ Hok]. apply Forall_cons in Hok as [Hsr _]. destruct (get_cc_spec s (proj1 Hsr)) as [-> _]. cbn [mbind option_bind]. by rewrite Hs.
  - rewrite zlen_app, zlen_cons, zlen_nil in *. pose proof (zlen_nonneg M). replace (_ >=? 0) with true by lia. rewrite last_snoc in Hb.
    apply Forall_app in HM as [HM Hm]. apply Forall_cons in Hm as [Hm _].
    rewrite app_comm_cons, app_assoc in Hok. apply Forall_app in Hok as [Hok Hmr]. apply Forall_cons in Hmr as [Hmr _].
    replace (A ++ s :: (M ++ [m]) ++ T) with ((A ++ s :: M) ++ m :: T) by (rewrite <- (app_assoc A), <- (app_assoc M); done).
    rewrite rd_mid by (rewrite zlen_app, zlen_cons; lia). cbn [mbind option_bind]. destruct (get_cc_spec m (proj1 Hmr)) as [-> Hr]. cbn [mbind option_bind].
    replace (cc_of m =? 0) with false by lia. replace (cc_of m >=? bound) with false by lia.
    replace (zlen A + (zlen M + (0 + 1)) - 1) with (zlen A + zlen M) by lia. replace ((A ++ s :: M) ++ m :: T) with (A ++ s :: M ++ m :: T) by (rewrite <- (app_assoc A); done). apply IH; [done|done| |lia].
    destruct (last M) as [m'|] eqn:El; [|done]. apply last_Some in El as [M' ->].
    rewrite app_comm_cons, app_assoc in Hok. apply Forall_app in Hok as [_ Hm']. apply Forall_cons in Hm' as [Hm' _]. destruct (get_cc_spec m' (proj1 Hm')) as [_ ?]. lia.
Qed.

(** Where the standard composes, the code does. *)
Lemma compose_one_merge out c A s M p :
  Forall code_range out -> code_range c -> c <> 0x11a7 -> out = A ++ s :: M -> cc_of s = 0 -> Forall (fun m => 0 < cc_of m < cc_of c) M ->
  primary_composite s c p -> compose_one out c = Some (A ++ p :: M).
Proof.
  intros Hok Hc Hne -> Hs HM Hp. pose proof Hok as Hok'. apply Forall_app in Hok' as [_ Hok']. apply Forall_cons in Hok' as [Hsr _].
  apply primary_composite_iff in Hp as [Hcp Hp]; [|done..]. unfold compose_one. destruct (get_cc_spec c (proj1 Hc)) as [-> _]. cbn [mbind option_bind].
  pose proof (starter_finds A s M [] (cc_of c) (length (A ++ s :: M) + 1) Hok Hs) as Hf. rewrite app_nil_r in Hf.
  replace (zlen (A ++ s :: M) - 1) with (zlen A + zlen M) by (rewrite zlen_app, zlen_cons; lia).
  rewrite Hf; [| | |unfold zlen; rewrite length_app; cbn [length]; lia].
  - cbn [mbind option_bind]. unfold try_compose. pose proof (zlen_nonneg A). replace (zlen A >=? 0) with true by lia. rewrite rd_mid by done. cbn [mbind option_bind].
    rewrite Hcp. cbn [mbind option_bind]. replace (p =? 0) with false by lia. cbn [negb default from_option id]. by rewrite upd_mid by done.
  - eapply Forall_impl; [exact HM|]. intros m Hm. cbn in Hm |- *. lia.
  - destruct (last M) as [m|] eqn:El; [|done]. apply last_Some in El as [M' ->]. apply Forall_app in HM as [_ HM]. apply Forall_cons in HM as [HM _]. lia.
Qed.

(** What the code does, the standard does. *)
Lemma compose_one_composes u l out c rest out' :
  recombines u l out (c :: rest) -> compose_one out c = Some out' -> composes out c out'.
Proof.
  intros Hinv Hone. pose proof Hinv as (Hout & Hrest & _ & Hne & _). apply Forall_cons in Hrest as [[Hc _] _]. pose proof Hone as Hone'.
  assert (c <> 0x11a7) as Hc7 by (intros ->; apply Hne; by left).
  unfold compose_one in Hone. destruct (get_cc_spec c (proj1 Hc)) as [Hcc _]. rewrite Hcc in Hone. cbn [mbind option_bind] in Hone.
  destruct (try_spec out c Hout Hc) as (r & p & Hl & Htry & Hp & Hsp). rewrite Hl in Hone. cbn [mbind option_bind] in Hone.
  rewrite Htry in Hone. cbn [mbind option_bind] in Hone. injection Hone as <-. destruct (p =? 0) eqn:E; zbool; cbn [negb] in *.
  - apply composes_keep. intros A s M p' HA Hs HM Hp'. rewrite (compose_one_merge out c A s M p' Hout Hc Hc7 HA Hs HM Hp') in Hone'.
    injection Hone' as Hbad. apply (f_equal zlen) in Hbad. rewrite HA, !zlen_app, !zlen_cons, zlen_nil in Hbad. lia.
  - destruct (Hsp E) as (sp & -> & Hr). cbn [default from_option id].
    destruct (starter_found out (cc_of c) sp Hout Hl ltac:(lia)) as (A & s & M & -> & HA & Hs & HM).
    rewrite upd_mid by done. apply (composes_merge _ _ A s M p); [done|done|by eapply recombines_below|].
    apply primary_composite_iff; [apply Forall_app in Hout as [_ Hout]; by apply Forall_cons in Hout as [? _]|exact Hc|exact Hc7|]. split; [|done].
    unfold try_compose in Htry. replace (sp >=? 0) with true in Htry by lia. by rewrite rd_mid in Htry by done.
Qed.

Lemma compose_one_Some out c : Forall code_range out -> code_range c -> exists out', compose_one out c = Some out'.
Proof.
  intros Hout Hc. destruct (try_spec out c Hout Hc) as (r & p & Hl & Htry & _). unfold compose_one.
  destruct (get_cc_spec c (proj1 Hc)) as [-> _]. cbn [mbind option_bind]. rewrite Hl. cbn [mbind option_bind].
  rewrite Htry. by eexists.
Qed.

Lemma composes_iff u l out c rest out' :
  recombines u l out (c :: rest) -> (composes out c out' <-> compose_one out c = Some out').
Proof.
  intros Hinv. split; [|by eapply compose_one_composes]. pose proof Hinv as (Hout & Hrest & _ & Hne & _). apply Forall_cons in Hrest as [[Hc _] _].
  assert (c <> 0x11a7) as Hc7 by (intros ->; apply Hne; by left).
  intros [A s M p HA Hs HM Hp|Hkeep]; [exact (compose_one_merge out c A s M p Hout Hc Hc7 HA Hs HM Hp)|].
  destruct (compose_one_Some out c Hout Hc) as [o Ho]. rewrite Ho. destruct (compose_one_composes _ _ _ _ _ _ Hinv Ho) as [A s M p HA Hs HM Hp|]; [|done].
  by destruct (Hkeep A s M p HA Hs HM).
Qed.

Lemma recomposes_iff u l out rest res : recombines u l out rest -> (recomposes out rest res <-> compose_all out rest = Some res).
Proof.
  revert out. induction rest as [|c rest IH]; intros out Hinv.
  { unfold compose_all. cbn [foldl]. split; [by inversion 1|]. intros [= ->]. constructor. }
  pose proof Hinv as (Hout & Hrest & _). apply Forall_cons in Hrest as [Hc _]. destruct (compose_one_Some out c Hout (proj1 Hc)) as [o Ho].
  pose proof (recombines_step _ _ _ _ _ _ Hinv Ho) as Hinv'.
  assert (compose_all out (c :: rest) = compose_all o rest) as -> by (unfold compose_all; cbn [foldl mbind option_bind]; by rewrite Ho).
  rewrite <- (IH o Hinv'). split.
  - inversion 1 as [|? ? ? o' ? Hco Hre]; subst. apply (composes_iff _ _ _ _ _ _ Hinv) in Hco. rewrite Ho in Hco. by injection Hco as ->.
  - intros Hre. by eapply recomposes_next; [apply (composes_iff _ _ _ _ _ _ Hinv)|].
Qed.

(** ** The latin1 shortcut *)

Definition latin_ok (c : Z) : bool :=
  match expand false 4 [c] with
  | Some [d] => d =? c
  | Some [b; m] => (0 <=? b) && (b <? 0x300) && (0 <=? m) && (m <? 2 ^ 31) && (0 <? c) && bool_decide (compose_pair b m = Some c)
  | _ => false
  end.

Lemma latin_check : forallb latin_ok (seqZ 0 256) = true.
Proof. vm_cast_no_check (@eq_refl bool true). Qed.

Lemma latin_pieces c : 0 <= c < 256 ->
  expand false 4 [c] = Some [c] \/
  exists b m, expand false 4 [c] = Some [b; m] /\ 0 <= b < 0x300 /\ code_range m /\ 0 < c /\ compose_pair b m = Some c.
Proof.
  intros Hc. pose proof latin_check as Hk. rewrite forallb_forall in Hk.
  assert (latin_ok c = true) as Hl by (apply Hk, list_elem_of_In, elem_of_seqZ; lia). clear Hk. unfold latin_ok in Hl.
  destruct (expand false 4 [c]) as [[|b [|m [|]]]|]; try done.
  - left. apply Z.eqb_eq in Hl. by subst.
  - right. exists b, m. apply andb_true_iff in Hl as [Hl Hcp]. apply bool_decide_eq_true in Hcp. zbool. unfold code_range.
    split; [done|]. split; [lia|]. split; [lia|]. by split.
Qed.

Lemma compose_pair_latin s b : code_range s -> 0 <= b < 0x300 -> compose_pair s b = Some 0.
Proof.
  intros Hs Hb. unfold compose_pair. replace (b >=? 0x1161) with false by lia. replace (b >=? 0x11a7) with false by lia.
  rewrite !andb_false_r. cbn [andb]. destruct (compose_pair_spec s b Hs ltac:(lia)) as [(ch & idx1 & Hin & He & _)|[_ ->]]; [|done].
  destruct (comp_starter _ _ _ _ Hin He) as (_ & _ & ?). lia.
Qed.

Lemma compose_one_latin out b : Forall code_range out -> 0 <= b < 0x300 -> compose_one out b = Some (out ++ [b]).
Proof.
  intros Hout Hb. assert (code_range b) as Hbr by (unfold code_range; lia). unfold compose_one.
  destruct (get_cc_spec b (proj1 Hbr)) as [-> _]. cbn [mbind option_bind].
  destruct (try_spec out b Hout Hbr) as (r & p & -> & Htry & _ & Hsp). cbn [mbind option_bind]. rewrite Htry. cbn [mbind option_bind].
  destruct (p =? 0) eqn:E; [done|]. zbool. exfalso. destruct (Hsp E) as (sp & -> & Hr). unfold try_compose in Htry.
  replace (sp >=? 0) with true in Htry by lia. destruct (rd_is_Some out sp Hr) as [x Hx]. rewrite Hx in Htry.
  cbn [mbind option_bind] in Htry. rewrite rd_lookup in Hx by lia. apply (Forall_lookup_1 _ _ _ _ Hout) in Hx.
  rewrite compose_pair_latin in Htry by done. congruence.
Qed.

Lemma compose_one_mark out b m c : Forall code_range out -> 0 <= b < 0x300 -> code_range m -> 0 < c ->
  compose_pair b m = Some c -> compose_one (out ++ [b]) m = Some (out ++ [c]).
Proof.
  intros Hout Hb Hm Hc Hcp. unfold compose_one. destruct (get_cc_spec m (proj1 Hm)) as [-> _]. cbn [mbind option_bind].
  rewrite Nat.add_1_r, zlen_app. change (zlen [b]) with 1. replace (zlen out + 1 - 1) with (zlen out) by lia.
  pose proof (zlen_nonneg out). cbn [loop]. unfold starter_body at 1. replace (zlen out >=? 0) with true by lia.
  rewrite rd_mid by done. cbn [mbind option_bind]. destruct (get_cc_spec b (proj1 Hb)) as [-> _]. cbn [mbind option_bind].
  rewrite (zero_between_cc 0 0x300 b zero_latin) by lia. cbn [Z.eqb mbind option_bind]. unfold try_compose.
  replace (zlen out >=? 0) with true by lia. rewrite rd_mid by done. cbn [mbind option_bind]. rewrite Hcp.
  cbn [mbind option_bind]. replace (c =? 0) with false by lia. cbn [negb default from_option id]. by rewrite upd_mid by done.
Qed.

Lemma compose_all_app out a b o : compose_all out a = Some o -> compose_all out (a ++ b) = compose_all o b.
Proof. unfold compose_all. rewrite foldl_app. by intros ->. Qed.

Lemma compose_latin src e out : Forall (fun c => 0 <= c < 256) src -> Forall code_range out ->
  expand false 4 src = Some e -> compose_all out e = Some (out ++ src).
Proof.
  intros Hsrc. revert out e. induction Hsrc as [|c src Hc _ IH]; intros out e Hout He.
  { rewrite expand_nil in He. injection He as <-. by rewrite app_nil_r. }
  rewrite expand_cons in He. destruct (expand false 4 [c]) as [o|] eqn:Ho; [|done].
  destruct (expand false 4 src) as [r|]; [|done]. cbn [mbind option_bind] in He. injection He as <-.
  assert (Forall code_range (out ++ [c])) as Hout' by (apply Forall_app; split; [done|]; apply Forall_singleton; unfold code_range; lia).
  rewrite (compose_all_app out o r (out ++ [c])); [by rewrite (IH _ _ Hout' eq_refl), <- app_assoc|].
  destruct (latin_pieces c Hc) as [Hp|(b & m & Hp & Hb & Hm & Hpos & Hcp)]; rewrite Hp in Ho; injection Ho as <-;
    unfold compose_all; cbn [foldl mbind option_bind].
  - apply compose_one_latin; [done|lia].
  - rewrite compose_one_latin by done. cbn [mbind option_bind]. by apply compose_one_mark.
Qed.

(** The expansion of a latin1 text is ordered and begins with a starter. *)
Lemma latin_ordered src e : Forall (fun c => 0 <= c < 256) src -> expand false 4 src = Some e ->
  codes_ok e /\ ordered e /\ match e with x :: _ => cc_of x = 0 | [] => True end.
Proof.
  intros Hsrc. revert e. induction Hsrc as [|c src Hc _ IH]; intros e He.
  { rewrite expand_nil in He. injection He as <-. split; [constructor|]. split; [constructor|done]. }
  rewrite expand_cons in He. destruct (expand false 4 [c]) as [o|] eqn:Ho; [|done].
  destruct (expand false 4 src) as [r|]; [|done]. cbn [mbind option_bind] in He. injection He as <-.
  destruct (IH r eq_refl) as (Hok & Hor & Hh).
  destruct (latin_pieces c Hc) as [Hp|(b & m & Hp & Hb & Hm & _)]; rewrite Hp in Ho; injection Ho as <-; cbn [app].
  - assert (cc_of c = 0) as Hz by (apply (zero_between_cc 0 0x300 c zero_latin); lia).
    split; [constructor; [lia|done]|]. split; [|done]. destruct r; constructor; [by left|done].
  - assert (cc_of b = 0) as Hz by (apply (zero_between_cc 0 0x300 b zero_latin); lia).
    destruct (get_cc_spec m (proj1 Hm)) as [_ ?]. split; [repeat constructor; [lia|apply Hm|done]|].
    split; [|done]. constructor; [lia|]. destruct r; constructor; [by left|done].
Qed.

Lemma latin_recomposes src l : Forall (fun c => 0 <= c < 256) src -> decomposed false src l -> compose_all [] l = Some src.
Proof.
  intros Hsrc (e & He & Ht & Hsw & Ho). destruct (latin_ordered src e Hsrc He) as (Hok & Hoe & _).
  assert (l = e) as ->.
  { apply ordered_unique; [by eapply cc_swaps_ok|done|done|done|]. intros k. symmetry. by apply cc_swaps_track. }
  by apply (compose_latin src e []).
Qed.

(** ** Properties *)

Definition decomposing (n_type : Z) : bool := negb (Z.land n_type 1 =? 0).

(** The form [n_type] of a text: decomposed, and recomposed by the rules of the
    standard for NFC and NFKC. *)
Definition normal_form (n_type : Z) (src out : list Z) : Prop :=
  exists l, decomposed (is_compat n_type) src l /\
    (if decomposing n_type then out = l else recomposes [] l out).

(** What the code computes. *)
Definition computed_form (n_type : Z) (l out : list Z) : Prop :=
  if decomposing n_type then out = l else compose_all [] l = Some out.

Lemma compose_all_start u l : Forall (terminal u) l -> compose_all (take 1 l) (drop 1 l) = compose_all [] l.
Proof.
  destruct l as [|x l]; [done|]. intros H. apply Forall_cons in H as [Hx _]. cbn [take drop]. rewrite ?take_0, ?drop_0.
  assert (compose_one [] x = Some [x]) as Hone.
  { unfold compose_one. by destruct (get_cc_spec x (proj1 (proj1 Hx))) as [-> _]. }
  symmetry. by apply (compose_all_app [] [x] l).
Qed.

Lemma recombines_start u src l : decomposed u src l -> 0x11a7 ∉ l -> recombines u l [] l.
Proof.
  intros Hd Hne. pose proof (decomposed_codes _ _ _ Hd) as Ht. destruct Hd as (e & _ & _ & _ & Hord).
  split; [constructor|]. split; [exact Ht|]. split; [constructor|]. split; [exact Hne|]. split; [exact Hord|]. by exists [].
Qed.

(** Without U+11A7 the code computes the form, and the form is unique. *)
Lemma normal_form_iff n_type src l out :
  decomposed (is_compat n_type) src l -> decomposing n_type = true \/ 0x11a7 ∉ l ->
  (normal_form n_type src out <-> computed_form n_type l out).
Proof.
  intros Hd Hne. unfold normal_form, computed_form. destruct (decomposing n_type).
  - split; [|by exists l]. intros (l' & Hd' & ->). by eapply decomposed_unique.
  - destruct Hne as [|Hne]; [done|]. rewrite <- (recomposes_iff (is_compat n_type) l) by (by eapply recombines_start).
    split; [|by exists l]. intros (l' & Hd' & Hre). by rewrite (decomposed_unique _ _ _ _ Hd Hd').
Qed.

Lemma computed_form_unique n_type l o1 o2 : computed_form n_type l o1 -> computed_form n_type l o2 -> o1 = o2.
Proof. unfold computed_form. destruct (decomposing n_type); congruence. Qed.

Section normalize.
Context (realloc_func : realloc_t) `{!ReallocLaws realloc_func}.

Lemma normalize_spec src n_type :
  0 <= n_type < 4 -> Forall code_range src -> 18 * zlen src < 2 ^ 31 ->
  (unicode_normalize realloc_func src n_type = Some (-1, []) /\ oom realloc_func) \/
  exists l out, unicode_normalize realloc_func src n_type = Some (zlen out, out) /\ decomposed (is_compat n_type) src l /\
    computed_form n_type l out.
Proof.
  intros Hn Hsrc Hlen. unfold unicode_normalize. pose proof (zlen_nonneg src).
  pose proof (dbuf_realloc_spec realloc_func dbuf_init2 (4 * zlen src) dbuf_init_ok ltac:(lia)) as Hr.
  destruct (dbuf_realloc realloc_func dbuf_init2 (4 * zlen src)) as [r d].
  destruct Hr as [[-> (_ & _ & _ & _ & [?|?])]|(-> & Hok & Hcont & Hsz & Herr & _)]; [done|by left|].
  cbn [negb Z.eqb]. destruct ((n_type =? UNICODE_NFC) && forallb _ src) eqn:Hlat.
  - right. apply andb_true_iff in Hlat as [Hn0 Hlat]. apply Z.eqb_eq in Hn0. subst n_type.
    assert (Forall (fun c => 0 <= c < 256) src) as Hsrc'.
    { rewrite forallb_forall in Hlat. rewrite Forall_forall in Hsrc |- *. intros c Hc.
      pose proof (proj1 (Hsrc c Hc)). apply list_elem_of_In, Hlat in Hc. zbool. lia. }
    destruct (expand_list false src Hsrc) as (e & He & Ht & _).
    destruct (latin_ordered src e Hsrc' He) as (_ & Ho & _).
    assert (decomposed false src e) as Hd by (by exists e). exists e, src. split; [done|]. split; [exact Hd|]. by apply latin_recomposes.
  - clear Hlat. destruct (normalize_slow_spec realloc_func d src n_type Hok Hcont Hsz Herr Hsrc Hlen)
      as [H1|(l & out & Hd & Heq & Hout)]; [by left|]. right. exists l, out. split; [exact Heq|]. split; [exact Hd|].
    pose proof (decomposed_codes _ _ _ Hd) as Ht. unfold computed_form, decomposing. destruct (Z.land n_type 1 =? 0).
    + rewrite orb_false_r in Hout. cbn [negb]. revert Hout. destruct (zlen l <=? 1) eqn:E; intros Hout; zbool; [|by rewrite <- (compose_all_start _ _ Ht)].
      subst out. destruct l as [|x [|y l]]; [done| |rewrite !zlen_cons in E; pose proof (zlen_nonneg l); lia].
      by rewrite <- (compose_all_start _ _ Ht).
    + by rewrite orb_true_r in Hout.
Qed.

Lemma normalize_inv src n_type k out :
  0 <= n_type < 4 -> Forall code_range src -> 18 * zlen src < 2 ^ 31 ->
  unicode_normalize realloc_func src n_type = Some (k, out) -> 0 <= k ->
  k = zlen out /\ exists l, decomposed (is_compat n_type) src l /\ computed_form n_type l out.
Proof.
  intros Hn Hsrc Hlen Heq Hk. destruct (normalize_spec src n_type Hn Hsrc Hlen) as [[H _]|(l & o & H & Hd & Hnf)];
    rewrite Heq in H; injection H as -> ->; [lia|]. split; [done|]. by exists l.
Qed.
End normalize.

(** The recomposed text is equivalent to the decomposition. *)
Lemma computed_form_equiv n_type src out l :
  decomposed (is_compat n_type) src l -> 0x11a7 ∉ l -> computed_form n_type l out -> decomposed (is_compat n_type) out l.
Proof.
  intros Hd Hne Hout. pose proof (decomposed_codes _ _ _ Hd) as Ht. pose proof (decomposed_idem _ _ _ Hd) as Hself.
  unfold computed_form in Hout. destruct (decomposing n_type); [by subst out|]. pose proof Hd as (e & _ & _ & _ & Hord).
  pose proof (codes_codes_ok _ (terminals_codes _ _ Ht)) as Hok.
  destruct (recombines_all (is_compat n_type) l [] l) as (res & Hres & Hrec); [by eapply recombines_start|].
  rewrite Hres in Hout. injection Hout as <-. by apply recombines_equiv.
Qed.

(** C15. [unicode_normalize] is defined on every text and returns either -1
    after a refused allocation, or a text of the length it says.  Unless a
    composing form meets U+11A7, which [compose_pair] takes for a trailing
    consonant, this is the normal form of the standard and the only one: each
    code point fully decomposed (canonically, or with the compatibility mappings
    for the K forms), marks in the canonical order and, for NFC and NFKC, every
    character composed with the last starter before it, when no mark in between
    blocks it, if the pair has a primary composite; in particular the latin1
    shortcut returns what the general path would. *)
Theorem unicode_normalize_correct (realloc_func : realloc_t) `{!ReallocLaws realloc_func} (src : list Z) (n_type : Z) :
  0 <= n_type < 4 -> Forall code_range src -> 18 * zlen src < 2 ^ 31 ->
  (unicode_normalize realloc_func src n_type = Some (-1, []) /\ oom realloc_func) \/
  (exists l out, unicode_normalize realloc_func src n_type = Some (zlen out, out) /\ decomposed (is_compat n_type) src l /\
    (decomposing n_type = true \/ 0x11a7 ∉ l -> forall out', normal_form n_type src out' <-> out' = out)).
Proof.
  intros Hn Hsrc Hlen. destruct (normalize_spec realloc_func src n_type Hn Hsrc Hlen) as [H|(l & out & H & Hd & Hc)]; [by left|right].
  exists l, out. split; [exact H|]. split; [exact Hd|]. intros Hne out'. rewrite (normal_form_iff n_type src l out' Hd Hne).
  split; [|by intros ->]. intros Hc'. by eapply computed_form_unique.
Qed.

(** C16. Normalization keeps the text: unless the decomposition contains
    U+11A7, the result of any of the four forms has the same full
    decomposition as the source (so NFC and NFKC undo nothing but what
    recomposition can restore), and normalizing the result again gives it
    back. *)
Theorem unicode_normalize_equivalent (realloc_func : realloc_t) `{!ReallocLaws realloc_func} (src out : list Z) (n_type k : Z) :
  0 <= n_type < 4 -> Forall code_range src -> 18 * zlen src < 2 ^ 31 ->
  unicode_normalize realloc_func src n_type = Some (k, out) -> 0 <= k ->
  k = zlen out /\ exists l, decomposed (is_compat n_type) src l /\
    (0x11a7 ∉ l -> decomposed (is_compat n_type) out l /\ forall out', normal_form n_type out out' <-> out' = out).
Proof.
  intros Hn Hsrc Hlen Heq Hk. destruct (normalize_inv realloc_func src n_type k out Hn Hsrc Hlen Heq Hk) as [-> Hnf].
  split; [done|]. destruct Hnf as (l & Hd & Hout). exists l. split; [exact Hd|]. intros Hne.
  pose proof (computed_form_equiv n_type src out l Hd Hne Hout) as H1. split; [exact H1|]. intros out'.
  rewrite (normal_form_iff n_type out l out' H1 (or_intror Hne)). split; [|by intros ->]. intros Hc. by eapply computed_form_unique.
Qed.

(** A composition is undone by the decomposition: when [compose_pair] maps a
    pair to a code point, that code point is a starter and its full canonical
    decomposition is the one of the first element followed by the second; the
    Hangul part is inverse to the arithmetic decomposition of syllables. *)
Theorem compose_pair_inverts (s c : Z) :
  code_range s -> cc_of s = 0 -> terminal false c -> c <> 0x11a7 ->
  exists p, compose_pair s c = Some p /\
    (p <> 0 -> cc_of p = 0 /\ exists o, expand false 4 [s] = Some o /\ expand false 4 [p] = Some (o ++ [c])).
Proof.
  intros Hs Hss Hc Hne. destruct (compose_pair_range s c Hs (proj1 Hc)) as (p & Hp & _). exists p. split; [exact Hp|].
  intros Hnz. by apply (compose_pair_expand false s c p).
Qed.

(** [sort_cc] stays in its array and sorts the marks into the canonical
    order, by exchanges of adjacent marks only; the result is the only
    ordered text reachable by such exchanges. *)
Theorem sort_cc_canonical (buf : list Z) :
  Forall code_range buf ->
  exists l, sort_cc buf (zlen buf) = Some l /\ rtc cc_swap buf l /\ ordered l /\
    (forall l', rtc cc_swap buf l' -> ordered l' -> l' = l).
Proof.
  intros Hok. pose proof (codes_codes_ok _ Hok) as Hc. pose proof (sort_cc_spec buf Hc) as Hwp.
  apply wp_exists in Hwp as (l & -> & Hsw & Ho). exists l. apply ordered_upto_ordered in Ho.
  split; [done|]. split; [done|]. split; [done|]. intros l' Hsw' Ho'.
  apply ordered_unique; [by eapply cc_swaps_ok..|done|done|]. intros k. by rewrite <- (cc_swaps_track k _ _ Hsw), <- (cc_swaps_track k _ _ Hsw').
Qed.

(** C37. The recursive decomposition terminates (three nested levels suffice
    for every code point of the tables), expands a code point to between 1
    and 18 code points, none of which decomposes further, and is therefore
    idempotent. *)
Theorem decomposition_complete (u : bool) (src : list Z) :
  Forall code_range src ->
  exists out, expand u 4 src = Some out /\ Forall (terminal u) out /\ zlen src <= zlen out <= 18 * zlen src /\
    expand u 4 out = Some out /\
    forall realloc_func d, to_nfd_rec realloc_func 4 u d src = put_codes realloc_func d out.
Proof.
  intros Hsrc. destruct (expand_list u src Hsrc) as (out & He & Ht & Hl). exists out.
  split; [done|]. split; [done|]. split; [done|]. split; [by apply expand_terminal|].
  intros realloc_func d. by apply to_nfd_expand.
Qed.

Lemma sample_codes : Forall code_range [0x1e69; 0x323; 0xac01].
Proof. repeat constructor; unfold code_range; lia. Qed.

Lemma unicode_normalize_correct_witness :
  (unicode_normalize realloc64 [0x1e69; 0x323; 0xac01] UNICODE_NFC = Some (-1, []) /\ oom realloc64) \/
  (exists l out, unicode_normalize realloc64 [0x1e69; 0x323; 0xac01] UNICODE_NFC = Some (zlen out, out) /\
    decomposed (is_compat UNICODE_NFC) [0x1e69; 0x323; 0xac01] l /\
    (decomposing UNICODE_NFC = true \/ 0x11a7 ∉ l -> forall out', normal_form UNICODE_NFC [0x1e69; 0x323; 0xac01] out' <-> out' = out)).
Proof.
  apply (unicode_normalize_correct realloc64 [0x1e69; 0x323; 0xac01] UNICODE_NFC);
    [unfold UNICODE_NFC; lia|exact sample_codes|vm_compute; reflexivity].
Defined.

Lemma unicode_normalize_equivalent_witness :
  3 = zlen [0x1e69; 0x323; 0xac01] /\ exists l, decomposed (is_compat UNICODE_NFC) [0x1e69; 0x323; 0xac01] l /\
    (0x11a7 ∉ l -> decomposed (is_compat UNICODE_NFC) [0x1e69; 0x323; 0xac01] l /\
      forall out', normal_form UNICODE_NFC [0x1e69; 0x323; 0xac01] out' <-> out' = [0x1e69; 0x323; 0xac01]).
Proof.
  apply (unicode_normalize_equivalent realloc64 [0x1e69; 0x323; 0xac01] [0x1e69; 0x323; 0xac01] UNICODE_NFC 3);
    [unfold UNICODE_NFC; lia|exact sample_codes|vm_compute; reflexivity|vm_compute; reflexivity|lia].
Defined.

Lemma compose_pair_inverts_witness :
  exists p, compose_pair 0x65 0x301 = Some p /\
    (p <> 0 -> cc_of p = 0 /\ exists o, expand false 4 [0x65] = Some o /\ expand false 4 [p] = Some (o ++ [0x301])).
Proof.
  apply compose_pair_inverts; [unfold code_range; lia|vm_compute; reflexivity| |lia].
  split; [lia|]. split; vm_compute; reflexivity.
Defined.

Lemma sort_cc_canonical_witness :
  exists l, sort_cc [0x61; 0x301; 0x323] 3 = Some l /\ rtc cc_swap [0x61; 0x301; 0x323] l /\ ordered l /\
    (forall l', rtc cc_swap [0x61; 0x301; 0x323] l' -> ordered l' -> l' = l).
Proof. apply (sort_cc_canonical [0x61; 0x301; 0x323]). repeat constructor; unfold code_range; lia. Defined.

Lemma decomposition_complete_witness :
  exists out, expand false 4 [0x1e69; 0x323; 0xac01] = Some out /\ Forall (terminal false) out /\
    3 <= zlen out <= 18 * 3 /\ expand false 4 out = Some out /\
    forall realloc_func d, to_nfd_rec realloc_func 4 false d [0x1e69; 0x323; 0xac01] = put_codes realloc_func d out.
Proof. apply (decomposition_complete false [0x1e69; 0x323; 0xac01]). exact sample_codes. Defined.

(** U+11A7 is not a trailing consonant, but [compose_pair] takes it for one:
    it disappears from the text. *)
Example normalize_drops_11a7 :
  unicode_normalize realloc64 [0xac00; 0x11a7; 0x61] UNICODE_NFC = Some (2, [0xac00; 0x61]) /\
  unicode_normalize realloc64 [0xac00; 0x11a7; 0x61] UNICODE_NFD = Some (4, [0x1100; 0x1161; 0x11a7; 0x61]).
Proof. split; vm_compute; reflexivity. Qed.
