(* ===== verification/Bridge.v ===== *)
(** * The FFI bridge (native/quickjs_bridge.c)

    The bridge runs on top of the engine, the C library and the host's
    callbacks, which are the operations of the classes [Engine] and [Host].
    Each of them may run code that calls the bridge again.
    What the bridge owns is part of the state: every reference to a value,
    every C string of the engine and every [malloc] block it has acquired and
    not yet released.  Releasing something that is not owned is undefined
    behaviour ([None]), so a theorem that gives the resources left after a
    function rules out both leaks and double frees. *)

From S2P Require Import Prelude CArray.
From Stdlib Require Import Ascii String.
Open Scope Z_scope.

Definition MAX_HOST_FNS : Z := 65536.

(** ** Values and resources *)

(** A value is immediate or a counted reference to a heap cell. *)
Inductive JSValue := JS_UNDEFINED | JS_NULL | JS_EXCEPTION | JS_IMM (n : Z) | JS_REF (h : Z).

#[export] Instance JSValue_eq_dec : EqDecision JSValue.
Proof. solve_decision. Defined.

(** A C string held by the engine, or a [malloc] block holding one: its
    address and its characters before the NUL. *)
Record cstring := CString { cs_addr : Z; cs_bytes : list Z }.

Inductive resource := RValue (h : Z) | RCString (p : Z) | RBlock (p : Z).

#[export] Instance resource_eq_dec : EqDecision resource.
Proof. solve_decision. Defined.

Definition JS_IsException (v : JSValue) : bool := match v with JS_EXCEPTION => true | _ => false end.

(** The bytes of a string literal. *)
Definition lit (s : string) : list Z := (fun a => Z.of_N (Ascii.N_of_ascii a)) <$> list_ascii_of_string s.

(** The references a value counts for. *)
Definition vres (v : JSValue) : list resource := match v with JS_REF h => [RValue h] | _ => [] end.
Definition cres (s : option cstring) : list resource := match s with Some s => [RCString (cs_addr s)] | None => [] end.
Definition bres (s : option cstring) : list resource := match s with Some s => [RBlock (cs_addr s)] | None => [] end.

(** Giving up one of the resources held. *)
Fixpoint remove1 (r : resource) (l : list resource) : option (list resource) :=
  match l with
  | [] => None
  | x :: l => if decide (x = r) then Some l else l ← remove1 r l; Some (x :: l)
  end.

(** The C functions registered with the engine. *)
Inductive c_function := qjs_dispatch_fn | qjs_bytes_dispatch_fn.

(** ** The tables and what the bridge calls

    The tables of callbacks are static variables of the bridge, shared by all
    that runs in the process.  Everything else a function of the bridge can
    reach (the engine's heap and job queue, the host, the C library) is one
    state [St].  A script evaluated, a setter or [toJSON] run by an engine
    call, a job of the queue and a callback of the host may each call the
    bridge again, call the host and register functions: every operation below
    therefore takes and returns the whole state, tables included. *)

Record ext (St : Type) := Ext {
  sys : St;
  g_callbacks : list Z;
  g_callback_count : Z;
  g_bytes_callbacks : list Z;
  g_bytes_callback_count : Z;
}.
Arguments Ext {St} _ _ _ _ _.
Arguments sys {St} _.
Arguments g_callbacks {St} _.
Arguments g_callback_count {St} _.
Arguments g_bytes_callbacks {St} _.
Arguments g_bytes_callback_count {St} _.

(** The engine.  Values returned are owned by the caller. *)
Class Engine (St : Type) := {
  eng_new_object : ext St -> ext St * JSValue;
  eng_new_array : ext St -> ext St * JSValue;
  eng_set_uint32 : JSValue -> Z -> JSValue -> ext St -> ext St * Z;
  eng_set_str : JSValue -> list Z -> JSValue -> ext St -> ext St * Z;
  eng_global : ext St -> ext St * JSValue;
  eng_new_c_function : c_function -> list Z -> Z -> ext St -> ext St * JSValue;
  eng_stringify : JSValue -> ext St -> ext St * JSValue;
  eng_parse_json : list Z -> string -> ext St -> ext St * JSValue;
  eng_eval : list Z -> list Z -> ext St -> ext St * JSValue;
  eng_to_cstring : JSValue -> ext St -> ext St * option cstring;
  eng_is_string : JSValue -> ext St -> bool;
  eng_throw_type_error : string -> list Z -> ext St -> ext St * unit;
  eng_get_exception : ext St -> ext St * JSValue;
  eng_update_stack_top : ext St -> ext St * unit;
  eng_execute_pending_job : ext St -> ext St * Z;
  eng_typed_array_buffer : JSValue -> ext St -> ext St * (JSValue * Z * Z);
  eng_array_buffer : JSValue -> ext St -> ext St * option (list Z);
}.

(** Sizes reported by the engine are [size_t]s. *)
Class EngineSizes (St : Type) `{!Engine St} : Prop := {
  typed_array_sizes v (x : ext St) : let '(_, (_, offset, length)) := eng_typed_array_buffer v x in
    0 <= offset < 2 ^ 64 /\ 0 <= length < 2 ^ 64;
  array_buffer_size v (x : ext St) ptr : (eng_array_buffer v x).2 = Some ptr -> zlen ptr < 2 ^ 64;
}.

(** The host and the C library: the callbacks (function pointers, [NULL] is
    0), [strdup] and what is printed on [stderr]. *)
Class Host (St : Type) := {
  host_callback : Z -> list Z -> ext St -> ext St * option cstring;
  host_bytes_callback : Z -> list Z -> list Z -> ext St -> ext St * unit;
  host_strdup : list Z -> ext St -> ext St * option cstring;
  host_print : list Z -> ext St -> ext St * unit;
}.

(** The callback an index stands for, [NULL] when there is none. *)
Definition registered (t : list Z) (count magic : Z) : Z :=
  if (magic <? 0) || (magic >=? count) then 0 else default 0 (rd t magic).

(** What every operation does to the tables: the counters do not go down and
    a callback stays where it is.  The functions of the bridge themselves keep
    this promise ([bridge_keeps_tables]), so it holds of code that calls them
    again, and of threads that register meanwhile. *)
Definition keeps {St} (x x' : ext St) : Prop :=
  zlen (g_callbacks x') = zlen (g_callbacks x) /\ g_callback_count x <= g_callback_count x' /\
  (forall m, registered (g_callbacks x) (g_callback_count x) m <> 0 ->
     registered (g_callbacks x') (g_callback_count x') m = registered (g_callbacks x) (g_callback_count x) m) /\
  zlen (g_bytes_callbacks x') = zlen (g_bytes_callbacks x) /\ g_bytes_callback_count x <= g_bytes_callback_count x' /\
  (forall m, registered (g_bytes_callbacks x) (g_bytes_callback_count x) m <> 0 ->
     registered (g_bytes_callbacks x') (g_bytes_callback_count x') m =
     registered (g_bytes_callbacks x) (g_bytes_callback_count x) m).

Definition keeping {St A} (f : ext St -> ext St * A) : Prop := forall x, keeps x (f x).1.

Class EngineKeeps (St : Type) `{!Engine St} : Prop := {
  new_object_keeps : keeping eng_new_object;
  new_array_keeps : keeping eng_new_array;
  set_uint32_keeps o i v : keeping (eng_set_uint32 o i v);
  set_str_keeps o n v : keeping (eng_set_str o n v);
  global_keeps : keeping eng_global;
  new_c_function_keeps f n m : keeping (eng_new_c_function f n m);
  stringify_keeps v : keeping (eng_stringify v);
  parse_json_keeps b f : keeping (eng_parse_json b f);
  eval_keeps c f : keeping (eng_eval c f);
  to_cstring_keeps v : keeping (eng_to_cstring v);
  throw_keeps f a : keeping (eng_throw_type_error f a);
  get_exception_keeps : keeping eng_get_exception;
  stack_top_keeps : keeping eng_update_stack_top;
  pending_job_keeps : keeping eng_execute_pending_job;
  typed_array_keeps v : keeping (eng_typed_array_buffer v);
  array_buffer_keeps v : keeping (eng_array_buffer v);
}.

Class HostKeeps (St : Type) `{!Host St} : Prop := {
  callback_keeps cb a : keeping (host_callback cb a);
  bytes_callback_keeps cb n d : keeping (host_bytes_callback cb n d);
  strdup_keeps s : keeping (host_strdup s);
  print_keeps s : keeping (host_print s);
}.

Create HintDb keeps.
#[export] Hint Resolve new_object_keeps new_array_keeps set_uint32_keeps set_str_keeps global_keeps new_c_function_keeps
  stringify_keeps parse_json_keeps eval_keeps to_cstring_keeps throw_keeps get_exception_keeps stack_top_keeps
  pending_job_keeps typed_array_keeps array_buffer_keeps callback_keeps bytes_callback_keeps strdup_keeps print_keeps : keeps.

Section bridge.
Context {St : Type} `{!Engine St} `{!Host St}.

(** The state of a call: what is outside of it and what it has acquired. *)
Record world := World { env : ext St; owned : list resource }.

Definition set_callbacks (x : ext St) (t : list Z) (n : Z) : ext St :=
  Ext (sys x) t n (g_bytes_callbacks x) (g_bytes_callback_count x).
Definition set_bytes_callbacks (x : ext St) (t : list Z) (n : Z) : ext St :=
  Ext (sys x) (g_callbacks x) (g_callback_count x) t n.

(** ** The monad of bridge code *)

Definition M (A : Type) : Type := world -> option (A * world).
Definition retM {A} (a : A) : M A := fun w => Some (a, w).
Definition bindM {A B} (m : M A) (f : A -> M B) : M B := fun w => '(a, w) ← m w; f a w.
Definition get {A} (f : ext St -> A) : M A := fun w => Some (f (env w), w).
Definition modify (f : ext St -> ext St) : M unit := fun w => Some (tt, World (f (env w)) (owned w)).
Definition lift {A} (m : option A) : M A := fun w => a ← m; Some (a, w).

Definition acquire (r : list resource) : M unit := fun w => Some (tt, World (env w) (r ++ owned w)).
Definition release1 (r : resource) : M unit := fun w => o ← remove1 r (owned w); Some (tt, World (env w) o).
Fixpoint release (rs : list resource) : M unit :=
  match rs with [] => retM tt | r :: rs => bindM (release1 r) (fun _ => release rs) end.

(** A call that leaves the bridge; what its result stands for is acquired. *)
Definition call {A} (res : A -> list resource) (f : ext St -> ext St * A) : M A := fun w =>
  let '(x, a) := f (env w) in Some (a, World x (res a ++ owned w)).
Definition call_status {A} : (ext St -> ext St * A) -> M A := call (fun _ => []).
End bridge.

Arguments world : clear implicits.
Arguments M : clear implicits.

Declare Scope bridge_scope.
Notation "'let!' x ':=' m 'in' k" := (bindM m (fun x => k))
  (at level 200, x pattern, m at level 100, k at level 200, right associativity) : bridge_scope.
Notation "m ';;;' k" := (bindM m (fun _ => k)) (at level 100, k at level 200, right associativity) : bridge_scope.
Open Scope bridge_scope.

Section ops.
Context {St : Type} `{!Engine St} `{!Host St}.
Notation world := (world St).
Notation M := (M St).

(** ** The engine's functions, with their ownership rules *)

Definition JS_NewObject : M JSValue := call vres eng_new_object.
Definition JS_NewArray : M JSValue := call vres eng_new_array.
Definition JS_GetGlobalObject : M JSValue := call vres eng_global.
Definition JS_JSONStringify (v : JSValue) : M JSValue := call vres (eng_stringify v).
Definition JS_ParseJSON (buf : list Z) (filename : string) : M JSValue := call vres (eng_parse_json buf filename).
Definition JS_Eval (code filename : list Z) : M JSValue := call vres (eng_eval code filename).
Definition JS_GetException : M JSValue := call vres eng_get_exception.
Definition JS_NewCFunction2 (f : c_function) (name : list Z) (magic : Z) : M JSValue :=
  call vres (eng_new_c_function f name (s16 magic)).

Definition JS_DupValue (v : JSValue) : M JSValue := acquire (vres v) ;;; retM v.
Definition JS_FreeValue (v : JSValue) : M unit := release (vres v).

(** Setting a property takes the reference of the value, also on failure. *)
Definition JS_SetPropertyUint32 (obj : JSValue) (i : Z) (v : JSValue) : M Z :=
  release (vres v) ;;; call_status (eng_set_uint32 obj i v).
Definition JS_SetPropertyStr (obj : JSValue) (name : list Z) (v : JSValue) : M Z :=
  release (vres v) ;;; call_status (eng_set_str obj name v).

Definition JS_ToCString (v : JSValue) : M (option cstring) := call cres (eng_to_cstring v).
Definition JS_FreeCString (c : cstring) : M unit := release (cres (Some c)).

Definition JS_ThrowTypeError (fmt : string) (args : list Z) : M JSValue :=
  call_status (eng_throw_type_error fmt args) ;;; retM JS_EXCEPTION.

Definition JS_UpdateStackTop : M unit := call_status eng_update_stack_top.
Definition JS_ExecutePendingJob : M Z := call_status eng_execute_pending_job.
Definition JS_IsString (v : JSValue) : M bool := get (eng_is_string v).

Definition JS_GetTypedArrayBuffer (v : JSValue) : M (JSValue * Z * Z) :=
  call (fun r => vres r.1.1) (eng_typed_array_buffer v).
Definition JS_GetArrayBuffer (v : JSValue) : M (option (list Z)) := call_status (eng_array_buffer v).

(** The C library: the string returned is a block owned by the caller. *)
Definition strdup (s : list Z) : M (option cstring) := call bres (host_strdup s).
Definition free (b : cstring) : M unit := release (bres (Some b)).
Definition print_stderr (s : list Z) : M unit := call_status (host_print s).

(** A call through a function pointer, undefined when it is [NULL]. *)
Definition call_host (cb : Z) (args : list Z) : M (option cstring) :=
  if cb =? 0 then fun _ => None else call bres (host_callback cb args).
Definition call_bytes (cb : Z) (name data : list Z) : M unit :=
  if cb =? 0 then fun _ => None else call_status (host_bytes_callback cb name data).

(** ** Dispatch *)

Definition qjs_refresh_stack_top : M unit := JS_UpdateStackTop.

Fixpoint set_elements (arr : JSValue) (i : Z) (argv : list JSValue) : M unit :=
  match argv with
  | [] => retM tt
  | v :: argv =>
      let! d := JS_DupValue v in let! _ := JS_SetPropertyUint32 arr i d in set_elements arr (i + 1) argv
  end.

Definition marshal_args (argv : list JSValue) : M JSValue :=
  match argv with
  | [] => JS_NewObject
  | [v] => JS_JSONStringify v
  | _ =>
      let! arr := JS_NewArray in set_elements arr 0 argv ;;;
      let! json_val := JS_JSONStringify arr in JS_FreeValue arr ;;; retM json_val
  end.

Definition qjs_dispatch (argv : list JSValue) (magic : Z) : M JSValue :=
  let! count := get g_callback_count in
  let! cb := (if (magic <? 0) || (magic >=? count) then retM 0
              else let! t := get g_callbacks in lift (rd t magic)) in
  if cb =? 0 then JS_ThrowTypeError "invalid host callback index %d" [magic] else
  let! json_val := marshal_args argv in
  if JS_IsException json_val then
    JS_FreeValue json_val ;;; JS_ThrowTypeError "failed to marshal args to JSON" []
  else
  let! args_json := JS_ToCString json_val in
  JS_FreeValue json_val ;;;
  match args_json with
  | None => JS_ThrowTypeError "failed to convert JSON to string" []
  | Some args_json =>
      let! t := get g_callbacks in
      let! cb := lift (rd t magic) in
      let! result_json := call_host cb (cs_bytes args_json) in
      JS_FreeCString args_json ;;;
      match result_json with
      | None => retM JS_UNDEFINED
      | Some result_json =>
          let! result := JS_ParseJSON (cs_bytes result_json) "<host_result>" in
          free result_json ;;;
          if JS_IsException result then
            JS_FreeValue result ;;; JS_ThrowTypeError "host callback returned invalid JSON" []
          else retM result
      end
  end.

(** ** The public functions *)

Definition qjs_reset_callbacks : M unit := retM tt.

(** [__sync_fetch_and_add] on the counters, and the store into the tables. *)
Definition fetch_and_add_callback_count : M Z :=
  let! idx := get g_callback_count in modify (fun x => set_callbacks x (g_callbacks x) (idx + 1)) ;;; retM idx.
Definition store_callback (idx callback : Z) : M unit :=
  let! t := get g_callbacks in let! t := lift (wr t idx callback) in
  modify (fun x => set_callbacks x t (g_callback_count x)).

Definition qjs_register_host_fn (name : list Z) (callback : Z) : M Z :=
  let! count := get g_callback_count in
  if count >=? MAX_HOST_FNS then retM (-1) else
  let! idx := fetch_and_add_callback_count in
  if idx >=? MAX_HOST_FNS then retM (-1) else
  store_callback idx callback ;;;
  let! fn := JS_NewCFunction2 qjs_dispatch_fn name idx in
  if JS_IsException fn then retM (-1) else
  let! global := JS_GetGlobalObject in
  let! rc := JS_SetPropertyStr global name fn in
  JS_FreeValue global ;;;
  retM (if rc <? 0 then -1 else 0).

(** [want_err] is whether [err_msg] is not [NULL]; the result is the returned
    string and the one stored through [err_msg]. *)
Definition qjs_eval (code : list Z) (filename : option (list Z)) (want_err : bool) : M (option cstring * option cstring) :=
  qjs_refresh_stack_top ;;;
  let! val := JS_Eval code (default (lit "<eval>") filename) in
  if JS_IsException val then
    let! err := JS_GetException in
    let! cstr := JS_ToCString err in
    let! err_msg := (match cstr with
                     | Some cstr => if want_err then strdup (cs_bytes cstr) else retM None
                     | None => retM None
                     end) in
    (match cstr with Some cstr => JS_FreeCString cstr | None => retM tt end) ;;;
    JS_FreeValue err ;;; JS_FreeValue val ;;; retM (None, err_msg)
  else
  let! json := JS_JSONStringify val in
  JS_FreeValue val ;;;
  if JS_IsException json then
    JS_FreeValue json ;;;
    let! err_msg := (if want_err then strdup (lit "failed to serialize result to JSON") else retM None) in retM (None, err_msg)
  else
  let! cstr := JS_ToCString json in
  JS_FreeValue json ;;;
  match cstr with
  | None => let! err_msg := (if want_err then strdup (lit "failed to convert JSON to string") else retM None) in retM (None, err_msg)
  | Some cstr =>
      let! result := strdup (cs_bytes cstr) in JS_FreeCString cstr ;;; retM (result, None)
  end.

(** One round of the loops over the job queue: [Some r] leaves with [r]. *)
Definition report_job_error : M unit :=
  let! err := JS_GetException in
  let! msg := JS_ToCString err in
  print_stderr (lit "[quickjs] pending job error: " ++ match msg with Some m => cs_bytes m | None => lit "(unknown)" end ++ [10]) ;;;
  (match msg with Some m => JS_FreeCString m | None => retM tt end) ;;;
  JS_FreeValue err.

(** [executed++] on an [int]. *)
Definition int_succ (x : Z) : option Z := if x <? 2 ^ 31 - 1 then Some (x + 1) else None.

Definition pending_round (max_jobs : option Z) (executed : Z) : M (Z + Z) :=
  let! rc := JS_ExecutePendingJob in
  if rc =? 0 then retM (inr executed)
  else if rc <? 0 then report_job_error ;;; retM (inr (-1))
  else
    let! executed := lift (int_succ executed) in
    match max_jobs with
    | Some max_jobs => if executed >=? max_jobs then retM (inr executed) else retM (inl executed)
    | None => retM (inl executed)
    end.

Fixpoint pending_loop (fuel : nat) (max_jobs : option Z) (executed : Z) : M Z :=
  match fuel with
  | O => fun _ => None
  | S fuel =>
      let! r := pending_round max_jobs executed in
      match r with inl executed => pending_loop fuel max_jobs executed | inr r => retM r end
  end.

Definition qjs_execute_pending_jobs (fuel : nat) : M Z :=
  qjs_refresh_stack_top ;;; pending_loop fuel None 0.

Definition qjs_execute_pending_jobs_capped (fuel : nat) (max_jobs : Z) : M Z :=
  qjs_refresh_stack_top ;;; pending_loop fuel (Some max_jobs) 0.

Definition qjs_set_global_json (name json : list Z) : M Z :=
  let! val := JS_ParseJSON json "<global>" in
  if JS_IsException val then retM (-1) else
  let! global := JS_GetGlobalObject in
  let! rc := JS_SetPropertyStr global name val in
  JS_FreeValue global ;;; retM rc.

(** ** Sleeping

    The [i]-th call of [nanosleep] returns its status, whether [errno] is
    [EINTR], and the remaining time stored through its second argument (here
    the first one again). *)

Fixpoint nanosleep_loop (nanosleep : nat -> Z * Z -> Z * bool * (Z * Z)) (fuel i : nat) (ts : Z * Z) : option Z :=
  match fuel with
  | O => None
  | S fuel =>
      let '(r, eintr, rem) := nanosleep i ts in
      if (r =? -1) && eintr then nanosleep_loop nanosleep fuel (S i) rem else Some 0
  end.

Definition qjs_sleep_ms (nanosleep : nat -> Z * Z -> Z * bool * (Z * Z)) (fuel : nat) (ms : Z) : option Z :=
  if ms <=? 0 then Some 0
  else nanosleep_loop nanosleep fuel 0 (Z.quot ms 1000, Z.rem ms 1000 * 1000000).

(** ** Bytes host functions *)

Definition bytes_call (magic : Z) (argv0 : JSValue) (ptr : list Z) (offset length : Z) : M JSValue :=
  let! name := JS_ToCString argv0 in
  match name with
  | None => JS_ThrowTypeError "failed to convert name" []
  | Some name =>
      let! t := get g_bytes_callbacks in
      let! cb := lift (rd t magic) in
      call_bytes cb (cs_bytes name) (zslice ptr offset (offset + length)) ;;;
      JS_FreeCString name ;;; retM JS_UNDEFINED
  end.

Definition qjs_bytes_dispatch (argv : list JSValue) (magic : Z) : M JSValue :=
  let! count := get g_bytes_callback_count in
  let! cb := (if (magic <? 0) || (magic >=? count) then retM 0
              else let! t := get g_bytes_callbacks in lift (rd t magic)) in
  if cb =? 0 then JS_ThrowTypeError "invalid bytes callback index %d" [magic] else
  match argv with
  | argv0 :: argv1 :: _ =>
      let! str := JS_IsString argv0 in
      if negb str then JS_ThrowTypeError "expected (name, typedArray)" [] else
      let! (b, offset, length) := JS_GetTypedArrayBuffer argv1 in
      if JS_IsException b then JS_ThrowTypeError "second argument must be a typed array" [] else
      let! ptr := JS_GetArrayBuffer b in
      JS_FreeValue b ;;;
      match ptr with
      | None => JS_ThrowTypeError "typed array has no backing buffer" []
      | Some ptr =>
          let absize := zlen ptr in
          if (offset >? absize) || (length >? u64 (absize - offset)) then
            JS_ThrowTypeError "typed array range out of bounds" []
          else bytes_call magic argv0 ptr offset length
      end
  | _ => JS_ThrowTypeError "expected (name, typedArray)" []
  end.

Definition fetch_and_add_bytes_callback_count : M Z :=
  let! idx := get g_bytes_callback_count in modify (fun x => set_bytes_callbacks x (g_bytes_callbacks x) (idx + 1)) ;;; retM idx.
Definition store_bytes_callback (idx callback : Z) : M unit :=
  let! t := get g_bytes_callbacks in let! t := lift (wr t idx callback) in
  modify (fun x => set_bytes_callbacks x t (g_bytes_callback_count x)).

Definition qjs_register_bytes_fn (name : list Z) (callback : Z) : M Z :=
  let! count := get g_bytes_callback_count in
  if count >=? MAX_HOST_FNS then retM (-1) else
  let! idx := fetch_and_add_bytes_callback_count in
  if idx >=? MAX_HOST_FNS then retM (-1) else
  store_bytes_callback idx callback ;;;
  let! fn := JS_NewCFunction2 qjs_bytes_dispatch_fn name idx in
  if JS_IsException fn then retM (-1) else
  let! global := JS_GetGlobalObject in
  let! rc := JS_SetPropertyStr global name fn in
  JS_FreeValue global ;;;
  retM (if rc <? 0 then -1 else 0).
End ops.

(** ** Reasoning about bridge code *)

Lemma remove1_perm r l f : l ≡ₚ r :: f -> exists l', remove1 r l = Some l' /\ l' ≡ₚ f.
Proof.
  revert f. induction l as [|x l IH]; intros f Hp.
  { apply Permutation_nil_l in Hp. done. }
  cbn [remove1]. destruct (decide (x = r)) as [->|Hne].
  - exists l. split; [done|]. by apply (Permutation_cons_inv (a := r)).
  - assert (r ∈ l) as Hr.
    { assert (r ∈ x :: l) as Hin by (rewrite Hp; by left). apply elem_of_cons in Hin as [->|?]; [done|done]. }
    apply list_elem_of_split in Hr as (a & b & Hl).
    assert (l ≡ₚ r :: a ++ b) as Hl' by (rewrite Hl; by rewrite Permutation_middle).
    destruct (IH _ Hl') as (l' & -> & Hl''). exists (x :: l'). split; [done|]. rewrite Hl''.
    apply (Permutation_cons_inv (a := r)). rewrite <- Hp, Hl'. apply perm_swap.
Qed.

Section logic.
Context {St : Type} `{!Engine St} `{!Host St}.
Notation M := (M St).
Implicit Types (x : ext St) (o : list resource).

(** [run m x o Q]: with the state [x] outside and the resources [o], the code
    [m] is defined and ends in a state that satisfies [Q]. *)
Definition run {A} (m : M A) x o (Q : A -> ext St -> list resource -> Prop) : Prop :=
  exists a x' o', m (World x o) = Some (a, World x' o') /\ Q a x' o'.

Lemma run_ret {A} (a : A) x o (Q : A -> ext St -> list resource -> Prop) : Q a x o -> run (retM a) x o Q.
Proof. intros HQ. by exists a, x, o. Qed.

Lemma run_bind {A B} (m : M A) (f : A -> M B) x o Q :
  run m x o (fun a x o => run (f a) x o Q) -> run (bindM m f) x o Q.
Proof.
  intros (a & x' & o' & Hm & b & x'' & o'' & Hf & HQ). exists b, x'', o''.
  split; [|done]. unfold bindM. rewrite Hm. exact Hf.
Qed.

Lemma run_get {A} (f : ext St -> A) x o (Q : A -> ext St -> list resource -> Prop) : Q (f x) x o -> run (get f) x o Q.
Proof. intros HQ. by exists (f x), x, o. Qed.

Lemma run_modify f x o (Q : unit -> ext St -> list resource -> Prop) : Q tt (f x) o -> run (modify f) x o Q.
Proof. intros HQ. by exists tt, (f x), o. Qed.

Lemma run_lift {A} (m : option A) a x o (Q : A -> ext St -> list resource -> Prop) :
  m = Some a -> Q a x o -> run (lift m) x o Q.
Proof. intros -> HQ. by exists a, x, o. Qed.

Lemma run_call {A} (res : A -> list resource) (f : ext St -> ext St * A) x o (Q : A -> ext St -> list resource -> Prop) :
  Q (f x).2 (f x).1 (res (f x).2 ++ o) -> run (call res f) x o Q.
Proof.
  intros HQ. exists (f x).2, (f x).1, (res (f x).2 ++ o). split; [|done]. unfold call. cbn [env owned]. by destruct (f x).
Qed.

Lemma run_release rs f x o (Q : unit -> ext St -> list resource -> Prop) :
  o ≡ₚ rs ++ f -> (forall o', o' ≡ₚ f -> Q tt x o') -> run (release rs) x o Q.
Proof.
  revert o. induction rs as [|r rs IH]; intros o Ho HQ; [apply run_ret, HQ, Ho|].
  cbn [release]. apply run_bind. destruct (remove1_perm r o (rs ++ f) Ho) as (o' & Hr & Ho').
  exists tt, x, o'. split; [unfold release1; cbn [owned]; by rewrite Hr|]. by apply IH.
Qed.

Lemma run_dup v x o (Q : JSValue -> ext St -> list resource -> Prop) : Q v x (vres v ++ o) -> run (JS_DupValue v) x o Q.
Proof. intros HQ. by exists v, x, (vres v ++ o). Qed.

Lemma run_throw fmt args x o (Q : JSValue -> ext St -> list resource -> Prop) :
  Q JS_EXCEPTION (eng_throw_type_error fmt args x).1 o -> run (JS_ThrowTypeError fmt args) x o Q.
Proof. intros HQ. apply run_bind, run_call, run_ret, HQ. Qed.

(** Setting a property gives up the value. *)
Lemma run_set (v : JSValue) (g : ext St -> ext St * Z) f x o (Q : Z -> ext St -> list resource -> Prop) :
  o ≡ₚ vres v ++ f -> (forall o', o' ≡ₚ f -> Q (g x).2 (g x).1 o') ->
  run (release (vres v) ;;; call_status g) x o Q.
Proof.
  intros Ho HQ. apply run_bind. apply (run_release _ f); [done|]. intros o' Ho'. by apply run_call, HQ.
Qed.

(** ** The promise about the tables, compositionally *)

Lemma keeps_refl x : keeps x x.
Proof. unfold keeps. split_and!; (done || lia). Qed.

Lemma keeps_trans x y z : keeps x y -> keeps y z -> keeps x z.
Proof.
  intros (A1 & A2 & A3 & A4 & A5 & A6) (B1 & B2 & B3 & B4 & B5 & B6).
  unfold keeps. split_and!; try (congruence || lia).
  - intros m Hm. rewrite B3; [by apply A3|]. by rewrite A3.
  - intros m Hm. rewrite B6; [by apply A6|]. by rewrite A6.
Qed.

Definition keeper {A} (m : M A) : Prop := forall w a w', m w = Some (a, w') -> keeps (env w) (env w').

Lemma keeper_ret {A} (a : A) : keeper (retM a).
Proof. intros w b w' [= <- <-]. apply keeps_refl. Qed.

Lemma keeper_bind {A B} (m : M A) (f : A -> M B) : keeper m -> (forall a, keeper (f a)) -> keeper (bindM m f).
Proof.
  intros Hm Hf w b w'. unfold bindM. destruct (m w) as [[a w1]|] eqn:E; [|done]. cbn [mbind option_bind]. intros Hb.
  eapply keeps_trans; [by eapply Hm|by eapply Hf].
Qed.

Lemma keeper_get {A} (f : ext St -> A) : keeper (get f).
Proof. intros w a w' [= <- <-]. apply keeps_refl. Qed.

Lemma keeper_lift {A} (m : option A) : keeper (lift m).
Proof. intros w a w'. unfold lift. destruct m; [|done]. intros [= <- <-]. apply keeps_refl. Qed.

Lemma keeper_call {A} (res : A -> list resource) f : keeping f -> keeper (call res f).
Proof. intros Hf [x o] a w'. unfold call. cbn [env owned]. specialize (Hf x). destruct (f x). by intros [= <- <-]. Qed.

Lemma keeper_release rs : keeper (release rs).
Proof.
  induction rs as [|r rs IH]; [apply keeper_ret|]. apply keeper_bind; [|done].
  intros w a w'. unfold release1. destruct (remove1 r (owned w)); [|done]. intros [= <- <-]. apply keeps_refl.
Qed.

Lemma keeper_acquire rs : keeper (acquire rs).
Proof. intros w a w' [= <- <-]. apply keeps_refl. Qed.

Lemma keeper_none {A} : keeper (fun _ => @None (A * world St)).
Proof. by intros w a w'. Qed.
End logic.

#[export] Hint Resolve keeper_ret keeper_get keeper_lift keeper_release keeper_acquire keeper_none keeper_call : keeps.

(** Code without stores into the tables keeps the promise of what it calls. *)
Ltac keeper_tac :=
  repeat match goal with
  | |- keeper (bindM _ _) => apply keeper_bind; [|intros]
  | |- keeper (match ?x with _ => _ end) => destruct x
  | |- keeper _ => solve [eauto with keeps]
  | |- keeper ?m => let m' := eval hnf in m in progress change (keeper m')
  end.
