(* ===== verification/BridgeSpec.v ===== *)
(** * What the bridge promises

    The contracts of the bridge functions as rules without resources, and the
    theorems that the code of [Bridge] follows them, is defined on every
    branch, releases all it acquires but what it returns and keeps the
    callbacks registered, whatever the engine and the host do meanwhile. *)

From Stdlib Require Import Ascii String.
From S2P Require Import Prelude CArray Bridge.
Open Scope Z_scope.
Open Scope bridge_scope.

Section spec.
Context {St : Type} `{!Engine St} `{!Host St}.
Notation world := (world St).
Implicit Types (x : ext St) (w : world) (argv : list JSValue).

Notation callback_of x magic := (registered (g_callbacks x) (g_callback_count x) magic).
Notation bytes_callback_of x magic := (registered (g_bytes_callbacks x) (g_bytes_callback_count x) magic).

Definition tables_ok x : Prop :=
  zlen (g_callbacks x) = MAX_HOST_FNS /\ 0 <= g_callback_count x /\
  zlen (g_bytes_callbacks x) = MAX_HOST_FNS /\ 0 <= g_bytes_callback_count x.

(** ** Contracts *)

(** The elements of an array, from index [i] on, are set one by one. *)
Inductive elements_set (arr : JSValue) : ext St -> Z -> list JSValue -> ext St -> Prop :=
  | elements_none x i : elements_set arr x i [] x
  | elements_one x i v argv x' : elements_set arr (eng_set_uint32 arr i v x).1 (i + 1) argv x' ->
      elements_set arr x i (v :: argv) x'.

(** The value whose text a callback receives: the JSON of the only argument,
    the JSON of the array of several ones, and a new object itself (not its
    JSON) when there is none. *)
Inductive args_value : ext St -> list JSValue -> ext St -> JSValue -> Prop :=
  | args_none x x1 v : eng_new_object x = (x1, v) -> args_value x [] x1 v
  | args_single x v x1 json : eng_stringify v x = (x1, json) -> args_value x [v] x1 json
  | args_many x argv x1 arr x2 x3 json : 1 < zlen argv ->
      eng_new_array x = (x1, arr) -> elements_set arr x1 0 argv x2 -> eng_stringify arr x2 = (x3, json) ->
      args_value x argv x3 json.

(** The callback [cb] receives the text [text] of the arguments in state [x']. *)
Inductive callback_called x argv (cb : Z) (text : list Z) : ext St -> option cstring -> Prop :=
  | called x1 v x2 s x3 r : args_value x argv x1 v -> JS_IsException v = false ->
      eng_to_cstring v x1 = (x2, Some s) -> cs_bytes s = text -> host_callback cb text x2 = (x3, r) ->
      callback_called x argv cb text x3 r.

(** A call of a host function: the state and the value it ends with. *)
Inductive dispatched (magic : Z) x argv : ext St -> JSValue -> Prop :=
  | dispatch_unknown : callback_of x magic = 0 ->
      dispatched magic x argv (eng_throw_type_error "invalid host callback index %d" [magic] x).1 JS_EXCEPTION
  | dispatch_no_json x1 v : callback_of x magic <> 0 -> args_value x argv x1 v -> JS_IsException v = true ->
      dispatched magic x argv (eng_throw_type_error "failed to marshal args to JSON" [] x1).1 JS_EXCEPTION
  | dispatch_no_text x1 v x2 : callback_of x magic <> 0 -> args_value x argv x1 v -> JS_IsException v = false ->
      eng_to_cstring v x1 = (x2, None) ->
      dispatched magic x argv (eng_throw_type_error "failed to convert JSON to string" [] x2).1 JS_EXCEPTION
  | dispatch_undefined cb text x1 : callback_of x magic = cb -> cb <> 0 ->
      callback_called x argv cb text x1 None -> dispatched magic x argv x1 JS_UNDEFINED
  | dispatch_value cb text x1 r x2 v : callback_of x magic = cb -> cb <> 0 ->
      callback_called x argv cb text x1 (Some r) ->
      eng_parse_json (cs_bytes r) "<host_result>" x1 = (x2, v) -> JS_IsException v = false ->
      dispatched magic x argv x2 v
  | dispatch_bad_json cb text x1 r x2 v : callback_of x magic = cb -> cb <> 0 ->
      callback_called x argv cb text x1 (Some r) ->
      eng_parse_json (cs_bytes r) "<host_result>" x1 = (x2, v) -> JS_IsException v = true ->
      dispatched magic x argv (eng_throw_type_error "host callback returned invalid JSON" [] x2).1 JS_EXCEPTION.

(** The message a caller who asked for it gets: a copy, when there is one. *)
Inductive reported x (want_err : bool) : option (list Z) -> ext St -> option cstring -> Prop :=
  | report_nothing msg : want_err = false \/ msg = None -> reported x want_err msg x None
  | report_copy s x' b : want_err = true -> host_strdup s x = (x', b) -> reported x want_err (Some s) x' b.

(** An evaluation: the text of the result and the error message. *)
Inductive evaluated (code filename : list Z) (want_err : bool) x : ext St -> option cstring -> option cstring -> Prop :=
  | eval_value x1 v x2 json x3 s x4 b :
      eng_eval code filename (eng_update_stack_top x).1 = (x1, v) -> JS_IsException v = false ->
      eng_stringify v x1 = (x2, json) -> JS_IsException json = false ->
      eng_to_cstring json x2 = (x3, Some s) -> host_strdup (cs_bytes s) x3 = (x4, b) ->
      evaluated code filename want_err x x4 b None
  | eval_throws x1 v x2 err x3 s x4 b :
      eng_eval code filename (eng_update_stack_top x).1 = (x1, v) -> JS_IsException v = true ->
      eng_get_exception x1 = (x2, err) -> eng_to_cstring err x2 = (x3, s) ->
      reported x3 want_err (cs_bytes <$> s) x4 b -> evaluated code filename want_err x x4 None b
  | eval_no_json x1 v x2 json x3 b :
      eng_eval code filename (eng_update_stack_top x).1 = (x1, v) -> JS_IsException v = false ->
      eng_stringify v x1 = (x2, json) -> JS_IsException json = true ->
      reported x2 want_err (Some (lit "failed to serialize result to JSON")) x3 b ->
      evaluated code filename want_err x x3 None b
  | eval_no_text x1 v x2 json x3 x4 b :
      eng_eval code filename (eng_update_stack_top x).1 = (x1, v) -> JS_IsException v = false ->
      eng_stringify v x1 = (x2, json) -> JS_IsException json = false -> eng_to_cstring json x2 = (x3, None) ->
      reported x3 want_err (Some (lit "failed to convert JSON to string")) x4 b ->
      evaluated code filename want_err x x4 None b.

(** ** The code follows the contracts *)

Lemma JS_IsException_vres v : JS_IsException v = true -> vres v = [].
Proof. by destruct v. Qed.

Lemma registered_low t n magic : registered t n magic <> 0 -> 0 <= magic < n.
Proof. unfold registered. destruct ((magic <? 0) || _) eqn:E; [done|]. zbool. lia. Qed.

Lemma registered_rd t n magic : registered t n magic <> 0 -> rd t magic = Some (registered t n magic).
Proof.
  unfold registered. destruct ((magic <? 0) || _) eqn:E; [done|]. by destruct (rd t magic).
Qed.

Lemma set_elements_run arr i argv x o (Q : unit -> ext St -> list resource -> Prop) :
  (forall x' o', elements_set arr x i argv x' -> o' ≡ₚ o -> Q tt x' o') -> run (set_elements arr i argv) x o Q.
Proof.
  revert i x o. induction argv as [|v argv IH]; intros i x o HQ; cbn [set_elements].
  - apply run_ret, HQ; [constructor|done].
  - apply run_bind, run_dup, run_bind. apply (run_set _ _ o); [done|]. intros o' Ho'.
    apply IH. intros x' o'' Hx' Ho''. apply HQ; [by constructor|by rewrite Ho''].
Qed.

Lemma marshal_run argv x o (Q : JSValue -> ext St -> list resource -> Prop) :
  (forall v x' o', args_value x argv x' v -> o' ≡ₚ vres v ++ o -> Q v x' o') -> run (marshal_args argv) x o Q.
Proof.
  intros HQ. destruct argv as [|v [|v' argv]]; unfold marshal_args.
  - apply run_call, HQ; [|done]. apply args_none. by destruct (eng_new_object x).
  - apply run_call, HQ; [|done]. apply args_single. by destruct (eng_stringify v x).
  - apply run_bind, run_call. destruct (eng_new_array x) as [x1 arr] eqn:E1. cbn [fst snd].
    apply run_bind, set_elements_run. intros x2 o1 Hx2 Ho1. apply run_bind, run_call, run_bind.
    destruct (eng_stringify arr x2) as [x3 json] eqn:E3. cbn [fst snd].
    apply (run_release _ (vres json ++ o)); [rewrite Ho1; apply Permutation_app_swap_app|].
    intros o2 Ho2. apply run_ret, HQ; [|done]. eapply args_many; [|done..].
    rewrite !zlen_cons. pose proof (zlen_nonneg argv). lia.
Qed.

(** Both dispatchers find their callback the same way. *)
Lemma callback_run (tab : ext St -> list Z) n magic x o (Q : Z -> ext St -> list resource -> Prop) :
  zlen (tab x) = MAX_HOST_FNS -> magic < MAX_HOST_FNS -> Q (registered (tab x) n magic) x o ->
  run (if (magic <? 0) || (magic >=? n) then retM 0 else let! t := get tab in lift (rd t magic)) x o Q.
Proof.
  intros Hlen Hmagic HQ. unfold registered in HQ. destruct ((magic <? 0) || _) eqn:E; [by apply run_ret|]. zbool.
  apply run_bind, run_get. destruct (rd_is_Some (tab x) magic ltac:(lia)) as [y Hy].
  rewrite Hy in HQ. by apply (run_lift _ y).
Qed.

(** What the callback returned is parsed. *)
Lemma host_result_run (r : option cstring) x o f (Q : JSValue -> ext St -> list resource -> Prop) :
  o ≡ₚ bres r ++ f ->
  (r = None -> forall o', o' ≡ₚ f -> Q JS_UNDEFINED x o') ->
  (forall r' x' v o', r = Some r' -> eng_parse_json (cs_bytes r') "<host_result>" x = (x', v) -> JS_IsException v = false ->
     o' ≡ₚ vres v ++ f -> Q v x' o') ->
  (forall r' x' v o', r = Some r' -> eng_parse_json (cs_bytes r') "<host_result>" x = (x', v) -> JS_IsException v = true ->
     o' ≡ₚ f -> Q JS_EXCEPTION (eng_throw_type_error "host callback returned invalid JSON" [] x').1 o') ->
  run (match r with
       | None => retM JS_UNDEFINED
       | Some result_json =>
           let! result := JS_ParseJSON (cs_bytes result_json) "<host_result>" in
           free result_json ;;;
           if JS_IsException result then
             JS_FreeValue result ;;; JS_ThrowTypeError "host callback returned invalid JSON" []
           else retM result
       end) x o Q.
Proof.
  intros Ho H1 H2 H3. destruct r as [r|]; [|by apply run_ret, H1].
  apply run_bind, run_call. destruct (eng_parse_json (cs_bytes r) "<host_result>" x) as [x1 v] eqn:Hv. cbn [fst snd].
  apply run_bind. apply (run_release _ (vres v ++ f)); [rewrite Ho; apply Permutation_app_swap_app|]. intros o2 Ho2.
  destruct (JS_IsException v) eqn:Hex; [|by apply run_ret, (H2 r)].
  apply run_bind. unfold JS_FreeValue. rewrite (JS_IsException_vres v Hex) in *. by apply run_ret, run_throw, (H3 r x1 v).
Qed.

Lemma keeping_eq {A} (f : ext St -> ext St * A) x x' a : keeping f -> f x = (x', a) -> keeps x x'.
Proof. intros Hf Hx. specialize (Hf x). by rewrite Hx in Hf. Qed.

Lemma keeps_callback x x' magic : keeps x x' -> callback_of x magic <> 0 -> callback_of x' magic = callback_of x magic.
Proof. intros (_ & _ & H & _). apply H. Qed.

Lemma keeps_bytes_callback x x' magic :
  keeps x x' -> bytes_callback_of x magic <> 0 -> bytes_callback_of x' magic = bytes_callback_of x magic.
Proof. intros (_ & _ & _ & _ & _ & H). apply H. Qed.

Lemma keeps_tables_ok x x' : keeps x x' -> tables_ok x -> tables_ok x'.
Proof. intros (H1 & H2 & _ & H4 & H5 & _) (? & ? & ? & ?). unfold tables_ok. rewrite H1, H4. split_and!; (done || lia). Qed.

Lemma elements_set_keeps `{!EngineKeeps St} arr x i argv x' : elements_set arr x i argv x' -> keeps x x'.
Proof. induction 1; [apply keeps_refl|]. eapply keeps_trans; [eapply (set_uint32_keeps arr)|eassumption]. Qed.

Lemma args_value_keeps `{!EngineKeeps St} x argv x' v : args_value x argv x' v -> keeps x x'.
Proof.
  destruct 1 as [x x1 v E|x v x1 j E|x argv x1 arr x2 x3 j _ E1 E2 E3].
  - exact (keeping_eq _ _ _ _ new_object_keeps E).
  - exact (keeping_eq _ _ _ _ (stringify_keeps v) E).
  - eapply keeps_trans; [exact (keeping_eq _ _ _ _ new_array_keeps E1)|].
    eapply keeps_trans; [by eapply elements_set_keeps|]. exact (keeping_eq _ _ _ _ (stringify_keeps arr) E3).
Qed.

Lemma dispatch_run `{!EngineKeeps St} argv magic x o :
  tables_ok x -> magic < MAX_HOST_FNS ->
  run (qjs_dispatch argv magic) x o (fun r x' o' => dispatched magic x argv x' r /\ o' ≡ₚ vres r ++ o).
Proof.
  intros (Hlen & _) Hmagic. unfold qjs_dispatch. apply run_bind, run_get, run_bind.
  apply (callback_run g_callbacks); [done|done|].
  destruct (callback_of x magic =? 0) eqn:Ecb; zbool.
  { apply run_throw. split; [by apply dispatch_unknown|done]. }
  apply run_bind, marshal_run. intros v x1 o1 Hargs Ho1. destruct (JS_IsException v) eqn:Hex.
  { apply run_bind. unfold JS_FreeValue. rewrite (JS_IsException_vres v Hex) in *. apply run_ret, run_throw.
    split; [by eapply dispatch_no_json|done]. }
  apply run_bind, run_call. destruct (eng_to_cstring v x1) as [x2 args] eqn:Etext. cbn [fst snd].
  apply run_bind. apply (run_release _ (cres args ++ o)); [rewrite Ho1; apply Permutation_app_swap_app|].
  intros o2 Ho2. destruct args as [args|]; [|apply run_throw; split; [by eapply dispatch_no_text|done]].
  assert (callback_of x2 magic = callback_of x magic) as Hcb.
  { apply keeps_callback; [|done]. eapply keeps_trans; [by eapply args_value_keeps|].
    exact (keeping_eq _ _ _ _ (to_cstring_keeps v) Etext). }
  apply run_bind, run_get, run_bind. apply (run_lift _ (callback_of x magic)); [rewrite <- Hcb; apply registered_rd; by rewrite Hcb|].
  unfold call_host. replace (callback_of x magic =? 0) with false by lia. apply run_bind, run_call.
  destruct (host_callback (callback_of x magic) (cs_bytes args) x2) as [x3 r] eqn:Ehost. cbn [fst snd].
  assert (callback_called x argv (callback_of x magic) (cs_bytes args) x3 r) as Hcalled by (by eapply called).
  apply run_bind. apply (run_release _ (bres r ++ o)); [rewrite Ho2; apply Permutation_app_swap_app|]. intros o3 Ho3.
  apply (host_result_run r x3 o3 o); [done|..].
  - intros -> o' Ho'. split; [by eapply (dispatch_undefined _ _ _ (callback_of x magic) (cs_bytes args))|done].
  - intros r' x' v' o' -> Hp Hv Ho'. split; [by eapply (dispatch_value _ _ _ (callback_of x magic) (cs_bytes args))|done].
  - intros r' x' v' o' -> Hp Hv Ho'. split; [by eapply (dispatch_bad_json _ _ _ (callback_of x magic) (cs_bytes args))|done].
Qed.

Lemma report_run (want_err : bool) msg x o Q :
  (forall b x' o', reported x want_err (Some msg) x' b -> o' ≡ₚ bres b ++ o -> Q b x' o') ->
  run (if want_err then strdup msg else retM None) x o Q.
Proof.
  intros HQ. destruct want_err.
  - apply run_call, HQ; [|done]. apply report_copy; [done|]. by destruct (host_strdup msg x).
  - apply run_ret, HQ; [|done]. apply report_nothing. by left.
Qed.

Lemma error_run (want_err : bool) msg x o (Q : option cstring * option cstring -> ext St -> list resource -> Prop) :
  (forall b x' o', reported x want_err (Some msg) x' b -> o' ≡ₚ bres b ++ o -> Q (None, b) x' o') ->
  run (let! err_msg := (if want_err then strdup msg else retM None) in retM (None, err_msg)) x o Q.
Proof. intros HQ. apply run_bind, report_run. intros b x' o' Hb Ho'. by apply run_ret, HQ. Qed.

(** The branch of [qjs_eval] that renders an exception. *)
Lemma exception_run (want_err : bool) v x o (Q : option cstring * option cstring -> ext St -> list resource -> Prop) :
  JS_IsException v = true ->
  (forall x1 err x2 s x3 b o', eng_get_exception x = (x1, err) -> eng_to_cstring err x1 = (x2, s) ->
    reported x2 want_err (cs_bytes <$> s) x3 b -> o' ≡ₚ bres b ++ o -> Q (None, b) x3 o') ->
  run (let! err := JS_GetException in
    let! cstr := JS_ToCString err in
    let! err_msg := (match cstr with
                     | Some cstr => if want_err then strdup (cs_bytes cstr) else retM None
                     | None => retM None
                     end) in
    (match cstr with Some cstr => JS_FreeCString cstr | None => retM tt end) ;;;
    JS_FreeValue err ;;; JS_FreeValue v ;;; retM (None, err_msg)) x o Q.
Proof.
  intros Hv HQ. apply run_bind, run_call. destruct (eng_get_exception x) as [x1 err] eqn:E1. cbn [fst snd].
  apply run_bind, run_call. destruct (eng_to_cstring err x1) as [x2 c] eqn:E2. cbn [fst snd].
  assert (forall b x3 o', reported x2 want_err (cs_bytes <$> c) x3 b -> o' ≡ₚ bres b ++ cres c ++ vres err ++ o ->
    run ((match c with Some cstr => JS_FreeCString cstr | None => retM tt end) ;;;
         JS_FreeValue err ;;; JS_FreeValue v ;;; retM (None, b)) x3 o' Q) as Hrest.
  { intros b x3 o' Hb Ho'. apply run_bind. replace (match c with Some cstr => JS_FreeCString cstr | None => retM tt end)
      with (release (St := St) (cres c)) by (by destruct c).
    apply (run_release _ (bres b ++ vres err ++ o)); [rewrite Ho'; apply Permutation_app_swap_app|]. intros o1 Ho1.
    apply run_bind. apply (run_release _ (bres b ++ o)); [rewrite Ho1; apply Permutation_app_swap_app|]. intros o2 Ho2.
    apply run_bind. unfold JS_FreeValue. rewrite (JS_IsException_vres v Hv). by eapply run_ret, run_ret, HQ. }
  apply run_bind. destruct c as [c|].
  - apply report_run. intros b x3 o' Hb Ho'. by apply Hrest.
  - apply run_ret, Hrest; [|done]. apply report_nothing. by right.
Qed.

Lemma eval_run code filename want_err x o :
  run (qjs_eval code filename want_err) x o (fun p x' o' =>
    evaluated code (default (lit "<eval>") filename) want_err x x' p.1 p.2 /\ o' ≡ₚ bres p.1 ++ bres p.2 ++ o).
Proof.
  unfold qjs_eval. apply run_bind, run_call, run_bind, run_call.
  destruct (eng_eval _ _ _) as [x1 v] eqn:E1. cbn [fst snd]. destruct (JS_IsException v) eqn:Hex.
  { rewrite (JS_IsException_vres v Hex). apply exception_run; [done|]. intros x2 err x3 s x4 b o' ? ? ? Ho'.
    split; [by eapply eval_throws|done]. }
  apply run_bind, run_call. destruct (eng_stringify v x1) as [x2 json] eqn:E2. cbn [fst snd].
  apply run_bind. apply (run_release _ (vres json ++ o)); [apply Permutation_app_swap_app|]. intros o1 Ho1.
  destruct (JS_IsException json) eqn:Hex2.
  { apply run_bind. unfold JS_FreeValue. rewrite (JS_IsException_vres _ Hex2) in *. apply run_ret, error_run.
    intros b x' o' Hb Ho'. split; [by eapply eval_no_json|by rewrite Ho', Ho1]. }
  apply run_bind, run_call. destruct (eng_to_cstring json x2) as [x3 text] eqn:E3. cbn [fst snd].
  apply run_bind. apply (run_release _ (cres text ++ o)); [rewrite Ho1; apply Permutation_app_swap_app|]. intros o2 Ho2.
  destruct text as [text|].
  - apply run_bind, run_call. destruct (host_strdup (cs_bytes text) x3) as [x4 b] eqn:E4. cbn [fst snd].
    apply run_bind. apply (run_release _ (bres b ++ o)); [rewrite Ho2; apply Permutation_app_swap_app|].
    intros o3 Ho3. apply run_ret. split; [by eapply eval_value|done].
  - apply error_run. intros b x' o' Hb Ho'. split; [by eapply eval_no_text|by rewrite Ho', Ho2].
Qed.

(** ** The job queue *)

(** [jobs_run x k x']: [k] jobs ran one after the other without an exception. *)
Inductive jobs_run : ext St -> Z -> ext St -> Prop :=
  | jobs_none x : jobs_run x 0 x
  | jobs_one x k x' : 0 < (eng_execute_pending_job x).2 -> jobs_run (eng_execute_pending_job x).1 k x' -> jobs_run x (k + 1) x'.

Lemma jobs_run_nonneg x k x' : jobs_run x k x' -> 0 <= k.
Proof. induction 1; lia. Qed.

(** The effect of a failed job: its error becomes a line on [stderr] and is
    dropped. *)
Definition job_error_spec x : ext St :=
  let '(x, err) := eng_get_exception x in
  let '(x, msg) := eng_to_cstring err x in
  (host_print (lit "[quickjs] pending job error: " ++ match msg with Some m => cs_bytes m | None => lit "(unknown)" end ++ [10]) x).1.

Lemma report_job_error_run x o (Q : unit -> ext St -> list resource -> Prop) :
  (forall o', o' ≡ₚ o -> Q tt (job_error_spec x) o') -> run report_job_error x o Q.
Proof.
  intros HQ. unfold report_job_error, job_error_spec in *. apply run_bind, run_call.
  destruct (eng_get_exception x) as [x1 err]. cbn [fst snd]. apply run_bind, run_call.
  destruct (eng_to_cstring err x1) as [x2 msg]. cbn [fst snd] in *. apply run_bind, run_call, run_bind.
  replace (match msg with Some m => JS_FreeCString m | None => retM tt end) with (release (St := St) (cres msg))
    by (by destruct msg).
  apply (run_release _ (vres err ++ o)); [done|]. intros o1 Ho1. by apply (run_release _ o).
Qed.

(** How a drain of the queue ends: after [k] jobs, the queue is empty, a job
    throws, or the cap is reached. *)
Definition drained (cap : option Z) (executed : Z) x (r : Z) x' : Prop :=
  exists k x1, jobs_run x k x1 /\ (forall c, cap = Some c -> executed + k <= Z.max (executed + 1) c) /\
  (((eng_execute_pending_job x1).2 = 0 /\ x' = (eng_execute_pending_job x1).1 /\ r = executed + k) \/
   ((eng_execute_pending_job x1).2 < 0 /\ x' = job_error_spec (eng_execute_pending_job x1).1 /\ r = -1) \/
   (exists c, cap = Some c /\ 0 < k /\ c <= executed + k /\ x' = x1 /\ r = executed + k)).

Lemma drained_step cap executed x r x' :
  0 < (eng_execute_pending_job x).2 -> (forall c, cap = Some c -> executed + 1 < c) ->
  drained cap (executed + 1) (eng_execute_pending_job x).1 r x' -> drained cap executed x r x'.
Proof.
  intros Hrc Hcap (k & x1 & Hj & Hc & Hend). exists (k + 1), x1. split; [by constructor|].
  split; [intros c Hcc; pose proof (Hc c Hcc); pose proof (Hcap c Hcc); lia|].
  pose proof (jobs_run_nonneg _ _ _ Hj).
  destruct Hend as [(? & ? & ?)|[(? & ? & ?)|(c & ? & ? & ? & ? & ?)]].
  - left. split_and!; (done || lia).
  - right. left. done.
  - right. right. exists c. split_and!; (done || lia).
Qed.

(** The number of jobs is determined when the queue ends before the cap. *)
Lemma jobs_run_det x n x1 k x2 : jobs_run x n x1 -> (eng_execute_pending_job x1).2 <= 0 -> jobs_run x k x2 ->
  k <= n /\ (k = n -> x2 = x1) /\ (k < n -> 0 < (eng_execute_pending_job x2).2).
Proof.
  intros Hn Hend. revert k x2. induction Hn as [x|x n x1 Hrc Hn IH]; intros k x2 Hk.
  - inversion Hk as [|? k' ? Hrc Hk']; subst; [|lia]. split_and!; (done || lia).
  - pose proof (jobs_run_nonneg _ _ _ Hn). inversion Hk as [|? k' ? Hrc' Hk']; subst; [split_and!; (done || lia)|].
    destruct (IH Hend k' x2 Hk') as (? & H1 & H2). split_and!; [lia|intros; apply H1; lia|intros; apply H2; lia].
Qed.

Lemma drained_det x n x1 cap r x' : jobs_run x n x1 -> (eng_execute_pending_job x1).2 <= 0 ->
  (forall c, cap = Some c -> n < c) -> drained cap 0 x r x' ->
  ((eng_execute_pending_job x1).2 = 0 /\ x' = (eng_execute_pending_job x1).1 /\ r = n) \/
  ((eng_execute_pending_job x1).2 < 0 /\ x' = job_error_spec (eng_execute_pending_job x1).1 /\ r = -1).
Proof.
  intros Hn Hend Hcap (k & x2 & Hk & _ & Hd). destruct (jobs_run_det _ _ _ _ _ Hn Hend Hk) as (Hle & Heq & Hlt).
  assert (k = n \/ k < n) as [->|Hkn] by lia.
  - specialize (Heq eq_refl). subst x2. destruct Hd as [(? & ? & ->)|[(? & ? & ->)|(c & -> & _ & ? & _)]].
    + left. split_and!; (done || lia).
    + by right.
    + specialize (Hcap c eq_refl). lia.
  - specialize (Hlt Hkn). destruct Hd as [(? & _)|[(? & _)|(c & -> & _ & ? & _)]]; [lia|lia|]. specialize (Hcap c eq_refl). lia.
Qed.

Lemma pending_round_run cap executed x o :
  0 <= executed < 2 ^ 31 - 1 ->
  run (pending_round cap executed) x o (fun y x' o' => o' ≡ₚ o /\
    match y with
    | inr r => drained cap executed x r x'
    | inl n => n = executed + 1 /\ 0 < (eng_execute_pending_job x).2 /\ x' = (eng_execute_pending_job x).1 /\
               (forall c, cap = Some c -> executed + 1 < c)
    end).
Proof.
  intros Hx. unfold pending_round. apply run_bind, run_call.
  destruct ((eng_execute_pending_job x).2 =? 0) eqn:E0; zbool.
  { apply run_ret. split; [done|]. exists 0, x. split; [constructor|]. split; [lia|]. left. split_and!; (done || lia). }
  destruct ((eng_execute_pending_job x).2 <? 0) eqn:E1; zbool.
  { apply run_bind, report_job_error_run. intros o1 Ho1. apply run_ret. split; [done|].
    exists 0, x. split; [constructor|]. split; [lia|]. right. left. by split_and!. }
  apply run_bind. apply (run_lift _ (executed + 1)); [unfold int_succ; by replace (executed <? 2 ^ 31 - 1) with true by lia|].
  destruct cap as [c|]; [|by apply run_ret; split_and!; try (done || lia)].
  destruct (executed + 1 >=? c) eqn:Ec; zbool; apply run_ret; (split; [done|]).
  - exists 1, (eng_execute_pending_job x).1.
    split; [apply (jobs_one x 0); [lia|constructor]|]. split; [intros ? [= <-]; lia|].
    right. right. exists c. split_and!; (done || lia).
  - split_and!; try (done || lia). intros ? [= <-]. lia.
Qed.

Lemma run_next cap fuel executed x o :
  0 <= executed < 2 ^ 31 - 1 ->
  (0 < (eng_execute_pending_job x).2 -> (forall c, cap = Some c -> executed + 1 < c) -> forall o',
    run (pending_loop fuel cap (executed + 1)) (eng_execute_pending_job x).1 o' (fun r x' o'' =>
      drained cap (executed + 1) (eng_execute_pending_job x).1 r x' /\ o'' ≡ₚ o')) ->
  run (pending_loop (S fuel) cap executed) x o (fun r x' o' => drained cap executed x r x' /\ o' ≡ₚ o).
Proof.
  intros Hx Hnext. cbn [pending_loop]. apply run_bind.
  destruct (pending_round_run cap executed x o Hx) as (y & x1 & o1 & Hr & Ho1 & Hd).
  exists y, x1, o1. split; [exact Hr|]. destruct y as [n|r]; [|by apply run_ret].
  destruct Hd as (-> & Hrc & -> & Hcap).
  destruct (Hnext Hrc Hcap o1) as (r & x' & o' & Hrun & Hdr & Ho'). exists r, x', o'. split; [exact Hrun|].
  split; [by apply drained_step|by rewrite Ho'].
Qed.

(** The capped loop needs at most one round more than the cap. *)
Lemma pending_capped_run c fuel executed x o :
  0 <= executed < 2 ^ 31 - 1 -> c < 2 ^ 31 -> executed = 0 \/ executed < c -> Z.max 1 c - executed < Z.of_nat fuel ->
  run (pending_loop fuel (Some c) executed) x o (fun r x' o' => drained (Some c) executed x r x' /\ o' ≡ₚ o).
Proof.
  revert executed x o. induction fuel as [|fuel IH]; intros executed x o Hx Hc Hlt Hf; [lia|].
  apply run_next; [done|]. intros Hrc Hcap o'. specialize (Hcap c eq_refl). apply IH; lia.
Qed.

(** The other one ends when the queue does. *)
Lemma pending_uncapped_run n x1 fuel executed x o :
  jobs_run x n x1 -> (eng_execute_pending_job x1).2 <= 0 -> 0 <= executed -> executed + n < 2 ^ 31 - 1 -> n < Z.of_nat fuel ->
  run (pending_loop fuel None executed) x o (fun r x' o' => drained None executed x r x' /\ o' ≡ₚ o).
Proof.
  revert n executed x o. induction fuel as [|fuel IH]; intros n executed x o Hj Hend Hx Hb Hf.
  { apply jobs_run_nonneg in Hj. lia. }
  pose proof (jobs_run_nonneg _ _ _ Hj). apply run_next; [lia|]. intros Hrc _ o'.
  inversion Hj as [|? k ? Hrc' Hj']; subst; [lia|]. apply (IH k); (done || lia).
Qed.

(** ** Globals and the bytes lane *)

Lemma set_global_run name json x o :
  run (qjs_set_global_json name json) x o (fun r x' o' =>
    (let '(x1, v) := eng_parse_json json "<global>" x in
     if JS_IsException v then r = -1 /\ x' = x1
     else let '(x2, g) := eng_global x1 in (x', r) = eng_set_str g name v x2) /\ o' ≡ₚ o).
Proof.
  unfold qjs_set_global_json. apply run_bind, run_call. destruct (eng_parse_json _ _ _) as [x1 v]. cbn [fst snd].
  destruct (JS_IsException v) eqn:Hex; [apply run_ret; by rewrite (JS_IsException_vres v Hex)|].
  apply run_bind, run_call. destruct (eng_global x1) as [x2 g]. cbn [fst snd].
  apply run_bind. apply (run_set _ _ (vres g ++ o)); [apply Permutation_app_swap_app|]. intros o1 Ho1.
  apply run_bind. apply (run_release _ o); [done|]. intros o2 Ho2. apply run_ret.
  by destruct (eng_set_str g name v x2).
Qed.

(** The buffer a typed array looks at, and where: found in state [x]. *)
Inductive view_of x (v : JSValue) : ext St -> Z -> Z -> option (list Z) -> Prop :=
  | view x1 b offset length x2 ptr : eng_typed_array_buffer v x = (x1, (b, offset, length)) -> JS_IsException b = false ->
      eng_array_buffer b x1 = (x2, ptr) -> view_of x v x2 offset length ptr.

(** A call of a bytes function. *)
Inductive bytes_dispatched (magic : Z) x argv : ext St -> JSValue -> Prop :=
  | bytes_unknown : bytes_callback_of x magic = 0 ->
      bytes_dispatched magic x argv (eng_throw_type_error "invalid bytes callback index %d" [magic] x).1 JS_EXCEPTION
  | bytes_arguments : bytes_callback_of x magic <> 0 ->
      (forall v0 v1 rest, argv = v0 :: v1 :: rest -> eng_is_string v0 x = false) ->
      bytes_dispatched magic x argv (eng_throw_type_error "expected (name, typedArray)" [] x).1 JS_EXCEPTION
  | bytes_no_array v0 v1 rest x1 b offset length : bytes_callback_of x magic <> 0 -> argv = v0 :: v1 :: rest ->
      eng_is_string v0 x = true -> eng_typed_array_buffer v1 x = (x1, (b, offset, length)) -> JS_IsException b = true ->
      bytes_dispatched magic x argv (eng_throw_type_error "second argument must be a typed array" [] x1).1 JS_EXCEPTION
  | bytes_detached v0 v1 rest x1 offset length : bytes_callback_of x magic <> 0 -> argv = v0 :: v1 :: rest ->
      eng_is_string v0 x = true -> view_of x v1 x1 offset length None ->
      bytes_dispatched magic x argv (eng_throw_type_error "typed array has no backing buffer" [] x1).1 JS_EXCEPTION
  | bytes_outside v0 v1 rest x1 offset length ptr : bytes_callback_of x magic <> 0 -> argv = v0 :: v1 :: rest ->
      eng_is_string v0 x = true -> view_of x v1 x1 offset length (Some ptr) -> zlen ptr < offset + length ->
      bytes_dispatched magic x argv (eng_throw_type_error "typed array range out of bounds" [] x1).1 JS_EXCEPTION
  | bytes_no_name v0 v1 rest x1 offset length ptr x2 : bytes_callback_of x magic <> 0 -> argv = v0 :: v1 :: rest ->
      eng_is_string v0 x = true -> view_of x v1 x1 offset length (Some ptr) ->
      0 <= offset -> 0 <= length -> offset + length <= zlen ptr -> eng_to_cstring v0 x1 = (x2, None) ->
      bytes_dispatched magic x argv (eng_throw_type_error "failed to convert name" [] x2).1 JS_EXCEPTION
  | bytes_handed v0 v1 rest x1 offset length ptr x2 name cb : bytes_callback_of x magic = cb -> cb <> 0 ->
      argv = v0 :: v1 :: rest ->
      eng_is_string v0 x = true -> view_of x v1 x1 offset length (Some ptr) ->
      0 <= offset -> 0 <= length -> offset + length <= zlen ptr -> eng_to_cstring v0 x1 = (x2, Some name) ->
      bytes_dispatched magic x argv
        (host_bytes_callback cb (cs_bytes name) (zslice ptr offset (offset + length)) x2).1 JS_UNDEFINED.

Lemma bytes_call_run `{!EngineKeeps St} magic v0 ptr offset length x0 x o (Q : JSValue -> ext St -> list resource -> Prop) :
  keeps x0 x -> bytes_callback_of x0 magic <> 0 ->
  (forall x', eng_to_cstring v0 x = (x', None) -> Q JS_EXCEPTION (eng_throw_type_error "failed to convert name" [] x').1 o) ->
  (forall x' name o', eng_to_cstring v0 x = (x', Some name) -> o' ≡ₚ o ->
     Q JS_UNDEFINED (host_bytes_callback (bytes_callback_of x0 magic) (cs_bytes name) (zslice ptr offset (offset + length)) x').1 o') ->
  run (bytes_call magic v0 ptr offset length) x o Q.
Proof.
  intros Hk Hcb H1 H2. unfold bytes_call. apply run_bind, run_call. destruct (eng_to_cstring v0 x) as [x' name] eqn:E. cbn [fst snd].
  destruct name as [name|]; [|by apply run_throw, H1].
  assert (bytes_callback_of x' magic = bytes_callback_of x0 magic) as Hcb'.
  { apply keeps_bytes_callback; [|done]. eapply keeps_trans; [exact Hk|]. exact (keeping_eq _ _ _ _ (to_cstring_keeps v0) E). }
  apply run_bind, run_get, run_bind. apply (run_lift _ (bytes_callback_of x0 magic)); [rewrite <- Hcb'; apply registered_rd; by rewrite Hcb'|].
  unfold call_bytes. replace (bytes_callback_of x0 magic =? 0) with false by lia. apply run_bind, run_call, run_bind.
  apply (run_release _ o); [done|]. intros o' Ho'. by apply run_ret, H2.
Qed.

Lemma bytes_dispatch_run `{!EngineSizes St} `{!EngineKeeps St} argv magic x o :
  tables_ok x -> magic < MAX_HOST_FNS ->
  run (qjs_bytes_dispatch argv magic) x o (fun r x' o' => bytes_dispatched magic x argv x' r /\ o' ≡ₚ o).
Proof.
  intros (_ & _ & Hlen & _) Hmagic. unfold qjs_bytes_dispatch. apply run_bind, run_get, run_bind.
  apply (callback_run g_bytes_callbacks); [done|done|].
  destruct (bytes_callback_of x magic =? 0) eqn:Ecb; zbool.
  { apply run_throw. split; [by apply bytes_unknown|done]. }
  destruct argv as [|v0 [|v1 rest]]; [apply run_throw; (split; [by apply bytes_arguments|done])..|].
  apply run_bind, run_get. destruct (eng_is_string v0 x) eqn:Hstr; cbn [negb];
    [|apply run_throw; split; [apply bytes_arguments; [done|by intros ? ? ? [= <- <- <-]]|done]].
  apply run_bind, run_call. destruct (eng_typed_array_buffer v1 x) as [x1 [[b offset] length]] eqn:Hta. cbn [fst snd].
  destruct (JS_IsException b) eqn:Hex.
  { apply run_throw. split; [by eapply bytes_no_array|by rewrite (JS_IsException_vres b Hex)]. }
  apply run_bind, run_call. destruct (eng_array_buffer b x1) as [x2 ptr] eqn:Hb. cbn [fst snd app].
  assert (view_of x v1 x2 offset length ptr) as Hview by (by eapply view).
  apply run_bind. apply (run_release _ o); [done|]. intros o1 Ho1.
  destruct ptr as [ptr|]; [|apply run_throw; split; [by eapply bytes_detached|done]].
  pose proof (typed_array_sizes v1 x) as Hsz. rewrite Hta in Hsz. destruct Hsz as [? ?].
  pose proof (array_buffer_size b x1 ptr ltac:(by rewrite Hb)). pose proof (zlen_nonneg ptr).
  destruct (decide (offset + length <= zlen ptr)) as [Hin|Hout].
  - replace (offset >? zlen ptr) with false by lia. rewrite uwrap_id by (unfold in_u; lia).
    replace (length >? zlen ptr - offset) with false by lia. cbn [orb]. apply (bytes_call_run _ _ _ _ _ x); [|done|..].
    + eapply keeps_trans; [exact (keeping_eq _ _ _ _ (typed_array_keeps v1) Hta)|].
      exact (keeping_eq _ _ _ _ (array_buffer_keeps b) Hb).
    + intros x' Hx'. split; [eapply bytes_no_name; (done || lia)|done].
    + intros x' name o' Hx' Ho'. split; [eapply bytes_handed; (done || lia)|by rewrite Ho'].
  - replace ((offset >? zlen ptr) || (length >? u64 (zlen ptr - offset))) with true; [apply run_throw; split; [eapply bytes_outside; (done || lia)|done]|].
    destruct (offset >? zlen ptr) eqn:E; zbool; [done|]. rewrite uwrap_id by (unfold in_u; lia). cbn [orb]. lia.
Qed.

(** ** Registration *)

(** The function object is created and stored in the global object. *)
Definition install_spec x (f : c_function) (name : list Z) (idx : Z) : ext St * Z :=
  let '(x, fn) := eng_new_c_function f name (s16 idx) x in
  if JS_IsException fn then (x, -1)
  else let '(x, g) := eng_global x in
       let '(x, rc) := eng_set_str g name fn x in (x, if rc <? 0 then -1 else 0).

Lemma install_run f name idx x o :
  run (let! fn := JS_NewCFunction2 f name idx in
       if JS_IsException fn then retM (-1) else
       let! global := JS_GetGlobalObject in
       let! rc := JS_SetPropertyStr global name fn in
       JS_FreeValue global ;;; retM (if rc <? 0 then -1 else 0)) x o
    (fun r x' o' => (x', r) = install_spec x f name idx /\ o' ≡ₚ o).
Proof.
  unfold install_spec. apply run_bind, run_call. destruct (eng_new_c_function _ _ _ _) as [x1 fn]. cbn [fst snd].
  destruct (JS_IsException fn) eqn:Hex; [apply run_ret; by rewrite (JS_IsException_vres fn Hex)|].
  apply run_bind, run_call. destruct (eng_global x1) as [x2 g]. cbn [fst snd].
  apply run_bind. apply (run_set _ _ (vres g ++ o)); [apply Permutation_app_swap_app|]. intros o1 Ho1.
  apply run_bind. apply (run_release _ o); [done|]. intros o2 Ho2. apply run_ret.
  by destruct (eng_set_str g name fn x2).
Qed.

Lemma install_keeps `{!EngineKeeps St} x f name idx : keeps x (install_spec x f name idx).1.
Proof.
  unfold install_spec. pose proof (new_c_function_keeps f name (s16 idx) x) as K1. destruct (eng_new_c_function _ _ _ x) as [x1 fn].
  destruct (JS_IsException fn); [done|]. pose proof (global_keeps x1) as K2. destruct (eng_global x1) as [x2 g].
  pose proof (set_str_keeps g name fn x2) as K3. destruct (eng_set_str g name fn x2) as [x3 rc].
  cbn [fst] in *. eapply keeps_trans; [exact K1|]. by eapply keeps_trans.
Qed.

Lemma register_run name cb x o :
  tables_ok x -> g_callback_count x < MAX_HOST_FNS ->
  run (qjs_register_host_fn name cb) x o (fun r x' o' =>
    (x', r) = install_spec (set_callbacks x (upd (g_callbacks x) (g_callback_count x) cb) (g_callback_count x + 1))
                qjs_dispatch_fn name (g_callback_count x) /\ o' ≡ₚ o).
Proof.
  intros (Hlen & Hpos & _) Hlt. unfold qjs_register_host_fn. apply run_bind, run_get.
  replace (g_callback_count x >=? MAX_HOST_FNS) with false by lia.
  apply run_bind, run_bind, run_get, run_bind, run_modify, run_ret.
  replace (g_callback_count x >=? MAX_HOST_FNS) with false by lia.
  apply run_bind, run_bind, run_get, run_bind. cbn [g_callbacks set_callbacks].
  apply (run_lift _ (upd (g_callbacks x) (g_callback_count x) cb)); [apply wr_upd; lia|].
  apply run_modify. apply install_run.
Qed.

Lemma register_bytes_run name cb x o :
  tables_ok x -> g_bytes_callback_count x < MAX_HOST_FNS ->
  run (qjs_register_bytes_fn name cb) x o (fun r x' o' =>
    (x', r) = install_spec (set_bytes_callbacks x (upd (g_bytes_callbacks x) (g_bytes_callback_count x) cb) (g_bytes_callback_count x + 1))
                qjs_bytes_dispatch_fn name (g_bytes_callback_count x) /\ o' ≡ₚ o).
Proof.
  intros (_ & _ & Hlen & Hpos) Hlt. unfold qjs_register_bytes_fn. apply run_bind, run_get.
  replace (g_bytes_callback_count x >=? MAX_HOST_FNS) with false by lia.
  apply run_bind, run_bind, run_get, run_bind, run_modify, run_ret.
  replace (g_bytes_callback_count x >=? MAX_HOST_FNS) with false by lia.
  apply run_bind, run_bind, run_get, run_bind. cbn [g_bytes_callbacks set_bytes_callbacks].
  apply (run_lift _ (upd (g_bytes_callbacks x) (g_bytes_callback_count x) cb)); [apply wr_upd; lia|].
  apply run_modify. apply install_run.
Qed.

Lemma register_full name cb w : MAX_HOST_FNS <= g_callback_count (env w) -> qjs_register_host_fn name cb w = Some (-1, w).
Proof.
  intros Hfull. unfold qjs_register_host_fn, bindM, get. cbn [mbind option_bind].
  by replace (g_callback_count (env w) >=? MAX_HOST_FNS) with true by lia.
Qed.

Lemma register_bytes_full name cb w :
  MAX_HOST_FNS <= g_bytes_callback_count (env w) -> qjs_register_bytes_fn name cb w = Some (-1, w).
Proof.
  intros Hfull. unfold qjs_register_bytes_fn, bindM, get. cbn [mbind option_bind].
  by replace (g_bytes_callback_count (env w) >=? MAX_HOST_FNS) with true by lia.
Qed.

Lemma registered_upd t n cb magic : 0 <= n < zlen t ->
  registered (upd t n cb) (n + 1) magic = if magic =? n then cb else registered t n magic.
Proof.
  intros Hn. unfold registered. destruct (magic =? n) eqn:E; zbool.
  - subst magic. replace (n <? 0) with false by lia. replace (n >=? n + 1) with false by lia. cbn [orb].
    by rewrite rd_upd_eq by lia.
  - destruct (magic <? 0) eqn:E0; [done|]. zbool. cbn [orb].
    destruct (magic >=? n) eqn:E1; zbool; [by replace (magic >=? n + 1) with true by lia|].
    replace (magic >=? n + 1) with false by lia. by rewrite rd_upd_ne by lia.
Qed.

Lemma registered_keep t n cb m : 0 <= n < zlen t -> registered t n m <> 0 ->
  registered (upd t n cb) (n + 1) m = registered t n m.
Proof.
  intros Hn Hm. rewrite registered_upd by done. pose proof (registered_low _ _ _ Hm). by replace (m =? n) with false by lia.
Qed.

(** The tables after an index was only taken, and after its store. *)
Lemma registered_take t n m : registered t n m <> 0 -> registered t (n + 1) m = registered t n m.
Proof.
  intros Hm. pose proof (registered_low _ _ _ Hm). unfold registered. replace (m <? 0) with false by lia.
  replace (m >=? n) with false by lia. by replace (m >=? n + 1) with false by lia.
Qed.

Lemma take_keeper (k : Z -> M St Z) cb : (forall idx, keeper (k idx)) ->
  keeper (let! idx := fetch_and_add_callback_count in
          if idx >=? MAX_HOST_FNS then retM (-1) else store_callback idx cb ;;; k idx).
Proof.
  intros Hk [x o] a w'. unfold fetch_and_add_callback_count, bindM at 1 2 3, get, modify, retM. cbn [mbind option_bind env].
  destruct (_ >=? MAX_HOST_FNS); [intros [= <- <-]; unfold keeps; cbn; split_and!; try (done || lia); apply registered_take|].
  unfold store_callback, bindM, get, lift, modify. cbn [mbind option_bind env g_callbacks set_callbacks].
  destruct (wr _ _ _) as [t|] eqn:Hwr; [|done]. cbn [mbind option_bind]. apply wr_Some in Hwr as [Hn ->]. intros Hk'.
  eapply keeps_trans; [|exact (Hk _ _ _ _ Hk')]. unfold keeps. cbn. rewrite zlen_upd.
  split_and!; try (done || lia). intros m. by apply registered_keep.
Qed.

Lemma take_bytes_keeper (k : Z -> M St Z) cb : (forall idx, keeper (k idx)) ->
  keeper (let! idx := fetch_and_add_bytes_callback_count in
          if idx >=? MAX_HOST_FNS then retM (-1) else store_bytes_callback idx cb ;;; k idx).
Proof.
  intros Hk [x o] a w'. unfold fetch_and_add_bytes_callback_count, bindM at 1 2 3, get, modify, retM. cbn [mbind option_bind env].
  destruct (_ >=? MAX_HOST_FNS); [intros [= <- <-]; unfold keeps; cbn; split_and!; try (done || lia); apply registered_take|].
  unfold store_bytes_callback, bindM, get, lift, modify. cbn [mbind option_bind env g_bytes_callbacks set_bytes_callbacks].
  destruct (wr _ _ _) as [t|] eqn:Hwr; [|done]. cbn [mbind option_bind]. apply wr_Some in Hwr as [Hn ->]. intros Hk'.
  eapply keeps_trans; [|exact (Hk _ _ _ _ Hk')]. unfold keeps. cbn. rewrite zlen_upd.
  split_and!; try (done || lia). intros m. by apply registered_keep.
Qed.

Section promise.
Context `{!EngineKeeps St} `{!HostKeeps St}.

Lemma dispatch_keeper argv magic : keeper (qjs_dispatch argv magic).
Proof.
  assert (forall arr i, keeper (set_elements arr i argv)) as Hset.
  { intros arr. induction argv as [|v l IH]; intros i; cbn [set_elements]; [eauto with keeps|].
    unfold JS_DupValue, JS_SetPropertyUint32, call_status. keeper_tac. }
  unfold qjs_dispatch, marshal_args, JS_FreeValue, JS_ThrowTypeError, JS_NewObject, JS_NewArray, JS_JSONStringify, JS_ToCString,
    JS_FreeCString, JS_ParseJSON, call_host, free, call_status. keeper_tac.
Qed.

Lemma bytes_dispatch_keeper argv magic : keeper (qjs_bytes_dispatch argv magic).
Proof.
  unfold qjs_bytes_dispatch, bytes_call, JS_IsString, JS_GetTypedArrayBuffer, JS_GetArrayBuffer, JS_ThrowTypeError, JS_FreeValue,
    JS_ToCString, JS_FreeCString, call_bytes, call_status. keeper_tac.
Qed.

Lemma eval_keeper code filename want_err : keeper (qjs_eval code filename want_err).
Proof.
  unfold qjs_eval, qjs_refresh_stack_top, JS_UpdateStackTop, JS_Eval, JS_GetException, JS_ToCString, JS_FreeCString, JS_FreeValue,
    JS_JSONStringify, strdup, call_status. keeper_tac.
Qed.

Lemma pending_keeper fuel cap executed : keeper (pending_loop fuel cap executed).
Proof.
  revert executed. induction fuel as [|fuel IH]; intros executed; cbn [pending_loop]; [eauto with keeps|].
  unfold pending_round, report_job_error, JS_ExecutePendingJob, JS_GetException, JS_ToCString, JS_FreeCString, JS_FreeValue,
    print_stderr, call_status. keeper_tac.
Qed.

Lemma set_global_keeper name json : keeper (qjs_set_global_json name json).
Proof. unfold qjs_set_global_json, JS_ParseJSON, JS_GetGlobalObject, JS_SetPropertyStr, JS_FreeValue, call_status. keeper_tac. Qed.

Lemma register_keeper name cb : keeper (qjs_register_host_fn name cb).
Proof.
  unfold qjs_register_host_fn. apply keeper_bind; [eauto with keeps|]. intros n. destruct (n >=? _); [eauto with keeps|].
  apply take_keeper. intros idx. unfold JS_NewCFunction2, JS_GetGlobalObject, JS_SetPropertyStr, JS_FreeValue, call_status. keeper_tac.
Qed.

Lemma register_bytes_keeper name cb : keeper (qjs_register_bytes_fn name cb).
Proof.
  unfold qjs_register_bytes_fn. apply keeper_bind; [eauto with keeps|]. intros n. destruct (n >=? _); [eauto with keeps|].
  apply take_bytes_keeper. intros idx. unfold JS_NewCFunction2, JS_GetGlobalObject, JS_SetPropertyStr, JS_FreeValue, call_status. keeper_tac.
Qed.

(** The functions of the bridge keep the promise they rely on: code that calls
    them again, from a script, a job or a callback, may do so. *)
Theorem bridge_keeps_tables :
  (forall argv magic, keeper (qjs_dispatch argv magic)) /\ (forall argv magic, keeper (qjs_bytes_dispatch argv magic)) /\
  (forall code filename want_err, keeper (qjs_eval code filename want_err)) /\
  (forall fuel, keeper (qjs_execute_pending_jobs fuel)) /\ (forall fuel c, keeper (qjs_execute_pending_jobs_capped fuel c)) /\
  (forall name json, keeper (qjs_set_global_json name json)) /\
  (forall name cb, keeper (qjs_register_host_fn name cb)) /\ (forall name cb, keeper (qjs_register_bytes_fn name cb)).
Proof.
  split_and!; auto using dispatch_keeper, bytes_dispatch_keeper, eval_keeper, set_global_keeper, register_keeper, register_bytes_keeper.
  - intros fuel. apply keeper_bind; [apply keeper_call, stack_top_keeps|]. intros. apply pending_keeper.
  - intros fuel c. apply keeper_bind; [apply keeper_call, stack_top_keeps|]. intros. apply pending_keeper.
Qed.
End promise.

Lemma s16_low n : 0 <= n < 2 ^ 15 -> s16 n = n.
Proof. intros. apply swrap_id; [lia|]. unfold in_s. lia. Qed.

Lemma s16_high n : 2 ^ 15 <= n < MAX_HOST_FNS -> s16 n < 0.
Proof.
  unfold MAX_HOST_FNS. intros. unfold swrap. change (16 - 1) with 15.
  replace (n + 2 ^ 15) with (n - 2 ^ 15 + 1 * 2 ^ 16) by lia. rewrite Z_mod_plus_full, Z.mod_small by lia. lia.
Qed.

Lemma s16_bound n : s16 n < MAX_HOST_FNS.
Proof. pose proof (swrap_range 16 n ltac:(lia)) as Hr. unfold in_s in Hr. unfold MAX_HOST_FNS. lia. Qed.

(** What the engine makes of the index of a registration: the first 32768
    reach their callback, the others nothing. *)
Lemma registered_s16 t n m : 2 ^ 15 <= m < MAX_HOST_FNS -> registered t n (s16 m) = 0.
Proof. intros Hm. pose proof (s16_high m Hm). unfold registered. by replace (s16 m <? 0) with true by lia. Qed.
End spec.

Notation callback_of x magic := (registered (g_callbacks x) (g_callback_count x) magic).
Notation bytes_callback_of x magic := (registered (g_bytes_callbacks x) (g_bytes_callback_count x) magic).

(** ** Properties *)

Section properties.
Context {St : Type} `{!Engine St} `{!Host St}.
Notation world := (world St).

(** C29. A call of a host function is defined whatever the 16-bit index and
    the arguments are and whatever the engine and the host do meanwhile: an
    index nothing was registered under raises a TypeError and calls nothing;
    otherwise the callback registered under it when the call began is called
    once, with the text of the JSON of the only argument, of the JSON of the
    array of several arguments, or of a new object when there is none (not the
    JSON of an empty object), and its result is parsed, with a TypeError for
    each failure on the way.  All references, C strings and blocks acquired
    are released, but the value returned, and registered callbacks stay. *)
Theorem qjs_dispatch_refines `{!EngineKeeps St, !HostKeeps St} (w : world) (argv : list JSValue) (idx : Z) :
  tables_ok (env w) ->
  exists r x o, qjs_dispatch argv (s16 idx) w = Some (r, World x o) /\
    dispatched (s16 idx) (env w) argv x r /\ o ≡ₚ vres r ++ owned w /\ keeps (env w) x.
Proof.
  intros Hok. destruct w as [x0 o0].
  destruct (dispatch_run argv (s16 idx) x0 o0 Hok (s16_bound idx)) as (r & x & o & Hrun & Hsp & Ho).
  exists r, x, o. split_and!; [exact Hrun|exact Hsp|exact Ho|exact (dispatch_keeper _ _ _ _ _ Hrun)].
Qed.

(** C30. [qjs_eval] returns a copy of the text of the JSON of the script's
    value, where the JSON of [undefined] and of a function is [undefined]
    (not null); or it returns no result and, when asked for, a copy of the
    text of the exception; never both.  The caller owns exactly the blocks
    returned: nothing else is leaked and nothing is freed twice, on any
    branch, whatever the script does. *)
Theorem qjs_eval_refines (w : world) (code : list Z) (filename : option (list Z)) (want_err : bool) :
  exists res err x o, qjs_eval code filename want_err w = Some ((res, err), World x o) /\
    evaluated code (default (lit "<eval>") filename) want_err (env w) x res err /\
    o ≡ₚ bres res ++ bres err ++ owned w /\ (res = None \/ err = None) /\ (want_err = false -> err = None).
Proof.
  destruct w as [x0 o0].
  destruct (eval_run code filename want_err x0 o0) as ([res err] & x & o & Hrun & Hsp & Ho). cbn [fst snd] in *.
  exists res, err, x, o. split; [exact Hrun|]. split; [exact Hsp|]. split; [exact Ho|].
  destruct Hsp as [|? ? ? ? ? ? ? ? ? ? ? ? Hr|? ? ? ? ? ? ? ? ? ? Hr|? ? ? ? ? ? ? ? ? ? ? ? Hr]; [by split; [by right|]|..];
    (split; [by left|]); intros ->; by inversion Hr.
Qed.

(** C38. The capped drain of the job queue ends within [max 1 max_jobs] jobs
    whatever the jobs enqueue: it returns the number of jobs run, because the
    queue is empty or the cap is reached, or -1 after the first job that
    throws, whose error is printed and dropped. *)
Theorem pending_jobs_capped (w : world) (max_jobs : Z) (fuel : nat) :
  max_jobs < 2 ^ 31 -> Z.max 1 max_jobs < Z.of_nat fuel ->
  exists r x o, qjs_execute_pending_jobs_capped fuel max_jobs w = Some (r, World x o) /\
    drained (Some max_jobs) 0 (eng_update_stack_top (env w)).1 r x /\ o ≡ₚ owned w /\
    -1 <= r <= Z.max 1 max_jobs.
Proof.
  intros Hc Hf. destruct w as [x0 o0].
  assert (run (qjs_execute_pending_jobs_capped fuel max_jobs) x0 o0 (fun r x o =>
    drained (Some max_jobs) 0 (eng_update_stack_top x0).1 r x /\ o ≡ₚ o0)) as (r & x & o & Hrun & Hd & Ho).
  { apply run_bind, run_call. apply pending_capped_run; lia. }
  exists r, x, o. split; [exact Hrun|]. split; [exact Hd|]. split; [exact Ho|].
  destruct Hd as (k & x1 & Hj & Hcap & Hend). specialize (Hcap _ eq_refl).
  pose proof (jobs_run_nonneg _ _ _ Hj). destruct Hend as [(_ & _ & ->)|[(_ & _ & ->)|(c & _ & _ & _ & _ & ->)]]; lia.
Qed.

(** Without a cap the drain ends as soon as the queue does: if after [n]
    jobs the queue is empty or a job throws, it returns, with the same
    outcome as a capped drain with a cap above [n]. *)
Theorem pending_jobs_uncapped (w : world) (n max_jobs : Z) (x1 : ext St) (fuel : nat) :
  jobs_run (eng_update_stack_top (env w)).1 n x1 -> (eng_execute_pending_job x1).2 <= 0 ->
  n < 2 ^ 31 - 1 -> n < max_jobs < 2 ^ 31 -> max_jobs < Z.of_nat fuel ->
  exists r x o o', qjs_execute_pending_jobs fuel w = Some (r, World x o) /\
    qjs_execute_pending_jobs_capped fuel max_jobs w = Some (r, World x o') /\
    o ≡ₚ owned w /\ o' ≡ₚ owned w /\ (r = n \/ r = -1).
Proof.
  intros Hj Hend Hn Hm Hf. pose proof (jobs_run_nonneg _ _ _ Hj). destruct w as [x0 o0]. cbn [env owned] in *.
  assert (run (qjs_execute_pending_jobs fuel) x0 o0 (fun r x o =>
    drained None 0 (eng_update_stack_top x0).1 r x /\ o ≡ₚ o0)) as (r & x & o & Hrun & Hd & Ho).
  { apply run_bind, run_call. apply (pending_uncapped_run n x1); (done || lia). }
  assert (run (qjs_execute_pending_jobs_capped fuel max_jobs) x0 o0 (fun r x o =>
    drained (Some max_jobs) 0 (eng_update_stack_top x0).1 r x /\ o ≡ₚ o0)) as (r' & x' & o' & Hrun' & Hd' & Ho').
  { apply run_bind, run_call. apply pending_capped_run; lia. }
  pose proof (drained_det _ _ _ None _ _ Hj Hend ltac:(done) Hd) as Hx.
  pose proof (drained_det _ _ _ (Some max_jobs) _ _ Hj Hend ltac:(intros c [= <-]; lia) Hd') as Hx'. clear Hd Hd'.
  exists r, x, o, o'. rewrite Hrun, Hrun'.
  destruct Hx as [(? & -> & ->)|(? & -> & ->)], Hx' as [(? & -> & ->)|(? & -> & ->)]; try lia; split_and!; auto.
Qed.

(** C39. A call of a bytes function is defined and leaks nothing; the bytes
    handed to the callback registered when the call began are the range inside
    the buffer that the typed array says, and nothing is handed over when the
    index, the arguments or the range are not valid. *)
Theorem qjs_bytes_dispatch_in_bounds `{!EngineSizes St, !EngineKeeps St, !HostKeeps St} (w : world) (argv : list JSValue) (idx : Z) :
  tables_ok (env w) ->
  exists r x o, qjs_bytes_dispatch argv (s16 idx) w = Some (r, World x o) /\
    bytes_dispatched (s16 idx) (env w) argv x r /\ o ≡ₚ owned w /\ keeps (env w) x.
Proof.
  intros Hok. destruct w as [x0 o0].
  destruct (bytes_dispatch_run argv (s16 idx) x0 o0 Hok (s16_bound idx)) as (r & x & o & Hrun & Hsp & Ho).
  exists r, x, o. split_and!; [exact Hrun|exact Hsp|exact Ho|exact (bytes_dispatch_keeper _ _ _ _ _ Hrun)].
Qed.

(** C40. A registration takes the next index for its callback and no other
    index changes its meaning by the store ([x1]); the function object is then
    created and stored in the global object, and 0 returned exactly when that
    succeeds.  Code run by that may register more, but keeps every callback.
    The engine keeps 16 bits of the index: calls reach the callback for the
    first 32768 registrations, and for every later one they find nothing. *)
Theorem qjs_register_host_fn_correct `{!EngineKeeps St} (w : world) (name : list Z) (cb : Z) :
  tables_ok (env w) ->
  exists r w', qjs_register_host_fn name cb w = Some (r, w') /\ tables_ok (env w') /\ owned w' ≡ₚ owned w /\
    (MAX_HOST_FNS <= g_callback_count (env w) -> r = -1 /\ w' = w) /\
    (g_callback_count (env w) < MAX_HOST_FNS -> exists x1,
      sys x1 = sys (env w) /\ g_callback_count x1 = g_callback_count (env w) + 1 /\
      (forall magic, callback_of x1 magic = if magic =? g_callback_count (env w) then cb else callback_of (env w) magic) /\
      (forall magic, bytes_callback_of x1 magic = bytes_callback_of (env w) magic) /\
      (env w', r) = install_spec x1 qjs_dispatch_fn name (g_callback_count (env w)) /\
      (forall magic, callback_of x1 magic <> 0 -> callback_of (env w') magic = callback_of x1 magic) /\
      callback_of x1 (s16 (g_callback_count (env w))) = (if g_callback_count (env w) <? 2 ^ 15 then cb else 0) /\
      (cb <> 0 -> callback_of (env w') (s16 (g_callback_count (env w))) = if g_callback_count (env w) <? 2 ^ 15 then cb else 0)).
Proof.
  intros Hok. destruct w as [x o]. cbn [env owned] in *. set (n := g_callback_count x) in *. destruct (decide (MAX_HOST_FNS <= n)) as [Hfull|Hroom].
  { exists (-1), (World x o). rewrite register_full by done. split_and!; try done; lia. }
  destruct (register_run name cb x o Hok ltac:(lia)) as (r & x' & o' & Hrun & Hsp & Ho).
  pose proof (install_keeps (set_callbacks x (upd (g_callbacks x) n cb) (n + 1)) qjs_dispatch_fn name n) as Hk.
  fold n in Hsp. set (x1 := set_callbacks x _ _) in *. rewrite <- Hsp in Hk. cbn [fst] in Hk.
  destruct Hok as (Hlen & Hpos & Hrest). fold n in Hpos.
  assert (forall magic, callback_of x1 magic = if magic =? n then cb else callback_of x magic) as Hreg
    by (intros magic; apply registered_upd; lia).
  assert (tables_ok x1) as Hok1 by (unfold tables_ok, x1; cbn; rewrite zlen_upd; split; [done|]; split; [lia|done]).
  assert (callback_of x1 (s16 n) = (if n <? 2 ^ 15 then cb else 0)) as Hs16.
  { destruct (n <? 2 ^ 15) eqn:E; zbool; [by rewrite s16_low, Hreg, Z.eqb_refl by lia|apply registered_s16; lia]. }
  eexists r, (World x' o'). split; [exact Hrun|]. split; [by eapply keeps_tables_ok|]. split; [exact Ho|].
  split; [lia|]. intros _. exists x1. split_and!; try done.
  - intros magic. by apply keeps_callback.
  - intros Hcb. destruct (n <? 2 ^ 15) eqn:E; zbool; [|apply registered_s16; lia].
    rewrite <- Hs16. apply keeps_callback; [done|by rewrite Hs16].
Qed.
End properties.

(** ** A small engine

    Its state is the number of jobs in the queue and the list of the texts the
    host received.  A new object has the text of an object, [undefined] is its
    own JSON and every other JSON text is ["x"].  Evaluating a script calls
    the function of index 0 without arguments: the engine under it is
    [toy_base], the same one without scripts.  The callback 88 registers
    another function before it returns. *)

Notation toy := (Z * list (list Z))%type.

Definition toy_text (v : JSValue) : list Z :=
  match v with JS_UNDEFINED => lit "undefined" | JS_REF 1 => lit "[object Object]" | _ => lit "x" end.

Definition toy_job (x : ext toy) : ext toy * Z :=
  if 0 <? (sys x).1 then (Ext ((sys x).1 - 1, (sys x).2) (g_callbacks x) (g_callback_count x) (g_bytes_callbacks x) (g_bytes_callback_count x), 1)
  else (x, 0).

Definition toy_log (text : list Z) (x : ext toy) : ext toy :=
  Ext ((sys x).1, text :: (sys x).2) (g_callbacks x) (g_callback_count x) (g_bytes_callbacks x) (g_bytes_callback_count x).

Definition toy_with (eval : list Z -> list Z -> ext toy -> ext toy * JSValue) : Engine toy := {|
  eng_new_object x := (x, JS_REF 1);
  eng_new_array x := (x, JS_REF 2);
  eng_set_uint32 _ _ _ x := (x, 1);
  eng_set_str _ _ _ x := (x, 1);
  eng_global x := (x, JS_REF 3);
  eng_new_c_function _ _ magic x := (x, JS_REF (10 + magic));
  eng_stringify v x := (x, if decide (v = JS_UNDEFINED) then JS_UNDEFINED else JS_REF 4);
  eng_parse_json _ _ x := (x, JS_IMM 5);
  eng_eval := eval;
  eng_to_cstring v x := (x, Some (CString 100 (toy_text v)));
  eng_is_string _ _ := true;
  eng_throw_type_error _ _ x := (x, tt);
  eng_get_exception x := (x, JS_REF 7);
  eng_update_stack_top x := (x, tt);
  eng_execute_pending_job := toy_job;
  eng_typed_array_buffer _ x := (x, (JS_REF 8, 1, 2));
  eng_array_buffer _ x := (x, Some [10; 20; 30]);
|}.

Definition toy_base : Engine toy := toy_with (fun _ _ x => (x, JS_UNDEFINED)).

#[export] Instance toy_host : Host toy := {|
  host_callback cb args x :=
    (if cb =? 88 then from_option (fun p => env p.2) x (qjs_register_host_fn (Engine0 := toy_base) (lit "g") 99 (World (toy_log args x) []))
     else toy_log args x, if cb =? 88 then None else Some (CString 200 (lit "1")));
  host_bytes_callback cb name data x := (toy_log data x, tt);
  host_strdup s x := (x, Some (CString 300 s));
  host_print s x := (toy_log s x, tt);
|}.

#[export] Instance toy_engine : Engine toy := toy_with (fun _ _ x =>
  match qjs_dispatch (Engine0 := toy_base) [] 0 (World x []) with Some (v, w) => (env w, v) | None => (x, JS_EXCEPTION) end).

Lemma toy_log_keeps text x : keeps x (toy_log text x).
Proof. unfold keeps. split_and!; (done || lia). Qed.

Lemma toy_job_keeps x : keeps x (toy_job x).1.
Proof. unfold toy_job. destruct (0 <? _); unfold keeps; split_and!; (done || lia). Qed.

Lemma toy_with_keeps eval : (forall c f, keeping (eval c f)) -> EngineKeeps (Engine0 := toy_with eval) toy.
Proof.
  intros He. split; intros; intros x; cbn; try (apply keeps_refl || apply toy_job_keeps). apply He.
Qed.

#[export] Instance toy_base_keeps : EngineKeeps (Engine0 := toy_base) toy.
Proof. apply toy_with_keeps. intros c f x. apply keeps_refl. Qed.

#[export] Instance toy_host_keeps : HostKeeps toy.
Proof.
  split; intros; intros x; cbn [fst host_callback host_bytes_callback host_strdup host_print toy_host];
    try (apply keeps_refl || apply toy_log_keeps). destruct (cb =? 88); [|apply toy_log_keeps].
  destruct (qjs_register_host_fn (Engine0 := toy_base) _ _ _) as [[r w]|] eqn:E; [|apply keeps_refl].
  eapply keeps_trans; [apply toy_log_keeps|]. exact (register_keeper _ _ _ _ _ E).
Qed.

#[export] Instance toy_engine_keeps : EngineKeeps (Engine0 := toy_engine) toy.
Proof.
  apply toy_with_keeps. intros c f x. destruct (qjs_dispatch (Engine0 := toy_base) _ _ _) as [[v w]|] eqn:E; [|apply keeps_refl].
  exact (dispatch_keeper _ _ _ _ _ E).
Qed.

#[export] Instance toy_engine_sizes : EngineSizes (Engine0 := toy_engine) toy.
Proof. split; [intros; simpl; lia|]. by intros ? ? ? [= <-]. Qed.

(** Function 0 is the callback 88, bytes function 0 the callback 55. *)
Definition toy_start (jobs : Z) : world toy :=
  World (Ext (jobs, []) (upd (replicate (Z.to_nat MAX_HOST_FNS) 0) 0 88) 1 (upd (replicate (Z.to_nat MAX_HOST_FNS) 0) 0 55) 1) [].

Lemma toy_start_ok jobs : tables_ok (env (toy_start jobs)).
Proof. unfold tables_ok. cbn [toy_start env g_callbacks g_callback_count g_bytes_callbacks g_bytes_callback_count].
  rewrite zlen_upd. unfold zlen. rewrite length_replicate. split_and!; done.
Qed.

(** A call without arguments: the callback receives the text of an object and
    registers another function meanwhile. *)
Lemma qjs_dispatch_refines_witness :
  exists r x o, qjs_dispatch [] (s16 0) (toy_start 0) = Some (r, World x o) /\
    dispatched (s16 0) (env (toy_start 0)) [] x r /\ o ≡ₚ vres r ++ [] /\ keeps (env (toy_start 0)) x /\
    ((sys x).2, callback_of x 0, callback_of x 1) = ([lit "[object Object]"], 88, 99).
Proof.
  destruct (qjs_dispatch_refines (toy_start 0) [] 0 (toy_start_ok 0)) as (r & x & o & Hrun & Hd & Ho & Hk).
  exists r, x, o. split_and!; try assumption.
  assert ((fun p : JSValue * world toy => ((sys (env p.2)).2, callback_of (env p.2) 0, callback_of (env p.2) 1)) <$>
    qjs_dispatch [] (s16 0) (toy_start 0) = Some ([lit "[object Object]"], 88, 99)) as Hx by (vm_compute; reflexivity).
  rewrite Hrun in Hx. by injection Hx as -> -> ->.
Defined.

(** A script whose value is [undefined]: its text is not JSON. *)
Example eval_undefined :
  (fun p => (fst (fst p), (sys (env (snd p))).2)) <$> qjs_eval (lit "f()") None true (toy_start 0) =
  Some (Some (CString 300 (lit "undefined")), [lit "[object Object]"]).
Proof. vm_compute. reflexivity. Qed.

Lemma pending_jobs_capped_witness :
  exists r x o, qjs_execute_pending_jobs_capped 4 3 (toy_start 5) = Some (r, World x o) /\
    drained (Some 3) 0 (env (toy_start 5)) r x /\ o ≡ₚ [] /\ -1 <= r <= Z.max 1 3.
Proof. exact (pending_jobs_capped (toy_start 5) 3 4 ltac:(lia) ltac:(lia)). Defined.

Lemma pending_jobs_uncapped_witness :
  exists r x o o', qjs_execute_pending_jobs 4 (toy_start 2) = Some (r, World x o) /\
    qjs_execute_pending_jobs_capped 4 3 (toy_start 2) = Some (r, World x o') /\
    o ≡ₚ [] /\ o' ≡ₚ [] /\ (r = 2 \/ r = -1).
Proof.
  apply (pending_jobs_uncapped (toy_start 2) 2 3 (env (toy_start 0)) 4); [|cbn; lia..].
  apply (jobs_one (env (toy_start 2)) 1 (env (toy_start 0))); [cbn; lia|].
  apply (jobs_one (env (toy_start 1)) 0 (env (toy_start 0))); [cbn; lia|]. apply jobs_none.
Defined.

Lemma qjs_bytes_dispatch_in_bounds_witness :
  exists r x o, qjs_bytes_dispatch [JS_REF 4; JS_REF 5] (s16 0) (toy_start 0) = Some (r, World x o) /\
    bytes_dispatched (s16 0) (env (toy_start 0)) [JS_REF 4; JS_REF 5] x r /\ o ≡ₚ [] /\ keeps (env (toy_start 0)) x /\
    (sys x).2 = [[20; 30]].
Proof.
  destruct (qjs_bytes_dispatch_in_bounds (toy_start 0) [JS_REF 4; JS_REF 5] 0 (toy_start_ok 0)) as (r & x & o & Hrun & Hd & Ho & Hk).
  exists r, x, o. split_and!; try assumption.
  assert ((fun p : JSValue * world toy => (sys (env p.2)).2) <$>
    qjs_bytes_dispatch [JS_REF 4; JS_REF 5] (s16 0) (toy_start 0) = Some [[20; 30]]) as Hx by (vm_compute; reflexivity).
  rewrite Hrun in Hx. by injection Hx.
Defined.

Lemma qjs_register_host_fn_correct_witness :
  exists r w', qjs_register_host_fn (lit "f") 77 (toy_start 0) = Some (r, w') /\ tables_ok (env w') /\ owned w' ≡ₚ [] /\
    callback_of (env w') 1 = 77 /\ callback_of (env w') 0 = 88.
Proof.
  destruct (qjs_register_host_fn_correct (toy_start 0) (lit "f") 77 (toy_start_ok 0)) as (r & w' & Hrun & Hok & Ho & _ & Hn).
  exists r, w'. destruct (Hn ltac:(done)) as (x1 & _ & _ & Hreg & _ & _ & Hkeep & _ & Hc). split_and!; try assumption.
  - apply Hc. done.
  - assert (callback_of x1 0 = 88) as Hx1 by (rewrite Hreg; vm_compute; reflexivity).
    rewrite Hkeep; [exact Hx1|]. by rewrite Hx1.
Defined.

(** A session: a registration, a call that registers another function, a call
    of the first one, a drain with cap 0 (which still runs one job) and a
    global. *)
Example toy_session :
  fst <$> (let! r := qjs_register_host_fn (lit "f") 77 in
           let! u := qjs_dispatch [] 0 in
           let! v := qjs_dispatch [JS_IMM 1; JS_REF 9] 1 in
           let! n := qjs_execute_pending_jobs_capped 9 0 in
           let! g := qjs_set_global_json (lit "g") (lit "1") in
           fun w => Some ((r, u, v, n, g, sys (env w), (callback_of (env w) 1, callback_of (env w) 2), owned w), w)) (toy_start 3) =
  Some (0, JS_UNDEFINED, JS_IMM 5, 1, 1, (2, [lit "x"; lit "[object Object]"]), (77, 99), []).
Proof. vm_compute. reflexivity. Qed.
