(* ===== verification/BridgeRegister.v ===== *)
(** * Concurrent registration (native/quickjs_bridge.c)

    Isolates on different threads register host functions in the same table.
    [qjs_register_host_fn] reads the counter, takes an index with an atomic
    fetch-and-add, stores its callback and creates the function object, which
    keeps 16 bits of the index ([JS_NewCFunction2]) or fails; the steps of the
    threads interleave in any order.  The rest of the function works on the
    context of the thread alone.

    Memory is sequentially consistent: the counter is changed by an atomic
    operation only (its first test is a plain read, whose value the code does
    not rely on), and an entry of the table is written and read by the thread
    that owns its index. *)

From S2P Require Import Prelude CArray Bridge BridgeSpec.
From stdpp Require Import relations.
Open Scope Z_scope.

(** Where a thread is in [qjs_register_host_fn]. *)
Inductive pc :=
  | Enter                  (* about to test the counter *)
  | Passed                 (* the test passed; about to fetch-and-add *)
  | Got (idx : Z)          (* owns [idx]; about to test it and store *)
  | Stored (idx : Z)       (* the callback is in the table; about to create the function *)
  | Installed (idx magic : Z) (* scripts of the thread have a function with this magic *)
  | Failed (idx : Z)       (* returned -1: no function object *)
  | Refused.               (* returned -1: too many functions *)

Record shared := Shared { count : Z; table : list Z; threads : list pc }.

Section steps.
(** The callback each thread registers. *)
Context (callback : nat -> Z).

Inductive step : shared -> shared -> Prop :=
  | step_pass i n t ps : ps !! i = Some Enter -> n < MAX_HOST_FNS ->
      step (Shared n t ps) (Shared n t (<[i := Passed]> ps))
  | step_refuse i n t ps : ps !! i = Some Enter -> MAX_HOST_FNS <= n ->
      step (Shared n t ps) (Shared n t (<[i := Refused]> ps))
  | step_fetch i n t ps : ps !! i = Some Passed ->
      step (Shared n t ps) (Shared (n + 1) t (<[i := Got n]> ps))
  | step_late i idx n t ps : ps !! i = Some (Got idx) -> MAX_HOST_FNS <= idx ->
      step (Shared n t ps) (Shared n t (<[i := Refused]> ps))
  | step_store i idx n t t' ps : ps !! i = Some (Got idx) -> idx < MAX_HOST_FNS -> wr t idx (callback i) = Some t' ->
      step (Shared n t ps) (Shared n t' (<[i := Stored idx]> ps))
  | step_install i idx n t ps : ps !! i = Some (Stored idx) ->
      step (Shared n t ps) (Shared n t (<[i := Installed idx (s16 idx)]> ps))
  | step_fail i idx n t ps : ps !! i = Some (Stored idx) ->
      step (Shared n t ps) (Shared n t (<[i := Failed idx]> ps)).

(** The index a thread owns. *)
Definition index_of (p : pc) : option Z := match p with Got idx | Stored idx | Installed idx _ | Failed idx => Some idx | _ => None end.

(** The index whose entry holds the callback of the thread. *)
Definition stored_of (p : pc) : option Z := match p with Stored idx | Installed idx _ | Failed idx => Some idx | _ => None end.

(** The magic number of the function object. *)
Definition magic_ok (p : pc) : Prop := match p with Installed idx magic => magic = s16 idx | _ => True end.

Definition entered (p : pc) : bool := match p with Enter => false | _ => true end.
Definition passed (p : pc) : bool := match p with Passed => true | _ => false end.

Definition inv (n0 : Z) (t0 : list Z) (s : shared) : Prop :=
  n0 <= count s /\ zlen (table s) = MAX_HOST_FNS /\
  (forall i idx, threads s !! i ≫= index_of = Some idx -> n0 <= idx < count s) /\
  (forall i j idx, threads s !! i ≫= index_of = Some idx -> threads s !! j ≫= index_of = Some idx -> i = j) /\
  (forall i idx, threads s !! i ≫= stored_of = Some idx -> rd (table s) idx = Some (callback i) /\ idx < MAX_HOST_FNS) /\
  (forall i p, threads s !! i = Some p -> magic_ok p) /\
  (forall k, k < n0 -> rd (table s) k = rd t0 k) /\
  count s + zlen (List.filter passed (threads s)) <= n0 + zlen (List.filter entered (threads s)).

Lemma insert_of {A} (f : pc -> option A) (ps : list pc) i p j : is_Some (ps !! i) ->
  (<[i := p]> ps : list pc) !! j ≫= f = if decide (i = j) then f p else ps !! j ≫= f.
Proof.
  intros Hi. destruct (decide (i = j)) as [<-|Hne]; [|by rewrite list_lookup_insert_ne by done].
  rewrite list_lookup_insert_eq; [done|]. by apply lookup_lt_is_Some.
Qed.

Lemma insert_pc (ps : list pc) i p j q : is_Some (ps !! i) ->
  (<[i := p]> ps : list pc) !! j = Some q -> (i = j /\ q = p) \/ (i <> j /\ ps !! j = Some q).
Proof.
  intros Hi Hj. destruct (decide (i = j)) as [<-|Hne].
  - left. rewrite list_lookup_insert_eq in Hj by (by apply lookup_lt_is_Some). by simplify_eq.
  - right. by rewrite list_lookup_insert_ne in Hj by done.
Qed.

Lemma filter_insert (f : pc -> bool) (ps : list pc) i p p' : ps !! i = Some p ->
  zlen (List.filter f (<[i := p']> ps)) = zlen (List.filter f ps) + Zb (f p') - Zb (f p).
Proof.
  intros Hi. rewrite <- (take_drop_middle _ _ _ Hi) at 2. rewrite insert_take_drop by (by eapply lookup_lt_Some).
  rewrite !List.filter_app, !zlen_app. cbn [List.filter]. destruct (f p), (f p'); cbn [Zb]; rewrite ?zlen_cons; lia.
Qed.

Lemma stored_index p idx : stored_of p = Some idx -> index_of p = Some idx.
Proof. by destruct p. Qed.

Lemma inv_start n0 t0 k : zlen t0 = MAX_HOST_FNS -> inv n0 t0 (Shared n0 t0 (replicate k Enter)).
Proof.
  intros Hl. unfold inv. cbn [count table threads].
  assert (forall i p, (replicate k Enter : list pc) !! i = Some p -> p = Enter) as Hre
    by (intros i p Hi; by apply lookup_replicate in Hi as [? _]).
  assert (forall {A} (f : pc -> option A) i, f Enter = None -> (replicate k Enter : list pc) !! i ≫= f = None) as Hidx.
  { intros A f i Hf. destruct (replicate k Enter !! i) as [p|] eqn:Hp; [|done]. by rewrite (Hre _ _ Hp). }
  split; [lia|]. split; [done|]. split; [intros i idx; by rewrite Hidx|]. split; [intros i j idx; by rewrite Hidx|].
  split; [intros i idx; by rewrite Hidx|]. split; [intros i p Hi; by rewrite (Hre _ _ Hi)|]. split; [done|].
  clear Hre Hidx. induction k as [|k IH]; cbn [replicate List.filter passed entered]; [lia|]. apply IH.
Qed.

(** A step that only moves thread [i], to a state that owns no more than it did
    and has stored no more. *)
Lemma inv_move n0 t0 n t ps i p p' : ps !! i = Some p -> inv n0 t0 (Shared n t ps) ->
  (index_of p' = None \/ index_of p' = index_of p) -> (stored_of p' = None \/ stored_of p' = stored_of p) -> magic_ok p' ->
  Zb (passed p') - Zb (passed p) <= Zb (entered p') - Zb (entered p) ->
  inv n0 t0 (Shared n t (<[i := p']> ps)).
Proof.
  intros Hi (Hn & Hl & Hr & Hu & Hs & Hm & Ht & Hc) Hown Hst Hmag Hcnt. unfold inv. cbn [count table threads] in *.
  assert (forall {A} (f : pc -> option A) j a, (f p' = None \/ f p' = f p) ->
    (<[i := p']> ps : list pc) !! j ≫= f = Some a -> ps !! j ≫= f = Some a) as Hback.
  { intros A f j a Hf. rewrite insert_of by done. case_decide as Hij; [|done]. subst j. rewrite Hi. cbn.
    by destruct Hf as [->| ->]. }
  split; [done|]. split; [done|]. split; [|split; [|split; [|split; [|split; [done|]]]]].
  - intros j idx Hj. by apply (Hr j), (Hback _ index_of).
  - intros j j' idx Hj Hj'. by apply (Hu j j' idx); apply (Hback _ index_of).
  - intros j idx Hj. by apply Hs, (Hback _ stored_of).
  - intros j q Hj. apply insert_pc in Hj as [[_ ->]|[_ Hj]]; [done|by eapply Hm|done].
  - rewrite !(filter_insert _ _ _ _ _ Hi). lia.
Qed.

Lemma inv_fetch n0 t0 n t ps i : ps !! i = Some Passed -> inv n0 t0 (Shared n t ps) ->
  inv n0 t0 (Shared (n + 1) t (<[i := Got n]> ps)).
Proof.
  intros Hi (Hn & Hl & Hr & Hu & Hs & Hm & Ht & Hc). unfold inv. cbn [count table threads] in *.
  split; [lia|]. split; [done|]. split; [|split; [|split; [|split; [|split; [done|]]]]].
  - intros j idx. rewrite insert_of by done. case_decide; [intros [= <-]; lia|]. intros Hj. pose proof (Hr _ _ Hj). lia.
  - intros j j' idx. rewrite !insert_of by done. case_decide; case_decide; try congruence; cbn [index_of].
    + intros [= <-] Hj. pose proof (Hr _ _ Hj). lia.
    + intros Hj [= <-]. pose proof (Hr _ _ Hj). lia.
    + apply Hu.
  - intros j idx. rewrite insert_of by done. case_decide; [done|apply Hs].
  - intros j q Hj. apply insert_pc in Hj as [[_ ->]|[_ Hj]]; [done|by eapply Hm|done].
  - rewrite !(filter_insert _ _ _ _ _ Hi). cbn [passed entered Zb]. lia.
Qed.

Lemma inv_store n0 t0 n t t' ps i idx : 0 <= n0 -> ps !! i = Some (Got idx) -> idx < MAX_HOST_FNS ->
  wr t idx (callback i) = Some t' -> inv n0 t0 (Shared n t ps) -> inv n0 t0 (Shared n t' (<[i := Stored idx]> ps)).
Proof.
  intros Hn0 Hi Hidx Hwr (Hn & Hl & Hr & Hu & Hs & Hm & Ht & Hc). unfold inv. cbn [count table threads] in *.
  assert (ps !! i ≫= index_of = Some idx) as Hown by (by rewrite Hi).
  pose proof (Hr _ _ Hown). rewrite wr_upd in Hwr by lia. injection Hwr as <-.
  split; [lia|]. split; [by rewrite zlen_upd|].
  assert (forall j, (<[i := Stored idx]> ps : list pc) !! j ≫= index_of = ps !! j ≫= index_of) as Hsame.
  { intros j. rewrite insert_of by done. case_decide as Hij; [by rewrite <- Hij, Hown|done]. }
  split; [intros j idx'; rewrite Hsame; apply Hr|]. split; [intros j j' idx'; rewrite !Hsame; apply Hu|].
  split; [|split; [|split]].
  - intros j idx'. rewrite insert_of by done. case_decide as Hij.
    + subst j. intros [= <-]. split; [apply rd_upd_eq; lia|done].
    + intros Hj. destruct (Hs _ _ Hj) as [? ?]. split; [|done]. rewrite rd_upd_ne; [done|lia|].
      intros ->. apply Hij. apply (Hu i j idx'); [done|]. destruct (ps !! j); [by apply stored_index|done].
  - intros j q Hj. apply insert_pc in Hj as [[_ ->]|[_ Hj]]; [done|by eapply Hm|done].
  - intros k Hk. rewrite rd_upd_ne by lia. by apply Ht.
  - rewrite !(filter_insert _ _ _ _ _ Hi). cbn [passed entered Zb]. lia.
Qed.

Lemma inv_step n0 t0 s s' : 0 <= n0 -> step s s' -> inv n0 t0 s -> inv n0 t0 s'.
Proof.
  intros Hn0 Hst Hinv. destruct Hst; try (by apply inv_fetch); try (by eapply inv_store);
    (eapply inv_move; [done|done|by auto|by auto|done|cbn; lia]).
Qed.

Lemma inv_steps n0 t0 s s' : 0 <= n0 -> rtc step s s' -> inv n0 t0 s -> inv n0 t0 s'.
Proof. intros Hn0. induction 1; [done|]. intros Hinv. by eauto using inv_step. Qed.

(** What was stored and installed stays so. *)
Lemma stored_step s s' i idx : step s s' -> threads s !! i ≫= stored_of = Some idx -> threads s' !! i ≫= stored_of = Some idx.
Proof.
  intros Hst. destruct Hst; cbn [threads]; rewrite insert_of by done; (case_decide as Hij; [subst i|done]);
    match goal with H : _ !! _ = Some _ |- _ => rewrite H end; done.
Qed.

Lemma stored_steps s s' i idx : rtc step s s' -> threads s !! i ≫= stored_of = Some idx -> threads s' !! i ≫= stored_of = Some idx.
Proof. induction 1; [done|]. eauto using stored_step. Qed.

Definition done_pc (p : pc) : bool := match p with Installed _ _ | Failed _ | Refused => true | _ => false end.

(** No thread is ever stuck before its end. *)
Lemma step_progress n0 t0 s i p : 0 <= n0 -> inv n0 t0 s -> threads s !! i = Some p -> done_pc p = false -> exists s', step s s'.
Proof.
  intros Hn0 (Hn & Hl & Hr & _) Hi Hd. destruct s as [n t ps]. cbn [count table threads] in *.
  destruct p as [| |idx|idx| | |]; try done.
  - destruct (decide (n < MAX_HOST_FNS)); [eexists; by apply (step_pass i)|eexists; apply (step_refuse i); [done|lia]].
  - eexists. by apply (step_fetch i).
  - destruct (decide (idx < MAX_HOST_FNS)); [|eexists; apply (step_late i idx); [done|lia]].
    eexists. apply (step_store i idx); [done|done|]. apply wr_upd.
    pose proof (Hr i idx ltac:(by rewrite Hi)). lia.
  - eexists. by apply (step_install i idx).
Qed.
End steps.

Lemma filter_entered_le (ps : list pc) : zlen (List.filter entered ps) <= zlen ps.
Proof. induction ps as [|p ps IH]; [done|]. cbn [List.filter]. destruct (entered p); rewrite ?zlen_cons; lia. Qed.

(** ** Property *)

(** C28. Whatever the interleaving of the threads that register, each
    registration past its store owns an index of its own inside the table, and
    from then on the entry of that index is its callback; the function object
    created for it carries 16 bits of the index, so its calls reach the
    callback when the index is below 32768 and find nothing otherwise.
    Earlier registrations keep their entries, stores stay inside the table, no
    thread is stuck, and the counter is at most the number of threads above
    where it began, so it does not overflow. *)
Theorem concurrent_registration (callback : nat -> Z) (n0 : Z) (t0 : list Z) (k : nat) (s s' : shared) :
  0 <= n0 -> zlen t0 = MAX_HOST_FNS ->
  rtc (step callback) (Shared n0 t0 (replicate k Enter)) s -> rtc (step callback) s s' ->
  count s' <= n0 + Z.of_nat k /\
  (forall i p, threads s' !! i = Some p -> done_pc p = true \/ exists s'', step callback s' s'') /\
  (forall i j idx, threads s !! i ≫= index_of = Some idx -> threads s !! j ≫= index_of = Some idx -> i = j) /\
  (forall i idx, threads s !! i ≫= stored_of = Some idx ->
    n0 <= idx < MAX_HOST_FNS /\ registered (table s') (count s') idx = callback i) /\
  (forall i idx magic, threads s !! i = Some (Installed idx magic) ->
    registered (table s') (count s') magic = if idx <? 2 ^ 15 then callback i else 0) /\
  (forall magic, magic < n0 -> registered (table s') (count s') magic = registered t0 n0 magic).
Proof.
  intros Hn0 Hl Hs Hs'. pose proof (inv_steps _ _ _ _ _ Hn0 Hs (inv_start callback n0 t0 k Hl)) as Hinv.
  pose proof (inv_steps _ _ _ _ _ Hn0 Hs' Hinv) as Hinv'.
  assert (zlen (threads s') = Z.of_nat k) as Hk.
  { assert (forall a b, rtc (step callback) a b -> length (threads b) = length (threads a)) as Hlen.
    { induction 1 as [|a b c Hab _ IH]; [done|]. rewrite IH. destruct Hab; cbn [threads]; by rewrite length_insert. }
    unfold zlen. rewrite (Hlen _ _ Hs'), (Hlen _ _ Hs). cbn [threads]. by rewrite length_replicate. }
  pose proof Hinv' as (Hn & Hlt & Hr & _ & Hst & _ & Ht & Hc).
  assert (forall i idx, threads s !! i ≫= stored_of = Some idx ->
    n0 <= idx < MAX_HOST_FNS /\ registered (table s') (count s') idx = callback i) as Hreach.
  { intros i idx Hi. pose proof (stored_steps _ _ _ _ _ Hs' Hi) as Hi'. destruct (Hst _ _ Hi') as [Hrd Hm].
    assert (threads s' !! i ≫= index_of = Some idx) as Hown by (destruct (threads s' !! i); [by apply stored_index|done]).
    pose proof (Hr i idx Hown). split; [lia|]. unfold registered.
    replace (idx <? 0) with false by lia. replace (idx >=? count s') with false by lia. cbn [orb]. by rewrite Hrd. }
  split; [pose proof (filter_entered_le (threads s')); pose proof (zlen_nonneg (List.filter passed (threads s'))); lia|].
  split; [intros i p Hi; destruct (done_pc p) eqn:Hd; [by left|right; by eapply step_progress]|].
  destruct Hinv as (_ & _ & _ & Hu & _ & Hmag & _). split; [exact Hu|]. split; [exact Hreach|]. split.
  - intros i idx magic Hi. destruct (Hreach i idx) as [Hrange Hcb]; [by rewrite Hi|].
    pose proof (Hmag _ _ Hi) as Hm. cbn in Hm. subst magic. destruct (idx <? 2 ^ 15) eqn:E; zbool.
    + by rewrite s16_low by lia.
    + apply registered_s16. lia.
  - intros magic Hm. unfold registered. rewrite (Ht magic Hm). destruct (magic <? 0); [done|]. cbn [orb].
    replace (magic >=? count s') with false by lia. by replace (magic >=? n0) with false by lia.
Qed.

(** Two threads race for the last index whose calls reach their callback: one
    gets it, the other the first index whose calls do not. *)
Definition empty_table : list Z := replicate (Z.to_nat MAX_HOST_FNS) 0.
Definition race_start : shared := Shared 32767 empty_table (replicate 2 Enter).
Definition race_end : shared :=
  Shared 32769 (upd (upd empty_table 32767 11) 32768 10) [Installed 32768 (-32768); Installed 32767 32767].

Lemma zlen_empty : zlen empty_table = MAX_HOST_FNS.
Proof. unfold zlen, empty_table. by rewrite length_replicate. Qed.

Lemma race_runs : rtc (step (fun i => 10 + Z.of_nat i)) race_start race_end.
Proof.
  eapply rtc_l; [apply (step_pass _ 0); done|]. eapply rtc_l; [apply (step_pass _ 1); done|].
  eapply rtc_l; [apply (step_fetch _ 1); done|]. eapply rtc_l; [apply (step_fetch _ 0); done|].
  eapply rtc_l; [apply (step_store _ 1 32767); [done|done|apply wr_upd; rewrite zlen_empty; unfold MAX_HOST_FNS; lia]|].
  eapply rtc_l; [apply (step_store _ 0 32768); [done|done|apply wr_upd; rewrite zlen_upd, zlen_empty; unfold MAX_HOST_FNS; lia]|].
  eapply rtc_l; [apply (step_install _ 1 32767); done|]. eapply rtc_l; [apply (step_install _ 0 32768); done|]. apply rtc_refl.
Qed.

Lemma concurrent_registration_witness :
  count race_end <= 32767 + Z.of_nat 2 /\
  registered (table race_end) (count race_end) 32767 = 11 /\
  registered (table race_end) (count race_end) (-32768) = 0.
Proof.
  destruct (concurrent_registration (fun i => 10 + Z.of_nat i) 32767 empty_table 2
    race_end race_end ltac:(done) zlen_empty race_runs (rtc_refl _ _)) as (H1 & _ & _ & _ & H5 & _).
  split; [exact H1|]. split; [exact (H5 1%nat 32767 32767 eq_refl)|exact (H5 0%nat 32768 (-32768) eq_refl)].
Defined.

(** For the last entry of the table one thread is refused. *)
Example last_entry :
  rtc (step (fun i => 10 + Z.of_nat i)) (Shared (MAX_HOST_FNS - 1) empty_table (replicate 2 Enter))
    (Shared (MAX_HOST_FNS + 1) (upd empty_table (MAX_HOST_FNS - 1) 11) [Refused; Stored (MAX_HOST_FNS - 1)]).
Proof.
  eapply rtc_l; [apply (step_pass _ 0); done|]. eapply rtc_l; [apply (step_pass _ 1); done|].
  eapply rtc_l; [apply (step_fetch _ 1); done|]. eapply rtc_l; [apply (step_fetch _ 0); done|].
  eapply rtc_l; [apply (step_store _ 1 (MAX_HOST_FNS - 1)); [done|done|apply wr_upd; rewrite zlen_empty; unfold MAX_HOST_FNS; lia]|].
  eapply rtc_l; [apply (step_late _ 0 MAX_HOST_FNS); done|]. apply rtc_refl.
Qed.
