(* ===== verification/Limb.v ===== *)
(** * Limbs (libbf.h, libbf.c)

    A multi-precision natural is an array of limbs, least significant first.
    The width of a limb is [LIMB_BITS = 2^LIMB_LOG2_BITS]: 64 on the 64-bit
    targets, 32 on the others; the development is parametric in
    [LIMB_LOG2_BITS] ([lg]).  A slice [tab + off] of [n] limbs passed to a
    function is the list of these limbs; a function that overwrites its
    argument returns the new limbs. *)

From S2P Require Import Prelude CArray.
Open Scope Z_scope.

(** ** Slices of an array *)

Definition sub_arr {A} (l : list A) (off n : Z) : option (list A) :=
  if (0 <=? off) && (0 <=? n) && (off + n <=? zlen l) then Some (zslice l off (off + n)) else None.

Definition splice {A} (l : list A) (off : Z) (xs : list A) : option (list A) :=
  if (0 <=? off) && (off + zlen xs <=? zlen l)
  then Some (take (Z.to_nat off) l ++ xs ++ drop (Z.to_nat (off + zlen xs)) l) else None.

Section slices.
Context {A : Type}.
Implicit Types l a b c xs : list A.

Lemma zslice_mid a b c : zslice (a ++ b ++ c) (zlen a) (zlen a + zlen b) = b.
Proof.
  unfold zslice, zlen. replace (Z.to_nat (Z.of_nat (length a))) with (length a) by lia.
  rewrite drop_app_length. replace (Z.to_nat _) with (length b) by lia. apply take_app_length.
Qed.

Lemma sub_arr_mid a b c off n : off = zlen a -> n = zlen b -> sub_arr (a ++ b ++ c) off n = Some b.
Proof.
  intros -> ->. unfold sub_arr. pose proof (zlen_nonneg a). pose proof (zlen_nonneg b). pose proof (zlen_nonneg c).
  rewrite !zlen_app. replace ((0 <=? zlen a) && _ && _) with true by lia. by rewrite zslice_mid.
Qed.

Lemma splice_mid a b c xs off : off = zlen a -> zlen xs = zlen b -> splice (a ++ b ++ c) off xs = Some (a ++ xs ++ c).
Proof.
  intros -> Hl. unfold splice. pose proof (zlen_nonneg a). pose proof (zlen_nonneg b). pose proof (zlen_nonneg c).
  rewrite !zlen_app, Hl. replace ((0 <=? zlen a) && _) with true by lia.
  do 2 f_equal; [|f_equal]; unfold zlen.
  - rewrite Nat2Z.id. apply take_app_length.
  - rewrite app_assoc. replace (Z.to_nat _) with (length (a ++ b)) by (rewrite length_app; lia). apply drop_app_length.
Qed.

Lemma sub_arr_tail a b off n : off = zlen a -> n = zlen b -> sub_arr (a ++ b) off n = Some b.
Proof. intros. rewrite <- (app_nil_r b) at 1. by apply sub_arr_mid. Qed.

Lemma splice_tail a b xs off : off = zlen a -> zlen xs = zlen b -> splice (a ++ b) off xs = Some (a ++ xs).
Proof. intros. rewrite <- (app_nil_r b), (splice_mid a b [] xs) by done. by rewrite app_nil_r. Qed.

(** Any window of an array splits it in three. *)
Lemma split3 l off n : 0 <= off -> 0 <= n -> off + n <= zlen l ->
  exists a b c, l = a ++ b ++ c /\ zlen a = off /\ zlen b = n.
Proof.
  intros. exists (take (Z.to_nat off) l), (take (Z.to_nat n) (drop (Z.to_nat off) l)), (drop (Z.to_nat n) (drop (Z.to_nat off) l)).
  split; [by rewrite !take_drop|]. unfold zlen in *. rewrite !length_take, length_drop. lia.
Qed.

Lemma split2 l n : 0 <= n <= zlen l -> exists a b, l = a ++ b /\ zlen a = n.
Proof.
  intros. exists (take (Z.to_nat n) l), (drop (Z.to_nat n) l). split; [by rewrite take_drop|].
  unfold zlen in *. rewrite length_take. lia.
Qed.

Lemma rd_split_at l i x : rd l i = Some x -> exists a c, l = a ++ x :: c /\ zlen a = i.
Proof.
  intros H. pose proof (rd_Some_range _ _ _ H). exists (take (Z.to_nat i) l), (drop (Z.to_nat (i + 1)) l).
  split; [by apply rd_split|]. apply zlen_take. lia.
Qed.

Lemma split_last l : 0 < zlen l -> exists a x, l = a ++ [x] /\ zlen a = zlen l - 1.
Proof.
  destruct l as [|x l _] using rev_ind; [done|]. intros _. exists l, x. split; [done|]. rewrite zlen_app. change (zlen [x]) with 1. lia.
Qed.
End slices.

Section limb.
Context (lg : Z).

Definition LIMB_BITS : Z := 2 ^ lg.

(** The base, and the reduction of a value to a limb and to a double limb. *)
Definition Base : Z := 2 ^ LIMB_BITS.
Definition limb (x : Z) : Z := x mod Base.
Definition dlimb (x : Z) : Z := x mod (Base * Base).
Definition slimb (x : Z) : Z := swrap LIMB_BITS x.

Definition limb_ok (x : Z) : Prop := 0 <= x < Base.
Definition limbs_ok (l : list Z) : Prop := Forall limb_ok l.

(** The value of an array of limbs. *)
Fixpoint val (l : list Z) : Z := match l with [] => 0 | x :: l => x + Base * val l end.

(** ** The helpers of libbf.c *)

Definition clz (a : Z) : Z := if a =? 0 then LIMB_BITS else LIMB_BITS - 1 - Z.log2 a.
Definition bf_ctz (a : Z) : Z := if a =? 0 then LIMB_BITS else Z.log2 (Z.land a (- a)).
Definition ceil_log2 (a : Z) : Z := if a <=? 1 then 0 else LIMB_BITS - clz (limb (a - 1)).

(** C division truncates. *)
Definition ceil_div (a b : Z) : Z := if a >=? 0 then Z.quot (slimb (a + b - 1)) b else Z.quot a b.
Definition floor_div (a b : Z) : Z := if a >=? 0 then Z.quot a b else Z.quot (slimb (a - b + 1)) b.
Definition smod (a b : Z) : Z := let a := Z.rem a b in limb (if a <? 0 then a + b else a).

Definition sat_add (a b : Z) : Z :=
  let r := slimb (a + b) in
  if Z.land (Z.lxor a r) (Z.lxor b r) <? 0
  then slimb (Z.lxor (Z.shiftr a (LIMB_BITS - 1)) (Z.shiftl 1 (LIMB_BITS - 1) - 1)) else r.

Definition shrd (low high shift : Z) : Z :=
  if negb (shift =? 0) then Z.lor (Z.shiftr low shift) (limb (Z.shiftl high (LIMB_BITS - shift))) else low.
Definition shld (a1 a0 shift : Z) : Z :=
  if negb (shift =? 0) then Z.lor (limb (Z.shiftl a1 shift)) (Z.shiftr a0 (LIMB_BITS - shift)) else a1.

Definition limb_mask (start last : Z) : Z :=
  let n := last - start + 1 in
  if n =? LIMB_BITS then limb (-1) else limb (Z.shiftl (limb (Z.shiftl 1 n) - 1) start).

Fixpoint mp_scan_nz (tab : list Z) : Z :=
  match tab with [] => 0 | x :: tab => if negb (x =? 0) then 1 else mp_scan_nz tab end.

(** ** Lemmas *)

Context (Hlg : 1 <= lg).

Lemma LIMB_BITS_ge : 2 <= LIMB_BITS.
Proof using Hlg. unfold LIMB_BITS. change 2 with (2 ^ 1) at 1. apply Z.pow_le_mono_r; lia. Qed.

Lemma Base_ge : 4 <= Base.
Proof using Hlg. unfold Base. change 4 with (2 ^ 2). apply Z.pow_le_mono_r; [lia|]. apply LIMB_BITS_ge. Qed.

Lemma limb_range x : limb_ok (limb x).
Proof using Hlg. apply Z.mod_pos_bound. pose proof Base_ge. lia. Qed.

Lemma limb_id x : limb_ok x -> limb x = x.
Proof using . apply Z.mod_small. Qed.

Lemma val_app a b : val (a ++ b) = val a + Base ^ zlen a * val b.
Proof using Hlg.
  induction a as [|x a IH]; cbn [val app]; [change (zlen (@nil Z)) with 0; rewrite Z.pow_0_r; lia|].
  rewrite IH, zlen_cons, Z.pow_add_r by (pose proof (zlen_nonneg a); lia). rewrite Z.pow_1_r. lia.
Qed.

Lemma pow_pos n : 0 <= n -> 0 < Base ^ n.
Proof using Hlg. intros. apply Z.pow_pos_nonneg; [pose proof Base_ge; lia|done]. Qed.

Lemma val_range l : limbs_ok l -> 0 <= val l < Base ^ zlen l.
Proof using Hlg.
  induction 1 as [|x l Hx _ IH]; cbn [val]; [change (zlen (@nil Z)) with 0; rewrite Z.pow_0_r; lia|].
  rewrite zlen_cons, Z.pow_add_r by (pose proof (zlen_nonneg l); lia). rewrite Z.pow_1_r. unfold limb_ok in Hx. nia.
Qed.

Lemma limbs_ok_app a b : limbs_ok (a ++ b) <-> limbs_ok a /\ limbs_ok b.
Proof using . apply Forall_app. Qed.

Lemma val_inj a b : limbs_ok a -> limbs_ok b -> zlen a = zlen b -> val a = val b -> a = b.
Proof using Hlg.
  intros Ha. revert b. induction Ha as [|x a Hx Ha IH]; intros [|y b] Hb Hl Hv; [done|..].
  - rewrite zlen_cons in Hl. change (zlen (@nil Z)) with 0 in Hl. pose proof (zlen_nonneg b). lia.
  - rewrite zlen_cons in Hl. change (zlen (@nil Z)) with 0 in Hl. pose proof (zlen_nonneg a). lia.
  - apply Forall_cons in Hb as [Hy Hb]. cbn [val] in Hv. rewrite !zlen_cons in Hl. unfold limb_ok in Hx, Hy.
    assert (val a = val b) by (destruct (Z.lt_trichotomy (val a) (val b)) as [?|[?|?]]; nia).
    assert (x = y) as -> by nia. f_equal. apply IH; [done|lia|done].
Qed.

Lemma mp_scan_nz_spec l : limbs_ok l -> mp_scan_nz l = Zb (negb (val l =? 0)).
Proof using Hlg.
  induction 1 as [|x l Hx Hl IH]; [done|]. cbn [mp_scan_nz val]. pose proof (val_range l Hl). pose proof Base_ge. unfold limb_ok in Hx.
  destruct (x =? 0) eqn:E; cbn [negb]; zbool.
  - subst x. rewrite IH. destruct (val l =? 0) eqn:E1; zbool.
    + by replace (0 + Base * val l =? 0) with true by nia.
    + by replace (0 + Base * val l =? 0) with false by nia.
  - by replace (x + Base * val l =? 0) with false by nia.
Qed.
End limb.
