(* ===== verification/MpArith.v ===== *)
(** * Multi-precision naturals (libbf.c, the [mp_*] functions)

    Addition, subtraction, shift, multiplication and division of arrays of
    limbs.  Every function reads an element before it writes the element of the
    same index, so a result array may be one of the operands, as its callers
    make it. *)

From S2P Require Import Prelude CArray Limb.
Open Scope Z_scope.

Section mp.
Context (lg : Z).
Notation LIMB_BITS := (LIMB_BITS lg).
Notation Base := (Base lg).
Notation limb := (limb lg).
Notation dlimb := (dlimb lg).
Notation limb_ok := (limb_ok lg).
Notation limbs_ok := (limbs_ok lg).
Notation val := (val lg).

(** ** Definitions

    [n] is the length of the first operand; a shorter second operand is read
    out of bounds ([None]).  The results are the limbs written and the carry
    returned. *)

Fixpoint mp_add (op1 op2 : list Z) (k : Z) : option (list Z * Z) :=
  match op1, op2 with
  | [], _ => Some ([], k)
  | v :: op1, b :: op2 =>
      let a := limb (v + b) in
      let k1 := Zb (a <? v) in
      let a := limb (a + k) in
      let k := Z.lor (Zb (a <? k)) k1 in
      '(res, k) ← mp_add op1 op2 k; Some (a :: res, k)
  | _, [] => None
  end.

Fixpoint mp_add_ui (tab : list Z) (k : Z) : list Z * Z :=
  match tab with
  | [] => ([], k)
  | t :: tab' =>
      if k =? 0 then (tab, k)
      else
        let a := limb (t + k) in
        let k := Zb (a <? k) in
        let '(tab', k) := mp_add_ui tab' k in (a :: tab', k)
  end.

Fixpoint mp_sub (op1 op2 : list Z) (k : Z) : option (list Z * Z) :=
  match op1, op2 with
  | [], _ => Some ([], k)
  | v :: op1, b :: op2 =>
      let a := limb (v - b) in
      let k1 := Zb (a >? v) in
      let v := limb (a - k) in
      let k := Z.lor (Zb (v >? a)) k1 in
      '(res, k) ← mp_sub op1 op2 k; Some (v :: res, k)
  | _, [] => None
  end.

Fixpoint mp_neg (op2 : list Z) (k : Z) : list Z * Z :=
  match op2 with
  | [] => ([], k)
  | b :: op2 =>
      let v := 0 in
      let a := limb (v - b) in
      let k1 := Zb (a >? v) in
      let v := limb (a - k) in
      let k := Z.lor (Zb (v >? a)) k1 in
      let '(res, k) := mp_neg op2 k in (v :: res, k)
  end.

Fixpoint mp_sub_ui (tab : list Z) (k : Z) : list Z * Z :=
  match tab with
  | [] => ([], k)
  | v :: tab =>
      let a := limb (v - k) in
      let k := Zb (a >? v) in
      if k =? 0 then (a :: tab, k) else let '(tab, k) := mp_sub_ui tab k in (a :: tab, k)
  end.

(** From the top limb down: the limb read last and the limbs written.  The
    assertion on [shift] stops the program ([None]). *)
Definition mp_shr (tab : list Z) (shift high : Z) : option (list Z * Z) :=
  if negb ((shift >=? 1) && (shift <? LIMB_BITS)) then None else
  let '(l, tab_r) :=
    foldr (fun a '(l, tab_r) =>
      (a, Z.lor (Z.shiftr a shift) (limb (Z.shiftl l (LIMB_BITS - shift))) :: tab_r)) (high, []) tab in
  Some (tab_r, Z.land l (Z.shiftl 1 shift - 1)).

Fixpoint mp_mul1 (taba : list Z) (b l : Z) : list Z * Z :=
  match taba with
  | [] => ([], l)
  | x :: taba =>
      let t := dlimb (x * b + l) in
      let '(tabr, l) := mp_mul1 taba b (Z.shiftr t LIMB_BITS) in (limb t :: tabr, l)
  end.

(** [l] is the accumulator, 0 at the call. *)
Fixpoint mp_add_mul1_loop (tabr taba : list Z) (b l : Z) : option (list Z * Z) :=
  match taba, tabr with
  | [], _ => Some ([], l)
  | x :: taba, y :: tabr =>
      let t := dlimb (x * b + l + y) in
      '(tabr, l) ← mp_add_mul1_loop tabr taba b (Z.shiftr t LIMB_BITS); Some (limb t :: tabr, l)
  | _, [] => None
  end.
Definition mp_add_mul1 (tabr taba : list Z) (b : Z) : option (list Z * Z) := mp_add_mul1_loop tabr taba b 0.

Fixpoint mp_sub_mul1_loop (tabr taba : list Z) (b l : Z) : option (list Z * Z) :=
  match taba, tabr with
  | [], _ => Some ([], l)
  | x :: taba, y :: tabr =>
      let t := dlimb (y - x * b - l) in
      '(tabr, l) ← mp_sub_mul1_loop tabr taba b (limb (- Z.shiftr t LIMB_BITS)); Some (limb t :: tabr, l)
  | _, [] => None
  end.
Definition mp_sub_mul1 (tabr taba : list Z) (b : Z) : option (list Z * Z) := mp_sub_mul1_loop tabr taba b 0.

(** The loop over [op2], from its limb [i]. *)
Fixpoint mul_rows (result op1 : list Z) (op2 : list Z) (i : Z) : option (list Z) :=
  match op2 with
  | [] => Some result
  | b :: op2 =>
      row ← sub_arr result i (zlen op1);
      '(row, r) ← mp_add_mul1 row op1 b;
      result ← splice result i row;
      result ← wr result (i + zlen op1) r;
      mul_rows result op1 op2 (i + 1)
  end.

Definition mp_mul_basecase (result op1 op2 : list Z) : option (list Z) :=
  match op2 with
  | [] => None
  | b :: op2 =>
      let '(row, r) := mp_mul1 op1 b 0 in
      result ← splice result 0 row;
      result ← wr result (zlen op1) r;
      mul_rows result op1 op2 1
  end.

(** ** One limb at a time *)

Ltac lor_bits :=
  change (Z.lor 0 0) with 0; change (Z.lor 0 1) with 1; change (Z.lor 1 0) with 1; change (Z.lor 1 1) with 1.

Context (Hlg : 1 <= lg).

Lemma add_step v b k : limb_ok v -> limb_ok b -> 0 <= k <= 1 ->
  let a := limb (v + b) in let a' := limb (a + k) in let k' := Z.lor (Zb (a' <? k)) (Zb (a <? v)) in
  a' + Base * k' = v + b + k /\ limb_ok a' /\ 0 <= k' <= 1.
Proof using Hlg.
  pose proof (Base_ge lg Hlg) as HB. unfold Limb.limb_ok, Limb.limb. intros Hv Hb Hk. cbv zeta.
  assert (exists q, (v + b) mod Base = v + b - q * Base /\ 0 <= q <= 1) as (q & Hq & Hq1).
  { destruct (decide (v + b < Base)); [exists 0|exists 1].
    - rewrite Z.mod_small by lia. lia.
    - rewrite <- (Z_mod_plus_full _ (-1)), Z.mod_small by lia. lia. }
  rewrite Hq. set (a := v + b - q * Base) in *. assert (0 <= a < Base) by (rewrite <- Hq; apply Z.mod_pos_bound; lia).
  destruct (decide (a + k < Base)).
  - rewrite Z.mod_small by lia. replace (a + k <? k) with false by lia. cbn [Zb].
    destruct (a <? v) eqn:E; zbool; cbn [Zb]; lor_bits; unfold a in *; (assert (q = 0 \/ q = 1) as [-> | ->] by lia); lia.
  - replace ((a + k) mod Base) with 0 by (rewrite <- (Z_mod_plus_full _ (-1)), Z.mod_small by lia; lia).
    replace (0 <? k) with true by lia. cbn [Zb]. unfold a in *.
    assert (q = 0 \/ q = 1) as [-> | ->] by lia; [|lia]. replace (_ <? v) with false by lia. cbn [Zb]; lor_bits. lia.
Qed.

Lemma sub_step v b k : limb_ok v -> limb_ok b -> 0 <= k <= 1 ->
  let a := limb (v - b) in let a' := limb (a - k) in let k' := Z.lor (Zb (a' >? a)) (Zb (a >? v)) in
  a' - Base * k' = v - b - k /\ limb_ok a' /\ 0 <= k' <= 1.
Proof using Hlg.
  pose proof (Base_ge lg Hlg) as HB. unfold Limb.limb_ok, Limb.limb. intros Hv Hb Hk. cbv zeta.
  assert (exists q, (v - b) mod Base = v - b + q * Base /\ 0 <= q <= 1) as (q & Hq & Hq1).
  { destruct (decide (b <= v)); [exists 0|exists 1].
    - rewrite Z.mod_small by lia. lia.
    - rewrite <- (Z_mod_plus_full _ 1), Z.mod_small by lia. lia. }
  rewrite Hq. set (a := v - b + q * Base) in *. assert (0 <= a < Base) by (rewrite <- Hq; apply Z.mod_pos_bound; lia).
  destruct (decide (k <= a)).
  - rewrite Z.mod_small by lia. replace (a - k >? a) with false by lia. cbn [Zb].
    destruct (a >? v) eqn:E; zbool; cbn [Zb]; lor_bits; unfold a in *; (assert (q = 0 \/ q = 1) as [-> | ->] by lia); lia.
  - replace ((a - k) mod Base) with (Base - 1) by (rewrite <- (Z_mod_plus_full _ 1), Z.mod_small by lia; lia).
    replace (Base - 1 >? a) with true by lia. cbn [Zb]. unfold a in *.
    assert (q = 0 \/ q = 1) as [-> | ->] by lia; [|lia]. replace (_ >? v) with false by lia. cbn [Zb]; lor_bits. lia.
Qed.

(** A double limb splits in two. *)
Lemma dlimb_split t : 0 <= t < Base * Base ->
  dlimb t = t /\ limb_ok (limb t) /\ limb_ok (Z.shiftr t LIMB_BITS) /\ t = limb t + Base * Z.shiftr t LIMB_BITS.
Proof using Hlg.
  pose proof (Base_ge lg Hlg) as HB. intros Ht. pose proof (LIMB_BITS_ge lg Hlg).
  rewrite Z.shiftr_div_pow2 by lia. change (2 ^ LIMB_BITS) with Base. unfold Limb.dlimb, Limb.limb, Limb.limb_ok.
  rewrite Z.mod_small by done. split; [done|]. split; [apply Z.mod_pos_bound; lia|].
  split; [split; [apply Z.div_pos; lia|apply Z.div_lt_upper_bound; lia]|].
  pose proof (Z.div_mod t Base ltac:(lia)). lia.
Qed.

(** ** Specifications *)

Lemma mp_add_spec op1 op2 k : limbs_ok op1 -> limbs_ok op2 -> zlen op1 <= zlen op2 -> 0 <= k <= 1 ->
  exists res k', mp_add op1 op2 k = Some (res, k') /\ limbs_ok res /\ zlen res = zlen op1 /\ 0 <= k' <= 1 /\
    val res + Base ^ zlen op1 * k' = val op1 + val (take (length op1) op2) + k.
Proof using Hlg.
  intros H1. revert op2 k. induction H1 as [|v op1 Hv _ IH]; intros op2 k H2 Hl Hk.
  { exists [], k. cbn [mp_add length take Limb.val]. rewrite take_0. change (zlen (@nil Z)) with 0. cbn [Limb.val].
    rewrite Z.pow_0_r. split_and!; (done || lia || by constructor). }
  rewrite zlen_cons in Hl. pose proof (zlen_nonneg op1).
  destruct op2 as [|b op2]; [change (zlen (@nil Z)) with 0 in Hl; lia|]. rewrite zlen_cons in Hl.
  apply Forall_cons in H2 as [Hb H2]. cbn [mp_add length take Limb.val].
  pose proof (add_step v b k Hv Hb Hk) as Hs. cbv zeta in Hs. destruct Hs as (Heq & Ha & Hk').
  destruct (IH op2 _ H2 ltac:(lia) Hk') as (res & k'' & Hrec & Hok & Hlen & Hk2 & Hval).
  rewrite Hrec. cbn [mbind option_bind]. eexists _, k''. split; [done|]. split; [by constructor|].
  rewrite !zlen_cons, Hlen. split; [done|]. split; [done|]. cbn [Limb.val].
  rewrite Z.pow_add_r, Z.pow_1_r by lia. nia.
Qed.

Lemma mp_sub_spec op1 op2 k : limbs_ok op1 -> limbs_ok op2 -> zlen op1 <= zlen op2 -> 0 <= k <= 1 ->
  exists res k', mp_sub op1 op2 k = Some (res, k') /\ limbs_ok res /\ zlen res = zlen op1 /\ 0 <= k' <= 1 /\
    val res - Base ^ zlen op1 * k' = val op1 - val (take (length op1) op2) - k.
Proof using Hlg.
  intros H1. revert op2 k. induction H1 as [|v op1 Hv _ IH]; intros op2 k H2 Hl Hk.
  { exists [], k. cbn [mp_sub length take Limb.val]. rewrite take_0. change (zlen (@nil Z)) with 0. cbn [Limb.val].
    rewrite Z.pow_0_r. split_and!; (done || lia || by constructor). }
  rewrite zlen_cons in Hl. pose proof (zlen_nonneg op1).
  destruct op2 as [|b op2]; [change (zlen (@nil Z)) with 0 in Hl; lia|]. rewrite zlen_cons in Hl.
  apply Forall_cons in H2 as [Hb H2]. cbn [mp_sub length take Limb.val].
  pose proof (sub_step v b k Hv Hb Hk) as Hs. cbv zeta in Hs. destruct Hs as (Heq & Ha & Hk').
  destruct (IH op2 _ H2 ltac:(lia) Hk') as (res & k'' & Hrec & Hok & Hlen & Hk2 & Hval).
  rewrite Hrec. cbn [mbind option_bind]. eexists _, k''. split; [done|]. split; [by constructor|].
  rewrite !zlen_cons, Hlen. split; [done|]. split; [done|]. cbn [Limb.val].
  rewrite Z.pow_add_r, Z.pow_1_r by lia. nia.
Qed.

Lemma mp_neg_sub op2 k : mp_sub (replicate (length op2) 0) op2 k = Some (mp_neg op2 k).
Proof using .
  revert k. induction op2 as [|b op2 IH]; intros k; [done|]. cbn [length replicate mp_sub mp_neg].
  rewrite IH. cbn [mbind option_bind]. by destruct (mp_neg op2 _).
Qed.

Lemma mp_add_ui_spec tab k : limbs_ok tab -> limb_ok k ->
  exists res k', mp_add_ui tab k = (res, k') /\ limbs_ok res /\ zlen res = zlen tab /\ 0 <= k' <= Z.max 1 k /\
    val res + Base ^ zlen tab * k' = val tab + k.
Proof using Hlg.
  intros H. revert k. pose proof (Base_ge lg Hlg) as HB. induction H as [|t tab Ht Htab IH]; intros k Hk.
  { exists [], k. change (zlen (@nil Z)) with 0. cbn [mp_add_ui Limb.val]. unfold Limb.limb_ok in Hk. split_and!; (done || lia || by constructor). }
  cbn [mp_add_ui]. pose proof (zlen_nonneg tab). destruct (k =? 0) eqn:E; zbool.
  { subst k. exists (t :: tab), 0. split_and!; (done || lia || by constructor). }
  assert (exists q, limb (t + k) = t + k - q * Base /\ 0 <= q <= 1 /\ Zb (limb (t + k) <? k) = q) as (q & Hq & Hq1 & Hc).
  { unfold Limb.limb, Limb.limb_ok in *. destruct (decide (t + k < Base)); [exists 0|exists 1].
    - rewrite Z.mod_small by lia. replace (t + k <? k) with false by lia. split; [lia|]. split; [lia|done].
    - rewrite <- (Z_mod_plus_full _ (-1)), Z.mod_small by lia. replace (t + k + -1 * Base <? k) with true by lia.
      split; [lia|]. split; [lia|done]. }
  rewrite Hc. destruct (IH q ltac:(unfold Limb.limb_ok; lia)) as (res & k' & Hr & Hok & Hlen & Hk' & Hval). rewrite Hr.
  eexists _, k'. split; [done|]. split; [constructor; [by apply limb_range|done]|]. rewrite !zlen_cons, Hlen.
  split; [done|]. unfold Limb.limb_ok in Hk. split; [lia|]. cbn [Limb.val]. rewrite Z.pow_add_r, Z.pow_1_r by lia. nia.
Qed.

Lemma mp_sub_ui_spec tab k : limbs_ok tab -> limb_ok k -> 0 < zlen tab ->
  exists res k', mp_sub_ui tab k = (res, k') /\ limbs_ok res /\ zlen res = zlen tab /\ 0 <= k' <= 1 /\
    val res - Base ^ zlen tab * k' = val tab - k.
Proof using Hlg.
  intros H. revert k. pose proof (Base_ge lg Hlg) as HB. induction H as [|t tab Ht Htab IH]; intros k Hk Hpos; [done|].
  clear Hpos. cbn [mp_sub_ui]. pose proof (zlen_nonneg tab).
  assert (exists q, limb (t - k) = t - k + q * Base /\ 0 <= q <= 1 /\ Zb (limb (t - k) >? t) = q) as (q & Hq & Hq1 & Hc).
  { unfold Limb.limb, Limb.limb_ok in *. destruct (decide (k <= t)); [exists 0|exists 1].
    - rewrite Z.mod_small by lia. replace (t - k >? t) with false by lia. split; [lia|]. split; [lia|done].
    - rewrite <- (Z_mod_plus_full _ 1), Z.mod_small by lia. replace (t - k + 1 * Base >? t) with true by lia.
      split; [lia|]. split; [lia|done]. }
  rewrite Hc. destruct (q =? 0) eqn:E; zbool.
  { subst q. rewrite E in *. eexists _, 0. split; [done|]. split; [constructor; [by apply limb_range|done]|].
    rewrite !zlen_cons. split; [done|]. split; [lia|]. cbn [Limb.val]. rewrite Z.pow_add_r, Z.pow_1_r by lia. nia. }
  assert (q = 1) as -> by lia. destruct (decide (tab = [])) as [->|Hne].
  { eexists _, 1. split; [done|]. split; [constructor; [by apply limb_range|done]|]. split; [done|]. split; [lia|].
    change (zlen [t]) with 1. cbn [Limb.val]. rewrite Z.pow_1_r. nia. }
  assert (0 < zlen tab) by (destruct tab; [done|]; rewrite zlen_cons; pose proof (zlen_nonneg tab); lia).
  destruct (IH 1 ltac:(unfold Limb.limb_ok; lia) ltac:(done)) as (res & k' & Hr & Hok & Hlen & Hk' & Hval). rewrite Hr.
  eexists _, k'. split; [done|]. split; [constructor; [by apply limb_range|done]|]. rewrite !zlen_cons, Hlen.
  split; [done|]. split; [lia|]. cbn [Limb.val]. rewrite Z.pow_add_r, Z.pow_1_r by lia. nia.
Qed.

Lemma mp_mul1_spec taba b l : limbs_ok taba -> limb_ok b -> limb_ok l ->
  exists tabr l', mp_mul1 taba b l = (tabr, l') /\ limbs_ok tabr /\ zlen tabr = zlen taba /\ limb_ok l' /\
    val tabr + Base ^ zlen taba * l' = val taba * b + l.
Proof using Hlg.
  intros H Hb. revert l. pose proof (Base_ge lg Hlg) as HB. induction H as [|x taba Hx _ IH]; intros l Hl.
  { exists [], l. change (zlen (@nil Z)) with 0. cbn [mp_mul1 Limb.val]. split_and!; try (done || lia || by constructor); apply Hl. }
  cbn [mp_mul1]. unfold Limb.limb_ok in Hx, Hb, Hl. pose proof (zlen_nonneg taba).
  destruct (dlimb_split (x * b + l)) as (-> & Hlo & Hhi & Heq); [nia|].
  destruct (IH _ Hhi) as (tabr & l' & Hr & Hok & Hlen & Hl' & Hval). rewrite Hr. eexists _, l'. split; [done|].
  split; [by constructor|]. rewrite !zlen_cons, Hlen. split; [done|]. split; [done|]. cbn [Limb.val].
  rewrite Z.pow_add_r, Z.pow_1_r by lia. nia.
Qed.

Lemma mp_add_mul1_loop_spec tabr taba b l : limbs_ok tabr -> limbs_ok taba -> zlen taba = zlen tabr -> limb_ok b -> limb_ok l ->
  exists res l', mp_add_mul1_loop tabr taba b l = Some (res, l') /\ limbs_ok res /\ zlen res = zlen taba /\ limb_ok l' /\
    val res + Base ^ zlen taba * l' = val tabr + val taba * b + l.
Proof using Hlg.
  intros Hr H. revert tabr l Hr. pose proof (Base_ge lg Hlg) as HB. induction H as [|x taba Hx _ IH]; intros tabr l Hr Hlen Hb Hl.
  { exists [], l. destruct tabr; [|rewrite zlen_cons in Hlen; pose proof (zlen_nonneg tabr); change (zlen (@nil Z)) with 0 in Hlen; lia].
    change (zlen (@nil Z)) with 0. cbn [mp_add_mul1_loop Limb.val]. split_and!; try (done || lia || by constructor); apply Hl. }
  rewrite zlen_cons in Hlen. pose proof (zlen_nonneg taba).
  destruct tabr as [|y tabr]; [change (zlen (@nil Z)) with 0 in Hlen; lia|]. rewrite zlen_cons in Hlen.
  apply Forall_cons in Hr as [Hy Hr]. cbn [mp_add_mul1_loop]. unfold Limb.limb_ok in Hx, Hb, Hl, Hy.
  destruct (dlimb_split (x * b + l + y)) as (-> & Hlo & Hhi & Heq); [nia|].
  destruct (IH tabr _ Hr ltac:(lia) Hb Hhi) as (res & l' & -> & Hok & Hlen' & Hl' & Hval). cbn [mbind option_bind].
  eexists _, l'. split; [done|]. split; [by constructor|]. rewrite !zlen_cons, Hlen'. split; [done|]. split; [done|].
  cbn [Limb.val]. rewrite Z.pow_add_r, Z.pow_1_r by lia. nia.
Qed.

(** The borrow of a subtracted product. *)
Lemma sub_mul_step x b l y : limb_ok x -> limb_ok b -> limb_ok l -> limb_ok y ->
  let t := dlimb (y - x * b - l) in
  limb_ok (limb t) /\ limb_ok (limb (- Z.shiftr t LIMB_BITS)) /\
  limb t - Base * limb (- Z.shiftr t LIMB_BITS) = y - x * b - l.
Proof using Hlg.
  pose proof (Base_ge lg Hlg) as HB. intros Hx Hb Hl Hy. cbv zeta. pose proof (limb_range lg Hlg) as Hlr. split; [apply Hlr|].
  split; [apply Hlr|]. unfold Limb.limb_ok in Hx, Hb, Hl, Hy. pose proof (LIMB_BITS_ge lg Hlg).
  set (z := y - x * b - l). assert (- (Base * Base) < z - Base + 1 /\ z < Base) as Hz by (unfold z; nia).
  set (q := z / Base). assert (z = Base * q + limb z) as Hdiv by (unfold q, Limb.limb; apply Z.div_mod; lia).
  assert (- Base < q <= 0) as Hq by (pose proof (Hlr z); unfold Limb.limb_ok in *; nia).
  assert (limb (dlimb z) = limb z) as ->.
  { unfold Limb.limb, Limb.dlimb. rewrite (Z.mod_eq z (Base * Base)) by nia.
    replace (z - Base * Base * (z / (Base * Base))) with (z + (- Base * (z / (Base * Base))) * Base) by lia.
    apply Z_mod_plus_full. }
  assert (limb (- Z.shiftr (dlimb z) LIMB_BITS) = - q) as ->; [|lia].
  rewrite Z.shiftr_div_pow2 by lia. change (2 ^ LIMB_BITS) with Base. pose proof (Hlr z) as Hlz.
  unfold Limb.dlimb, Limb.limb_ok in *. destruct (decide (q = 0)) as [Hq0|Hq0].
  - rewrite (Z.mod_small z) by nia. fold q. rewrite Hq0. done.
  - rewrite <- (Z_mod_plus_full z 1), (Z.mod_small (z + _)) by nia.
    replace (z + 1 * (Base * Base)) with (z + Base * Base) by lia. rewrite Z.div_add by lia. fold q.
    unfold Limb.limb. rewrite <- (Z_mod_plus_full _ 1), Z.mod_small by lia. lia.
Qed.

Lemma mp_sub_mul1_loop_spec tabr taba b l : limbs_ok tabr -> limbs_ok taba -> zlen taba = zlen tabr -> limb_ok b -> limb_ok l ->
  exists res l', mp_sub_mul1_loop tabr taba b l = Some (res, l') /\ limbs_ok res /\ zlen res = zlen taba /\ limb_ok l' /\
    val res - Base ^ zlen taba * l' = val tabr - val taba * b - l.
Proof using Hlg.
  intros Hr H. revert tabr l Hr. induction H as [|x taba Hx _ IH]; intros tabr l Hr Hlen Hb Hl.
  { exists [], l. destruct tabr; [|rewrite zlen_cons in Hlen; pose proof (zlen_nonneg tabr); change (zlen (@nil Z)) with 0 in Hlen; lia].
    change (zlen (@nil Z)) with 0. cbn [mp_sub_mul1_loop Limb.val]. split_and!; try (done || lia || by constructor); apply Hl. }
  rewrite zlen_cons in Hlen. pose proof (zlen_nonneg taba).
  destruct tabr as [|y tabr]; [change (zlen (@nil Z)) with 0 in Hlen; lia|]. rewrite zlen_cons in Hlen.
  apply Forall_cons in Hr as [Hy Hr]. cbn [mp_sub_mul1_loop].
  pose proof (sub_mul_step x b l y Hx Hb Hl Hy) as Hs. cbv zeta in Hs. destruct Hs as (Hlo & Hhi & Heq).
  destruct (IH tabr _ Hr ltac:(lia) Hb Hhi) as (res & l' & -> & Hok & Hlen' & Hl' & Hval). cbn [mbind option_bind].
  eexists _, l'. split; [done|]. split; [by constructor|]. rewrite !zlen_cons, Hlen'. split; [done|]. split; [done|].
  cbn [Limb.val]. rewrite Z.pow_add_r, Z.pow_1_r by lia. nia.
Qed.

(** ** Shift *)

Lemma shr_limb a l s : 1 <= s < LIMB_BITS -> limb_ok a ->
  Z.lor (Z.shiftr a s) (limb (Z.shiftl l (LIMB_BITS - s))) = a / 2 ^ s + l mod 2 ^ s * 2 ^ (LIMB_BITS - s).
Proof using Hlg.
  intros Hs Ha. rewrite Z.shiftr_div_pow2, Z.shiftl_mul_pow2 by lia.
  assert (Base = 2 ^ s * 2 ^ (LIMB_BITS - s)) as HB by (unfold Limb.Base; rewrite <- Z.pow_add_r by lia; f_equal; lia).
  assert (limb (l * 2 ^ (LIMB_BITS - s)) = l mod 2 ^ s * 2 ^ (LIMB_BITS - s)) as ->
    by (unfold Limb.limb; rewrite HB; apply Z.mul_mod_distr_r; lia).
  apply lor_add; [lia|]. unfold Limb.limb_ok in Ha. split; [apply Z.div_pos; lia|apply Z.div_lt_upper_bound; lia].
Qed.

Lemma shr_value a X s : 1 <= s < LIMB_BITS ->
  (a + Base * X) / 2 ^ s = a / 2 ^ s + X mod 2 ^ s * 2 ^ (LIMB_BITS - s) + Base * (X / 2 ^ s).
Proof using Hlg.
  intros Hs. assert (Base = 2 ^ s * 2 ^ (LIMB_BITS - s)) as HB by (unfold Limb.Base; rewrite <- Z.pow_add_r by lia; f_equal; lia).
  rewrite HB at 1. replace (a + 2 ^ s * 2 ^ (LIMB_BITS - s) * X) with (a + 2 ^ (LIMB_BITS - s) * X * 2 ^ s) by lia.
  rewrite Z.div_add by lia. pose proof (Z.div_mod X (2 ^ s) ltac:(lia)). rewrite HB. nia.
Qed.

Lemma mp_shr_spec tab s high : 1 <= s < LIMB_BITS -> limbs_ok tab -> limb_ok high ->
  exists tab_r r, mp_shr tab s high = Some (tab_r, r) /\ limbs_ok tab_r /\ zlen tab_r = zlen tab /\
    val tab_r = (val tab + Base ^ zlen tab * high) / 2 ^ s mod Base ^ zlen tab /\
    r = (val tab + Base ^ zlen tab * high) mod 2 ^ s.
Proof using Hlg.
  intros Hs Hok Hhigh. unfold mp_shr. replace (s >=? 1) with true by lia. replace (s <? LIMB_BITS) with true by lia.
  cbn [negb andb]. pose proof (Base_ge lg Hlg).
  set (f := fun a '(l, tab_r) => _).
  assert (exists l tab_r, foldr f (high, []) tab = (l, tab_r) /\ limbs_ok tab_r /\ zlen tab_r = zlen tab /\
    val tab_r = (val tab + Base ^ zlen tab * high) / 2 ^ s mod Base ^ zlen tab /\
    limb_ok l /\ l mod 2 ^ s = (val tab + Base ^ zlen tab * high) mod 2 ^ s) as (l & tab_r & -> & Hr & Hlen & Hval & Hl & Hmod).
  { induction Hok as [|a tab Ha _ (l & tab_r & Hf & Hr & Hlen & Hval & Hl & Hmod)].
    - exists high, []. change (zlen (@nil Z)) with 0. cbn [Limb.val foldr]. rewrite Z.pow_0_r, Z.mod_1_r, Z.add_0_l, Z.mul_1_l.
      split_and!; try (done || by constructor); apply Hhigh.
    - cbn [foldr]. rewrite Hf. unfold f at 1. rewrite shr_limb by done. eexists a, _. split; [done|].
      rewrite !zlen_cons, Hlen. pose proof (zlen_nonneg tab). cbn [Limb.val]. rewrite Z.pow_add_r, Z.pow_1_r by lia.
      set (X := val tab + Base ^ zlen tab * high) in *.
      replace (a + Base * val tab + Base ^ zlen tab * Base * high) with (a + Base * X) by (unfold X; lia).
      assert (0 < 2 ^ s) by lia. assert (Base = 2 ^ s * 2 ^ (LIMB_BITS - s)) as HB
        by (unfold Limb.Base; rewrite <- Z.pow_add_r by lia; f_equal; lia).
      assert (limb_ok (a / 2 ^ s + l mod 2 ^ s * 2 ^ (LIMB_BITS - s))) as Hlimb.
      { unfold Limb.limb_ok in *. pose proof (Z.mod_pos_bound l (2 ^ s) ltac:(lia)).
        assert (0 <= a / 2 ^ s < 2 ^ (LIMB_BITS - s)) by (split; [apply Z.div_pos; lia|apply Z.div_lt_upper_bound; lia]). nia. }
      split; [by constructor|]. split; [done|]. split; [|split; [done|]].
      + rewrite shr_value, <- Hmod by done. rewrite Hval. pose proof (pow_pos lg Hlg (zlen tab) ltac:(lia)) as Hpp.
        rewrite (Z.mul_comm (Base ^ zlen tab)), Z.rem_mul_r by lia. unfold Limb.limb_ok in Hlimb.
        rewrite (Z.mul_comm Base (X / _)). rewrite Z.mod_add, Z.div_add by lia.
        rewrite (Z.mod_small (_ + _)), (Z.div_small (_ + _)) by done. rewrite Z.add_0_l. done.
      + rewrite HB. replace (a + 2 ^ s * 2 ^ (LIMB_BITS - s) * X) with (a + 2 ^ (LIMB_BITS - s) * X * 2 ^ s) by lia.
        by rewrite Z.mod_add by lia. }
  exists tab_r, (l mod 2 ^ s). rewrite Z.shiftl_1_l, land_mod by lia. split_and!; (done || lia).
Qed.

(** ** Multiplication *)

Lemma mul_rows_spec op1 op2 A G i : limbs_ok op1 -> limbs_ok op2 -> limbs_ok A ->
  0 <= i -> zlen A = i + zlen op1 -> zlen G = zlen op2 ->
  exists R, mul_rows (A ++ G) op1 op2 i = Some R /\ limbs_ok R /\ zlen R = zlen A + zlen G /\
    val R = val A + Base ^ i * (val op1 * val op2).
Proof using Hlg.
  intros H1 H2. revert A G i. induction H2 as [|b op2 Hb _ IH]; intros A G i HA Hi HlA HlG.
  { destruct G as [|g G]; [|rewrite zlen_cons in HlG; change (zlen (@nil Z)) with 0 in HlG; pose proof (zlen_nonneg G); lia].
    exists A. rewrite app_nil_r. cbn [mul_rows Limb.val]. change (zlen (@nil Z)) with 0. rewrite !Z.mul_0_r. split_and!; (done || lia). }
  rewrite zlen_cons in HlG. pose proof (zlen_nonneg op2). pose proof (zlen_nonneg op1).
  destruct G as [|g G]; [change (zlen (@nil Z)) with 0 in HlG; lia|]. rewrite zlen_cons in HlG.
  destruct (split2 A i ltac:(lia)) as (L & W & -> & HL). rewrite zlen_app in HlA. apply limbs_ok_app in HA as [HLok HWok].
  cbn [mul_rows]. rewrite <- app_assoc. rewrite sub_arr_mid by lia. cbn [mbind option_bind].
  destruct (mp_add_mul1_loop_spec W op1 b 0 HWok H1 ltac:(lia) Hb) as (W' & r & Hadd & HW' & HlW & Hr & Hval);
    [unfold Limb.limb_ok; pose proof (Base_ge lg Hlg); lia|].
  unfold mp_add_mul1. rewrite Hadd. cbn [mbind option_bind]. rewrite splice_mid by lia. cbn [mbind option_bind].
  rewrite wr_upd by (rewrite !zlen_app, zlen_cons; pose proof (zlen_nonneg G); lia). cbn [mbind option_bind].
  rewrite app_assoc, upd_mid by (rewrite zlen_app; lia).
  replace ((L ++ W') ++ r :: G) with ((L ++ W' ++ [r]) ++ G) by (by rewrite <- !app_assoc).
  destruct (IH (L ++ W' ++ [r]) G (i + 1)) as (R & HR & HRok & HRl & HRv).
  - rewrite !limbs_ok_app. split_and!; try done. by apply Forall_singleton.
  - lia.
  - rewrite !zlen_app. change (zlen [r]) with 1. lia.
  - lia.
  - exists R. split; [done|]. split; [done|]. rewrite !zlen_app in HRl. change (zlen [r]) with 1 in HRl. rewrite zlen_app, zlen_cons. split; [lia|].
    rewrite HRv, !val_app, HlW by done. cbn [Limb.val]. rewrite HL. rewrite Z.pow_add_r, Z.pow_1_r by lia. nia.
Qed.

Lemma mp_mul_basecase_spec result op1 op2 : limbs_ok op1 -> limbs_ok op2 -> 0 < zlen op2 -> zlen result = zlen op1 + zlen op2 ->
  exists R, mp_mul_basecase result op1 op2 = Some R /\ limbs_ok R /\ zlen R = zlen op1 + zlen op2 /\ val R = val op1 * val op2.
Proof using Hlg.
  intros H1 H2 Hpos Hlen. destruct op2 as [|b op2]; [done|]. apply Forall_cons in H2 as [Hb H2]. clear Hpos.
  rewrite zlen_cons in *. pose proof (zlen_nonneg op1). pose proof (zlen_nonneg op2). unfold mp_mul_basecase.
  destruct (mp_mul1_spec op1 b 0 H1 Hb) as (row & r & -> & Hrow & Hlr & Hr & Hval);
    [unfold Limb.limb_ok; pose proof (Base_ge lg Hlg); lia|].
  destruct (split2 result (zlen op1) ltac:(lia)) as (X & Y & -> & HX). rewrite zlen_app in Hlen.
  destruct Y as [|y Y]; [change (zlen (@nil Z)) with 0 in Hlen; lia|]. rewrite zlen_cons in Hlen.
  change (X ++ y :: Y) with ([] ++ X ++ y :: Y). rewrite splice_mid by (done || lia). cbn [mbind option_bind app].
  rewrite wr_upd by (rewrite zlen_app, zlen_cons; pose proof (zlen_nonneg Y); lia). cbn [mbind option_bind].
  rewrite upd_mid by lia. replace (row ++ r :: Y) with ((row ++ [r]) ++ Y) by (by rewrite <- app_assoc).
  destruct (mul_rows_spec op1 op2 (row ++ [r]) Y 1 H1 H2) as (R & HR & HRok & HRl & HRv).
  - apply limbs_ok_app. split; [done|by apply Forall_singleton].
  - lia.
  - rewrite zlen_app. change (zlen [r]) with 1. lia.
  - lia.
  - exists R. split; [done|]. split; [done|]. rewrite zlen_app in HRl. change (zlen [r]) with 1 in HRl. split; [lia|].
    rewrite HRv, val_app, Hlr, Z.pow_1_r by done. cbn [Limb.val]. nia.
Qed.
End mp.

(** ** Properties *)

(** [mp_add] and [mp_sub] are the carry and borrow chains of addition and
    subtraction: on two arrays of [n] limbs and a carry in, the limbs written and
    the carry out are the sum (the difference) of the values. *)
Theorem mp_add_sub_correct (lg : Z) (op1 op2 : list Z) (k : Z) :
  1 <= lg -> limbs_ok lg op1 -> limbs_ok lg op2 -> zlen op1 = zlen op2 -> 0 <= k <= 1 ->
  (exists res c, mp_add lg op1 op2 k = Some (res, c) /\ limbs_ok lg res /\ zlen res = zlen op1 /\ 0 <= c <= 1 /\
     val lg res + Base lg ^ zlen op1 * c = val lg op1 + val lg op2 + k) /\
  (exists res c, mp_sub lg op1 op2 k = Some (res, c) /\ limbs_ok lg res /\ zlen res = zlen op1 /\ 0 <= c <= 1 /\
     val lg res = val lg op1 - val lg op2 - k + Base lg ^ zlen op1 * c).
Proof.
  intros Hlg H1 H2 Hl Hk. assert (take (length op1) op2 = op2) as Ht by (apply take_ge; unfold zlen in Hl; lia). split.
  - destruct (mp_add_spec lg Hlg op1 op2 k H1 H2 ltac:(lia) Hk) as (res & c & Hr & H). rewrite Ht in H. exists res, c. split; [done|]. intuition lia.
  - destruct (mp_sub_spec lg Hlg op1 op2 k H1 H2 ltac:(lia) Hk) as (res & c & Hr & H). rewrite Ht in H. exists res, c. split; [done|]. intuition lia.
Qed.

Lemma mp_add_sub_correct_witness : exists res, mp_add 6 [2 ^ 64 - 1; 5] [1; 7] 0 = Some (res, 0) /\ val 6 res = 13 * 2 ^ 64.
Proof.
  assert (forall x, 0 <= x < 2 ^ 64 -> limb_ok 6 x) as Hok by done.
  destruct (mp_add_sub_correct 6 [2 ^ 64 - 1; 5] [1; 7] 0 ltac:(lia)) as [(res & c & E & _ & _ & _ & H) _];
    [repeat constructor; apply Hok; lia|repeat constructor; apply Hok; lia|reflexivity|lia|].
  vm_compute in E. injection E as <- <-. eexists. split; [vm_compute; reflexivity|]. vm_compute; reflexivity.
Defined.

(** [mp_mul_basecase], the schoolbook multiplication with its rows of
    multiply-accumulate steps, writes all the limbs of the result array and their
    value is the product of the operands: no carry is lost in the double limbs. *)
Theorem mp_mul_basecase_correct (lg : Z) (result op1 op2 : list Z) :
  1 <= lg -> limbs_ok lg op1 -> limbs_ok lg op2 -> 0 < zlen op2 -> zlen result = zlen op1 + zlen op2 ->
  exists res, mp_mul_basecase lg result op1 op2 = Some res /\ limbs_ok lg res /\ zlen res = zlen op1 + zlen op2 /\
    val lg res = val lg op1 * val lg op2.
Proof. intros Hlg. exact (mp_mul_basecase_spec lg Hlg result op1 op2). Qed.

Lemma mp_mul_basecase_correct_witness : exists res, mp_mul_basecase 6 [0; 0; 0; 0] [2 ^ 64 - 1; 2 ^ 64 - 1] [2 ^ 64 - 1; 2 ^ 64 - 1] = Some res /\
  val 6 res = (2 ^ 128 - 1) * (2 ^ 128 - 1).
Proof.
  assert (limbs_ok 6 [2 ^ 64 - 1; 2 ^ 64 - 1]) as Hok by (repeat constructor; vm_compute; congruence).
  destruct (mp_mul_basecase_correct 6 [0; 0; 0; 0] [2 ^ 64 - 1; 2 ^ 64 - 1] [2 ^ 64 - 1; 2 ^ 64 - 1] ltac:(lia) Hok Hok ltac:(reflexivity) ltac:(reflexivity)) as (res & E & _ & _ & H).
  exists res. split; [exact E|]. rewrite H. vm_compute; reflexivity.
Defined.
