(* ===== verification/MpDiv.v ===== *)
(** * Division of multi-precision naturals (libbf.c)

    Division of a double limb by a normalized limb with a precomputed
    reciprocal, of an array by a limb, and the schoolbook division of an array
    by a normalized array. *)

From S2P Require Import Prelude CArray Limb MpArith.
Open Scope Z_scope.

Definition UDIV1NORM_THRESHOLD : Z := 3.
Definition DIVNORM_LARGE_THRESHOLD : Z := 50.

Section div.
Context (lg : Z).
Notation LIMB_BITS := (LIMB_BITS lg).
Notation Base := (Base lg).
Notation limb := (limb lg).
Notation dlimb := (dlimb lg).
Notation slimb := (slimb lg).
Notation limb_ok := (limb_ok lg).
Notation limbs_ok := (limbs_ok lg).
Notation val := (val lg).

(** ** Definitions *)

Definition udiv1norm_init (d : Z) : Z :=
  let a1 := limb (- d - 1) in
  let a0 := limb (-1) in
  limb (Z.lor (dlimb (Z.shiftl a1 LIMB_BITS)) a0 / d).

(** The quotient and the remainder. *)
Definition udiv1norm (a1 a0 d d_inv : Z) : Z * Z :=
  let n1m := limb (Z.shiftr (slimb a0) (LIMB_BITS - 1)) in
  let n_adj := limb (a0 + Z.land n1m d) in
  let a := dlimb (d_inv * limb (a1 - n1m) + n_adj) in
  let q := limb (Z.shiftr a LIMB_BITS + a1) in
  let a := Z.lor (dlimb (Z.shiftl a1 LIMB_BITS)) a0 in
  let a := dlimb (a - q * d - d) in
  let ah := limb (Z.shiftr a LIMB_BITS) in
  let q := limb (q + (1 + ah)) in
  let r := limb (limb a + Z.land ah d) in
  (q, r).

Definition div_limb (r a b : Z) : Z * Z :=
  let a1 := Z.lor (dlimb (Z.shiftl r LIMB_BITS)) a in (limb (a1 / b), a1 mod b).

(** From the top limb down. *)
Definition mp_div1norm (taba : list Z) (b r : Z) : list Z * Z :=
  if zlen taba >=? UDIV1NORM_THRESHOLD then
    let b_inv := udiv1norm_init b in
    foldr (fun a '(tabr, r) => let '(q, r) := udiv1norm r a b b_inv in (q :: tabr, r)) ([], r) taba
  else
    foldr (fun a '(tabr, r) => let '(q, r) := div_limb r a b in (q :: tabr, r)) ([], r) taba.

(** The first quotient limb: whether the top [nb] limbs are at least [tabb].
    The arguments are the limbs from the top one down. *)
Fixpoint first_quotient (rtop rtabb : list Z) : Z :=
  match rtop, rtabb with
  | x :: rtop, y :: rtabb => if negb (x =? y) then (if x <? y then 0 else 1) else first_quotient rtop rtabb
  | _, _ => 1
  end.

(** Making the remainder positive again: [q], the window and the limb above. *)
Fixpoint add_back (fuel : nat) (q : Z) (win tabb : list Z) (top : Z) : option (Z * list Z * Z) :=
  match fuel with
  | O => None
  | S fuel =>
      let q := limb (q - 1) in
      '(win, c) ← mp_add lg win tabb 0;
      if negb (c =? 0) then
        let top := limb (top + 1) in
        if top =? 0 then Some (q, win, top) else add_back fuel q win tabb top
      else add_back fuel q win tabb top
  end.

(** One quotient limb, at index [i]. *)
Definition divnorm_step (b1 b1_inv : Z) (tabb : list Z) (tabq taba : list Z) (i : Z) : option (list Z * list Z) :=
  let nb := zlen tabb in
  t1 ← rd taba (i + nb); t0 ← rd taba (i + nb - 1);
  let q := if t1 >=? b1 then limb (-1)
           else if negb (b1_inv =? 0) then (udiv1norm t1 t0 b1 b1_inv).1
           else (div_limb t1 t0 b1).1 in
  win ← sub_arr taba i nb;
  '(win, r) ← mp_sub_mul1 lg win tabb q;
  let v := t1 in
  let a := limb (v - r) in
  let c := Zb (a >? v) in
  '(q, win, top) ← (if negb (c =? 0) then add_back 4 q win tabb a else Some (q, win, a));
  taba ← splice taba i win;
  taba ← wr taba (i + nb) top;
  tabq ← wr tabq i q;
  Some (tabq, taba).

Fixpoint divnorm_loop (b1 b1_inv : Z) (tabb : list Z) (tabq taba : list Z) (n : nat) : option (list Z * list Z) :=
  match n with
  | O => Some (tabq, taba)
  | S n =>
      '(tabq, taba) ← divnorm_step b1 b1_inv tabb tabq taba (Z.of_nat n);
      divnorm_loop b1 b1_inv tabb tabq taba n
  end.

(** The status, the quotient and the array that holds the remainder.
    [divnorm_large] is the subquadratic division used from
    [DIVNORM_LARGE_THRESHOLD] limbs on, which can run out of memory. *)
Definition mp_divnorm (divnorm_large : list Z -> list Z -> list Z -> option (Z * list Z * list Z))
    (tabq taba tabb : list Z) : option (Z * list Z * list Z) :=
  let na := zlen taba in
  let nb := zlen tabb in
  b1 ← rd tabb (nb - 1);
  if nb =? 1 then
    let '(q, r) := mp_div1norm taba b1 0 in
    tabq ← splice tabq 0 q; taba ← wr taba 0 r; Some (0, tabq, taba)
  else
    let n := na - nb in
    if Z.min n nb >=? DIVNORM_LARGE_THRESHOLD then divnorm_large tabq taba tabb
    else
      let b1_inv := if n >=? UDIV1NORM_THRESHOLD then udiv1norm_init b1 else 0 in
      top ← sub_arr taba n nb;
      let q := first_quotient (rev top) (rev tabb) in
      tabq ← wr tabq n q;
      taba ← (if negb (q =? 0) then '(top, _) ← mp_sub lg top tabb 0; splice taba n top else Some taba);
      '(tabq, taba) ← divnorm_loop b1 b1_inv tabb tabq taba (Z.to_nat n);
      Some (0, tabq, taba).

Context (Hlg : 1 <= lg).

(** ** A double limb by a limb *)

Lemma Base_half : Base = 2 * 2 ^ (LIMB_BITS - 1).
Proof using Hlg. unfold Limb.Base. rewrite <- Z.pow_succ_r by (pose proof (LIMB_BITS_ge lg Hlg); lia). f_equal. lia. Qed.

Lemma double_limb hi lo : limb_ok hi -> limb_ok lo -> Z.lor (dlimb (Z.shiftl hi LIMB_BITS)) lo = hi * Base + lo.
Proof using Hlg.
  pose proof (LIMB_BITS_ge lg Hlg). pose proof (Base_ge lg Hlg). intros Hhi Hlo. unfold Limb.limb_ok in *.
  rewrite Z.shiftl_mul_pow2 by lia. change (2 ^ LIMB_BITS) with Base. unfold Limb.dlimb. rewrite Z.mod_small by nia.
  apply (lor_add' lo hi LIMB_BITS); [lia|done].
Qed.

Lemma div_limb_spec r a b : limb_ok a -> limb_ok b -> 0 <= r < b ->
  exists q r', div_limb r a b = (q, r') /\ limb_ok q /\ 0 <= r' < b /\ r * Base + a = b * q + r'.
Proof using Hlg.
  pose proof (Base_ge lg Hlg). intros Ha Hb Hr. unfold div_limb. unfold Limb.limb_ok in *.
  rewrite double_limb by (unfold Limb.limb_ok; lia).
  assert (0 <= (r * Base + a) / b < Base) as Hq by (split; [apply Z.div_pos; lia|apply Z.div_lt_upper_bound; nia]).
  eexists _, _. split; [done|]. rewrite limb_id by done. split; [done|]. split; [apply Z.mod_pos_bound; lia|].
  apply Z.div_mod. lia.
Qed.

(** The reciprocal of a normalized limb. *)
Lemma udiv1norm_init_spec d : limb_ok d -> Base <= 2 * d ->
  exists k, limb_ok (udiv1norm_init d) /\ (udiv1norm_init d + Base) * d = Base * Base - k /\ 1 <= k <= d.
Proof using Hlg.
  pose proof (Base_ge lg Hlg). intros Hd Hn. unfold udiv1norm_init. unfold Limb.limb_ok in *.
  assert (limb (- d - 1) = Base - d - 1) as -> by (unfold Limb.limb; rewrite <- (Z_mod_plus_full _ 1), Z.mod_small by lia; lia).
  assert (limb (-1) = Base - 1) as -> by (unfold Limb.limb; rewrite <- (Z_mod_plus_full _ 1), Z.mod_small by lia; lia).
  rewrite double_limb by (unfold Limb.limb_ok; lia). set (N := (Base - d - 1) * Base + (Base - 1)).
  pose proof (Z.div_mod N d ltac:(lia)). pose proof (Z.mod_pos_bound N d ltac:(lia)).
  assert (0 <= N / d < Base) by (unfold N; split; [apply Z.div_pos; nia|apply Z.div_lt_upper_bound; nia]).
  rewrite limb_id by done. exists (N mod d + 1). split; [done|]. split; [|lia].
  replace ((N / d + Base) * d) with (d * (N / d) + Base * d) by lia. unfold N in *. lia.
Qed.

(** The top bit of a limb as a mask. *)
Lemma sign_mask a d : limb_ok a -> limb_ok d ->
  let n1m := limb (Z.shiftr (slimb a) (LIMB_BITS - 1)) in
  (2 * a < Base /\ n1m = 0 /\ Z.land n1m d = 0) \/ (Base <= 2 * a /\ n1m = Base - 1 /\ Z.land n1m d = d).
Proof using Hlg.
  pose proof (LIMB_BITS_ge lg Hlg). pose proof (Base_ge lg Hlg). pose proof Base_half as Hh. intros Ha Hd. cbv zeta. unfold Limb.limb_ok in *.
  rewrite Z.shiftr_div_pow2 by lia. unfold Limb.slimb, swrap. change (2 ^ LIMB_BITS) with Base.
  set (H2 := 2 ^ (LIMB_BITS - 1)) in *. destruct (decide (a < H2)).
  - left. split; [lia|]. rewrite (Z.mod_small (a + H2)) by lia. rewrite Z.div_small by lia. done.
  - right. split; [lia|]. rewrite <- (Z_mod_plus_full (a + H2) (-1)), (Z.mod_small (_ + _)) by lia.
    replace ((a + H2 + -1 * Base - H2) / H2) with (-1) by (apply (Zdiv_unique _ _ _ (a - H2)); lia).
    assert (limb (-1) = Base - 1) as -> by (unfold Limb.limb; rewrite <- (Z_mod_plus_full _ 1), Z.mod_small by lia; lia).
    split; [done|]. rewrite Z.land_comm. unfold Limb.Base at 1. rewrite land_mod by lia. by apply Z.mod_small.
Qed.

(** The estimate is the quotient or one less. *)
Lemma udiv_estimate a1 a0 d v k h T : 0 <= a1 < d -> 0 <= a0 < Base -> 0 < d < Base -> Base <= 2 * d -> 1 <= k <= d ->
  (v + Base) * d = Base * Base - k ->
  (h = 0 /\ 2 * a0 < Base /\ T = v * a1 + a0) \/ (h = 1 /\ Base <= 2 * a0 /\ T = v * (a1 + 1) + (a0 + d - Base)) ->
  let q := T / Base + a1 in 0 <= a1 * Base + a0 - q * d < 2 * d.
Proof using Hlg.
  intros Ha1 Ha0 Hd Hn Hk Hv Hcase. cbv zeta. pose proof (Base_ge lg Hlg).
  set (f := T / Base). pose proof (Z.div_mod T Base ltac:(lia)) as HT. pose proof (Z.mod_pos_bound T Base ltac:(lia)). fold f in HT.
  set (rho := T mod Base) in *. set (N := a1 * Base + a0).
  assert (0 <= N * Base - d * (Base * a1 + T) <= Base * d) as HD.
  { destruct Hcase as [(_ & Hlo & ->)|(_ & Hhi & ->)].
    - replace (N * Base - d * (Base * a1 + (v * a1 + a0))) with (k * a1 + (Base - d) * a0).
      + assert (0 <= k * a1 <= d * d) by nia. assert (0 <= (Base - d) * a0 <= (Base - d) * d) by nia. nia.
      + unfold N. replace (d * (Base * a1 + (v * a1 + a0))) with ((v + Base) * d * a1 + d * a0) by ring. rewrite Hv. ring.
    - replace (N * Base - d * (Base * a1 + (v * (a1 + 1) + (a0 + d - Base)))) with ((Base - d) * (a0 - (Base - d)) + k * (a1 + 1)).
      + assert (0 <= k * (a1 + 1) <= d * d) by nia. assert (0 <= (Base - d) * (a0 - (Base - d)) <= (Base - d) * d) by nia. nia.
      + unfold N. replace (d * (Base * a1 + (v * (a1 + 1) + (a0 + d - Base)))) with ((v + Base) * d * (a1 + 1) - Base * d + d * a0 + d * d - d * Base) by ring.
        rewrite Hv. ring. }
  assert (Base * a1 + T = Base * (f + a1) + rho) as HT' by lia. rewrite HT' in HD.
  assert (0 <= N - (f + a1) * d) by nia. assert (N - (f + a1) * d < 2 * d) by nia. done.
Qed.

Lemma udiv1norm_spec a1 a0 d : limb_ok a0 -> limb_ok d -> Base <= 2 * d -> 0 <= a1 < d ->
  exists q r, udiv1norm a1 a0 d (udiv1norm_init d) = (q, r) /\ limb_ok q /\ 0 <= r < d /\ a1 * Base + a0 = d * q + r.
Proof using Hlg.
  intros Ha0 Hd Hn Ha1. pose proof (Base_ge lg Hlg) as HB. pose proof (LIMB_BITS_ge lg Hlg).
  destruct (udiv1norm_init_spec d Hd Hn) as (k & Hv & Hvd & Hk). unfold udiv1norm. set (v := udiv1norm_init d) in *.
  pose proof (sign_mask a0 d Ha0 Hd) as Hm. cbv zeta in Hm. set (n1m := limb (Z.shiftr (slimb a0) (LIMB_BITS - 1))) in *.
  unfold Limb.limb_ok in *.
  assert (exists h T, ((h = 0 /\ 2 * a0 < Base /\ T = v * a1 + a0) \/ (h = 1 /\ Base <= 2 * a0 /\ T = v * (a1 + 1) + (a0 + d - Base))) /\
    v * limb (a1 - n1m) + limb (a0 + Z.land n1m d) = T) as (h & T & Hcase & ->).
  { destruct Hm as [(Hlo & -> & ->)|(Hhi & -> & ->)]; [exists 0|exists 1]; eexists; (split; [|done]); [left|right].
    - split; [done|]. split; [done|]. rewrite Z.sub_0_r, Z.add_0_r, !limb_id by (unfold Limb.limb_ok; lia). done.
    - split; [done|]. split; [done|]. unfold Limb.limb.
      rewrite <- (Z_mod_plus_full (a1 - _) 1), <- (Z_mod_plus_full (a0 + d) (-1)), !Z.mod_small by lia. lia. }
  assert (0 <= T < Base * Base) as HT by (destruct Hcase as [(_ & ? & ->)|(_ & ? & ->)]; nia).
  assert (dlimb T = T) as -> by (by apply Z.mod_small). rewrite !(Z.shiftr_div_pow2 T) by lia. change (2 ^ LIMB_BITS) with Base.
  pose proof (udiv_estimate a1 a0 d v k h T Ha1 Ha0 ltac:(lia) Hn Hk Hvd Hcase) as Hest. cbv zeta in Hest.
  set (q := T / Base + a1) in *. set (N := a1 * Base + a0) in *.
  assert (0 <= T / Base) by (apply Z.div_pos; lia).
  assert (N < Base * d) as HN by (unfold N; pose proof (Z.mul_le_mono_nonneg_r a1 (d - 1) Base ltac:(lia) ltac:(lia)); lia).
  assert (0 <= q < Base) as Hq by (split; [unfold q; lia|apply (Z.mul_lt_mono_pos_r d); lia]).
  rewrite (limb_id lg q) by done. rewrite !double_limb by (unfold Limb.limb_ok; lia). fold N.
  set (rem := N - q * d) in *. destruct (decide (rem < d)) as [Hlt|Hge].
  - assert (dlimb (rem - d) = rem - d + Base * Base) as ->.
    { unfold Limb.dlimb. rewrite <- (Z_mod_plus_full _ 1), Z.mod_small by nia. lia. }
    rewrite Z.shiftr_div_pow2 by lia. change (2 ^ LIMB_BITS) with Base.
    assert ((rem - d + Base * Base) / Base = Base - 1) as -> by (symmetry; apply (Zdiv_unique _ _ _ (rem - d + Base)); lia).
    rewrite (limb_id lg (Base - 1)) by (unfold Limb.limb_ok; lia).
    assert (Z.land (Base - 1) d = d) as -> by (rewrite Z.land_comm; unfold Limb.Base; rewrite land_mod by lia; by apply Z.mod_small).
    exists q, rem. split_and!; [f_equal|lia|lia|lia|lia|unfold rem; lia].
    + unfold Limb.limb. rewrite <- (Z_mod_plus_full _ (-1)), Z.mod_small by lia. lia.
    + unfold Limb.limb. rewrite Zplus_mod_idemp_l. replace (rem - d + Base * Base + d) with (rem + Base * Base) by lia.
      rewrite Z_mod_plus_full. apply Z.mod_small. lia.
  - assert (dlimb (rem - d) = rem - d) as -> by (apply Z.mod_small; nia).
    rewrite Z.shiftr_div_pow2 by lia. change (2 ^ LIMB_BITS) with Base. rewrite (Z.div_small (rem - d)) by lia.
    rewrite (limb_id lg 0) by (unfold Limb.limb_ok; lia). rewrite Z.land_0_l, !Z.add_0_r.
    assert (q + 1 < Base) by (apply (Z.mul_lt_mono_pos_r d); unfold rem in *; lia).
    exists (q + 1), (rem - d). rewrite !limb_id by (unfold Limb.limb_ok; rewrite ?limb_id by (unfold Limb.limb_ok; lia); lia).
    split; [done|]. split; [lia|]. split; [lia|]. unfold rem. lia.
Qed.

(** ** An array by a limb *)

Lemma div_fold (f : Z -> Z -> Z * Z) b taba r :
  (forall r a, limb_ok a -> 0 <= r < b -> exists q r', f r a = (q, r') /\ limb_ok q /\ 0 <= r' < b /\ r * Base + a = b * q + r') ->
  limbs_ok taba -> 0 <= r < b ->
  exists tabr r', foldr (fun a '(tabr, r) => let '(q, r) := f r a in (q :: tabr, r)) ([], r) taba = (tabr, r') /\
    limbs_ok tabr /\ zlen tabr = zlen taba /\ 0 <= r' < b /\ r * Base ^ zlen taba + val taba = b * val tabr + r'.
Proof using Hlg.
  intros Hf Hok Hr. induction Hok as [|a taba Ha _ (tabr & r1 & Hfold & Hq & Hl & Hr1 & Hval)].
  - exists [], r. change (zlen (@nil Z)) with 0. cbn [foldr Limb.val]. split_and!; (done || lia || by constructor).
  - cbn [foldr]. rewrite Hfold. destruct (Hf r1 a Ha Hr1) as (q & r2 & -> & Hq2 & Hr2 & Heq).
    exists (q :: tabr), r2. split; [done|]. split; [by constructor|]. rewrite !zlen_cons, Hl. split; [done|]. split; [done|].
    cbn [Limb.val]. pose proof (zlen_nonneg taba). rewrite Z.pow_add_r, Z.pow_1_r by lia. nia.
Qed.

Lemma mp_div1norm_spec taba b r : limbs_ok taba -> limb_ok b -> Base <= 2 * b -> 0 <= r < b ->
  exists tabr r', mp_div1norm taba b r = (tabr, r') /\ limbs_ok tabr /\ zlen tabr = zlen taba /\ 0 <= r' < b /\
    r * Base ^ zlen taba + val taba = b * val tabr + r'.
Proof using Hlg.
  intros Hok Hb Hn Hr. unfold mp_div1norm. destruct (zlen taba >=? UDIV1NORM_THRESHOLD).
  - apply (div_fold (fun r a => udiv1norm r a b (udiv1norm_init b))); [|done|done]. intros. by apply udiv1norm_spec.
  - apply (div_fold (fun r a => div_limb r a b)); [|done|done]. intros. by apply div_limb_spec.
Qed.

(** ** The first quotient limb *)

Lemma first_quotient_spec a b : limbs_ok a -> limbs_ok b -> zlen a = zlen b ->
  first_quotient (rev a) (rev b) = Zb (val b <=? val a).
Proof using Hlg.
  intros Ha. revert b. induction a as [|x a IH] using rev_ind; intros b Hb Hl.
  { destruct b as [|y b]; [done|]. rewrite zlen_cons in Hl. change (zlen (@nil Z)) with 0 in Hl. pose proof (zlen_nonneg b). lia. }
  apply limbs_ok_app in Ha as [Ha Hx]. apply Forall_cons in Hx as [Hx _]. rewrite zlen_app in Hl. change (zlen [x]) with 1 in Hl.
  pose proof (zlen_nonneg a). destruct (split_last b ltac:(lia)) as (b' & y & -> & Hlb). rewrite zlen_app in Hl, Hlb.
  change (zlen [y]) with 1 in Hl, Hlb. apply limbs_ok_app in Hb as [Hb Hy]. apply Forall_cons in Hy as [Hy _].
  rewrite !rev_app_distr. cbn [rev app first_quotient]. rewrite !val_app by done. cbn [Limb.val].
  pose proof (val_range lg Hlg a Ha) as Hva. pose proof (val_range lg Hlg b' Hb) as Hvb. assert (zlen b' = zlen a) as Hbb by lia. rewrite Hbb in *.
  pose proof (pow_pos lg Hlg (zlen a) ltac:(lia)). destruct (x =? y) eqn:E; cbn [negb]; zbool.
  - subst y. rewrite IH by done.
    destruct (val b' <=? val a) eqn:E1; zbool.
    + by replace (_ <=? _) with true by lia.
    + by replace (_ <=? _) with false by lia.
  - destruct (x <? y) eqn:E1; zbool.
    + by replace (_ <=? _) with false by nia.
    + by replace (_ <=? _) with true by nia.
Qed.

(** ** One quotient limb *)

(** The estimate from the top limbs is at most two too large. *)
Lemma quotient_estimate W V top2 b1 P W0 V0 q :
  0 < P -> W = top2 * P + W0 -> 0 <= W0 < P -> V = b1 * P + V0 -> 0 <= V0 < P -> Base <= 2 * b1 ->
  0 <= q < Base -> q * b1 <= top2 -> (q = Base - 1 \/ top2 < (q + 1) * b1) -> 0 <= W < Base * V ->
  - (2 * V) <= W - q * V < V.
Proof using Hlg.
  intros HP HW HW0 HV HV0 Hb1 Hq Hlow Hup HWr. pose proof (Base_ge lg Hlg).
  assert (0 < V) by nia. split.
  - assert (q * b1 * P <= top2 * P) by (apply Z.mul_le_mono_nonneg_r; lia).
    assert (q * V0 <= Base * P) by nia. assert (Base * P <= 2 * b1 * P) by (apply Z.mul_le_mono_nonneg_r; lia). nia.
  - destruct Hup as [->|Hup]; [nia|]. assert (W < (q + 1) * V); [|lia].
    assert ((top2 + 1) * P <= (q + 1) * b1 * P) by (apply Z.mul_le_mono_nonneg_r; lia). nia.
Qed.

Lemma add_back_spec fuel W V q win tabb top :
  limbs_ok win -> limbs_ok tabb -> zlen win = zlen tabb -> val tabb = V -> 0 < V -> limb_ok q -> limb_ok top ->
  W - q * V = val win + Base ^ zlen tabb * (top - Base) -> W - q * V < 0 -> - (Z.of_nat fuel * V) <= W - q * V -> 0 <= W ->
  exists q' win', add_back fuel q win tabb top = Some (q', win', 0) /\ limb_ok q' /\ limbs_ok win' /\ zlen win' = zlen tabb /\
    W = V * q' + val win' /\ val win' < V.
Proof using Hlg.
  revert q win top. induction fuel as [|fuel IH]; intros q win top Hwin Htabb Hl HV HVp Hq Htop Heq Hneg Hf HW; [lia|].
  pose proof (Base_ge lg Hlg). cbn [add_back]. assert (0 < q) as Hqpos by nia.
  assert (limb (q - 1) = q - 1) as -> by (apply limb_id; unfold Limb.limb_ok in *; lia).
  destruct (mp_add_spec lg Hlg win tabb 0 Hwin Htabb ltac:(lia) ltac:(lia)) as (win1 & c & -> & Hwin1 & Hl1 & Hc & Hval).
  cbn [mbind option_bind].
  replace (take (length win) tabb) with tabb in Hval by (symmetry; apply take_ge; unfold zlen in Hl; lia).
  rewrite HV, Hl in Hval. pose proof (val_range lg Hlg win1 Hwin1) as Hr1. rewrite Hl1, Hl in Hr1.
  set (P := Base ^ zlen tabb) in *. unfold Limb.limb_ok in Hq, Htop.
  assert (0 < P) by (apply pow_pos; [done|apply zlen_nonneg]).
  rewrite Nat2Z.inj_succ in Hf. assert (P * (top - Base) <= - P) by nia.
  destruct (c =? 0) eqn:Ec; zbool; cbn [negb].
  - subst c. apply (IH (q - 1) win1 top); try done; try lia. unfold Limb.limb_ok. lia.
  - assert (c = 1) as -> by lia. destruct (decide (top = Base - 1)) as [->|Hne].
    + assert (limb (Base - 1 + 1) = 0) as -> by (unfold Limb.limb; replace (Base - 1 + 1) with Base by lia; apply Z.mod_same; lia).
      rewrite Z.eqb_refl. exists (q - 1), win1. split; [done|]. split; [unfold Limb.limb_ok; lia|]. split; [done|].
      split; [lia|]. split; [lia|]. lia.
    + assert (limb (top + 1) = top + 1) as -> by (apply limb_id; unfold Limb.limb_ok; lia).
      replace (top + 1 =? 0) with false by lia.
      assert (P * (top + 1 - Base) <= - P) by nia.
      apply (IH (q - 1) win1 (top + 1)); try done; try lia; unfold Limb.limb_ok; lia.
Qed.

(** The quotient limb estimated from the two top limbs. *)
Definition quotient_guess (b1 b1_inv t1 t0 : Z) : Z :=
  if t1 >=? b1 then limb (-1)
  else if negb (b1_inv =? 0) then (udiv1norm t1 t0 b1 b1_inv).1 else (div_limb t1 t0 b1).1.

Lemma quotient_guess_spec b1 b1_inv t1 t0 :
  limb_ok t1 -> limb_ok t0 -> limb_ok b1 -> Base <= 2 * b1 -> (b1_inv = 0 \/ b1_inv = udiv1norm_init b1) ->
  let q := quotient_guess b1 b1_inv t1 t0 in
  0 <= q < Base /\ q * b1 <= t1 * Base + t0 /\ (q = Base - 1 \/ t1 * Base + t0 < (q + 1) * b1).
Proof using Hlg.
  pose proof (Base_ge lg Hlg). intros Ht1 Ht0 Hb1 Hn Hinv. cbv zeta. unfold quotient_guess. unfold Limb.limb_ok in Ht1, Hb1.
  destruct (t1 >=? b1) eqn:E; zbool.
  - assert (limb (-1) = Base - 1) as -> by (unfold Limb.limb; rewrite <- (Z_mod_plus_full _ 1), Z.mod_small by lia; lia).
    unfold Limb.limb_ok in Ht0. split; [lia|]. split; [nia|by left].
  - assert (exists q r, (if negb (b1_inv =? 0) then udiv1norm t1 t0 b1 b1_inv else div_limb t1 t0 b1) = (q, r) /\
      limb_ok q /\ 0 <= r < b1 /\ t1 * Base + t0 = b1 * q + r) as (q & r & Heq & Hq & Hr & Hdiv).
    { destruct (b1_inv =? 0) eqn:E0; cbn [negb]; [apply div_limb_spec; (assumption || lia)|].
      destruct Hinv as [-> | ->]; [done|]. apply udiv1norm_spec; (assumption || lia). }
    assert ((if negb (b1_inv =? 0) then (udiv1norm t1 t0 b1 b1_inv).1 else (div_limb t1 t0 b1).1) = q) as ->
      by (destruct (negb (b1_inv =? 0)); by rewrite Heq).
    unfold Limb.limb_ok in Hq. split; [lia|]. split; [nia|right; nia].
Qed.

(** Subtracting the multiple and adding back. *)
Lemma correct_spec W V q win0 tabb t1 :
  limbs_ok win0 -> limbs_ok tabb -> zlen win0 = zlen tabb -> val tabb = V -> 0 < V -> limb_ok q -> limb_ok t1 ->
  W = val win0 + Base ^ zlen tabb * t1 -> - (2 * V) <= W - q * V < V ->
  exists q' win', ('(win, r) ← mp_sub_mul1 lg win0 tabb q;
     let a := limb (t1 - r) in
     let c := Zb (a >? t1) in
     if negb (c =? 0) then add_back 4 q win tabb a else Some (q, win, a)) = Some (q', win', 0) /\
    limb_ok q' /\ limbs_ok win' /\ zlen win' = zlen tabb /\ W = V * q' + val win' /\ val win' < V.
Proof using Hlg.
  intros Hwin0 Htabb Hl0 HV HVp Hq Ht1 HW Hest. pose proof (Base_ge lg Hlg). pose proof (zlen_nonneg tabb).
  destruct (mp_sub_mul1_loop_spec lg Hlg win0 tabb q 0) as (win & r & Hsub & Hwin & Hlwin & Hr & Hval); try done.
  { unfold Limb.limb_ok. lia. }
  unfold mp_sub_mul1. rewrite Hsub. cbn [mbind option_bind]. cbv zeta.
  pose proof (val_range lg Hlg win Hwin) as Hwr. rewrite Hlwin in Hwr. pose proof (val_range lg Hlg win0 Hwin0) as Hwr0.
  pose proof (val_range lg Hlg tabb Htabb) as HVr. pose proof (pow_pos lg Hlg (zlen tabb) ltac:(lia)) as HP.
  rewrite HV in *. set (PB := Base ^ zlen tabb) in *. unfold Limb.limb_ok in Hr, Ht1.
  assert (W - q * V = val win + PB * (t1 - r)) as HX by lia.
  destruct (decide (r <= t1)) as [Hle|Hgt].
  - rewrite limb_id by (unfold Limb.limb_ok; lia). replace (t1 - r >? t1) with false by lia. cbn [Zb Z.eqb negb].
    assert (t1 - r = 0) as Hz.
    { destruct (decide (t1 - r = 0)); [done|]. assert (PB * 1 <= PB * (t1 - r)) by (apply Z.mul_le_mono_nonneg_l; lia). lia. }
    rewrite Hz in *. exists q, win. split; [done|]. split; [done|]. split; [done|]. split; [done|]. lia.
  - assert (limb (t1 - r) = t1 - r + Base) as -> by (unfold Limb.limb; rewrite <- (Z_mod_plus_full _ 1), Z.mod_small by lia; lia).
    replace (t1 - r + Base >? t1) with true by lia. cbn [Zb Z.eqb negb].
    assert (PB * (t1 - r) <= PB * (-1)) by (apply Z.mul_le_mono_nonneg_l; lia).
    assert (0 <= W) by (rewrite HW; apply Z.add_nonneg_nonneg; [lia|]; apply Z.mul_nonneg_nonneg; lia).
    apply (add_back_spec 4 W V); try done; try lia; unfold Limb.limb_ok; lia.
Qed.

Lemma divnorm_step_spec b1 b1_inv tabb V0 A0 lo t0 t1 rest Q0 g Q1 i :
  limbs_ok tabb -> tabb = V0 ++ [b1] -> Base <= 2 * b1 -> (b1_inv = 0 \/ b1_inv = udiv1norm_init b1) ->
  zlen A0 = i -> zlen lo + 1 = zlen tabb -> limbs_ok (lo ++ [t0; t1]) -> zlen Q0 = i -> val (lo ++ [t0; t1]) < Base * val tabb ->
  exists q win', divnorm_step b1 b1_inv tabb (Q0 ++ g :: Q1) (A0 ++ (lo ++ [t0]) ++ t1 :: rest) i
      = Some (Q0 ++ q :: Q1, A0 ++ win' ++ 0 :: rest) /\ limb_ok q /\
    limbs_ok win' /\ zlen win' = zlen tabb /\ val (lo ++ [t0; t1]) = val tabb * q + val win' /\ val win' < val tabb.
Proof using Hlg.
  intros Htabb HV0 Hn Hinv HA Hlo Hok HQ HW. pose proof (Base_ge lg Hlg) as HB.
  pose proof (zlen_nonneg A0). pose proof (zlen_nonneg lo). pose proof (zlen_nonneg rest). pose proof (zlen_nonneg Q1).
  apply limbs_ok_app in Hok as [Hlok Htok]. unfold Limb.limbs_ok in Htok. rewrite !Forall_cons in Htok. destruct Htok as (Ht0 & Ht1 & _).
  assert (limbs_ok V0 /\ limb_ok b1) as [HV0ok Hb1].
  { rewrite HV0 in Htabb. apply limbs_ok_app in Htabb as [? Hb]. by apply Forall_cons in Hb as [? _]. }
  assert (zlen V0 = zlen lo) as HlV0 by (rewrite HV0, zlen_app in Hlo; change (zlen [b1]) with 1 in Hlo; lia).
  assert (zlen (lo ++ [t0]) = zlen tabb) as Hlw by (rewrite zlen_app; change (zlen [t0]) with 1; lia).
  unfold divnorm_step. fold (quotient_guess b1 b1_inv).
  replace (rd _ (i + zlen tabb)) with (Some t1) by (symmetry; rewrite app_assoc; apply rd_mid; rewrite zlen_app; lia).
  replace (rd _ (i + zlen tabb - 1)) with (Some t0)
    by (symmetry; rewrite <- (app_assoc lo), app_assoc; apply rd_mid; rewrite zlen_app; lia).
  cbn [mbind option_bind]. change (if t1 >=? b1 then _ else _) with (quotient_guess b1 b1_inv t1 t0).
  pose proof (quotient_guess_spec b1 b1_inv t1 t0 Ht1 Ht0 Hb1 Hn Hinv) as Hg. cbv zeta in Hg.
  set (q := quotient_guess b1 b1_inv t1 t0) in *. clearbody q. destruct Hg as (Hq & Hqlo & Hqhi).
  rewrite sub_arr_mid by lia. cbn [mbind option_bind].
  pose proof (pow_pos lg Hlg (zlen lo) ltac:(lia)) as HP.
  pose proof (val_range lg Hlg lo Hlok) as HloR. pose proof (val_range lg Hlg V0 HV0ok) as HV0R. rewrite HlV0 in HV0R.
  assert (val (lo ++ [t0; t1]) = (t1 * Base + t0) * Base ^ zlen lo + val lo) as HWeq by (rewrite val_app by done; cbn [Limb.val]; lia).
  assert (val tabb = b1 * Base ^ zlen lo + val V0) as HVeq by (rewrite HV0, val_app, HlV0 by done; cbn [Limb.val]; lia).
  unfold Limb.limb_ok in Ht0, Ht1, Hb1.
  assert (0 <= val (lo ++ [t0; t1])) by (rewrite HWeq; nia). assert (0 < val tabb) as HVp by (rewrite HVeq; nia).
  pose proof (quotient_estimate _ _ _ b1 _ _ _ q HP HWeq HloR HVeq HV0R Hn Hq Hqlo Hqhi ltac:(lia)) as Hest.
  destruct (correct_spec (val (lo ++ [t0; t1])) (val tabb) q (lo ++ [t0]) tabb t1) as (q' & win' & Hc & Hq' & Hwin' & Hlwin' & HWq & Hlt); try done.
  { apply limbs_ok_app. split; [done|]. by apply Forall_singleton. }
  { replace (lo ++ [t0; t1]) with ((lo ++ [t0]) ++ [t1]) by (by rewrite <- app_assoc).
    rewrite (val_app lg Hlg (lo ++ [t0]) [t1]), Hlw. cbn [Limb.val]. lia. }
  destruct (mp_sub_mul1 lg (lo ++ [t0]) tabb q) as [[win r]|]; [|done]. cbn [mbind option_bind] in *. cbv zeta in Hc. rewrite Hc.
  cbn [mbind option_bind]. rewrite splice_mid by lia. cbn [mbind option_bind].
  rewrite (wr_upd (A0 ++ _)), (wr_upd (Q0 ++ _)) by (rewrite !zlen_app, zlen_cons; lia). cbn [mbind option_bind].
  rewrite (app_assoc A0), (upd_mid (A0 ++ _)), (upd_mid Q0) by (rewrite ?zlen_app; lia).
  exists q', win'. rewrite <- app_assoc. done.
Qed.

(** ** The whole division *)

Lemma divnorm_loop_spec b1 b1_inv tabb V0 n A0 win rest Q0 Q1 :
  limbs_ok tabb -> tabb = V0 ++ [b1] -> 0 < zlen V0 -> Base <= 2 * b1 -> (b1_inv = 0 \/ b1_inv = udiv1norm_init b1) ->
  zlen A0 = Z.of_nat n -> zlen Q0 = Z.of_nat n -> limbs_ok A0 -> limbs_ok win -> zlen win = zlen tabb -> val win < val tabb ->
  exists Q0' win', divnorm_loop b1 b1_inv tabb (Q0 ++ Q1) (A0 ++ win ++ rest) n
      = Some (Q0' ++ Q1, win' ++ replicate n 0 ++ rest) /\
    limbs_ok Q0' /\ zlen Q0' = Z.of_nat n /\ limbs_ok win' /\ zlen win' = zlen tabb /\
    val (A0 ++ win) = val tabb * val Q0' + val win' /\ val win' < val tabb.
Proof using Hlg.
  intros Htabb HV0 HlV Hn Hinv. revert A0 win rest Q0 Q1.
  induction n as [|n IH]; intros A0 win rest Q0 Q1 HA HQ HokA Hwin Hlwin Hlt.
  { destruct A0 as [|x A0]; [|rewrite zlen_cons in HA; pose proof (zlen_nonneg A0); lia].
    destruct Q0 as [|x Q0]; [|rewrite zlen_cons in HQ; pose proof (zlen_nonneg Q0); lia].
    exists [], win. cbn [divnorm_loop app replicate Limb.val]. rewrite Z.mul_0_r, Z.add_0_l. split_and!; (done || by constructor). }
  assert (zlen tabb = zlen V0 + 1) as Hltb by (rewrite HV0, zlen_app; done).
  destruct (split_last A0 ltac:(lia)) as (A1 & x & -> & HA1). destruct (split_last Q0 ltac:(lia)) as (Qa & g & -> & HQa).
  destruct (split_last win ltac:(lia)) as (wl & t1 & -> & Hwl).
  assert (exists lo t0, x :: wl = lo ++ [t0] /\ zlen lo = zlen wl) as (lo & t0 & Hlo & Hllo).
  { destruct (split_last (x :: wl)) as (lo & t0 & ? & Hl); [rewrite zlen_cons; pose proof (zlen_nonneg wl); lia|].
    exists lo, t0. split; [done|]. rewrite zlen_cons in Hl. lia. }
  apply limbs_ok_app in HokA as [HA1ok Hx]. apply limbs_ok_app in Hwin as [Hwlok Ht1].
  apply Forall_cons in Hx as [Hx _]. apply Forall_cons in Ht1 as [Ht1 _].
  assert (lo ++ [t0; t1] = x :: wl ++ [t1]) as Hwin2
    by (rewrite app_comm_cons, Hlo, <- app_assoc; done).
  assert (val (lo ++ [t0; t1]) = x + Base * val (wl ++ [t1])) as HW by (by rewrite Hwin2).
  cbn [divnorm_loop]. replace ((A1 ++ [x]) ++ (wl ++ [t1]) ++ rest) with (A1 ++ (lo ++ [t0]) ++ t1 :: rest)
    by (rewrite <- Hlo, <- !app_assoc; done).
  replace ((Qa ++ [g]) ++ Q1) with (Qa ++ g :: Q1) by (by rewrite <- app_assoc).
  destruct (divnorm_step_spec b1 b1_inv tabb V0 A1 lo t0 t1 rest Qa g Q1 (Z.of_nat n)) as (q & win1 & -> & Hq & Hwin1 & Hlwin1 & Heq & Hlt1); try done; try lia.
  { rewrite Hwin2. constructor; [done|]. apply limbs_ok_app. split; [done|by apply Forall_singleton]. }
  { rewrite HW. unfold Limb.limb_ok in Hx. pose proof (Base_ge lg Hlg). nia. }
  cbn [mbind option_bind].
  destruct (IH A1 win1 (0 :: rest) Qa (q :: Q1)) as (Q0' & win' & -> & HQ0' & HlQ & Hwin' & Hlwin' & Hval & Hlt'); try done; try lia.
  exists (Q0' ++ [q]), win'. rewrite <- app_assoc. cbn [app].
  split; [rewrite replicate_S_end, <- app_assoc; done|]. split; [apply limbs_ok_app; split; [done|by apply Forall_singleton]|].
  split; [rewrite zlen_app; change (zlen [q]) with 1; lia|]. split; [done|]. split; [done|]. split; [|done].
  assert (zlen A1 = Z.of_nat n) as HlA by lia. rewrite HW in Heq.
  rewrite (val_app lg Hlg (A1 ++ [x])), (val_app lg Hlg A1 [x]), (val_app lg Hlg Q0'), zlen_app, HlA, HlQ.
  rewrite (val_app lg Hlg A1 win1), HlA in Hval. change (zlen [x]) with 1. cbn [Limb.val].
  rewrite Z.pow_add_r, Z.pow_1_r by lia. nia.
Qed.

(** The first quotient limb is 0 or 1. *)
Lemma first_limb_spec A0 top tabb : limbs_ok top -> limbs_ok tabb -> zlen top = zlen tabb -> Base ^ zlen tabb <= 2 * val tabb ->
  let c := Zb (val tabb <=? val top) in
  exists win, (if negb (c =? 0) then '(t, _) ← mp_sub lg top tabb 0; splice (A0 ++ top) (zlen A0) t else Some (A0 ++ top)) = Some (A0 ++ win) /\
    limbs_ok win /\ zlen win = zlen tabb /\ val top = val tabb * c + val win /\ val win < val tabb /\ limb_ok c.
Proof using Hlg.
  intros Htop Hb Hltop Hnorm. cbv zeta. pose proof (val_range lg Hlg top Htop) as Htr. pose proof (val_range lg Hlg tabb Hb) as Hbr. pose proof (Base_ge lg Hlg).
  destruct (val tabb <=? val top) eqn:E; zbool; cbn [Zb Z.eqb negb].
  - destruct (mp_sub_spec lg Hlg top tabb 0 Htop Hb ltac:(lia) ltac:(lia)) as (win & k & -> & Hwin & Hlwin & Hk & Hv).
    cbn [mbind option_bind]. replace (take (length top) tabb) with tabb in Hv by (symmetry; apply take_ge; unfold zlen in Hltop; lia).
    rewrite Hltop in *. pose proof (val_range lg Hlg win Hwin) as Hwr. rewrite Hlwin in Hwr.
    assert (k = 0) as -> by (assert (k = 0 \/ k = 1) as [?| ->] by lia; [done|lia]).
    exists win. rewrite splice_tail by lia. unfold Limb.limb_ok. split_and!; try done; lia.
  - exists top. unfold Limb.limb_ok. split_and!; try done; lia.
Qed.

Lemma mp_divnorm_spec large tabq taba tabb b1 V0 :
  limbs_ok taba -> limbs_ok tabb -> tabb = V0 ++ [b1] -> Base <= 2 * b1 -> zlen tabb <= zlen taba ->
  Z.min (zlen taba - zlen tabb) (zlen tabb) < DIVNORM_LARGE_THRESHOLD ->
  zlen tabq = zlen taba - zlen tabb + 1 ->
  exists q rem hi, mp_divnorm large tabq taba tabb = Some (0, q, rem ++ hi) /\ limbs_ok q /\ zlen q = zlen tabq /\
    limbs_ok rem /\ zlen rem = zlen tabb /\ zlen (rem ++ hi) = zlen taba /\
    val taba = val tabb * val q + val rem /\ val rem < val tabb.
Proof using Hlg.
  intros Ha Hb HV0 Hn Hle Hmin Hq. unfold mp_divnorm. pose proof (zlen_nonneg V0). pose proof (Base_ge lg Hlg).
  assert (zlen tabb = zlen V0 + 1) as Hltb by (rewrite HV0, zlen_app; done).
  assert (limb_ok b1) as Hb1 by (rewrite HV0 in Hb; apply limbs_ok_app in Hb as [_ Hb]; by apply Forall_cons in Hb as [? _]).
  replace (rd tabb (zlen tabb - 1)) with (Some b1) by (symmetry; rewrite HV0 at 1; apply rd_mid; lia). cbn [mbind option_bind].
  destruct (zlen tabb =? 1) eqn:E1; zbool.
  - assert (V0 = []) as -> by (destruct V0 as [|v V0]; [done|]; rewrite zlen_cons in *; pose proof (zlen_nonneg V0); lia).
    unfold Limb.limb_ok in Hb1.
    destruct (mp_div1norm_spec taba b1 0 Ha Hb1 Hn ltac:(lia)) as (q & r & -> & Hqok & Hlq & Hr & Hval).
    replace (splice tabq 0 q) with (Some q).
    2: { symmetry. apply (splice_tail [] tabq); [done|lia]. }
    cbn [mbind option_bind]. rewrite wr_upd by lia. cbn [mbind option_bind].
    destruct taba as [|x taba]; [change (zlen (@nil Z)) with 0 in *; lia|].
    exists q, [r], taba. split; [done|]. split; [done|]. split; [lia|].
    split; [apply Forall_singleton; unfold Limb.limb_ok; lia|]. split; [rewrite E1; done|]. split; [done|].
    rewrite HV0. cbn [app Limb.val] in *. rewrite Z.mul_0_l in Hval. lia.
  - replace (Z.min _ _ >=? DIVNORM_LARGE_THRESHOLD) with false by lia. set (n := zlen taba - zlen tabb) in *.
    assert (n = zlen taba - zlen tabb) as Hn0 by done. clearbody n.
    destruct (split2 taba n ltac:(lia)) as (A0 & top & -> & HA0). rewrite zlen_app in Hn0, Hle |- *.
    assert (zlen top = zlen tabb) as Hltop by lia. apply limbs_ok_app in Ha as [HA0ok Htop].
    rewrite sub_arr_tail by lia. cbn [mbind option_bind].
    rewrite first_quotient_spec by (done || lia). rewrite wr_upd by lia. cbn [mbind option_bind].
    destruct (split2 tabq n ltac:(lia)) as (Q0 & Qr & -> & HQ0). rewrite zlen_app in Hq.
    destruct Qr as [|g [|? Qr]]; [change (zlen (@nil Z)) with 0 in Hq; lia| |rewrite !zlen_cons in Hq; pose proof (zlen_nonneg Qr); lia].
    rewrite upd_mid by lia. set (c := Zb (val tabb <=? val top)).
    pose proof (val_range lg Hlg top Htop) as Htr. pose proof (val_range lg Hlg tabb Hb) as Hbr.
    assert (Base ^ zlen tabb <= 2 * val tabb) as Hnorm.
    { rewrite HV0, val_app, zlen_app, Z.pow_add_r by (done || lia). change (zlen [b1]) with 1. rewrite Z.pow_1_r. cbn [Limb.val].
      assert (0 <= val V0) by (rewrite HV0 in Hb; apply limbs_ok_app in Hb as [HV _]; apply (val_range lg Hlg V0 HV)).
      pose proof (pow_pos lg Hlg (zlen V0) ltac:(lia)). nia. }
    destruct (first_limb_spec A0 top tabb Htop Hb Hltop ltac:(lia)) as (win & Hfirst & Hwin & Hlwin & Htv & Hwlt & Hc).
    rewrite HA0 in Hfirst. fold c in Hfirst, Htv, Hc. rewrite Hfirst.
    cbn [mbind option_bind]. clearbody c.
    destruct (divnorm_loop_spec b1 (if n >=? UDIV1NORM_THRESHOLD then udiv1norm_init b1 else 0) tabb V0 (Z.to_nat n) A0 win [] Q0 [c])
      as (Q0' & win' & Hloop & HQ0' & HlQ0' & Hwin' & Hlwin' & Hval & Hlt); try done; try lia.
    { destruct (n >=? UDIV1NORM_THRESHOLD); [by right|by left]. }
    rewrite app_nil_r in Hloop. rewrite Hloop. cbn [mbind option_bind]. exists (Q0' ++ [c]), win', (replicate (Z.to_nat n) 0 ++ []).
    split; [done|]. split; [apply limbs_ok_app; split; [done|by apply Forall_singleton]|].
    rewrite !zlen_app. change (zlen [c]) with 1. change (zlen [g]) with 1 in Hq |- *. change (zlen (@nil Z)) with 0.
    split; [lia|]. split; [done|]. split; [done|]. split; [unfold zlen at 2; rewrite length_replicate; lia|]. split; [|done].
    rewrite !val_app in * by done. cbn [Limb.val]. replace (zlen Q0') with (zlen A0) by lia. nia.
Qed.
End div.

(** ** Properties *)

(** [udiv1norm], the division of a double limb by a limb that multiplies by a
    precomputed reciprocal, returns the quotient and the remainder of the plain
    division whenever the divisor is normalised and the quotient fits a limb: the
    estimate is at most one off and the correction makes up for it. *)
Theorem udiv1norm_correct (lg a1 a0 d : Z) :
  1 <= lg -> limb_ok lg a0 -> limb_ok lg d -> Base lg <= 2 * d -> 0 <= a1 < d ->
  udiv1norm lg a1 a0 d (udiv1norm_init lg d) = div_limb lg a1 a0 d /\
  udiv1norm lg a1 a0 d (udiv1norm_init lg d) = ((a1 * Base lg + a0) / d, (a1 * Base lg + a0) mod d).
Proof.
  intros Hlg H0 Hd Hn Ha1. destruct (udiv1norm_spec lg Hlg a1 a0 d H0 Hd Hn Ha1) as (q & r & -> & _ & Hr & E).
  destruct (div_limb_spec lg Hlg a1 a0 d H0 Hd Ha1) as (q' & r' & -> & _ & Hr' & E').
  assert (q = (a1 * Base lg + a0) / d) as Eq by (apply (Zdiv_unique _ _ _ r); [done|lia]).
  assert (q' = (a1 * Base lg + a0) / d) as Eq' by (apply (Zdiv_unique _ _ _ r'); [done|lia]).
  assert (r = (a1 * Base lg + a0) mod d) as Er by (apply (Zmod_unique _ _ q); [done|lia]).
  assert (r' = (a1 * Base lg + a0) mod d) as Er' by (apply (Zmod_unique _ _ q'); [done|lia]).
  split; congruence.
Qed.

Lemma udiv1norm_correct_witness : udiv1norm 6 (2 ^ 63 - 1) (2 ^ 64 - 1) (2 ^ 63) (udiv1norm_init 6 (2 ^ 63)) = (2 ^ 64 - 1, 2 ^ 63 - 1).
Proof.
  rewrite (proj2 (udiv1norm_correct 6 (2 ^ 63 - 1) (2 ^ 64 - 1) (2 ^ 63) ltac:(lia) ltac:(split; vm_compute; congruence) ltac:(split; vm_compute; congruence)
    ltac:(vm_compute; congruence) ltac:(lia))). vm_compute; reflexivity.
Defined.

(** C21. [mp_divnorm] divides: for a normalised divisor of [nb] limbs and a
    dividend of [na] limbs below the threshold of the subquadratic division, it
    returns 0 and leaves a quotient of [na - nb + 1] limbs and a remainder of
    [nb] limbs below the divisor with dividend = divisor * quotient + remainder.
    Every quotient estimate is corrected within the bound of the loop. *)
Theorem mp_divnorm_correct (lg : Z) (large : list Z -> list Z -> list Z -> option (Z * list Z * list Z)) (tabq taba tabb : list Z) :
  1 <= lg -> limbs_ok lg taba -> limbs_ok lg tabb -> 0 < zlen tabb <= zlen taba -> Base lg <= 2 * List.last tabb 0 ->
  Z.min (zlen taba - zlen tabb) (zlen tabb) < DIVNORM_LARGE_THRESHOLD -> zlen tabq = zlen taba - zlen tabb + 1 ->
  exists q rem hi, mp_divnorm lg large tabq taba tabb = Some (0, q, rem ++ hi) /\ limbs_ok lg q /\ zlen q = zlen tabq /\
    limbs_ok lg rem /\ zlen rem = zlen tabb /\ zlen (rem ++ hi) = zlen taba /\
    val lg taba = val lg tabb * val lg q + val lg rem /\ 0 <= val lg rem < val lg tabb.
Proof.
  intros Hlg Ha Hb Hl Hn Hm Hq. destruct (split_last tabb) as (V0 & b1 & EV & _); [lia|].
  assert (List.last tabb 0 = b1) as Hlast by (rewrite EV; apply last_last). rewrite Hlast in Hn.
  destruct (mp_divnorm_spec lg Hlg large tabq taba tabb b1 V0 Ha Hb EV Hn ltac:(lia) Hm Hq) as (q & rem & hi & H & O1 & L1 & O2 & L2 & L3 & V & R).
  exists q, rem, hi. pose proof (val_range lg Hlg rem O2). split_and!; (done || lia).
Qed.

Lemma mp_divnorm_correct_witness : exists q rem hi,
  mp_divnorm 6 (fun _ _ _ => None) [0; 0; 0] [1; 2; 3; 2 ^ 63] [5; 2 ^ 63] = Some (0, q, rem ++ hi) /\
  val 6 [1; 2; 3; 2 ^ 63] = val 6 [5; 2 ^ 63] * val 6 q + val 6 rem.
Proof.
  destruct (mp_divnorm_correct 6 (fun _ _ _ => None) [0; 0; 0] [1; 2; 3; 2 ^ 63] [5; 2 ^ 63]) as (q & rem & hi & E & _ & _ & _ & _ & _ & V & _);
    [lia|repeat constructor; vm_compute; congruence|repeat constructor; vm_compute; congruence|vm_compute; split; congruence|vm_compute; congruence|vm_compute; congruence|reflexivity|].
  exists q, rem, hi. split; [exact E|exact V].
Defined.
