(* ===== verification/Rounding.v ===== *)
(** * Rounding of rationals

    What the rounding modes of libbf mean: [rounds mode neg x q] says that the
    integer [q] is the non-negative rational [x], the magnitude of a number of
    sign [neg], rounded to an integer in the mode [mode].  A floating point
    operation rounds the exact result scaled by a power of two. *)

From Stdlib Require Export QArith Qpower Lqa.
From S2P Require Import Prelude CArray.
Open Scope Z_scope.

(** ** Powers of two *)

Definition q2 (e : Z) : Q := Qpower 2 e.
Definition qz (n : Z) : Q := inject_Z n.

Lemma q2_plus a b : (q2 (a + b) == q2 a * q2 b)%Q.
Proof. unfold q2. apply Qpower_plus. discriminate. Qed.

Lemma q2_pos e : (0 < q2 e)%Q.
Proof. apply Qpower_0_lt. reflexivity. Qed.

Lemma q2_0 : (q2 0 == 1)%Q.
Proof. reflexivity. Qed.

Lemma q2_inv e : (q2 e * q2 (- e) == 1)%Q.
Proof. rewrite <- q2_plus. replace (e + - e) with 0 by lia. reflexivity. Qed.

Lemma q2_Z e : 0 <= e -> (q2 e == qz (2 ^ e))%Q.
Proof. intros. unfold q2, qz. change 2%Q with (inject_Z 2). by rewrite Zpower_Qpower. Qed.

Lemma qz_plus a b : (qz (a + b) == qz a + qz b)%Q.
Proof. unfold qz. by rewrite inject_Z_plus. Qed.

Lemma qz_mult a b : (qz (a * b) == qz a * qz b)%Q.
Proof. unfold qz. by rewrite inject_Z_mult. Qed.

Lemma qz_le a b : (qz a <= qz b)%Q <-> a <= b.
Proof. unfold qz. by rewrite <- Zle_Qle. Qed.

Lemma qz_lt a b : (qz a < qz b)%Q <-> a < b.
Proof. unfold qz. by rewrite <- Zlt_Qlt. Qed.

Lemma qz_eq a b : (qz a == qz b)%Q <-> a = b.
Proof. apply inject_Z_injective. Qed.

(** Scaling by a power of two. *)
Lemma q2_le_scale x y e : (x * q2 e <= y * q2 e)%Q <-> (x <= y)%Q.
Proof. apply Qmult_le_r, q2_pos. Qed.

Lemma q2_lt_scale x y e : (x * q2 e < y * q2 e)%Q <-> (x < y)%Q.
Proof. apply Qmult_lt_r, q2_pos. Qed.

Lemma q2_eq_scale x y e : (x * q2 e == y * q2 e)%Q <-> (x == y)%Q.
Proof.
  split; [|by intros ->]. intros H. apply Qle_antisym; apply (q2_le_scale _ _ e); rewrite H; apply Qle_refl.
Qed.

Lemma q2_le e f : e <= f -> (q2 e <= q2 f)%Q.
Proof.
  intros. replace f with (f - e + e) by lia. rewrite q2_plus, (q2_Z (f - e)) by lia.
  rewrite <- (Qmult_1_l (q2 e)) at 1. apply q2_le_scale. change 1%Q with (qz 1). apply qz_le. lia.
Qed.

Lemma q2_lt e f : e < f -> (q2 e < q2 f)%Q.
Proof.
  intros. replace f with (f - e + e) by lia. rewrite q2_plus, (q2_Z (f - e)) by lia.
  rewrite <- (Qmult_1_l (q2 e)) at 1. apply q2_lt_scale. change 1%Q with (qz 1). apply qz_lt.
  pose proof (Z.pow_gt_1 2 (f - e)). lia.
Qed.

(** The exponent of a positive rational is unique. *)
Lemma exponent_unique x e f :
  (q2 (e - 1) <= x)%Q -> (x < q2 e)%Q -> (q2 (f - 1) <= x)%Q -> (x < q2 f)%Q -> e = f.
Proof.
  intros H1 H2 H3 H4. destruct (Z.lt_trichotomy e f) as [?|[?|?]]; [|done|].
  - pose proof (q2_le e (f - 1) ltac:(lia)). lra.
  - pose proof (q2_le f (e - 1) ltac:(lia)). lra.
Qed.

(** ** Rounding modes *)

Definition BF_RNDN : Z := 0.
Definition BF_RNDZ : Z := 1.
Definition BF_RNDD : Z := 2.
Definition BF_RNDU : Z := 3.
Definition BF_RNDNA : Z := 4.
Definition BF_RNDA : Z := 5.
Definition BF_RNDF : Z := 6.

Section modes.
Local Open Scope Q_scope.

Definition toward_zero (x : Q) (q : Z) : Prop := qz q <= x /\ x < qz (q + 1).
Definition away (x : Q) (q : Z) : Prop := qz (q - 1) < x /\ x <= qz q.
Definition nearest (x : Q) (q : Z) : Prop := qz (2 * q - 1) <= qz 2 * x /\ qz 2 * x <= qz (2 * q + 1).

(** [x] lies half-way between two integers, of which [q] is one. *)
Definition tie (x : Q) (q : Z) : Prop := qz 2 * x == qz (2 * q - 1) \/ qz 2 * x == qz (2 * q + 1).

Definition rounds (mode neg : Z) (x : Q) (q : Z) : Prop :=
  if (mode =? BF_RNDZ)%Z then toward_zero x q
  else if (mode =? BF_RNDA)%Z then away x q
  else if (mode =? BF_RNDD)%Z then (if (neg =? 1)%Z then away x q else toward_zero x q)
  else if (mode =? BF_RNDU)%Z then (if (neg =? 1)%Z then toward_zero x q else away x q)
  else if (mode =? BF_RNDN)%Z then nearest x q /\ (tie x q -> Z.even q = true)
  else if (mode =? BF_RNDNA)%Z then nearest x q /\ (tie x q -> x < qz q)
  else if (mode =? BF_RNDF)%Z then qz (q - 1) < x /\ x < qz (q + 1)
  else False.

Lemma toward_zero_proper : Proper (Qeq ==> eq ==> iff) toward_zero.
Proof. intros x y E q _ <-. unfold toward_zero. by rewrite E. Qed.
Lemma away_proper : Proper (Qeq ==> eq ==> iff) away.
Proof. intros x y E q _ <-. unfold away. by rewrite E. Qed.
Lemma nearest_proper : Proper (Qeq ==> eq ==> iff) nearest.
Proof. intros x y E q _ <-. unfold nearest. by rewrite E. Qed.
Lemma tie_proper : Proper (Qeq ==> eq ==> iff) tie.
Proof. intros x y E q _ <-. unfold tie. by rewrite E. Qed.
End modes.

#[global] Existing Instance toward_zero_proper.
#[global] Existing Instance away_proper.
#[global] Existing Instance nearest_proper.
#[global] Existing Instance tie_proper.

#[global] Instance rounds_proper : Proper (eq ==> eq ==> Qeq ==> eq ==> iff) rounds.
Proof.
  intros m _ <- n _ <- x y E q _ <-. unfold rounds.
  repeat match goal with |- context [if ?b then _ else _] => destruct b end; by rewrite ?E.
Qed.

(** Except for [BF_RNDF] the rounded value is determined. *)
Ltac qz_lia := repeat match goal with
  | H : (qz _ <= qz _)%Q |- _ => apply (proj1 (qz_le _ _)) in H
  | H : (qz _ < qz _)%Q |- _ => apply (proj1 (qz_lt _ _)) in H
  | H : (qz _ == qz _)%Q |- _ => apply (proj1 (qz_eq _ _)) in H end; lia.

Lemma between_unique x p q : (qz p <= x)%Q -> (x < qz (q + 1))%Q -> p <= q.
Proof. intros H1 H2. pose proof (Qle_lt_trans _ _ _ H1 H2). qz_lia. Qed.

Lemma toward_zero_unique x p q : toward_zero x p -> toward_zero x q -> p = q.
Proof. intros [H1 H2] [H3 H4]. pose proof (between_unique x p q H1 H4). pose proof (between_unique x q p H3 H2). lia. Qed.

Lemma away_unique x p q : away x p -> away x q -> p = q.
Proof.
  intros [H1 H2] [H3 H4]. pose proof (Qlt_le_trans _ _ _ H1 H4). pose proof (Qlt_le_trans _ _ _ H3 H2). qz_lia.
Qed.

(** Two nearest integers are equal or the two sides of a tie. *)
Lemma nearest_ties x p q : nearest x p -> nearest x q -> p < q ->
  q = p + 1 /\ (qz 2 * x == qz (2 * p + 1))%Q /\ tie x p /\ tie x q.
Proof.
  intros [H1 H2] [H3 H4] Hlt. pose proof (Qle_trans _ _ _ H3 H2) as H. apply (proj1 (qz_le _ _)) in H.
  assert (q = p + 1) as -> by lia. split; [done|].
  assert (qz 2 * x == qz (2 * p + 1))%Q as E by (apply Qle_antisym; [done|]; by replace (2 * p + 1) with (2 * (p + 1) - 1) by lia).
  split; [done|]. unfold tie. split; [by right|]. left. by replace (2 * (p + 1) - 1) with (2 * p + 1) by lia.
Qed.

Lemma rounds_unique mode neg x p q : mode <> BF_RNDF -> rounds mode neg x p -> rounds mode neg x q -> p = q.
Proof.
  intros Hf. unfold rounds.
  assert (forall P : Z -> Prop, (forall p q, P p -> P q -> p < q -> False) -> P p -> P q -> p = q) as Hsym
    by (intros P HP Hp Hq; destruct (Z.lt_trichotomy p q) as [?|[?|?]]; [|done|]; exfalso; eauto).
  destruct (mode =? BF_RNDZ); [apply toward_zero_unique|].
  destruct (mode =? BF_RNDA); [apply away_unique|].
  destruct (mode =? BF_RNDD); [destruct (neg =? 1); [apply away_unique|apply toward_zero_unique]|].
  destruct (mode =? BF_RNDU); [destruct (neg =? 1); [apply toward_zero_unique|apply away_unique]|].
  destruct (mode =? BF_RNDN).
  { apply (Hsym (fun q => nearest x q /\ (tie x q -> Z.even q = true))). clear. intros p q [Hp Ep] [Hq Eq] Hlt.
    destruct (nearest_ties x p q Hp Hq Hlt) as (-> & _ & Tp & Tq). specialize (Ep Tp). specialize (Eq Tq).
    rewrite Z.even_add, Ep in Eq. discriminate. }
  destruct (mode =? BF_RNDNA).
  { apply (Hsym (fun q => nearest x q /\ (tie x q -> (x < qz q)%Q))). clear. intros p q [Hp Ep] [Hq _] Hlt.
    destruct (nearest_ties x p q Hp Hq Hlt) as (_ & E & Tp & _). specialize (Ep Tp).
    rewrite qz_plus, qz_mult in E. change (qz 1) with 1%Q in E. change (qz 2) with 2%Q in E. lra. }
  destruct (mode =? BF_RNDF) eqn:E; [|done]. apply Z.eqb_eq in E. done.
Qed.

(** ** Rounding a fraction

    The decision to add one to the truncated quotient, from the remainder. *)

Definition round_up (mode neg lo rem d : Z) : bool :=
  if mode =? BF_RNDZ then false
  else if mode =? BF_RNDA then negb (rem =? 0)
  else if mode =? BF_RNDD then (neg =? 1) && negb (rem =? 0)
  else if mode =? BF_RNDU then negb (neg =? 1) && negb (rem =? 0)
  else if mode =? BF_RNDN then (d <? 2 * rem) || ((2 * rem =? d) && Z.odd lo)
  else d <=? 2 * rem.

Section fraction.
Context (x : Q) (n d : Z) (Hd : 0 < d) (Hx : (x * qz d == qz n)%Q).

Lemma scale_pos : (0 < qz d)%Q.
Proof using Hd. change 0%Q with (qz 0). by apply qz_lt. Qed.

Lemma frac_ge q : (qz q <= x)%Q <-> q * d <= n.
Proof using Hd Hx. rewrite <- (Qmult_le_r _ _ _ scale_pos), Hx, <- qz_mult. apply qz_le. Qed.
Lemma frac_le q : (x <= qz q)%Q <-> n <= q * d.
Proof using Hd Hx. rewrite <- (Qmult_le_r _ _ _ scale_pos), Hx, <- qz_mult. apply qz_le. Qed.
Lemma frac_gt q : (qz q < x)%Q <-> q * d < n.
Proof using Hd Hx. rewrite <- (Qmult_lt_r _ _ _ scale_pos), Hx, <- qz_mult. apply qz_lt. Qed.
Lemma frac_lt q : (x < qz q)%Q <-> n < q * d.
Proof using Hd Hx. rewrite <- (Qmult_lt_r _ _ _ scale_pos), Hx, <- qz_mult. apply qz_lt. Qed.
Lemma frac_eq q : (x == qz q)%Q <-> n = q * d.
Proof using Hd Hx.
  split; intros H.
  - pose proof (proj1 (frac_ge q) ltac:(rewrite H; apply Qle_refl)). pose proof (proj1 (frac_le q) ltac:(rewrite H; apply Qle_refl)). lia.
  - apply Qle_antisym; [apply frac_le|apply frac_ge]; lia.
Qed.
End fraction.

Lemma frac_double x n d : (x * qz d == qz n)%Q -> (qz 2 * x * qz d == qz (2 * n))%Q.
Proof. intros H. rewrite <- Qmult_assoc, H. symmetry. apply qz_mult. Qed.

Lemma rounds_round_up mode neg x n d : 0 < d -> (x * qz d == qz n)%Q -> 0 <= mode <= 6 ->
  rounds mode neg x (n / d + Zb (round_up mode neg (n / d) (n mod d) d)).
Proof.
  intros Hd Hx Hm. pose proof (frac_double _ _ _ Hx) as Hx2.
  pose proof (Z.div_mod n d ltac:(lia)) as Hn. pose proof (Z.mod_pos_bound n d Hd) as Hr.
  set (lo := n / d) in *. set (rem := n mod d) in *. clearbody lo rem.
  assert (forall q, toward_zero x q <-> q * d <= n < (q + 1) * d) as Tz
    by (intros; unfold toward_zero; by rewrite (frac_ge x n d), (frac_lt x n d)).
  assert (forall q, away x q <-> (q - 1) * d < n <= q * d) as Aw
    by (intros; unfold away; by rewrite (frac_gt x n d), (frac_le x n d)).
  assert (forall q, nearest x q <-> (2 * q - 1) * d <= 2 * n <= (2 * q + 1) * d) as Nr
    by (intros; unfold nearest; by rewrite (frac_ge _ _ _ Hd Hx2), (frac_le _ _ _ Hd Hx2)).
  assert (forall q, tie x q <-> 2 * n = (2 * q - 1) * d \/ 2 * n = (2 * q + 1) * d) as Ti
    by (intros; unfold tie; by rewrite !(frac_eq _ _ _ Hd Hx2)).
  assert (toward_zero x (lo + Zb false)) as HT by (rewrite Tz; unfold Zb; nia).
  assert (away x (lo + Zb (negb (rem =? 0)))) as HA by (rewrite Aw; unfold Zb; destruct (rem =? 0) eqn:E; zbool; cbn [negb]; nia).
  unfold rounds, round_up.
  destruct (mode =? BF_RNDZ) eqn:E1; [done|]. destruct (mode =? BF_RNDA) eqn:E2; [done|].
  destruct (mode =? BF_RNDD) eqn:E3; [by destruct (neg =? 1)|]. destruct (mode =? BF_RNDU) eqn:E4; [by destruct (neg =? 1)|].
  destruct (mode =? BF_RNDN) eqn:E5.
  { rewrite Nr, Ti. clear HT HA. destruct (d <? 2 * rem) eqn:F1; cbn [orb]; [zbool; unfold Zb; split; [nia|]; intros [?|?]; exfalso; nia|].
    destruct (2 * rem =? d) eqn:F2; cbn [andb]; [|zbool; unfold Zb; split; [nia|]; intros [?|?]; exfalso; nia].
    zbool. split; [unfold Zb; destruct (Z.odd lo); nia|]. intros _. rewrite Z.even_add. rewrite <- Z.negb_odd. by destruct (Z.odd lo). }
  destruct (mode =? BF_RNDNA) eqn:E6.
  { rewrite Nr, Ti, (frac_lt x n d) by done. clear HT HA. destruct (d <=? 2 * rem) eqn:F1; zbool; unfold Zb; (split; [nia|]); intros [?|?]; nia. }
  destruct (mode =? BF_RNDF) eqn:E7; [|unfold BF_RNDN, BF_RNDZ, BF_RNDD, BF_RNDU, BF_RNDNA, BF_RNDA, BF_RNDF in *; lia].
  rewrite (frac_gt x n d), (frac_lt x n d) by done. destruct (d <=? 2 * rem) eqn:F1; zbool; unfold Zb; nia.
Qed.

(** ** Sticky bits

    Two numbers on the same side of every integer and half-integer round alike. *)

Definition same_side (x y : Q) : Prop :=
  forall k, (x ?= qz k)%Q = (y ?= qz k)%Q /\ (qz 2 * x ?= qz k)%Q = (qz 2 * y ?= qz k)%Q.

Lemma compare_le_iff x y u v : (x ?= u)%Q = (y ?= v)%Q -> (x <= u)%Q <-> (y <= v)%Q.
Proof. intros E. by rewrite !Qle_alt, E. Qed.
Lemma compare_lt_iff x y u v : (x ?= u)%Q = (y ?= v)%Q -> (x < u)%Q <-> (y < v)%Q.
Proof. intros E. by rewrite !Qlt_alt, E. Qed.
Lemma compare_eq_iff x y u v : (x ?= u)%Q = (y ?= v)%Q -> (x == u)%Q <-> (y == v)%Q.
Proof. intros E. by rewrite !Qeq_alt, E. Qed.
Lemma compare_swap x y u v : (x ?= u)%Q = (y ?= v)%Q -> (u ?= x)%Q = (v ?= y)%Q.
Proof. intros E. by rewrite <- !(Qcompare_antisym _ u), <- !(Qcompare_antisym _ v), E. Qed.

Lemma rounds_same_side mode neg x y q : same_side x y -> rounds mode neg x q <-> rounds mode neg y q.
Proof.
  intros H. assert (forall k, ((x <= qz k) <-> (y <= qz k))%Q /\ ((x < qz k) <-> (y < qz k))%Q /\ ((qz k <= x) <-> (qz k <= y))%Q /\ ((qz k < x) <-> (qz k < y))%Q) as H1
    by (intros k; destruct (H k) as [E _]; pose proof (compare_swap _ _ _ _ E); split_and!;
        [by apply compare_le_iff|by apply compare_lt_iff|by apply compare_le_iff|by apply compare_lt_iff]).
  assert (forall k, ((qz 2 * x <= qz k) <-> (qz 2 * y <= qz k))%Q /\ ((qz k <= qz 2 * x) <-> (qz k <= qz 2 * y))%Q /\ ((qz 2 * x == qz k) <-> (qz 2 * y == qz k))%Q) as H2
    by (intros k; destruct (H k) as [_ E]; pose proof (compare_swap _ _ _ _ E); split_and!;
        [by apply compare_le_iff|by apply compare_le_iff|by apply compare_eq_iff]).
  assert (forall q, toward_zero x q <-> toward_zero y q) as Tz by (intros p; unfold toward_zero; pose proof (H1 p); pose proof (H1 (p + 1)); tauto).
  assert (forall q, away x q <-> away y q) as Aw by (intros p; unfold away; pose proof (H1 p); pose proof (H1 (p - 1)); tauto).
  assert (forall q, nearest x q <-> nearest y q) as Nr by (intros p; unfold nearest; pose proof (H2 (2 * p - 1)); pose proof (H2 (2 * p + 1)); tauto).
  assert (forall q, tie x q <-> tie y q) as Ti by (intros p; unfold tie; pose proof (H2 (2 * p - 1)); pose proof (H2 (2 * p + 1)); tauto).
  unfold rounds. pose proof (H1 q). pose proof (H1 (q - 1)). pose proof (H1 (q + 1)).
  repeat case_match; rewrite ?Tz, ?Aw, ?Nr, ?Ti; tauto.
Qed.

Lemma Qeq_bool_same_side x y q : same_side x y -> Qeq_bool x (qz q) = Qeq_bool y (qz q).
Proof.
  intros H. destruct (H q) as [E _]. apply compare_eq_iff in E. apply eq_iff_eq_true. by rewrite !Qeq_bool_iff.
Qed.

(** The integer part of [X] with its low bit set when [X] is not an integer. *)
Lemma sticky_compare X Y m : (qz Y <= X)%Q -> (X < qz (Y + 1))%Q -> Z.even m = true ->
  let S := if Qeq_bool X (qz Y) then Y else Z.lor Y 1 in
  (X ?= qz m)%Q = (qz S ?= qz m)%Q.
Proof.
  intros HX1 HX2 Hm. cbv zeta. assert (forall a b, (qz a ?= qz b)%Q = (a ?= b)) as Hcmp.
  { intros a b. destruct (Z.compare_spec a b); [subst; by apply Qeq_alt|by apply Qlt_alt, qz_lt|by apply Qgt_alt, qz_lt]. }
  destruct (Qeq_bool X (qz Y)) eqn:E.
  - apply Qeq_bool_iff in E. by rewrite E.
  - apply Qeq_bool_neq in E. assert (qz Y < X)%Q as HX3 by (apply Qle_lteq in HX1 as [?|HX1]; [done|by symmetry in HX1]).
    assert (Y <= Z.lor Y 1 <= Y + 1 /\ Z.odd (Z.lor Y 1) = true) as [HS HO].
    { destruct (Z.Even_or_Odd Y) as [[k ->]|[k ->]].
      - replace (2 * k) with (k * 2 ^ 1) by lia. rewrite lor_add' by lia. rewrite Z.odd_add, Z.odd_mul. cbn. split; [lia|by rewrite andb_false_r].
      - replace (Z.lor (2 * k + 1) 1) with (2 * k + 1); [split; [lia|by rewrite Z.odd_add, Z.odd_mul]|].
        replace (2 * k + 1) with (Z.lor (k * 2 ^ 1) 1) by (rewrite lor_add' by lia; lia). by rewrite <- Z.lor_assoc. }
    rewrite Hcmp. assert (Z.lor Y 1 <> m) by (intros F; rewrite F, <- Z.negb_even, Hm in HO; done).
    destruct (Z.compare_spec (Z.lor Y 1) m) as [?|Hlt|Hgt]; [done|..].
    + apply Qlt_alt. eapply Qlt_le_trans; [exact HX2|]. apply qz_le. destruct (decide (Y + 1 <= m)); [done|]. exfalso.
      assert (Y = m) by lia. subst m. rewrite <- Z.negb_even in HO. lia.
    + apply Qgt_alt. eapply Qle_lt_trans; [|exact HX3]. apply qz_le. destruct (decide (m <= Y)); [done|]. lia.
Qed.
