(* ===== verification/BfNum.v ===== *)
(** * Floating point numbers (libbf.h, libbf.c)

    The numbers [bf_t], their elementary operations and comparisons.  The limbs
    are allocated by the [bf_realloc] of the context, which the embedder
    supplies: it is a parameter, with what the code relies on as the class
    [BfReallocLaws].  A request of 0 limbs frees the array.  Pointers to numbers
    are distinct unless a definition says otherwise. *)

From S2P Require Import Prelude CArray Limb Rounding.
Open Scope Z_scope.

(** ** Allocation *)

Definition bf_realloc_t : Type := list Z -> Z -> option (list Z).

(** A block of the requested size that keeps the limbs that fit; shrinking a
    block does not fail (the comments "cannot fail" of libbf.c). *)
Class BfReallocLaws (bf_realloc : bf_realloc_t) : Prop := {
  bf_realloc_zlen b n b' : 0 < n -> bf_realloc b n = Some b' -> zlen b' = n;
  bf_realloc_keep b n b' k : bf_realloc b n = Some b' -> 0 <= k < Z.min (zlen b) n -> rd b' k = rd b k;
  bf_realloc_shrink b n : 0 < n <= zlen b -> is_Some (bf_realloc b n) }.

(** The allocator refuses some request. *)
Definition bf_refuses (bf_realloc : bf_realloc_t) : Prop := exists b n, bf_realloc b n = None.

(** ** Status bits and flags *)

Definition BF_ST_INVALID_OP : Z := 1.
Definition BF_ST_DIVIDE_ZERO : Z := 2.
Definition BF_ST_OVERFLOW : Z := 4.
Definition BF_ST_UNDERFLOW : Z := 8.
Definition BF_ST_INEXACT : Z := 16.
Definition BF_ST_MEM_ERROR : Z := 32.

Definition BF_RND_MASK : Z := 7.
Definition BF_FLAG_SUBNORMAL : Z := 8.
Definition BF_FLAG_RADPNT_PREC : Z := 16.

(** [flags & bit] as a condition. *)
Definition has_flag (flags bit : Z) : bool := negb (Z.land flags bit =? 0).

Record bf_t := Bf { sign : Z; expn : Z; tab : list Z }.

Section bf.
Context (lg : Z) (bf_realloc : bf_realloc_t).
Notation LIMB_BITS := (LIMB_BITS lg).
Notation Base := (Base lg).
Notation limb := (limb lg).
Notation slimb := (slimb lg).
Notation limb_ok := (limb_ok lg).
Notation limbs_ok := (limbs_ok lg).
Notation val := (val lg).

(** [BF_RAW_EXP_MIN], [BF_RAW_EXP_MAX] and the reserved exponents. *)
Definition BF_EXP_ZERO : Z := - 2 ^ (LIMB_BITS - 1).
Definition BF_EXP_INF : Z := 2 ^ (LIMB_BITS - 1) - 2.
Definition BF_EXP_NAN : Z := 2 ^ (LIMB_BITS - 1) - 1.

Definition BF_EXP_BITS_MAX : Z := LIMB_BITS - 3.
Definition BF_EXT_EXP_BITS_MAX : Z := BF_EXP_BITS_MAX + 1.
Definition BF_PREC_MAX : Z := 2 ^ (LIMB_BITS - 2) - 2.
Definition BF_PREC_INF : Z := BF_PREC_MAX + 1.

Definition bf_get_exp_bits (flags : Z) : Z :=
  let e := Z.land (Z.shiftr flags 5) 63 in
  if e =? 63 then BF_EXP_BITS_MAX + 1 else BF_EXP_BITS_MAX - e.
Definition bf_set_exp_bits (n : Z) : Z := Z.shiftl (Z.land (BF_EXP_BITS_MAX - n) 63) 5.

Definition bf_max (a b : Z) : Z := if a >? b then a else b.
Definition bf_min (a b : Z) : Z := if a <? b then a else b.

(** ** Initialisation and assignment *)

Definition set_sign (r : bf_t) (s : Z) : bf_t := Bf s (expn r) (tab r).
Definition set_expn (r : bf_t) (e : Z) : bf_t := Bf (sign r) e (tab r).
Definition set_tab (r : bf_t) (t : list Z) : bf_t := Bf (sign r) (expn r) t.

Definition bf_init : bf_t := Bf 0 BF_EXP_ZERO [].

(** 0, or -1 on an allocation error. *)
Definition bf_resize (r : bf_t) (len : Z) : Z * bf_t :=
  if negb (len =? zlen (tab r)) then
    if len =? 0 then (0, set_tab r [])
    else match bf_realloc (tab r) len with
         | None => (-1, r)
         | Some t => (0, set_tab r t)
         end
  else (0, r).

Definition bf_set_nan (r : bf_t) : bf_t := let '(_, r) := bf_resize r 0 in Bf 0 BF_EXP_NAN (tab r).
Definition bf_set_zero (r : bf_t) (is_neg : Z) : bf_t := let '(_, r) := bf_resize r 0 in Bf is_neg BF_EXP_ZERO (tab r).
Definition bf_set_inf (r : bf_t) (is_neg : Z) : bf_t := let '(_, r) := bf_resize r 0 in Bf is_neg BF_EXP_INF (tab r).

(** [a] is a [uint64_t]; a 32-bit limb needs two of them above [0xffffffff]. *)
Definition bf_set_ui (r : bf_t) (a : Z) : option (Z * bf_t) :=
  let r := set_sign r 0 in
  if a =? 0 then let '(_, r) := bf_resize (set_expn r BF_EXP_ZERO) 0 in Some (0, r)
  else if (LIMB_BITS =? 64) || (a <=? 0xffffffff) then
    let '(err, r) := bf_resize r 1 in
    if negb (err =? 0) then Some (BF_ST_MEM_ERROR, bf_set_nan r) else
    let shift := clz lg a in
    t ← wr (tab r) 0 (limb (Z.shiftl a shift));
    Some (0, Bf (sign r) (LIMB_BITS - shift) t)
  else
    let '(err, r) := bf_resize r 2 in
    if negb (err =? 0) then Some (BF_ST_MEM_ERROR, bf_set_nan r) else
    let a0 := limb a in
    let a1 := limb (Z.shiftr a 32) in
    let shift := clz lg a1 in
    t ← wr (tab r) 0 (limb (Z.shiftl a0 shift));
    t ← wr t 1 (shld lg a1 a0 shift);
    Some (0, Bf (sign r) (2 * LIMB_BITS - shift) t).

Definition bf_set_si (r : bf_t) (a : Z) : option (Z * bf_t) :=
  if a <? 0 then '(ret, r) ← bf_set_ui r (u64 (- a)); Some (ret, set_sign r 1)
  else bf_set_ui r a.

(** For [r != a]. *)
Definition bf_set (r a : bf_t) : option (Z * bf_t) :=
  let '(err, r) := bf_resize r (zlen (tab a)) in
  if negb (err =? 0) then Some (BF_ST_MEM_ERROR, bf_set_nan r) else
  t ← splice (tab r) 0 (tab a);
  Some (0, Bf (sign a) (expn a) t).

Definition bf_neg (r : bf_t) : bf_t := set_sign r (Z.lxor (sign r) 1).
Definition bf_is_finite (a : bf_t) : bool := expn a <? BF_EXP_INF.
Definition bf_is_nan (a : bf_t) : bool := expn a =? BF_EXP_NAN.
Definition bf_is_zero (a : bf_t) : bool := expn a =? BF_EXP_ZERO.

(** ** Bits *)

(** The index is unsigned: one below the array is out of range too. *)
Definition limb_at (tab : list Z) (i : Z) : Z := if i >=? zlen tab then 0 else default 0 (rd tab i).

Definition get_limbz (a : bf_t) (idx : Z) : Z := limb_at (tab a) (limb idx).

Definition get_bits (tab : list Z) (pos : Z) : Z :=
  let i := limb (Z.shiftr pos lg) in
  let p := Z.land pos (LIMB_BITS - 1) in
  let a0 := limb_at tab i in
  if p =? 0 then a0
  else
    let i := limb (i + 1) in
    let a1 := limb_at tab i in
    Z.lor (Z.shiftr a0 p) (limb (Z.shiftl a1 (LIMB_BITS - p))).

Lemma limb_at_rd t i : limb_at t i = default 0 (rd t i).
Proof using . unfold limb_at. destruct (i >=? zlen t) eqn:E; [|done]. rewrite rd_None; [done|zbool; lia]. Qed.

(** [len] limbs of [tab] are read. *)
Definition get_bit (tab : list Z) (len pos : Z) : option Z :=
  let i := Z.shiftr pos lg in
  if (i <? 0) || (i >=? len) then Some 0
  else v ← rd tab i; Some (Z.land (Z.shiftr v (Z.land pos (LIMB_BITS - 1))) 1).

(** The loop over [tab[n - 1]], ..., [tab[0]]. *)
Fixpoint scan_down (tab : list Z) (n : nat) : option Z :=
  match n with
  | O => Some 0
  | S n => v ← rd tab (Z.of_nat n); if negb (v =? 0) then Some 1 else scan_down tab n
  end.

Definition scan_bit_nz (r : bf_t) (bit_pos : Z) : option Z :=
  let pos := Z.shiftr bit_pos lg in
  if pos <? 0 then Some 0
  else
    t ← rd (tab r) pos;
    let v := Z.land t (limb_mask lg 0 (Z.land bit_pos (LIMB_BITS - 1))) in
    if negb (v =? 0) then Some 1 else scan_down (tab r) (Z.to_nat pos).

(** ** Comparisons *)

(** The loop from the top limb of the longer operand down; [n] limbs are left. *)
Fixpoint cmpu_loop (a b : bf_t) (len : Z) (n : nat) : Z :=
  match n with
  | O => 0
  | S n =>
      let i := Z.of_nat n in
      let v1 := get_limbz a (zlen (tab a) - len + i) in
      let v2 := get_limbz b (zlen (tab b) - len + i) in
      if negb (v1 =? v2) then (if v1 <? v2 then -1 else 1) else cmpu_loop a b len n
  end.

Definition bf_cmpu (a b : bf_t) : Z :=
  if negb (expn a =? expn b) then (if expn a <? expn b then -1 else 1)
  else
    let len := bf_max (zlen (tab a)) (zlen (tab b)) in
    cmpu_loop a b len (Z.to_nat len).

Definition bf_cmp_full (a b : bf_t) : Z :=
  if (expn a =? BF_EXP_NAN) || (expn b =? BF_EXP_NAN) then
    if expn a =? expn b then 0 else if expn a =? BF_EXP_NAN then 1 else -1
  else if negb (sign a =? sign b) then 1 - 2 * sign a
  else let res := bf_cmpu a b in if negb (sign a =? 0) then - res else res.

Definition bf_cmp (a b : bf_t) : Z :=
  if (expn a =? BF_EXP_NAN) || (expn b =? BF_EXP_NAN) then 2
  else if negb (sign a =? sign b) then
    if (expn a =? BF_EXP_ZERO) && (expn b =? BF_EXP_ZERO) then 0 else 1 - 2 * sign a
  else let res := bf_cmpu a b in if negb (sign a =? 0) then - res else res.

(** ** The value of a number *)

Definition mag (r : bf_t) : Q := qz (val (tab r)) * q2 (expn r - zlen (tab r) * LIMB_BITS).

(** A normalised array: its top bit is set. *)
Definition normal (t : list Z) : Prop := limbs_ok t /\ 0 < zlen t /\ Base ^ zlen t <= 2 * val t.

(** Exponents of finite non-zero numbers stay below [EXP_BOUND] and arrays
    below [EXP_BOUND] bits, so that the exponent and bit position arithmetic of
    the code does not overflow. *)
Definition EXP_BOUND : Z := 2 ^ (LIMB_BITS - 2).

Definition bf_finite (r : bf_t) : Prop :=
  (sign r = 0 \/ sign r = 1) /\ normal (tab r) /\ - EXP_BOUND < expn r < EXP_BOUND.

Definition bf_special (r : bf_t) : Prop :=
  (sign r = 0 \/ sign r = 1) /\ tab r = [] /\ (expn r = BF_EXP_ZERO \/ expn r = BF_EXP_INF \/ expn r = BF_EXP_NAN).

Definition bf_ok (r : bf_t) : Prop := bf_finite r \/ bf_special r.

(** No zero limb at the bottom.  Rounding establishes it, [bf_set_ui] does not
    on 32-bit limbs. *)
Definition canonical (r : bf_t) : Prop := tab r = [] \/ hd 0 (tab r) <> 0.

(** ** Lemmas on bits *)

Context (Hlg : 1 <= lg).

Lemma Base_pow n : 0 <= n -> Base ^ n = 2 ^ (n * LIMB_BITS).
Proof using Hlg. intros. unfold Limb.Base. rewrite <- Z.pow_mul_r; [f_equal; lia|pose proof (LIMB_BITS_ge lg Hlg); lia|lia]. Qed.

Lemma pos_split pos : Z.shiftr pos lg = pos / LIMB_BITS /\ Z.land pos (LIMB_BITS - 1) = pos mod LIMB_BITS.
Proof using Hlg. unfold Limb.LIMB_BITS. rewrite Z.shiftr_div_pow2, land_mod by lia. done. Qed.

Lemma pos_decomp pos : pos = (pos / LIMB_BITS) * LIMB_BITS + pos mod LIMB_BITS /\ 0 <= pos mod LIMB_BITS < LIMB_BITS.
Proof using Hlg.
  pose proof (LIMB_BITS_ge lg Hlg). pose proof (Z.div_mod pos LIMB_BITS ltac:(lia)). pose proof (Z.mod_pos_bound pos LIMB_BITS). lia.
Qed.

Lemma val_mid a v c : val (a ++ v :: c) = val a + Base ^ zlen a * (v + Base * val c).
Proof using Hlg. rewrite val_app by done. done. Qed.

Lemma testbit_val a v c p : limbs_ok (a ++ v :: c) -> 0 <= p < LIMB_BITS ->
  Z.testbit (val (a ++ v :: c)) (zlen a * LIMB_BITS + p) = Z.testbit v p.
Proof using Hlg.
  intros Hok Hp. apply limbs_ok_app in Hok as [Ha Hvc]. unfold Limb.limbs_ok in Hvc. rewrite Forall_cons in Hvc. destruct Hvc as [Hv Hc].
  rewrite val_mid. pose proof (val_range lg Hlg a Ha) as Ra. pose proof (zlen_nonneg a).
  rewrite Base_pow in * by done. set (k := zlen a * LIMB_BITS) in *. assert (0 <= k) by (pose proof (LIMB_BITS_ge lg Hlg); nia).
  rewrite (Z.add_comm k), <- Z.div_pow2_bits by lia.
  rewrite (Z.mul_comm (2 ^ k)), Z.div_add by lia. rewrite Z.div_small, Z.add_0_l by lia.
  rewrite <- (Z.mod_pow2_bits_low _ LIMB_BITS) by lia. change (2 ^ LIMB_BITS) with Base.
  rewrite (Z.mul_comm Base), Z.mod_add by (pose proof (Base_ge lg Hlg); lia). by rewrite Z.mod_small by done.
Qed.

(** A bit outside the array is 0. *)
Lemma get_bit_spec T G pos : limbs_ok T ->
  get_bit (T ++ G) (zlen T) pos = Some (Zb (Z.testbit (val T) pos)).
Proof using Hlg.
  intros Hok. unfold get_bit. destruct (pos_split pos) as [-> ->]. destruct (pos_decomp pos) as [Hpos Hp].
  set (i := pos / LIMB_BITS) in *. set (p := pos mod LIMB_BITS) in *. clearbody i p. pose proof (LIMB_BITS_ge lg Hlg).
  destruct (i <? 0) eqn:E1; cbn [orb]; zbool; [by rewrite Z.testbit_neg_r by nia|].
  destruct (i >=? zlen T) eqn:E2; zbool.
  - pose proof (val_range lg Hlg T Hok) as R. rewrite Base_pow in R by (pose proof (zlen_nonneg T); lia).
    pose proof (zlen_nonneg T). pose proof (Z.mul_le_mono_nonneg_r (zlen T) i LIMB_BITS ltac:(lia) ltac:(lia)).
    rewrite <- (Z.mod_small _ _ R), Z.mod_pow2_bits_high by nia. done.
  - rewrite rd_app_l by done. destruct (rd_is_Some T i) as [v Hv]; [lia|]. rewrite Hv. cbn [mbind option_bind].
    destruct (rd_split_at T i v Hv) as (a & c & -> & <-). rewrite Hpos, testbit_val by done.
    rewrite land_1, Z.shiftr_div_pow2, <- Z.bit0_odd, Z.div_pow2_bits by lia. do 3 f_equal.
Qed.

Lemma limb_mask_spec start last : 0 <= start <= last -> last < LIMB_BITS ->
  limb_mask lg start last = (2 ^ (last - start + 1) - 1) * 2 ^ start.
Proof using Hlg.
  intros H1 H2. unfold limb_mask. destruct (_ =? _) eqn:E; zbool.
  - replace start with 0 by lia. replace (last - 0 + 1) with LIMB_BITS by lia. unfold Limb.limb. change (2 ^ LIMB_BITS) with Base.
    pose proof (Base_ge lg Hlg). replace (-1) with (Base - 1 + (-1) * Base) by lia. rewrite Z.mod_add, Z.mod_small by lia. lia.
  - rewrite Z.shiftl_1_l, Z.shiftl_mul_pow2 by lia. rewrite (limb_id lg (2 ^ _)).
    + apply limb_id. unfold Limb.limb_ok, Limb.Base. pose proof (Z.pow_pos_nonneg 2 (last - start + 1)). pose proof (Z.pow_pos_nonneg 2 start).
      assert (2 ^ (last - start + 1) * 2 ^ start <= 2 ^ LIMB_BITS); [rewrite <- Z.pow_add_r by lia; apply Z.pow_le_mono_r; lia|nia].
    + unfold Limb.limb_ok, Limb.Base. split; [lia|]. apply Z.pow_lt_mono_r; lia.
Qed.

Lemma scan_limbs_spec T G : limbs_ok T -> scan_down (T ++ G) (length T) = Some (Zb (negb (val T =? 0))).
Proof using Hlg.
  revert G. induction T as [|v T IH] using rev_ind; intros G Hok; [done|]. apply limbs_ok_app in Hok as [HT Hv].
  rewrite length_app, Nat.add_1_r. cbn [scan_down]. rewrite <- app_assoc. cbn [app].
  rewrite (rd_mid T G v) by done. cbn [mbind option_bind]. rewrite IH by done. rewrite val_mid. cbn [Limb.val].
  apply Forall_inv in Hv. unfold Limb.limb_ok in Hv. pose proof (val_range lg Hlg T HT). pose proof (Limb.pow_pos lg Hlg (zlen T) (zlen_nonneg T)).
  destruct (v =? 0) eqn:E; zbool; cbn [negb].
  - do 4 f_equal. nia.
  - replace (val T + _ =? 0) with false by nia. done.
Qed.

Lemma scan_bit_nz_spec r T G p : tab r = T ++ G -> limbs_ok T -> p < zlen T * LIMB_BITS ->
  scan_bit_nz r p = Some (Zb (negb (val T mod 2 ^ (Z.max 0 (p + 1)) =? 0))).
Proof using Hlg.
  intros Htab Hok Hlt. unfold scan_bit_nz. rewrite Htab. destruct (pos_split p) as [-> ->]. destruct (pos_decomp p) as [Hp Hpp].
  set (i := p / LIMB_BITS) in *. set (k := p mod LIMB_BITS) in *. clearbody i k. pose proof (LIMB_BITS_ge lg Hlg).
  destruct (i <? 0) eqn:E1; zbool.
  { replace (Z.max 0 (p + 1)) with 0 by nia. by rewrite Z.pow_0_r, Z.mod_1_r. }
  rewrite rd_app_l by nia. destruct (rd_is_Some T i) as [v Hv]; [nia|]. rewrite Hv. cbn [mbind option_bind].
  destruct (rd_split_at T i v Hv) as (a & c & -> & <-). apply limbs_ok_app in Hok as [Ha Hvc].
  unfold Limb.limbs_ok in Hvc. rewrite Forall_cons in Hvc. destruct Hvc as [Hvok _].
  rewrite limb_mask_spec by lia. rewrite Z.pow_0_r, Z.mul_1_r, Z.sub_0_r, land_mod by lia.
  rewrite <- app_assoc. replace (Z.to_nat (zlen a)) with (length a) by (unfold zlen; lia). rewrite scan_limbs_spec by done.
  replace (Z.max 0 (p + 1)) with (zlen a * LIMB_BITS + (k + 1)) by nia. rewrite (Z.pow_add_r 2 (zlen a * LIMB_BITS)), <- Base_pow by (pose proof (zlen_nonneg a); nia).
  pose proof (Limb.pow_pos lg Hlg (zlen a) (zlen_nonneg a)). pose proof (val_range lg Hlg a Ha).
  rewrite val_mid, Z.rem_mul_r by lia. rewrite (Z.mul_comm (Base ^ _) (v + _)), Z.mod_add, Z.div_add by lia.
  rewrite (Z.mod_small (val a)), (Z.div_small (val a)), Z.add_0_l by done.
  replace ((v + Base * val c) mod 2 ^ (k + 1)) with (v mod 2 ^ (k + 1)).
  2:{ replace Base with (2 ^ (LIMB_BITS - (k + 1)) * 2 ^ (k + 1)) by (unfold Limb.Base; rewrite <- Z.pow_add_r by lia; f_equal; lia).
      replace (v + _) with (v + 2 ^ (LIMB_BITS - (k + 1)) * val c * 2 ^ (k + 1)) by lia. by rewrite Z.mod_add by lia. }
  set (w := v mod 2 ^ (k + 1)). assert (0 <= w) by (apply Z.mod_pos_bound; lia). clearbody w.
  destruct (w =? 0) eqn:E; zbool; cbn [negb].
  - subst w. do 4 f_equal. lia.
  - by replace (val a + _ =? 0) with false by nia.
Qed.

(** ** Values *)

Lemma normal_exponent r : normal (tab r) -> (q2 (expn r - 1) <= mag r)%Q /\ (mag r < q2 (expn r))%Q.
Proof using Hlg.
  intros (Hok & Hl & Hb). pose proof (val_range lg Hlg _ Hok) as R. unfold mag. rewrite Base_pow in * by lia.
  set (n := zlen (tab r) * LIMB_BITS) in *. assert (1 <= n) by (pose proof (LIMB_BITS_ge lg Hlg); nia).
  replace (expn r - 1) with (n - 1 + (expn r - n)) by lia. replace (q2 (expn r)) with (q2 (n + (expn r - n))) by (f_equal; lia).
  rewrite !q2_plus, q2_le_scale, q2_lt_scale, !q2_Z, qz_le, qz_lt by lia.
  assert (2 ^ n = 2 * 2 ^ (n - 1)) by (rewrite <- Z.pow_succ_r by lia; f_equal; lia). lia.
Qed.

Lemma mag_pos r : normal (tab r) -> (0 < mag r)%Q.
Proof using Hlg. intros H. destruct (normal_exponent r H). pose proof (q2_pos (expn r - 1)). lra. Qed.

(** ** Comparison of magnitudes *)

Definition zcmp (c : comparison) : Z := match c with Lt => -1 | Eq => 0 | Gt => 1 end.

(** The array extended below with zeros to [len] limbs. *)
Definition pad (t : list Z) (len : Z) : list Z := replicate (Z.to_nat (len - zlen t)) 0 ++ t.

Lemma val_zeros n : val (replicate n 0) = 0.
Proof using . induction n as [|n IH]; cbn [replicate Limb.val]; [done|]. rewrite IH. lia. Qed.

Lemma zlen_replicate n (x : Z) : zlen (replicate n x) = Z.of_nat n.
Proof using . unfold zlen. by rewrite length_replicate. Qed.

Lemma val_pad t len : zlen t <= len -> val (pad t len) = Base ^ (len - zlen t) * val t.
Proof using Hlg. intros. unfold pad. rewrite val_app, val_zeros, zlen_replicate by done. replace (Z.of_nat _) with (len - zlen t) by lia. lia. Qed.

Lemma zlen_pad t len : zlen t <= len -> zlen (pad t len) = len.
Proof using . intros. unfold pad. rewrite zlen_app, zlen_replicate. lia. Qed.

Lemma limbs_ok_zeros n : limbs_ok (replicate n 0).
Proof using Hlg. apply Forall_replicate. unfold Limb.limb_ok. pose proof (Base_ge lg Hlg). lia. Qed.

Lemma limbs_ok_pad t len : limbs_ok t -> limbs_ok (pad t len).
Proof using Hlg. intros. apply limbs_ok_app. split; [apply limbs_ok_zeros|done]. Qed.

Lemma get_limbz_pad a len i : 0 <= i < len -> zlen (tab a) <= len -> len < EXP_BOUND ->
  rd (pad (tab a) len) i = Some (get_limbz a (zlen (tab a) - len + i)).
Proof using Hlg.
  intros Hi Hl Hb. unfold get_limbz, pad. rewrite limb_at_rd. assert (EXP_BOUND < Base) by (unfold EXP_BOUND, Limb.Base; apply Z.pow_lt_mono_r; pose proof (LIMB_BITS_ge lg Hlg); lia).
  set (k := len - zlen (tab a)) in *. pose proof (zlen_nonneg (tab a)).
  destruct (decide (i < k)).
  - rewrite rd_app_l by (rewrite zlen_replicate; lia). rewrite rd_lookup, lookup_replicate_2 by lia.
    unfold Limb.limb. rewrite <- (Z.mod_add _ 1) by lia. rewrite Z.mod_small by lia. rewrite rd_None by lia. done.
  - rewrite rd_app_r by (rewrite zlen_replicate; lia). rewrite zlen_replicate. rewrite limb_id by (unfold Limb.limb_ok; lia).
    replace (i - _) with (zlen (tab a) - len + i) by lia.
    destruct (rd_is_Some (tab a) (zlen (tab a) - len + i)) as [v ->]; [lia|done].
Qed.

Lemma cmpu_loop_spec a b len n : limbs_ok (tab a) -> limbs_ok (tab b) -> zlen (tab a) <= len -> zlen (tab b) <= len -> len < EXP_BOUND ->
  Z.of_nat n <= len ->
  cmpu_loop a b len n = zcmp (val (take n (pad (tab a) len)) ?= val (take n (pad (tab b) len))).
Proof using Hlg.
  intros Ha Hb Hla Hlb Hlen. induction n as [|n IH]; intros Hn; [by rewrite !take_0|].
  pose proof (get_limbz_pad a len (Z.of_nat n) ltac:(lia) Hla Hlen) as Ga. pose proof (get_limbz_pad b len (Z.of_nat n) ltac:(lia) Hlb Hlen) as Gb.
  cbn [cmpu_loop]. set (v1 := get_limbz a _) in *. set (v2 := get_limbz b _) in *. clearbody v1 v2.
  rewrite rd_lookup, Nat2Z.id in Ga, Gb by lia. rewrite (take_S_r _ _ _ Ga), (take_S_r _ _ _ Gb), !val_mid by done.
  assert (forall t, zlen t <= len -> zlen (take n (pad t len)) = Z.of_nat n) as Hz.
  { intros t Ht. pose proof (zlen_pad t len Ht) as Hp. unfold zlen in *. rewrite length_take. lia. }
  assert (forall t, limbs_ok t -> zlen t <= len -> 0 <= val (take n (pad t len)) < Base ^ Z.of_nat n) as Hr.
  { intros t Ht ?. rewrite <- (Hz t) by done. apply val_range; [done|]. apply Forall_take. by apply limbs_ok_pad. }
  rewrite !Hz by done. pose proof (Hr _ Ha Hla). pose proof (Hr _ Hb Hlb). cbn [Limb.val].
  rewrite IH by lia. set (x := val (take n (pad (tab a) len))) in *. set (y := val (take n (pad (tab b) len))) in *.
  destruct (v1 =? v2) eqn:E; cbn [negb]; zbool.
  - subst v2. f_equal. destruct (Z.compare_spec x y), (Z.compare_spec (x + Base ^ Z.of_nat n * (v1 + Base * 0)) (y + Base ^ Z.of_nat n * (v1 + Base * 0))); done || lia.
  - destruct (v1 <? v2) eqn:E1; zbool.
    + rewrite (proj2 (Z.compare_lt_iff _ _)); [done|nia].
    + rewrite (proj2 (Z.compare_gt_iff _ _)); [done|nia].
Qed.

Lemma mag_pad r len : zlen (tab r) <= len -> (mag r == qz (val (pad (tab r) len)) * q2 (expn r - len * LIMB_BITS))%Q.
Proof using Hlg.
  intros. unfold mag. rewrite val_pad by done. rewrite Base_pow by lia. rewrite qz_mult, <- q2_Z by (pose proof (LIMB_BITS_ge lg Hlg); nia).
  replace (expn r - zlen (tab r) * LIMB_BITS) with ((len - zlen (tab r)) * LIMB_BITS + (expn r - len * LIMB_BITS)) by lia.
  rewrite q2_plus. ring.
Qed.

(** Numbers with infinities. *)
Inductive xq := XMinus | XQ (x : Q) | XPlus.

Definition xcompare (x y : xq) : comparison :=
  match x, y with
  | XMinus, XMinus | XPlus, XPlus => Eq
  | XMinus, _ | _, XPlus => Lt
  | XPlus, _ | _, XMinus => Gt
  | XQ x, XQ y => (x ?= y)%Q
  end.

Definition xneg (x : xq) : xq := match x with XMinus => XPlus | XQ x => XQ (- x) | XPlus => XMinus end.

Definition xmag (r : bf_t) : xq := if expn r =? BF_EXP_INF then XPlus else XQ (mag r).
Definition xval (r : bf_t) : xq := if sign r =? 1 then xneg (xmag r) else xmag r.

Context (Hlg2 : 2 <= lg).

Lemma LIMB_BITS_ge4 : 4 <= LIMB_BITS.
Proof using Hlg2. unfold Limb.LIMB_BITS. change 4 with (2 ^ 2). apply Z.pow_le_mono_r; lia. Qed.

Lemma exp_bounds : 4 <= EXP_BOUND /\ 2 ^ (LIMB_BITS - 1) = 2 * EXP_BOUND /\ Base = 4 * EXP_BOUND.
Proof using Hlg2.
  pose proof LIMB_BITS_ge4. unfold EXP_BOUND, Limb.Base. split; [change 4 with (2 ^ 2); apply Z.pow_le_mono_r; lia|].
  rewrite <- Z.pow_succ_r by lia. change 4 with (2 ^ 2). rewrite <- Z.pow_add_r by lia. split; f_equal; lia.
Qed.

Lemma special_mag r : tab r = [] -> (mag r == 0)%Q.
Proof using . intros H. unfold mag. rewrite H. cbn [Limb.val]. apply Qmult_0_l. Qed.

Lemma qz_cmp u v e : (qz u * q2 e ?= qz v * q2 e)%Q = (u ?= v).
Proof using .
  destruct (Z.compare_spec u v).
  - subst. by apply Qeq_alt.
  - apply Qlt_alt. by apply q2_lt_scale, qz_lt.
  - apply Qgt_alt. by apply q2_lt_scale, qz_lt.
Qed.

Lemma finite_cmpu a b : normal (tab a) -> normal (tab b) -> zlen (tab a) < EXP_BOUND -> zlen (tab b) < EXP_BOUND ->
  bf_cmpu a b = zcmp (mag a ?= mag b)%Q.
Proof using Hlg.
  intros Na Nb La Lb. unfold bf_cmpu. destruct (expn a =? expn b) eqn:E; cbn [negb]; zbool.
  - set (len := bf_max _ _). assert (zlen (tab a) <= len /\ zlen (tab b) <= len /\ len < EXP_BOUND) as (? & ? & ?)
      by (unfold len, bf_max; destruct (_ >? _) eqn:F; zbool; lia).
    rewrite cmpu_loop_spec; [|apply Na|apply Nb|done..|pose proof (zlen_nonneg (tab a)); lia].
    assert (forall t, zlen t <= len -> take (Z.to_nat len) (pad t len) = pad t len) as Ht
      by (intros t Hl; apply take_ge; pose proof (zlen_pad t len Hl); unfold zlen in *; lia).
    rewrite !Ht by done. f_equal. rewrite (mag_pad a len), (mag_pad b len), E by done. symmetry. apply qz_cmp.
  - destruct (normal_exponent a Na), (normal_exponent b Nb). destruct (expn a <? expn b) eqn:F; zbool.
    + pose proof (q2_le (expn a) (expn b - 1) ltac:(lia)). rewrite (proj1 (Qlt_alt _ _)); [done|lra].
    + pose proof (q2_le (expn b) (expn a - 1) ltac:(lia)). rewrite (proj1 (Qgt_alt _ _)); [done|lra].
Qed.

Lemma xcompare_XQ_proper x x' y y' : (x == x')%Q -> (y == y')%Q -> xcompare (XQ x) (XQ y) = xcompare (XQ x') (XQ y').
Proof using . intros E F. cbn [xcompare]. by rewrite E, F. Qed.

(** The comparison of the magnitudes, infinities and zeros included. *)
Lemma bf_cmpu_spec a b : bf_ok a -> bf_ok b -> zlen (tab a) < EXP_BOUND -> zlen (tab b) < EXP_BOUND ->
  expn a <> BF_EXP_NAN -> expn b <> BF_EXP_NAN -> bf_cmpu a b = zcmp (xcompare (xmag a) (xmag b)).
Proof using Hlg Hlg2.
  intros Ha Hb La Lb Na Nb. destruct exp_bounds as (B1 & B2 & _). unfold xmag, BF_EXP_NAN, BF_EXP_INF in *.
  unfold bf_ok, bf_finite, bf_special, BF_EXP_ZERO, BF_EXP_INF, BF_EXP_NAN in Ha, Hb.
  destruct Ha as [(_ & Ha & Ea)|(_ & Ta & Ea)], Hb as [(_ & Hb & Eb)|(_ & Tb & Eb)].
  - replace (expn a =? _) with false by lia. replace (expn b =? _) with false by lia. by apply finite_cmpu.
  - replace (expn a =? _) with false by lia. unfold bf_cmpu. replace (expn a =? expn b) with false by lia. cbn [negb].
    destruct (expn b =? _) eqn:E; zbool.
    + by replace (expn a <? expn b) with true by lia.
    + replace (expn a <? expn b) with false by lia. cbn [xcompare]. pose proof (mag_pos a Ha).
      rewrite (special_mag b Tb), (proj1 (Qgt_alt _ _)); [done|lra].
  - replace (expn b =? 2 ^ _ - 2) with false by lia. unfold bf_cmpu. replace (expn a =? expn b) with false by lia. cbn [negb].
    destruct (expn a =? _) eqn:E; zbool.
    + by replace (expn a <? expn b) with false by lia.
    + replace (expn a <? expn b) with true by lia. cbn [xcompare]. pose proof (mag_pos b Hb).
      rewrite (special_mag a Ta), (proj1 (Qlt_alt _ _)); [done|lra].
  - unfold bf_cmpu. rewrite Ta, Tb. assert (forall x y : Q, (x == 0)%Q -> (y == 0)%Q -> (x ?= y)%Q = Eq) as HE
      by (intros x y -> ->; done).
    destruct (expn a =? expn b) eqn:E; cbn [negb]; zbool.
    + rewrite E. destruct (expn b =? _); [done|]. cbn [xcompare]. rewrite HE by (by apply special_mag). done.
    + destruct (expn a <? expn b) eqn:F; zbool.
      * replace (expn a =? _) with false by lia. by replace (expn b =? _) with true by lia.
      * replace (expn a =? _) with true by lia. by replace (expn b =? _) with false by lia.
Qed.

Lemma xcompare_neg x y : zcmp (xcompare (xneg x) (xneg y)) = - zcmp (xcompare x y).
Proof using .
  destruct x as [|x|], y as [|y|]; try done. cbn [xneg xcompare]. destruct (Qcompare_spec x y) as [E|E|E].
  - by rewrite E, (proj1 (Qeq_alt (- y) (- y))).
  - rewrite (proj1 (Qgt_alt _ _)); [done|lra].
  - rewrite (proj1 (Qlt_alt _ _)); [done|lra].
Qed.

Lemma xmag_nonneg r : bf_ok r -> expn r <> BF_EXP_NAN ->
  xmag r = XPlus \/ exists x, xmag r = XQ x /\ (0 <= x)%Q /\ (expn r = BF_EXP_ZERO <-> (x == 0)%Q).
Proof using Hlg Hlg2.
  intros Hr Hn. destruct exp_bounds as (B1 & B2 & _). unfold xmag.
  unfold bf_ok, bf_finite, bf_special, BF_EXP_ZERO, BF_EXP_INF, BF_EXP_NAN in *.
  destruct (expn r =? _) eqn:E; [by left|]. zbool. right. exists (mag r). split; [done|].
  destruct Hr as [(_ & Nr & Er)|(_ & Tr & Er)].
  - pose proof (mag_pos r Nr). split; [lra|]. split; [lia|lra].
  - pose proof (special_mag r Tr). split; [lra|]. split; [done|]. intros _. lia.
Qed.

Lemma opposite_signs_cmp r s : bf_ok r -> bf_ok s -> expn r <> BF_EXP_NAN -> expn s <> BF_EXP_NAN ->
  (if (expn r =? BF_EXP_ZERO) && (expn s =? BF_EXP_ZERO) then 0 else 1) = zcmp (xcompare (xmag r) (xneg (xmag s))).
Proof using Hlg Hlg2.
  intros Hr Hs Nr Ns. assert (BF_EXP_INF <> BF_EXP_ZERO) as Hne by (destruct exp_bounds; unfold BF_EXP_INF, BF_EXP_ZERO; lia).
  destruct (xmag_nonneg r Hr Nr) as [Er|(x & Er & Hx & Zx)], (xmag_nonneg s Hs Ns) as [Es|(y & Es & Hy & Zy)]; rewrite Er, Es; cbn [xneg xcompare zcmp].
  - unfold xmag in Er. destruct (expn r =? BF_EXP_INF) eqn:E; [|done]. zbool. by replace (expn r =? BF_EXP_ZERO) with false by lia.
  - unfold xmag in Er. destruct (expn r =? BF_EXP_INF) eqn:E; [|done]. zbool. by replace (expn r =? BF_EXP_ZERO) with false by lia.
  - unfold xmag in Es. destruct (expn s =? BF_EXP_INF) eqn:E; [|done]. zbool.
    replace (expn s =? BF_EXP_ZERO) with false by lia. by rewrite andb_false_r.
  - destruct (expn r =? BF_EXP_ZERO) eqn:E, (expn s =? BF_EXP_ZERO) eqn:F; zbool; cbn [andb].
    + rewrite (proj1 (Qeq_alt _ _)); [done|]. rewrite (proj1 Zx E), (proj1 Zy F). reflexivity.
    + assert (~ (y == 0)%Q) by tauto. rewrite (proj1 (Qgt_alt _ _)); [done|]. assert (0 < y)%Q by (apply Qle_lteq in Hy as [?|Hy]; [done|by symmetry in Hy]). lra.
    + assert (~ (x == 0)%Q) by tauto. rewrite (proj1 (Qgt_alt _ _)); [done|]. assert (0 < x)%Q by (apply Qle_lteq in Hx as [?|Hx]; [done|by symmetry in Hx]). lra.
    + assert (~ (x == 0)%Q) by tauto. rewrite (proj1 (Qgt_alt _ _)); [done|]. assert (0 < x)%Q by (apply Qle_lteq in Hx as [?|Hx]; [done|by symmetry in Hx]). lra.
Qed.

Lemma xcompare_antisym x y : zcmp (xcompare y x) = - zcmp (xcompare x y).
Proof using .
  destruct x as [|x|], y as [|y|]; try done. cbn [xcompare]. rewrite <- (Qcompare_antisym x y). by destruct (x ?= y)%Q.
Qed.

Lemma bf_ok_sign r : bf_ok r -> sign r = 0 \/ sign r = 1.
Proof using . intros [H|H]; apply H. Qed.

Lemma bf_cmp_spec a b : bf_ok a -> bf_ok b -> zlen (tab a) < EXP_BOUND -> zlen (tab b) < EXP_BOUND ->
  bf_cmp a b = if bf_is_nan a || bf_is_nan b then 2 else zcmp (xcompare (xval a) (xval b)).
Proof using Hlg Hlg2.
  intros Ha Hb La Lb. unfold bf_cmp, bf_is_nan. destruct (expn a =? BF_EXP_NAN) eqn:Na; [done|]. destruct (expn b =? BF_EXP_NAN) eqn:Nb; [done|].
  cbn [orb]. zbool. pose proof (bf_cmpu_spec a b Ha Hb La Lb Na Nb) as Hu. unfold xval.
  destruct (bf_ok_sign a Ha) as [Sa|Sa], (bf_ok_sign b Hb) as [Sb|Sb]; rewrite Sa, Sb; cbn [Z.eqb negb Pos.eqb].
  - done.
  - change (1 - 2 * 0) with 1. by apply opposite_signs_cmp.
  - change (1 - 2 * 1) with (-1). rewrite xcompare_antisym, <- (opposite_signs_cmp b a) by done.
    rewrite andb_comm. by destruct (_ && _).
  - rewrite xcompare_neg. by rewrite Hu.
Qed.

Lemma pad_inj s t len : zlen s <= len -> zlen t <= len -> len = Z.max (zlen s) (zlen t) ->
  s <> [] -> t <> [] -> hd 0 s <> 0 -> hd 0 t <> 0 -> pad s len = pad t len -> s = t.
Proof using .
  intros Hs Ht Hlen Ns Nt Zs Zt. unfold pad.
  destruct (Z.to_nat (len - zlen s)) as [|i] eqn:Ei, (Z.to_nat (len - zlen t)) as [|j] eqn:Ej; cbn [replicate app]; [done|..|lia].
  - intros ->. by cbn in Zs.
  - intros <-. by cbn in Zt.
Qed.

(** A finite number has one representation. *)
Lemma finite_canonical a b : bf_finite a -> bf_finite b -> canonical a -> canonical b -> (mag a == mag b)%Q -> expn a = expn b /\ tab a = tab b.
Proof using Hlg.
  intros (_ & Na & _) (_ & Nb & _) Ca Cb E. destruct (normal_exponent a Na) as [A1 A2], (normal_exponent b Nb) as [B1 B2].
  assert (expn a = expn b) as Ee by (apply (exponent_unique (mag a)); [done..|by rewrite E|by rewrite E]). split; [done|].
  set (len := Z.max (zlen (tab a)) (zlen (tab b))). assert (zlen (tab a) <= len /\ zlen (tab b) <= len) as [] by lia.
  destruct Na as (Oa & La & _), Nb as (Ob & Lb & _).
  destruct Ca as [Ca|Ca]; [by rewrite Ca in La|]. destruct Cb as [Cb|Cb]; [by rewrite Cb in Lb|].
  apply (pad_inj _ _ len); try done; [by intros F; rewrite F in La|by intros F; rewrite F in Lb|].
  apply (val_inj lg Hlg); [by apply limbs_ok_pad..|by rewrite !zlen_pad|].
  rewrite (mag_pad a len), (mag_pad b len), Ee, q2_eq_scale in E by done. by apply (proj1 (qz_eq _ _)) in E.
Qed.

Lemma bf_cmpu_zero a b : bf_ok a -> bf_ok b -> canonical a -> canonical b -> zlen (tab a) < EXP_BOUND -> zlen (tab b) < EXP_BOUND ->
  bf_cmpu a b = 0 <-> expn a = expn b /\ tab a = tab b.
Proof using Hlg Hlg2.
  intros Ha Hb Ca Cb La Lb. split.
  - intros H. assert (expn a = expn b) as Ee
      by (unfold bf_cmpu in H; destruct (expn a =? expn b) eqn:E; zbool; [done|]; cbn [negb] in H; by destruct (_ <? _)).
    split; [done|]. destruct exp_bounds as (B1 & B2 & _).
    destruct Ha as [Fa|(_ & Ta & Ea)], Hb as [Fb|(_ & Tb & Eb)]; unfold BF_EXP_ZERO, BF_EXP_INF, BF_EXP_NAN in *.
    + apply (finite_canonical a b Fa Fb Ca Cb). rewrite finite_cmpu in H by (done || apply Fa || apply Fb).
      apply Qeq_alt. by destruct (_ ?= _)%Q.
    + unfold bf_finite in Fa. lia.
    + unfold bf_finite in Fb. lia.
    + by rewrite Ta, Tb.
  - intros [Ee Et]. unfold bf_cmpu. rewrite Ee, Z.eqb_refl. cbn [negb]. rewrite Et.
    generalize (Z.to_nat (bf_max (zlen (tab b)) (zlen (tab b)))) as n. generalize (bf_max (zlen (tab b)) (zlen (tab b))) as len.
    intros len n. induction n as [|n IH]; [done|]. cbn [cmpu_loop]. unfold get_limbz. rewrite Et, Z.eqb_refl. exact IH.
Qed.

Lemma bf_cmp_full_zero a b : bf_ok a -> bf_ok b -> canonical a -> canonical b -> zlen (tab a) < EXP_BOUND -> zlen (tab b) < EXP_BOUND ->
  bf_cmp_full a b = 0 <-> (bf_is_nan a = true /\ bf_is_nan b = true) \/ a = b.
Proof using Hlg Hlg2.
  intros Ha Hb Ca Cb La Lb. pose proof (bf_cmpu_zero a b Ha Hb Ca Cb La Lb) as Hz. unfold bf_cmp_full, bf_is_nan.
  destruct (expn a =? BF_EXP_NAN) eqn:Na, (expn b =? BF_EXP_NAN) eqn:Nb; cbn [orb]; zbool.
  - rewrite Na, Nb, Z.eqb_refl. naive_solver.
  - replace (expn a =? expn b) with false by lia. split; [done|]. intros [[_ ?]|E]; [done|]. by rewrite E in Na.
  - replace (expn a =? expn b) with false by lia. split; [done|]. intros [[? _]|E]; [done|]. by rewrite E in Na.
  - assert (a = b <-> sign a = sign b /\ expn a = expn b /\ tab a = tab b) as ->
      by (destruct a, b; cbn; split; [by intros [= -> -> ->]|by intros (-> & -> & ->)]).
    rewrite <- Hz. destruct (bf_ok_sign a Ha) as [Sa|Sa], (bf_ok_sign b Hb) as [Sb|Sb]; rewrite Sa, Sb; cbn [Z.eqb negb Pos.eqb]; intuition (try lia || discriminate).
Qed.

(** ** Allocation *)

Context (HR : BfReallocLaws bf_realloc).

Lemma bf_resize_spec r len : 0 <= len ->
  let '(err, r') := bf_resize r len in
  sign r' = sign r /\ expn r' = expn r /\
  ((err = 0 /\ zlen (tab r') = len /\ forall k, 0 <= k < Z.min len (zlen (tab r)) -> rd (tab r') k = rd (tab r) k) \/
   (err = -1 /\ tab r' = tab r /\ zlen (tab r) < len /\ bf_refuses bf_realloc)).
Proof using HR.
  intros Hlen. unfold bf_resize. destruct (len =? zlen (tab r)) eqn:E; cbn [negb]; zbool; [split_and!; try done; left; split_and!; (done || lia)|].
  destruct (len =? 0) eqn:E0; zbool; [subst; split_and!; try done; left; split_and!; [done..|intros; lia]|].
  destruct (bf_realloc (tab r) len) as [t|] eqn:Hr; cbn [set_tab sign expn tab].
  - split_and!; try done. left. split_and!; [done|apply (bf_realloc_zlen (tab r) len t); [lia|done]|].
    intros k Hk. apply (bf_realloc_keep _ _ _ _ Hr). lia.
  - split_and!; try done. right. split_and!; try done; [|by exists (tab r), len]. destruct (decide (zlen (tab r) < len)); [done|].
    destruct (bf_realloc_shrink (tab r) len ltac:(lia)) as [x Hx]. congruence.
Qed.

(** Shrinking keeps a prefix and does not fail. *)
Lemma bf_resize_shrink r T G len : tab r = T ++ G -> zlen T = len -> bf_resize r len = (0, set_tab r T).
Proof using HR.
  intros Ht Hl. pose proof (zlen_nonneg T). pose proof (zlen_nonneg G). pose proof (bf_resize_spec r len ltac:(lia)) as H1.
  destruct (bf_resize r len) as [err r']. rewrite Ht, zlen_app in H1.
  destruct H1 as (E1 & E2 & [(-> & E3 & E4)|(_ & _ & ? & _)]); [|lia]. f_equal. destruct r' as [s e t]. cbn in *. subst. unfold set_tab. f_equal.
  apply list_ext; [done|]. intros i Hi. rewrite E4 by lia. apply rd_app_l. lia.
Qed.

Lemma bf_set_nan_eq r : bf_set_nan r = Bf 0 BF_EXP_NAN [].
Proof using HR. unfold bf_set_nan. by rewrite (bf_resize_shrink r [] (tab r) 0). Qed.
Lemma bf_set_zero_eq r s : bf_set_zero r s = Bf s BF_EXP_ZERO [].
Proof using HR. unfold bf_set_zero. by rewrite (bf_resize_shrink r [] (tab r) 0). Qed.
Lemma bf_set_inf_eq r s : bf_set_inf r s = Bf s BF_EXP_INF [].
Proof using HR. unfold bf_set_inf. by rewrite (bf_resize_shrink r [] (tab r) 0). Qed.

(** ** Assignment of an integer *)

Lemma normalised_limb a : 0 < a < Base ->
  0 <= clz lg a < LIMB_BITS /\ limb (Z.shiftl a (clz lg a)) = a * 2 ^ clz lg a /\ limb_ok (a * 2 ^ clz lg a) /\ Base <= 2 * (a * 2 ^ clz lg a).
Proof using Hlg.
  intros Ha. unfold clz. replace (a =? 0) with false by lia. pose proof (Z.log2_spec a ltac:(lia)) as [L1 L2].
  pose proof (Z.log2_nonneg a). pose proof (LIMB_BITS_ge lg Hlg).
  assert (Z.log2 a < LIMB_BITS) by (apply (proj1 (Z.log2_lt_pow2 a LIMB_BITS ltac:(lia))); by destruct Ha).
  set (k := Z.log2 a) in *. clearbody k. split; [lia|]. rewrite Z.shiftl_mul_pow2 by lia.
  assert (Base = 2 ^ Z.succ k * 2 ^ (LIMB_BITS - 1 - k)) as HB by (unfold Limb.Base; rewrite <- Z.pow_add_r by lia; f_equal; lia).
  pose proof (Z.pow_pos_nonneg 2 (LIMB_BITS - 1 - k) ltac:(lia) ltac:(lia)). assert (limb_ok (a * 2 ^ (LIMB_BITS - 1 - k))) as Hok
    by (unfold Limb.limb_ok; rewrite HB; split; [nia|]; apply Z.mul_lt_mono_pos_r; lia).
  split; [by apply limb_id|]. split; [done|]. rewrite HB, Z.pow_succ_r by lia. nia.
Qed.

Lemma single_limb_mag s e v : (mag (Bf s e [v]) == qz v * q2 (e - LIMB_BITS))%Q.
Proof using . unfold mag. cbn [tab expn Limb.val]. change (zlen [v]) with 1. rewrite Z.mul_0_r, Z.add_0_r, Z.mul_1_l. reflexivity. Qed.

Lemma single_limb_normal v : limb_ok v -> Base <= 2 * v -> normal [v].
Proof using . intros H1 H2. split; [by constructor|]. cbn [Limb.val]. change (zlen [v]) with 1. rewrite Z.pow_1_r. lia. Qed.

Lemma zlen_1 (l : list Z) : zlen l = 1 -> exists x, l = [x].
Proof using . destruct l as [|x [|y l]]; [done|by exists x|]. rewrite !zlen_cons. pose proof (zlen_nonneg l). lia. Qed.

Lemma zlen_2 (l : list Z) : zlen l = 2 -> exists x y, l = [x; y].
Proof using . destruct l as [|x [|y [|z l]]]; [done|done|by exists x, y|]. rewrite !zlen_cons. pose proof (zlen_nonneg l). lia. Qed.

(** The number made from one limb. *)
Lemma one_limb_value a : 0 < a < Base -> LIMB_BITS < EXP_BOUND ->
  let r := Bf 0 (LIMB_BITS - clz lg a) [limb (Z.shiftl a (clz lg a))] in bf_finite r /\ (mag r == qz a)%Q.
Proof using Hlg.
  intros Ha HE. destruct (normalised_limb a Ha) as (Hs & -> & Hok & HB). cbv zeta. split.
  - split; [by left|]. split; [by apply single_limb_normal|]. cbn [expn]. lia.
  - rewrite single_limb_mag. replace (_ - _) with (- clz lg a) by lia. rewrite qz_mult, <- q2_Z by lia.
    rewrite <- Qmult_assoc, q2_inv. ring.
Qed.

Lemma shld_value a1 a0 s : 0 <= s < LIMB_BITS -> limb_ok a0 -> limb_ok (a1 * 2 ^ s) -> 0 <= a1 ->
  limb (Z.shiftl a0 s) + Base * shld lg a1 a0 s = (a0 + Base * a1) * 2 ^ s /\ limb_ok (shld lg a1 a0 s).
Proof using Hlg.
  intros Hs H0 H1 Ha1. unfold shld. pose proof (Base_ge lg Hlg).
  destruct (s =? 0) eqn:E; cbn [negb]; zbool.
  - subst s. rewrite Z.shiftl_0_r, Z.pow_0_r, limb_id by done. rewrite Z.pow_0_r, Z.mul_1_r in H1. split; [lia|done].
  - rewrite !Z.shiftl_mul_pow2, Z.shiftr_div_pow2 by lia. rewrite (limb_id lg (a1 * _)) by done.
    assert (Base = 2 ^ (LIMB_BITS - s) * 2 ^ s) as HB by (unfold Limb.Base; rewrite <- Z.pow_add_r by lia; f_equal; lia).
    pose proof (Z.pow_pos_nonneg 2 s ltac:(lia) ltac:(lia)). pose proof (Z.pow_pos_nonneg 2 (LIMB_BITS - s) ltac:(lia) ltac:(lia)).
    unfold Limb.limb_ok in *. assert (0 <= a0 / 2 ^ (LIMB_BITS - s) < 2 ^ s) as Hq
      by (split; [apply Z.div_pos; lia|apply Z.div_lt_upper_bound; [lia|]; rewrite <- HB; lia]).
    rewrite lor_add' by (lia || done).
    assert (limb (a0 * 2 ^ s) = a0 mod 2 ^ (LIMB_BITS - s) * 2 ^ s) as -> by (unfold Limb.limb; rewrite HB; apply Z.mul_mod_distr_r; lia).
    pose proof (Z.div_mod a0 (2 ^ (LIMB_BITS - s)) ltac:(lia)) as Hd.
    set (q := a0 / 2 ^ (LIMB_BITS - s)) in *. set (m := a0 mod 2 ^ (LIMB_BITS - s)) in *. split.
    + clearbody q m. rewrite Hd, HB. ring.
    + split; [nia|]. rewrite HB in H1 |- *. assert (a1 < 2 ^ (LIMB_BITS - s)) by (apply (Z.mul_lt_mono_pos_r (2 ^ s)); lia). nia.
Qed.

(** The number made from two limbs. *)
Lemma two_limb_value a0 a1 : limb_ok a0 -> 0 < a1 < Base -> 2 * LIMB_BITS < EXP_BOUND ->
  let shift := clz lg a1 in
  let r := Bf 0 (2 * LIMB_BITS - shift) [limb (Z.shiftl a0 shift); shld lg a1 a0 shift] in
  bf_finite r /\ (mag r == qz (a0 + Base * a1))%Q.
Proof using Hlg.
  intros H0 H1 HE. destruct (normalised_limb a1 H1) as (Hs & _ & Hok & HB). cbv zeta.
  destruct (shld_value a1 a0 (clz lg a1) Hs H0 Hok ltac:(lia)) as [Hv Hl]. set (s := clz lg a1) in *.
  pose proof (limb_range lg Hlg (Z.shiftl a0 s)) as Hlo. set (lo := limb (Z.shiftl a0 s)) in *. set (hi := shld lg a1 a0 s) in *.
  assert (val [lo; hi] = (a0 + Base * a1) * 2 ^ s) as Hval by (cbn [Limb.val]; lia).
  pose proof (Z.pow_pos_nonneg 2 s ltac:(lia) ltac:(lia)). unfold Limb.limb_ok in H0. split.
  - split; [by left|]. split; [|cbn [expn]; lia]. split; [constructor; [done|]; by constructor; [|constructor]|]. split; [done|]. cbn [tab].
    change (zlen [lo; hi]) with 2. rewrite Hval, Z.pow_2_r. nia.
  - unfold mag. cbn [tab expn]. rewrite Hval. change (zlen [lo; hi]) with 2. replace (_ - _) with (- s) by lia.
    rewrite (qz_mult _ (2 ^ s)), <- q2_Z by lia. rewrite <- Qmult_assoc, q2_inv. ring.
Qed.

Lemma bf_resize_nz r len : 0 <= len -> exists err r', bf_resize r len = (err, r') /\ sign r' = sign r /\ expn r' = expn r /\
  ((err = 0 /\ zlen (tab r') = len) \/ (err = -1 /\ tab r' = tab r /\ zlen (tab r) < len /\ bf_refuses bf_realloc)).
Proof using HR. intros H. pose proof (bf_resize_spec r len H) as Hs. destruct (bf_resize r len) as [err r']. exists err, r'. naive_solver. Qed.

(** [bf_set_ui]: the number is the integer, or memory ran out and it is NaN. *)
Lemma bf_set_ui_spec r a : lg = 5 \/ lg = 6 -> 0 <= a < 2 ^ 64 ->
  wp (bf_set_ui r a) (fun '(ret, r') =>
    (ret = 0 /\ bf_ok r' /\ sign r' = 0 /\ expn r' < BF_EXP_INF /\ (mag r' == qz a)%Q) \/
    (ret = BF_ST_MEM_ERROR /\ r' = Bf 0 BF_EXP_NAN [])).
Proof using Hlg Hlg2 HR.
  intros Hw Ha. unfold bf_set_ui. destruct exp_bounds as (B1 & B2 & B3).
  assert (2 * LIMB_BITS < EXP_BOUND /\ LIMB_BITS < EXP_BOUND) as [HE2 HE1]
    by (unfold EXP_BOUND, Limb.LIMB_BITS; destruct Hw as [-> | ->]; vm_compute; done).
  assert (forall r, bf_finite r -> bf_ok r /\ expn r < BF_EXP_INF) as Hfin by (intros x (? & ? & ?); split; [left; split; done|unfold BF_EXP_INF; lia]).
  destruct (a =? 0) eqn:E0; zbool.
  { rewrite (bf_resize_shrink _ [] (tab r) 0) by done. left. split; [done|]. cbn [set_tab set_expn set_sign sign expn tab].
    split; [right; split; [by left|]; split; [done|by left]|]. split; [done|]. split; [unfold BF_EXP_ZERO, BF_EXP_INF; lia|].
    rewrite special_mag by done. by rewrite E0. }
  destruct ((LIMB_BITS =? 64) || (a <=? 0xffffffff)) eqn:E1.
  - assert (0 < a < Base) as Ha' by (destruct Hw as [-> | ->]; unfold Limb.Base, Limb.LIMB_BITS in *; [change (2 ^ 5 =? 64) with false in E1; cbn [orb] in E1; zbool; lia|lia]).
    destruct (bf_resize_nz (set_sign r 0) 1 ltac:(lia)) as (err & r' & -> & Es & _ & [(-> & Hl)|(-> & _)]); cbn [Z.eqb negb].
    + destruct (zlen_1 _ Hl) as [x Hx]. rewrite Hx, Es. change (wr [x] 0 ?v) with (Some [v]). cbn [mbind option_bind wp set_sign sign].
      destruct (one_limb_value a Ha' HE1) as [HF HM]. destruct (Hfin _ HF). left. by split_and!.
    + right. split; [done|]. by rewrite bf_set_nan_eq.
  - assert (LIMB_BITS = 32 /\ 0xffffffff < a /\ Base = 2 ^ 32) as (HL & Ha' & HB)
      by (destruct Hw as [-> | ->]; unfold Limb.Base, Limb.LIMB_BITS in *; [change (2 ^ 5 =? 64) with false in E1; cbn [orb] in E1; zbool; done|done]).
    destruct (bf_resize_nz (set_sign r 0) 2 ltac:(lia)) as (err & r' & -> & Es & _ & [(-> & Hl)|(-> & _)]); cbn [Z.eqb negb].
    + destruct (zlen_2 _ Hl) as (x & y & Hx). rewrite Hx, Es. change (wr [x; y] 0 ?v) with (Some [v; y]). cbn [mbind option_bind].
      change (wr [?v; y] 1 ?w) with (Some [v; w]). cbn [mbind option_bind wp set_sign sign].
      assert (limb (Z.shiftr a 32) = a / 2 ^ 32 /\ 0 < a / 2 ^ 32 < Base) as [E2 E3].
      { rewrite Z.shiftr_div_pow2 by lia. assert (0 < a / 2 ^ 32 < 2 ^ 32) by (split; [apply Z.div_str_pos; lia|apply Z.div_lt_upper_bound; lia]).
        rewrite HB. split; [apply limb_id; unfold Limb.limb_ok; lia|done]. }
      rewrite E2. destruct (two_limb_value (limb a) (a / 2 ^ 32) (limb_range lg Hlg a) E3 HE2) as [HF HM]. destruct (Hfin _ HF).
      left. split_and!; try done. rewrite HM. unfold Limb.limb. rewrite HB. apply qz_eq. pose proof (Z.div_mod a (2 ^ 32)). lia.
    + right. split; [done|]. by rewrite bf_set_nan_eq.
Qed.

Lemma bf_set_si_spec r a : lg = 5 \/ lg = 6 -> in_s 64 a ->
  wp (bf_set_si r a) (fun '(ret, r') =>
    (ret = 0 /\ bf_ok r' /\ sign r' = Zb (a <? 0) /\ expn r' < BF_EXP_INF /\ (mag r' == qz (Z.abs a))%Q) \/
    (ret = BF_ST_MEM_ERROR /\ bf_is_nan r' = true)).
Proof using Hlg Hlg2 HR.
  intros Hw Ha. unfold bf_set_si, in_s in *. destruct (a <? 0) eqn:E; zbool; cbn [Zb].
  - unfold uwrap. rewrite Z.mod_small by lia. pose proof (bf_set_ui_spec r (- a) Hw ltac:(lia)) as Hs.
    destruct (bf_set_ui r (- a)) as [[ret r']|]; [|done]. cbn [mbind option_bind wp] in *. cbn [set_sign sign expn tab].
    destruct Hs as [(-> & Hok & _ & He & Hm)|(-> & ->)]; [left|right].
    + split; [done|]. split; [|by rewrite Z.abs_neq by lia]. destruct Hok as [(_ & ? & ?)|(_ & ? & ?)]; [left|right]; (split; [by right|by split]).
    + split; [done|]. unfold bf_is_nan. cbn [set_sign expn]. apply Z.eqb_refl.
  - pose proof (bf_set_ui_spec r a Hw ltac:(lia)) as Hs. eapply wp_mono; [exact Hs|]. intros [ret r'] [H|(-> & ->)]; [left|right].
    + by rewrite Z.abs_eq by lia.
    + split; [done|]. unfold bf_is_nan. cbn [expn]. apply Z.eqb_refl.
Qed.

Lemma bf_set_spec r a : wp (bf_set r a) (fun '(ret, r') => (ret = 0 /\ r' = a) \/ (ret = BF_ST_MEM_ERROR /\ r' = Bf 0 BF_EXP_NAN [])).
Proof using HR.
  unfold bf_set. destruct (bf_resize_nz r (zlen (tab a)) (zlen_nonneg _)) as (err & r' & -> & _ & _ & [(-> & Hl)|(-> & _)]); cbn [Z.eqb negb].
  - replace (tab r') with ([] ++ tab r') by done. rewrite (splice_tail [] (tab r') (tab a) 0) by done. left. split; [done|]. by destruct a.
  - right. split; [done|]. by rewrite bf_set_nan_eq.
Qed.
End bf.

(** ** Properties *)

(** A [realloc] that always succeeds and clears the new limbs. *)
Definition calloc_realloc : bf_realloc_t :=
  fun b n => Some (take (Z.to_nat n) b ++ replicate (Z.to_nat n - length b) 0).

#[export] Instance calloc_realloc_laws : BfReallocLaws calloc_realloc.
Proof.
  split; unfold calloc_realloc.
  - intros b n b' Hn [= <-]. rewrite zlen_app, zlen_replicate. unfold zlen. rewrite length_take. lia.
  - intros b n b' k [= <-] Hk. rewrite rd_app_l by (unfold zlen in *; rewrite length_take; lia).
    unfold rd. destruct (0 <=? k); [|done]. apply lookup_take_lt. lia.
  - eauto.
Qed.

(** [bf_cmp] orders the numbers as the extended rationals they stand for:
    2 when one is NaN, and otherwise -1, 0 or 1 as the first is less than, equal
    to or greater than the second; infinities, zeros of either sign and arrays of
    different lengths included. *)
Theorem bf_cmp_correct (lg : Z) (a b : bf_t) : 2 <= lg -> bf_ok lg a -> bf_ok lg b ->
  zlen (tab a) < EXP_BOUND lg -> zlen (tab b) < EXP_BOUND lg ->
  bf_cmp lg a b = if bf_is_nan lg a || bf_is_nan lg b then 2 else zcmp (xcompare (xval lg a) (xval lg b)).
Proof. intros Hlg Ha Hb La Lb. apply bf_cmp_spec; (done || lia). Qed.

Lemma one_ok : bf_ok 6 (Bf 0 1 [2 ^ 63]).
Proof.
  left. split; [by left|]. split; [|split; [reflexivity|vm_compute; reflexivity]].
  split; [|split; [reflexivity|vm_compute; discriminate]]. constructor; [|constructor]. split; [lia|vm_compute; reflexivity].
Qed.

Lemma bf_cmp_correct_witness : bf_cmp 6 (Bf 0 1 [2 ^ 63]) (Bf 0 (BF_EXP_INF 6) []) = -1.
Proof.
  assert (bf_ok 6 (Bf 0 (BF_EXP_INF 6) [])) as Hi by (right; split; [by left|]; split; [done|]; right; by left).
  rewrite (bf_cmp_correct 6 (Bf 0 1 [2 ^ 63]) (Bf 0 (BF_EXP_INF 6) []) ltac:(lia) one_ok Hi eq_refl eq_refl). vm_compute. reflexivity.
Defined.

(** [bf_set_si] stores any 64-bit integer exactly, on 32-bit and 64-bit limbs:
    the number is finite or zero, has the sign of the integer and its magnitude
    is the absolute value; the only other outcome is the memory error status
    with NaN. *)
Theorem bf_set_si_correct (lg : Z) (bf_realloc : bf_realloc_t) `{!BfReallocLaws bf_realloc} (r : bf_t) (a : Z) :
  lg = 5 \/ lg = 6 -> in_s 64 a ->
  exists ret r', bf_set_si lg bf_realloc r a = Some (ret, r') /\
    ((ret = 0 /\ bf_ok lg r' /\ sign r' = Zb (a <? 0) /\ expn r' < BF_EXP_INF lg /\ (mag lg r' == qz (Z.abs a))%Q) \/
     (ret = BF_ST_MEM_ERROR /\ bf_is_nan lg r' = true)).
Proof.
  intros Hw Ha. pose proof (bf_set_si_spec lg bf_realloc ltac:(lia) ltac:(lia) _ r a Hw Ha) as H.
  destruct (bf_set_si lg bf_realloc r a) as [[ret r']|]; [|done]. by exists ret, r'.
Qed.

Lemma bf_set_si_correct_witness : exists r', bf_set_si 5 calloc_realloc (bf_init 5) (-6442450944) = Some (0, r') /\ (mag 5 r' == qz 6442450944)%Q.
Proof.
  destruct (bf_set_si_correct 5 calloc_realloc (bf_init 5) (-6442450944) (or_introl eq_refl)) as (ret & r' & E & H); [split; vm_compute; congruence|].
  exists r'. vm_compute in E. injection E as <- <-. split; [vm_compute; reflexivity|]. destruct H as [(_ & _ & _ & _ & H)|(H & _)]; [exact H|discriminate].
Defined.
