(* ===== verification/BfRound.v ===== *)
(** * Rounding of floating point numbers (libbf.c)

    [__bf_round] and the functions around it.  [l] limbs of the array are
    significant at the call; the others are scratch space. *)

From S2P Require Import Prelude CArray Limb MpArith Rounding BfNum.
Open Scope Z_scope.

(** The arithmetic of the increment: [P] is [2^p] and [K = 2^prec * P] the
    bound of the segment. *)
Lemma incr_no_carry S P Q : 0 < P -> 0 < Q -> 0 <= S -> S + P < Q * P -> (S + P) / P = S / P + 1 /\ S / P + 1 < Q.
Proof.
  intros. assert ((S + P) / P = S / P + 1) as <- by (rewrite <- (Z.mul_1_l P) at 1; by rewrite Z.div_add by lia).
  split; [done|]. apply Z.div_lt_upper_bound; lia.
Qed.

Lemma incr_carry S S1 P Q : 0 < P -> 0 < Q -> 0 <= S1 -> S < 2 * Q * P -> S1 + 2 * Q * P = S + P ->
  S / P + 1 = 2 * Q /\ 0 <= (S1 + 2 * Q * P) / 2 < 2 * Q * P /\ (S1 + 2 * Q * P) / 2 / P = Q /\ Q * P <= (S1 + 2 * Q * P) / 2.
Proof.
  intros HP HQ H1 HS E. replace S with (P - (P - S1) + (2 * Q - 1) * P) by lia.
  split; [rewrite Z.div_add, Z.div_small by lia; lia|].
  replace (S1 + 2 * Q * P) with (S1 + Q * P * 2) by lia. rewrite Z.div_add by lia.
  assert (0 <= S1 / 2 < P) by (split; [apply Z.div_pos; lia|apply Z.div_lt_upper_bound; lia]).
  split; [nia|]. rewrite Z.div_add, Z.div_small by lia. lia.
Qed.

Section round.
Context (lg : Z) (bf_realloc : bf_realloc_t).
Notation LIMB_BITS := (LIMB_BITS lg).
Notation Base := (Base lg).
Notation limb := (limb lg).
Notation slimb := (slimb lg).
Notation limb_ok := (limb_ok lg).
Notation limbs_ok := (limbs_ok lg).
Notation val := (val lg).
Notation BF_PREC_INF := (BF_PREC_INF lg).
Notation EXP_BOUND := (EXP_BOUND lg).
Notation normal := (normal lg).
Notation mag := (mag lg).
Notation bf_resize := (bf_resize bf_realloc).
Notation bf_set_nan := (bf_set_nan lg bf_realloc).
Notation bf_set_zero := (bf_set_zero lg bf_realloc).
Notation bf_set_inf := (bf_set_inf lg bf_realloc).

(** ** Definitions *)

(** The addend and the new status. *)
Definition bf_get_rnd_add (ret : Z) (r : bf_t) (l prec rnd_mode : Z) : option (Z * Z) :=
  bit0 ← (if rnd_mode =? BF_RNDF then Some 1
          else scan_bit_nz lg r (slimb (l * LIMB_BITS - 1 - bf_max 0 (slimb (prec + 1)))));
  bit1 ← get_bit lg (tab r) l (slimb (l * LIMB_BITS - 1 - prec));
  let inexact := negb (Z.lor bit1 bit0 =? 0) in
  add_one ←
    (if rnd_mode =? BF_RNDZ then Some 0
     else if rnd_mode =? BF_RNDN then
       if negb (bit1 =? 0) then
         if negb (bit0 =? 0) then Some 1
         else get_bit lg (tab r) l (slimb (l * LIMB_BITS - 1 - slimb (prec - 1)))
       else Some 0
     else if (rnd_mode =? BF_RNDD) || (rnd_mode =? BF_RNDU) then
       if sign r =? Zb (rnd_mode =? BF_RNDD) then Some (Zb inexact) else Some 0
     else if rnd_mode =? BF_RNDA then Some (Zb inexact)
     else if (rnd_mode =? BF_RNDNA) || (rnd_mode =? BF_RNDF) then Some bit1
     else None);
  Some (add_one, if inexact then Z.lor ret BF_ST_INEXACT else ret).

Definition bf_set_overflow (r : bf_t) (sgn prec flags : Z) : option (Z * bf_t) :=
  let rnd_mode := Z.land flags BF_RND_MASK in
  if (prec =? BF_PREC_INF) || (rnd_mode =? BF_RNDN) || (rnd_mode =? BF_RNDNA) || (rnd_mode =? BF_RNDA) ||
     ((rnd_mode =? BF_RNDD) && (sgn =? 1)) || ((rnd_mode =? BF_RNDU) && (sgn =? 0))
  then Some (Z.lor BF_ST_OVERFLOW BF_ST_INEXACT, bf_set_inf r sgn)
  else
    let l := slimb (limb (prec + LIMB_BITS - 1) / LIMB_BITS) in
    let '(err, r) := bf_resize r l in
    if negb (err =? 0) then Some (BF_ST_MEM_ERROR, bf_set_nan r) else
    (* r->tab[0], then the limbs 1 to l - 1 *)
    t ← wr (tab r) 0 (limb_mask lg (Z.land (limb (- prec)) (LIMB_BITS - 1)) (LIMB_BITS - 1));
    t ← splice t 1 (replicate (Z.to_nat (l - 1)) (limb (-1)));
    let e_max := slimb (limb (Z.shiftl 1 (bf_get_exp_bits lg flags - 1))) in
    Some (Z.lor BF_ST_OVERFLOW BF_ST_INEXACT, Bf sgn e_max t).

(** The loop that adds [carry] to the limbs from [pos] on. *)
Fixpoint add_carry (tab : list Z) (carry : Z) : list Z * Z :=
  match tab with
  | [] => ([], carry)
  | t :: tab =>
      let v := limb (t + carry) in
      let carry := Zb (v <? carry) in
      if carry =? 0 then (v :: tab, carry)
      else let '(tab, carry) := add_carry tab carry in (v :: tab, carry)
  end.

(** The loop that shifts the limbs right by one bit, from the top one down:
    [v] is the limb above, 1 at first. *)
Definition shr_carry (tab : list Z) : list Z :=
  snd (foldr (fun a '(v, res) => (a, Z.lor (Z.shiftr a 1) (limb (Z.shiftl v (LIMB_BITS - 1))) :: res)) (1, []) tab).

(** [while (r->tab[i] == 0) i++;] *)
Fixpoint skip_zeros (tab : list Z) (i : Z) : option Z :=
  match tab with
  | [] => None
  | t :: tab => if t =? 0 then skip_zeros tab (i + 1) else Some i
  end.

(** The precision of the result. *)
Definition round_prec (r : bf_t) (prec1 flags e_min : Z) : option Z :=
  if has_flag flags BF_FLAG_RADPNT_PREC then
    Some (if negb (prec1 =? BF_PREC_INF) then slimb (expn r + prec1) else prec1)
  else if (expn r <? e_min) && has_flag flags BF_FLAG_SUBNORMAL then
    if prec1 =? BF_PREC_INF then None (* assert *) else Some (slimb (prec1 - slimb (e_min - expn r)))
  else Some prec1.

(** Adding one at digit [prec - 1]. *)
Definition round_incr (r : bf_t) (l prec : Z) : option bf_t :=
  let bit_pos := slimb (l * LIMB_BITS - 1 - slimb (prec - 1)) in
  let pos := Z.shiftr bit_pos lg in
  let carry := limb (Z.shiftl 1 (Z.land bit_pos (LIMB_BITS - 1))) in
  seg ← sub_arr (tab r) pos (l - pos);
  let '(seg, carry) := add_carry seg carry in
  if negb (carry =? 0) then
    t ← splice (tab r) pos (shr_carry seg);
    Some (Bf (sign r) (slimb (expn r + 1)) t)
  else t ← splice (tab r) pos seg; Some (set_tab r t).

(** The bits below digit [prec - 1] and the zero limbs are dropped. *)
Definition round_trim (r : bf_t) (l prec : Z) : option bf_t :=
  let bit_pos := slimb (l * LIMB_BITS - 1 - slimb (prec - 1)) in
  let i := Z.shiftr bit_pos lg in
  '(t, i) ← (if i >=? 0 then
               let shift := Z.land bit_pos (LIMB_BITS - 1) in
               if negb (shift =? 0) then
                 v ← rd (tab r) i;
                 t ← wr (tab r) i (Z.land v (limb_mask lg shift (LIMB_BITS - 1)));
                 Some (t, i)
               else Some (tab r, i)
             else Some (tab r, 0));
  i ← skip_zeros (drop (Z.to_nat i) t) i;
  '(t, l) ← (if i >? 0 then
               let l := l - i in
               mid ← sub_arr t i l;
               t ← splice t 0 mid;
               Some (t, l)
             else Some (t, l));
  let '(_, r) := bf_resize (set_tab r t) l in Some r.

Definition bf_round_core (r : bf_t) (prec1 flags l ret : Z) : option (Z * bf_t) :=
  let e_range := slimb (limb (Z.shiftl 1 (bf_get_exp_bits lg flags - 1))) in
  let e_min := slimb (- e_range + 3) in
  let e_max := e_range in
  prec ← round_prec r prec1 flags e_min;
  let rnd_mode := Z.land flags BF_RND_MASK in
  '(add_one, ret) ← bf_get_rnd_add ret r l prec rnd_mode;
  let underflow r := Some (Z.lor ret (Z.lor BF_ST_UNDERFLOW BF_ST_INEXACT), bf_set_zero r (sign r)) in
  if prec <=? 0 then
    if negb (add_one =? 0) then
      let '(_, r) := bf_resize r 1 in
      t ← wr (tab r) 0 (limb (Z.shiftl 1 (LIMB_BITS - 1)));
      Some (Z.lor ret (Z.lor BF_ST_UNDERFLOW BF_ST_INEXACT), Bf (sign r) (slimb (expn r + (1 - prec))) t)
    else underflow r
  else
    r ← (if negb (add_one =? 0) then round_incr r l prec else Some r);
    if (expn r <? e_min) && negb (has_flag flags BF_FLAG_SUBNORMAL) then underflow r
    else
      let ret := if (expn r <? e_min) && has_flag ret BF_ST_INEXACT then Z.lor ret BF_ST_UNDERFLOW else ret in
      if expn r >? e_max then bf_set_overflow r (sign r) prec1 flags
      else r ← round_trim r l prec; Some (ret, r).

(** The loop of [bf_normalize_and_round] that counts the significant limbs. *)
Fixpoint top_len (tab : list Z) (n : nat) : option Z :=
  match n with
  | O => Some 0
  | S n' => v ← rd tab (Z.of_nat n'); if v =? 0 then top_len tab n' else Some (Z.of_nat n)
  end.

(** The loop that shifts [tab] left by [shift] bits; [v] is the limb below. *)
Fixpoint norm_shl (tab : list Z) (shift v : Z) : list Z :=
  match tab with
  | [] => []
  | a :: tab => Z.lor (limb (Z.shiftl a shift)) (Z.shiftr v (LIMB_BITS - shift)) :: norm_shl tab shift a
  end.

Definition bf_normalize_and_round (r : bf_t) (prec1 flags : Z) : option (Z * bf_t) :=
  l ← top_len (tab r) (length (tab r));
  if l =? 0 then
    let '(_, r) := bf_resize (set_expn r (BF_EXP_ZERO lg)) 0 in Some (0, r)
  else
    let r := set_expn r (slimb (expn r - (zlen (tab r) - l) * LIMB_BITS)) in
    v ← rd (tab r) (l - 1);
    let shift := clz lg v in
    r ← (if negb (shift =? 0) then
           low ← sub_arr (tab r) 0 l;
           t ← splice (tab r) 0 (norm_shl low shift 0);
           Some (Bf (sign r) (slimb (expn r - shift)) t)
         else Some r);
    bf_round_core r prec1 flags l 0.

Definition bf_round (r : bf_t) (prec flags : Z) : option (Z * bf_t) :=
  if zlen (tab r) =? 0 then Some (0, r) else bf_round_core r prec flags (zlen (tab r)) 0.

(** The loop of [bf_can_round] over the [n] bits below [bit_pos]. *)
Fixpoint can_round_loop (t : list Z) (bit bit_pos : Z) (n : nat) : option Z :=
  match n with
  | O => Some 0
  | S n => b ← get_bit lg t (zlen t) bit_pos; if negb (b =? bit) then Some 1 else can_round_loop t bit (bit_pos - 1) n
  end.

Definition bf_can_round (a : bf_t) (prec rnd_mode k : Z) : option Z :=
  if (expn a =? BF_EXP_INF lg) || (expn a =? BF_EXP_NAN lg) then Some 0
  else if rnd_mode =? BF_RNDF then Some (Zb (k >=? prec + 1))
  else if expn a =? BF_EXP_ZERO lg then Some 0
  else
    let is_rndn := (rnd_mode =? BF_RNDN) || (rnd_mode =? BF_RNDNA) in
    if k <? prec + 2 then Some 0
    else
      let bit_pos := slimb (zlen (tab a) * LIMB_BITS - 1 - prec) in
      let n := k - prec in
      bit ← get_bit lg (tab a) (zlen (tab a)) bit_pos;
      let bit := Z.lxor bit (Zb is_rndn) in
      can_round_loop (tab a) bit (bit_pos - 1) (Z.to_nat (n - 1)).

Definition bf_mul_2exp (r : bf_t) (e prec flags : Z) : option (Z * bf_t) :=
  if zlen (tab r) =? 0 then Some (0, r)
  else
    let e_max := slimb (limb (limb (Z.shiftl 1 (BF_EXT_EXP_BITS_MAX lg)) - 1)) in
    let e := bf_max e (- e_max) in
    let e := bf_min e e_max in
    bf_round_core (set_expn r (slimb (expn r + e))) prec flags (zlen (tab r)) 0.

(** ** The increment *)

Context (Hlg : 1 <= lg) (Hlg2 : 2 <= lg) (HR : BfReallocLaws bf_realloc).

Lemma slimb_id x : - (2 * EXP_BOUND) <= x < 2 * EXP_BOUND -> slimb x = x.
Proof using Hlg2.
  intros Hx. destruct (exp_bounds lg Hlg2) as (_ & B2 & _). pose proof (LIMB_BITS_ge4 lg Hlg2). apply swrap_id; [lia|]. unfold in_s. lia.
Qed.

(** [M / 2^s] for a possibly negative [s], as a fraction. *)
Definition num (M s : Z) : Z := M * 2 ^ (Z.max 0 (- s)).
Definition den (s : Z) : Z := 2 ^ (Z.max 0 s).

Lemma den_pos s : 0 < den s.
Proof using . unfold den. lia. Qed.

Lemma num_den_pos M s : 0 <= s -> num M s = M /\ den s = 2 ^ s.
Proof using . intros. unfold num, den. rewrite Z.max_l, Z.max_r, Z.pow_0_r by lia. lia. Qed.

Lemma num_den_neg M s : s <= 0 -> num M s = M * 2 ^ (- s) /\ den s = 1.
Proof using . intros. unfold num, den. rewrite (Z.max_l 0 s), Z.max_r, Z.pow_0_r by lia. done. Qed.

Lemma num_den M s : (qz M * q2 (- s) * qz (den s) == qz (num M s))%Q.
Proof using .
  unfold num, den. rewrite qz_mult, <- !q2_Z by lia. rewrite <- Qmult_assoc, <- q2_plus.
  by replace (- s + Z.max 0 s) with (Z.max 0 (- s)) by lia.
Qed.

(** The remainder at bit [s] from the bit below it and the others. *)
Lemma rem_bits M s : 0 <= M -> 1 <= s -> M mod 2 ^ s = M mod 2 ^ (s - 1) + Zb (Z.testbit M (s - 1)) * 2 ^ (s - 1).
Proof using .
  intros HM Hs. replace (2 ^ s) with (2 ^ (s - 1) * 2) by (rewrite Z.mul_comm, <- Z.pow_succ_r by lia; f_equal; lia).
  rewrite Z.rem_mul_r by lia. f_equal. rewrite Z.mul_comm. f_equal. rewrite Z.testbit_odd, Z.shiftr_div_pow2, Zmod_odd by lia.
  by destruct (Z.odd _).
Qed.

(** The sticky bit: the position the code scans from is below the array when
    [prec] is negative. *)
Lemma scan_sticky M N prec : 0 <= M < 2 ^ N -> 0 <= N -> 1 <= N - prec ->
  M mod 2 ^ Z.max 0 (N - 1 - bf_max 0 (prec + 1) + 1) = M mod 2 ^ (N - prec - 1).
Proof using .
  intros HM HN Hs. unfold bf_max. destruct (0 >? prec + 1) eqn:E; zbool.
  - rewrite !Z.mod_small; [done|..]; (split; [lia|]); (eapply Z.lt_le_trans; [apply HM|apply Z.pow_le_mono_r; lia]).
  - by replace (Z.max 0 _) with (N - prec - 1) by lia.
Qed.

Lemma lor_bits_nz (a b : bool) : negb (Z.lor (Zb a) (Zb b) =? 0) = a || b.
Proof using . by destruct a, b. Qed.

(** The bits the code looks at, from the fraction. *)
Lemma round_bits M N prec : 0 <= M < 2 ^ N -> 0 < N ->
  let s := N - prec in
  let bit1 := Z.testbit M (s - 1) in
  let bit0 := negb (M mod 2 ^ Z.max 0 (N - 1 - bf_max 0 (prec + 1) + 1) =? 0) in
  let rem := num M s mod den s in
  (bit1 || bit0) = negb (rem =? 0) /\ bit1 = (den s <=? 2 * rem) /\ (bit1 && bit0) = (den s <? 2 * rem) /\
  (bit1 && negb bit0) = (2 * rem =? den s) /\ (bit1 = true -> Z.testbit M s = Z.odd (num M s / den s)).
Proof using .
  intros HM HN. cbv zeta. unfold num, den. set (s := N - prec). destruct (decide (1 <= s)) as [Hs|Hs].
  - rewrite (scan_sticky M N prec) by (done || lia). change (N - prec) with s. rewrite (Z.max_r 0 s), (Z.max_l 0 (- s)), Z.pow_0_r, Z.mul_1_r by lia.
    rewrite (rem_bits M s) by lia. pose proof (Z.mod_pos_bound M (2 ^ (s - 1)) ltac:(lia)) as Hm. set (m := M mod 2 ^ (s - 1)) in *.
    assert (2 ^ s = 2 * 2 ^ (s - 1)) as E2 by (rewrite <- Z.pow_succ_r by lia; f_equal; lia).
    assert (Z.testbit M s = Z.odd (M / 2 ^ s)) as -> by (rewrite Z.testbit_odd, Z.shiftr_div_pow2 by lia; done).
    rewrite E2. destruct (Z.testbit M (s - 1)); cbn [orb andb negb Zb]; (split_and!; [..|done]); destruct (m =? 0) eqn:E; cbn [negb]; zbool; symmetry;
      apply Z.leb_le || apply Z.leb_gt || apply Z.ltb_lt || apply Z.ltb_ge || apply Z.eqb_eq || apply Z.eqb_neq || apply negb_true_iff, Z.eqb_neq || apply negb_false_iff, Z.eqb_eq || idtac; lia.
  - rewrite Z.testbit_neg_r by lia. rewrite (Z.max_l 0 s) by lia. rewrite Z.pow_0_r, Z.mod_1_r, Z.div_1_r.
    replace (Z.max 0 (N - 1 - _ + 1)) with 0 by (unfold bf_max; destruct (_ >? _) eqn:E; zbool; lia). rewrite Z.pow_0_r, Z.mod_1_r. done.
Qed.

Lemma bf_get_rnd_add_spec ret r T G prec mode : tab r = T ++ G -> limbs_ok T -> 0 < zlen T -> zlen T * LIMB_BITS < EXP_BOUND ->
  - EXP_BOUND < prec < 2 * EXP_BOUND - 1 -> 0 <= mode <= 6 -> sign r = 0 \/ sign r = 1 ->
  let s := zlen T * LIMB_BITS - prec in
  let rem := num (val T) s mod den s in
  bf_get_rnd_add ret r (zlen T) prec mode =
  Some (Zb (round_up mode (sign r) (num (val T) s / den s) rem (den s)),
        if (mode =? BF_RNDF) || negb (rem =? 0) then Z.lor ret BF_ST_INEXACT else ret).
Proof using Hlg Hlg2.
  intros Ht Hok Hl HN Hp Hm Hsg. cbv zeta. pose proof (LIMB_BITS_ge4 lg Hlg2). destruct (exp_bounds lg Hlg2) as (B1 & _).
  pose proof (val_range lg Hlg T Hok) as HM. rewrite (Base_pow lg Hlg) in HM by lia.
  set (N := zlen T * LIMB_BITS) in *. assert (0 < N) by (unfold N; nia).
  destruct (round_bits (val T) N prec HM ltac:(lia)) as (R1 & R2 & R3 & R4 & R5).
  unfold bf_get_rnd_add. rewrite Ht. fold N.
  assert (0 <= bf_max 0 (prec + 1) < 2 * EXP_BOUND) as Hmax by (unfold bf_max; destruct (_ >? _) eqn:E; zbool; lia).
  rewrite (slimb_id (prec + 1)), (slimb_id (prec - 1)), !slimb_id by lia.
  rewrite (scan_bit_nz_spec lg Hlg r T G) by (done || (fold N; lia)).
  rewrite !(get_bit_spec lg Hlg T G) by done.
  replace (N - 1 - prec) with (N - prec - 1) by lia. replace (N - 1 - (prec - 1)) with (N - prec) by lia.
  set (bit1 := Z.testbit _ (N - prec - 1)) in *. set (b0 := negb (val T mod _ =? 0)) in *. set (rem := num _ _ mod _) in *. set (d := den _) in *.
  clearbody bit1 b0 rem d. cbn [mbind option_bind]. unfold round_up.
  destruct (mode =? BF_RNDF) eqn:EF; cbn [mbind option_bind orb].
  { zbool. subst mode. cbn [Z.eqb Pos.eqb orb BF_RNDF BF_RNDZ BF_RNDN BF_RNDD BF_RNDU BF_RNDA BF_RNDNA mbind option_bind].
    rewrite <- R2. change 1 with (Zb true). rewrite lor_bits_nz, orb_true_r. done. }
  rewrite lor_bits_nz, <- R1. zbool.
  destruct (mode =? BF_RNDZ) eqn:EZ; [done|]. destruct (mode =? BF_RNDN) eqn:EN; zbool.
  { subst mode. cbn [Z.eqb Pos.eqb orb BF_RNDF BF_RNDZ BF_RNDN BF_RNDD BF_RNDU BF_RNDA BF_RNDNA].
    rewrite <- R3, <- R4. destruct bit1; [|done]. rewrite R5 by done. by destruct b0. }
  destruct (mode =? BF_RNDD) eqn:ED; zbool.
  { subst mode. cbn [Z.eqb Pos.eqb orb BF_RNDF BF_RNDZ BF_RNDN BF_RNDD BF_RNDU BF_RNDA BF_RNDNA]. destruct Hsg as [-> | ->]; done. }
  destruct (mode =? BF_RNDU) eqn:EU; zbool.
  { subst mode. cbn [Z.eqb Pos.eqb orb BF_RNDF BF_RNDZ BF_RNDN BF_RNDD BF_RNDU BF_RNDA BF_RNDNA]. destruct Hsg as [-> | ->]; done. }
  cbn [orb]. destruct (mode =? BF_RNDA) eqn:EA; [done|]. destruct (mode =? BF_RNDNA) eqn:ENA; zbool; [by rewrite <- R2|].
  unfold BF_RNDN, BF_RNDZ, BF_RNDD, BF_RNDU, BF_RNDNA, BF_RNDA, BF_RNDF in *. lia.
Qed.

Lemma add_carry_eq t k : k <> 0 -> add_carry t k = mp_add_ui lg t k.
Proof using .
  revert k. induction t as [|x t IH]; intros k Hk; [done|]. cbn [add_carry mp_add_ui]. replace (k =? 0) with false by lia.
  destruct (limb (x + k) <? k); cbn [Zb Z.eqb].
  - by rewrite IH.
  - by destruct t.
Qed.

Lemma shr_carry_eq t tab_r r : mp_shr lg t 1 1 = Some (tab_r, r) -> shr_carry t = tab_r.
Proof using . unfold shr_carry, mp_shr. destruct (negb _); [done|]. destruct (foldr _ _ _). by intros [= -> _]. Qed.

(** The limb and the bit of position [s]. *)
Lemma split_at_bit T s : limbs_ok T -> 0 <= s < zlen T * LIMB_BITS ->
  exists A S, T = A ++ S /\ zlen A = s / LIMB_BITS /\ 0 < zlen S /\ limbs_ok A /\ limbs_ok S /\
    0 <= s mod LIMB_BITS < LIMB_BITS /\ 2 ^ s = Base ^ zlen A * 2 ^ (s mod LIMB_BITS) /\
    val T / 2 ^ s = val S / 2 ^ (s mod LIMB_BITS) /\ Base ^ zlen S = 2 ^ (zlen T * LIMB_BITS - s) * 2 ^ (s mod LIMB_BITS).
Proof using Hlg.
  intros Hok Hs. destruct (pos_decomp lg Hlg s) as [Hd Hm]. pose proof (LIMB_BITS_ge lg Hlg). set (i := s / LIMB_BITS) in *. set (p := s mod LIMB_BITS) in *.
  assert (0 <= i < zlen T) by nia. destruct (split2 T i ltac:(lia)) as (A & S & -> & HA). rewrite zlen_app in *.
  apply limbs_ok_app in Hok as [OA OS]. exists A, S. split; [done|]. split; [done|]. split; [lia|]. split; [done|]. split; [done|]. split; [done|].
  assert (2 ^ s = Base ^ zlen A * 2 ^ p) as E by (rewrite (Base_pow lg Hlg), <- Z.pow_add_r by lia; f_equal; lia). split; [done|].
  pose proof (val_range lg Hlg A OA). pose proof (Limb.pow_pos lg Hlg (zlen A) ltac:(lia)). split.
  - rewrite E, <- Z.div_div by lia. f_equal. rewrite val_app, (Z.mul_comm (Base ^ _)), Z.div_add, Z.div_small by (done || lia). lia.
  - rewrite (Base_pow lg Hlg), <- Z.pow_add_r by lia. f_equal. lia.
Qed.

Lemma round_incr_spec r T G prec : tab r = T ++ G -> normal T -> zlen T * LIMB_BITS < EXP_BOUND -> 0 < prec ->
  - EXP_BOUND < expn r < EXP_BOUND -> 1 <= zlen T * LIMB_BITS - prec ->
  let s := zlen T * LIMB_BITS - prec in
  exists T1 e1, round_incr r (zlen T) prec = Some (Bf (sign r) e1 (T1 ++ G)) /\ normal T1 /\ zlen T1 = zlen T /\
    ((e1 = expn r /\ val T1 / 2 ^ s = val T / 2 ^ s + 1 /\ val T / 2 ^ s + 1 < 2 ^ prec) \/
     (e1 = expn r + 1 /\ val T1 / 2 ^ s = 2 ^ (prec - 1) /\ val T / 2 ^ s + 1 = 2 ^ prec)).
Proof using Hlg Hlg2.
  intros Ht (Hok & Hl & Htop) HN Hp He Hs. cbv zeta. destruct (exp_bounds lg Hlg2) as (B1 & B2 & _).
  pose proof (LIMB_BITS_ge4 lg Hlg2). unfold round_incr. rewrite (slimb_id (prec - 1)), slimb_id by lia.
  replace (_ - 1 - (prec - 1)) with (zlen T * LIMB_BITS - prec) by lia. set (s := zlen T * LIMB_BITS - prec) in *.
  destruct (pos_split lg Hlg s) as [-> ->]. destruct (split_at_bit T s Hok ltac:(lia)) as (A & S & -> & <- & HS & OA & OS & Hm & E & Ev & EB).
  replace (zlen (A ++ S) * LIMB_BITS - s) with prec in EB by lia. set (p := s mod LIMB_BITS) in *.
  assert (limb (Z.shiftl 1 p) = 2 ^ p) as Hc by (rewrite Z.shiftl_1_l; apply limb_id; unfold Limb.limb_ok, Limb.Base; split; [lia|apply Z.pow_lt_mono_r; lia]).
  rewrite Hc, Ht, <- app_assoc. rewrite sub_arr_mid by (done || rewrite zlen_app; lia). cbn [mbind option_bind].
  rewrite add_carry_eq by lia. assert (limb_ok (2 ^ p)) as Hpok by (rewrite <- Hc; by apply limb_range).
  destruct (mp_add_ui_spec lg Hlg S (2 ^ p) OS Hpok) as (S1 & c & -> & O1 & L1 & Hc1 & V1).
  pose proof (val_range lg Hlg S OS) as R. pose proof (val_range lg Hlg S1 O1) as R1. rewrite L1 in R1.
  pose proof (Limb.pow_pos lg Hlg (zlen A) (zlen_nonneg A)) as PA. pose proof (val_range lg Hlg A OA) as RA.
  pose proof (zlen_nonneg A). rewrite zlen_app, val_app, Z.pow_add_r in Htop by (done || lia).
  pose proof (Z.pow_pos_nonneg 2 p ltac:(lia) ltac:(lia)) as Pp. pose proof (Z.pow_pos_nonneg 2 (prec - 1) ltac:(lia) ltac:(lia)) as Pq.
  assert (2 ^ prec = 2 * 2 ^ (prec - 1)) as Eq by (rewrite <- Z.pow_succ_r by lia; f_equal; lia).
  assert (forall S2, limbs_ok S2 -> zlen S2 = zlen S -> val (A ++ S2) / 2 ^ s = val S2 / 2 ^ p) as Hdiv.
  { intros S2 O2 L2. rewrite E, <- Z.div_div by lia. f_equal.
    rewrite val_app, (Z.mul_comm (Base ^ _)), Z.div_add, Z.div_small by (done || lia). lia. }
  assert (forall S2, limbs_ok S2 -> zlen S2 = zlen S -> Base ^ zlen S <= 2 * val S2 \/ val S <= val S2 -> normal (A ++ S2)) as Hnorm.
  { intros S2 O2 L2 Ht2. split; [by apply limbs_ok_app|]. rewrite !zlen_app, val_app, L2, Z.pow_add_r by (done || lia). split; [lia|].
    destruct Ht2 as [Ht2|Ht2].
    - pose proof (Z.mul_le_mono_nonneg_l _ _ (Base ^ zlen A) ltac:(lia) Ht2). lia.
    - pose proof (Z.mul_le_mono_nonneg_l _ _ (Base ^ zlen A) ltac:(lia) Ht2). lia. }
  rewrite Ev. destruct (decide (c = 0)) as [-> | Hc0].
  - cbn [Z.eqb negb]. rewrite splice_mid by done. cbn [mbind option_bind]. exists (A ++ S1), (expn r). rewrite <- app_assoc. split; [done|].
    split; [apply Hnorm; [done..|right; lia]|]. split; [rewrite !zlen_app; lia|]. left. split; [done|]. rewrite Hdiv by done.
    replace (val S1) with (val S + 2 ^ p) by lia. apply incr_no_carry; lia.
  - replace (c =? 0) with false by lia. cbn [negb].
    assert (2 * 2 ^ p <= Base ^ zlen S) by (rewrite EB; apply Z.mul_le_mono_nonneg_r; lia).
    assert (c = 1) as -> by (destruct (decide (2 <= c)); [pose proof (Z.mul_le_mono_nonneg_l 2 c (Base ^ zlen S)); lia|lia]).
    destruct (mp_shr_spec lg Hlg S1 1 1 ltac:(lia) O1) as (S2 & x & Hshr & O2 & L2 & V2 & _);
      [unfold Limb.limb_ok; pose proof (Base_ge lg Hlg); lia|]. rewrite (shr_carry_eq _ _ _ Hshr).
    rewrite Z.pow_1_r, Z.mul_1_r, L1, EB, Eq in V2. rewrite EB, Eq in V1, R, R1.
    destruct (incr_carry (val S) (val S1) (2 ^ p) (2 ^ (prec - 1))) as (C1 & C2 & C3 & C4); [lia..|].
    rewrite Z.mod_small in V2 by done. rewrite splice_mid by (done || lia). cbn [mbind option_bind]. rewrite slimb_id by lia.
    exists (A ++ S2), (expn r + 1). rewrite <- app_assoc. split; [done|].
    split; [apply Hnorm; [done|lia|left; rewrite EB, Eq; lia]|]. split; [rewrite !zlen_app; lia|]. right. split; [done|].
    rewrite Hdiv, V2 by (done || lia). lia.
Qed.

(** ** Dropping the low bits *)

Lemma skip_zeros_spec S G i : limbs_ok S -> val S <> 0 ->
  exists n x R, S = replicate n 0 ++ x :: R /\ x <> 0 /\ skip_zeros (S ++ G) i = Some (i + Z.of_nat n).
Proof using .
  revert i. induction S as [|v S IH]; intros i Hok Hv; [done|]. unfold Limb.limbs_ok in Hok. rewrite Forall_cons in Hok. destruct Hok as [Hvok Hok].
  cbn [app skip_zeros]. destruct (v =? 0) eqn:E; zbool.
  - subst v. cbn [Limb.val] in Hv. destruct (IH (i + 1) Hok) as (n & x & R & -> & Hx & ->); [intros F; rewrite F in Hv; lia|].
    exists (Datatypes.S n), x, R. split; [done|]. split; [done|]. f_equal. lia.
  - exists 0%nat, v, S. split; [done|]. split; [done|]. f_equal. lia.
Qed.

Lemma mask_limb v p : limb_ok v -> 0 <= p < LIMB_BITS -> Z.land v (limb_mask lg p (LIMB_BITS - 1)) = v / 2 ^ p * 2 ^ p.
Proof using Hlg.
  intros Hv Hp. rewrite limb_mask_spec by lia. replace (LIMB_BITS - 1 - p + 1) with (LIMB_BITS - p) by lia.
  rewrite land_mask_shift by lia. rewrite Z.mod_small; [done|]. unfold Limb.limb_ok in Hv. split; [apply Z.div_pos; lia|].
  apply Z.div_lt_upper_bound; [lia|]. rewrite <- Z.pow_add_r by lia. replace (p + (LIMB_BITS - p)) with LIMB_BITS by lia. apply Hv.
Qed.

Lemma val_mask v S p : limb_ok v -> 0 <= p < LIMB_BITS -> val (v / 2 ^ p * 2 ^ p :: S) = val (v :: S) / 2 ^ p * 2 ^ p.
Proof using .
  intros Hv Hp. cbn [Limb.val]. replace Base with (2 ^ (LIMB_BITS - p) * 2 ^ p) by (unfold Limb.Base; rewrite <- Z.pow_add_r by lia; f_equal; lia).
  replace (v + _) with (v + 2 ^ (LIMB_BITS - p) * val S * 2 ^ p) by lia. rewrite Z.div_add by lia. lia.
Qed.

Lemma floor_limb v p : limb_ok v -> 0 <= p -> limb_ok (v / 2 ^ p * 2 ^ p).
Proof using .
  unfold Limb.limb_ok. intros Hv Hp. pose proof (Z.mul_div_le v (2 ^ p) ltac:(lia)). pose proof (Z.div_pos v (2 ^ p) ltac:(lia) ltac:(lia)).
  split; [apply Z.mul_nonneg_nonneg; lia|lia].
Qed.

(** The last part: the kept limbs are moved to the start. *)
Lemma trim_move r A n x R G l : zlen A + Z.of_nat n + zlen (x :: R) = l ->
  ('(t, l) ← (if zlen A + Z.of_nat n >? 0 then
                let l := l - (zlen A + Z.of_nat n) in
                mid ← sub_arr (A ++ (replicate n 0 ++ x :: R) ++ G) (zlen A + Z.of_nat n) l;
                t ← splice (A ++ (replicate n 0 ++ x :: R) ++ G) 0 mid;
                Some (t, l)
              else Some (A ++ (replicate n 0 ++ x :: R) ++ G, l));
   let '(_, r) := bf_resize (set_tab r t) l in Some r) = Some (set_tab r (x :: R)).
Proof using HR.
  intros Hl. pose proof (zlen_nonneg A). destruct (zlen A + Z.of_nat n >? 0) eqn:E; zbool.
  - rewrite <- app_assoc, (app_assoc A). assert (zlen (A ++ replicate n 0) = zlen A + Z.of_nat n) as EA by (rewrite zlen_app, zlen_replicate; done).
    cbv zeta. rewrite sub_arr_mid by (rewrite ?EA; lia). cbn [mbind option_bind].
    destruct (split2 ((A ++ replicate n 0) ++ (x :: R) ++ G) (zlen (x :: R))) as (B & C & EBC & HB);
      [rewrite !zlen_app, zlen_replicate; pose proof (zlen_nonneg G); pose proof (zlen_nonneg (x :: R)); lia|].
    rewrite EBC. replace (B ++ C) with ([] ++ B ++ C) by done. rewrite splice_mid by done. cbn [mbind option_bind app].
    rewrite (bf_resize_shrink bf_realloc HR _ (x :: R) C) by (done || lia). by destruct r.
  - destruct A as [|a A]; [|rewrite zlen_cons in E; pose proof (zlen_nonneg A); lia]. destruct n; [|lia]. cbn [mbind option_bind app replicate].
    rewrite (bf_resize_shrink bf_realloc HR _ (x :: R) G) by (done || (change (zlen (@nil Z)) with 0 in Hl; lia)). by destruct r.
Qed.

(** The kept segment, and its value. *)
Lemma round_trim_seg r A S G p : limbs_ok S -> 0 < val S / 2 ^ p * 2 ^ p -> 0 <= p < LIMB_BITS ->
  tab r = A ++ S ++ G ->
  exists n x R t, S <> [] /\ x <> 0 /\ limbs_ok (x :: R) /\ Z.of_nat n + zlen (x :: R) = zlen S /\
    val S / 2 ^ p * 2 ^ p = Base ^ Z.of_nat n * val (x :: R) /\ t = A ++ (replicate n 0 ++ x :: R) ++ G /\
    skip_zeros (drop (Z.to_nat (zlen A)) t) (zlen A) = Some (zlen A + Z.of_nat n) /\
    (if negb (p =? 0) then v ← rd (tab r) (zlen A); t ← wr (tab r) (zlen A) (Z.land v (limb_mask lg p (LIMB_BITS - 1))); Some (t, zlen A)
     else Some (tab r, zlen A)) = Some (t, zlen A).
Proof using Hlg.
  intros HS Hpos Hp Ht. destruct S as [|v S]; [cbn [Limb.val] in Hpos; rewrite Z.div_0_l in Hpos by lia; lia|].
  pose proof HS as HS'. unfold Limb.limbs_ok in HS'. rewrite Forall_cons in HS'. destruct HS' as [Hv HS'].
  set (S1 := v / 2 ^ p * 2 ^ p :: S). assert (limbs_ok S1) as O1 by (constructor; [by apply floor_limb; [|lia]|done]).
  assert (val S1 = val (v :: S) / 2 ^ p * 2 ^ p) as V1 by (by apply val_mask).
  destruct (skip_zeros_spec S1 G (zlen A) O1 ltac:(lia)) as (n & x & R & ES & Hx & Hskip).
  exists n, x, R, (A ++ S1 ++ G). split; [done|]. split; [done|]. rewrite ES in O1, V1. apply limbs_ok_app in O1 as [_ OR]. split; [done|].
  split; [apply (f_equal zlen) in ES; rewrite zlen_app, zlen_replicate in ES; change (zlen (v :: S)) with (zlen S1); lia|].
  split; [rewrite <- V1, val_app, val_zeros, zlen_replicate by done; lia|]. split; [by rewrite ES|].
  split; [replace (Z.to_nat (zlen A)) with (length A) by (unfold zlen; lia); by rewrite drop_app_length|].
  rewrite Ht. destruct (p =? 0) eqn:E; zbool; cbn [negb].
  - subst p. unfold S1. by rewrite Z.pow_0_r, Z.div_1_r, Z.mul_1_r.
  - cbn [app]. rewrite (rd_mid A (S ++ G) v) by done. cbn [mbind option_bind]. rewrite wr_upd, (upd_mid A (S ++ G) v) by (done || (rewrite zlen_app, zlen_cons; pose proof (zlen_nonneg A); pose proof (zlen_nonneg (S ++ G)); lia)).
    rewrite mask_limb by done. done.
Qed.

(** Rounding down a normalised array to a multiple of [2^s] keeps its top bit. *)
Lemma floor_top T s : normal T -> s < zlen T * LIMB_BITS -> Base ^ zlen T <= 2 * (val T / den s * den s).
Proof using Hlg.
  intros (Hok & Hl & Htop) Hs. rewrite (Base_pow lg Hlg) in * by lia. set (N := zlen T * LIMB_BITS) in *.
  assert (1 <= N) by (pose proof (LIMB_BITS_ge lg Hlg); unfold N; nia).
  assert (2 ^ N = 2 * (2 ^ (N - 1 - Z.max 0 s) * den s)) as E
    by (unfold den; rewrite <- Z.pow_add_r by lia; rewrite <- Z.pow_succ_r by lia; f_equal; lia).
  rewrite E. assert (2 ^ (N - 1 - Z.max 0 s) <= val T / den s) as HQ by (apply Z.div_le_lower_bound; [apply den_pos|lia]).
  pose proof (Z.mul_le_mono_nonneg_r _ _ (den s) ltac:(pose proof (den_pos s); lia) HQ). lia.
Qed.

Lemma normal_shrink t n K : limbs_ok t -> 0 < zlen t -> 0 <= n -> Base ^ (n + zlen t) <= 2 * K -> K = Base ^ n * val t -> normal t.
Proof using Hlg.
  intros Hok Hl Hn HK ->. split; [done|]. split; [done|]. rewrite Z.pow_add_r in HK by lia. pose proof (Limb.pow_pos lg Hlg n Hn).
  apply (Z.mul_le_mono_pos_l _ _ (Base ^ n)); lia.
Qed.

Lemma round_trim_spec r T G prec : tab r = T ++ G -> normal T -> zlen T * LIMB_BITS < EXP_BOUND -> 0 < prec < 2 * EXP_BOUND - 1 ->
  let s := zlen T * LIMB_BITS - prec in
  exists t, round_trim r (zlen T) prec = Some (set_tab r t) /\ normal t /\ hd 0 t <> 0 /\ zlen t <= zlen T /\
    val t * Base ^ (zlen T - zlen t) = val T / den s * den s.
Proof using Hlg Hlg2 HR.
  intros Ht HT HN Hp. cbv zeta. pose proof HT as (Hok & Hl & _). destruct (exp_bounds lg Hlg2) as (B1 & _). pose proof (LIMB_BITS_ge4 lg Hlg2).
  unfold round_trim. rewrite (slimb_id (prec - 1)), slimb_id by lia.
  replace (_ - 1 - (prec - 1)) with (zlen T * LIMB_BITS - prec) by lia. set (s := zlen T * LIMB_BITS - prec) in *.
  pose proof (floor_top T s HT ltac:(lia)) as Htop. pose proof (Limb.pow_pos lg Hlg (zlen T) ltac:(lia)) as PT.
  assert (forall A S p, T = A ++ S -> limbs_ok S -> 0 <= p < LIMB_BITS -> val T / den s * den s = Base ^ zlen A * (val S / 2 ^ p * 2 ^ p) ->
    exists n x R t, S <> [] /\ x <> 0 /\ limbs_ok (x :: R) /\ Z.of_nat n + zlen (x :: R) = zlen S /\
    val S / 2 ^ p * 2 ^ p = Base ^ Z.of_nat n * val (x :: R) /\ t = A ++ (replicate n 0 ++ x :: R) ++ G /\
    skip_zeros (drop (Z.to_nat (zlen A)) t) (zlen A) = Some (zlen A + Z.of_nat n) /\
    (if negb (p =? 0) then v ← rd (tab r) (zlen A); t ← wr (tab r) (zlen A) (Z.land v (limb_mask lg p (LIMB_BITS - 1))); Some (t, zlen A)
     else Some (tab r, zlen A)) = Some (t, zlen A) /\ 
    normal (x :: R) /\ zlen (x :: R) <= zlen T /\ val (x :: R) * Base ^ (zlen T - zlen (x :: R)) = val T / den s * den s) as Hseg.
  { intros A S p ET OS Hpp EV. rewrite EV in Htop |- *. pose proof (Limb.pow_pos lg Hlg (zlen A) (zlen_nonneg A)).
    assert (0 <= val S / 2 ^ p * 2 ^ p) by (apply Z.mul_nonneg_nonneg; [apply Z.div_pos; [by destruct (val_range lg Hlg S OS)|lia]|lia]).
    destruct (round_trim_seg r A S G p OS) as (n & x & R & t & HS & Hx & OR & HL & HV & Et & Hsk & Hstep); [|done|by rewrite Ht, ET, <- app_assoc|].
    { destruct (decide (val S / 2 ^ p * 2 ^ p = 0)) as [E0|E0]; [rewrite E0 in Htop; lia|lia]. }
    exists n, x, R, t. do 8 (split; [done|]). subst T. rewrite zlen_app in Htop |- *. pose proof (zlen_nonneg A). pose proof (zlen_nonneg (x :: R)).
    rewrite HV in Htop |- *. replace (zlen A + zlen S - zlen (x :: R)) with (zlen A + Z.of_nat n) by lia.
    rewrite (Z.pow_add_r Base (zlen A) (Z.of_nat n)) by lia. split; [|split; [lia|ring]].
    apply (normal_shrink (x :: R) (zlen A + Z.of_nat n) (Base ^ zlen A * (Base ^ Z.of_nat n * val (x :: R)))); [done|rewrite zlen_cons; pose proof (zlen_nonneg R); lia|lia| |].
    - by replace (zlen A + Z.of_nat n + zlen (x :: R)) with (zlen A + zlen S) by lia.
    - rewrite Z.pow_add_r by lia. ring. }
  destruct (pos_split lg Hlg s) as [-> ->]. destruct (decide (0 <= s)) as [Hs|Hs].
  - destruct (split_at_bit T s Hok ltac:(lia)) as (A & S & ET & EA & HS & OA & OS & Hm & E2 & Ev & _). rewrite <- EA.
    replace (zlen A >=? 0) with true by (pose proof (zlen_nonneg A); lia).
    destruct (Hseg A S (s mod LIMB_BITS) ET OS Hm) as (n & x & R & t & _ & Hx & OR & HL & _ & Et & Hsk & -> & Hn & Hle & HV).
    { unfold den. rewrite Z.max_r, Ev, E2 by lia. ring. }
    cbn [mbind option_bind]. rewrite Hsk. cbn [mbind option_bind]. exists (x :: R). split; [|done].
    rewrite Et. apply trim_move. rewrite ET, zlen_app. lia.
  - assert (s / LIMB_BITS < 0) by (apply Z.div_lt_upper_bound; lia). replace (s / LIMB_BITS >=? 0) with false by lia.
    destruct (Hseg [] T 0 eq_refl Hok ltac:(lia)) as (n & x & R & t & _ & Hx & OR & HL & _ & Et & Hsk & Hst & Hn & Hle & HV).
    { unfold den. rewrite Z.max_l by lia. change (zlen (@nil Z)) with 0. rewrite !Z.pow_0_r. ring. }
    cbn [Z.eqb negb] in Hst. injection Hst as Hst. change (zlen (@nil Z)) with 0 in *. cbn [mbind option_bind]. rewrite Hst, Hsk.
    cbn [mbind option_bind]. exists (x :: R). split; [|done]. rewrite Et. apply (trim_move r [] n x R G). change (zlen (@nil Z)) with 0. lia.
Qed.

(** ** The result of a rounding *)

(** At least [BF_EXP_BITS_MIN] exponent bits and a defined rounding mode. *)
Definition flags_ok (flags : Z) : Prop := 0 <= flags /\ 3 <= bf_get_exp_bits lg flags /\ Z.land flags BF_RND_MASK <> 7.

Definition e_max_of (flags : Z) : Z := 2 ^ (bf_get_exp_bits lg flags - 1).
Definition e_min_of (flags : Z) : Z := 3 - e_max_of flags.

(** The finite number [(-1)^sgn * x], in its canonical representation. *)
Definition is_number (r : bf_t) (sgn : Z) (x : Q) : Prop :=
  bf_finite lg r /\ canonical r /\ sign r = sgn /\ (mag r == x)%Q.

(** The result of an overflow: infinity, or the largest number of the
    precision when the mode rounds towards zero; this number needs limbs, which
    the allocator may refuse. *)
Definition overflow_result (flags prec1 sgn ret : Z) (r : bf_t) : Prop :=
  let mode := Z.land flags BF_RND_MASK in
  if (prec1 =? BF_PREC_INF) || (mode =? BF_RNDN) || (mode =? BF_RNDNA) || (mode =? BF_RNDA) ||
     ((mode =? BF_RNDD) && (sgn =? 1)) || ((mode =? BF_RNDU) && (sgn =? 0))
  then ret = BF_ST_OVERFLOW + BF_ST_INEXACT /\ r = Bf sgn (BF_EXP_INF lg) []
  else (ret = BF_ST_OVERFLOW + BF_ST_INEXACT /\ is_number r sgn (qz (2 ^ prec1 - 1) * q2 (e_max_of flags - prec1))) \/
       (ret = BF_ST_MEM_ERROR /\ r = Bf 0 (BF_EXP_NAN lg) [] /\ bf_refuses bf_realloc).

Lemma e_max_bounds flags : flags_ok flags -> 4 <= e_max_of flags /\ 2 * e_max_of flags <= EXP_BOUND /\
  slimb (limb (Z.shiftl 1 (bf_get_exp_bits lg flags - 1))) = e_max_of flags.
Proof using Hlg2.
  intros (Hf & He & _). pose proof (LIMB_BITS_ge4 lg Hlg2). destruct (exp_bounds lg Hlg2) as (B1 & B2 & B3).
  assert (bf_get_exp_bits lg flags <= LIMB_BITS - 2) as He2.
  { unfold bf_get_exp_bits, BF_EXP_BITS_MAX. assert (0 <= Z.land (Z.shiftr flags 5) 63) by (apply Z.land_nonneg; right; lia).
    destruct (_ =? 63); lia. }
  unfold e_max_of. rewrite Z.shiftl_1_l. set (k := bf_get_exp_bits lg flags) in *.
  assert (4 <= 2 ^ (k - 1)) by (change 4 with (2 ^ 2); apply Z.pow_le_mono_r; lia).
  assert (2 * 2 ^ (k - 1) <= EXP_BOUND) by (unfold BfNum.EXP_BOUND; rewrite <- Z.pow_succ_r by lia; apply Z.pow_le_mono_r; lia).
  split; [done|]. split; [done|]. rewrite limb_id by (unfold Limb.limb_ok; lia). apply slimb_id. lia.
Qed.

Lemma val_ones n : val (replicate n (Base - 1)) = Base ^ Z.of_nat n - 1.
Proof using Hlg.
  induction n as [|n IH]; [by rewrite Z.pow_0_r|]. cbn [replicate Limb.val]. rewrite IH, Nat2Z.inj_succ, Z.pow_succ_r by lia. lia.
Qed.

(** The mantissa of the largest number of [prec] bits. *)
Lemma max_mantissa prec l : 1 <= prec -> l = (prec + LIMB_BITS - 1) / LIMB_BITS ->
  let t := limb_mask lg ((- prec) mod LIMB_BITS) (LIMB_BITS - 1) :: replicate (Z.to_nat (l - 1)) (Base - 1) in
  1 <= l /\ zlen t = l /\ normal t /\ hd 0 t <> 0 /\ 0 <= l * LIMB_BITS - prec /\ val t = (2 ^ prec - 1) * 2 ^ (l * LIMB_BITS - prec).
Proof using Hlg Hlg2.
  intros Hp Hl t. pose proof (LIMB_BITS_ge4 lg Hlg2). pose proof (Base_ge lg Hlg).
  assert (prec <= l * LIMB_BITS <= prec + LIMB_BITS - 1) as Hlp by (subst l; Z.div_mod_to_equations; lia).
  assert (1 <= l) as H1 by nia. assert ((- prec) mod LIMB_BITS = l * LIMB_BITS - prec) as Hmod
    by (symmetry; apply (Zmod_unique _ _ (- l)); lia).
  unfold t. rewrite Hmod, limb_mask_spec by (done || lia). set (k := l * LIMB_BITS - prec) in *.
  replace (LIMB_BITS - 1 - k + 1) with (LIMB_BITS - k) by lia.
  assert (zlen (((2 ^ (LIMB_BITS - k) - 1) * 2 ^ k) :: replicate (Z.to_nat (l - 1)) (Base - 1)) = l) as Hz by (rewrite zlen_cons, zlen_replicate; lia).
  assert (Base = 2 ^ (LIMB_BITS - k) * 2 ^ k) as HB by (unfold Limb.Base; rewrite <- Z.pow_add_r by lia; f_equal; lia).
  pose proof (Z.pow_pos_nonneg 2 k ltac:(lia) ltac:(lia)). assert (2 <= 2 ^ (LIMB_BITS - k)) by (change 2 with (2 ^ 1) at 1; apply Z.pow_le_mono_r; lia).
  assert (Base ^ l = 2 ^ prec * 2 ^ k) as HBl by (rewrite (Base_pow lg Hlg), <- Z.pow_add_r by lia; f_equal; lia).
  assert (val (((2 ^ (LIMB_BITS - k) - 1) * 2 ^ k) :: replicate (Z.to_nat (l - 1)) (Base - 1)) = (2 ^ prec - 1) * 2 ^ k) as Hv.
  { cbn [Limb.val]. rewrite val_ones. replace (Z.of_nat _) with (l - 1) by lia.
    assert (Base * Base ^ (l - 1) = Base ^ l) by (rewrite <- Z.pow_succ_r by lia; f_equal; lia). lia. }
  split; [done|]. split; [done|]. assert (2 * 2 ^ (prec - 1) = 2 ^ prec) by (rewrite <- Z.pow_succ_r by lia; f_equal; lia).
  pose proof (Z.pow_pos_nonneg 2 (prec - 1) ltac:(lia) ltac:(lia)). split_and!; [| |lia|done].
  - split; [|rewrite Hz, Hv, HBl; split; [lia|nia]]. constructor; [unfold Limb.limb_ok; nia|]. apply Forall_replicate. unfold Limb.limb_ok. lia.
  - cbn [hd]. nia.
Qed.

Lemma LIMB_BITS_le_EXP_BOUND : LIMB_BITS <= EXP_BOUND.
Proof using Hlg2.
  unfold BfNum.EXP_BOUND. pose proof (LIMB_BITS_ge4 lg Hlg2). pose proof (Z.pow_gt_lin_r 2 (LIMB_BITS - 3) ltac:(lia) ltac:(lia)).
  replace (LIMB_BITS - 2) with (Z.succ (LIMB_BITS - 3)) by lia. rewrite Z.pow_succ_r by lia. lia.
Qed.

Lemma neg_prec_mod prec : Z.land (limb (- prec)) (LIMB_BITS - 1) = (- prec) mod LIMB_BITS.
Proof using Hlg.
  destruct (pos_split lg Hlg (limb (- prec))) as [_ ->]. unfold Limb.limb, Limb.Base.
  assert (lg < LIMB_BITS) by (unfold Limb.LIMB_BITS; apply Z.pow_gt_lin_r; lia).
  apply Z.mod_mod_divide. exists (2 ^ (LIMB_BITS - lg)).
  unfold Limb.LIMB_BITS at 3. rewrite <- Z.pow_add_r by lia. f_equal. lia.
Qed.

Lemma limb_minus_1 : limb (-1) = Base - 1.
Proof using Hlg. pose proof (Base_ge lg Hlg). symmetry. apply (Zmod_unique _ _ (-1)); lia. Qed.

Lemma bf_set_overflow_spec r sgn prec1 flags : flags_ok flags -> 1 <= prec1 <= BF_PREC_INF -> sgn = 0 \/ sgn = 1 ->
  wp (bf_set_overflow r sgn prec1 flags) (fun '(ret, r') => overflow_result flags prec1 sgn ret r').
Proof using Hlg Hlg2 HR.
  intros Hf Hp Hsg. unfold bf_set_overflow, overflow_result. destruct (_ || _) eqn:E; [split; [done|]; by rewrite bf_set_inf_eq|]. clear E.
  destruct (exp_bounds lg Hlg2) as (B1 & B2 & B3). pose proof (LIMB_BITS_ge4 lg Hlg2). destruct (e_max_bounds flags Hf) as (M1 & M2 & ->).
  assert (BF_PREC_INF = EXP_BOUND - 1) as HI by (unfold BfNum.BF_PREC_INF, BF_PREC_MAX, BfNum.EXP_BOUND; lia).
  pose proof LIMB_BITS_le_EXP_BOUND as HLE. rewrite (limb_id lg (prec1 + _ - 1)) by (unfold Limb.limb_ok; lia).
  assert (0 <= (prec1 + LIMB_BITS - 1) / LIMB_BITS < 2 * EXP_BOUND) as Hlr
    by (split; [apply Z.div_pos; lia|apply Z.div_lt_upper_bound; [lia|]; nia]).
  rewrite slimb_id by lia. set (l := (prec1 + LIMB_BITS - 1) / LIMB_BITS) in *.
  destruct (max_mantissa prec1 l ltac:(lia) eq_refl) as (Hl1 & Hz & Hn & Hh & Hk & Hv). rewrite neg_prec_mod.
  set (m := limb_mask lg _ _) in *.
  destruct (bf_resize_nz bf_realloc HR r l ltac:(lia)) as (err & r' & -> & _ & _ & [(-> & Hl)|(-> & _ & _ & Hoom)]); cbn [Z.eqb negb].
  2:{ right. split; [done|]. by rewrite bf_set_nan_eq. }
  destruct (tab r') as [|x rest] eqn:Et; [change (zlen (@nil Z)) with 0 in Hl; lia|].
  rewrite wr_upd by lia. change (upd (x :: rest) 0 m) with (m :: rest). cbn [mbind option_bind].
  rewrite zlen_cons in Hl. replace (m :: rest) with ([m] ++ rest) by done. rewrite limb_minus_1, splice_tail by (done || (rewrite zlen_replicate; lia)).
  cbn [mbind option_bind wp]. left. split; [done|]. change ([m] ++ ?x) with (m :: x). unfold is_number.
  split; [split; [done|]; split; [done|]; cbn [expn]; lia|]. split; [by right|]. split; [done|].
  unfold BfNum.mag. cbn [tab expn]. rewrite Hv, Hz, qz_mult, <- Qmult_assoc, <- q2_Z, <- q2_plus by done.
  by replace (l * LIMB_BITS - prec1 + (e_max_of flags - l * LIMB_BITS)) with (e_max_of flags - prec1) by lia.
Qed.

(** The precision of the result for a number of exponent [e]. *)
Definition eff_prec (e prec1 flags : Z) : Z :=
  if has_flag flags BF_FLAG_RADPNT_PREC then (if prec1 =? BF_PREC_INF then prec1 else e + prec1)
  else if (e <? e_min_of flags) && has_flag flags BF_FLAG_SUBNORMAL then prec1 - (e_min_of flags - e)
  else prec1.

(** [r] and [ret'] are the result and the status of rounding the number
    [(-1)^sgn * x], of exponent [e] ([2^(e-1) <= x < 2^e]), with the status [ret]
    so far: [x] is scaled to [prec] bits, rounded to the integer [q] in the mode
    of [flags], and scaled back. *)
Definition round_result (flags prec1 sgn e : Z) (x : Q) (ret ret' : Z) (r : bf_t) : Prop :=
  let mode := Z.land flags BF_RND_MASK in
  let prec := eff_prec e prec1 flags in
  exists q, rounds mode sgn (x * q2 (prec - e)) q /\
  let st := if (mode =? BF_RNDF) || negb (Qeq_bool (x * q2 (prec - e)) (qz q)) then Z.lor ret BF_ST_INEXACT else ret in
  let tiny := Z.lor st (Z.lor BF_ST_UNDERFLOW BF_ST_INEXACT) in
  let e' := if q =? 2 ^ prec then e + 1 else e in
  if prec <=? 0 then
    ret' = tiny /\ (if q =? 0 then r = Bf sgn (BF_EXP_ZERO lg) [] else is_number r sgn (qz q * q2 (e - prec)))
  else if (e' <? e_min_of flags) && negb (has_flag flags BF_FLAG_SUBNORMAL) then ret' = tiny /\ r = Bf sgn (BF_EXP_ZERO lg) []
  else if e' >? e_max_of flags then overflow_result flags prec1 sgn ret' r
  else
    ret' = (if (e' <? e_min_of flags) && has_flag st BF_ST_INEXACT then Z.lor st BF_ST_UNDERFLOW else st) /\
    is_number r sgn (qz q * q2 (e - prec)).

(** What the callers ensure. *)
Definition round_pre (sgn e prec1 flags : Z) : Prop :=
  (sgn = 0 \/ sgn = 1) /\ - EXP_BOUND < e < EXP_BOUND /\ flags_ok flags /\ 0 <= prec1 <= BF_PREC_INF /\
  (prec1 = 0 -> e < e_max_of flags) /\
  (prec1 = BF_PREC_INF -> has_flag flags BF_FLAG_SUBNORMAL = true -> e_min_of flags <= e).

Lemma PREC_INF_eq : BF_PREC_INF = EXP_BOUND - 1.
Proof using . unfold BfNum.BF_PREC_INF, BF_PREC_MAX, BfNum.EXP_BOUND. lia. Qed.

Lemma eff_prec_bounds sgn e prec1 flags : round_pre sgn e prec1 flags ->
  let prec := eff_prec e prec1 flags in
  - EXP_BOUND < prec < 2 * EXP_BOUND - 1 /\ (prec <= 0 -> e + 1 <= e + (1 - prec) < EXP_BOUND) /\ (0 < prec -> 0 < prec1 \/ e < e_max_of flags).
Proof using Hlg2.
  intros (_ & He & Hf & Hp & H0 & H1). cbv zeta. destruct (e_max_bounds flags Hf) as (M1 & M2 & _). destruct (exp_bounds lg Hlg2) as (B1 & _).
  pose proof PREC_INF_eq. unfold eff_prec. unfold e_min_of in *.
  destruct (has_flag flags BF_FLAG_RADPNT_PREC); [destruct (prec1 =? BF_PREC_INF) eqn:E; zbool; lia|].
  destruct (e <? 3 - e_max_of flags) eqn:E; cbn [andb]; [|lia]. destruct (has_flag flags BF_FLAG_SUBNORMAL); zbool; lia.
Qed.

Lemma round_prec_spec r prec1 flags : round_pre (sign r) (expn r) prec1 flags ->
  round_prec r prec1 flags (slimb (- e_max_of flags + 3)) = Some (eff_prec (expn r) prec1 flags).
Proof using Hlg2.
  intros (_ & He & Hf & Hp & H0 & H1). destruct (e_max_bounds flags Hf) as (M1 & M2 & _). destruct (exp_bounds lg Hlg2) as (B1 & _).
  pose proof PREC_INF_eq. unfold round_prec, eff_prec. rewrite (slimb_id (- e_max_of flags + 3)) by lia.
  replace (- e_max_of flags + 3) with (e_min_of flags) by (unfold e_min_of; lia).
  destruct (has_flag flags BF_FLAG_RADPNT_PREC).
  { rewrite slimb_id by lia. by destruct (prec1 =? BF_PREC_INF). }
  destruct (expn r <? e_min_of flags) eqn:E; cbn [andb]; [|done]. destruct (has_flag flags BF_FLAG_SUBNORMAL); [|done].
  zbool. unfold e_min_of in *. destruct (prec1 =? BF_PREC_INF) eqn:E1; zbool; [lia|]. rewrite (slimb_id (_ - expn r)), slimb_id by lia. done.
Qed.

(** The rounded integer, from the array. *)
Lemma rounded_integer mode sgn M s : 0 <= mode <= 6 ->
  let rem := num M s mod den s in
  let up := round_up mode sgn (num M s / den s) rem (den s) in
  let x := (qz M * q2 (- s))%Q in
  rounds mode sgn x (num M s / den s + Zb up) /\
  Qeq_bool x (qz (num M s / den s + Zb up)) = (rem =? 0) /\ (up = true -> rem <> 0).
Proof using .
  intros Hm. cbv zeta. pose proof (num_den M s) as Hx. pose proof (den_pos s) as Hd.
  split; [by apply rounds_round_up|]. set (rem := num M s mod den s). pose proof (Z.mod_pos_bound (num M s) (den s) Hd) as Hr. fold rem in Hr.
  pose proof (Z.div_mod (num M s) (den s) ltac:(lia)) as Hdm. fold rem in Hdm. set (up := round_up _ _ _ _ _).
  assert (rem = 0 -> up = false) as Hup.
  { intros E. unfold up, round_up. rewrite E. replace (den s <? 2 * 0) with false by lia. replace (2 * 0 =? den s) with false by lia.
    replace (den s <=? 2 * 0) with false by lia. cbn [negb andb orb Z.eqb]. rewrite !andb_false_r. repeat case_match; done. }
  split; [|intros E F; rewrite Hup in E by done; done].
  destruct (rem =? 0) eqn:E; zbool.
  - rewrite Hup by done. cbn [Zb]. apply Qeq_bool_iff. apply (frac_eq _ _ _ Hd Hx). lia.
  - destruct (Qeq_bool _ _) eqn:F; [|done]. apply Qeq_bool_iff in F. apply (frac_eq _ _ _ Hd Hx) in F. exfalso. unfold Zb in F. destruct up; nia.
Qed.

Lemma floor_bound T prec : limbs_ok T -> 0 < prec -> let s := zlen T * LIMB_BITS - prec in num (val T) s / den s < 2 ^ prec.
Proof using Hlg Hlg2.
  intros Hok Hp s. pose proof (val_range lg Hlg T Hok) as R. pose proof (zlen_nonneg T). pose proof (LIMB_BITS_ge4 lg Hlg2).
  rewrite (Base_pow lg Hlg) in R by done. apply Z.div_lt_upper_bound; [apply den_pos|]. unfold num, den.
  rewrite <- Z.pow_add_r by lia.
  replace (Z.max 0 s + prec) with (zlen T * LIMB_BITS + Z.max 0 (- s)) by (unfold s; lia).
  rewrite Z.pow_add_r by nia. apply Z.mul_lt_mono_pos_r; lia.
Qed.

(** The number after the increment, before the low bits are dropped. *)
Lemma incremented r T G prec mode : tab r = T ++ G -> normal T -> zlen T * LIMB_BITS < EXP_BOUND -> 0 < prec ->
  - EXP_BOUND < expn r < EXP_BOUND -> 0 <= mode <= 6 ->
  let s := zlen T * LIMB_BITS - prec in
  let up := round_up mode (sign r) (num (val T) s / den s) (num (val T) s mod den s) (den s) in
  let q := num (val T) s / den s + Zb up in
  exists T1 e1, (if negb (Zb up =? 0) then round_incr r (zlen T) prec else Some r) = Some (Bf (sign r) e1 (T1 ++ G)) /\
    normal T1 /\ zlen T1 = zlen T /\ e1 = (if q =? 2 ^ prec then expn r + 1 else expn r) /\
    (qz (val T1 / den s * den s) * q2 (e1 - expn r) == qz q * q2 s)%Q.
Proof using Hlg Hlg2.
  intros Ht HT HN Hp He Hm. cbv zeta. destruct (rounded_integer mode (sign r) (val T) (zlen T * LIMB_BITS - prec) Hm) as (_ & _ & Hup).
  pose proof (floor_bound T prec ltac:(apply HT) Hp) as Hb. cbv zeta in Hb.
  set (s := zlen T * LIMB_BITS - prec) in *. destruct (round_up _ _ _ _ _); cbn [Zb Z.eqb negb].
  - specialize (Hup eq_refl). assert (1 <= s) as Hs.
    { destruct (decide (1 <= s)); [done|]. exfalso. apply Hup. unfold den. rewrite Z.max_l by lia. by rewrite Z.pow_0_r, Z.mod_1_r. }
    destruct (round_incr_spec r T G prec Ht HT HN Hp He Hs) as (T1 & e1 & -> & HT1 & Hz & Hcase). fold s in Hcase.
    exists T1, e1. split; [done|]. split; [done|]. split; [done|]. destruct (num_den_pos (val T) s ltac:(lia)) as [-> ->].
    destruct Hcase as [(-> & -> & Hlt)|(-> & -> & Heq)].
    + replace (_ =? 2 ^ prec) with false by lia. split; [done|]. rewrite qz_mult, <- (q2_Z s), Z.sub_diag, q2_0 by lia. ring.
    + replace (_ =? 2 ^ prec) with true by lia. split; [done|]. rewrite Heq, !qz_mult, <- !q2_Z by lia.
      replace (expn r + 1 - expn r) with 1 by lia. replace prec with (prec - 1 + 1) at 2 by lia. rewrite (q2_plus (prec - 1) 1). ring.
  - exists T, (expn r). rewrite Z.add_0_r. split; [by destruct r; cbn in *; subst|]. split; [done|]. split; [done|].
    replace (_ =? 2 ^ prec) with false by lia. split; [done|]. rewrite Z.sub_diag, q2_0, Qmult_1_r.
    destruct (decide (0 <= s)).
    + destruct (num_den_pos (val T) s ltac:(lia)) as [-> ->]. rewrite qz_mult, <- q2_Z by lia. reflexivity.
    + destruct (num_den_neg (val T) s ltac:(lia)) as [-> ->]. rewrite !Z.div_1_r, Z.mul_1_r, qz_mult, <- q2_Z by lia.
      rewrite <- Qmult_assoc, <- q2_plus, Z.add_opp_diag_l, q2_0. ring.
Qed.

(** The smallest number of the precision, when nothing is left above it. *)
Lemma round_to_one r T G prec (st : Z) : tab r = T ++ G -> 0 < zlen T -> sign r = 0 \/ sign r = 1 -> - EXP_BOUND < expn r + (1 - prec) < EXP_BOUND ->
  wp (let '(_, r) := bf_resize r 1 in
      t ← wr (tab r) 0 (limb (Z.shiftl 1 (LIMB_BITS - 1)));
      Some (st, Bf (sign r) (slimb (expn r + (1 - prec))) t)) (fun '(ret', r') => ret' = st /\ is_number r' (sign r) (qz 1 * q2 (expn r - prec))).
Proof using Hlg Hlg2 HR.
  intros Ht Hl Hsg He. pose proof (LIMB_BITS_ge4 lg Hlg2). destruct T as [|x T]; [done|].
  rewrite (bf_resize_shrink bf_realloc HR r [x] (T ++ G) 1) by done. cbn [set_tab tab sign expn]. change (wr [x] 0 ?v) with (Some [v]). cbn [mbind option_bind wp].
  rewrite slimb_id by lia. rewrite Z.shiftl_1_l. assert (Base = 2 * 2 ^ (LIMB_BITS - 1)) as HB by (unfold Limb.Base; rewrite <- Z.pow_succ_r by lia; f_equal; lia).
  assert (limb_ok (2 ^ (LIMB_BITS - 1))) as Hok by (unfold Limb.limb_ok; lia). rewrite limb_id by done.
  split; [done|]. split; [split; [done|]; split; [apply single_limb_normal; [done|lia]|done]|]. split; [right; cbn [hd tab]; lia|]. split; [done|].
  rewrite single_limb_mag, <- q2_Z, <- q2_plus by lia. change (qz 1) with 1%Q. rewrite Qmult_1_l.
  by replace (LIMB_BITS - 1 + (expn r + (1 - prec) - LIMB_BITS)) with (expn r - prec) by lia.
Qed.

(** A trimmed array, as a number. *)
Lemma trimmed_number T1 t sgn e e1 prec q : sgn = 0 \/ sgn = 1 -> - EXP_BOUND < e1 < EXP_BOUND -> normal t -> hd 0 t <> 0 -> zlen t <= zlen T1 ->
  let s := zlen T1 * LIMB_BITS - prec in
  val t * Base ^ (zlen T1 - zlen t) = val T1 / den s * den s ->
  (qz (val T1 / den s * den s) * q2 (e1 - e) == qz q * q2 s)%Q ->
  is_number (Bf sgn e1 t) sgn (qz q * q2 (e - prec)).
Proof using Hlg.
  intros Hsg He Hn Hh Hl s Hv Hq. split; [by split|]. split; [by right|]. split; [done|]. pose proof (LIMB_BITS_ge lg Hlg).
  unfold BfNum.mag. cbn [tab expn]. rewrite <- Hv, (Base_pow lg Hlg), qz_mult, <- q2_Z in Hq by nia.
  replace (e1 - zlen t * LIMB_BITS) with ((zlen T1 - zlen t) * LIMB_BITS + (e1 - e) + (e - zlen T1 * LIMB_BITS)) by lia.
  rewrite !q2_plus, !Qmult_assoc, Hq. rewrite <- Qmult_assoc, <- q2_plus. by replace (s + _) with (e - prec) by (unfold s; lia).
Qed.

Lemma mode_range flags : flags_ok flags -> 0 <= Z.land flags BF_RND_MASK <= 6.
Proof using .
  intros (_ & _ & Hne). assert (0 <= Z.land flags BF_RND_MASK < 8); [|lia]. unfold BF_RND_MASK. change 7 with (2 ^ 3 - 1).
  rewrite land_mod by lia. by apply Z.mod_pos_bound.
Qed.

(** Below the precision there is nothing to keep. *)
Lemma floor_zero T prec : limbs_ok T -> prec <= 0 -> num (val T) (zlen T * LIMB_BITS - prec) / den (zlen T * LIMB_BITS - prec) = 0.
Proof using Hlg.
  intros Hok Hp. pose proof (val_range lg Hlg T Hok) as R. rewrite (Base_pow lg Hlg) in R by apply zlen_nonneg.
  pose proof (LIMB_BITS_ge lg Hlg). pose proof (zlen_nonneg T).
  destruct (num_den_pos (val T) (zlen T * LIMB_BITS - prec) ltac:(nia)) as [-> ->]. apply Z.div_small. split; [lia|].
  eapply Z.lt_le_trans; [apply R|]. apply Z.pow_le_mono_r; lia.
Qed.

(** [__bf_round]: the [l] limbs [T] hold the mantissa. *)
Lemma bf_round_core_spec r T G prec1 flags ret : tab r = T ++ G -> normal T -> zlen T * LIMB_BITS < EXP_BOUND ->
  round_pre (sign r) (expn r) prec1 flags ->
  wp (bf_round_core r prec1 flags (zlen T) ret) (fun '(ret', r') =>
    round_result flags prec1 (sign r) (expn r) (qz (val T) * q2 (expn r - zlen T * LIMB_BITS)) ret ret' r').
Proof using Hlg Hlg2 HR.
  intros Ht HT HN Hpre. pose proof Hpre as (Hsg & He & Hf & Hp1 & _). pose proof HT as (Hok & Hl & _).
  destruct (e_max_bounds flags Hf) as (M1 & M2 & EM). destruct (exp_bounds lg Hlg2) as (B1 & _). pose proof (mode_range flags Hf) as Hm.
  destruct (eff_prec_bounds _ _ _ _ Hpre) as (Hpb & Hp0 & Hpp). pose proof (round_prec_spec r prec1 flags Hpre) as HP.
  unfold bf_round_core. rewrite EM, HP. cbn [mbind option_bind]. rewrite (slimb_id (- _ + 3)) by lia.
  replace (- e_max_of flags + 3) with (e_min_of flags) by (unfold e_min_of; lia). unfold round_result.
  set (mode := Z.land flags BF_RND_MASK) in *. set (prec := eff_prec (expn r) prec1 flags) in *.
  rewrite (bf_get_rnd_add_spec ret r T G prec mode) by done. cbn [mbind option_bind].
  destruct (rounded_integer mode (sign r) (val T) (zlen T * LIMB_BITS - prec) Hm) as (Hround & Hexact & _).
  assert (qz (val T) * q2 (expn r - zlen T * LIMB_BITS) * q2 (prec - expn r) == qz (val T) * q2 (- (zlen T * LIMB_BITS - prec)))%Q as Hx
    by (rewrite <- Qmult_assoc, <- q2_plus; by replace (expn r - _ + _) with (- (zlen T * LIMB_BITS - prec)) by lia).
  rewrite <- Hx in Hround, Hexact. rewrite <- Hexact.
  pose proof (floor_zero T prec Hok) as Hz. pose proof (incremented r T G prec mode Ht HT HN) as Hinc.
  set (q := num _ _ / _ + Zb _) in *. cbv zeta in Hinc. fold q in Hinc. set (up := round_up _ _ _ _ _) in *.
  set (st := if _ || _ then _ else ret) in *. destruct (prec <=? 0) eqn:Ep; zbool.
  - assert (q = Zb up) as Eq by (unfold q; by rewrite Hz). clear Hinc Hexact. clearbody q up. subst q. destruct up; cbn [Zb Z.eqb negb] in *.
    + pose proof (round_to_one r T G prec (Z.lor st (Z.lor BF_ST_UNDERFLOW BF_ST_INEXACT)) Ht Hl Hsg ltac:(lia)) as H1.
      eapply wp_mono; [exact H1|]. intros [ret' r'] [-> Hr']. exists 1. by replace (prec <=? 0) with true by lia.
    + exists 0. replace (prec <=? 0) with true by lia. split; [done|]. split; [done|]. cbn [Z.eqb]. apply bf_set_zero_eq, HR.
  - destruct (Hinc ltac:(lia) He Hm) as (T1 & e1 & -> & HT1 & Hz1 & He1 & Hq). cbn [mbind option_bind expn sign].
    assert (expn r <= e1 <= expn r + 1) as He1b by (rewrite He1; destruct (q =? 2 ^ prec); lia). rewrite He1.
    destruct ((_ <? e_min_of flags) && negb _) eqn:Eu.
    { exists q. replace (prec <=? 0) with false by lia. split; [done|]. rewrite Eu. split; [done|]. apply bf_set_zero_eq, HR. }
    destruct (_ >? e_max_of flags) eqn:Eo.
    { rewrite <- He1 in *. apply Z.gtb_lt in Eo. eapply wp_mono; [apply bf_set_overflow_spec; [done|lia|done]|]. intros [ret' r'] Hov. exists q.
      replace (prec <=? 0) with false by lia. split; [done|]. rewrite <- He1, Eu. by replace (e1 >? e_max_of flags) with true by lia. }
    rewrite <- He1 in *.
    destruct (round_trim_spec (Bf (sign r) e1 (T1 ++ G)) T1 G prec) as (t & Htr & Hn & Hh & Hle & Hv); [done|done|lia|lia|].
    rewrite Hz1 in Htr. rewrite Htr. cbn [mbind option_bind wp set_tab sign expn]. exists q. replace (prec <=? 0) with false by lia.
    split; [done|]. rewrite <- He1, Eu, Eo. split; [done|]. rewrite Z.gtb_ltb in Eo. apply Z.ltb_ge in Eo.
    apply (trimmed_number T1 t (sign r) (expn r) e1 prec q); [done|lia|done..|by rewrite Hz1].
Qed.

(** ** Normalisation *)

Lemma top_len_spec t : limbs_ok t -> forall G,
  exists T n, t = T ++ replicate n 0 /\ top_len (t ++ G) (length t) = Some (zlen T) /\
    (T = [] \/ exists A v, T = A ++ [v] /\ v <> 0).
Proof using .
  induction t as [|v t IH] using rev_ind; intros Hok G; [exists [], 0%nat; split_and!; (done || by left)|].
  apply limbs_ok_app in Hok as [Ht _]. rewrite length_app, Nat.add_1_r, <- app_assoc. cbn [top_len app].
  rewrite (rd_mid t G v) by done. cbn [mbind option_bind]. destruct (v =? 0) eqn:E; zbool.
  - subst v. destruct (IH Ht (0 :: G)) as (T & n & Et & Htop & HT). exists T, (S n). split; [|done].
    rewrite Et, <- app_assoc. f_equal. rewrite <- (replicate_cons_app n 0). done.
  - exists (t ++ [v]), 0%nat. cbn [replicate]. rewrite app_nil_r. split; [done|]. split; [|right; by exists t, v].
    f_equal. unfold zlen. rewrite length_app. cbn [length]. lia.
Qed.

Lemma norm_shl_spec t s : limbs_ok t -> 0 < s < LIMB_BITS -> forall v, limb_ok v ->
  limbs_ok (norm_shl t s v) /\ zlen (norm_shl t s v) = zlen t /\
  val (norm_shl t s v) + Base ^ zlen t * (List.last t v / 2 ^ (LIMB_BITS - s)) = val t * 2 ^ s + v / 2 ^ (LIMB_BITS - s).
Proof using Hlg Hlg2.
  intros Hok Hs. pose proof (Base_ge lg Hlg). induction Hok as [|a t Ha Ht IH]; intros v Hv.
  { cbn [norm_shl Limb.val List.last]. change (zlen (@nil Z)) with 0. rewrite Z.pow_0_r. split_and!; [by constructor|done|lia]. }
  destruct (IH a Ha) as (IH1 & IH2 & IH3). cbn [norm_shl].
  assert (Base = 2 ^ (LIMB_BITS - s) * 2 ^ s) as HB by (unfold Limb.Base; rewrite <- Z.pow_add_r by lia; f_equal; lia).
  pose proof (Z.pow_pos_nonneg 2 s ltac:(lia) ltac:(lia)). pose proof (Z.pow_pos_nonneg 2 (LIMB_BITS - s) ltac:(lia) ltac:(lia)).
  unfold Limb.limb_ok in Hv, Ha. assert (0 <= v / 2 ^ (LIMB_BITS - s) < 2 ^ s) as Hq
    by (split; [apply Z.div_pos; lia|apply Z.div_lt_upper_bound; [lia|]; rewrite <- HB; lia]).
  rewrite Z.shiftl_mul_pow2, Z.shiftr_div_pow2 by lia.
  assert (limb (a * 2 ^ s) = a mod 2 ^ (LIMB_BITS - s) * 2 ^ s) as -> by (unfold Limb.limb; rewrite HB; apply Z.mul_mod_distr_r; lia).
  rewrite lor_add' by (lia || done). pose proof (Z.mod_pos_bound a (2 ^ (LIMB_BITS - s)) ltac:(lia)).
  split; [constructor; [unfold Limb.limb_ok; rewrite HB; nia|done]|]. rewrite !zlen_cons, IH2. split; [done|].
  rewrite Z.pow_add_r, Z.pow_1_r by (pose proof (zlen_nonneg t); lia).
  replace (List.last (a :: t) v) with (List.last t a) by (clear; revert a; induction t as [|b t IH]; intros a; [done|]; cbn; by destruct t).
  cbn [Limb.val]. pose proof (Z.div_mod a (2 ^ (LIMB_BITS - s)) ltac:(lia)) as Hd.
  set (qa := a / 2 ^ (LIMB_BITS - s)) in *. set (ma := a mod 2 ^ (LIMB_BITS - s)) in *. clearbody qa ma.
  assert (a * 2 ^ s = Base * qa + ma * 2 ^ s) as Has by (rewrite Hd, HB; ring).
  set (X := val (norm_shl t s a)) in *. set (L := List.last t a / 2 ^ (LIMB_BITS - s)) in *. set (P := Base ^ zlen t) in *. clearbody X L P. 
  transitivity (ma * 2 ^ s + v / 2 ^ (LIMB_BITS - s) + Base * (X + P * L)); [ring|]. rewrite IH3.
  transitivity (a * 2 ^ s + Base * val t * 2 ^ s + v / 2 ^ (LIMB_BITS - s)); [rewrite Has|]; ring.
Qed.

(** The left shift that brings a non-zero top limb to the top. *)
Lemma norm_shl_normal A v : limbs_ok (A ++ [v]) -> v <> 0 ->
  let t := if negb (clz lg v =? 0) then norm_shl (A ++ [v]) (clz lg v) 0 else A ++ [v] in
  0 <= clz lg v < LIMB_BITS /\ normal t /\ zlen t = zlen A + 1 /\ val t = val (A ++ [v]) * 2 ^ clz lg v.
Proof using Hlg Hlg2.
  intros Hok Hv. pose proof Hok as Hok'. apply limbs_ok_app in Hok' as [OA OV]. apply Forall_inv in OV. pose proof (zlen_nonneg A).
  destruct (normalised_limb lg Hlg v) as (Hs & _ & Hl & HB); [unfold Limb.limb_ok in OV; lia|]. cbv zeta. split; [done|].
  assert (zlen (A ++ [v]) = zlen A + 1) as Hz by (rewrite zlen_app; done).
  set (t := if negb _ then _ else _).
  assert (limbs_ok t /\ zlen t = zlen A + 1 /\ val t = val (A ++ [v]) * 2 ^ clz lg v) as (Ot & Lt & Vt).
  { unfold t. destruct (clz lg v =? 0) eqn:E; cbn [negb]; zbool; [rewrite E, Z.pow_0_r, Z.mul_1_r; done|].
    destruct (norm_shl_spec (A ++ [v]) (clz lg v) Hok ltac:(lia) 0) as (O1 & L1 & V1); [unfold Limb.limb_ok; pose proof (Base_ge lg Hlg); lia|].
    split; [done|]. split; [by rewrite L1|]. rewrite last_last, Z.div_0_l in V1 by lia. rewrite (Z.div_small v) in V1; [lia|].
    unfold Limb.limb_ok in *. split; [lia|]. apply (Z.mul_lt_mono_pos_r (2 ^ clz lg v)); [lia|].
    rewrite <- Z.pow_add_r by lia. replace (LIMB_BITS - clz lg v + clz lg v) with LIMB_BITS by lia. apply Hl. }
  split; [|done]. split; [done|]. rewrite Lt, Vt, val_app, Z.pow_add_r, Z.pow_1_r by (done || lia). cbn [Limb.val]. split; [lia|].
  pose proof (val_range lg Hlg A OA). pose proof (Limb.pow_pos lg Hlg (zlen A) ltac:(lia)). pose proof (Z.pow_pos_nonneg 2 (clz lg v) ltac:(lia) ltac:(lia)).
  pose proof (Z.mul_le_mono_nonneg_l _ _ (Base ^ zlen A) ltac:(lia) HB). nia.
Qed.

Lemma round_result_eq flags prec1 sgn e x y ret ret' r : (x == y)%Q ->
  round_result flags prec1 sgn e x ret ret' r -> round_result flags prec1 sgn e y ret ret' r.
Proof using .
  intros E (q & Hq & H). exists q. assert (x * q2 (eff_prec e prec1 flags - e) == y * q2 (eff_prec e prec1 flags - e))%Q as Ex by (by rewrite E).
  split; [by rewrite <- Ex|]. by rewrite <- (Qeqb_comp _ _ Ex (qz q) (qz q) (Qeq_refl _)).
Qed.

Lemma bf_normalize_and_round_zero r prec1 flags : limbs_ok (tab r) -> val (tab r) = 0 ->
  bf_normalize_and_round r prec1 flags = Some (0, Bf (sign r) (BF_EXP_ZERO lg) []).
Proof using Hlg Hlg2 HR.
  intros Hok Hv. unfold bf_normalize_and_round. destruct (top_len_spec (tab r) Hok []) as (T & n & Et & Htop & HT).
  rewrite app_nil_r in Htop. rewrite Htop. cbn [mbind option_bind]. destruct HT as [-> | (A & v & -> & Hne)].
  - change (zlen (@nil Z)) with 0. cbn [Z.eqb]. by rewrite (bf_resize_shrink bf_realloc HR _ [] (tab r)).
  - exfalso. rewrite Et in Hv, Hok. apply limbs_ok_app in Hok as [Hok _]. apply limbs_ok_app in Hok as [OA OV]. apply Forall_inv in OV.
    rewrite !val_app, val_zeros in Hv by done. cbn [Limb.val] in Hv. pose proof (val_range lg Hlg A OA). unfold Limb.limb_ok in OV.
    pose proof (Limb.pow_pos lg Hlg (zlen A) (zlen_nonneg A)). nia.
Qed.

Lemma bf_normalize_and_round_spec r e prec1 flags : limbs_ok (tab r) -> zlen (tab r) * LIMB_BITS < EXP_BOUND ->
  - (2 * EXP_BOUND) <= expn r < 2 * EXP_BOUND -> (q2 (e - 1) <= mag r)%Q -> (mag r < q2 e)%Q -> round_pre (sign r) e prec1 flags ->
  wp (bf_normalize_and_round r prec1 flags) (fun '(ret, r') => round_result flags prec1 (sign r) e (mag r) 0 ret r').
Proof using Hlg Hlg2 HR.
  intros Hok HN Hexp He1 He2 Hpre. pose proof (LIMB_BITS_ge4 lg Hlg2). destruct (exp_bounds lg Hlg2) as (B1 & _).
  unfold bf_normalize_and_round. destruct (top_len_spec (tab r) Hok []) as (T & n & Et & Htop & HT).
  rewrite app_nil_r in Htop. rewrite Htop. cbn [mbind option_bind]. rewrite Et in Hok. apply limbs_ok_app in Hok as [OT _].
  assert (val (tab r) = val T) as Ev by (rewrite Et, val_app, val_zeros by done; lia).
  assert (zlen (tab r) = zlen T + Z.of_nat n) as El by (rewrite Et, zlen_app, zlen_replicate; done).
  destruct HT as [-> | (A & v & -> & Hne)].
  { exfalso. unfold BfNum.mag in He1. rewrite Ev in He1. cbn [Limb.val] in He1. pose proof (q2_pos (e - 1)). change (qz 0) with 0%Q in He1. lra. }
  destruct (norm_shl_normal A v OT Hne) as (Hs & Hn & Hz & Hv). set (t := if negb _ then _ else _) in *.
  assert (zlen (A ++ [v]) = zlen A + 1) as Hz0 by (rewrite zlen_app; done). pose proof (zlen_nonneg A). rewrite Hz0 in *.
  set (e2 := expn r - (zlen (tab r) - (zlen A + 1)) * LIMB_BITS - clz lg v) in *.
  assert (qz (val t) * q2 (e2 - zlen t * LIMB_BITS) == mag r)%Q as Hmag.
  { unfold BfNum.mag. rewrite Hv, Hz, Ev, qz_mult, <- q2_Z, <- Qmult_assoc, <- q2_plus by lia.
    by replace (clz lg v + (e2 - _)) with (expn r - zlen (tab r) * LIMB_BITS) by (unfold e2; lia). }
  assert (e2 = e) as Ee.
  { destruct (normal_exponent lg Hlg (Bf 0 e2 t) Hn) as [N1 N2]. unfold BfNum.mag in N1, N2. cbn [expn tab] in N1, N2.
    rewrite Hmag in N1, N2. by apply (exponent_unique (mag r)). }
  destruct Hpre as (Hsg & Hbe & Hpre'). 
  replace (zlen A + 1 =? 0) with false by lia. cbn [set_expn tab sign expn]. replace (zlen A + 1 - 1) with (zlen A) by lia.
  assert (rd (tab r) (zlen A) = Some v) as -> by (rewrite Et, <- app_assoc; by apply rd_mid). cbn [mbind option_bind].
  assert (exists G, (if negb (clz lg v =? 0)
    then low ← sub_arr (tab r) 0 (zlen A + 1); t ← splice (tab r) 0 (norm_shl low (clz lg v) 0);
         Some (Bf (sign r) (slimb (slimb (expn r - (zlen (tab r) - (zlen A + 1)) * LIMB_BITS) - clz lg v)) t)
    else Some (set_expn r (slimb (expn r - (zlen (tab r) - (zlen A + 1)) * LIMB_BITS)))) = Some (Bf (sign r) e2 (t ++ G))) as [G ->].
  { exists (replicate n 0). assert (0 <= (zlen (tab r) - (zlen A + 1)) * LIMB_BITS) by nia. rewrite (slimb_id (expn r - _)) by (unfold e2 in *; lia).
    unfold t in *. destruct (clz lg v =? 0) eqn:E; cbn [negb] in *; zbool.
    - rewrite <- Et. unfold e2. by rewrite E, Z.sub_0_r.
    - rewrite slimb_id by (fold e2; lia). fold e2. assert (tab r = [] ++ (A ++ [v]) ++ replicate n 0) as Et' by (by rewrite Et).
      rewrite Et' at 1. rewrite (sub_arr_mid [] (A ++ [v])) by done. cbn [mbind option_bind]. rewrite Et', (splice_mid [] (A ++ [v])) by (done || by rewrite Hz, zlen_app). done. }
  cbn [mbind option_bind]. rewrite <- Hz. subst e2. rewrite Ee in *.
  eapply wp_mono; [apply (bf_round_core_spec (Bf (sign r) e (t ++ G)) t G); [done|done|rewrite Hz; nia|done]|].
  intros [ret r'] Hres. cbn [sign expn] in Hres. by apply (round_result_eq _ _ _ _ _ _ _ _ _ Hmag).
Qed.

Lemma bf_round_spec r prec1 flags : bf_finite lg r -> zlen (tab r) * LIMB_BITS < EXP_BOUND -> round_pre (sign r) (expn r) prec1 flags ->
  wp (bf_round r prec1 flags) (fun '(ret, r') => round_result flags prec1 (sign r) (expn r) (mag r) 0 ret r').
Proof using Hlg Hlg2 HR.
  intros (_ & Hn & _) HN Hpre. unfold bf_round. replace (zlen (tab r) =? 0) with false by (destruct Hn as (_ & ? & _); lia).
  apply (bf_round_core_spec r (tab r) []); by rewrite ?app_nil_r.
Qed.
End round.

(** ** Properties *)

(** C17. [bf_round] is correctly rounded.  The magnitude of a finite number of
    exponent [e], scaled to [prec] bits ([prec] reduced for subnormal results, or
    counted from the radix point), is rounded to an integer in the mode of the
    flags - towards zero, away, down, up, nearest with ties to even or away,
    faithful - and scaled back; the result has the canonical representation, the
    inexact flag is set exactly when the value changed (always in faithful mode),
    and results outside the exponent range underflow to zero or overflow to
    infinity or to the largest number as the mode requires.  An overflow to the
    largest number, and nothing else, can end in NaN with the memory error
    status, when the allocator refuses the limbs of this number
    ([bf_round_mem_error]).  The function returns: no array access is out of
    bounds. *)
Theorem bf_round_correct (lg : Z) (bf_realloc : bf_realloc_t) `{!BfReallocLaws bf_realloc} (r : bf_t) (prec flags : Z) :
  2 <= lg -> bf_finite lg r -> zlen (tab r) * LIMB_BITS lg < EXP_BOUND lg -> round_pre lg (sign r) (expn r) prec flags ->
  exists ret r', bf_round lg bf_realloc r prec flags = Some (ret, r') /\
    round_result lg bf_realloc flags prec (sign r) (expn r) (mag lg r) 0 ret r'.
Proof.
  intros Hlg Hr Hl Hp. pose proof (bf_round_spec lg bf_realloc ltac:(lia) Hlg _ r prec flags Hr Hl Hp) as H.
  destruct (bf_round lg bf_realloc r prec flags) as [[ret r']|]; [|done]. by exists ret, r'.
Qed.

(** 3.25 to 2 bits, to nearest even. *)
Lemma bf_round_correct_witness : exists ret r', bf_round 6 calloc_realloc (Bf 0 2 [13 * 2 ^ 60]) 2 0 = Some (ret, r') /\
  round_result 6 calloc_realloc 0 2 0 2 (mag 6 (Bf 0 2 [13 * 2 ^ 60])) 0 ret r' /\ ret = BF_ST_INEXACT /\ r' = Bf 0 2 [3 * 2 ^ 62].
Proof.
  destruct (bf_round_correct 6 calloc_realloc (Bf 0 2 [13 * 2 ^ 60]) 2 0) as (ret & r' & E & H); [lia|..].
  - split; [by left|]. split; [|split; vm_compute; reflexivity]. split; [|split; [reflexivity|vm_compute; discriminate]].
    constructor; [|constructor]. split; vm_compute; congruence.
  - vm_compute; reflexivity.
  - split; [by left|]. split; [split; vm_compute; reflexivity|]. split; [split; [lia|]; split; vm_compute; congruence|].
    split; [split; vm_compute; congruence|]. split; [discriminate|]. vm_compute; discriminate.
  - exists ret, r'. split; [exact E|]. split; [exact H|]. vm_compute in E. injection E as <- <-. split; vm_compute; reflexivity.
Defined.

(** An allocator that only shrinks.  An overflow towards zero to 65 bits needs a
    second limb: [bf_round] fails, although its comment rules it out. *)
Definition shrink_realloc : bf_realloc_t := fun b n => if n <=? zlen b then Some (take (Z.to_nat n) b) else None.

Example bf_round_mem_error : bf_round 6 shrink_realloc (Bf 0 (2 ^ 61 + 1) [2 ^ 63]) 65 BF_RNDZ = Some (BF_ST_MEM_ERROR, Bf 0 (BF_EXP_NAN 6) []).
Proof. vm_compute. reflexivity. Qed.

(** [bf_normalize_and_round] accepts any array of limbs: leading zero limbs
    and bits are removed with the exponent adjusted, an array of value zero gives
    a zero of the sign of the number, and any other the value of the array
    correctly rounded. *)
Theorem bf_normalize_and_round_correct (lg : Z) (bf_realloc : bf_realloc_t) `{!BfReallocLaws bf_realloc} (r : bf_t) (e prec flags : Z) :
  2 <= lg -> limbs_ok lg (tab r) -> zlen (tab r) * LIMB_BITS lg < EXP_BOUND lg ->
  - (2 * EXP_BOUND lg) <= expn r < 2 * EXP_BOUND lg ->
  (val lg (tab r) <> 0 -> (q2 (e - 1) <= mag lg r)%Q /\ (mag lg r < q2 e)%Q /\ round_pre lg (sign r) e prec flags) ->
  exists ret r', bf_normalize_and_round lg bf_realloc r prec flags = Some (ret, r') /\
    if val lg (tab r) =? 0 then ret = 0 /\ r' = Bf (sign r) (BF_EXP_ZERO lg) []
    else round_result lg bf_realloc flags prec (sign r) e (mag lg r) 0 ret r'.
Proof.
  intros Hlg Hok Hl He Hnz. destruct (val lg (tab r) =? 0) eqn:E; zbool.
  - rewrite bf_normalize_and_round_zero by (done || lia). by eexists _, _.
  - destruct (Hnz E) as (E1 & E2 & Hp). pose proof (bf_normalize_and_round_spec lg bf_realloc ltac:(lia) Hlg _ r e prec flags Hok Hl He E1 E2 Hp) as H.
    destruct (bf_normalize_and_round lg bf_realloc r prec flags) as [[ret r']|]; [|done]. by exists ret, r'.
Qed.

(** Two limbs, the top one zero: the value is [5 * 2^-126]. *)
Lemma bf_normalize_and_round_correct_witness : exists ret r',
  bf_normalize_and_round 6 calloc_realloc (Bf 1 2 [5; 0]) 2 BF_RNDA = Some (ret, r') /\ ret = BF_ST_INEXACT /\
  r' = Bf 1 (-123) [3 * 2 ^ 62].
Proof.
  destruct (bf_normalize_and_round_correct 6 calloc_realloc (Bf 1 2 [5; 0]) (-123) 2 BF_RNDA) as (ret & r' & E & H); [lia|..].
  - constructor; [split; vm_compute; congruence|]. constructor; [split; vm_compute; congruence|constructor].
  - vm_compute; reflexivity.
  - split; vm_compute; congruence.
  - intros _. split; [vm_compute; discriminate|]. split; [vm_compute; reflexivity|].
    split; [by right|]. split; [split; vm_compute; reflexivity|]. split; [split; [vm_compute; discriminate|]; split; vm_compute; congruence|].
    split; [split; vm_compute; congruence|]. split; [discriminate|]. vm_compute; discriminate.
  - exists ret, r'. vm_compute in E. injection E as <- <-. split; [vm_compute; reflexivity|]. split; vm_compute; reflexivity.
Defined.
