(* ===== verification/BfArith.v ===== *)
(** * Multiplication and division of floating point numbers (libbf.c)

    [bf_mul] and [bf_div] compute an exact product or a quotient with a sticky
    bit on the arrays of limbs, then normalise and round.  [fft_mul] and
    [divnorm_large], the routines for operands of many limbs, are parameters; the
    theorems are about operands below the thresholds. *)

From S2P Require Import Prelude CArray Limb MpArith MpDiv Rounding BfNum BfRound.
Open Scope Z_scope.

Definition FFT_MUL_THRESHOLD : Z := 100.

Section arith.
Context (lg : Z) (bf_realloc : bf_realloc_t).
Context (fft_mul : list Z -> list Z -> option (list Z)).
Context (divnorm_large : list Z -> list Z -> list Z -> option (Z * list Z * list Z)).
Notation LIMB_BITS := (LIMB_BITS lg).
Notation Base := (Base lg).
Notation limb := (limb lg).
Notation slimb := (slimb lg).
Notation limb_ok := (limb_ok lg).
Notation limbs_ok := (limbs_ok lg).
Notation val := (val lg).
Notation BF_PREC_INF := (BF_PREC_INF lg).
Notation BF_EXP_NAN := (BF_EXP_NAN lg).
Notation BF_EXP_INF := (BF_EXP_INF lg).
Notation BF_EXP_ZERO := (BF_EXP_ZERO lg).
Notation EXP_BOUND := (EXP_BOUND lg).
Notation normal := (normal lg).
Notation mag := (mag lg).
Notation bf_resize := (bf_resize bf_realloc).
Notation bf_set_nan := (bf_set_nan lg bf_realloc).
Notation bf_set_zero := (bf_set_zero lg bf_realloc).
Notation bf_set_inf := (bf_set_inf lg bf_realloc).

(** ** Definitions *)

(** The last [n] limbs of a number: [a->tab + a->len - n]. *)
Definition top_limbs (a : bf_t) (n : Z) : option (list Z) := sub_arr (tab a) (zlen (tab a) - n) n.

(** [alias] says that [r] is one of the operands. *)
Definition bf_mul (r a b : bf_t) (alias : bool) (prec flags : Z) : option (Z * bf_t) :=
  let '(a, b) := if zlen (tab a) <? zlen (tab b) then (b, a) else (a, b) in
  let r_sign := Z.lxor (sign a) (sign b) in
  if zlen (tab b) =? 0 then
    if (expn a =? BF_EXP_NAN) || (expn b =? BF_EXP_NAN) then Some (0, bf_set_nan r)
    else if (expn a =? BF_EXP_INF) || (expn b =? BF_EXP_INF) then
      if ((expn a =? BF_EXP_INF) && (expn b =? BF_EXP_ZERO)) || ((expn a =? BF_EXP_ZERO) && (expn b =? BF_EXP_INF))
      then Some (BF_ST_INVALID_OP, bf_set_nan r)
      else Some (0, bf_set_inf r r_sign)
    else Some (0, bf_set_zero r r_sign)
  else
    let precl := limb (prec + 2 + LIMB_BITS - 1) / LIMB_BITS in
    let rndf := Z.land flags BF_RND_MASK =? BF_RNDF in
    let a_len := if rndf then bf_min (zlen (tab a)) precl else zlen (tab a) in
    let b_len := if rndf then bf_min (zlen (tab b)) precl else zlen (tab b) in
    a_tab ← top_limbs a a_len;
    b_tab ← top_limbs b b_len;
    let finish tab :=
      bf_normalize_and_round lg bf_realloc (Bf r_sign (slimb (expn a + expn b)) tab) prec flags in
    if b_len >=? FFT_MUL_THRESHOLD then
      match fft_mul a_tab b_tab with
      | None => Some (BF_ST_MEM_ERROR, bf_set_nan r)
      | Some t => finish t
      end
    else
      let r := if alias then bf_init lg else r in
      let '(err, r) := bf_resize r (a_len + b_len) in
      if negb (err =? 0) then Some (BF_ST_MEM_ERROR, bf_set_nan r)
      else t ← mp_mul_basecase lg (tab r) a_tab b_tab; finish t.

Definition bf_div_core (r a b : bf_t) (prec flags : Z) : option (Z * bf_t) :=
  let r_sign := Z.lxor (sign a) (sign b) in
  if (expn a >=? BF_EXP_INF) || (expn b >=? BF_EXP_INF) then
    if (expn a =? BF_EXP_NAN) || (expn b =? BF_EXP_NAN) then Some (0, bf_set_nan r)
    else if (expn a =? BF_EXP_INF) && (expn b =? BF_EXP_INF) then Some (BF_ST_INVALID_OP, bf_set_nan r)
    else if expn a =? BF_EXP_INF then Some (0, bf_set_inf r r_sign)
    else Some (0, bf_set_zero r r_sign)
  else if expn a =? BF_EXP_ZERO then
    if expn b =? BF_EXP_ZERO then Some (BF_ST_INVALID_OP, bf_set_nan r) else Some (0, bf_set_zero r r_sign)
  else if expn b =? BF_EXP_ZERO then Some (BF_ST_DIVIDE_ZERO, bf_set_inf r r_sign)
  else
    let precl := limb (prec + 2 + LIMB_BITS - 1) / LIMB_BITS in
    let nb := zlen (tab b) in
    let n := bf_max (zlen (tab a)) precl in
    let na := n + nb in
    match bf_realloc [] (na + 1) with
    | None => Some (BF_ST_MEM_ERROR, bf_set_nan r)
    | Some block =>
        let d := na - zlen (tab a) in
        block ← splice block 0 (replicate (Z.to_nat d) 0);
        block ← splice block d (tab a);
        let '(err, r) := bf_resize r (n + 1) in
        if negb (err =? 0) then Some (BF_ST_MEM_ERROR, bf_set_nan r)
        else
          taba ← sub_arr block 0 na;
          '(err, tabq, taba) ← mp_divnorm lg divnorm_large (tab r) taba (tab b);
          if negb (err =? 0) then Some (BF_ST_MEM_ERROR, bf_set_nan (set_tab r tabq))
          else
            rem ← sub_arr taba 0 nb;
            q0 ← rd tabq 0;
            tabq ← (if negb (mp_scan_nz rem =? 0) then wr tabq 0 (Z.lor q0 1) else Some tabq);
            bf_normalize_and_round lg bf_realloc (Bf r_sign (slimb (expn a - expn b + LIMB_BITS)) tabq) prec flags
    end.

(** [bf_op2]: the result of an operation whose target is one of its operands is
    computed in a fresh number. *)
Definition bf_op2 (func : bf_t -> option (Z * bf_t)) (r : bf_t) (alias : bool) : option (Z * bf_t) :=
  if alias then func (bf_init lg) else func r.

Definition bf_div (r a b : bf_t) (alias : bool) (prec flags : Z) : option (Z * bf_t) :=
  bf_op2 (fun r => bf_div_core r a b prec flags) r alias.

(** ** Specifications *)

Context (Hlg : 1 <= lg) (Hlg2 : 2 <= lg) (HR : BfReallocLaws bf_realloc).

(** What an operation that rounds an exact result [(-1)^sgn * x] returns: the
    rounded number, or NaN when an allocation was refused. *)
Definition op_result (flags prec sgn : Z) (x : Q) (ret : Z) (r : bf_t) : Prop :=
  (ret = BF_ST_MEM_ERROR /\ r = Bf 0 BF_EXP_NAN [] /\ bf_refuses bf_realloc) \/
  exists e, (q2 (e - 1) <= x)%Q /\ (x < q2 e)%Q /\ round_result lg bf_realloc flags prec sgn e x 0 ret r.

(** The precision and flags the arithmetic operations accept. *)
Definition op_flags (flags prec : Z) : Prop :=
  flags_ok lg flags /\ 1 <= prec <= BF_PREC_INF /\ (prec = BF_PREC_INF -> has_flag flags BF_FLAG_SUBNORMAL = false).

Lemma op_round_pre flags prec sgn e : op_flags flags prec -> sgn = 0 \/ sgn = 1 -> - EXP_BOUND < e < EXP_BOUND -> round_pre lg sgn e prec flags.
Proof using . intros (Hf & Hp & Hs) Hsg He. split_and!; try done; try lia. intros HI Hsub. rewrite Hs in Hsub by done. done. Qed.

Lemma sign_xor a b : bf_finite lg a -> bf_finite lg b -> Z.lxor (sign a) (sign b) = 0 \/ Z.lxor (sign a) (sign b) = 1.
Proof using . intros ([-> | ->] & _) ([-> | ->] & _); cbn; auto. Qed.

Lemma top_limbs_all a : top_limbs a (zlen (tab a)) = Some (tab a).
Proof using . unfold top_limbs. rewrite Z.sub_diag. by apply (sub_arr_tail [] (tab a)). Qed.

(** The exponent of a product. *)
Lemma product_exponent a b : normal (tab a) -> normal (tab b) ->
  exists e, expn a + expn b - 1 <= e <= expn a + expn b /\ (q2 (e - 1) <= mag a * mag b)%Q /\ (mag a * mag b < q2 e)%Q.
Proof using Hlg.
  intros Na Nb. destruct (normal_exponent lg Hlg a Na) as [A1 A2], (normal_exponent lg Hlg b Nb) as [B1 B2].
  assert (mag a * mag b < q2 (expn a + expn b))%Q as Hu.
  { rewrite q2_plus. pose proof (mag_pos lg Hlg a Na). pose proof (mag_pos lg Hlg b Nb). apply (Qlt_trans _ (q2 (expn a) * mag b)).
    - by apply Qmult_lt_r.
    - apply Qmult_lt_l; [apply q2_pos|done]. }
  assert (q2 (expn a + expn b - 2) <= mag a * mag b)%Q as Hl.
  { replace (expn a + expn b - 2) with (expn a - 1 + (expn b - 1)) by lia. rewrite q2_plus. pose proof (q2_pos (expn a - 1)). pose proof (q2_pos (expn b - 1)).
    apply (Qle_trans _ (mag a * q2 (expn b - 1))); [by apply Qmult_le_r|]. apply Qmult_le_l; [lra|done]. }
  destruct (Qlt_le_dec (mag a * mag b) (q2 (expn a + expn b - 1))) as [Hc|Hc].
  - exists (expn a + expn b - 1). split; [lia|]. by replace (expn a + expn b - 1 - 1) with (expn a + expn b - 2) by lia.
  - exists (expn a + expn b). split; [lia|done].
Qed.

Lemma bf_mul_spec_le r a b alias prec flags : bf_finite lg a -> bf_finite lg b -> zlen (tab b) <= zlen (tab a) ->
  op_flags flags prec -> Z.land flags BF_RND_MASK <> BF_RNDF -> zlen (tab b) < FFT_MUL_THRESHOLD ->
  (zlen (tab a) + zlen (tab b)) * LIMB_BITS < EXP_BOUND -> - EXP_BOUND < expn a + expn b - 1 -> expn a + expn b < EXP_BOUND ->
  wp (bf_mul r a b alias prec flags) (fun '(ret, r') => op_result flags prec (Z.lxor (sign a) (sign b)) (mag a * mag b) ret r').
Proof using Hlg Hlg2 HR.
  intros Fa Fb Hle Hf Hm Hfft Hsize He1 He2. pose proof Fa as (_ & Na & Ea). pose proof Fb as (_ & Nb & Eb).
  destruct (exp_bounds lg Hlg2) as (B1 & _). pose proof Na as (Oa & La & _). pose proof Nb as (Ob & Lb & _).
  unfold bf_mul. replace (zlen (tab a) <? zlen (tab b)) with false by lia. cbv beta iota. replace (zlen (tab b) =? 0) with false by lia.
  replace (_ =? BF_RNDF) with false by lia. rewrite !top_limbs_all. cbn [mbind option_bind]. replace (_ >=? FFT_MUL_THRESHOLD) with false by lia.
  destruct (bf_resize_nz bf_realloc HR (if alias then bf_init lg else r) (zlen (tab a) + zlen (tab b)) ltac:(lia)) as (err & r' & -> & _ & _ & [(-> & Hl)|(-> & _ & _ & Hoom)]);
    cbn [Z.eqb negb]; [|left; split; [done|]; by rewrite bf_set_nan_eq].
  destruct (mp_mul_basecase_spec lg Hlg (tab r') (tab a) (tab b) Oa Ob Lb Hl) as (R & -> & OR & LR & VR). cbn [mbind option_bind].
  rewrite slimb_id by lia. set (p := Bf _ _ R).
  assert (mag p == mag a * mag b)%Q as Hmag.
  { unfold BfNum.mag, p. cbn [tab expn]. rewrite VR, LR, qz_mult.
    replace (expn a + expn b - _) with (expn a - zlen (tab a) * LIMB_BITS + (expn b - zlen (tab b) * LIMB_BITS)) by lia. rewrite q2_plus. ring. }
  destruct (product_exponent a b Na Nb) as (e & He & H1 & H2). rewrite <- Hmag in H1, H2.
  eapply wp_mono; [apply (bf_normalize_and_round_spec lg bf_realloc Hlg Hlg2 HR p e); [done|unfold p; cbn [tab]; by rewrite LR|cbn [expn p]; lia|done|done|]|].
  { apply op_round_pre; [done|by apply sign_xor|lia]. }
  intros [ret r0] Hres. right. exists e. split; [by rewrite <- Hmag|]. split; [by rewrite <- Hmag|].
  by apply (round_result_eq lg bf_realloc flags prec _ e _ _ 0 ret r0 Hmag).
Qed.

Lemma bf_mul_swap r a b alias prec flags : zlen (tab a) < zlen (tab b) -> bf_mul r a b alias prec flags = bf_mul r b a alias prec flags.
Proof using . intros H. unfold bf_mul. replace (zlen (tab a) <? zlen (tab b)) with true by lia. by replace (zlen (tab b) <? zlen (tab a)) with false by lia. Qed.

Lemma op_result_eq flags prec sgn x y ret r : (x == y)%Q -> op_result flags prec sgn x ret r -> op_result flags prec sgn y ret r.
Proof using .
  intros E [H|(e & H1 & H2 & H3)]; [by left|]. right. exists e. split; [by rewrite <- E|]. split; [by rewrite <- E|].
  by apply (round_result_eq lg bf_realloc flags prec sgn e x y 0 ret r E).
Qed.

Lemma bf_mul_spec r a b alias prec flags : bf_finite lg a -> bf_finite lg b ->
  op_flags flags prec -> Z.land flags BF_RND_MASK <> BF_RNDF -> Z.min (zlen (tab a)) (zlen (tab b)) < FFT_MUL_THRESHOLD ->
  (zlen (tab a) + zlen (tab b)) * LIMB_BITS < EXP_BOUND -> - EXP_BOUND < expn a + expn b - 1 -> expn a + expn b < EXP_BOUND ->
  wp (bf_mul r a b alias prec flags) (fun '(ret, r') => op_result flags prec (Z.lxor (sign a) (sign b)) (mag a * mag b) ret r').
Proof using Hlg Hlg2 HR.
  intros Fa Fb Hf Hm Hfft Hsize He1 He2. destruct (decide (zlen (tab a) < zlen (tab b))).
  - rewrite bf_mul_swap by done. eapply wp_mono; [apply bf_mul_spec_le; (done || lia)|]. intros [ret r'] H.
    rewrite Z.lxor_comm in H. by apply (op_result_eq _ _ _ _ _ _ _ (Qmult_comm (mag b) (mag a))).
  - apply bf_mul_spec_le; (done || lia).
Qed.

(** ** Division *)

Lemma even_double k : Z.even (2 * k) = true.
Proof using . by rewrite Z.even_mul. Qed.

(** [Y + 1/2^(j)...]: the quotient with its sticky bit rounds like the exact one
    when at least two bits are dropped. *)
Lemma sticky_same_side X Y j : (qz Y <= X)%Q -> (X < qz (Y + 1))%Q -> 2 <= j ->
  let S := if Qeq_bool X (qz Y) then Y else Z.lor Y 1 in
  same_side (X * q2 (- j)) (qz S * q2 (- j)).
Proof using .
  intros H1 H2 Hj S k.
  assert (forall m i, 1 <= i -> (X ?= qz (m * 2 ^ i))%Q = (qz S ?= qz (m * 2 ^ i))%Q) as Hc.
  { intros m i Hi. apply sticky_compare; [done|done|]. replace (m * 2 ^ i) with (2 * (m * 2 ^ (i - 1))); [apply even_double|].
    replace (2 ^ i) with (2 * 2 ^ (i - 1)) by (rewrite <- Z.pow_succ_r by lia; f_equal; lia). ring. }
  assert (forall x (z : Q) i, (x * q2 i ?= z * q2 i)%Q = (x ?= z)%Q) as Hscale.
  { intros x z i. destruct (Qcompare_spec x z) as [E|E|E]; [rewrite E; by apply Qeq_alt|by apply Qlt_alt, q2_lt_scale|by apply Qgt_alt, q2_lt_scale]. }
  assert (forall m i, 0 <= i -> (qz m == qz (m * 2 ^ i) * q2 (- i))%Q) as Hz.
  { intros m i Hi. rewrite qz_mult, <- q2_Z by done. rewrite <- Qmult_assoc, q2_inv. ring. }
  split.
  - rewrite (Hz k j) by lia. rewrite !Hscale. apply Hc. lia.
  - rewrite (Hz k (j - 1)) by lia.
    assert (forall x, (qz 2 * (x * q2 (- j)) == x * q2 (- (j - 1)))%Q) as Hd.
    { intros x. replace (- (j - 1)) with (- j + 1) by lia. rewrite q2_plus. change (q2 1) with 2%Q. change (qz 2) with 2%Q. ring. }
    rewrite !Hd, !Hscale. apply Hc. lia.
Qed.

(** The sticky quotient also has the exponent of the exact one. *)
Lemma sticky_exponent X Y i lu e : (qz Y <= X)%Q -> (X < qz (Y + 1))%Q -> 2 <= i -> (q2 (i - 1) <= X)%Q ->
  let S := if Qeq_bool X (qz Y) then Y else Z.lor Y 1 in
  (q2 (e - 1) <= X * q2 lu)%Q -> (X * q2 lu < q2 e)%Q ->
  i <= e - lu /\ (q2 (e - 1) <= qz S * q2 lu)%Q /\ (qz S * q2 lu < q2 e)%Q.
Proof using .
  intros H1 H2 Hi HX S He1 He2. assert (forall x f, (q2 f <= x * q2 lu <-> q2 (f - lu) <= x)%Q) as Hle.
  { intros x f. replace f with (f - lu + lu) at 1 by lia. rewrite q2_plus. apply q2_le_scale. }
  assert (forall x f, (x * q2 lu < q2 f <-> x < q2 (f - lu))%Q) as Hlt.
  { intros x f. replace f with (f - lu + lu) at 1 by lia. rewrite q2_plus. apply q2_lt_scale. }
  rewrite Hle in He1 |- *. rewrite Hlt in He2 |- *.
  assert (i <= e - lu) as Hie. { destruct (decide (i <= e - lu)); [done|]. pose proof (q2_le (e - lu) (i - 1) ltac:(lia)). lra. }
  split; [done|]. assert (forall f, 1 <= f -> (X ?= q2 f)%Q = (qz S ?= q2 f)%Q) as Hc.
  { intros f Hf. rewrite (q2_Z f) by lia. apply sticky_compare; [done|done|].
    replace f with (Z.succ (f - 1)) by lia. rewrite Z.pow_succ_r by lia. apply even_double. }
  pose proof (Hc (e - 1 - lu) ltac:(lia)) as C1. pose proof (Hc (e - lu) ltac:(lia)) as C2.
  split; [|by apply (compare_lt_iff _ _ _ _ C2)]. apply compare_swap in C1. by apply (compare_le_iff _ _ _ _ C1).
Qed.

Lemma round_result_same_side flags prec1 sgn e x y ret ret' r :
  same_side (x * q2 (eff_prec lg e prec1 flags - e)) (y * q2 (eff_prec lg e prec1 flags - e)) ->
  round_result lg bf_realloc flags prec1 sgn e x ret ret' r -> round_result lg bf_realloc flags prec1 sgn e y ret ret' r.
Proof using .
  intros Hs (q & Hq & H). exists q. split; [by apply (rounds_same_side _ _ _ _ _ Hs)|]. by rewrite <- (Qeq_bool_same_side _ _ q Hs).
Qed.

Lemma same_side_eq x x' y y' : (x == x')%Q -> (y == y')%Q -> same_side x y -> same_side x' y'.
Proof using . intros E F H k. destruct (H k) as [H1 H2]. by rewrite <- E, <- F. Qed.

Lemma quotient_exponent a b : normal (tab a) -> normal (tab b) ->
  exists e, expn a - expn b <= e <= expn a - expn b + 1 /\ (q2 (e - 1) <= mag a / mag b)%Q /\ (mag a / mag b < q2 e)%Q.
Proof using Hlg.
  intros Na Nb. destruct (normal_exponent lg Hlg a Na) as [A1 A2], (normal_exponent lg Hlg b Nb) as [B1 B2].
  pose proof (mag_pos lg Hlg a Na). pose proof (mag_pos lg Hlg b Nb) as Pb.
  assert (q2 (expn a - expn b - 1) <= mag a / mag b)%Q as Hl.
  { apply Qle_shift_div_l; [done|]. apply (Qle_trans _ (q2 (expn a - expn b - 1) * q2 (expn b))).
    - apply Qmult_le_l; [apply q2_pos|lra].
    - rewrite <- q2_plus. by replace (expn a - expn b - 1 + expn b) with (expn a - 1) by lia. }
  assert (mag a / mag b < q2 (expn a - expn b + 1))%Q as Hu.
  { apply Qlt_shift_div_r; [done|]. apply (Qlt_le_trans _ (q2 (expn a))); [done|].
    replace (q2 (expn a)) with (q2 (expn a - expn b + 1 + (expn b - 1))) by (f_equal; lia). rewrite q2_plus.
    apply Qmult_le_l; [apply q2_pos|done]. }
  destruct (Qlt_le_dec (mag a / mag b) (q2 (expn a - expn b))) as [Hc|Hc].
  - exists (expn a - expn b). split; [lia|done].
  - exists (expn a - expn b + 1). split; [lia|]. by replace (expn a - expn b + 1 - 1) with (expn a - expn b) by lia.
Qed.

Lemma lor_1 x : Z.lor x 1 = x + Zb (Z.even x).
Proof using .
  destruct (Z.Even_or_Odd x) as [[k ->]|[k ->]].
  - replace (2 * k) with (k * 2 ^ 1) by lia. rewrite lor_add' by lia. replace (k * 2 ^ 1) with (2 * k) by lia. by rewrite even_double.
  - replace (Z.lor (2 * k + 1) 1) with (2 * k + 1); [rewrite Z.even_add, even_double; cbn; lia|].
    replace (2 * k + 1) with (Z.lor (k * 2 ^ 1) 1) by (rewrite lor_add' by lia; lia). by rewrite <- Z.lor_assoc.
Qed.

Lemma Base_even : exists h, Base = 2 * h.
Proof using Hlg.
  exists (2 ^ (LIMB_BITS - 1)). unfold Limb.Base. rewrite <- Z.pow_succ_r by (pose proof (LIMB_BITS_ge lg Hlg); lia). f_equal. lia.
Qed.

(** Setting the low bit of the first limb. *)
Lemma val_sticky q0 rest : limb_ok q0 -> val (Z.lor q0 1 :: rest) = Z.lor (val (q0 :: rest)) 1 /\ limb_ok (Z.lor q0 1).
Proof using Hlg.
  intros H. destruct Base_even as [h Hh]. cbn [Limb.val]. rewrite !lor_1.
  replace (Z.even (q0 + Base * val rest)) with (Z.even q0) by (rewrite Z.even_add, Hh, <- Z.mul_assoc, even_double; by destruct (Z.even q0)).
  split; [lia|]. unfold Limb.limb_ok in *. destruct (Z.even q0) eqn:E; cbn [Zb]; [|lia].
  apply Z.even_spec in E as [k ->]. lia.
Qed.

(** The digits of the dividend, extended below with zeros. *)
Lemma dividend block a d : 0 <= d -> zlen block = d + zlen (tab a) + 1 ->
  exists g, (block ← splice block 0 (replicate (Z.to_nat d) 0); splice block d (tab a)) = Some ((replicate (Z.to_nat d) 0 ++ tab a) ++ g).
Proof using .
  intros Hd Hl. pose proof (zlen_nonneg (tab a)). destruct (split3 block d (zlen (tab a)) Hd ltac:(lia) ltac:(lia)) as (A & B & g & -> & HA & HB).
  replace (A ++ B ++ g) with ([] ++ A ++ (B ++ g)) by done. rewrite splice_mid by (done || (rewrite zlen_replicate; lia)). cbn [mbind option_bind app].
  rewrite splice_mid by (rewrite ?zlen_replicate; lia). exists g. by rewrite <- app_assoc.
Qed.

Lemma eff_prec_le e prec flags : has_flag flags BF_FLAG_RADPNT_PREC = false -> eff_prec lg e prec flags <= prec.
Proof using . intros H. unfold eff_prec. rewrite H. destruct (_ && _) eqn:E; [|done]. zbool. lia. Qed.

(** An exact result [X], known to a unit and with a sticky bit, rounds like
    itself: it is known exactly, or to two bits more than the precision. *)
Lemma sticky_round r X Y lu e x prec flags : (qz Y <= X)%Q -> (X < qz (Y + 1))%Q ->
  (X == qz Y \/ has_flag flags BF_FLAG_RADPNT_PREC = false /\ q2 (prec + 1) <= X)%Q -> op_flags flags prec ->
  limbs_ok (tab r) -> zlen (tab r) * LIMB_BITS < EXP_BOUND -> - (2 * EXP_BOUND) <= expn r < 2 * EXP_BOUND -> sign r = 0 \/ sign r = 1 ->
  (mag r == qz (if Qeq_bool X (qz Y) then Y else Z.lor Y 1) * q2 lu)%Q -> (X * q2 lu == x)%Q ->
  - EXP_BOUND < e < EXP_BOUND -> (q2 (e - 1) <= x)%Q -> (x < q2 e)%Q ->
  wp (bf_normalize_and_round lg bf_realloc r prec flags) (fun '(ret, r') => op_result flags prec (sign r) x ret r').
Proof using Hlg Hlg2 HR.
  intros X1 X2 Hcase Hf Or Hlen Hexp Hsg Hmag Hx He E1 E2. pose proof (op_round_pre flags prec (sign r) e Hf Hsg He) as Hpre.
  assert ((q2 (e - 1) <= mag r)%Q /\ (mag r < q2 e)%Q /\ forall y ret r', (mag r == y)%Q -> round_result lg bf_realloc flags prec (sign r) e y 0 ret r' -> op_result flags prec (sign r) x ret r') as (S1 & S2 & Hfin).
  { destruct Hcase as [Hex|(Hrad & Xi)].
    { rewrite (proj2 (Qeq_bool_iff _ _) Hex) in Hmag. rewrite <- Hex, Hx in Hmag. rewrite Hmag. split; [done|]. split; [done|]. intros y ret r' Hy Hres. right. exists e.
      split; [done|]. split; [done|]. apply (round_result_eq lg bf_realloc flags prec _ e y x 0 ret r'); [by rewrite <- Hy, Hmag|done]. }
    assert (q2 (e - 1) <= X * q2 lu)%Q as F1 by (by rewrite Hx). assert (X * q2 lu < q2 e)%Q as F2 by (by rewrite Hx). destruct Hf as (_ & Hp & _).
    destruct (sticky_exponent X Y (prec + 2) lu e X1 X2 ltac:(lia) ltac:(by replace (prec + 2 - 1) with (prec + 1) by lia) F1 F2) as (Hj & S1 & S2).
    rewrite <- Hmag in S1, S2. split; [done|]. split; [done|]. intros y ret r' Hy Hres. right. exists e. split; [done|]. split; [done|].
    apply (round_result_eq lg bf_realloc flags prec _ e (X * q2 lu) x 0 ret r' Hx). refine (round_result_same_side flags prec _ e _ _ 0 ret r' _ Hres).
    pose proof (eff_prec_le e prec flags Hrad). set (p := eff_prec lg e prec flags) in *.
    pose proof (sticky_same_side X Y (e - lu - p) X1 X2 ltac:(lia)) as Hss. intros k. destruct (Hss k) as [K1 K2].
    assert (forall z, (z * q2 (- (e - lu - p)) == z * q2 lu * q2 (p - e))%Q) as Hsc
      by (intros z; rewrite <- Qmult_assoc, <- q2_plus; by replace (- (e - lu - p)) with (lu + (p - e)) by lia).
    rewrite !Hsc in K1, K2. by rewrite <- Hy, Hmag, K1, K2. }
  eapply wp_mono; [apply (bf_normalize_and_round_spec lg bf_realloc Hlg Hlg2 HR r e prec flags Or Hlen Hexp S1 S2 Hpre)|].
  intros [ret r']. apply (Hfin (mag r)). reflexivity.
Qed.

(** From the quotient of the arrays to the rounded quotient of the numbers:
    [A] is the dividend extended to [n + nb] limbs and [Y] the quotient. *)
Lemma div_round r a b n A Y S tabq prec flags : bf_finite lg a -> bf_finite lg b -> op_flags flags prec -> has_flag flags BF_FLAG_RADPNT_PREC = false ->
  0 < n -> prec + 2 <= n * LIMB_BITS -> (n + 1) * LIMB_BITS < EXP_BOUND -> - EXP_BOUND < expn a - expn b -> expn a - expn b + 1 < EXP_BOUND ->
  A = Base ^ (n + zlen (tab b) - zlen (tab a)) * val (tab a) -> 0 <= n + zlen (tab b) - zlen (tab a) ->
  val (tab b) * Y <= A < val (tab b) * (Y + 1) -> S = (if A =? val (tab b) * Y then Y else Z.lor Y 1) ->
  limbs_ok tabq -> zlen tabq = n + 1 -> val tabq = S ->
  r = Bf (Z.lxor (sign a) (sign b)) (slimb (expn a - expn b + LIMB_BITS)) tabq ->
  wp (bf_normalize_and_round lg bf_realloc r prec flags)
    (fun '(ret, r') => op_result flags prec (Z.lxor (sign a) (sign b)) (mag a / mag b) ret r').
Proof using Hlg Hlg2 HR.
  intros Fa Fb Hf Hrad Hn Hprec Hsize He1 He2 HA Hd HY HS Oq Lq Vq Hr. pose proof Fa as (_ & Na & Ea). pose proof Fb as (_ & Nb & Eb).
  pose proof Na as (Oa & La & Ta). pose proof Nb as (Ob & Lb & Tb). pose proof (LIMB_BITS_ge4 lg Hlg2). destruct (exp_bounds lg Hlg2) as (B1 & _).
  pose proof (val_range lg Hlg _ Ob) as Rb. assert (0 < val (tab b)) as Pb by (pose proof (Limb.pow_pos lg Hlg (zlen (tab b)) ltac:(lia)); lia).
  set (B := val (tab b)) in *. set (X := (qz A / qz B)%Q). set (lu := expn a - expn b - n * LIMB_BITS).
  assert (X * qz B == qz A)%Q as HX by (unfold X; field; intros F; apply (proj1 (qz_eq B 0)) in F; lia).
  assert (qz Y <= X)%Q as X1 by (apply (frac_ge _ _ _ Pb HX); lia). assert (X < qz (Y + 1))%Q as X2 by (apply (frac_lt _ _ _ Pb HX); lia).
  assert (Qeq_bool X (qz Y) = (A =? B * Y)) as Xeq.
  { apply eq_iff_eq_true. rewrite Qeq_bool_iff, Z.eqb_eq, (frac_eq _ _ _ Pb HX). lia. }
  assert (X * q2 lu == mag a / mag b)%Q as Hq.
  { unfold X, BfNum.mag. fold B. rewrite HA, qz_mult, (Base_pow lg Hlg), <- q2_Z by (done || (apply Z.mul_nonneg_nonneg; lia)). unfold lu.
    replace (expn a - zlen (tab a) * LIMB_BITS) with ((n + zlen (tab b) - zlen (tab a)) * LIMB_BITS + (expn a - expn b - n * LIMB_BITS) + (expn b - zlen (tab b) * LIMB_BITS)) by lia.
    rewrite !q2_plus. pose proof (q2_pos (expn b - zlen (tab b) * LIMB_BITS)). field. split; [lra|intros F; apply (proj1 (qz_eq B 0)) in F; lia]. }
  assert (q2 (n * LIMB_BITS - 1) <= X)%Q as Xi.
  { rewrite q2_Z by nia. apply (frac_ge _ _ _ Pb HX). apply (Z.mul_le_mono_pos_l _ _ 2); [lia|].
    replace (2 * (2 ^ (n * LIMB_BITS - 1) * B)) with (Base ^ n * B) by (rewrite (Base_pow lg Hlg), Z.mul_assoc, <- Z.pow_succ_r by nia; do 2 f_equal; lia).
    rewrite HA. apply (Z.le_trans _ (Base ^ (n + zlen (tab b) - zlen (tab a)) * Base ^ zlen (tab a))).
    - rewrite <- Z.pow_add_r by lia. replace (_ - _ + _) with (n + zlen (tab b)) by lia. rewrite Z.pow_add_r by lia.
      apply Z.mul_le_mono_nonneg_l; [pose proof (Limb.pow_pos lg Hlg n ltac:(lia)); lia|lia].
    - rewrite Z.mul_assoc, (Z.mul_comm 2), <- Z.mul_assoc. apply Z.mul_le_mono_nonneg_l; [pose proof (Limb.pow_pos lg Hlg _ Hd); lia|done]. }
  destruct (quotient_exponent a b Na Nb) as (e & He & E1 & E2). replace (Z.lxor (sign a) (sign b)) with (sign r) by (by subst r).
  apply (sticky_round r X Y lu e); try done; subst r; cbn [tab expn sign].
  - right. split; [done|]. apply (Qle_trans _ (q2 (n * LIMB_BITS - 1))); [apply q2_le; lia|done].
  - done.
  - by rewrite Lq.
  - rewrite slimb_id by lia. lia.
  - by apply sign_xor.
  - unfold BfNum.mag. cbn [tab expn]. rewrite Xeq, <- HS, Vq, Lq, slimb_id by lia.
    by replace (expn a - expn b + LIMB_BITS - (n + 1) * LIMB_BITS) with lu by (unfold lu; lia).
  - lia.
Qed.

Lemma normal_top_limb V v : normal (V ++ [v]) -> Base <= 2 * v.
Proof using Hlg.
  intros (Hok & _ & Ht). apply limbs_ok_app in Hok as [OV _]. rewrite zlen_app, val_app, Z.pow_add_r in Ht by (done || apply zlen_nonneg).
  change (zlen [v]) with 1 in Ht. rewrite Z.pow_1_r in Ht. cbn [Limb.val] in Ht. pose proof (val_range lg Hlg V OV) as R.
  pose proof (Limb.pow_pos lg Hlg (zlen V) (zlen_nonneg V)) as P. destruct Base_even as [h Hh].
  destruct (decide (h <= v)); [lia|]. exfalso. assert (Base ^ zlen V * (v + 1) <= Base ^ zlen V * h) by (apply Z.mul_le_mono_nonneg_l; lia). lia.
Qed.

(** The sticky bit of the quotient, from the remainder. *)
Lemma sticky_quotient q rem A B : limbs_ok q -> 0 < zlen q -> limbs_ok rem -> A = B * val q + val rem ->
  exists tabq, (q0 ← rd q 0; if negb (mp_scan_nz rem =? 0) then wr q 0 (Z.lor q0 1) else Some q) = Some tabq /\
    limbs_ok tabq /\ zlen tabq = zlen q /\ val tabq = (if A =? B * val q then val q else Z.lor (val q) 1).
Proof using Hlg.
  intros Oq Lq Or HA. destruct q as [|q0 q]; [done|]. change (rd (q0 :: q) 0) with (Some q0). cbn [mbind option_bind].
  rewrite (mp_scan_nz_spec lg Hlg) by done. pose proof Oq as Oq'. unfold Limb.limbs_ok in Oq'. rewrite Forall_cons in Oq'. destruct Oq' as [O0 O1].
  destruct (val_sticky q0 q O0) as [Vs Os]. remember (val (q0 :: q)) as Y eqn:HY. set (R := val rem) in *. clearbody R.
  destruct (R =? 0) eqn:E; zbool; cbn [negb Zb Z.eqb].
  - exists (q0 :: q). replace (A =? B * Y) with true by lia. done.
  - exists (Z.lor q0 1 :: q). replace (A =? B * Y) with false by lia. split; [done|]. split; [by constructor|]. split; [by rewrite !zlen_cons|done].
Qed.

Lemma bind_assoc {A B C} (m : option A) (f : A -> option B) (g : B -> option C) :
  (x ← m; y ← f x; g y) = (y ← (x ← m; f x); g y).
Proof using . by destruct m. Qed.

Lemma bf_div_core_spec r a b prec flags : bf_finite lg a -> bf_finite lg b -> op_flags flags prec -> has_flag flags BF_FLAG_RADPNT_PREC = false ->
  let n := Z.max (zlen (tab a)) ((prec + LIMB_BITS + 1) / LIMB_BITS) in
  Z.min n (zlen (tab b)) < DIVNORM_LARGE_THRESHOLD -> (n + zlen (tab b) + 1) * LIMB_BITS < EXP_BOUND ->
  - EXP_BOUND < expn a - expn b -> expn a - expn b + 1 < EXP_BOUND ->
  wp (bf_div_core r a b prec flags) (fun '(ret, r') => op_result flags prec (Z.lxor (sign a) (sign b)) (mag a / mag b) ret r').
Proof using Hlg Hlg2 HR.
  intros Fa Fb Hf Hrad n Hmin Hsize He1 He2. pose proof Fa as (_ & Na & Ea). pose proof Fb as (_ & Nb & Eb).
  pose proof Na as (Oa & La & Ta). pose proof Nb as (Ob & Lb & Tb). pose proof (LIMB_BITS_ge4 lg Hlg2). destruct (exp_bounds lg Hlg2) as (B1 & B2 & B3).
  pose proof Hf as (_ & Hp & _). pose proof (PREC_INF_eq lg) as HI. pose proof (LIMB_BITS_le_EXP_BOUND lg Hlg2).
  unfold bf_div_core. assert (BF_EXP_INF = 2 * EXP_BOUND - 2 /\ BF_EXP_ZERO = - (2 * EXP_BOUND)) as [Ei Ez] by (unfold BfNum.BF_EXP_INF, BfNum.BF_EXP_ZERO; lia).
  replace (expn a >=? BF_EXP_INF) with false by lia. replace (expn b >=? BF_EXP_INF) with false by lia. cbn [orb].
  replace (expn a =? BF_EXP_ZERO) with false by lia. replace (expn b =? BF_EXP_ZERO) with false by lia.
  rewrite limb_id by (unfold Limb.limb_ok; lia). replace (prec + 2 + LIMB_BITS - 1) with (prec + LIMB_BITS + 1) by lia.
  replace (bf_max (zlen (tab a)) ((prec + LIMB_BITS + 1) / LIMB_BITS)) with n by (unfold n, bf_max; destruct (_ >? _) eqn:E; zbool; lia).
  assert (prec + 2 <= n * LIMB_BITS) as Hprec.
  { apply (Z.le_trans _ ((prec + LIMB_BITS + 1) / LIMB_BITS * LIMB_BITS)); [Z.div_mod_to_equations; lia|]. apply Z.mul_le_mono_nonneg_r; unfold n; lia. }
  assert (0 < n) by (unfold n; lia). assert (zlen (tab a) <= n) as Hnla by (unfold n; lia). clearbody n.
  destruct (bf_realloc [] (n + zlen (tab b) + 1)) as [block|] eqn:Hbl; [|left; split; [done|]; split; [by rewrite bf_set_nan_eq|by eexists _, _]].
  assert (zlen block = n + zlen (tab b) + 1) as Hlb by (apply (bf_realloc_zlen [] _ block); [lia|done]).
  set (d := n + zlen (tab b) - zlen (tab a)) in *. destruct (dividend block a d ltac:(unfold d; lia) ltac:(unfold d; lia)) as (g & Hg).
  destruct (splice block 0 _) as [block1|]; [|done]. cbn [mbind option_bind] in Hg |- *. rewrite Hg. cbn [mbind option_bind].
  destruct (bf_resize_nz bf_realloc HR r (n + 1) ltac:(lia)) as (err & r' & -> & _ & _ & [(-> & Hl)|(-> & _ & _ & Hoom)]); cbn [Z.eqb negb];
    [|left; split; [done|]; by rewrite bf_set_nan_eq].
  set (taba := replicate (Z.to_nat d) 0 ++ tab a) in *. assert (zlen taba = n + zlen (tab b)) as Lta by (unfold taba; rewrite zlen_app, zlen_replicate; unfold d; lia).
  assert (sub_arr (taba ++ g) 0 (n + zlen (tab b)) = Some taba) as -> by (by apply (sub_arr_mid [] taba g)). cbn [mbind option_bind].
  destruct (split_last (tab b) Lb) as (V0 & b1 & EV & _).
  assert (Base <= 2 * b1) as Hb1 by (apply (normal_top_limb V0 b1); by rewrite <- EV).
  assert (limbs_ok taba) as Ota by (apply limbs_ok_app; split; [by apply limbs_ok_zeros|done]).
  destruct (mp_divnorm_spec lg Hlg divnorm_large (tab r') taba (tab b) b1 V0 Ota Ob EV Hb1) as (q & rem & hi & -> & Oq & Lq & Orem & Lrem & Lhi & Hval & Hlt); [lia..|].
  cbn [mbind option_bind Z.eqb negb]. assert (sub_arr (rem ++ hi) 0 (zlen (tab b)) = Some rem) as -> by (by apply (sub_arr_mid [] rem hi)). cbn [mbind option_bind].
  assert (val taba = Base ^ d * val (tab a)) as Vta by (unfold taba; rewrite val_app, val_zeros, zlen_replicate by done; replace (Z.of_nat (Z.to_nat d)) with d by (unfold d; lia); lia).
  destruct (sticky_quotient q rem (val taba) (val (tab b)) Oq ltac:(lia) Orem Hval) as (tabq & Hst & Ot & Lt & Vt).
  rewrite bind_assoc, Hst. cbn [mbind option_bind]. pose proof (val_range lg Hlg rem Orem) as Rrem.
  clear Hst Hg Hlb Hmin Ta Tb Hbl. apply (div_round _ a b n (val taba) (val q) (val tabq) tabq); (done || lia || idtac).
Qed.
End arith.

(** ** Well-formed results *)

(** Of an infinite factor and another, the product is invalid when one is zero. *)
Lemma mul_invalid ea eb einf ezero : einf <> ezero -> (ea =? einf) || (eb =? einf) = true ->
  ((ea =? einf) && (eb =? ezero)) || ((ea =? ezero) && (eb =? einf)) = (ea =? ezero) || (eb =? ezero).
Proof.
  intros Hne H. destruct (ea =? einf) eqn:E1, (eb =? einf) eqn:E2, (ea =? ezero) eqn:E3, (eb =? ezero) eqn:E4; try done; zbool; lia.
Qed.

Section wf.
Context (lg : Z) (Hlg : 2 <= lg).

Lemma is_number_ok r sgn x : is_number lg r sgn x -> bf_ok lg r /\ canonical r.
Proof using . intros (H & C & _). split; [by left|done]. Qed.

Lemma special_ok sgn e : (sgn = 0 \/ sgn = 1) -> e = BF_EXP_ZERO lg \/ e = BF_EXP_INF lg \/ e = BF_EXP_NAN lg ->
  bf_ok lg (Bf sgn e []) /\ canonical (Bf sgn e []).
Proof using . intros Hs He. split; [by right|by left]. Qed.

Lemma overflow_result_ok bf_realloc flags prec sgn ret r : (sgn = 0 \/ sgn = 1) -> overflow_result lg bf_realloc flags prec sgn ret r -> bf_ok lg r /\ canonical r.
Proof using .
  intros Hs. unfold overflow_result. destruct (_ || _).
  - intros [_ ->]. apply special_ok; auto.
  - intros [[_ H]|(_ & -> & _)]; [by eapply is_number_ok|]. apply special_ok; auto.
Qed.

Lemma round_result_ok bf_realloc flags prec sgn e x ret ret' r : (sgn = 0 \/ sgn = 1) -> round_result lg bf_realloc flags prec sgn e x ret ret' r -> bf_ok lg r /\ canonical r.
Proof using .
  intros Hs (q & _ & H). cbv zeta in H. destruct (_ <=? 0).
  - destruct H as [_ H]. destruct (q =? 0); [subst; apply special_ok; auto|by eapply is_number_ok].
  - destruct (_ && negb _); [destruct H as [_ ->]; apply special_ok; auto|].
    destruct (_ >? _); [by eapply overflow_result_ok|]. destruct H as [_ H]. by eapply is_number_ok.
Qed.

Lemma op_result_ok bf_realloc flags prec sgn x ret r : (sgn = 0 \/ sgn = 1) -> op_result lg bf_realloc flags prec sgn x ret r -> bf_ok lg r /\ canonical r.
Proof using . intros Hs [(_ & -> & _)|(e & _ & _ & H)]; [apply special_ok; auto|by eapply round_result_ok]. Qed.

(** The values of the special cases. *)
Lemma bf_mul_special bf_realloc fft_mul r a b alias prec flags : BfReallocLaws bf_realloc -> bf_ok lg a -> bf_ok lg b -> tab a = [] \/ tab b = [] ->
  let nan := Bf 0 (BF_EXP_NAN lg) [] in
  let sgn := Z.lxor (sign a) (sign b) in
  bf_mul lg bf_realloc fft_mul r a b alias prec flags = Some
   (if bf_is_nan lg a || bf_is_nan lg b then (0, nan)
    else if (expn a =? BF_EXP_INF lg) || (expn b =? BF_EXP_INF lg)
         then if bf_is_zero lg a || bf_is_zero lg b then (BF_ST_INVALID_OP, nan) else (0, Bf sgn (BF_EXP_INF lg) [])
         else (0, Bf sgn (BF_EXP_ZERO lg) [])).
Proof using Hlg.
  intros HR Ha Hb Hs. cbv zeta. destruct (exp_bounds lg Hlg) as (B1 & B2 & _).
  assert (zlen (tab a) = 0 \/ zlen (tab b) = 0) as Hz by (destruct Hs as [-> | ->]; auto). unfold bf_mul.
  assert (BF_EXP_INF lg <> BF_EXP_ZERO lg) by (unfold BF_EXP_INF, BF_EXP_ZERO; lia).
  pose proof (zlen_nonneg (tab a)). pose proof (zlen_nonneg (tab b)). unfold bf_is_nan, bf_is_zero.
  destruct (zlen (tab a) <? zlen (tab b)) eqn:E; zbool.
  - replace (zlen (tab a) =? 0) with true by lia. rewrite (Z.lxor_comm (sign b)), (orb_comm (expn b =? BF_EXP_NAN lg)).
    destruct (_ || _); [by rewrite bf_set_nan_eq|]. rewrite (orb_comm (expn b =? BF_EXP_INF lg)).
    destruct ((expn a =? BF_EXP_INF lg) || (expn b =? BF_EXP_INF lg)) eqn:F; [|by rewrite bf_set_zero_eq].
    rewrite mul_invalid by (done || by rewrite orb_comm). rewrite (orb_comm (expn b =? BF_EXP_ZERO lg)). clear F. destruct (_ || _); [by rewrite bf_set_nan_eq|by rewrite bf_set_inf_eq].
  - replace (zlen (tab b) =? 0) with true by lia. destruct (_ || _); [by rewrite bf_set_nan_eq|].
    destruct ((expn a =? BF_EXP_INF lg) || (expn b =? BF_EXP_INF lg)) eqn:F; [|by rewrite bf_set_zero_eq].
    rewrite mul_invalid by done. clear F. destruct (_ || _); [by rewrite bf_set_nan_eq|by rewrite bf_set_inf_eq].
Qed.

Lemma finite_expn r : bf_finite lg r -> (expn r >=? BF_EXP_INF lg) = false /\ (expn r =? BF_EXP_ZERO lg) = false /\ (expn r =? BF_EXP_INF lg) = false /\ (expn r =? BF_EXP_NAN lg) = false.
Proof using Hlg. intros (_ & _ & H). destruct (exp_bounds lg Hlg) as (B1 & B2 & _). unfold BF_EXP_INF, BF_EXP_ZERO, BF_EXP_NAN. lia. Qed.

Lemma special_expn r : bf_special lg r -> expn r = BF_EXP_ZERO lg \/ expn r = BF_EXP_INF lg \/ expn r = BF_EXP_NAN lg.
Proof using . by intros (_ & _ & ?). Qed.

(** The operands with an empty array, in the order of the source. *)
Lemma bf_div_special bf_realloc divnorm_large r a b prec flags : BfReallocLaws bf_realloc -> bf_ok lg a -> bf_ok lg b -> tab a = [] \/ tab b = [] ->
  let nan := Bf 0 (BF_EXP_NAN lg) [] in
  let sgn := Z.lxor (sign a) (sign b) in
  bf_div_core lg bf_realloc divnorm_large r a b prec flags = Some
   (if bf_is_nan lg a || bf_is_nan lg b then (0, nan)
    else if ((expn a =? BF_EXP_INF lg) && (expn b =? BF_EXP_INF lg)) || (bf_is_zero lg a && bf_is_zero lg b) then (BF_ST_INVALID_OP, nan)
    else if expn a =? BF_EXP_INF lg then (0, Bf sgn (BF_EXP_INF lg) [])
    else if (expn b =? BF_EXP_INF lg) || bf_is_zero lg a then (0, Bf sgn (BF_EXP_ZERO lg) [])
    else (BF_ST_DIVIDE_ZERO, Bf sgn (BF_EXP_INF lg) [])).
Proof using Hlg.
  intros HR Ha Hb Hs. cbv zeta. unfold bf_div_core, bf_is_nan, bf_is_zero. rewrite !bf_set_nan_eq, !bf_set_inf_eq, !bf_set_zero_eq by done.
  assert (forall r, bf_ok lg r -> tab r <> [] -> bf_finite lg r) as Hfin by (intros x [?|(_ & ? & _)]; done).
  assert (forall r, bf_ok lg r -> tab r = [] -> bf_special lg r) as Hspec by (intros x [(_ & (_ & Hz & _) & _)|?] E; [by rewrite E in Hz|done]).
  assert (BF_EXP_NAN lg >=? BF_EXP_INF lg = true /\ BF_EXP_INF lg >=? BF_EXP_INF lg = true /\ BF_EXP_ZERO lg >=? BF_EXP_INF lg = false /\
    BF_EXP_NAN lg =? BF_EXP_INF lg = false /\ BF_EXP_NAN lg =? BF_EXP_ZERO lg = false /\ BF_EXP_INF lg =? BF_EXP_NAN lg = false /\
    BF_EXP_INF lg =? BF_EXP_ZERO lg = false /\ BF_EXP_ZERO lg =? BF_EXP_NAN lg = false /\ BF_EXP_ZERO lg =? BF_EXP_INF lg = false) as Hc.
  { destruct (exp_bounds lg Hlg) as (B1 & B2 & _). unfold BF_EXP_NAN, BF_EXP_INF, BF_EXP_ZERO. lia. }
  destruct Hc as (C1 & C2 & C3 & C4 & C5 & C6 & C7 & C8 & C9).
  assert (forall r, bf_ok lg r -> (expn r = BF_EXP_ZERO lg \/ expn r = BF_EXP_INF lg \/ expn r = BF_EXP_NAN lg) \/
    (tab r <> [] /\ (expn r >=? BF_EXP_INF lg) = false /\ (expn r =? BF_EXP_ZERO lg) = false /\ (expn r =? BF_EXP_INF lg) = false /\ (expn r =? BF_EXP_NAN lg) = false)) as Hk.
  { intros x Hx. destruct (tab x) as [|y l] eqn:E; [left; by apply special_expn, Hspec|right]. split; [done|]. apply finite_expn, Hfin; [done|by rewrite E]. }
  destruct (Hk a Ha) as [[-> |[-> | ->]]|(Na & A1 & A2 & A3 & A4)], (Hk b Hb) as [[-> |[-> | ->]]|(Nb & D1 & D2 & D3 & D4)];
    rewrite ?C1, ?C2, ?C3, ?C4, ?C5, ?C6, ?C7, ?C8, ?C9, ?A1, ?A2, ?A3, ?A4, ?D1, ?D2, ?D3, ?D4, ?Z.eqb_refl; try done.
  by destruct Hs.
Qed.
End wf.

(** ** Properties *)

(** C18. [bf_mul] returns the correctly rounded product of two finite numbers:
    the exact product of the magnitudes, rounded once to the precision in the
    mode of the flags, with the sign of the product, the result in canonical form
    and the status of the rounding, or the memory error status with NaN when an
    allocation fails; also when the target is one of the operands.  The faithful
    mode, which truncates the operands, and operands for the FFT are excluded. *)
Theorem bf_mul_correct (lg : Z) (bf_realloc : bf_realloc_t) `{!BfReallocLaws bf_realloc} (fft_mul : list Z -> list Z -> option (list Z))
    (r a b : bf_t) (alias : bool) (prec flags : Z) :
  2 <= lg -> bf_finite lg a -> bf_finite lg b -> op_flags lg flags prec -> Z.land flags BF_RND_MASK <> BF_RNDF ->
  Z.min (zlen (tab a)) (zlen (tab b)) < FFT_MUL_THRESHOLD -> (zlen (tab a) + zlen (tab b)) * LIMB_BITS lg < EXP_BOUND lg ->
  - EXP_BOUND lg < expn a + expn b - 1 -> expn a + expn b < EXP_BOUND lg ->
  exists ret r', bf_mul lg bf_realloc fft_mul r a b alias prec flags = Some (ret, r') /\ bf_ok lg r' /\ canonical r' /\
    op_result lg bf_realloc flags prec (Z.lxor (sign a) (sign b)) (mag lg a * mag lg b) ret r'.
Proof.
  intros Hlg Fa Fb Hf Hm Hfft Hsz He1 He2.
  pose proof (bf_mul_spec lg bf_realloc fft_mul ltac:(lia) Hlg _ r a b alias prec flags Fa Fb Hf Hm Hfft Hsz He1 He2) as H.
  destruct (bf_mul lg bf_realloc fft_mul r a b alias prec flags) as [[ret r']|]; [|done]. exists ret, r'. split; [done|].
  destruct (op_result_ok lg bf_realloc flags prec _ _ ret r' (sign_xor lg a b Fa Fb) H). by split_and!.
Qed.

(** [1.5 * 1.5 = 2.25] to 3 bits upwards is 2.5. *)
Lemma bf_mul_correct_witness : let x := Bf 0 1 [3 * 2 ^ 62] in
  exists ret r', bf_mul 6 calloc_realloc (fun _ _ => None) x x x true 3 BF_RNDU = Some (ret, r') /\
    op_result 6 calloc_realloc BF_RNDU 3 0 (mag 6 x * mag 6 x) ret r' /\ r' = Bf 0 2 [5 * 2 ^ 61].
Proof.
  cbv zeta. assert (bf_finite 6 (Bf 0 1 [3 * 2 ^ 62])) as Hx.
  { split; [by left|]. split; [|split; vm_compute; reflexivity]. split; [|split; [reflexivity|vm_compute; discriminate]].
    constructor; [|constructor]. split; vm_compute; congruence. }
  destruct (bf_mul_correct 6 calloc_realloc (fun _ _ => None) (Bf 0 1 [3 * 2 ^ 62]) (Bf 0 1 [3 * 2 ^ 62]) (Bf 0 1 [3 * 2 ^ 62]) true 3 BF_RNDU) as (ret & r' & E & _ & _ & H);
    [lia|exact Hx|exact Hx| |vm_compute; congruence|vm_compute; congruence|vm_compute; congruence|vm_compute; congruence|vm_compute; congruence|].
  - split; [split; [vm_compute; discriminate|]; split; vm_compute; congruence|]. split; [split; vm_compute; congruence|]. vm_compute; discriminate.
  - exists ret, r'. split; [exact E|]. split; [exact H|]. vm_compute in E. injection E as <- <-. vm_compute; reflexivity.
Defined.

(** C20. [bf_div] returns the correctly rounded quotient of two finite numbers in
    every rounding mode, though it only computes a truncated quotient: the two
    extra bits and the bit set for a non-zero remainder make the rounding of the
    truncated quotient the rounding of the exact rational quotient. *)
Theorem bf_div_correct (lg : Z) (bf_realloc : bf_realloc_t) `{!BfReallocLaws bf_realloc}
    (divnorm_large : list Z -> list Z -> list Z -> option (Z * list Z * list Z)) (r a b : bf_t) (alias : bool) (prec flags : Z) :
  2 <= lg -> bf_finite lg a -> bf_finite lg b -> op_flags lg flags prec -> has_flag flags BF_FLAG_RADPNT_PREC = false ->
  Z.min (Z.max (zlen (tab a)) ((prec + LIMB_BITS lg + 1) / LIMB_BITS lg)) (zlen (tab b)) < DIVNORM_LARGE_THRESHOLD ->
  (Z.max (zlen (tab a)) ((prec + LIMB_BITS lg + 1) / LIMB_BITS lg) + zlen (tab b) + 1) * LIMB_BITS lg < EXP_BOUND lg ->
  - EXP_BOUND lg < expn a - expn b -> expn a - expn b + 1 < EXP_BOUND lg ->
  exists ret r', bf_div lg bf_realloc divnorm_large r a b alias prec flags = Some (ret, r') /\ bf_ok lg r' /\ canonical r' /\
    op_result lg bf_realloc flags prec (Z.lxor (sign a) (sign b)) (mag lg a / mag lg b) ret r'.
Proof.
  intros Hlg Fa Fb Hf Hr Hmin Hsz He1 He2. unfold bf_div, bf_op2.
  assert (forall r0, exists ret r', bf_div_core lg bf_realloc divnorm_large r0 a b prec flags = Some (ret, r') /\ bf_ok lg r' /\ canonical r' /\
    op_result lg bf_realloc flags prec (Z.lxor (sign a) (sign b)) (mag lg a / mag lg b) ret r') as H.
  { intros r0. pose proof (bf_div_core_spec lg bf_realloc divnorm_large ltac:(lia) Hlg _ r0 a b prec flags Fa Fb Hf Hr Hmin Hsz He1 He2) as H.
    destruct (bf_div_core _ _ _ _ _ _ _ _) as [[ret r']|]; [|done]. exists ret, r'. split; [done|].
    destruct (op_result_ok lg bf_realloc flags prec _ _ ret r' (sign_xor lg a b Fa Fb) H). by split_and!. }
  destruct alias; apply H.
Qed.

(** [1 / 3] to 1 bit, downwards: [0.25]. *)
Lemma bf_div_correct_witness : let a := Bf 0 1 [2 ^ 63] in let b := Bf 0 2 [3 * 2 ^ 62] in
  exists ret r', bf_div 6 calloc_realloc (fun _ _ _ => None) a a b true 1 BF_RNDD = Some (ret, r') /\
    op_result 6 calloc_realloc BF_RNDD 1 0 (mag 6 a / mag 6 b) ret r' /\ ret = BF_ST_INEXACT /\ r' = Bf 0 (-1) [2 ^ 63].
Proof.
  cbv zeta. assert (forall e m, m = 2 ^ 63 \/ m = 3 * 2 ^ 62 -> e = 1 \/ e = 2 -> bf_finite 6 (Bf 0 e [m])) as Hx.
  { intros e m Hm He. split; [by left|]. split; [|split; destruct He as [-> | ->]; vm_compute; reflexivity].
    split; [|split; [reflexivity|destruct Hm as [-> | ->]; vm_compute; discriminate]].
    constructor; [|constructor]. destruct Hm as [-> | ->]; split; vm_compute; congruence. }
  destruct (bf_div_correct 6 calloc_realloc (fun _ _ _ => None) (Bf 0 1 [2 ^ 63]) (Bf 0 1 [2 ^ 63]) (Bf 0 2 [3 * 2 ^ 62]) true 1 BF_RNDD) as (ret & r' & E & _ & _ & H);
    [lia|apply Hx; auto|apply Hx; auto| |vm_compute; congruence|vm_compute; congruence|vm_compute; congruence|vm_compute; congruence|vm_compute; congruence|].
  - split; [split; [vm_compute; discriminate|]; split; vm_compute; congruence|]. split; [split; vm_compute; congruence|]. vm_compute; discriminate.
  - exists ret, r'. split; [exact E|]. split; [exact H|]. vm_compute in E. injection E as <- <-. split; vm_compute; reflexivity.
Defined.

(** C33. The exceptional operands of [bf_mul] and [bf_div]: NaN is propagated
    without a flag; [inf * 0], [inf / inf] and [0 / 0] are invalid operations that
    give NaN; a division of a finite non-zero number by zero gives a signed
    infinity with the divide-by-zero flag; the other products and quotients of
    zeros and infinities are the signed zero or infinity, with no flag. *)
Theorem bf_mul_div_special (lg : Z) (bf_realloc : bf_realloc_t) `{!BfReallocLaws bf_realloc} (fft_mul : list Z -> list Z -> option (list Z))
    (divnorm_large : list Z -> list Z -> list Z -> option (Z * list Z * list Z)) (r a b : bf_t) (alias : bool) (prec flags : Z) :
  2 <= lg -> bf_ok lg a -> bf_ok lg b -> tab a = [] \/ tab b = [] ->
  let nan := Bf 0 (BF_EXP_NAN lg) [] in
  let inf := Bf (Z.lxor (sign a) (sign b)) (BF_EXP_INF lg) [] in
  let zero := Bf (Z.lxor (sign a) (sign b)) (BF_EXP_ZERO lg) [] in
  let is_inf x := expn x =? BF_EXP_INF lg in
  let is_nan := bf_is_nan lg in
  let is_zero := bf_is_zero lg in
  bf_mul lg bf_realloc fft_mul r a b alias prec flags = Some
   (if is_nan a || is_nan b then (0, nan)
    else if is_inf a || is_inf b then if is_zero a || is_zero b then (BF_ST_INVALID_OP, nan) else (0, inf)
    else (0, zero)) /\
  bf_div lg bf_realloc divnorm_large r a b alias prec flags = Some
   (if is_nan a || is_nan b then (0, nan)
    else if (is_inf a && is_inf b) || (is_zero a && is_zero b) then (BF_ST_INVALID_OP, nan)
    else if is_inf a then (0, inf)
    else if is_inf b || is_zero a then (0, zero)
    else (BF_ST_DIVIDE_ZERO, inf)).
Proof.
  intros Hlg Ha Hb Hs. cbv zeta. split; [by apply bf_mul_special|]. unfold bf_div, bf_op2. destruct alias; by apply bf_div_special.
Qed.

Lemma bf_mul_div_special_witness : bf_div 6 calloc_realloc (fun _ _ _ => None) (bf_init 6) (Bf 0 1 [2 ^ 63]) (Bf 1 (BF_EXP_ZERO 6) []) false 53 0 =
  Some (BF_ST_DIVIDE_ZERO, Bf 1 (BF_EXP_INF 6) []).
Proof.
  assert (bf_ok 6 (Bf 1 (BF_EXP_ZERO 6) [])) as Hz by (right; split; [by right|]; split; [done|by left]).
  exact (proj2 (bf_mul_div_special 6 calloc_realloc (fun _ _ => None) (fun _ _ _ => None) (bf_init 6) (Bf 0 1 [2 ^ 63]) (Bf 1 (BF_EXP_ZERO 6) []) false 53 0
    ltac:(lia) one_ok Hz (or_intror eq_refl))).
Defined.

(** ** Faithful rounding of a product

    [BF_RNDF] promises one of the two neighbours of the exact result, but the
    operands are truncated to [prec + 2] bits, which is one bit short: for these
    operands the result is more than one unit in the last place (of 62 bits)
    below the exact product. *)
Theorem bf_mul_faithful_off :
  let a := Bf 0 0 [2 ^ 64 - 1; 9223372036854776272] in
  let b := Bf 0 0 [2 ^ 64 - 1; 18446744073709299538] in
  exists r, bf_mul 6 calloc_realloc (fun _ _ => None) (bf_init 6) a b false 62 BF_RNDF = Some (BF_ST_INEXACT, r) /\
    (mag 6 r + q2 (expn r - 62) < mag 6 a * mag 6 b)%Q.
Proof. eexists. split; vm_compute; reflexivity. Qed.
