(* ===== verification/BfAdd.v ===== *)
(** * Addition and subtraction of floating point numbers (libbf.c)

    [bf_add_internal] aligns the smaller operand with the larger one, adds or
    subtracts the limbs from the lowest one that either has, keeps as many limbs
    as the precision needs and the others as a sticky bit, then normalises and
    rounds. *)

From S2P Require Import Prelude CArray Limb MpArith MpDiv Rounding BfNum BfRound BfArith.
Open Scope Z_scope.

Section add.
Context (lg : Z) (bf_realloc : bf_realloc_t).
Notation LIMB_BITS := (LIMB_BITS lg).
Notation Base := (Base lg).
Notation limb := (limb lg).
Notation slimb := (slimb lg).
Notation limb_ok := (limb_ok lg).
Notation limbs_ok := (limbs_ok lg).
Notation val := (val lg).
Notation BF_PREC_INF := (BF_PREC_INF lg).
Notation BF_EXP_NAN := (BF_EXP_NAN lg).
Notation BF_EXP_INF := (BF_EXP_INF lg).
Notation BF_EXP_ZERO := (BF_EXP_ZERO lg).
Notation EXP_BOUND := (EXP_BOUND lg).
Notation normal := (normal lg).
Notation mag := (mag lg).
Notation clz := (clz lg).
Notation get_bits := (get_bits lg).
Notation get_limbz := (get_limbz lg).
Notation bf_resize := (bf_resize bf_realloc).
Notation bf_set_nan := (bf_set_nan lg bf_realloc).
Notation bf_set_zero := (bf_set_zero lg bf_realloc).
Notation bf_set_inf := (bf_set_inf lg bf_realloc).

(** ** Definitions *)

(** The first loop of [count_cancelled_bits], over the equal limbs: the two
    limbs that differ, the count and the offset. *)
Definition equal_body (a b : bf_t) (b_offset : Z) (st : Z * Z) : option ((Z * Z) + (Z * Z * Z * Z)) :=
  let '(n, bit_offset) := st in
  let v1 := get_limbz a (Z.shiftr bit_offset lg) in
  let v2 := get_bits (tab b) (slimb (bit_offset + b_offset)) in
  if negb (v1 =? v2) then Some (inr (v1, v2, n, bit_offset))
  else Some (inl (slimb (n + LIMB_BITS), slimb (bit_offset - LIMB_BITS))).

(** The second loop, over the limbs 0 of [a] and -1 of [b]. *)
Definition borrow_body (a b : bf_t) (b_offset : Z) (st : Z * Z) : option ((Z * Z) + Z) :=
  let '(n, bit_offset) := st in
  let v1 := get_limbz a (Z.shiftr bit_offset lg) in
  let v2 := get_bits (tab b) (slimb (bit_offset + b_offset)) in
  if negb (v1 =? 0) || negb (v2 =? limb (-1)) then
    let p1 := bf_min (clz v1) (clz (limb (- v2 - 1))) in Some (inr (slimb (n + p1)))
  else Some (inl (slimb (n + LIMB_BITS), slimb (bit_offset - LIMB_BITS))).

Definition count_cancelled_bits (a b : bf_t) : option Z :=
  let bit_offset := slimb (zlen (tab a) * LIMB_BITS - 1) in
  let b_offset := slimb ((zlen (tab b) - zlen (tab a)) * LIMB_BITS - (LIMB_BITS - 1) + expn a - expn b) in
  let fuel := (length (tab a) + length (tab b) + 3)%nat in
  '(v1, v2, n, bit_offset) ← loop fuel (equal_body a b b_offset) (0, bit_offset);
  let p := clz (Z.lxor v1 v2) + 1 in
  let n := slimb (n + p) in
  let p := LIMB_BITS - p in
  let second n := loop fuel (borrow_body a b b_offset) (n, slimb (bit_offset - LIMB_BITS)) in
  n ← (if p >? 0 then
         let mask := limb_mask lg 0 (p - 1) in
         let p1 := bf_min (clz (Z.land v1 mask)) (clz (Z.land (limb (- v2 - 1)) mask)) - (LIMB_BITS - p) in
         let n := slimb (n + p1) in
         if negb (p1 =? p) then Some n else second n
       else second n);
  Some (limb n).

(** The alignment of the operands and the sign of the operation. *)
Record add_env := AddEnv { ae_a : bf_t; ae_b : bf_t; a_offset : Z; b_bit_offset : Z; sub_mask : Z }.

(** [u], then the new carry. *)
Definition add_limb (v1 v2 carry : Z) : Z * Z :=
  let u := limb (v1 + v2) in
  let carry1 := Zb (u <? v1) in
  let u := limb (u + carry) in
  (u, Z.lor (Zb (u <? carry)) carry1).

(** [while (i < 0)]: the limbs below the result, for the sticky bit. *)
Definition low_body (ev : add_env) (st : Z * Z * Z) : option ((Z * Z * Z) + (Z * Z)) :=
  let '(i, carry, z) := st in
  if i <? 0 then
    let ap := slimb (a_offset ev + i) in
    let bp := slimb (b_bit_offset ev + i * LIMB_BITS) in
    let in_a := (ap >=? 0) && (ap <? zlen (tab (ae_a ev))) in
    v1 ← (if in_a then rd (tab (ae_a ev)) ap else Some 0);
    let in_b := (slimb (bp + LIMB_BITS) >? 0) && (bp <? slimb (zlen (tab (ae_b ev)) * LIMB_BITS)) in
    let v2 := if in_b then get_bits (tab (ae_b ev)) bp else 0 in
    let i :=
      if negb (in_a || in_b) then
        let i := 0 in
        let i := if ap <? 0 then bf_min i (slimb (- a_offset ev)) else i in
        if slimb (bp + LIMB_BITS) <=? 0 then bf_min i (Z.shiftr (slimb (- b_bit_offset ev)) lg) else i
      else i + 1 in
    let v2 := Z.lxor v2 (sub_mask ev) in
    let '(u, carry) := add_limb v1 v2 carry in
    Some (inl (i, carry, Z.lor z u))
  else Some (inr (carry, z)).

(** [for(i = 0; i < r_len; i++)]: the limbs of the result. *)
Fixpoint high_loop (ev : add_env) (n : nat) (i carry : Z) : list Z * Z :=
  match n with
  | O => ([], carry)
  | S n =>
      let v1 := get_limbz (ae_a ev) (a_offset ev + i) in
      let v2 := get_bits (tab (ae_b ev)) (slimb (b_bit_offset ev + i * LIMB_BITS)) in
      let v2 := Z.lxor v2 (sub_mask ev) in
      let '(u, carry) := add_limb v1 v2 carry in
      let '(res, carry) := high_loop ev n (i + 1) carry in (u :: res, carry)
  end.

(** The finite non-zero case: [a] is the larger operand. *)
Definition add_finite (r a b : bf_t) (a_sign is_sub prec flags : Z) : option (Z * bf_t) :=
  let r := Bf a_sign (expn a) (tab r) in
  let d := slimb (expn a - expn b) in
  cancelled_bits ← (if negb (is_sub =? 0) then if d <=? 1 then count_cancelled_bits a b else Some 1 else Some 0);
  let precl := limb (cancelled_bits + prec + 2 + LIMB_BITS - 1) / LIMB_BITS in
  let tot_len := bf_max (zlen (tab a)) (zlen (tab b) + Z.quot (slimb (d + LIMB_BITS - 1)) LIMB_BITS) in
  let r_len := bf_min precl tot_len in
  let '(err, r) := bf_resize r r_len in
  if negb (err =? 0) then Some (BF_ST_MEM_ERROR, bf_set_nan r) else
  let ev := AddEnv a b (zlen (tab a) - r_len) (slimb ((zlen (tab b) - r_len) * LIMB_BITS + d)) (limb (- is_sub)) in
  '(carry, z) ← loop (2 * (length (tab a) + length (tab b)) + 8) (low_body ev) (r_len - tot_len, is_sub, 0);
  let '(res, carry) := high_loop ev (Z.to_nat r_len) 0 carry in
  t ← splice (tab r) 0 res;
  t0 ← rd t 0;
  t ← wr t 0 (Z.lor t0 (Zb (negb (z =? 0))));
  let r := set_tab r t in
  if (is_sub =? 0) && negb (carry =? 0) then
    let '(err, r) := bf_resize r (r_len + 1) in
    if negb (err =? 0) then Some (BF_ST_MEM_ERROR, bf_set_nan r) else
    t ← wr (tab r) r_len 1;
    bf_normalize_and_round lg bf_realloc (Bf (sign r) (slimb (expn r + LIMB_BITS)) t) prec flags
  else bf_normalize_and_round lg bf_realloc r prec flags.

Definition bf_add_internal (r a b : bf_t) (prec flags b_neg : Z) : option (Z * bf_t) :=
  let a_sign := sign a in
  let b_sign := Z.lxor (sign b) b_neg in
  let is_sub := Z.lxor a_sign b_sign in
  let cmp_res := bf_cmpu lg a b in
  let '(a, b, a_sign) := if cmp_res <? 0 then (b, a, b_sign) else (a, b, a_sign) in
  if (cmp_res =? 0) && negb (is_sub =? 0) && (expn a <? BF_EXP_INF) then
    Some (0, bf_set_zero r (Zb (Z.land flags BF_RND_MASK =? BF_RNDD)))
  else if (zlen (tab a) =? 0) || (zlen (tab b) =? 0) then
    if expn a >=? BF_EXP_INF then
      if expn a =? BF_EXP_NAN then Some (0, bf_set_nan r)
      else if (expn b =? BF_EXP_INF) && negb (is_sub =? 0) then Some (BF_ST_INVALID_OP, bf_set_nan r)
      else Some (0, bf_set_inf r a_sign)
    else
      '(_, r) ← bf_set lg bf_realloc r a;
      bf_normalize_and_round lg bf_realloc (set_sign r a_sign) prec flags
  else add_finite r a b a_sign is_sub prec flags.

Definition bf_add (r a b : bf_t) (alias : bool) (prec flags : Z) : option (Z * bf_t) :=
  bf_op2 lg (fun r => bf_add_internal r a b prec flags 0) r alias.
Definition bf_sub (r a b : bf_t) (alias : bool) (prec flags : Z) : option (Z * bf_t) :=
  bf_op2 lg (fun r => bf_add_internal r a b prec flags 1) r alias.

Lemma bf_min_min x y : bf_min x y = Z.min x y.
Proof using . unfold bf_min. destruct (_ <? _) eqn:E; zbool; lia. Qed.

Lemma Zb_range c : 0 <= Zb c <= 1.
Proof using . destruct c; cbn; lia. Qed.

Lemma sum_zero_iff P x y : 0 < P -> 0 <= x -> 0 <= y -> x = 0 /\ y = 0 <-> x + P * y = 0.
Proof using . intros HP Hx Hy. split; [intros [-> ->]; lia|]. intros E. nia. Qed.

(** The number of limbs of the range [lo .. hi) from [i] on. *)
Definition range_left (lo hi i : Z) : Z := Z.max 0 (hi - Z.max i lo).

Lemma range_left_in lo hi i : lo <= i < hi -> range_left lo hi (i + 1) = range_left lo hi i - 1.
Proof using . unfold range_left. lia. Qed.
Lemma range_left_mono lo hi i t : i <= t -> 0 <= range_left lo hi t <= range_left lo hi i.
Proof using . unfold range_left. lia. Qed.
Lemma range_left_le lo hi i n : 0 <= n -> hi <= lo + n -> 0 <= range_left lo hi i <= n.
Proof using . unfold range_left. lia. Qed.

(** ** Limbs of a shifted number

    [Z.shiftr v pos] drops the bits below [pos]; a negative [pos] adds zeros. *)

Context (Hlg : 1 <= lg) (Hlg2 : 2 <= lg) (HR : BfReallocLaws bf_realloc).

Lemma shiftr_mul_pow2 v n p : 0 <= n -> Z.shiftr (v * 2 ^ n) p = Z.shiftr v (p - n).
Proof using .
  intros Hn. apply Z.bits_inj'. intros m Hm. rewrite !Z.shiftr_spec by done. rewrite Z.mul_pow2_bits by done. f_equal. lia.
Qed.

(** One more limb. *)
Lemma shiftr_limb v p : Z.shiftr v (p - LIMB_BITS) = Base * Z.shiftr v p + Z.shiftr v (p - LIMB_BITS) mod Base.
Proof using Hlg Hlg2.
  pose proof (LIMB_BITS_ge lg Hlg). pose proof (Z.div_mod (Z.shiftr v (p - LIMB_BITS)) Base ltac:(unfold Limb.Base; lia)) as Hd.
  assert (Z.shiftr v (p - LIMB_BITS) / Base = Z.shiftr v p) as E; [|by rewrite E in Hd].
  unfold Limb.Base. rewrite <- Z.shiftr_div_pow2 by lia. apply Z.bits_inj'. intros m Hm. rewrite !Z.shiftr_spec by lia. f_equal. lia.
Qed.

Lemma shiftr_nonneg v p : 0 <= v -> 0 <= Z.shiftr v p.
Proof using . intros. by apply Z.shiftr_nonneg. Qed.

Lemma shiftr_high v p k : 0 <= v < 2 ^ k -> k <= p -> Z.shiftr v p = 0.
Proof using .
  intros Hv Hk. destruct (decide (0 <= p)).
  - rewrite Z.shiftr_div_pow2 by done. apply Z.div_small. split; [lia|]. eapply Z.lt_le_trans; [apply Hv|]. apply Z.pow_le_mono_r; lia.
  - assert (v = 0) as -> by (rewrite Z.pow_neg_r in Hv by lia; lia). apply Z.shiftr_0_l.
Qed.

(** A limb of an array is a limb of its value. *)
Lemma rd_shiftr t i : limbs_ok t -> 0 <= i -> default 0 (rd t i) = Z.shiftr (val t) (i * LIMB_BITS) mod Base.
Proof using Hlg Hlg2.
  intros Hok Hi. pose proof (LIMB_BITS_ge lg Hlg). pose proof (Base_ge lg Hlg). destruct (decide (i < zlen t)).
  - destruct (rd_is_Some t i) as [v Hv]; [lia|]. rewrite Hv. cbn [default]. destruct (rd_split_at t i v Hv) as (a & c & -> & <-).
    apply limbs_ok_app in Hok as [Ha Hc]. apply Forall_inv in Hc. pose proof (val_range lg Hlg a Ha).
    rewrite val_mid, Z.shiftr_div_pow2, <- (Base_pow lg Hlg) by (done || lia).
    rewrite (Z.mul_comm (Base ^ _)), Z.div_add by (pose proof (Limb.pow_pos lg Hlg (zlen a) ltac:(lia)); lia).
    rewrite Z.div_small, Z.add_0_l, (Z.mul_comm Base), Z.mod_add, Z.mod_small by (done || lia). done.
  - rewrite rd_None by lia. cbn [default]. pose proof (val_range lg Hlg t Hok) as R. rewrite (Base_pow lg Hlg) in R by apply zlen_nonneg.
    rewrite (shiftr_high _ _ _ R) by nia. done.
Qed.

Lemma limb_index i : - (2 * EXP_BOUND) <= i < 2 * EXP_BOUND -> limb i = if i <? 0 then Base + i else i.
Proof using Hlg2.
  intros Hi. destruct (exp_bounds lg Hlg2) as (B1 & B2 & B3). unfold Limb.limb. destruct (i <? 0) eqn:E; zbool.
  - rewrite <- (Z.mod_add _ 1) by lia. rewrite Z.mod_small by lia. lia.
  - apply Z.mod_small. lia.
Qed.

Lemma get_limbz_shiftr a i : limbs_ok (tab a) -> zlen (tab a) < EXP_BOUND -> - EXP_BOUND <= i < EXP_BOUND ->
  get_limbz a i = Z.shiftr (val (tab a)) (i * LIMB_BITS) mod Base.
Proof using Hlg Hlg2.
  intros Hok Hl Hi. destruct (exp_bounds lg Hlg2) as (B1 & B2 & B3). pose proof (LIMB_BITS_ge lg Hlg).
  unfold BfNum.get_limbz. rewrite limb_at_rd, limb_index by lia. destruct (i <? 0) eqn:E; zbool; [|by apply rd_shiftr].
  rewrite rd_None by lia. cbn [default]. replace (i * LIMB_BITS) with (- (- i * LIMB_BITS)) by lia.
  rewrite Z.shiftr_opp_r, Z.shiftl_mul_pow2 by nia. unfold Limb.Base.
  replace (- i * LIMB_BITS) with ((- i - 1) * LIMB_BITS + LIMB_BITS) by lia. pose proof (Z.mul_nonneg_nonneg (- i - 1) LIMB_BITS ltac:(lia) ltac:(lia)).
  rewrite (Z.pow_add_r 2 ((- i - 1) * LIMB_BITS)), Z.mul_assoc, Z.mod_mul by lia. done.
Qed.

(** The bits from [pos] on, of two neighbouring limbs. *)
Lemma get_bits_shiftr t pos : limbs_ok t -> zlen t < EXP_BOUND -> - (2 * EXP_BOUND) <= pos < 2 * EXP_BOUND ->
  get_bits t pos = Z.shiftr (val t) pos mod Base.
Proof using Hlg Hlg2.
  intros Hok Hl Hpos. destruct (exp_bounds lg Hlg2) as (B1 & B2 & B3). pose proof (LIMB_BITS_ge4 lg Hlg2). pose proof (val_range lg Hlg t Hok) as Rt.
  unfold BfNum.get_bits. rewrite !limb_at_rd. destruct (pos_split lg Hlg pos) as [-> ->]. destruct (pos_decomp lg Hlg pos) as [Hd Hp].
  set (i := pos / LIMB_BITS) in *. set (p := pos mod LIMB_BITS) in *.
  assert (- EXP_BOUND <= i < EXP_BOUND) as Hi by (unfold i; split; [apply Z.div_le_lower_bound; nia|apply Z.div_lt_upper_bound; nia]).
  assert (forall j, - EXP_BOUND <= j <= EXP_BOUND -> default 0 (rd t (limb j)) = Z.shiftr (val t) (j * LIMB_BITS) mod Base) as Hrd.
  { intros j Hj. destruct (decide (j = EXP_BOUND)) as [-> |].
    - rewrite limb_index by lia. replace (EXP_BOUND <? 0) with false by lia. apply rd_shiftr; [done|lia].
    - rewrite <- limb_at_rd. exact (get_limbz_shiftr (Bf 0 0 t) j Hok Hl ltac:(lia)). }
  assert (limb (limb i + 1) = limb (i + 1)) as Hi1 by (unfold Limb.limb; by rewrite Zplus_mod_idemp_l).
  rewrite Hi1, !Hrd by lia. clearbody i p. destruct (p =? 0) eqn:E; zbool; [by rewrite Hd, E, Z.add_0_r|].
  set (v := val t) in *. replace ((i + 1) * LIMB_BITS) with (i * LIMB_BITS + LIMB_BITS) by lia.
  rewrite Z.shiftr_div_pow2, Z.shiftl_mul_pow2 by lia.
  pose proof (shiftr_limb v (i * LIMB_BITS + LIMB_BITS)) as Hsl. replace (i * LIMB_BITS + LIMB_BITS - LIMB_BITS) with (i * LIMB_BITS) in Hsl by lia.
  assert (Z.shiftr v pos = Z.shiftr v (i * LIMB_BITS) / 2 ^ p) as ->
    by (rewrite <- Z.shiftr_div_pow2, Z.shiftr_shiftr by lia; f_equal; lia).
  set (X1 := Z.shiftr v (i * LIMB_BITS + LIMB_BITS)) in *. set (a0 := Z.shiftr v (i * LIMB_BITS) mod Base) in *. rewrite Hsl.
  pose proof (Z.mod_pos_bound (Z.shiftr v (i * LIMB_BITS)) Base ltac:(lia)) as Ra. fold a0 in Ra. clearbody X1 a0.
  assert (Base = 2 ^ (LIMB_BITS - p) * 2 ^ p) as HB by (unfold Limb.Base; rewrite <- Z.pow_add_r by lia; f_equal; lia).
  assert (0 <= a0 / 2 ^ p < 2 ^ (LIMB_BITS - p)) as Rq by (split; [apply Z.div_pos; lia|apply Z.div_lt_upper_bound; lia]).
  assert (limb (X1 mod Base * 2 ^ (LIMB_BITS - p)) = X1 mod 2 ^ p * 2 ^ (LIMB_BITS - p)) as ->.
  { unfold Limb.limb. rewrite HB at 2. rewrite (Z.mul_comm (2 ^ (LIMB_BITS - p))), Z.mul_mod_distr_r by lia. f_equal. apply Z.mod_mod_divide. exists (2 ^ (LIMB_BITS - p)). done. }
  rewrite lor_add by (lia || done). replace (Base * X1 + a0) with (a0 + 2 ^ (LIMB_BITS - p) * X1 * 2 ^ p) by (rewrite HB; ring).
  rewrite Z.div_add by lia. rewrite HB at 1. rewrite Z.rem_mul_r by lia.
  rewrite (Z.mul_comm (2 ^ (LIMB_BITS - p)) X1), Z.mod_add, Z.div_add by lia. rewrite (Z.mod_small (a0 / _)), (Z.div_small (a0 / _)), Z.add_0_l by done. ring.
Qed.

(** A limb position outside the number has only zeros. *)
Lemma shiftr_outside t pos : limbs_ok t -> pos + LIMB_BITS <= 0 \/ zlen t * LIMB_BITS <= pos -> Z.shiftr (val t) pos mod Base = 0.
Proof using Hlg Hlg2.
  intros Ht Hp. pose proof (LIMB_BITS_ge lg Hlg). pose proof (Base_ge lg Hlg). pose proof (val_range lg Hlg t Ht) as R. rewrite (Base_pow lg Hlg) in R by apply zlen_nonneg.
  destruct Hp as [Hp|Hp]; [|by rewrite (shiftr_high _ _ _ R Hp)].
  replace pos with (- (- pos - LIMB_BITS + LIMB_BITS)) by lia. rewrite Z.shiftr_opp_r, Z.shiftl_mul_pow2, Z.pow_add_r, Z.mul_assoc by lia.
  unfold Limb.Base. by rewrite Z.mod_mul by lia.
Qed.

(** ** The carry chain *)

Definition digit (X t : Z) : Z := Z.shiftr X (t * LIMB_BITS) mod Base.

Lemma digit_ok X t : limb_ok (digit X t).
Proof using Hlg. apply Z.mod_pos_bound. pose proof (Base_ge lg Hlg). lia. Qed.

Lemma mod_digit X t : 0 <= t -> X mod Base ^ (t + 1) = X mod Base ^ t + Base ^ t * digit X t.
Proof using Hlg Hlg2.
  intros Ht. pose proof (Base_ge lg Hlg). pose proof (Limb.pow_pos lg Hlg t Ht). pose proof (LIMB_BITS_ge lg Hlg).
  rewrite Z.pow_add_r, Z.pow_1_r, Z.rem_mul_r by lia. unfold digit. rewrite Z.shiftr_div_pow2, <- (Base_pow lg Hlg) by nia. done.
Qed.

(** The digits of the complement. *)
Lemma digit_complement X n t : 0 <= X < Base ^ n -> 0 <= t < n -> digit (Base ^ n - 1 - X) t = Base - 1 - digit X t.
Proof using Hlg Hlg2.
  intros HX Ht. pose proof (Base_ge lg Hlg). pose proof (Limb.pow_pos lg Hlg t ltac:(lia)). pose proof (LIMB_BITS_ge lg Hlg).
  unfold digit. rewrite !Z.shiftr_div_pow2, <- (Base_pow lg Hlg) by nia.
  pose proof (Z.div_mod X (Base ^ t) ltac:(lia)) as Hd. pose proof (Z.mod_pos_bound X (Base ^ t) ltac:(lia)) as Hm.
  set (q := X / Base ^ t) in *. set (r := X mod Base ^ t) in *.
  assert (Base ^ n = Base ^ t * (Base * Base ^ (n - t - 1))) as HB by (rewrite <- Z.pow_succ_r, <- Z.pow_add_r by lia; f_equal; lia).
  replace (Base ^ n - 1 - X) with (Base ^ t - 1 - r + (Base * Base ^ (n - t - 1) - 1 - q) * Base ^ t) by lia.
  rewrite Z.div_add, Z.div_small, Z.add_0_l by lia. pose proof (Z.div_mod q Base ltac:(lia)) as Hq. pose proof (Z.mod_pos_bound q Base ltac:(lia)) as Hqm.
  symmetry. apply (Zmod_unique _ _ (Base ^ (n - t - 1) - 1 - q / Base)); [lia|]. lia.
Qed.

Section chain.
Context (A B c0 : Z).

(** [t] limbs of [A + B + c0] are done: [low] is their value. *)
Definition chain (t carry low : Z) : Prop :=
  0 <= t /\ 0 <= low < Base ^ t /\ 0 <= carry <= 1 /\ low + Base ^ t * carry = A mod Base ^ t + B mod Base ^ t + c0.

Lemma chain_step t carry low : chain t carry low ->
  let '(u, carry') := add_limb (digit A t) (digit B t) carry in limb_ok u /\ chain (t + 1) carry' (low + Base ^ t * u).
Proof using Hlg Hlg2.
  intros (Ht & Hlow & Hc & E). unfold add_limb. destruct (add_step lg Hlg (digit A t) (digit B t) carry (digit_ok A t) (digit_ok B t) Hc) as (S1 & S2 & S3).
  split; [done|]. pose proof (Limb.pow_pos lg Hlg t Ht). unfold Limb.limb_ok in S2. split; [lia|]. rewrite !mod_digit, Z.pow_add_r, Z.pow_1_r by lia.
  set (u := limb (_ + carry)) in *. set (c := Z.lor _ _) in *. split; [nia|]. split; [done|]. nia.
Qed.

Lemma add_limb_zero w c : w = 0 \/ w = Base - 1 -> 0 <= c <= 1 ->
  let '(u, c') := add_limb 0 w c in
  (u <> 0 \/ c' = c) /\ add_limb 0 w c' = (if u =? 0 then 0 else if w =? 0 then 0 else u, c').
Proof using Hlg Hlg2.
  intros Hw Hc. pose proof (Base_ge lg Hlg).
  assert (limb 0 = 0 /\ limb 1 = 1 /\ limb (Base - 1) = Base - 1) as (L0 & L1 & LM) by (split_and!; apply limb_id; unfold Limb.limb_ok; lia).
  assert (limb (Base - 1 + 1) = 0) as LB by (replace (Base - 1 + 1) with (0 + 1 * Base) by lia; unfold Limb.limb; rewrite Z.mod_add by lia; done).
  assert (add_limb 0 0 0 = (0, 0) /\ add_limb 0 0 1 = (1, 0)) as [A1 A2] by (unfold add_limb; cbv zeta; repeat rewrite ?Z.add_0_l, ?L0, ?L1; done).
  assert (add_limb 0 (Base - 1) 0 = (Base - 1, 0) /\ add_limb 0 (Base - 1) 1 = (0, 1)) as [A3 A4].
  { unfold add_limb. cbv zeta. repeat rewrite ?Z.add_0_l, ?Z.add_0_r, ?LM, ?LB. replace (Base - 1 <? 0) with false by lia. done. }
  destruct (decide (c = 0)) as [-> |]; [|assert (c = 1) as -> by lia]; destruct Hw as [-> | ->].
  - rewrite A1. cbn [Z.eqb]. by split; [right|].
  - rewrite A3. replace (Base - 1 =? 0) with false by lia. split; [by right|done].
  - rewrite A2. cbn [Z.eqb]. by split; [left|].
  - rewrite A4. cbn [Z.eqb]. by split; [right|].
Qed.

(** A gap, where [A] has only zeros and [B] only zeros or only ones, is one step. *)
Lemma chain_gap t n carry low w : chain t carry low -> w = 0 \/ w = Base - 1 ->
  (forall k, t <= k < t + 1 + Z.of_nat n -> digit A k = 0 /\ digit B k = w) ->
  let '(u, carry') := add_limb 0 w carry in
  limb_ok u /\ exists low', chain (t + 1 + Z.of_nat n) carry' low' /\ (low' = 0 <-> low = 0 /\ u = 0).
Proof using Hlg Hlg2.
  intros Hc Hw Hz. pose proof (chain_step t carry low Hc) as Hs. destruct (Hz t ltac:(lia)) as [E1 E2]. rewrite E1, E2 in Hs.
  pose proof (add_limb_zero w carry Hw ltac:(apply Hc)) as Hzero. destruct (add_limb 0 w carry) as [u c']. destruct Hs as [Hu Hs]. split; [done|].
  destruct Hzero as [_ Hnext]. induction n as [|n IH].
  - exists (low + Base ^ t * u). replace (t + 1 + Z.of_nat 0) with (t + 1) by lia. split; [done|]. destruct Hc as (Ht & Hl & _).
    pose proof (Limb.pow_pos lg Hlg t Ht). unfold Limb.limb_ok in Hu. split; [intros F; nia|]. intros [-> ->]. lia.
  - destruct IH as (low' & Hc' & Hiff); [intros k Hk; apply Hz; lia|]. pose proof (chain_step _ _ _ Hc') as Hs'.
    destruct (Hz (t + 1 + Z.of_nat n) ltac:(lia)) as [F1 F2]. rewrite F1, F2, Hnext in Hs'. destruct Hs' as [Hu' Hs'].
    eexists. split; [replace (t + 1 + Z.of_nat (S n)) with (t + 1 + Z.of_nat n + 1) by lia; exact Hs'|].
    destruct Hc' as (Ht' & Hl' & _). pose proof (Limb.pow_pos lg Hlg _ Ht'). unfold Limb.limb_ok in Hu'.
    rewrite <- Hiff in *. destruct (u =? 0) eqn:Eu; zbool; [split; intros; nia|].
    assert (low' <> 0) by tauto. split; [intros F; nia|tauto].
Qed.
End chain.

(** ** The two loops *)

Section loops.
Context (a b : bf_t) (r_len tot d is_sub : Z).
Notation la := (zlen (tab a)).
Notation lb := (zlen (tab b)).
Context (Oa : limbs_ok (tab a)) (Ob : limbs_ok (tab b)) (Hla : 0 < la) (Hlb : 0 < lb) (Hd : 0 <= d) (Hsub : is_sub = 0 \/ is_sub = 1).
Context (Hr : 0 < r_len <= tot) (Htot : tot = Z.max la (lb + (d + LIMB_BITS - 1) / LIMB_BITS)).
Context (Hsa : (la + lb + r_len + 2) * LIMB_BITS < EXP_BOUND) (Hsd : d + (la + lb + 2) * LIMB_BITS < 2 * EXP_BOUND).

Let T0 : Z := tot - r_len.
Let ev : add_env := AddEnv a b (la - r_len) ((lb - r_len) * LIMB_BITS + d) (limb (- is_sub)).

(** The aligned operands, as integers of [tot] limbs. *)
Definition aligned_a : Z := val (tab a) * 2 ^ ((tot - la) * LIMB_BITS).
Definition aligned_b : Z := val (tab b) * 2 ^ ((tot - lb) * LIMB_BITS - d).
Definition addend : Z := if is_sub =? 0 then aligned_b else Base ^ tot - 1 - aligned_b.

Lemma ceil_d : d <= (d + LIMB_BITS - 1) / LIMB_BITS * LIMB_BITS <= d + LIMB_BITS - 1.
Proof using All. pose proof (LIMB_BITS_ge4 lg Hlg2). Z.div_mod_to_equations. lia. Qed.

Lemma tot_bounds : la <= tot /\ lb * LIMB_BITS + d <= tot * LIMB_BITS /\ tot * LIMB_BITS <= (la + lb + 1) * LIMB_BITS + d.
Proof using All.
  pose proof (LIMB_BITS_ge4 lg Hlg2). pose proof ceil_d as Hc. set (k := (d + LIMB_BITS - 1) / LIMB_BITS) in *.
  assert (0 <= k) by (apply Z.div_pos; lia). rewrite Htot. destruct (Z.max_spec la (lb + k)) as [[? ->]|[? ->]]; split_and!; nia.
Qed.

Lemma aligned_a_range : 0 <= aligned_a < Base ^ tot.
Proof using All.
  destruct tot_bounds as (H1 & _ & _). pose proof (LIMB_BITS_ge4 lg Hlg2). pose proof (val_range lg Hlg _ Oa) as R. unfold aligned_a.
  rewrite (Base_pow lg Hlg) in * by lia. pose proof (Z.mul_nonneg_nonneg (tot - la) LIMB_BITS ltac:(lia) ltac:(lia)).
  replace (tot * LIMB_BITS) with (la * LIMB_BITS + (tot - la) * LIMB_BITS) by lia. rewrite Z.pow_add_r by nia. split; [nia|]. apply Z.mul_lt_mono_pos_r; lia.
Qed.

Lemma aligned_b_range : 0 <= aligned_b < Base ^ tot.
Proof using All.
  destruct tot_bounds as (H1 & H2 & _). pose proof (LIMB_BITS_ge4 lg Hlg2). pose proof (val_range lg Hlg _ Ob) as R. unfold aligned_b.
  rewrite (Base_pow lg Hlg) in * by lia. split; [nia|].
  apply (Z.lt_le_trans _ (2 ^ (lb * LIMB_BITS) * 2 ^ ((tot - lb) * LIMB_BITS - d))); [apply Z.mul_lt_mono_pos_r; lia|].
  rewrite <- Z.pow_add_r by nia. apply Z.pow_le_mono_r; lia.
Qed.

Lemma addend_range : 0 <= addend < Base ^ tot.
Proof using All. pose proof aligned_b_range. unfold addend. destruct (is_sub =? 0); lia. Qed.

Lemma digit_a i : - T0 <= i < r_len -> digit aligned_a (i + T0) = Z.shiftr (val (tab a)) ((la - r_len + i) * LIMB_BITS) mod Base.
Proof using All.
  intros Hi. destruct tot_bounds as (H1 & _ & _). pose proof (LIMB_BITS_ge4 lg Hlg2). unfold digit, aligned_a.
  rewrite shiftr_mul_pow2 by nia. do 2 f_equal. unfold T0. lia.
Qed.

Lemma digit_b i : - T0 <= i < r_len -> digit aligned_b (i + T0) = Z.shiftr (val (tab b)) ((lb - r_len) * LIMB_BITS + d + i * LIMB_BITS) mod Base.
Proof using All.
  intros Hi. destruct tot_bounds as (_ & H2 & _). unfold digit, aligned_b. rewrite shiftr_mul_pow2 by lia. do 2 f_equal. unfold T0. lia.
Qed.

(** The complement of a limb, or the limb itself. *)
Lemma mask_digit i : - T0 <= i < r_len -> Z.lxor (digit aligned_b (i + T0)) (limb (- is_sub)) = digit addend (i + T0).
Proof using All.
  intros Hi. pose proof aligned_b_range as Hbr. assert (0 <= i + T0 < tot) as Ht by (unfold T0 in *; lia).
  unfold addend. destruct Hsub as [-> | ->]; cbn [Z.eqb Z.opp].
  - rewrite limb_id by (unfold Limb.limb_ok; pose proof (Base_ge lg Hlg); lia). apply Z.lxor_0_r.
  - change (- (1)) with (-1). rewrite (limb_minus_1 lg Hlg). rewrite digit_complement by done.
    apply lxor_ones; [pose proof (LIMB_BITS_ge lg Hlg); lia|]. apply digit_ok.
Qed.

(** The bit positions stay in range. *)
Lemma position_range i : - T0 <= i < r_len ->
  - EXP_BOUND <= la - r_len + i < EXP_BOUND /\ - (2 * EXP_BOUND) <= (lb - r_len) * LIMB_BITS + d + i * LIMB_BITS < 2 * EXP_BOUND - LIMB_BITS.
Proof using All.
  intros Hi. destruct tot_bounds as (H1 & H2 & H3). pose proof (LIMB_BITS_ge4 lg Hlg2). unfold T0 in Hi.
  assert (la - tot <= la - r_len + i < la) by lia.
  assert ((lb - tot) * LIMB_BITS <= (lb - r_len + i) * LIMB_BITS <= lb * LIMB_BITS) as Hm by (split; apply Z.mul_le_mono_nonneg_r; lia).
  assert ((la + lb + r_len + 2) * 1 <= (la + lb + r_len + 2) * LIMB_BITS) by (apply Z.mul_le_mono_nonneg_l; lia).
  assert ((tot - la) * 4 <= (tot - la) * LIMB_BITS) by (apply Z.mul_le_mono_nonneg_l; lia). lia.
Qed.

(** The limb positions the two operands cover below the result. *)
Let alo : Z := r_len - la.
Let blo : Z := (- ((lb - r_len) * LIMB_BITS + d)) / LIMB_BITS.
Let bhi : Z := - ((d - r_len * LIMB_BITS) / LIMB_BITS).

Lemma in_b_iff k :
  (k < blo <-> (lb - r_len) * LIMB_BITS + d + k * LIMB_BITS + LIMB_BITS <= 0) /\
  (bhi <= k <-> lb * LIMB_BITS <= (lb - r_len) * LIMB_BITS + d + k * LIMB_BITS) /\ bhi <= blo + lb + 1.
Proof using All.
  pose proof (LIMB_BITS_ge4 lg Hlg2). unfold blo, bhi.
  pose proof (Z.div_mod (- ((lb - r_len) * LIMB_BITS + d)) LIMB_BITS ltac:(lia)) as D1. pose proof (Z.mod_pos_bound (- ((lb - r_len) * LIMB_BITS + d)) LIMB_BITS ltac:(lia)) as M1.
  pose proof (Z.div_mod (d - r_len * LIMB_BITS) LIMB_BITS ltac:(lia)) as D2. pose proof (Z.mod_pos_bound (d - r_len * LIMB_BITS) LIMB_BITS ltac:(lia)) as M2.
  set (q1 := _ / _) in *. set (q2 := (d - _) / _) in *. set (m1 := _ mod _) in *. set (m2 := (d - _) mod _) in *. clearbody q1 q2 m1 m2.
  clear - D1 D2 M1 M2 H. nia.
Qed.

(** The state of the low loop at limb [i]: the limbs below are summed, and [z]
    tells whether one of them is not zero. *)
Definition low_inv (st : Z * Z * Z) : Prop :=
  let '(i, carry, z) := st in
  - T0 <= i <= 0 /\ 0 <= z /\ exists low, chain aligned_a addend is_sub (i + T0) carry low /\ (z = 0 <-> low = 0).

(** The iterations left: every limb inside an operand, and a jump between two. *)
Definition low_measure (st : Z * Z * Z) : Z :=
  let '(i, _, _) := st in
  2 * (range_left alo 0 i + range_left blo (Z.min 0 bhi) i) +
  Zb ((i <? 0) && (i <? alo) && ((i <? blo) || (bhi <=? i))).

(** The limb the loop jumps to from outside both operands. *)
Definition low_target (i : Z) : Z :=
  let t := if la - r_len + i <? 0 then Z.min 0 alo else 0 in
  if (lb - r_len) * LIMB_BITS + d + i * LIMB_BITS + LIMB_BITS <=? 0 then Z.min t blo else t.

Lemma low_body_eq i carry z : - T0 <= i < 0 ->
  let inside := (alo <=? i) || ((blo <=? i) && (i <? bhi)) in
  low_body ev (i, carry, z) = Some (inl (
    let '(u, carry) := add_limb (digit aligned_a (i + T0)) (digit addend (i + T0)) carry in
    (if inside then i + 1 else low_target i, carry, Z.lor z u))).
Proof using All.
  intros Hi. cbv zeta. destruct (exp_bounds lg Hlg2) as (B1 & B2 & B3). pose proof (LIMB_BITS_ge4 lg Hlg2) as HL. destruct (position_range i ltac:(lia)) as [P1 P2].
  destruct (in_b_iff i) as (I1 & I2 & _). assert ((la + lb + r_len + 2) * 1 <= (la + lb + r_len + 2) * LIMB_BITS) by (apply Z.mul_le_mono_nonneg_l; lia).
  assert (0 <= r_len * LIMB_BITS /\ 0 <= la * LIMB_BITS /\ 0 <= lb * LIMB_BITS) as (M1 & M2 & M3) by (split_and!; apply Z.mul_nonneg_nonneg; lia).
  unfold low_body. replace (i <? 0) with true by lia. cbn [ae_a ae_b a_offset b_bit_offset sub_mask ev].
  rewrite (slimb_id lg Hlg2 (_ + i * LIMB_BITS)) by lia. rewrite !(slimb_id lg Hlg2) by lia. set (bp := (lb - r_len) * LIMB_BITS + d + i * LIMB_BITS) in *.
  assert ((bp + LIMB_BITS >? 0) && (bp <? lb * LIMB_BITS) = (blo <=? i) && (i <? bhi)) as Eb by (apply eq_iff_eq_true; rewrite !andb_true_iff; lia).
  assert ((la - r_len + i >=? 0) && (la - r_len + i <? la) = (alo <=? i)) as Ea by (unfold alo; lia).
  rewrite Ea, Eb. clear Ea Eb.
  assert ((if alo <=? i then rd (tab a) (la - r_len + i) else Some 0) = Some (digit aligned_a (i + T0))) as ->.
  { rewrite digit_a by lia. destruct (alo <=? i) eqn:E; zbool.
    - destruct (rd_is_Some (tab a) (la - r_len + i)) as [v Hv]; [unfold alo in E; lia|]. rewrite <- rd_shiftr by (done || unfold alo in E; lia). by rewrite Hv.
    - f_equal. symmetry. apply shiftr_outside; [done|]. left.
      assert ((la - r_len + i + 1) * LIMB_BITS <= 0) by (apply Z.mul_nonpos_nonneg; unfold alo in E; lia). lia. }
  cbn [mbind option_bind].
  assert ((if (blo <=? i) && (i <? bhi) then get_bits (tab b) bp else 0) = digit aligned_b (i + T0)) as ->.
  { rewrite digit_b by lia. fold bp. destruct (_ && _) eqn:E; [apply get_bits_shiftr; (done || lia)|]. symmetry. apply shiftr_outside; [done|]. zbool; lia. }
  rewrite mask_digit by lia. destruct (add_limb _ _ carry) as [u c]. do 3 f_equal. f_equal.
  destruct (_ || _); cbn [negb]; [done|]. unfold low_target. fold bp. rewrite !bf_min_min, Z.shiftr_div_pow2 by lia.
  by replace (- (la - r_len)) with alo by (unfold alo; lia).
Qed.

Lemma low_target_spec i : i < 0 -> i < alo -> i < blo \/ bhi <= i ->
  i < low_target i <= 0 /\ (low_target i = 0 \/ alo <= low_target i \/ blo <= low_target i < bhi) /\
  (forall k, i <= k < low_target i -> la - r_len + k < 0 /\ (k < blo \/ bhi <= k)).
Proof using All.
  intros H0 Ha Hb. destruct (in_b_iff i) as (I1 & _ & _). destruct (in_b_iff blo) as (_ & I2 & _). pose proof (LIMB_BITS_ge4 lg Hlg2).
  assert (blo < bhi) as Hlh.
  { destruct (decide (blo < bhi)) as [|n]; [done|]. assert (lb * LIMB_BITS <= (lb - r_len) * LIMB_BITS + d + blo * LIMB_BITS) as F by (apply I2; lia).
    unfold blo in F. pose proof (Z.mul_div_le (- ((lb - r_len) * LIMB_BITS + d)) LIMB_BITS ltac:(lia)). pose proof (Z.mul_pos_pos lb LIMB_BITS ltac:(lia) ltac:(lia)). lia. }
  unfold low_target. replace (la - r_len + i <? 0) with true by (unfold alo in *; lia). clear I2. unfold alo in *. clearbody blo bhi.
  destruct (_ <=? 0) eqn:E; zbool; (split; [lia|]; split; [lia|]; intros k Hk; lia).
Qed.

Lemma outside_bool i : i < 0 -> i < alo -> i < blo \/ bhi <= i -> (i <? 0) && (i <? alo) && ((i <? blo) || (bhi <=? i)) = true.
Proof using . clearbody alo blo bhi. clear. lia. Qed.
Lemma inside_bool i : i = 0 \/ alo <= i \/ blo <= i < bhi -> (i <? 0) && (i <? alo) && ((i <? blo) || (bhi <=? i)) = false.
Proof using . clearbody alo blo bhi. clear. lia. Qed.

(** Outside both operands. *)
Lemma gap_digits i : - T0 <= i < r_len -> la - r_len + i < 0 -> i < blo \/ bhi <= i ->
  digit aligned_a (i + T0) = 0 /\ digit addend (i + T0) = if is_sub =? 0 then 0 else Base - 1.
Proof using All.
  intros Hi Ha Hb. pose proof (LIMB_BITS_ge4 lg Hlg2). split.
  - rewrite digit_a by done. apply shiftr_outside; [done|]. left.
    assert ((la - r_len + i + 1) * LIMB_BITS <= 0) by (apply Z.mul_nonpos_nonneg; lia). lia.
  - rewrite <- mask_digit, digit_b by done. destruct (in_b_iff i) as (I1 & I2 & _). rewrite shiftr_outside by (done || lia). rewrite Z.lxor_0_l.
    destruct Hsub as [-> | ->]; cbn [Z.eqb Z.opp]; [|apply (limb_minus_1 lg Hlg)]. apply limb_id. unfold Limb.limb_ok. pose proof (Base_ge lg Hlg). lia.
Qed.

Lemma low_step i carry z : low_inv (i, carry, z) -> i < 0 ->
  wp (low_body ev (i, carry, z)) (fun x => match x with
    | inl st => low_inv st /\ low_measure st < low_measure (i, carry, z) /\ 0 <= low_measure (i, carry, z)
    | inr _ => False end).
Proof using All.
  intros (Hi & Hz & low & Hc & Hiff) Hneg. rewrite low_body_eq by lia. cbn [wp].
  pose proof (Zb_range ((i <? 0) && (i <? alo) && ((i <? blo) || (bhi <=? i)))) as Hm.
  destruct ((alo <=? i) || (blo <=? i) && (i <? bhi)) eqn:Ein.
  - pose proof (chain_step _ _ _ _ _ _ Hc) as Hs. destruct (add_limb _ _ carry) as [u c]. destruct Hs as [Hu Hs]. unfold Limb.limb_ok in Hu. split.
    + split; [lia|]. split; [by apply Z.lor_nonneg; lia|]. exists (low + Base ^ (i + T0) * u). replace (i + 1 + T0) with (i + T0 + 1) by lia. split; [done|].
      rewrite Z.lor_eq_0_iff, Hiff. destruct Hc as (Ht & Hl & _). apply sum_zero_iff; [apply (Limb.pow_pos lg Hlg _ Ht)|lia..].
    + unfold low_measure. pose proof (Zb_range ((i + 1 <? 0) && (i + 1 <? alo) && ((i + 1 <? blo) || (bhi <=? i + 1)))) as Hm'.
      pose proof (range_left_mono alo 0 i (i + 1) ltac:(lia)). pose proof (range_left_mono blo (Z.min 0 bhi) i (i + 1) ltac:(lia)).
      assert (range_left alo 0 (i + 1) = range_left alo 0 i - 1 \/ range_left blo (Z.min 0 bhi) (i + 1) = range_left blo (Z.min 0 bhi) i - 1).
      { apply orb_true_iff in Ein as [E|E]; zbool; [left|right]; apply range_left_in; clear Hm Hm'; lia. }
      clear Ein. lia.
  - apply orb_false_iff in Ein as [E1 E2]. apply andb_false_iff in E2. destruct (low_target_spec i Hneg ltac:(lia) ltac:(lia)) as (T1 & T2 & T3).
    destruct (gap_digits i ltac:(lia)) as [D1 D2]; [apply T3; lia..|]. rewrite D1, D2. set (t := low_target i) in *.
    pose proof (chain_gap _ _ _ (i + T0) (Z.to_nat (t - i - 1)) carry low (if is_sub =? 0 then 0 else Base - 1) Hc ltac:(destruct (is_sub =? 0); auto)) as Hg.
    destruct (add_limb _ _ carry) as [u c]. destruct Hg as [Hu (low' & Hc' & Hiff')].
    { intros k Hk. replace k with (k - T0 + T0) by lia. apply gap_digits; [lia|apply T3; lia..]. }
    unfold Limb.limb_ok in Hu. split.
    + split; [lia|]. split; [by apply Z.lor_nonneg; lia|]. exists low'. replace (t + T0) with (i + T0 + 1 + Z.of_nat (Z.to_nat (t - i - 1))) by lia. split; [done|].
      by rewrite Z.lor_eq_0_iff, Hiff, Hiff'.
    + unfold low_measure. pose proof (range_left_mono alo 0 i t ltac:(lia)). pose proof (range_left_mono blo (Z.min 0 bhi) i t ltac:(lia)).
      rewrite (outside_bool i), inside_bool by (clear - T2 Hneg E1 E2; lia). cbn [Zb]. clear - H H0. lia.
Qed.

Lemma chain_start : chain aligned_a addend is_sub 0 is_sub 0.
Proof using All. split; [lia|]. rewrite Z.pow_0_r, !Z.mod_1_r. lia. Qed.

(** The low loop ends, whatever the distance of the exponents. *)
Lemma low_loop_spec : wp (loop (2 * (length (tab a) + length (tab b)) + 8) (low_body ev) (- T0, is_sub, 0))
  (fun '(carry, z) => exists low, chain aligned_a addend is_sub T0 carry low /\ (z = 0 <-> low = 0)).
Proof using All.
  destruct (in_b_iff 0) as (_ & _ & Hb). apply (wp_loopZ low_inv low_measure).
  - split; [unfold T0; lia|]. split; [done|]. exists 0. rewrite Z.add_opp_diag_l. split; [exact chain_start|done].
  - unfold low_measure. pose proof (Zb_range ((- T0 <? 0) && (- T0 <? alo) && ((- T0 <? blo) || (bhi <=? - T0)))).
    pose proof (range_left_le alo 0 (- T0) la ltac:(lia) ltac:(unfold alo; lia)). pose proof (range_left_le blo (Z.min 0 bhi) (- T0) (lb + 1) ltac:(lia) ltac:(lia)).
    set (x := range_left alo _ _) in *. set (y := range_left blo _ _) in *. set (k := Zb _) in *. clearbody x y k. clear - H H0 H1. unfold zlen in *. lia.
  - intros [[i carry] z] HI. destruct (decide (i < 0)) as [Hi|Hi]; [eapply wp_mono; [by apply low_step|]; by intros [|]|].
    unfold low_body. replace (i <? 0) with false by lia. cbn [wp]. destruct HI as (H1 & _ & low & Hc & Hz). exists low.
    by replace T0 with (i + T0) by lia.
  - intros [[i carry] z] _. unfold low_measure. pose proof (Zb_range ((i <? 0) && (i <? alo) && ((i <? blo) || (bhi <=? i)))).
    pose proof (range_left_mono alo 0 i i ltac:(lia)). pose proof (range_left_mono blo (Z.min 0 bhi) i i ltac:(lia)). lia.
Qed.

(** The limbs of the result, from a chain that has done the lower ones. *)
Lemma high_loop_spec n i carry low : 0 <= i -> i + Z.of_nat n <= r_len -> chain aligned_a addend is_sub (i + T0) carry low ->
  let '(res, carry') := high_loop ev n i carry in
  limbs_ok res /\ zlen res = Z.of_nat n /\ chain aligned_a addend is_sub (i + T0 + Z.of_nat n) carry' (low + Base ^ (i + T0) * val res).
Proof using All.
  destruct (exp_bounds lg Hlg2) as (B1 & _). pose proof (LIMB_BITS_ge4 lg Hlg2).
  revert i carry low. induction n as [|n IH]; intros i carry low Hi Hn Hc; cbn [high_loop].
  { split; [constructor|]. split; [done|]. cbn [Limb.val]. by rewrite Z.mul_0_r, !Z.add_0_r. }
  assert (- T0 <= i < r_len) as Hir by (unfold T0; lia). destruct (position_range i Hir) as [P1 P2]. cbn [ae_a ae_b a_offset b_bit_offset sub_mask ev].
  assert ((la + lb + r_len + 2) * 1 <= (la + lb + r_len + 2) * LIMB_BITS) by (apply Z.mul_le_mono_nonneg_l; lia).
  rewrite get_limbz_shiftr, <- digit_a by (done || lia). rewrite slimb_id, get_bits_shiftr by (done || lia).
  rewrite <- digit_b, mask_digit by done. pose proof (chain_step _ _ _ _ _ _ Hc) as Hs.
  destruct (add_limb _ _ carry) as [u carry1]. destruct Hs as [Hu Hs]. replace (i + T0 + 1) with (i + 1 + T0) in Hs by lia.
  pose proof (IH (i + 1) carry1 _ ltac:(lia) ltac:(lia) Hs) as IHn. destruct (high_loop ev n (i + 1) carry1) as [res carry'].
  destruct IHn as (O & L & C). split; [by constructor|]. rewrite zlen_cons. split; [lia|]. cbn [Limb.val].
  replace (i + T0 + Z.of_nat (S n)) with (i + 1 + T0 + Z.of_nat n) by lia.
  replace (low + Base ^ (i + T0) * (u + Base * val res)) with (low + Base ^ (i + T0) * u + Base ^ (i + 1 + T0) * val res); [done|].
  replace (i + 1 + T0) with (i + T0 + 1) by lia. rewrite (Z.pow_add_r Base (i + T0) 1), Z.pow_1_r by (unfold T0 in *; lia). ring.
Qed.

(** The two loops together: the sum or the difference, the limbs of the result
    above the limbs that only [z] knows. *)
Lemma sum_spec : (is_sub = 1 -> aligned_b <= aligned_a) ->
  wp ('(carry, z) ← loop (2 * (length (tab a) + length (tab b)) + 8) (low_body ev) (r_len - tot, is_sub, 0);
      let '(res, carry) := high_loop ev (Z.to_nat r_len) 0 carry in Some (res, carry, z))
    (fun '(res, carry, z) => limbs_ok res /\ zlen res = r_len /\ 0 <= carry <= 1 /\ exists low,
      0 <= low < Base ^ (tot - r_len) /\ (z = 0 <-> low = 0) /\
      (if is_sub =? 0 then aligned_a + aligned_b else aligned_a - aligned_b) =
        low + Base ^ (tot - r_len) * (val res + Base ^ r_len * if is_sub =? 0 then carry else 0)).
Proof using All.
  intros Hle. replace (r_len - tot) with (- T0) by (unfold T0; lia). apply wp_bind. eapply wp_mono; [exact low_loop_spec|].
  intros [carry z] (low & Hc & Hz). change (tot - r_len) with T0. assert (0 <= T0) by (unfold T0; lia).
  pose proof (high_loop_spec (Z.to_nat r_len) 0 carry low ltac:(lia) ltac:(lia) Hc) as Hh. destruct (high_loop _ _ _ _) as [res carry']. cbn [wp].
  destruct Hh as (O & L & (_ & Hlow & Hcar & E)). split; [done|]. split; [clear - L Hr; lia|]. split; [done|]. exists low. split; [apply Hc|]. split; [done|].
  replace (0 + T0 + Z.of_nat (Z.to_nat r_len)) with tot in * by (unfold T0; lia). rewrite Z.add_0_l in *.
  pose proof aligned_a_range as Ra. pose proof addend_range as Rc. rewrite !Z.mod_small in E by done.
  assert (Base ^ tot = Base ^ T0 * Base ^ r_len) as HB by (rewrite <- Z.pow_add_r by lia; f_equal; unfold T0; lia).
  unfold addend in *. destruct (is_sub =? 0) eqn:Es; zbool.
  - rewrite Es in E. rewrite Z.mul_add_distr_l, (Z.mul_assoc (Base ^ T0)), <- HB. clear - E. lia.
  - assert (is_sub = 1) as Es' by (by destruct Hsub). rewrite Es' in E. specialize (Hle Es'). rewrite Z.mul_0_r, Z.add_0_r.
    assert (carry' = 1) as -> by (clear - Hcar E Hlow Ra Hle; destruct (decide (carry' = 0)) as [-> |]; lia). clear - E. lia.
Qed.
End loops.
End add.
