(* ===== verification/BfAddCorrect.v ===== *)
(** * Correctness of the addition and subtraction (libbf.c)

    [count_cancelled_bits] bounds the leading bits that a subtraction of two
    numbers of nearly the same exponent cancels; with it the limbs [bf_add_internal]
    keeps are enough for the rounding, so that [bf_add] and [bf_sub] are the
    correctly rounded sum and difference. *)

From Stdlib Require Import Qabs.
From S2P Require Import Prelude CArray Limb MpArith MpDiv Rounding BfNum BfRound BfArith BfAdd.
Open Scope Z_scope.

Section correct.
Context (lg : Z) (bf_realloc : bf_realloc_t).
Context (Hlg : 1 <= lg) (Hlg2 : 2 <= lg) (HR : BfReallocLaws bf_realloc).
Notation LIMB_BITS := (LIMB_BITS lg).
Notation Base := (Base lg).
Notation limb := (limb lg).
Notation slimb := (slimb lg).
Notation limb_ok := (limb_ok lg).
Notation limbs_ok := (limbs_ok lg).
Notation val := (val lg).
Notation EXP_BOUND := (EXP_BOUND lg).
Notation normal := (normal lg).
Notation mag := (mag lg).
Notation clz := (clz lg).

(** ** Cancelled bits *)

(** The floor that a shift computes. *)
Lemma shiftr_floor v p : 0 <= v -> (qz (Z.shiftr v p) * q2 p <= qz v)%Q /\ (qz v < qz (Z.shiftr v p + 1) * q2 p)%Q.
Proof using .
  intros Hv. destruct (decide (0 <= p)) as [Hp|Hp].
  - rewrite Z.shiftr_div_pow2, (q2_Z p), <- !qz_mult by done. rewrite qz_le, qz_lt. pose proof (Z.pow_pos_nonneg 2 p ltac:(lia) Hp).
    pose proof (Z.div_mod v (2 ^ p) ltac:(lia)). pose proof (Z.mod_pos_bound v (2 ^ p) ltac:(lia)). lia.
  - replace p with (- - p) by lia. set (k := - p). rewrite Z.shiftr_opp_r, Z.shiftl_mul_pow2, qz_plus, !qz_mult, <- q2_Z by lia.
    rewrite Qmult_plus_distr_l, <- Qmult_assoc, q2_inv. pose proof (q2_pos (- k)). change (qz 1) with 1%Q. lra.
Qed.

Lemma shiftr_exact v p : p <= 0 -> (qz (Z.shiftr v p) * q2 p == qz v)%Q.
Proof using .
  intros Hp. replace p with (- - p) by lia. set (k := - p). rewrite Z.shiftr_opp_r, Z.shiftl_mul_pow2, !qz_mult, <- q2_Z by lia.
  rewrite <- Qmult_assoc, q2_inv. ring.
Qed.

(** The leading zeros of two limbs bound their sum from below. *)
Lemma clz_sum x y : limb_ok x -> limb_ok y -> x <> 0 \/ y <> 0 ->
  let c := bf_min (clz x) (clz y) in 0 <= c < LIMB_BITS /\ 2 ^ (LIMB_BITS - 1 - c) <= x + y.
Proof using Hlg.
  intros Hx Hy Hnz. cbv zeta. rewrite bf_min_min. pose proof (LIMB_BITS_ge lg Hlg).
  assert (forall z, limb_ok z -> z <> 0 -> 0 <= clz z < LIMB_BITS /\ 2 ^ (LIMB_BITS - 1 - clz z) <= z) as Hc.
  { intros z Hz H0. unfold Limb.clz. replace (z =? 0) with false by lia. unfold Limb.limb_ok in Hz. pose proof (Z.log2_spec z ltac:(lia)) as [L1 _].
    assert (Z.log2 z < LIMB_BITS) by (apply (proj1 (Z.log2_lt_pow2 z LIMB_BITS ltac:(lia))); apply Hz). pose proof (Z.log2_nonneg z). split; [lia|].
    by replace (LIMB_BITS - 1 - (LIMB_BITS - 1 - Z.log2 z)) with (Z.log2 z) by lia. }
  assert (clz 0 = LIMB_BITS) as C0 by done. unfold Limb.limb_ok in *.
  destruct (decide (x = 0)) as [-> |Nx]; [rewrite C0; destruct (Hc y) as [? ?]; [done|lia|]; rewrite Z.min_r by lia; lia|].
  destruct (Hc x Hx Nx) as [? ?]. destruct (decide (y = 0)) as [-> |Ny]; [rewrite C0, Z.min_l by lia; lia|]. destruct (Hc y Hy Ny) as [? ?].
  destruct (Z.min_spec (clz x) (clz y)) as [[? ->]|[? ->]]; lia.
Qed.

Lemma lxor_1 w : Z.lxor w 1 = if Z.even w then w + 1 else w - 1.
Proof using .
  destruct (Z.even w) eqn:E.
  - apply Z.even_spec in E as [k ->]. rewrite <- Z.add_nocarry_lxor; [done|]. rewrite land_1, Z.odd_mul. done.
  - rewrite <- Z.negb_odd in E. apply negb_false_iff, Z.odd_spec in E as [k ->].
    replace (2 * k + 1) with (Z.lxor (2 * k) 1) by (rewrite <- Z.add_nocarry_lxor; [done|]; rewrite land_1, Z.odd_mul; done).
    rewrite Z.lxor_assoc, Z.lxor_nilpotent, Z.lxor_0_r. rewrite <- Z.add_nocarry_lxor; [lia|]. rewrite land_1, Z.odd_mul. done.
Qed.

(** The first bit where two limbs differ: above it they agree. *)
Lemma first_difference v1 v2 : limb_ok v1 -> limb_ok v2 -> v2 < v1 ->
  let s := LIMB_BITS - (clz (Z.lxor v1 v2) + 1) in
  0 <= s < LIMB_BITS /\ v1 / 2 ^ s = v2 / 2 ^ s + 1.
Proof using Hlg.
  intros H1 H2 Hlt. unfold Limb.limb_ok in *. set (x := Z.lxor v1 v2).
  assert (x <> 0) as Hx by (unfold x; rewrite Z.lxor_eq_0_iff; lia).
  assert (0 <= x) as Hx0 by (apply Z.lxor_nonneg; lia).
  assert (Z.log2 x < LIMB_BITS) as Hl.
  { apply (Z.le_lt_trans _ (Z.max (Z.log2 v1) (Z.log2 v2))); [apply Z.log2_lxor; lia|]. pose proof (LIMB_BITS_ge lg Hlg).
    apply Z.max_lub_lt; [apply (proj1 (Z.log2_lt_pow2 v1 LIMB_BITS ltac:(lia))); apply H1|].
    destruct (decide (v2 = 0)) as [-> |]; [cbn; lia|]. apply (proj1 (Z.log2_lt_pow2 v2 LIMB_BITS ltac:(lia))). apply H2. }
  unfold Limb.clz. replace (x =? 0) with false by lia. cbv zeta. replace (LIMB_BITS - (LIMB_BITS - 1 - Z.log2 x + 1)) with (Z.log2 x) by lia.
  pose proof (Z.log2_nonneg x) as Hn. split; [lia|]. set (s := Z.log2 x) in *.
  assert (Z.lxor (v1 / 2 ^ s) (v2 / 2 ^ s) = 1) as E.
  { rewrite <- !Z.shiftr_div_pow2, <- Z.shiftr_lxor by done. fold x. rewrite Z.shiftr_div_pow2 by done.
    pose proof (Z.log2_spec x ltac:(lia)) as [L1 L2]. fold s in L1, L2. rewrite Z.pow_succ_r in L2 by done.
    symmetry. apply (Z.div_unique _ _ _ (x - 2 ^ s)); lia. }
  assert (v2 / 2 ^ s <= v1 / 2 ^ s) by (apply Z.div_le_mono; lia).
  assert (v1 / 2 ^ s = Z.lxor (v2 / 2 ^ s) 1) as E' by (rewrite <- E, (Z.lxor_comm (v1 / _)), <- Z.lxor_assoc, Z.lxor_nilpotent, Z.lxor_0_l; done).
  rewrite lxor_1 in E'. destruct (Z.even _); lia.
Qed.

(** The bits below the first difference: [v1 = .. 1 w1] and [v2 = .. 0 w2]. *)
Lemma difference_bits v1 v2 s : limb_ok v1 -> limb_ok v2 -> 0 < s < LIMB_BITS -> v1 / 2 ^ s = v2 / 2 ^ s + 1 ->
  let mask := limb_mask lg 0 (s - 1) in
  let w1 := Z.land v1 mask in
  let w2 := Z.land (limb (- v2 - 1)) mask in
  0 <= w1 < 2 ^ s /\ 0 <= w2 < 2 ^ s /\ v1 - v2 = w1 + w2 + 1.
Proof using Hlg.
  intros H1 H2 Hs E. cbv zeta. unfold Limb.limb_ok in *. rewrite (limb_mask_spec lg Hlg) by lia. rewrite Z.sub_0_r, Z.pow_0_r, Z.mul_1_r, Z.sub_add.
  replace (2 ^ s - 1) with (Z.ones s) by (rewrite Z.ones_equiv; lia). rewrite !Z.land_ones by lia. pose proof (Z.pow_pos_nonneg 2 s ltac:(lia) ltac:(lia)) as Hp.
  assert (limb (- v2 - 1) mod 2 ^ s = 2 ^ s - 1 - v2 mod 2 ^ s) as ->.
  { unfold Limb.limb, Limb.Base. rewrite Z.mod_mod_divide by (exists (2 ^ (LIMB_BITS - s)); rewrite <- Z.pow_add_r by lia; f_equal; lia).
    pose proof (Z.div_mod v2 (2 ^ s) ltac:(lia)). pose proof (Z.mod_pos_bound v2 (2 ^ s) Hp). symmetry. apply (Zmod_unique _ _ (- (v2 / 2 ^ s) - 1)); lia. }
  pose proof (Z.div_mod v1 (2 ^ s) ltac:(lia)) as D1. pose proof (Z.div_mod v2 (2 ^ s) ltac:(lia)) as D2.
  pose proof (Z.mod_pos_bound v1 (2 ^ s) Hp). pose proof (Z.mod_pos_bound v2 (2 ^ s) Hp). rewrite E in D1. lia.
Qed.

Lemma small_clz w s : 0 <= w < 2 ^ s -> 0 <= s <= LIMB_BITS -> limb_ok w /\ LIMB_BITS - s <= clz w <= LIMB_BITS /\ (clz w = LIMB_BITS -> w = 0).
Proof using Hlg.
  intros Hw Hs. pose proof (Z.pow_le_mono_r 2 s LIMB_BITS ltac:(lia) ltac:(lia)). split; [unfold Limb.limb_ok, Limb.Base; lia|].
  unfold Limb.clz. destruct (w =? 0) eqn:E; zbool; [lia|]. pose proof (proj1 (Z.log2_lt_pow2 w s ltac:(lia)) ltac:(lia)). pose proof (Z.log2_nonneg w). lia.
Qed.

Section cancel.
Context (a b : bf_t).
Notation la := (zlen (tab a)).
Notation lb := (zlen (tab b)).
Notation d := (expn a - expn b).
Context (Na : normal (tab a)) (Nb : normal (tab b)) (Hd : 0 <= d <= 1) (Hlt : (mag b < mag a)%Q).
Context (Hsz : (la + lb + 4) * LIMB_BITS < EXP_BOUND).

(** The first [k] limbs of the two numbers, aligned. *)
Definition prefix_a (k : Z) : Z := Z.shiftr (val (tab a)) ((la - k) * LIMB_BITS).
Definition prefix_b (k : Z) : Z := Z.shiftr (val (tab b)) ((lb - k) * LIMB_BITS + d).
Definition limb_a (k : Z) : Z := prefix_a (k + 1) mod Base.
Definition limb_b (k : Z) : Z := prefix_b (k + 1) mod Base.

Lemma prefix_step k : prefix_a (k + 1) = Base * prefix_a k + limb_a k /\ prefix_b (k + 1) = Base * prefix_b k + limb_b k.
Proof using Hlg Hlg2.
  unfold limb_a, limb_b, prefix_a, prefix_b. replace ((la - (k + 1)) * LIMB_BITS) with ((la - k) * LIMB_BITS - LIMB_BITS) by lia.
  replace ((lb - (k + 1)) * LIMB_BITS + d) with ((lb - k) * LIMB_BITS + d - LIMB_BITS) by lia. split; by apply shiftr_limb.
Qed.

Lemma prefix_limb_ok k : limb_ok (limb_a k) /\ limb_ok (limb_b k).
Proof using Hlg. pose proof (Base_ge lg Hlg). split; apply Z.mod_pos_bound; lia. Qed.

(** The prefixes bound the numbers. *)
Lemma prefix_bounds k : let u := q2 (expn a - k * LIMB_BITS) in
  (qz (prefix_a k) * u <= mag a)%Q /\ (mag a < qz (prefix_a k + 1) * u)%Q /\ (qz (prefix_b k) * u <= mag b)%Q /\ (mag b < qz (prefix_b k + 1) * u)%Q.
Proof using Hlg Na Nb.
  cbv zeta. pose proof (proj1 (val_range lg Hlg _ (proj1 Na))) as Va. pose proof (proj1 (val_range lg Hlg _ (proj1 Nb))) as Vb. unfold BfNum.mag.
  replace (expn a - k * LIMB_BITS) with ((la - k) * LIMB_BITS + (expn a - la * LIMB_BITS)) at 1 2 by lia.
  replace (expn a - k * LIMB_BITS) with ((lb - k) * LIMB_BITS + d + (expn b - lb * LIMB_BITS)) by lia.
  rewrite !(q2_plus _ (_ - _ * LIMB_BITS)), !Qmult_assoc, !q2_le_scale, !q2_lt_scale. destruct (shiftr_floor _ ((la - k) * LIMB_BITS) Va), (shiftr_floor _ ((lb - k) * LIMB_BITS + d) Vb). done.
Qed.

(** From [la + lb + 1] limbs on, the prefixes are exact. *)
Lemma prefix_exact k : la + lb < k -> prefix_b k < prefix_a k.
Proof using All.
  intros Hk. destruct (exp_bounds lg Hlg2) as (B1 & _). pose proof (LIMB_BITS_ge4 lg Hlg2). pose proof (zlen_nonneg (tab a)). pose proof (zlen_nonneg (tab b)).
  apply qz_lt. apply (q2_lt_scale _ _ (expn a - k * LIMB_BITS)).
  assert (qz (prefix_a k) * q2 (expn a - k * LIMB_BITS) == mag a)%Q as ->.
  { unfold BfNum.mag, prefix_a. replace (expn a - k * LIMB_BITS) with ((la - k) * LIMB_BITS + (expn a - la * LIMB_BITS)) by lia.
    rewrite q2_plus, Qmult_assoc, shiftr_exact; [reflexivity|]. apply Z.mul_nonpos_nonneg; lia. }
  assert (qz (prefix_b k) * q2 (expn a - k * LIMB_BITS) == mag b)%Q as ->; [|done].
  unfold BfNum.mag, prefix_b. replace (expn a - k * LIMB_BITS) with ((lb - k) * LIMB_BITS + d + (expn b - lb * LIMB_BITS)) by lia.
  rewrite q2_plus, Qmult_assoc, shiftr_exact; [reflexivity|]. assert ((lb - k + 1) * LIMB_BITS <= 0) by (apply Z.mul_nonpos_nonneg; lia). lia.
Qed.

Lemma prefix_le k : prefix_b k <= prefix_a k.
Proof using All.
  destruct (decide (prefix_b k <= prefix_a k)) as [|F]; [done|]. exfalso. destruct (prefix_bounds k) as (_ & P1 & P2 & _).
  assert (qz (prefix_a k + 1) <= qz (prefix_b k))%Q as Hq by (apply qz_le; lia). apply (q2_le_scale _ _ (expn a - k * LIMB_BITS)) in Hq. lra.
Qed.

(** A difference of prefixes bounds the difference. *)
Lemma prefix_diff k c : 0 <= c < LIMB_BITS -> 2 ^ (LIMB_BITS - 1 - c) <= prefix_a (k + 1) - prefix_b (k + 1) - 1 ->
  (q2 (expn a - (k * LIMB_BITS + c) - 1) <= mag a - mag b)%Q.
Proof using Hlg Na Nb.
  intros Hc Hp. destruct (prefix_bounds (k + 1)) as (P1 & _ & _ & P2). apply qz_le in Hp. rewrite <- q2_Z in Hp by lia.
  apply (q2_le_scale _ _ (expn a - (k + 1) * LIMB_BITS)) in Hp. rewrite <- q2_plus in Hp.
  replace (LIMB_BITS - 1 - c + (expn a - (k + 1) * LIMB_BITS)) with (expn a - (k * LIMB_BITS + c) - 1) in Hp by lia.
  assert (qz (prefix_a (k + 1) - prefix_b (k + 1) - 1) == qz (prefix_a (k + 1)) - qz (prefix_b (k + 1) + 1))%Q as E.
  { rewrite <- (Qplus_inj_r _ _ (qz (prefix_b (k + 1) + 1))), <- qz_plus. replace (_ - _ - 1 + _) with (prefix_a (k + 1)) by lia. ring. }
  rewrite E in Hp. apply (Qle_trans _ _ _ Hp). set (u := q2 (expn a - (k + 1) * LIMB_BITS)) in *. set (x := qz (prefix_a _)) in *. set (y := qz (_ + 1)) in *.
  assert ((x - y) * u == x * u - y * u)%Q as -> by ring. clearbody x y u. lra.
Qed.

Let offset (k : Z) : Z := la * LIMB_BITS - 1 - k * LIMB_BITS.
Let b_offset : Z := (lb - la) * LIMB_BITS - (LIMB_BITS - 1) + expn a - expn b.

(** What the loops read. *)
Lemma cancel_reads k : 0 <= k <= la + lb + 2 ->
  get_limbz lg a (Z.shiftr (offset k) lg) = limb_a k /\ get_bits lg (tab b) (slimb (offset k + b_offset)) = limb_b k /\
  slimb (k * LIMB_BITS + LIMB_BITS) = (k + 1) * LIMB_BITS /\ slimb (offset k - LIMB_BITS) = offset (k + 1).
Proof using All.
  intros Hk. destruct (exp_bounds lg Hlg2) as (B1 & _). pose proof (LIMB_BITS_ge4 lg Hlg2) as HL. pose proof (proj1 Na) as Oa. pose proof (proj1 Nb) as Ob.
  pose proof (zlen_nonneg (tab a)). pose proof (zlen_nonneg (tab b)).
  pose proof (Z.mul_le_mono_nonneg_r k (la + lb + 2) LIMB_BITS ltac:(lia) ltac:(lia)). pose proof (Z.mul_nonneg_nonneg k LIMB_BITS ltac:(lia) ltac:(lia)).
  pose proof (Z.mul_nonneg_nonneg la LIMB_BITS ltac:(lia) ltac:(lia)). pose proof (Z.mul_nonneg_nonneg lb LIMB_BITS ltac:(lia) ltac:(lia)).
  assert ((la + lb + 4) * 1 <= (la + lb + 4) * LIMB_BITS) by (apply Z.mul_le_mono_nonneg_l; lia). unfold offset, b_offset.
  rewrite Z.shiftr_div_pow2 by lia. change (2 ^ lg) with LIMB_BITS.
  replace ((la * LIMB_BITS - 1 - k * LIMB_BITS) / LIMB_BITS) with (la - (k + 1)) by (apply (Z.div_unique _ _ _ (LIMB_BITS - 1)); lia).
  replace (la * LIMB_BITS - 1 - k * LIMB_BITS + _) with ((lb - (k + 1)) * LIMB_BITS + d) by lia.
  rewrite !(slimb_id lg Hlg2) by lia. rewrite (get_limbz_shiftr lg Hlg Hlg2 a _ Oa) by lia. rewrite (get_bits_shiftr lg Hlg Hlg2 _ _ Ob) by lia.
  split; [done|]. split; [done|]. lia.
Qed.

Lemma equal_loop_spec : wp (loop (length (tab a) + length (tab b) + 3) (equal_body lg a b b_offset) (0, offset 0))
  (fun '(v1, v2, n, bo) => exists k, 0 <= k <= la + lb /\ v1 = limb_a k /\ v2 = limb_b k /\ v2 < v1 /\ n = k * LIMB_BITS /\ bo = offset k /\
    prefix_a k = prefix_b k).
Proof using All.
  set (st k := (k * LIMB_BITS, offset k)). pose proof (LIMB_BITS_ge4 lg Hlg2) as HL.
  apply (wp_loopZ (fun s => exists k, s = st k /\ 0 <= k /\ prefix_a k = prefix_b k) (fun '(n, _) => la + lb + 1 - n / LIMB_BITS)).
  - exists 0. split; [done|]. split; [done|]. unfold prefix_a, prefix_b.
    pose proof (val_range lg Hlg _ (proj1 Na)) as Ra. pose proof (val_range lg Hlg _ (proj1 Nb)) as Rb. rewrite (Base_pow lg Hlg) in Ra, Rb by apply zlen_nonneg.
    rewrite (shiftr_high _ _ _ Ra), (shiftr_high _ _ _ Rb) by lia. done.
  - rewrite Z.div_0_l by lia. unfold zlen. lia.
  - intros s (k & -> & Hk & E). unfold st, equal_body. assert (k <= la + lb) as Hk2 by (destruct (decide (la + lb < k)) as [F|]; [pose proof (prefix_exact k F); lia|lia]).
    destruct (cancel_reads k ltac:(lia)) as (-> & -> & -> & ->). destruct (prefix_step k) as [S1 S2]. pose proof (prefix_le (k + 1)).
    destruct (limb_a k =? limb_b k) eqn:Ev; cbn [negb wp]; zbool.
    + split; [exists (k + 1); split; [done|]; lia|]. rewrite !Z.div_mul by lia. lia.
    + exists k. split_and!; try done; lia.
  - intros s (k & -> & Hk & E). unfold st. rewrite Z.div_mul by lia. destruct (decide (la + lb < k)) as [F|]; [pose proof (prefix_exact k F); lia|lia].
Qed.

Definition cancelled (n : Z) : Prop := 0 <= n <= (la + lb + 3) * LIMB_BITS /\ (q2 (expn a - n - 1) <= mag a - mag b)%Q.

Lemma borrow_loop_spec j : 0 <= j <= la + lb + 1 -> prefix_a j = prefix_b j + 1 ->
  wp (loop (length (tab a) + length (tab b) + 3) (borrow_body lg a b b_offset) (j * LIMB_BITS, offset j)) cancelled.
Proof using All.
  intros Hj Ej. set (st k := (k * LIMB_BITS, offset k)). pose proof (LIMB_BITS_ge4 lg Hlg2) as HL. pose proof (zlen_nonneg (tab a)). pose proof (zlen_nonneg (tab b)).
  pose proof (Base_ge lg Hlg). destruct (exp_bounds lg Hlg2) as (B1 & _).
  apply (wp_loopZ (fun s => exists k, s = st k /\ 0 <= k <= la + lb + 1 /\ prefix_a k = prefix_b k + 1) (fun '(n, _) => la + lb + 1 - n / LIMB_BITS)).
  - by exists j.
  - rewrite Z.div_mul by lia. unfold zlen. lia.
  - intros s (k & -> & Hk & E). unfold st, borrow_body. destruct (cancel_reads k ltac:(lia)) as (-> & -> & -> & ->). destruct (prefix_step k) as [S1 S2].
    destruct (prefix_limb_ok k) as [O1 O2]. rewrite (limb_minus_1 lg Hlg). unfold Limb.limb_ok in O1, O2.
    assert (limb (- limb_b k - 1) = Base - 1 - limb_b k) as ->.
    { replace (- limb_b k - 1) with (Base - 1 - limb_b k + (-1) * Base) by lia. unfold Limb.limb. rewrite Z.mod_add, Z.mod_small by lia. done. }
    destruct (negb (limb_a k =? 0) || negb (limb_b k =? Base - 1)) eqn:Ev; cbn [wp].
    + destruct (clz_sum (limb_a k) (Base - 1 - limb_b k)) as [C1 C2]; [unfold Limb.limb_ok; lia..|zbool; lia|]. set (c := bf_min _ _) in *.
      pose proof (Z.mul_le_mono_nonneg_r k (la + lb + 1) LIMB_BITS ltac:(lia) ltac:(lia)). pose proof (Z.mul_nonneg_nonneg k LIMB_BITS ltac:(lia) ltac:(lia)).
      rewrite (slimb_id lg Hlg2) by lia. split; [lia|]. apply (prefix_diff k c C1). rewrite S1, S2. lia.
    + apply orb_false_iff in Ev as [E1 E2]. zbool. assert (k <> la + lb + 1).
      { intros ->. unfold limb_b, prefix_b in E2. rewrite shiftr_outside in E2 by (done || apply Nb || left; nia). lia. }
      split; [exists (k + 1); split; [done|]; lia|]. rewrite !Z.div_mul by lia. lia.
  - intros s (k & -> & Hk & E). unfold st. rewrite Z.div_mul by lia. lia.
Qed.

Lemma count_cancelled_bits_spec : wp (count_cancelled_bits lg a b) cancelled.
Proof using All.
  destruct (exp_bounds lg Hlg2) as (B1 & B2 & B3). pose proof (LIMB_BITS_ge4 lg Hlg2) as HL. pose proof (zlen_nonneg (tab a)). pose proof (zlen_nonneg (tab b)).
  pose proof (Z.mul_nonneg_nonneg la LIMB_BITS ltac:(lia) ltac:(lia)). pose proof (Z.mul_nonneg_nonneg lb LIMB_BITS ltac:(lia) ltac:(lia)).
  unfold count_cancelled_bits. rewrite !(slimb_id lg Hlg2 (_ * LIMB_BITS - 1)), (slimb_id lg Hlg2 (_ - expn b)) by lia. fold b_offset.
  replace (la * LIMB_BITS - 1) with (offset 0) by (unfold offset; lia). apply wp_bind. eapply wp_mono; [exact equal_loop_spec|].
  intros [[[v1 v2] n] bo] (k & Hk & -> & -> & Hv & -> & -> & Ek). destruct (cancel_reads k ltac:(lia)) as (_ & _ & _ & ->).
  destruct (prefix_limb_ok k) as [O1 O2]. destruct (first_difference _ _ O1 O2 Hv) as [Hs Ed]. destruct (prefix_step k) as [S1 S2].
  pose proof (Z.mul_le_mono_nonneg_r k (la + lb) LIMB_BITS ltac:(lia) ltac:(lia)). pose proof (Z.mul_nonneg_nonneg k LIMB_BITS ltac:(lia) ltac:(lia)).
  set (s := LIMB_BITS - (clz (Z.lxor _ _) + 1)) in *. replace (clz (Z.lxor _ _) + 1) with (LIMB_BITS - s) by (unfold s; lia).
  clearbody s. rewrite (slimb_id lg Hlg2 (_ + (LIMB_BITS - s))) by lia.
  apply wp_bind. apply (wp_mono _ cancelled); cycle 1.
  { intros n [Hn Hc]. cbn [wp]. rewrite limb_id by (unfold Limb.limb_ok; lia). by split. }
  assert (forall n, n = (k + 1) * LIMB_BITS -> limb_a k = limb_b k + 1 ->
    wp (loop (length (tab a) + length (tab b) + 3) (borrow_body lg a b b_offset) (n, offset (k + 1))) cancelled) as Hsecond.
  { intros n -> E1. apply borrow_loop_spec; lia. }
  destruct (s >? 0) eqn:Es; zbool; [|assert (s = 0) as -> by lia; rewrite !Z.div_1_r in Ed; apply Hsecond; lia].
  destruct (difference_bits _ _ s O1 O2 ltac:(lia) Ed) as (W1 & W2 & W). set (w1 := Z.land (limb_a k) _) in *. set (w2 := Z.land (limb _) _) in *.
  destruct (small_clz w1 s W1 ltac:(lia)) as (L1 & C1 & Z1). destruct (small_clz w2 s W2 ltac:(lia)) as (L2 & C2 & Z2).
  pose proof (clz_sum w1 w2 L1 L2) as Hsum. cbv zeta in Hsum. rewrite !bf_min_min in *. set (c := Z.min _ _) in *.
  replace (LIMB_BITS - (LIMB_BITS - s)) with s in * by lia. assert (LIMB_BITS - s <= c <= LIMB_BITS) as Hc by (unfold c; lia).
  replace (k * LIMB_BITS + (LIMB_BITS - s) + (c - (LIMB_BITS - s))) with (k * LIMB_BITS + c) by lia. rewrite (slimb_id lg Hlg2) by lia.
  assert (c = LIMB_BITS \/ w1 <> 0 \/ w2 <> 0) as Hcase by (destruct (decide (w1 = 0)), (decide (w2 = 0)); [left|right; lia..]; unfold c; rewrite e, e0; apply Z.min_id).
  destruct (negb (c - _ =? s)) eqn:Ec; zbool.
  - cbn [wp]. destruct Hcase as [|Hnz]; [lia|]. destruct (Hsum Hnz) as [C3 C4]. split; [lia|]. apply (prefix_diff k c C3). rewrite S1, S2. lia.
  - apply Hsecond; [lia|]. assert (c = LIMB_BITS) by lia. unfold c in *. rewrite Z1, Z2 in W by lia. lia.
Qed.
End cancel.

(** ** The sticky bit of a sum *)

Lemma qz_sub x y : (qz (x - y) == qz x - qz y)%Q.
Proof using . unfold Z.sub. rewrite qz_plus. unfold qz. rewrite inject_Z_opp. reflexivity. Qed.

(** An integer cut at bit [k]. *)
Lemma cut_bounds E low k Y : 0 <= k -> 0 <= low < 2 ^ k -> E = low + 2 ^ k * Y ->
  let X := (qz E * q2 (- k))%Q in (qz Y <= X)%Q /\ (X < qz (Y + 1))%Q /\ Qeq_bool X (qz Y) = (low =? 0).
Proof using .
  intros Hk Hlow HE X. assert (forall m, (qz m == qz (m * 2 ^ k) * q2 (- k))%Q) as Hz.
  { intros m. rewrite qz_mult, <- q2_Z by done. rewrite <- Qmult_assoc, q2_inv. ring. }
  unfold X. split; [rewrite (Hz Y), q2_le_scale, qz_le; lia|]. split; [rewrite (Hz (Y + 1)), q2_lt_scale, qz_lt; lia|].
  apply eq_iff_eq_true. rewrite Qeq_bool_iff, (Hz Y), q2_eq_scale, qz_eq, Z.eqb_eq. lia.
Qed.

(** The low bit of a number of limbs, below a carry. *)
Lemma lor_1_carry v P c : Z.even P = true -> Z.lor v 1 + P * c = Z.lor (v + P * c) 1.
Proof using . intros HP. rewrite !lor_1, Z.even_add, Z.even_mul, HP. cbn. destruct (Z.even v); cbn; lia. Qed.

Lemma Base_pow_even n : 0 < n -> Z.even (Base ^ n) = true.
Proof using Hlg. intros Hn. destruct (Base_even lg Hlg) as [h Hh]. by rewrite Z.even_pow, Hh, even_double. Qed.

(** [r->tab[0] |= (z != 0)]. *)
Lemma set_sticky q (z : bool) : limbs_ok q -> 0 < zlen q ->
  exists t, (t0 ← rd q 0; wr q 0 (Z.lor t0 (Zb z))) = Some t /\ limbs_ok t /\ zlen t = zlen q /\ val t = if z then Z.lor (val q) 1 else val q.
Proof using Hlg.
  intros Oq Lq. destruct q as [|q0 q]; [done|]. change (rd (q0 :: q) 0) with (Some q0). cbn [mbind option_bind].
  exists (Z.lor q0 (Zb z) :: q). split; [done|]. unfold Limb.limbs_ok in *. rewrite Forall_cons in Oq |- *. destruct Oq as [O0 O1]. rewrite !zlen_cons.
  destruct (val_sticky lg Hlg q0 q O0) as [V O]. destruct z; cbn [Zb]; [by split_and!|]. by rewrite Z.lor_0_r.
Qed.

(** The limb for the carry. *)
Lemma grow_carry r len : zlen (tab r) = len -> exists err r', bf_resize bf_realloc r (len + 1) = (err, r') /\ sign r' = sign r /\ expn r' = expn r /\
  (err = -1 /\ bf_refuses bf_realloc \/ err = 0 /\ wr (tab r') len 1 = Some (tab r ++ [1])).
Proof using HR.
  intros Hl. pose proof (zlen_nonneg (tab r)). pose proof (bf_resize_spec bf_realloc HR r (len + 1) ltac:(lia)) as H1.
  destruct (bf_resize bf_realloc r (len + 1)) as [err r']. destruct H1 as (E1 & E2 & H1). exists err, r'. split_and!; try done.
  destruct H1 as [(-> & L & K)|(-> & _ & _ & ?)]; [right; split; [done|]|by left]. destruct (split_last (tab r') ltac:(lia)) as (t & x & Et & Lt).
  assert (t = tab r) as ->. { apply list_ext; [lia|]. intros i Hi. rewrite <- K, Et by lia. symmetry. apply rd_app_l. lia. }
  rewrite Et, wr_upd by (rewrite zlen_app; change (zlen [x]) with 1; lia). f_equal. apply upd_mid. lia.
Qed.

(** ** The finite case *)

(** The operands are small enough for the positions of the bits: the longest
    result that is computed, and the exponents. *)
Definition add_size (a b : bf_t) (prec : Z) : Prop :=
  let len := zlen (tab a) + zlen (tab b) in
  let dist := Z.abs (expn a - expn b) in
  let top := Z.max (expn a) (expn b) in
  (2 * len + 9) * LIMB_BITS + Z.min prec dist < EXP_BOUND /\ dist + (len + 2) * LIMB_BITS < 2 * EXP_BOUND /\
  - EXP_BOUND < top - (len + 3) * LIMB_BITS /\ top + 1 < EXP_BOUND.

Section finite.
Context (a b : bf_t) (is_sub prec flags : Z).
Notation la := (zlen (tab a)).
Notation lb := (zlen (tab b)).
Notation d := (expn a - expn b).
Context (Fa : bf_finite lg a) (Fb : bf_finite lg b) (Hf : op_flags lg flags prec) (Hrad : has_flag flags BF_FLAG_RADPNT_PREC = false).
Context (Hsub : is_sub = 0 \/ is_sub = 1) (Hle : (mag b <= mag a)%Q) (Hlt : is_sub = 1 -> (mag b < mag a)%Q) (Hsz : add_size a b prec).

(** The exact result. *)
Definition exact : Q := if is_sub =? 0 then (mag a + mag b)%Q else (mag a - mag b)%Q.

Lemma d_nonneg : 0 <= d.
Proof using All.
  destruct (decide (0 <= d)) as [|F]; [done|]. exfalso. destruct Fa as (_ & Na & _), Fb as (_ & Nb & _).
  destruct (normal_exponent lg Hlg a Na), (normal_exponent lg Hlg b Nb). pose proof (q2_le (expn a) (expn b - 1) ltac:(lia)). lra.
Qed.

(** Enough bits for the rounding: at most [n] leading bits are cancelled. *)
Lemma cancelled_bits_spec :
  wp (if negb (is_sub =? 0) then if d <=? 1 then count_cancelled_bits lg a b else Some 1 else Some 0)
    (fun n => 0 <= n <= (la + lb + 3) * LIMB_BITS /\ (q2 (expn a - n - 1) <= exact)%Q).
Proof using All.
  pose proof d_nonneg. destruct Fa as (_ & Na & _), Fb as (_ & Nb & _). pose proof (LIMB_BITS_ge4 lg Hlg2). pose proof (proj1 (proj2 Na)). pose proof (proj1 (proj2 Nb)).
  destruct (normal_exponent lg Hlg a Na) as [A1 A2], (normal_exponent lg Hlg b Nb) as [B1 B2]. pose proof (mag_pos lg Hlg b Nb) as Pb.
  assert (1 * LIMB_BITS <= (la + lb + 3) * LIMB_BITS) by (apply Z.mul_le_mono_nonneg_r; lia). unfold exact.
  destruct Hsub as [-> | ->]; cbn [Z.eqb negb].
  - cbn [wp]. split; [lia|]. rewrite Z.sub_0_r. lra.
  - destruct (d <=? 1) eqn:E; zbool.
    + eapply wp_mono; [apply (count_cancelled_bits_spec a b Na Nb); [lia|by apply Hlt|]|by intros n Hn]. destruct Hsz as (S1 & _). destruct Hf as (_ & Hp & _). lia.
    + cbn [wp]. split; [lia|]. pose proof (q2_le (expn b) (expn a - 2) ltac:(lia)) as Hq. replace (expn a - 1 - 1) with (expn a - 2) by lia.
      replace (expn a - 1) with (expn a - 2 + 1) in A1 by lia. rewrite q2_plus in A1. change (q2 1) with 2%Q in A1. pose proof (q2_pos (expn a - 2)). lra.
Qed.

(** The exponent of the exact result. *)
Lemma exact_exponent n : 0 <= n -> (q2 (expn a - n - 1) <= exact)%Q -> exists e, expn a - n <= e <= expn a + 1 /\ (q2 (e - 1) <= exact)%Q /\ (exact < q2 e)%Q.
Proof using All.
  intros Hn Hx. destruct Fa as (_ & Na & _), Fb as (_ & Nb & _). destruct (normal_exponent lg Hlg a Na) as [A1 A2]. pose proof (mag_pos lg Hlg b Nb) as Pb.
  assert (exact < q2 (expn a + 1))%Q as Hu.
  { rewrite q2_plus. change (q2 1) with 2%Q. unfold exact. destruct (is_sub =? 0); lra. }
  replace (expn a + 1) with (expn a - n + (n + 1)) in Hu by lia. replace (n + 1) with (Z.of_nat (Z.to_nat (n + 1))) in Hu by lia.
  assert (expn a - n + Z.of_nat (Z.to_nat (n + 1)) <= expn a + 1) as Hm by lia. revert Hm Hu. generalize (Z.to_nat (n + 1)). intros m. induction m as [|m IH]; intros Hm Hu.
  - exists (expn a - n). rewrite Z.add_0_r in Hu. split; [lia|done].
  - destruct (Qlt_le_dec exact (q2 (expn a - n + Z.of_nat m))) as [Hc|Hc]; [apply IH; [lia|done]|].
    exists (expn a - n + Z.of_nat (S m)). split; [lia|]. split; [|done]. by replace (_ - 1) with (expn a - n + Z.of_nat m) by lia.
Qed.

(** The aligned operands are the operands. *)
Lemma aligned_a_mag tot : la <= tot -> (mag a == qz (aligned_a lg a tot) * q2 (expn a - tot * LIMB_BITS))%Q.
Proof using All.
  intros Ht. pose proof (LIMB_BITS_ge4 lg Hlg2). unfold BfNum.mag, aligned_a. rewrite qz_mult, <- q2_Z, <- Qmult_assoc, <- q2_plus by (apply Z.mul_nonneg_nonneg; lia).
  by replace ((tot - la) * LIMB_BITS + (expn a - tot * LIMB_BITS)) with (expn a - la * LIMB_BITS) by lia.
Qed.
Lemma aligned_b_mag tot : lb * LIMB_BITS + d <= tot * LIMB_BITS -> (mag b == qz (aligned_b lg b tot d) * q2 (expn a - tot * LIMB_BITS))%Q.
Proof using All.
  intros Ht. unfold BfNum.mag, aligned_b. rewrite qz_mult, <- q2_Z, <- Qmult_assoc, <- q2_plus by lia.
  by replace ((tot - lb) * LIMB_BITS - d + (expn a - tot * LIMB_BITS)) with (expn b - lb * LIMB_BITS) by lia.
Qed.

(** The rounding of the limbs the loops leave: [c] is the carry limb. *)
Lemma add_round n r_len tot low v c sg t ex : 0 <= n <= (la + lb + 3) * LIMB_BITS -> (q2 (expn a - n - 1) <= exact)%Q ->
  0 < r_len <= tot -> tot = Z.max la (lb + (d + LIMB_BITS - 1) / LIMB_BITS) ->
  (la + lb + r_len + 3) * LIMB_BITS < EXP_BOUND -> r_len = tot \/ n + prec + 2 <= r_len * LIMB_BITS ->
  0 <= low < Base ^ (tot - r_len) ->
  (if is_sub =? 0 then aligned_a lg a tot + aligned_b lg b tot d else aligned_a lg a tot - aligned_b lg b tot d) = low + Base ^ (tot - r_len) * v ->
  0 <= c <= 1 -> limbs_ok t -> zlen t = r_len + c -> val t = (if low =? 0 then v else Z.lor v 1) -> ex = expn a + c * LIMB_BITS -> sg = 0 \/ sg = 1 ->
  wp (bf_normalize_and_round lg bf_realloc (Bf sg ex t) prec flags) (fun '(ret, r') => op_result lg bf_realloc flags prec sg exact ret r').
Proof using All.
  intros Hn Hx Hr Htot Hlen Hbits Hlow HE Hc Ot Lt Vt Hex Hsg. pose proof (LIMB_BITS_ge4 lg Hlg2). destruct (exp_bounds lg Hlg2) as (B1 & _).
  destruct (exact_exponent n ltac:(lia) Hx) as (e & He & E1 & E2). destruct Hsz as (S1 & S2 & S3 & S4). pose proof d_nonneg.
  pose proof Fa as (_ & Na & Ea). pose proof Fb as (_ & Nb & Eb). pose proof (proj1 (proj2 Na)) as La. pose proof (proj1 (proj2 Nb)) as Lb.
  destruct (tot_bounds lg bf_realloc Hlg Hlg2 HR a b r_len tot d is_sub (proj1 Na) (proj1 Nb) La Lb ltac:(lia) Hsub Hr Htot ltac:(lia) ltac:(lia)) as (T1 & T2 & _).
  rewrite (Base_pow lg Hlg) in HE, Hlow by lia. set (k := (tot - r_len) * LIMB_BITS) in *. assert (0 <= k) as Hk by (apply Z.mul_nonneg_nonneg; lia).
  set (E := if is_sub =? 0 then _ else _) in *. destruct (cut_bounds E low k v Hk Hlow HE) as (X1 & X2 & Xeq).
  assert (qz E * q2 (- k) * q2 (expn a - r_len * LIMB_BITS) == exact)%Q as HX.
  { rewrite <- Qmult_assoc, <- q2_plus. replace (- k + _) with (expn a - tot * LIMB_BITS) by (unfold k; lia). unfold exact, E. destruct (is_sub =? 0).
    - rewrite qz_plus, (aligned_a_mag tot), (aligned_b_mag tot) by done. ring.
    - rewrite qz_sub, (aligned_a_mag tot), (aligned_b_mag tot) by done. ring. }
  apply (sticky_round lg bf_realloc Hlg Hlg2 HR (Bf sg ex t) (qz E * q2 (- k)) v (expn a - r_len * LIMB_BITS) e); cbn [tab expn sign]; try done.
  - destruct Hbits as [-> |Hb].
    + left. apply Qeq_bool_iff. rewrite Xeq. unfold k in Hlow. rewrite Z.sub_diag, Z.mul_0_l, Z.pow_0_r in Hlow. lia.
    + right. split; [done|]. apply (q2_le_scale _ _ (expn a - r_len * LIMB_BITS)). rewrite HX, <- q2_plus. eapply Qle_trans; [apply q2_le|exact Hx]. lia.
  - rewrite Lt. assert (c * LIMB_BITS <= 1 * LIMB_BITS) by (apply Z.mul_le_mono_nonneg_r; lia).
    assert (0 <= (la + lb) * LIMB_BITS) by (apply Z.mul_nonneg_nonneg; lia). lia.
  - assert (0 <= c * LIMB_BITS <= 1 * LIMB_BITS) by (split; [apply Z.mul_nonneg_nonneg|apply Z.mul_le_mono_nonneg_r]; lia).
    pose proof (LIMB_BITS_le_EXP_BOUND lg Hlg2). lia.
  - unfold BfNum.mag. cbn [tab expn]. rewrite Xeq, Vt, Lt, Hex. replace (expn a + c * LIMB_BITS - _) with (expn a - r_len * LIMB_BITS) by lia. reflexivity.
  - lia.
Qed.

(** The length of the result. *)
Lemma r_len_bounds n : 0 <= n <= (la + lb + 3) * LIMB_BITS ->
  let tot := Z.max la (lb + (d + LIMB_BITS - 1) / LIMB_BITS) in
  let precl := (n + prec + 2 + LIMB_BITS - 1) / LIMB_BITS in
  let r_len := Z.min precl tot in
  0 < r_len <= tot /\ (la + lb + r_len + 3) * LIMB_BITS < EXP_BOUND /\ (r_len = tot \/ n + prec + 2 <= r_len * LIMB_BITS).
Proof using All.
  intros Hn tot precl r_len. pose proof (LIMB_BITS_ge4 lg Hlg2) as HL. destruct Hsz as (S1 & _). pose proof d_nonneg as Hd. pose proof Hf as (_ & Hp & _).
  pose proof (proj1 (proj2 (proj1 (proj2 Fa)))) as La. pose proof (proj1 (proj2 (proj1 (proj2 Fb)))) as Lb.
  assert (n + prec + 2 <= precl * LIMB_BITS <= n + prec + 1 + LIMB_BITS) as Hpl by (unfold precl; clear - HL; Z.div_mod_to_equations; lia).
  set (k := (d + LIMB_BITS - 1) / LIMB_BITS) in *. assert (0 <= k * LIMB_BITS <= d + LIMB_BITS - 1) as Hk by (unfold k; clear - HL Hd; Z.div_mod_to_equations; lia).
  assert (0 < precl) as Hpp by (apply (Z.mul_pos_cancel_r precl LIMB_BITS); lia). assert (0 <= k) as Hk0 by (apply Z.div_pos; lia).
  assert (0 <= la * LIMB_BITS /\ 0 <= lb * LIMB_BITS) as [M1 M2] by (split; apply Z.mul_nonneg_nonneg; lia).
  assert (r_len * LIMB_BITS <= precl * LIMB_BITS) as H1 by (apply Z.mul_le_mono_nonneg_r; unfold r_len; lia).
  assert (r_len * LIMB_BITS <= (la + lb + k) * LIMB_BITS) as H2 by (apply Z.mul_le_mono_nonneg_r; unfold r_len, tot; lia).
  split; [unfold r_len, tot; lia|]. split; [clearbody precl k r_len; lia|]. destruct (Z.min_spec precl tot) as [[? E]|[? E]]; fold r_len in E; rewrite E in *; [right|left]; lia.
Qed.

Lemma aligned_le : let tot := Z.max la (lb + (d + LIMB_BITS - 1) / LIMB_BITS) in is_sub = 1 -> aligned_b lg b tot d <= aligned_a lg a tot.
Proof using All.
  intros tot _. pose proof (LIMB_BITS_ge4 lg Hlg2) as HL. pose proof d_nonneg as Hd. 
  set (k := (d + LIMB_BITS - 1) / LIMB_BITS) in *. assert (d <= k * LIMB_BITS) as Hk by (unfold k; clear - HL Hd; Z.div_mod_to_equations; lia).
  assert ((lb + k) * LIMB_BITS <= tot * LIMB_BITS) by (apply Z.mul_le_mono_nonneg_r; unfold tot; lia).
  apply qz_le, (q2_le_scale _ _ (expn a - tot * LIMB_BITS)). rewrite <- aligned_a_mag, <- aligned_b_mag by (unfold tot in *; lia). done.
Qed.

Lemma add_finite_spec r sg : sg = 0 \/ sg = 1 ->
  wp (add_finite lg bf_realloc r a b sg is_sub prec flags) (fun '(ret, r') => op_result lg bf_realloc flags prec sg exact ret r').
Proof using All.
  intros Hsg. pose proof (LIMB_BITS_ge4 lg Hlg2) as HL. destruct (exp_bounds lg Hlg2) as (B1 & B2 & B3). pose proof Hsz as (S1 & S2 & S3 & S4). pose proof d_nonneg as Hd.
  pose proof Fa as (_ & Na & Ea). pose proof Fb as (_ & Nb & Eb). pose proof (proj1 (proj2 Na)) as La. pose proof (proj1 (proj2 Nb)) as Lb. pose proof Hf as (_ & Hp & _).
  pose proof (PREC_INF_eq lg) as HI. pose proof (LIMB_BITS_le_EXP_BOUND lg Hlg2).
  assert (0 <= la * LIMB_BITS /\ 0 <= lb * LIMB_BITS) as [M1 M2] by (split; apply Z.mul_nonneg_nonneg; lia).
  assert (slimb (expn a + LIMB_BITS) = expn a + LIMB_BITS) as Hsl by (apply slimb_id; lia).
  unfold add_finite. cbn [expn tab sign]. rewrite (slimb_id lg Hlg2 d) by lia. apply wp_bind. eapply wp_mono; [exact cancelled_bits_spec|].
  intros n [Hn Hx]. cbv beta. rewrite (slimb_id lg Hlg2 (d + LIMB_BITS - 1)) by lia. rewrite (limb_id lg (n + _ + _ + _ - _)) by (unfold Limb.limb_ok; lia).
  rewrite Z.quot_div_nonneg by lia. rewrite bf_min_min.
  replace (bf_max la _) with (Z.max la (lb + (d + LIMB_BITS - 1) / LIMB_BITS)) by (unfold bf_max; destruct (_ >? _) eqn:E; zbool; lia).
  set (tot := Z.max la _). set (precl := (n + prec + 2 + LIMB_BITS - 1) / LIMB_BITS). set (r_len := Z.min precl tot).
  destruct (r_len_bounds n Hn) as (R1 & R2 & R3). fold tot precl r_len in R1, R2, R3.
  destruct (bf_resize_nz bf_realloc HR (Bf sg (expn a) (tab r)) r_len ltac:(lia)) as (err & r' & -> & Hs' & He' & [(-> & Hl)|(-> & _ & _ & Hoom)]); cbn [Z.eqb negb sign expn] in *;
    [|left; split; [done|]; by rewrite bf_set_nan_eq].
  assert (0 <= r_len * LIMB_BITS) as M3 by (apply Z.mul_nonneg_nonneg; lia). rewrite (slimb_id lg Hlg2 (_ * LIMB_BITS + d)) by lia.
  pose proof (sum_spec lg bf_realloc Hlg Hlg2 HR a b r_len tot d is_sub (proj1 Na) (proj1 Nb) La Lb Hd Hsub R1 eq_refl ltac:(lia) ltac:(lia)) as Hsum.
  destruct (loop _ _ _) as [[carry z]|]; cbn [mbind option_bind wp] in *; [|by apply Hsum, aligned_le].
  destruct (high_loop _ _ _ _ _) as [res c]. destruct Hsum as (Ores & Lres & Hc & low & Hlow & Hz & HE); [by apply aligned_le|].
  replace (splice (tab r') 0 res) with (Some res) by (symmetry; apply (splice_tail [] (tab r') res 0); [done|by rewrite Lres, Hl]). cbn [mbind option_bind].
  destruct (set_sticky res (negb (z =? 0)) Ores ltac:(rewrite Lres; apply R1)) as (t & Ht & Ot & Lt & Vt). rewrite bind_assoc, Ht. cbn [mbind option_bind].
  assert (forall x y : Z, (if negb (z =? 0) then x else y) = if low =? 0 then y else x) as Hif
    by (intros x y; destruct (z =? 0) eqn:E1, (low =? 0) eqn:E2; zbool; (done || tauto)). rewrite Hif in Vt.
  pose proof (Base_pow_even r_len (proj1 R1)) as Hev. pose proof (fun v c sg t ex => add_round n r_len tot low v c sg t ex Hn Hx R1 eq_refl R2 R3 Hlow) as Hround.
  clear S1 S2 S3 S4 R2 R3 Hx Hlow Hz Hn M1 M2 M3 Ht Hif. clearbody tot r_len. destruct ((is_sub =? 0) && negb (c =? 0)) eqn:Ecase.
  - destruct (grow_carry (set_tab r' t) r_len ltac:(cbn; lia)) as (err & r1 & -> & Hs1 & He1 & [[-> Hoom]|(-> & Hw)]); cbn [Z.eqb negb sign expn set_tab tab] in *;
      [left; split; [done|]; by rewrite bf_set_nan_eq|]. rewrite Hw. cbn [mbind option_bind]. rewrite Hs1, He1, Hs', He', Hsl.
    apply andb_true_iff in Ecase as [Es Ec]. rewrite Es in HE, Hround. assert (c = 1) as -> by (zbool; lia). rewrite Z.mul_1_r in HE.
    apply (Hround _ 1 _ _ _ HE); [lia| | | |lia|done].
    + apply limbs_ok_app. split; [done|]. constructor; [|constructor]. unfold Limb.limb_ok. pose proof (Base_ge lg Hlg). lia.
    + rewrite zlen_app. change (zlen [1]) with 1. lia.
    + rewrite val_app, Lt, Lres by done. cbn [Limb.val]. rewrite Vt. pose proof (lor_1_carry (val res) (Base ^ r_len) 1 Hev) as Hl1. rewrite !Z.mul_1_r in Hl1.
      clear Hround HE. destruct (low =? 0); lia.
  - destruct r' as [sr er tr]. unfold set_tab. cbn [sign expn tab] in *. subst sr er.
    assert ((if is_sub =? 0 then c else 0) = 0) as Ec by (clear Hround HE; destruct (is_sub =? 0); [cbn [andb] in Ecase; zbool; lia|done]).
    rewrite Ec, Z.mul_0_r, Z.add_0_r in HE. apply (Hround _ 0 _ _ _ HE); [lia|done|lia|done|lia|done].
Qed.
End finite.

(** ** The whole operation *)

(** The value of a number of sign [sg]; the rounded sum [x], where an exact zero
    has the sign of the rounding mode. *)
Definition signed (sg : Z) (x : Q) : Q := if sg =? 1 then (- x)%Q else x.

Definition sum_result (flags prec : Z) (x : Q) (ret : Z) (r : bf_t) : Prop :=
  if Qeq_bool x 0 then ret = 0 /\ r = Bf (Zb (Z.land flags BF_RND_MASK =? BF_RNDD)) (BF_EXP_ZERO lg) []
  else op_result lg bf_realloc flags prec (Zb (negb (Qle_bool 0 x))) (Qabs x) ret r.

Lemma sum_result_eq flags prec x y ret r : (x == y)%Q -> sum_result flags prec x ret r -> sum_result flags prec y ret r.
Proof using .
  intros E. unfold sum_result. rewrite (Qeqb_comp _ _ E 0%Q 0%Q (Qeq_refl _)), (Qleb_comp 0%Q 0%Q (Qeq_refl _) _ _ E).
  destruct (Qeq_bool y 0); [done|]. apply op_result_eq. by rewrite E.
Qed.

Lemma signed_result flags prec sg m x ret r : sg = 0 \/ sg = 1 -> (0 < m)%Q -> (x == signed sg m)%Q ->
  op_result lg bf_realloc flags prec sg m ret r -> sum_result flags prec x ret r.
Proof using .
  intros Hsg Hm Hx Hop. apply (sum_result_eq _ _ (signed sg m)); [by symmetry|]. unfold sum_result, signed.
  assert (forall y z, ~ (y == z)%Q -> Qeq_bool y z = false) as Hne by (intros y z; rewrite <- not_true_iff_false; by rewrite Qeq_bool_iff).
  destruct Hsg as [-> | ->]; cbn [Z.eqb Pos.eqb].
  - rewrite Hne by lra. rewrite (proj2 (Qle_bool_iff 0 m)) by lra. cbn [negb Zb]. apply (op_result_eq _ _ _ _ _ m); [|done]. rewrite Qabs_pos by lra. reflexivity.
  - rewrite Hne by lra. replace (Qle_bool 0 (- m)) with false; [|symmetry; apply not_true_iff_false; rewrite Qle_bool_iff; lra].
    cbn [negb Zb]. apply (op_result_eq _ _ _ _ _ m); [|done]. rewrite Qabs_opp, Qabs_pos by lra. reflexivity.
Qed.

(** The larger operand first. *)
Lemma add_ordered r a b sa sb prec flags : bf_finite lg a -> bf_finite lg b -> op_flags lg flags prec -> has_flag flags BF_FLAG_RADPNT_PREC = false ->
  sa = 0 \/ sa = 1 -> sb = 0 \/ sb = 1 -> add_size a b prec -> (mag b <= mag a)%Q -> (sa <> sb -> (mag b < mag a)%Q) ->
  wp (add_finite lg bf_realloc r a b sa (if sa =? sb then 0 else 1) prec flags)
    (fun '(ret, r') => sum_result flags prec (signed sa (mag a) + signed sb (mag b)) ret r').
Proof using All.
  intros Fa Fb Hf Hrad Hsa Hsb Hsz Hle Hlt. pose proof (mag_pos lg Hlg b (proj1 (proj2 Fb))) as Pb. set (is_sub := if sa =? sb then 0 else 1).
  assert (is_sub = 0 \/ is_sub = 1) as Hsub by (unfold is_sub; destruct (_ =? _); auto).
  assert (is_sub = 1 -> (mag b < mag a)%Q) as Hlt' by (intros E; apply Hlt; unfold is_sub in E; destruct (sa =? sb) eqn:F; [done|zbool; done]).
  eapply wp_mono; [by apply (add_finite_spec a b is_sub prec flags Fa Fb Hf Hrad Hsub Hle Hlt' Hsz)|]. intros [ret r'] Hop.
  assert (0 < exact a b is_sub)%Q as Hpos by (unfold exact, is_sub in *; destruct (sa =? sb); cbn [Z.eqb] in *; [lra|specialize (Hlt' eq_refl); lra]).
  apply (signed_result flags prec sa (exact a b is_sub)); [done|done| |done].
  unfold signed, exact, is_sub. destruct Hsa as [-> | ->], Hsb as [-> | ->]; cbn [Z.eqb Pos.eqb]; ring.
Qed.

Lemma add_size_sym a b prec : add_size a b prec -> add_size b a prec.
Proof using .
  unfold add_size. cbv zeta. rewrite (Z.add_comm (zlen (tab b))), (Z.max_comm (expn b)). by replace (Z.abs (expn b - expn a)) with (Z.abs (expn a - expn b)) by lia.
Qed.

(** The finite operands of [bf_add_internal]. *)
Lemma bf_add_internal_spec r a b prec flags b_neg : bf_finite lg a -> bf_finite lg b -> op_flags lg flags prec -> has_flag flags BF_FLAG_RADPNT_PREC = false ->
  b_neg = 0 \/ b_neg = 1 -> add_size a b prec ->
  wp (bf_add_internal lg bf_realloc r a b prec flags b_neg)
    (fun '(ret, r') => sum_result flags prec (signed (sign a) (mag a) + signed (Z.lxor (sign b) b_neg) (mag b)) ret r').
Proof using All.
  intros Fa Fb Hf Hrad Hneg Hsz. 
  assert (Z.lxor (sign b) b_neg = 0 \/ Z.lxor (sign b) b_neg = 1) as Hsb by (destruct (proj1 Fb) as [-> | ->], Hneg as [-> | ->]; cbn; auto).
  unfold bf_add_internal. set (sb := Z.lxor (sign b) b_neg) in *. clearbody sb. pose proof (proj1 Fa) as Hsa. set (sa := sign a) in *. clearbody sa.
  pose proof (proj1 (proj2 Fa)) as Na. pose proof (proj1 (proj2 Fb)) as Nb. pose proof (mag_pos lg Hlg a Na) as Pa. pose proof (mag_pos lg Hlg b Nb) as Pb.
  pose proof Hsz as (S1 & _). pose proof Hf as (_ & Hp & _). pose proof (LIMB_BITS_ge4 lg Hlg2). destruct (finite_expn lg Hlg2 a Fa) as (Ia & _). destruct (finite_expn lg Hlg2 b Fb) as (Ib & _).
  pose proof (proj1 (proj2 Na)). pose proof (proj1 (proj2 Nb)).
  assert ((zlen (tab a) + zlen (tab b)) * 1 <= (zlen (tab a) + zlen (tab b)) * LIMB_BITS) by (apply Z.mul_le_mono_nonneg_l; lia).
  rewrite (finite_cmpu lg Hlg a b Na Nb) by lia.
  set (is_sub := Z.lxor sa sb). assert (is_sub = 0 \/ is_sub = 1) as Hsub by (unfold is_sub; destruct Hsa as [-> | ->], Hsb as [-> | ->]; cbn; auto).
  assert (is_sub = if sa =? sb then 0 else 1) as His by (unfold is_sub; destruct Hsa as [-> | ->], Hsb as [-> | ->]; done). clearbody is_sub.
  destruct (Qcompare_spec (mag a) (mag b)) as [E|E|E]; cbn [zcmp Z.ltb Z.eqb Z.compare andb].
  - replace (expn a <? BF_EXP_INF lg) with true by lia. rewrite His. destruct (sa =? sb) eqn:Es; cbn [Z.eqb negb andb].
    + replace (zlen (tab a) =? 0) with false by lia. replace (zlen (tab b) =? 0) with false by lia. cbn [orb].
      pose proof (add_ordered r a b sa sb prec flags Fa Fb Hf Hrad Hsa Hsb Hsz) as Hadd. rewrite Es in Hadd. apply Hadd; [lra|zbool; done].
    + cbn [wp]. rewrite bf_set_zero_eq by done. apply (sum_result_eq _ _ 0); [|done]. unfold signed.
      destruct Hsa as [-> | ->], Hsb as [-> | ->]; cbn [Z.eqb Pos.eqb] in *; try done; lra.
  - replace (zlen (tab a) =? 0) with false by lia. replace (zlen (tab b) =? 0) with false by lia. cbn [orb].
    pose proof (add_ordered r b a sb sa prec flags Fb Fa Hf Hrad Hsb Hsa (add_size_sym _ _ _ Hsz)) as Hadd. rewrite Z.eqb_sym, <- His in Hadd.
    eapply wp_mono; [apply Hadd; lra|]. intros [ret r']. apply sum_result_eq. ring.
  - replace (zlen (tab a) =? 0) with false by lia. replace (zlen (tab b) =? 0) with false by lia. cbn [orb].
    pose proof (add_ordered r a b sa sb prec flags Fa Fb Hf Hrad Hsa Hsb Hsz) as Hadd. rewrite <- His in Hadd. apply Hadd; lra.
Qed.

(** ** Zeros, infinities and NaN *)

(** The status of the copy of the operand is not tested: when memory runs out the
    result is a zero. *)
Lemma copy_round r x sg prec flags : bf_finite lg x -> op_flags lg flags prec -> sg = 0 \/ sg = 1 -> zlen (tab x) * LIMB_BITS < EXP_BOUND ->
  wp ('(_, r) ← bf_set lg bf_realloc r x; bf_normalize_and_round lg bf_realloc (set_sign r sg) prec flags)
    (fun '(ret, r') => op_result lg bf_realloc flags prec sg (mag x) ret r' \/ bf_realloc (tab r) (zlen (tab x)) = None /\ ret = 0 /\ r' = Bf sg (BF_EXP_ZERO lg) []).
Proof using All.
  intros Fx Hf Hsg Hsz. destruct (exp_bounds lg Hlg2) as (B1 & _).
  assert (wp (bf_set lg bf_realloc r x) (fun '(_, r') => r' = x \/ bf_realloc (tab r) (zlen (tab x)) = None /\ r' = Bf 0 (BF_EXP_NAN lg) [])) as Hset.
  { pose proof (bf_set_spec lg bf_realloc HR r x) as Hs. unfold bf_set in *. destruct (bf_resize bf_realloc r (zlen (tab x))) as [err r'] eqn:Er.
    destruct (err =? 0) eqn:E; cbn [negb] in *.
    - destruct (splice _ _ _); [|done]. cbn in *. destruct Hs as [[_ ?]|[? ?]]; [by left|done].
    - cbn [wp] in *. right. rewrite bf_set_nan_eq by done. split; [|done]. unfold bf_resize in Er. destruct (negb _); [|injection Er as <- <-; done].
      destruct (_ =? 0); [injection Er as <- <-; done|]. destruct (bf_realloc _ _); [injection Er as <- <-; done|done]. }
  apply wp_bind. eapply wp_mono; [exact Hset|]. intros [ret0 r0] [-> |[Hnone ->]].
  - destruct Fx as (Hs & Nx & Ex). destruct (normal_exponent lg Hlg x Nx) as [E1 E2].
    eapply wp_mono; [apply (bf_normalize_and_round_spec lg bf_realloc Hlg Hlg2 HR (set_sign x sg) (expn x)); [apply Nx|done|cbn; lia|done|done|by apply op_round_pre]|].
    intros [ret r'] Hres. left. right. by exists (expn x).
  - rewrite (bf_normalize_and_round_zero lg bf_realloc Hlg Hlg2 HR) by (done || constructor). cbn [wp]. by right.
Qed.

Lemma copy_zero r x sg prec flags : tab x = [] ->
  ('(_, r) ← bf_set lg bf_realloc r x; bf_normalize_and_round lg bf_realloc (set_sign r sg) prec flags) = Some (0, Bf sg (BF_EXP_ZERO lg) []).
Proof using All.
  intros Hx. pose proof (bf_set_spec lg bf_realloc HR r x) as Hs. destruct (bf_set lg bf_realloc r x) as [[ret r0]|]; [|done]. cbn [mbind option_bind wp] in *.
  assert (tab r0 = []) as H0 by (destruct Hs as [[_ ->]|[_ ->]]; done).
  rewrite (bf_normalize_and_round_zero lg bf_realloc Hlg Hlg2 HR); cbn [set_sign tab sign]; rewrite ?H0; (done || constructor).
Qed.

(** What an operand without limbs gives. *)
Definition special_sum (tabr : list Z) (a b : bf_t) (sb prec flags ret : Z) (r : bf_t) : Prop :=
  let sa := sign a in
  let inf x := expn x =? BF_EXP_INF lg in
  if bf_is_nan lg a || bf_is_nan lg b then ret = 0 /\ r = Bf 0 (BF_EXP_NAN lg) []
  else if inf a && inf b && negb (sa =? sb) then ret = BF_ST_INVALID_OP /\ r = Bf 0 (BF_EXP_NAN lg) []
  else if inf a then ret = 0 /\ r = Bf sa (BF_EXP_INF lg) []
  else if inf b then ret = 0 /\ r = Bf sb (BF_EXP_INF lg) []
  else if bf_is_zero lg a && bf_is_zero lg b then
    ret = 0 /\ r = Bf (if sa =? sb then sa else Zb (Z.land flags BF_RND_MASK =? BF_RNDD)) (BF_EXP_ZERO lg) []
  else
    let '(x, sx) := if bf_is_zero lg a then (b, sb) else (a, sa) in
    op_result lg bf_realloc flags prec sx (mag x) ret r \/ bf_realloc tabr (zlen (tab x)) = None /\ ret = 0 /\ r = Bf sx (BF_EXP_ZERO lg) [].

Lemma special_cmpu a b : bf_ok lg a -> bf_ok lg b -> tab a = [] \/ tab b = [] ->
  bf_cmpu lg a b = if expn a =? expn b then 0 else if expn a <? expn b then -1 else 1.
Proof using Hlg2.
  intros Ha Hb Ht. destruct (exp_bounds lg Hlg2) as (B1 & B2 & _). unfold bf_cmpu. destruct (expn a =? expn b) eqn:E; [|done]. zbool. cbn [negb].
  assert (tab a = [] /\ tab b = []) as [-> ->]; [|done].
  unfold bf_ok, bf_finite, bf_special, BF_EXP_ZERO, BF_EXP_INF, BF_EXP_NAN in Ha, Hb.
  destruct Ha as [(_ & Na & Ea)|(_ & Ta & Ea)], Hb as [(_ & Nb & Eb)|(_ & Tb & Eb)]; try done; [|lia..].
  exfalso. destruct Na as (_ & La & _), Nb as (_ & Lb & _). destruct Ht as [F|F]; rewrite F in *; done.
Qed.

(** The comparisons of the exponents of the four kinds of numbers. *)
Lemma kinds r : bf_ok lg r -> exists k : Z, 0 <= k <= 3 /\ (k = 1 <-> tab r <> []) /\ (k = 1 -> bf_finite lg r) /\
  (expn r =? BF_EXP_ZERO lg) = (k =? 0) /\ (expn r =? BF_EXP_INF lg) = (k =? 2) /\ (expn r =? BF_EXP_NAN lg) = (k =? 3) /\
  (expn r >=? BF_EXP_INF lg) = (k >=? 2) /\ (expn r <? BF_EXP_INF lg) = (k <? 2) /\
  (k = 0 -> expn r = BF_EXP_ZERO lg) /\ (k = 2 -> expn r = BF_EXP_INF lg) /\ (k = 3 -> expn r = BF_EXP_NAN lg) /\ (k = 1 -> BF_EXP_ZERO lg < expn r < BF_EXP_INF lg).
Proof using Hlg2.
  intros Hr. destruct (exp_bounds lg Hlg2) as (B1 & B2 & _). unfold BF_EXP_ZERO, BF_EXP_INF, BF_EXP_NAN in *.
  destruct Hr as [Fr|(_ & Tr & Er)].
  - exists 1. pose proof Fr as (_ & (_ & Lr & _) & Er). assert (tab r <> []) by (intros F; rewrite F in Lr; done). split_and!; try lia; try done.
  - unfold BF_EXP_ZERO, BF_EXP_INF, BF_EXP_NAN in Er. rewrite Tr. destruct Er as [-> |[-> | ->]]; [exists 0|exists 2|exists 3]; split_and!; try lia; done.
Qed.

Lemma kind_order ea eb ka kb : 0 <= ka <= 3 -> 0 <= kb <= 3 ->
  (ka = 0 -> ea = BF_EXP_ZERO lg) /\ (ka = 2 -> ea = BF_EXP_INF lg) /\ (ka = 3 -> ea = BF_EXP_NAN lg) /\ (ka = 1 -> BF_EXP_ZERO lg < ea < BF_EXP_INF lg) ->
  (kb = 0 -> eb = BF_EXP_ZERO lg) /\ (kb = 2 -> eb = BF_EXP_INF lg) /\ (kb = 3 -> eb = BF_EXP_NAN lg) /\ (kb = 1 -> BF_EXP_ZERO lg < eb < BF_EXP_INF lg) ->
  ka <> 1 \/ kb <> 1 -> (ea =? eb) = (ka =? kb) /\ (ea <? eb) = (ka <? kb).
Proof using Hlg2.
  intros Ka Kb (A1 & A2 & A3 & A4) (D1 & D2 & D3 & D4) Hk. destruct (exp_bounds lg Hlg2) as (B1 & B2 & _).
  assert (BF_EXP_ZERO lg < BF_EXP_INF lg < BF_EXP_NAN lg) as B3 by (unfold BF_EXP_ZERO, BF_EXP_INF, BF_EXP_NAN; lia). clear B1 B2.
  assert (ka = 0 \/ ka = 1 \/ ka = 2 \/ ka = 3) as [-> |[-> |[-> | ->]]] by lia; assert (kb = 0 \/ kb = 1 \/ kb = 2 \/ kb = 3) as [-> |[-> |[-> | ->]]] by lia;
    first [specialize (A1 eq_refl); clear A2 A3 A4|specialize (A2 eq_refl); clear A1 A3 A4|specialize (A3 eq_refl); clear A1 A2 A4|specialize (A4 eq_refl); clear A1 A2 A3];
    first [specialize (D1 eq_refl); clear D2 D3 D4|specialize (D2 eq_refl); clear D1 D3 D4|specialize (D3 eq_refl); clear D1 D2 D4|specialize (D4 eq_refl); clear D1 D2 D3];
    lia.
Qed.

Lemma bf_add_internal_special r a b prec flags b_neg : bf_ok lg a -> bf_ok lg b -> tab a = [] \/ tab b = [] -> op_flags lg flags prec ->
  b_neg = 0 \/ b_neg = 1 -> zlen (tab a) * LIMB_BITS < EXP_BOUND -> zlen (tab b) * LIMB_BITS < EXP_BOUND ->
  wp (bf_add_internal lg bf_realloc r a b prec flags b_neg) (fun '(ret, r') => special_sum (tab r) a b (Z.lxor (sign b) b_neg) prec flags ret r').
Proof using All.
  intros Ha Hb Ht Hf Hneg La Lb. pose proof (bf_ok_sign lg a Ha) as Hsa. unfold bf_add_internal, special_sum.
  assert (Z.lxor (sign b) b_neg = 0 \/ Z.lxor (sign b) b_neg = 1) as Hsb by (destruct (bf_ok_sign lg b Hb) as [-> | ->], Hneg as [-> | ->]; cbn; auto).
  set (sb := Z.lxor (sign b) b_neg) in *. clearbody sb. set (sa := sign a) in *. clearbody sa. rewrite special_cmpu by done.
  assert ((Z.lxor sa sb =? 0) = (sa =? sb)) as His by (destruct Hsa as [-> | ->], Hsb as [-> | ->]; done). unfold bf_is_nan, bf_is_zero.
  destruct (kinds a Ha) as (ka & Ka & A1 & A2 & A3 & A4 & A5 & A6 & A7 & A8). destruct (kinds b Hb) as (kb & Kb & D1 & D2 & D3 & D4 & D5 & D6 & D7 & D8).
  assert (ka <> 1 \/ kb <> 1) as Hk by (destruct Ht as [E|E]; rewrite E in *; tauto).
  destruct (kind_order _ _ ka kb Ka Kb A8 D8 Hk) as [E1 E2].
  assert ((zlen (tab a) =? 0) || (zlen (tab b) =? 0) = true) as Ez by (destruct Ht as [-> | ->]; [done|by rewrite orb_comm]).
  rewrite E1, E2, His, A3, A4, A5, D3, D4, D5. clear A8 D8 E1 E2 Ht.
  destruct (ka =? kb) eqn:F1; [|destruct (ka <? kb) eqn:F2]; cbn [Z.ltb Z.eqb Z.compare andb].
  - rewrite A7, Ez, A6, A5, D4, !bf_set_nan_eq, !bf_set_inf_eq, !bf_set_zero_eq by done. apply Z.eqb_eq in F1. subst kb.
    assert (ka = 0 \/ ka = 2 \/ ka = 3) as [-> |[-> | ->]] by (clear - Ka Hk; lia); cbn; destruct (sa =? sb) eqn:Es; cbn; try done.
    eapply wp_eq; [apply copy_zero|done]. destruct (tab a); [done|]. exfalso. pose proof (proj2 A1). naive_solver.
  - rewrite orb_comm in Ez. rewrite Ez, D6, D5, A4, !bf_set_nan_eq, !bf_set_inf_eq by done.
    assert (kb = 1 /\ ka = 0 \/ kb = 2 /\ ka <> 2 /\ ka <> 3 \/ kb = 3) as [(-> & ->)|[(-> & N1 & N2)| ->]] by (clear - Ka Kb Hk F1 F2; lia); cbn.
    + apply copy_round; [by apply D2|done..].
    + by rewrite (proj2 (Z.eqb_neq ka 3) N2), (proj2 (Z.eqb_neq ka 2) N1).
    + by rewrite orb_true_r.
  - rewrite Ez, A6, A5, D4, !bf_set_nan_eq, !bf_set_inf_eq by done.
    assert (ka = 1 /\ kb = 0 \/ ka = 2 /\ kb <> 2 /\ kb <> 3 \/ ka = 3) as [(-> & ->)|[(-> & N1 & N2)| ->]] by (clear - Ka Kb Hk F1 F2; lia); cbn.
    + apply copy_round; [by apply A2|done..].
    + by rewrite (proj2 (Z.eqb_neq kb 3) N2), (proj2 (Z.eqb_neq kb 2) N1).
    + done.
Qed.
End correct.

(** ** Properties *)

Lemma sum_result_ok lg bf_realloc flags prec x ret r : sum_result lg bf_realloc flags prec x ret r -> bf_ok lg r /\ canonical r.
Proof.
  unfold sum_result. destruct (Qeq_bool x 0).
  - intros [_ ->]. apply special_ok; [destruct (_ =? BF_RNDD); cbn; auto|by left].
  - apply op_result_ok. destruct (negb _); cbn; auto.
Qed.

Lemma special_sum_ok lg bf_realloc tabr a b sb prec flags ret r : bf_ok lg a -> sb = 0 \/ sb = 1 ->
  special_sum lg bf_realloc tabr a b sb prec flags ret r -> bf_ok lg r /\ canonical r.
Proof.
  intros Ha Hsb. pose proof (bf_ok_sign lg a Ha) as Hsa. unfold special_sum. cbv zeta.
  destruct (bf_is_nan lg a || bf_is_nan lg b); [intros [_ ->]; apply special_ok; auto|].
  destruct (_ && negb _); [intros [_ ->]; apply special_ok; auto|]. destruct (expn a =? _); [intros [_ ->]; apply special_ok; auto|].
  destruct (expn b =? _); [intros [_ ->]; apply special_ok; auto|].
  destruct (bf_is_zero lg a && bf_is_zero lg b); [intros [_ ->]; apply special_ok; [destruct (_ =? sb); [done|destruct (_ =? BF_RNDD); cbn; auto]|by left]|].
  destruct (bf_is_zero lg a); (intros [H|(_ & _ & ->)]; [refine (op_result_ok _ _ _ _ _ _ _ _ _ H); done|apply special_ok; auto]).
Qed.

(** C19. [bf_add] and [bf_sub] return the correctly rounded sum and difference of
    two finite numbers in every rounding mode, whatever the distance of their
    exponents and however many leading bits cancel: the exact rational result
    rounded once to the precision, with its sign and the status of the rounding;
    an exact zero is [+0], or [-0] when rounding down; NaN with the memory error
    status when an allocation fails.  The result is in canonical form. *)
Theorem bf_add_sub_correct (lg : Z) (bf_realloc : bf_realloc_t) `{!BfReallocLaws bf_realloc} (r a b : bf_t) (alias : bool) (prec flags : Z) :
  2 <= lg -> bf_finite lg a -> bf_finite lg b -> op_flags lg flags prec -> has_flag flags BF_FLAG_RADPNT_PREC = false -> add_size lg a b prec ->
  let va := signed (sign a) (mag lg a) in
  let vb := signed (sign b) (mag lg b) in
  (exists ret r', bf_add lg bf_realloc r a b alias prec flags = Some (ret, r') /\ bf_ok lg r' /\ canonical r' /\ sum_result lg bf_realloc flags prec (va + vb) ret r') /\
  (exists ret r', bf_sub lg bf_realloc r a b alias prec flags = Some (ret, r') /\ bf_ok lg r' /\ canonical r' /\ sum_result lg bf_realloc flags prec (va - vb) ret r').
Proof.
  intros Hlg Fa Fb Hf Hrad Hsz va vb.
  assert (forall r0 b_neg x, b_neg = 0 \/ b_neg = 1 -> (va + signed (Z.lxor (sign b) b_neg) (mag lg b) == x)%Q ->
    exists ret r', bf_add_internal lg bf_realloc r0 a b prec flags b_neg = Some (ret, r') /\ bf_ok lg r' /\ canonical r' /\ sum_result lg bf_realloc flags prec x ret r') as H.
  { intros r0 b_neg x Hneg Hx. pose proof (bf_add_internal_spec lg bf_realloc ltac:(lia) Hlg _ r0 a b prec flags b_neg Fa Fb Hf Hrad Hneg Hsz) as Hw.
    destruct (bf_add_internal _ _ _ _ _ _ _ _) as [[ret r']|]; [|done]. exists ret, r'. split; [done|]. cbn [wp] in Hw. apply (sum_result_eq lg _ _ _ _ x) in Hw; [|done].
    destruct (sum_result_ok _ _ _ _ _ _ _ Hw). by split_and!. }
  unfold bf_add, bf_sub, bf_op2. split; [|].
  - destruct alias; (apply H; [by left|rewrite Z.lxor_0_r; reflexivity]).
  - assert (va + signed (Z.lxor (sign b) 1) (mag lg b) == va - vb)%Q as E.
    { unfold vb, signed. destruct (proj1 Fb) as [-> | ->]; [change (Z.lxor 0 1) with 1|change (Z.lxor 1 1) with 0]; cbn [Z.eqb Pos.eqb]; ring. }
    destruct alias; (apply H; [by right|exact E]).
Qed.

Definition bf_one : bf_t := Bf 0 1 [2 ^ 63].
(** [1 - 2^-70], on two limbs. *)
Definition bf_below_one : bf_t := Bf 0 0 [2 ^ 64 - 2 ^ 58; 2 ^ 64 - 1].

(** [1 - (1 - 2^-70) = 2^-70]: all but the last bit cancel. *)
Lemma bf_add_sub_correct_witness : exists ret r', bf_sub 6 calloc_realloc bf_one bf_one bf_below_one true 53 BF_RNDN = Some (ret, r') /\
  sum_result 6 calloc_realloc BF_RNDN 53 (signed 0 (mag 6 bf_one) - signed 0 (mag 6 bf_below_one)) ret r' /\ r' = Bf 0 (-69) [2 ^ 63] /\ ret = 0.
Proof.
  assert (bf_finite 6 bf_one) as F1.
  { split; [by left|]. split; [|split; vm_compute; reflexivity]. split; [|split; [reflexivity|vm_compute; discriminate]].
    constructor; [|constructor]. split; vm_compute; congruence. }
  assert (bf_finite 6 bf_below_one) as F2.
  { split; [by left|]. split; [|split; vm_compute; reflexivity]. split; [|split; [reflexivity|vm_compute; discriminate]].
    constructor; [|constructor; [|constructor]]; split; vm_compute; congruence. }
  destruct (bf_add_sub_correct 6 calloc_realloc bf_one bf_one bf_below_one true 53 BF_RNDN) as (_ & ret & r' & E & _ & _ & H); [lia|exact F1|exact F2| |reflexivity| |].
  - split; [split; [vm_compute; discriminate|]; split; vm_compute; congruence|]. split; [split; vm_compute; congruence|]. vm_compute; discriminate.
  - split; [|split; [|split]]; vm_compute; reflexivity.
  - exists ret, r'. split; [exact E|]. split; [exact H|]. vm_compute in E. injection E as <- <-. split; vm_compute; reflexivity.
Defined.

(** C35. [count_cancelled_bits], for [a > b > 0] whose exponents are equal or differ
    by one, ends and returns an [n] such that [a - b] still has a bit at position
    [n] below the top bit of [a]: at most [n] leading bits are cancelled, however
    long the run of equal limbs and of borrows is, and [n] fits the array sizes. *)
Theorem count_cancelled_bits_correct (lg : Z) (a b : bf_t) : 2 <= lg -> bf_finite lg a -> bf_finite lg b ->
  0 <= expn a - expn b <= 1 -> (mag lg b < mag lg a)%Q -> (zlen (tab a) + zlen (tab b) + 4) * LIMB_BITS lg < EXP_BOUND lg ->
  exists n, count_cancelled_bits lg a b = Some n /\ 0 <= n <= (zlen (tab a) + zlen (tab b) + 3) * LIMB_BITS lg /\
    (q2 (expn a - 1 - n) <= mag lg a - mag lg b)%Q.
Proof.
  intros Hlg Fa Fb Hd Hlt Hsz.
  pose proof (count_cancelled_bits_spec lg calloc_realloc ltac:(lia) Hlg _ a b (proj1 (proj2 Fa)) (proj1 (proj2 Fb)) Hd Hlt Hsz) as Hw.
  destruct (count_cancelled_bits lg a b) as [n|]; [|done]. destruct Hw as [Hn Hx]. exists n. split; [done|]. split; [done|].
  by replace (expn a - 1 - n) with (expn a - n - 1) by lia.
Qed.

Lemma count_cancelled_bits_correct_witness : exists n, count_cancelled_bits 6 bf_one bf_below_one = Some n /\ n = 71 /\
  (q2 (expn bf_one - 1 - n) <= mag 6 bf_one - mag 6 bf_below_one)%Q.
Proof.
  destruct (count_cancelled_bits_correct 6 bf_one bf_below_one) as (n & E & _ & H); [lia| | |vm_compute; split; congruence|vm_compute; reflexivity|vm_compute; reflexivity|].
  - split; [by left|]. split; [|split; vm_compute; reflexivity]. split; [|split; [reflexivity|vm_compute; discriminate]].
    constructor; [|constructor]. split; vm_compute; congruence.
  - split; [by left|]. split; [|split; vm_compute; reflexivity]. split; [|split; [reflexivity|vm_compute; discriminate]].
    constructor; [|constructor; [|constructor]]; split; vm_compute; congruence.
  - exists n. split; [exact E|]. split; [vm_compute in E; congruence|exact H].
Defined.

(** C34. The exceptional operands of [bf_add] and [bf_sub]: NaN is propagated
    without a flag, infinities that cancel are an invalid operation, an infinity
    absorbs a finite number, a sum of zeros is a zero whose sign follows the
    rounding mode when the signs differ, and a zero leaves the other operand,
    rounded, with its sign.  When the copy of that operand fails for lack of
    memory the result is a zero without a status. *)
Theorem bf_add_sub_special (lg : Z) (bf_realloc : bf_realloc_t) `{!BfReallocLaws bf_realloc} (r a b : bf_t) (alias : bool) (prec flags : Z) :
  2 <= lg -> bf_ok lg a -> bf_ok lg b -> tab a = [] \/ tab b = [] -> op_flags lg flags prec ->
  zlen (tab a) * LIMB_BITS lg < EXP_BOUND lg -> zlen (tab b) * LIMB_BITS lg < EXP_BOUND lg ->
  let target := if alias then [] else tab r in
  (exists ret r', bf_add lg bf_realloc r a b alias prec flags = Some (ret, r') /\ bf_ok lg r' /\ canonical r' /\
    special_sum lg bf_realloc target a b (sign b) prec flags ret r') /\
  (exists ret r', bf_sub lg bf_realloc r a b alias prec flags = Some (ret, r') /\ bf_ok lg r' /\ canonical r' /\
    special_sum lg bf_realloc target a b (1 - sign b) prec flags ret r').
Proof.
  intros Hlg Ha Hb Ht Hf La Lb. cbv zeta.
  assert (forall r0 b_neg sb, b_neg = 0 \/ b_neg = 1 -> Z.lxor (sign b) b_neg = sb -> sb = 0 \/ sb = 1 ->
    exists ret r', bf_add_internal lg bf_realloc r0 a b prec flags b_neg = Some (ret, r') /\ bf_ok lg r' /\ canonical r' /\
      special_sum lg bf_realloc (tab r0) a b sb prec flags ret r') as H.
  { intros r0 b_neg sb Hneg <- Hsb. pose proof (bf_add_internal_special lg bf_realloc ltac:(lia) Hlg _ r0 a b prec flags b_neg Ha Hb Ht Hf Hneg La Lb) as Hw.
    destruct (bf_add_internal _ _ _ _ _ _ _ _) as [[ret r']|]; [|done]. exists ret, r'. split; [done|].
    destruct (special_sum_ok _ _ _ _ _ _ _ _ _ _ Ha Hsb Hw). by split_and!. }
  pose proof (bf_ok_sign lg b Hb) as Hs. unfold bf_add, bf_sub, bf_op2. split.
  - destruct alias; (apply H; [by left|apply Z.lxor_0_r|done]).
  - assert (Z.lxor (sign b) 1 = 1 - sign b) as E by (destruct Hs as [-> | ->]; done). destruct alias; (apply H; [by right|done|lia]).
Qed.

(** [inf - inf]. *)
Lemma bf_add_sub_special_witness : exists ret r',
  bf_sub 6 calloc_realloc (bf_init 6) (Bf 1 (BF_EXP_INF 6) []) (Bf 1 (BF_EXP_INF 6) []) false 53 0 = Some (ret, r') /\ ret = BF_ST_INVALID_OP /\ bf_is_nan 6 r' = true.
Proof.
  assert (bf_ok 6 (Bf 1 (BF_EXP_INF 6) [])) as Hi by (right; split; [by right|]; split; [done|right; by left]).
  destruct (bf_add_sub_special 6 calloc_realloc (bf_init 6) (Bf 1 (BF_EXP_INF 6) []) (Bf 1 (BF_EXP_INF 6) []) false 53 0) as (_ & ret & r' & E & _ & _ & H);
    [lia|exact Hi|exact Hi|by left| |vm_compute; reflexivity|vm_compute; reflexivity|].
  - split; [split; [vm_compute; discriminate|]; split; vm_compute; congruence|]. split; [split; vm_compute; congruence|]. vm_compute; discriminate.
  - exists ret, r'. split; [exact E|]. vm_compute in E. injection E as <- <-. split; vm_compute; reflexivity.
Defined.

(** A sum with a zero operand ignores the status of the copy of the other
    operand: with an allocator that fails, [1 + 0] is [+0] and no error is
    reported, where the sum of two non-zero numbers would give NaN and the memory
    error status. *)
Theorem bf_add_zero_lost :
  bf_add 6 (fun _ _ => None) (bf_init 6) bf_one (Bf 0 (BF_EXP_ZERO 6) []) false 53 BF_RNDN = Some (0, Bf 0 (BF_EXP_ZERO 6) []) /\
  bf_add 6 (fun _ _ => None) (bf_init 6) bf_one bf_one false 53 BF_RNDN = Some (BF_ST_MEM_ERROR, Bf 0 (BF_EXP_NAN 6) []).
Proof. split; vm_compute; reflexivity. Qed.
