(* ===== verification/JsHeap.v ===== *)
(** * The heap of the JavaScript engine (quickjs.c)

    Garbage collected objects are C structures with a reference count, a mark and
    a link in one of the lists of the runtime.  The heap maps addresses to
    objects; a freed object is no longer in the heap, so that an access to it is
    an error of the model. *)

From stdpp Require Import gmap.
From S2P Require Import Prelude CArray.
Open Scope Z_scope.

(** ** Data *)

(** A value that refers to a garbage collected object, or any other value. *)
Inductive JSValue : Set :=
  | JS_TAG_OBJECT (p : Z) | JS_TAG_FUNCTION_BYTECODE (p : Z) | JS_TAG_OTHER.

Inductive JSGCObjectTypeEnum : Set :=
  | JS_GC_OBJ_TYPE_JS_OBJECT | JS_GC_OBJ_TYPE_FUNCTION_BYTECODE | JS_GC_OBJ_TYPE_SHAPE
  | JS_GC_OBJ_TYPE_VAR_REF | JS_GC_OBJ_TYPE_ASYNC_FUNCTION | JS_GC_OBJ_TYPE_JS_CONTEXT.

Inductive JSGCPhaseEnum : Set := JS_GC_PHASE_NONE | JS_GC_PHASE_DECREF | JS_GC_PHASE_REMOVE_CYCLES.

Definition JS_ATOM_NULL : Z := 0.
Definition JS_PROP_TMASK : Z := Z.shiftl 3 4.
Definition JS_PROP_GETSET : Z := Z.shiftl 1 4.
Definition JS_PROP_VARREF : Z := Z.shiftl 2 4.
Definition JS_PROP_AUTOINIT : Z := Z.shiftl 3 4.

Record JSShapeProperty := ShapeProperty { prs_atom : Z; prs_flags : Z }.

(** The union of a property: which member is in use is said by the flags of the
    shape. *)
Inductive JSProperty : Set :=
  | PR_value (v : JSValue)
  | PR_getset (getter setter : option Z)
  | PR_var_ref (var_ref : Z)
  | PR_init (realm : Z).

Record JSPromiseReactionData := ReactionData { rd_resolve : JSValue; rd_reject : JSValue; rd_handler : JSValue }.

(** The union of an object: the data of its class. *)
Inductive JSObject_u : Set :=
  | U_null
  | U_array (values : list JSValue)
  | U_object_data (v : JSValue)
  | U_cfunc (realm : option Z)
  | U_func (function_bytecode : option Z) (var_refs : option (list (option Z))) (home_object : option Z)
  | U_bound_function (func_obj this_val : JSValue) (argv : list JSValue)
  | U_c_function_data_record (data : list JSValue)
  | U_for_in_iterator (obj : JSValue)
  | U_generator_data (completed : bool) (func_state : option Z)
  | U_proxy_data (target handler : JSValue)
  | U_promise_data (reactions : list JSPromiseReactionData * list JSPromiseReactionData) (result : JSValue)
  | U_promise_function_data (promise : JSValue)
  | U_async_function_data (func_state : Z).

(** The exports of a module that hold a variable, and its values. *)
Record JSModuleDef := ModuleDef {
  m_local_exports : list (option Z);
  m_module_ns : JSValue; m_func_obj : JSValue; m_eval_exception : JSValue; m_meta_obj : JSValue;
  m_promise : JSValue; m_resolving_funcs : JSValue * JSValue }.

Record JSContext := ContextData {
  loaded_modules : list JSModuleDef;
  global_obj : JSValue; global_var_obj : JSValue; throw_type_error : JSValue; eval_obj : JSValue;
  array_proto_values : JSValue; native_error_proto : list JSValue; class_proto : list JSValue;
  iterator_proto : JSValue; async_iterator_proto : JSValue; promise_ctor : JSValue; array_ctor : JSValue;
  regexp_ctor : JSValue; function_ctor : JSValue; function_proto : JSValue;
  array_shape : option Z }.

(** The part of an object behind its header; the constructor is [gc_obj_type]. *)
Inductive gc_body :=
  | B_JS_OBJECT (class_id : Z) (shape : option Z) (prop : list JSProperty) (u : JSObject_u)
  | B_FUNCTION_BYTECODE (cpool : list JSValue) (realm : option Z) (closure_var_count : Z)
  | B_SHAPE (proto : option Z) (props : list JSShapeProperty)
  | B_VAR_REF (is_detached : bool) (value : JSValue) (async_func : option Z)
  | B_ASYNC_FUNCTION (is_completed : bool) (cur_func this_val : JSValue) (arg_buf : option (list JSValue)) (cur_sp : bool)
      (resolving_funcs : JSValue * JSValue)
  | B_JS_CONTEXT (ctx : JSContext).

Record JSGCObjectHeader := GCObject { ref_count : Z; mark : Z; body : gc_body }.

Definition gc_obj_type (o : JSGCObjectHeader) : JSGCObjectTypeEnum :=
  match body o with
  | B_JS_OBJECT _ _ _ _ => JS_GC_OBJ_TYPE_JS_OBJECT
  | B_FUNCTION_BYTECODE _ _ _ => JS_GC_OBJ_TYPE_FUNCTION_BYTECODE
  | B_SHAPE _ _ => JS_GC_OBJ_TYPE_SHAPE
  | B_VAR_REF _ _ _ => JS_GC_OBJ_TYPE_VAR_REF
  | B_ASYNC_FUNCTION _ _ _ _ _ _ => JS_GC_OBJ_TYPE_ASYNC_FUNCTION
  | B_JS_CONTEXT _ => JS_GC_OBJ_TYPE_JS_CONTEXT
  end.

(** The functions a class registers. *)
Inductive class_fn : Set :=
  | FN_array | FN_object_data | FN_c_function | FN_bytecode_function | FN_bound_function | FN_c_function_data
  | FN_for_in_iterator | FN_generator | FN_proxy | FN_promise | FN_promise_resolve_function | FN_async_function_resolve.

Record JSClass := ClassEntry { finalizer : option class_fn; gc_mark : option class_fn }.

Definition JS_CLASS_OBJECT : Z := 1.

Record JSRuntime := Runtime {
  heap : gmap Z JSGCObjectHeader;
  gc_obj_list : list Z; gc_zero_ref_count_list : list Z; tmp_obj_list : list Z;
  gc_phase : JSGCPhaseEnum;
  class_array : list JSClass }.

(** ** Headers and lists *)

Definition set_ref_count (n : Z) (o : JSGCObjectHeader) : JSGCObjectHeader := GCObject n (mark o) (body o).
Definition set_mark (m : Z) (o : JSGCObjectHeader) : JSGCObjectHeader := GCObject (ref_count o) m (body o).
Definition set_body (b : gc_body) (o : JSGCObjectHeader) : JSGCObjectHeader := GCObject (ref_count o) (mark o) b.

Definition set_heap (h : gmap Z JSGCObjectHeader) (rt : JSRuntime) : JSRuntime :=
  Runtime h (gc_obj_list rt) (gc_zero_ref_count_list rt) (tmp_obj_list rt) (gc_phase rt) (class_array rt).
Definition set_phase (ph : JSGCPhaseEnum) (rt : JSRuntime) : JSRuntime :=
  Runtime (heap rt) (gc_obj_list rt) (gc_zero_ref_count_list rt) (tmp_obj_list rt) ph (class_array rt).
Definition set_lists (g z t : list Z) (rt : JSRuntime) : JSRuntime := Runtime (heap rt) g z t (gc_phase rt) (class_array rt).

(** [list_del(&p->link)]: the link of [p] is in one list at a time. *)
Definition drop_link (p : Z) (l : list Z) : list Z := filter (fun q => q <> p) l.
Definition list_del (p : Z) (rt : JSRuntime) : JSRuntime :=
  set_lists (drop_link p (gc_obj_list rt)) (drop_link p (gc_zero_ref_count_list rt)) (drop_link p (tmp_obj_list rt)) rt.

(** The element behind [p] in a list, [None] inside for the list head; an error
    when [p] is not in the list. *)
Fixpoint next_of (p : Z) (l : list Z) : option (option Z) :=
  match l with [] => None | x :: l => if x =? p then Some (head l) else next_of p l end.

Definition alter_obj (f : JSGCObjectHeader -> option JSGCObjectHeader) (p : Z) (rt : JSRuntime) : option JSRuntime :=
  o ← heap rt !! p; o ← f o; Some (set_heap (<[p := o]> (heap rt)) rt).

(** [js_free_rt] *)
Definition js_free_rt (p : Z) (rt : JSRuntime) : option JSRuntime :=
  o ← heap rt !! p; Some (set_heap (delete p (heap rt)) rt).

Definition INT32_MAX : Z := 2 ^ 31 - 1.

(** ** References of an object

    The functions that mark only read objects and call [mark_func] on the headers
    of the objects referred to; they are modelled by the list of these calls. *)

Definition JS_MarkValue (v : JSValue) : list Z :=
  match v with JS_TAG_OBJECT p | JS_TAG_FUNCTION_BYTECODE p => [p] | JS_TAG_OTHER => [] end.

Definition mark_opt (p : option Z) : list Z := match p with Some p => [p] | None => [] end.

Definition mark_values (l : list JSValue) : list Z := concat (JS_MarkValue <$> l).

(** One property, with the flags of its shape; reading another member of the
    union than the one stored is an error. *)
Definition mark_property (prs : JSShapeProperty) (pr : JSProperty) : option (list Z) :=
  if prs_atom prs =? JS_ATOM_NULL then Some []
  else if negb (Z.land (prs_flags prs) JS_PROP_TMASK =? 0) then
    if Z.land (prs_flags prs) JS_PROP_TMASK =? JS_PROP_GETSET then
      match pr with PR_getset getter setter => Some (mark_opt getter ++ mark_opt setter) | _ => None end
    else if Z.land (prs_flags prs) JS_PROP_TMASK =? JS_PROP_VARREF then
      match pr with PR_var_ref p => Some [p] | _ => None end
    else if Z.land (prs_flags prs) JS_PROP_TMASK =? JS_PROP_AUTOINIT then
      match pr with PR_init realm => Some [realm] | _ => None end
    else Some []
  else match pr with PR_value v => Some (JS_MarkValue v) | _ => None end.

(** The loop over the properties: [prop[i]] for every entry of the shape. *)
Fixpoint mark_properties (prs : list JSShapeProperty) (prop : list JSProperty) : option (list Z) :=
  match prs, prop with
  | [], _ => Some []
  | s :: prs, pr :: prop => a ← mark_property s pr; b ← mark_properties prs prop; Some (a ++ b)
  | _ :: _, [] => None
  end.

Definition js_array_mark (u : JSObject_u) : option (list Z) :=
  match u with U_array values => Some (mark_values values) | _ => None end.

Definition js_object_data_mark (u : JSObject_u) : option (list Z) :=
  match u with U_object_data v => Some (JS_MarkValue v) | _ => None end.

Definition js_c_function_mark (u : JSObject_u) : option (list Z) :=
  match u with U_cfunc realm => Some (mark_opt realm) | _ => None end.

(** The variables of a closure: as many as the bytecode says. *)
Definition closure_refs (h : gmap Z JSGCObjectHeader) (b : Z) (var_refs : list (option Z)) : option (list (option Z)) :=
  o ← h !! b;
  match body o with
  | B_FUNCTION_BYTECODE _ _ n => mapM (rd var_refs) (seqZ 0 n)
  | _ => None
  end.

Definition js_bytecode_function_mark (h : gmap Z JSGCObjectHeader) (u : JSObject_u) : option (list Z) :=
  match u with
  | U_func function_bytecode var_refs home_object =>
      match function_bytecode with
      | None => Some (mark_opt home_object)
      | Some b =>
          refs ← (match var_refs with Some l => closure_refs h b l | None => Some [] end);
          Some (mark_opt home_object ++ concat (mark_opt <$> refs) ++ [b])
      end
  | _ => None
  end.

Definition js_bound_function_mark (u : JSObject_u) : option (list Z) :=
  match u with
  | U_bound_function func_obj this_val argv => Some (JS_MarkValue func_obj ++ JS_MarkValue this_val ++ mark_values argv)
  | _ => None
  end.

(** [JS_GetOpaque] gives NULL after the data was cleared. *)
Definition js_c_function_data_mark (u : JSObject_u) : option (list Z) :=
  match u with U_c_function_data_record data => Some (mark_values data) | U_null => Some [] | _ => None end.

Definition js_for_in_iterator_mark (u : JSObject_u) : option (list Z) :=
  match u with U_for_in_iterator obj => Some (JS_MarkValue obj) | _ => None end.

Definition js_generator_mark (u : JSObject_u) : option (list Z) :=
  match u with U_generator_data _ func_state => Some (mark_opt func_state) | U_null => Some [] | _ => None end.

Definition js_proxy_mark (u : JSObject_u) : option (list Z) :=
  match u with U_proxy_data target handler => Some (JS_MarkValue target ++ JS_MarkValue handler) | U_null => Some [] | _ => None end.

Definition mark_reaction (rd : JSPromiseReactionData) : list Z :=
  JS_MarkValue (rd_resolve rd) ++ JS_MarkValue (rd_reject rd) ++ JS_MarkValue (rd_handler rd).

Definition js_promise_mark (u : JSObject_u) : option (list Z) :=
  match u with
  | U_promise_data reactions result =>
      Some (concat (mark_reaction <$> reactions.1) ++ concat (mark_reaction <$> reactions.2) ++ JS_MarkValue result)
  | U_null => Some []
  | _ => None
  end.

Definition js_promise_resolve_function_mark (u : JSObject_u) : option (list Z) :=
  match u with U_promise_function_data promise => Some (JS_MarkValue promise) | U_null => Some [] | _ => None end.

Definition js_async_function_resolve_mark (u : JSObject_u) : option (list Z) :=
  match u with U_async_function_data s => Some [s] | U_null => Some [] | _ => None end.

Definition call_gc_mark (h : gmap Z JSGCObjectHeader) (f : class_fn) (u : JSObject_u) : option (list Z) :=
  match f with
  | FN_array => js_array_mark u | FN_object_data => js_object_data_mark u | FN_c_function => js_c_function_mark u
  | FN_bytecode_function => js_bytecode_function_mark h u | FN_bound_function => js_bound_function_mark u
  | FN_c_function_data => js_c_function_data_mark u | FN_for_in_iterator => js_for_in_iterator_mark u
  | FN_generator => js_generator_mark u | FN_proxy => js_proxy_mark u | FN_promise => js_promise_mark u
  | FN_promise_resolve_function => js_promise_resolve_function_mark u
  | FN_async_function_resolve => js_async_function_resolve_mark u
  end.

Definition js_mark_module_def (m : JSModuleDef) : list Z :=
  concat (mark_opt <$> m_local_exports m) ++ JS_MarkValue (m_module_ns m) ++ JS_MarkValue (m_func_obj m) ++
  JS_MarkValue (m_eval_exception m) ++ JS_MarkValue (m_meta_obj m) ++ JS_MarkValue (m_promise m) ++
  JS_MarkValue (m_resolving_funcs m).1 ++ JS_MarkValue (m_resolving_funcs m).2.

Definition JS_MarkContext (ctx : JSContext) : list Z :=
  concat (js_mark_module_def <$> loaded_modules ctx) ++
  JS_MarkValue (global_obj ctx) ++ JS_MarkValue (global_var_obj ctx) ++ JS_MarkValue (throw_type_error ctx) ++ JS_MarkValue (eval_obj ctx) ++
  JS_MarkValue (array_proto_values ctx) ++ mark_values (native_error_proto ctx) ++ mark_values (class_proto ctx) ++
  JS_MarkValue (iterator_proto ctx) ++ JS_MarkValue (async_iterator_proto ctx) ++ JS_MarkValue (promise_ctor ctx) ++
  JS_MarkValue (array_ctor ctx) ++ JS_MarkValue (regexp_ctor ctx) ++ JS_MarkValue (function_ctor ctx) ++
  JS_MarkValue (function_proto ctx) ++ mark_opt (array_shape ctx).

(** The headers that [mark_children] passes to [mark_func], in order. *)
Definition children (rt : JSRuntime) (gp : Z) : option (list Z) :=
  o ← heap rt !! gp;
  match body o with
  | B_JS_OBJECT class_id shape prop u =>
      sh ← shape; s ← heap rt !! sh;
      match body s with
      | B_SHAPE _ prs =>
          fields ← mark_properties prs prop;
          data ← (if class_id =? JS_CLASS_OBJECT then Some []
                  else c ← rd (class_array rt) class_id;
                       match gc_mark c with Some f => call_gc_mark (heap rt) f u | None => Some [] end);
          Some (sh :: fields ++ data)
      | _ => None
      end
  | B_FUNCTION_BYTECODE cpool realm _ => Some (mark_values cpool ++ mark_opt realm)
  | B_VAR_REF is_detached value async_func => Some (if is_detached then JS_MarkValue value else mark_opt async_func)
  | B_ASYNC_FUNCTION is_completed cur_func this_val arg_buf cur_sp resolving_funcs =>
      stack ← (if is_completed then Some []
               else if cur_sp then match arg_buf with Some l => Some (mark_values l) | None => None end else Some []);
      Some ((if is_completed then [] else JS_MarkValue cur_func ++ JS_MarkValue this_val ++ stack)
            ++ JS_MarkValue resolving_funcs.1 ++ JS_MarkValue resolving_funcs.2)
  | B_SHAPE proto _ => Some (mark_opt proto)
  | B_JS_CONTEXT ctx => Some (JS_MarkContext ctx)
  end.

Fixpoint for_each (f : JSRuntime -> Z -> option JSRuntime) (l : list Z) (rt : JSRuntime) : option JSRuntime :=
  match l with [] => Some rt | p :: l => rt ← f rt p; for_each f l rt end.

Definition mark_children (rt : JSRuntime) (gp : Z) (mark_func : JSRuntime -> Z -> option JSRuntime) : option JSRuntime :=
  l ← children rt gp; for_each mark_func l rt.
