(* ===== verification/JsGc.v ===== *)
(** * The cycle collector: finding the unreachable objects (quickjs.c)

    [JS_RunGC] subtracts from every reference count the references that come from
    other objects of the heap ([gc_decref]); what is left counts the references
    from outside.  It then restores the counts, starting from the objects that
    are referred to from outside ([gc_scan]): the objects never reached stay in
    [tmp_obj_list]. *)

From stdpp Require Import gmap.
From S2P Require Import Prelude CArray JsHeap.
Open Scope Z_scope.

(** ** Definitions *)

Definition add_gc_object (rt : JSRuntime) (h : Z) (o : gc_body) (n : Z) : JSRuntime :=
  set_lists (gc_obj_list rt ++ [h]) (gc_zero_ref_count_list rt) (tmp_obj_list rt) (set_heap (<[h := GCObject n 0 o]> (heap rt)) rt).

Definition to_tmp_obj_list (p : Z) (rt : JSRuntime) : JSRuntime :=
  let rt := list_del p rt in set_lists (gc_obj_list rt) (gc_zero_ref_count_list rt) (tmp_obj_list rt ++ [p]) rt.

Definition to_gc_obj_list (p : Z) (rt : JSRuntime) : JSRuntime :=
  let rt := list_del p rt in set_lists (gc_obj_list rt ++ [p]) (gc_zero_ref_count_list rt) (tmp_obj_list rt) rt.

Definition gc_decref_child (rt : JSRuntime) (p : Z) : option JSRuntime :=
  o ← heap rt !! p;
  if ref_count o >? 0 then
    let o := set_ref_count (ref_count o - 1) o in
    let rt := set_heap (<[p := o]> (heap rt)) rt in
    Some (if (ref_count o =? 0) && (mark o =? 1) then to_tmp_obj_list p rt else rt)
  else None.

Definition gc_decref_step (rt : JSRuntime) (p : Z) : option JSRuntime :=
  o ← heap rt !! p;
  if mark o =? 0 then
    rt ← mark_children rt p gc_decref_child;
    rt ← alter_obj (fun o => Some (set_mark 1 o)) p rt;
    o ← heap rt !! p;
    Some (if ref_count o =? 0 then to_tmp_obj_list p rt else rt)
  else None.

(** [list_for_each_safe]: the next element is read before the body. *)
Definition gc_decref_body (st : JSRuntime * option Z) : option ((JSRuntime * option Z) + JSRuntime) :=
  let '(rt, el) := st in
  match el with
  | None => Some (inr rt)
  | Some p =>
      el1 ← next_of p (gc_obj_list rt);
      rt ← gc_decref_step rt p;
      Some (inl (rt, el1))
  end.

Definition gc_decref (rt : JSRuntime) : option JSRuntime :=
  let rt := set_lists (gc_obj_list rt) (gc_zero_ref_count_list rt) [] rt in
  loop (size (heap rt) + 1) gc_decref_body (rt, head (gc_obj_list rt)).

Definition gc_scan_incref_child (rt : JSRuntime) (p : Z) : option JSRuntime :=
  o ← heap rt !! p;
  if ref_count o <? INT32_MAX then
    let o := set_ref_count (ref_count o + 1) o in
    let rt := set_heap (<[p := o]> (heap rt)) rt in
    if ref_count o =? 1 then alter_obj (fun o => Some (set_mark 0 o)) p (to_gc_obj_list p rt)
    else Some rt
  else None.

Definition gc_scan_incref_child2 (rt : JSRuntime) (p : Z) : option JSRuntime :=
  o ← heap rt !! p;
  if ref_count o <? INT32_MAX then Some (set_heap (<[p := set_ref_count (ref_count o + 1) o]> (heap rt)) rt) else None.

(** [list_for_each]: the next element is read after the body, which may have
    extended the list. *)
Definition gc_scan_body (st : JSRuntime * option Z) : option ((JSRuntime * option Z) + JSRuntime) :=
  let '(rt, el) := st in
  match el with
  | None => Some (inr rt)
  | Some p =>
      o ← heap rt !! p;
      if ref_count o >? 0 then
        rt ← alter_obj (fun o => Some (set_mark 0 o)) p rt;
        rt ← mark_children rt p gc_scan_incref_child;
        el ← next_of p (gc_obj_list rt);
        Some (inl (rt, el))
      else None
  end.

Definition gc_restore_body (st : JSRuntime * option Z) : option ((JSRuntime * option Z) + JSRuntime) :=
  let '(rt, el) := st in
  match el with
  | None => Some (inr rt)
  | Some p =>
      rt ← mark_children rt p gc_scan_incref_child2;
      el ← next_of p (tmp_obj_list rt);
      Some (inl (rt, el))
  end.

Definition gc_scan (rt : JSRuntime) : option JSRuntime :=
  rt ← loop (size (heap rt) + 1) gc_scan_body (rt, head (gc_obj_list rt));
  loop (size (heap rt) + 1) gc_restore_body (rt, head (tmp_obj_list rt)).

(** ** The object graph *)

(** How often [p] occurs in a list of references. *)
Definition cnt (p : Z) (l : list Z) : Z := Z.of_nat (count_occ Z.eq_dec l p).

Lemma cnt_cons p q l : cnt p (q :: l) = Zb (bool_decide (q = p)) + cnt p l.
Proof. unfold cnt. cbn [count_occ]. destruct (Z.eq_dec q p) as [->|]; [rewrite bool_decide_eq_true_2 by done|rewrite bool_decide_eq_false_2 by done]; cbn [Zb]; lia. Qed.

Lemma cnt_app p a b : cnt p (a ++ b) = cnt p a + cnt p b.
Proof. unfold cnt. rewrite count_occ_app. lia. Qed.

Lemma cnt_nonneg p l : 0 <= cnt p l.
Proof. unfold cnt. lia. Qed.

Lemma cnt_pos p l : p ∈ l -> 0 < cnt p l.
Proof. intros H. apply list_elem_of_In, (count_occ_In Z.eq_dec) in H. unfold cnt. lia. Qed.

Lemma cnt_elem p l : 0 < cnt p l -> p ∈ l.
Proof. unfold cnt. intros H. apply list_elem_of_In, (count_occ_In Z.eq_dec). lia. Qed.

Lemma cnt_perm p a b : a ≡ₚ b -> cnt p a = cnt p b.
Proof. induction 1 as [|x a b H IH|x y a|a b c ? IH1 ? IH2]; rewrite ?cnt_cons; lia. Qed.

Section graph.
(** The objects and their references, which no step of the search changes. *)
Context (rt0 : JSRuntime).

Definition refs (p : Z) : list Z := default [] (children rt0 p).
Definition all_refs (l : list Z) : list Z := concat (refs <$> l).

(** What the reference count of [p] counts besides the references from the
    heap. *)
Definition external (p : Z) : Z :=
  match heap rt0 !! p with Some o => ref_count o - cnt p (all_refs (gc_obj_list rt0)) | None => 0 end.

(** Reachable from an object that is referred to from outside. *)
Inductive reachable : Z -> Prop :=
  | reach_root p : p ∈ gc_obj_list rt0 -> 0 < external p -> reachable p
  | reach_step p q : reachable p -> q ∈ refs p -> reachable q.

(** A runtime between two collections: every object is in [gc_obj_list], once,
    with a clear mark; the references of an object are readable and lead to
    objects of the heap; no reference count is below the references that the
    heap holds, and none overflows. *)
Record gc_ready : Prop := {
  ready_nodup : NoDup (gc_obj_list rt0);
  ready_dom p : p ∈ gc_obj_list rt0 <-> is_Some (heap rt0 !! p);
  ready_mark p o : heap rt0 !! p = Some o -> mark o = 0;
  ready_refs p : p ∈ gc_obj_list rt0 -> is_Some (children rt0 p);
  ready_closed p q : p ∈ gc_obj_list rt0 -> q ∈ refs p -> q ∈ gc_obj_list rt0;
  ready_count p : p ∈ gc_obj_list rt0 -> 0 <= external p;
  ready_bound p o : heap rt0 !! p = Some o -> ref_count o <= INT32_MAX;
  ready_zero : gc_zero_ref_count_list rt0 = [] }.
End graph.
