(* ===== verification/JsGcSpec.v ===== *)
(** * The cycle collector finds the unreachable objects

    The search leaves in [gc_obj_list] exactly the objects reachable from outside
    the heap and in [tmp_obj_list] all others, and restores every reference
    count. *)

From stdpp Require Import gmap.
From S2P Require Import Prelude CArray JsHeap JsGc.
Open Scope Z_scope.

(** ** Lists *)

Lemma drop_link_id p l : p ∉ l -> drop_link p l = l.
Proof. intros Hp. unfold drop_link. induction l as [|x l IH]; [done|]. rewrite filter_cons_True by set_solver. rewrite IH by set_solver. done. Qed.

Lemma drop_link_app p a b : drop_link p (a ++ b) = drop_link p a ++ drop_link p b.
Proof. apply filter_app. Qed.

Lemma drop_link_elem p q l : q ∈ drop_link p l <-> q <> p /\ q ∈ l.
Proof. unfold drop_link. by rewrite list_elem_of_filter. Qed.

Lemma drop_link_perm p l : NoDup l -> p ∈ l -> l ≡ₚ p :: drop_link p l.
Proof.
  intros Hn Hp. apply list_elem_of_split in Hp as (a & b & ->). apply NoDup_app in Hn as (Ha & Hd & Hb). apply NoDup_cons in Hb as [Hb Hnb].
  assert (p ∉ a) by (intros F; apply (Hd p F); by left). change (p :: b) with ([p] ++ b). rewrite !drop_link_app, (drop_link_id p a), (drop_link_id p b) by done. unfold drop_link at 1. rewrite filter_cons_False, filter_nil by (intros F; by apply F). cbn [app].
  symmetry. apply Permutation_middle.
Qed.

Lemma next_of_mid p a b : p ∉ a -> next_of p (a ++ p :: b) = Some (head b).
Proof.
  induction a as [|x a IH]; intros Hp; cbn [app next_of]; [by rewrite Z.eqb_refl|]. replace (x =? p) with false by (symmetry; apply Z.eqb_neq; set_solver). apply IH. set_solver.
Qed.
Lemma filter_ext_in {A} (P Q : A -> Prop) `{HP0 : !forall x, Decision (P x), HQ0 : !forall x, Decision (Q x)} (l : list A) :
  (forall x, x ∈ l -> P x <-> Q x) -> filter P l = filter Q l.
Proof.
  induction l as [|x l IH]; intros H; [done|]. rewrite !filter_cons. rewrite (IH (fun y Hy => H y (list_elem_of_further _ _ _ Hy))).
  destruct (decide (P x)) as [HP|HP], (decide (Q x)) as [HQ|HQ]; try done; exfalso; apply HP || apply HQ; apply (H x ltac:(by left)); done.
Qed.

Lemma eq_reflexivity {A} (a b : list A) : a = b -> a ≡ₚ b.
Proof. by intros ->. Qed.

Section search.
Context (rt0 : JSRuntime) (Hready : gc_ready rt0).

Notation L := (gc_obj_list rt0).
Notation refs := (refs rt0).
Notation all_refs := (all_refs rt0).
Notation ext := (external rt0).

(** ** States of the search *)

Definition hdrs (rc mk : Z -> Z) : gmap Z JSGCObjectHeader :=
  map_imap (fun p o => Some (GCObject (rc p) (mk p) (body o))) (heap rt0).

Definition state (rc mk : Z -> Z) (gl tl : list Z) : JSRuntime :=
  Runtime (hdrs rc mk) gl (gc_zero_ref_count_list rt0) tl (gc_phase rt0) (class_array rt0).

Lemma hdrs_lookup rc mk p : hdrs rc mk !! p = (fun o => GCObject (rc p) (mk p) (body o)) <$> heap rt0 !! p.
Proof using . unfold hdrs. rewrite map_lookup_imap. by destruct (heap rt0 !! p). Qed.

Lemma hdrs_ext rc mk rc' mk' : (forall p, is_Some (heap rt0 !! p) -> rc p = rc' p /\ mk p = mk' p) -> hdrs rc mk = hdrs rc' mk'.
Proof using .
  intros H. apply map_eq. intros p. rewrite !hdrs_lookup. destruct (heap rt0 !! p) as [o|] eqn:E; [|done]. destruct (H p ltac:(eauto)) as [-> ->]. done.
Qed.

Lemma hdrs_insert rc mk p o n m rc' mk' : heap rt0 !! p = Some o -> rc' p = n -> mk' p = m ->
  (forall q, q <> p -> rc' q = rc q /\ mk' q = mk q) -> <[p := GCObject n m (body o)]> (hdrs rc mk) = hdrs rc' mk'.
Proof using .
  intros Ho Hn Hm Hq. apply map_eq. intros q. rewrite hdrs_lookup. destruct (decide (q = p)) as [-> |Hne].
  - rewrite lookup_insert_eq, Ho. cbn. by rewrite Hn, Hm.
  - rewrite lookup_insert_ne, hdrs_lookup by done. destruct (Hq q Hne) as [-> ->]. done.
Qed.

Lemma hdrs_obj rc mk p : p ∈ L -> exists o, heap rt0 !! p = Some o /\ hdrs rc mk !! p = Some (GCObject (rc p) (mk p) (body o)).
Proof using Hready. intros Hp. apply (ready_dom _ Hready) in Hp as [o Ho]. exists o. split; [done|]. by rewrite hdrs_lookup, Ho. Qed.

Lemma size_hdrs rc mk : size (hdrs rc mk) = length L.
Proof using Hready.
  rewrite <- (size_dom (D:=gset Z)). assert (dom (hdrs rc mk) = list_to_set (C:=gset Z) L) as ->; [|apply size_list_to_set, Hready].
  apply set_eq. intros p. rewrite elem_of_list_to_set, elem_of_dom, hdrs_lookup, fmap_is_Some. symmetry. apply Hready.
Qed.

(** The references are read from bodies only. *)
Lemma closure_refs_hdrs rc mk b l : closure_refs (hdrs rc mk) b l = closure_refs (heap rt0) b l.
Proof using . unfold closure_refs. rewrite hdrs_lookup. by destruct (heap rt0 !! b). Qed.

Lemma call_gc_mark_hdrs rc mk f u : call_gc_mark (hdrs rc mk) f u = call_gc_mark (heap rt0) f u.
Proof using .
  destruct f; try done. cbn [call_gc_mark]. unfold js_bytecode_function_mark. destruct u; try done. destruct function_bytecode; [|done]. destruct var_refs; [|done]. by rewrite closure_refs_hdrs.
Qed.

Lemma children_state rc mk gl tl p : children (state rc mk gl tl) p = children rt0 p.
Proof using .
  unfold children. cbn [state heap class_array]. rewrite hdrs_lookup. destruct (heap rt0 !! p) as [[n m b]|]; [|done]. cbn [fmap option_fmap option_map mbind option_bind body].
  destruct b; try done. destruct shape as [sh|]; [|done]. cbn [mbind option_bind]. rewrite hdrs_lookup. destruct (heap rt0 !! sh) as [[n' m' b]|]; [|done]. cbn [fmap option_fmap option_map mbind option_bind body].
  destruct b; try done. destruct (mark_properties props prop); [|done]. cbn [mbind option_bind]. destruct (class_id =? JS_CLASS_OBJECT); [done|].
  destruct (rd (class_array rt0) class_id) as [[fin mkf]|]; [|done]. cbn [mbind option_bind gc_mark]. destruct mkf; [|done]. by rewrite call_gc_mark_hdrs.
Qed.

Lemma children_refs p : p ∈ L -> children rt0 p = Some (refs p).
Proof using Hready. intros Hp. unfold JsGc.refs. by destruct (ready_refs _ Hready p Hp) as [l ->]. Qed.

Lemma mark_children_state rc mk gl tl p f : p ∈ L -> mark_children (state rc mk gl tl) p f = for_each f (refs p) (state rc mk gl tl).
Proof using Hready. intros Hp. unfold mark_children. rewrite children_state, children_refs by done. done. Qed.


(** ** Subtracting the references of the heap *)

(** The count of [p] when the references [r] of the heap are still counted. *)
Definition rcf (r : list Z) (p : Z) : Z := ext p + cnt p r.

Definition seen (l1 : list Z) (p : Z) : Z := Zb (bool_decide (p ∈ l1)).
Definition live (r l1 : list Z) : list Z := filter (fun p => rcf r p <> 0) l1.
Definition dead (r l1 : list Z) : list Z := filter (fun p => rcf r p = 0) l1.

Lemma rcf_nonneg r p : p ∈ L -> 0 <= rcf r p.
Proof using Hready. intros Hp. pose proof (ready_count _ Hready p Hp). pose proof (cnt_nonneg p r). unfold rcf. lia. Qed.

Lemma rcf_cons q r p : rcf (q :: r) p = Zb (bool_decide (q = p)) + rcf r p.
Proof using . unfold rcf. rewrite cnt_cons. lia. Qed.

Lemma decref_child q r l1 l2 tl : l1 ++ l2 = L -> q ∈ L -> tl ≡ₚ dead (q :: r) l1 ->
  exists tl', gc_decref_child (state (rcf (q :: r)) (seen l1) (live (q :: r) l1 ++ l2) tl) q = Some (state (rcf r) (seen l1) (live r l1 ++ l2) tl') /\ tl' ≡ₚ dead r l1.
Proof using Hready.
  intros Hl Hq Ht. pose proof (ready_nodup _ Hready) as Hnd. rewrite <- Hl in Hnd. apply NoDup_app in Hnd as (Hn1 & Hdis & Hn2).
  pose proof (rcf_nonneg r q Hq). destruct (hdrs_obj (rcf (q :: r)) (seen l1) q Hq) as (o & Ho & Hh).
  unfold gc_decref_child. cbn [state heap]. rewrite Hh. cbn [mbind option_bind ref_count mark set_ref_count].
  assert (rcf (q :: r) q = rcf r q + 1) as Eq by (rewrite rcf_cons, bool_decide_eq_true_2 by done; cbn [Zb]; lia).
  replace (rcf (q :: r) q >? 0) with true by lia.
  assert (forall p, p <> q -> rcf (q :: r) p = rcf r p) as Ene by (intros p Hp; rewrite rcf_cons, bool_decide_eq_false_2 by congruence; done).
  unfold set_ref_count. cbn [mark body]. rewrite (hdrs_insert _ _ q o _ _ (rcf r) (seen l1) Ho) by (done || lia || (intros p Hp; by rewrite Ene)).
  replace (rcf (q :: r) q - 1 =? 0) with (rcf r q =? 0) by lia.
  destruct ((rcf r q =? 0) && (seen l1 q =? 1)) eqn:E.
  - apply andb_true_iff in E as [E E1]. zbool. assert (q ∈ l1) as H1 by (unfold seen in E1; destruct (bool_decide (q ∈ l1)) eqn:Eb; [by apply bool_decide_eq_true in Eb|done]).
    assert (q ∉ l2) by (intros F; by apply (Hdis q)).
    unfold to_tmp_obj_list, list_del, set_lists. cbn [gc_obj_list gc_zero_ref_count_list tmp_obj_list heap gc_phase class_array set_heap state].
    assert (q ∉ tl) as Hqt by (rewrite Ht; unfold dead; rewrite list_elem_of_filter; lia).
    rewrite (ready_zero _ Hready), drop_link_app, (drop_link_id q l2), (drop_link_id q tl), (drop_link_id q []) by (done || apply not_elem_of_nil). exists (tl ++ [q]). split.
    + assert (drop_link q (live (q :: r) l1) = live r l1) as El; [|unfold state; by rewrite El, (ready_zero _ Hready)].
      unfold drop_link, live. rewrite list_filter_filter. apply filter_ext_in. intros p _.
      destruct (decide (p = q)) as [-> |Hp]; [split; [by intros [? _]|lia]|]. rewrite Ene by done. tauto.
    + rewrite Ht. apply list_elem_of_split in H1 as (a & b & ->). apply NoDup_app in Hn1 as (? & Hab & Hb). apply NoDup_cons in Hb as [? _].
      assert (q ∉ a) by (intros F; apply (Hab q F); by left). unfold dead. rewrite !filter_app, filter_cons_False, filter_cons_True by lia.
      assert (forall l : list Z, q ∉ l -> filter (fun p => rcf (q :: r) p = 0) l = filter (fun p => rcf r p = 0) l) as Hf.
      { intros l Hql. apply filter_ext_in. intros p Hp. rewrite Ene; [done|]. by intros ->. }
      rewrite !Hf by done. rewrite <- app_assoc. apply Permutation_app_head. symmetry. apply Permutation_cons_append.
  - assert (forall p, p ∈ l1 -> (rcf (q :: r) p = 0 <-> rcf r p = 0)) as Hsame.
    { intros p Hp. destruct (decide (p = q)) as [-> |Hne]; [|by rewrite Ene]. unfold seen in E. rewrite bool_decide_eq_true_2 in E by done. cbn [Zb] in E. lia. }
    exists tl. split.
    + assert (live (q :: r) l1 = live r l1) as El by (apply filter_ext_in; intros p Hp; by rewrite Hsame). rewrite El. reflexivity.
    + rewrite Ht. apply eq_reflexivity, filter_ext_in, Hsame.
Qed.

Lemma decref_fold rem r l1 l2 tl : l1 ++ l2 = L -> (forall q, q ∈ rem -> q ∈ L) -> tl ≡ₚ dead (rem ++ r) l1 ->
  exists tl', for_each gc_decref_child rem (state (rcf (rem ++ r)) (seen l1) (live (rem ++ r) l1 ++ l2) tl)
    = Some (state (rcf r) (seen l1) (live r l1 ++ l2) tl') /\ tl' ≡ₚ dead r l1.
Proof using Hready.
  revert tl. induction rem as [|q rem IH]; intros tl Hl Hq Ht; [by exists tl|]. cbn [for_each app] in *.
  destruct (decref_child q (rem ++ r) l1 l2 tl Hl (Hq q ltac:(by left)) Ht) as (tl1 & -> & Ht1). cbn [mbind option_bind].
  apply IH; [done| |done]. intros p Hp. apply Hq. by right.
Qed.

Lemma all_refs_cons p l : all_refs (p :: l) = refs p ++ all_refs l.
Proof using . done. Qed.

Lemma all_refs_app a b : all_refs (a ++ b) = all_refs a ++ all_refs b.
Proof using . unfold JsGc.all_refs. by rewrite fmap_app, concat_app. Qed.

Lemma all_refs_snoc a p : all_refs (a ++ [p]) = all_refs a ++ refs p.
Proof using . rewrite all_refs_app, all_refs_cons. unfold JsGc.all_refs at 2. cbn. by rewrite app_nil_r. Qed.

Lemma all_refs_in l q : (forall p, p ∈ l -> p ∈ L) -> q ∈ all_refs l -> q ∈ L.
Proof using Hready.
  intros Hl Hq. unfold JsGc.all_refs in Hq. apply list_elem_of_In, in_concat in Hq as (x & Hx & Hq). apply list_elem_of_In, list_elem_of_fmap in Hx as (p & -> & Hp).
  apply list_elem_of_In in Hq. exact (ready_closed _ Hready p q (Hl p Hp) Hq).
Qed.

Lemma all_refs_perm a b : a ≡ₚ b -> all_refs a ≡ₚ all_refs b.
Proof using . intros H. unfold JsGc.all_refs. by rewrite H. Qed.

Lemma seen_snoc l1 p q : q <> p -> seen (l1 ++ [p]) q = seen l1 q.
Proof using . intros Hq. unfold seen. f_equal. apply bool_decide_ext. clear - Hq. set_solver. Qed.

Lemma decref_step p l1 l2 tl : l1 ++ p :: l2 = L -> tl ≡ₚ dead (all_refs (p :: l2)) l1 ->
  exists tl', gc_decref_step (state (rcf (all_refs (p :: l2))) (seen l1) (live (all_refs (p :: l2)) l1 ++ p :: l2) tl) p
    = Some (state (rcf (all_refs l2)) (seen (l1 ++ [p])) (live (all_refs l2) (l1 ++ [p]) ++ l2) tl') /\ tl' ≡ₚ dead (all_refs l2) (l1 ++ [p]).
Proof using Hready.
  intros Hl Ht. pose proof (ready_nodup _ Hready) as Hnd. rewrite <- Hl in Hnd. apply NoDup_app in Hnd as (Hn1 & Hdis & Hn2). apply NoDup_cons in Hn2 as [Hp2 Hn2].
  assert (p ∈ L) as Hp by (rewrite <- Hl; set_solver). assert (p ∉ l1) as Hp1 by (intros F; apply (Hdis p F); by left).
  unfold gc_decref_step. destruct (hdrs_obj (rcf (all_refs (p :: l2))) (seen l1) p Hp) as (o & Ho & Hh). cbn [state heap]. rewrite Hh. cbn [mbind option_bind mark].
  assert (seen l1 p = 0) as -> by (unfold seen; by rewrite bool_decide_eq_false_2). change (0 =? 0) with true. cbv iota.
  fold (state (rcf (all_refs (p :: l2))) (seen l1) (live (all_refs (p :: l2)) l1 ++ p :: l2) tl). rewrite mark_children_state by done. rewrite all_refs_cons in *.
  destruct (decref_fold (refs p) (all_refs l2) l1 (p :: l2) tl Hl) as (tl1 & -> & Ht1); [intros q; by apply (ready_closed _ Hready)|done|]. cbn [mbind option_bind].
  destruct (hdrs_obj (rcf (all_refs l2)) (seen l1) p Hp) as (o' & Ho' & Hh'). rewrite Ho in Ho'. injection Ho' as <-.
  unfold alter_obj. cbn [state heap]. rewrite Hh'. cbn [mbind option_bind]. unfold set_mark, set_heap. cbn [state ref_count body heap gc_obj_list gc_zero_ref_count_list tmp_obj_list gc_phase class_array].
  rewrite (hdrs_insert _ _ p o _ 1 (rcf (all_refs l2)) (seen (l1 ++ [p])) Ho) by first [done | (unfold seen; rewrite bool_decide_eq_true_2 by set_solver; done) | (intros q Hq; by rewrite seen_snoc)].
  destruct (hdrs_obj (rcf (all_refs l2)) (seen (l1 ++ [p])) p Hp) as (o' & Ho' & Hh2). rewrite Hh2. cbn [mbind option_bind ref_count].
  destruct (rcf (all_refs l2) p =? 0) eqn:E; zbool.
  - exists (tl1 ++ [p]). split.
    + unfold to_tmp_obj_list, list_del, set_lists. cbn [state gc_obj_list gc_zero_ref_count_list tmp_obj_list heap gc_phase class_array].
      assert (p ∉ tl1) as Hpt by (rewrite Ht1; unfold dead; rewrite list_elem_of_filter; tauto). assert (p ∉ live (all_refs l2) l1) by (unfold live; rewrite list_elem_of_filter; tauto).
      rewrite (ready_zero _ Hready), drop_link_app, (drop_link_id p tl1), (drop_link_id p []), (drop_link_id p (live _ _)) by (done || apply not_elem_of_nil).
      assert (drop_link p (p :: l2) = l2) as -> by (unfold drop_link; rewrite filter_cons_False by tauto; by apply drop_link_id).
      unfold state. rewrite (ready_zero _ Hready). do 2 f_equal. f_equal. unfold live. rewrite filter_app, filter_cons_False, filter_nil, app_nil_r by tauto. done.
    + rewrite Ht1. unfold dead. rewrite filter_app, filter_cons_True, filter_nil by done. done.
  - exists tl1. split.
    + unfold state. do 2 f_equal. unfold live. rewrite filter_app, filter_cons_True, filter_nil, <- app_assoc by done. done.
    + rewrite Ht1. unfold dead. rewrite filter_app, filter_cons_False, filter_nil, app_nil_r by done. done.
Qed.

Lemma decref_loop fuel l1 l2 tl : l1 ++ l2 = L -> tl ≡ₚ dead (all_refs l2) l1 -> (length l2 < fuel)%nat ->
  exists tl', loop fuel gc_decref_body (state (rcf (all_refs l2)) (seen l1) (live (all_refs l2) l1 ++ l2) tl, head l2)
    = Some (state (rcf []) (seen L) (live [] L) tl') /\ tl' ≡ₚ dead [] L.
Proof using Hready.
  revert l1 l2 tl. induction fuel as [|fuel IH]; intros l1 l2 tl Hl Ht Hf; [lia|]. cbn [loop]. destruct l2 as [|p l2]; cbn [head gc_decref_body].
  - rewrite app_nil_r in Hl. subst l1. exists tl. split; [|done]. by rewrite app_nil_r.
  - pose proof (ready_nodup _ Hready) as Hnd. rewrite <- Hl in Hnd. apply NoDup_app in Hnd as (_ & Hdis & _).
    change (gc_obj_list (state (rcf (all_refs (p :: l2))) (seen l1) (live (all_refs (p :: l2)) l1 ++ p :: l2) tl)) with (live (all_refs (p :: l2)) l1 ++ p :: l2).
    rewrite next_of_mid by (unfold live; rewrite list_elem_of_filter; intros [_ F]; apply (Hdis p F); by left). cbn [mbind option_bind].
    destruct (decref_step p l1 l2 tl Hl Ht) as (tl1 & -> & Ht1). cbn [mbind option_bind]. apply IH; [by rewrite <- app_assoc|done|simpl in Hf; lia].
Qed.

Lemma rcf_start p o : heap rt0 !! p = Some o -> rcf (all_refs L) p = ref_count o.
Proof using . intros Ho. unfold rcf, external. rewrite Ho. lia. Qed.

Lemma start_state tl : set_lists L (gc_zero_ref_count_list rt0) tl rt0 = state (rcf (all_refs L)) (seen []) L tl.
Proof using Hready.
  unfold set_lists, state. f_equal. apply map_eq. intros p. rewrite hdrs_lookup. destruct (heap rt0 !! p) as [o|] eqn:E; [|done]. cbn.
  rewrite (rcf_start p o E). pose proof (ready_mark _ Hready p o E) as Hm. unfold seen. rewrite bool_decide_eq_false_2 by apply not_elem_of_nil. cbn [Zb]. rewrite <- Hm. by destruct o.
Qed.

Lemma gc_decref_spec : exists tl, gc_decref rt0 = Some (state (rcf []) (seen L) (live [] L) tl) /\ tl ≡ₚ dead [] L.
Proof using Hready.
  unfold gc_decref. rewrite start_state. cbn [state heap]. rewrite size_hdrs. fold (state (rcf (all_refs L)) (seen []) L []).
  exact (decref_loop (length L + 1) [] L [] eq_refl ltac:(done) ltac:(lia)).
Qed.

(** ** Restoring the counts from the roots *)

(** After the references [acc] were counted again: the objects with a count are
    in [gl], the others in [tl]; those in [gl] are reachable. *)
Record scan_inv (acc gl tl : list Z) : Prop := {
  scan_perm : gl ++ tl ≡ₚ L;
  scan_live p : p ∈ gl -> 0 < rcf acc p;
  scan_dead p : p ∈ tl -> rcf acc p = 0;
  scan_reach p : p ∈ gl -> reachable rt0 p }.

Lemma scan_in acc gl tl p : scan_inv acc gl tl -> p ∈ L -> p ∈ gl \/ p ∈ tl.
Proof using . intros H Hp. rewrite <- (scan_perm _ _ _ H), elem_of_app in Hp. done. Qed.

Lemma scan_L acc gl tl p : scan_inv acc gl tl -> p ∈ gl \/ p ∈ tl -> p ∈ L.
Proof using . intros H Hp. rewrite <- (scan_perm _ _ _ H), elem_of_app. done. Qed.

Lemma scan_nodup acc gl tl : scan_inv acc gl tl -> NoDup (gl ++ tl).
Proof using Hready. intros H. rewrite (scan_perm _ _ _ H). apply Hready. Qed.

(** Counting never exceeds the original counts. *)
Lemma rcf_budget q acc rest : q ∈ L -> acc ++ q :: rest ≡ₚ all_refs L -> rcf acc q < INT32_MAX.
Proof using Hready.
  intros Hq Hp. apply (cnt_perm q) in Hp. rewrite cnt_app, cnt_cons, bool_decide_eq_true_2 in Hp by done. cbn [Zb] in Hp. pose proof (cnt_nonneg q rest).
  pose proof Hq as Hq'. apply (ready_dom _ Hready) in Hq' as [o Ho]. pose proof (rcf_start q o Ho) as Hs. pose proof (ready_bound _ Hready q o Ho). unfold rcf in *. lia.
Qed.

Lemma rcf_snoc acc q p : rcf (acc ++ [q]) p = rcf acc p + Zb (bool_decide (q = p)).
Proof using . unfold rcf. rewrite cnt_app, cnt_cons. change (cnt p []) with 0. lia. Qed.

Lemma incref_child acc gl tl mk q rest : scan_inv acc gl tl -> q ∈ L -> reachable rt0 q -> acc ++ q :: rest ≡ₚ all_refs L ->
  exists mk' new tl', gc_scan_incref_child (state (rcf acc) mk gl tl) q = Some (state (rcf (acc ++ [q])) mk' (gl ++ new) tl') /\
    scan_inv (acc ++ [q]) (gl ++ new) tl' /\ (forall p, mk p = 0 -> mk' p = 0).
Proof using Hready.
  intros Hinv Hq Hreach Hbud. pose proof (scan_nodup _ _ _ Hinv) as Hnd. apply NoDup_app in Hnd as (Hng & Hdis & Hnt).
  pose proof (rcf_budget q acc rest Hq Hbud) as Hb. pose proof (rcf_nonneg acc q Hq) as Hnn. destruct (hdrs_obj (rcf acc) mk q Hq) as (o & Ho & Hh).
  assert (forall p, p <> q -> rcf (acc ++ [q]) p = rcf acc p) as Ene by (intros p Hp; rewrite rcf_snoc, bool_decide_eq_false_2 by congruence; cbn [Zb]; lia).
  assert (rcf (acc ++ [q]) q = rcf acc q + 1) as Eq by (rewrite rcf_snoc, bool_decide_eq_true_2 by done; done).
  unfold gc_scan_incref_child. cbn [state heap]. rewrite Hh. cbn [mbind option_bind ref_count]. replace (rcf acc q <? INT32_MAX) with true by lia.
  unfold set_ref_count. cbn [ref_count mark body]. rewrite (hdrs_insert _ _ q o _ _ (rcf (acc ++ [q])) mk Ho) by (done || (intros p Hp; by rewrite Ene)).
  destruct (rcf acc q + 1 =? 1) eqn:E; zbool.
  - assert (q ∈ tl) as Hqt by (destruct (scan_in _ _ _ q Hinv Hq) as [F|F]; [apply (scan_live _ _ _ Hinv) in F; lia|done]). assert (q ∉ gl) as Hqg by (intros F; by apply (Hdis q)).
    exists (fun p => if decide (p = q) then 0 else mk p), [q], (drop_link q tl). split_and!.
    + unfold to_gc_obj_list, list_del, alter_obj, set_lists, set_heap. cbn [state heap gc_obj_list gc_zero_ref_count_list tmp_obj_list gc_phase class_array].
      destruct (hdrs_obj (rcf (acc ++ [q])) mk q Hq) as (o' & Ho' & Hh'). rewrite Hh'. cbn [mbind option_bind]. unfold set_mark. cbn [ref_count body].
      rewrite (hdrs_insert _ _ q o' _ 0 (rcf (acc ++ [q])) (fun p => if decide (p = q) then 0 else mk p) Ho') by first [done|by rewrite decide_True|intros p Hp; by rewrite decide_False].
      rewrite (drop_link_id q gl) by done. rewrite (ready_zero _ Hready), (drop_link_id q []) by apply not_elem_of_nil. unfold state. by rewrite (ready_zero _ Hready).
    + split.
      * rewrite <- (scan_perm _ _ _ Hinv), <- app_assoc. apply Permutation_app_head. symmetry. by apply drop_link_perm.
      * intros p [Hp|Hp]%elem_of_app; [pose proof (scan_live _ _ _ Hinv p Hp); rewrite rcf_snoc; destruct (bool_decide _); cbn [Zb]; lia|]. apply list_elem_of_singleton in Hp as ->. lia.
      * intros p [Hne Hp]%drop_link_elem. rewrite Ene by done. by apply (scan_dead _ _ _ Hinv).
      * intros p [Hp|Hp]%elem_of_app; [by apply (scan_reach _ _ _ Hinv)|]. by apply list_elem_of_singleton in Hp as ->.
    + intros p Hp. by destruct (decide (p = q)).
  - exists mk, [], tl. rewrite app_nil_r. split_and!; [done| |done].
    assert (q ∈ gl) as Hqg by (destruct (scan_in _ _ _ q Hinv Hq) as [F|F]; [done|apply (scan_dead _ _ _ Hinv) in F; lia]). split.
    + apply Hinv.
    + intros p Hp. pose proof (scan_live _ _ _ Hinv p Hp). rewrite rcf_snoc. destruct (bool_decide _); cbn [Zb]; lia.
    + intros p Hp. rewrite Ene; [by apply (scan_dead _ _ _ Hinv)|]. intros ->. by apply (Hdis q).
    + apply Hinv.
Qed.

Lemma incref_fold rem acc gl tl mk rest : scan_inv acc gl tl -> (forall q, q ∈ rem -> q ∈ L /\ reachable rt0 q) -> acc ++ rem ++ rest ≡ₚ all_refs L ->
  exists mk' new tl', for_each gc_scan_incref_child rem (state (rcf acc) mk gl tl) = Some (state (rcf (acc ++ rem)) mk' (gl ++ new) tl') /\
    scan_inv (acc ++ rem) (gl ++ new) tl' /\ (forall p, mk p = 0 -> mk' p = 0).
Proof using Hready.
  revert acc gl tl mk. induction rem as [|q rem IH]; intros acc gl tl mk Hinv Hq Hbud; cbn [for_each].
  - exists mk, [], tl. by rewrite !app_nil_r.
  - destruct (Hq q ltac:(by left)) as [HqL Hqr]. destruct (incref_child acc gl tl mk q (rem ++ rest) Hinv HqL Hqr Hbud) as (mk1 & new1 & tl1 & -> & Hinv1 & Hmk1). cbn [mbind option_bind].
    destruct (IH (acc ++ [q]) (gl ++ new1) tl1 mk1 Hinv1) as (mk2 & new2 & tl2 & -> & Hinv2 & Hmk2); [intros p Hp; apply Hq; by right|by rewrite <- app_assoc|].
    exists mk2, (new1 ++ new2), tl2. rewrite <- !app_assoc in *. cbn [app] in *. split_and!; [done|done|auto].
Qed.

Lemma gc_scan_loop fuel a u tl mk : scan_inv (all_refs a) (a ++ u) tl -> (forall p, p ∈ a -> mk p = 0) -> (length L < fuel + length a)%nat ->
  exists mk' gl tl', loop fuel gc_scan_body (state (rcf (all_refs a)) mk (a ++ u) tl, head u) = Some (state (rcf (all_refs gl)) mk' gl tl') /\
    scan_inv (all_refs gl) gl tl' /\ (forall p, p ∈ gl -> mk' p = 0).
Proof using Hready.
  revert a u tl mk. induction fuel as [|fuel IH]; intros a u tl mk Hinv Hmk Hf.
  { pose proof (scan_perm _ _ _ Hinv) as Hp. apply Permutation_length in Hp. rewrite !length_app in Hp. lia. }
  cbn [loop]. destruct u as [|p u]; cbn [head gc_scan_body].
  { exists mk, a, tl. rewrite app_nil_r in *. done. }
  pose proof (scan_nodup _ _ _ Hinv) as Hnd. assert (p ∈ a ++ p :: u) as Hpg by set_solver.
  assert (p ∈ L) as HpL by (eapply scan_L; [done|by left]). assert (p ∉ a) as Hpa by (apply NoDup_app in Hnd as [Hnd _]; apply NoDup_app in Hnd as (_ & Hd & _); intros F; apply (Hd p F); by left).
  destruct (hdrs_obj (rcf (all_refs a)) mk p HpL) as (o & Ho & Hh). cbn [state heap]. rewrite Hh. cbn [mbind option_bind ref_count].
  pose proof (scan_live _ _ _ Hinv p Hpg). replace (rcf (all_refs a) p >? 0) with true by lia.
  unfold alter_obj. cbn [state heap]. rewrite Hh. cbn [mbind option_bind]. unfold set_mark, set_heap. cbn [state ref_count body heap gc_obj_list gc_zero_ref_count_list tmp_obj_list gc_phase class_array].
  set (mk0 := fun q => if decide (q = p) then 0 else mk q).
  rewrite (hdrs_insert _ _ p o _ 0 (rcf (all_refs a)) mk0 Ho) by first [done|by unfold mk0; rewrite decide_True|intros q Hq; unfold mk0; by rewrite decide_False].
  fold (state (rcf (all_refs a)) mk0 (a ++ p :: u) tl). rewrite mark_children_state by done.
  destruct (incref_fold (refs p) (all_refs a) (a ++ p :: u) tl mk0 (all_refs (u ++ tl)) Hinv) as (mk1 & new & tl1 & -> & Hinv1 & Hmk1).
  { intros q Hq. split; [by apply (ready_closed _ Hready p)|]. eapply reach_step; [|exact Hq]. by apply (scan_reach _ _ _ Hinv). }
  { rewrite <- all_refs_cons, <- all_refs_app. apply all_refs_perm. rewrite <- (scan_perm _ _ _ Hinv), <- app_assoc. done. }
  cbn [mbind option_bind]. cbn [state gc_obj_list]. rewrite <- app_assoc. cbn [app]. rewrite next_of_mid by done. cbn [mbind option_bind].
  pose proof (all_refs_snoc a p) as Er.
  rewrite <- app_assoc in Hinv1. cbn [app] in Hinv1.
  change (a ++ p :: u ++ new) with (a ++ [p] ++ (u ++ new)) in *. rewrite app_assoc in *. rewrite <- Er in *.
  fold (state (rcf (all_refs (a ++ [p]))) mk1 ((a ++ [p]) ++ u ++ new) tl1). apply IH; [done| |rewrite length_app; simpl; lia].
  intros q Hq. apply Hmk1. unfold mk0. destruct (decide (q = p)); [done|]. apply Hmk. set_solver.
Qed.

Lemma restore_child q acc gl tl mk rest : q ∈ L -> acc ++ q :: rest ≡ₚ all_refs L ->
  gc_scan_incref_child2 (state (rcf acc) mk gl tl) q = Some (state (rcf (acc ++ [q])) mk gl tl).
Proof using Hready.
  intros HqL Hbud. pose proof (rcf_budget q acc rest HqL Hbud). destruct (hdrs_obj (rcf acc) mk q HqL) as (o & Ho & Hh).
  unfold gc_scan_incref_child2. cbn [state heap]. rewrite Hh. cbn [mbind option_bind ref_count]. replace (rcf acc q <? INT32_MAX) with true by lia.
  unfold set_ref_count, set_heap. cbn [mark body state heap gc_obj_list gc_zero_ref_count_list tmp_obj_list gc_phase class_array ref_count].
  rewrite (hdrs_insert _ _ q o _ _ (rcf (acc ++ [q])) mk Ho); [done|rewrite rcf_snoc, bool_decide_eq_true_2 by done; done|done|].
  intros p Hp. rewrite rcf_snoc, bool_decide_eq_false_2 by congruence. cbn [Zb]. lia.
Qed.

Lemma restore_fold rem acc gl tl mk rest : (forall q, q ∈ rem -> q ∈ L) -> acc ++ rem ++ rest ≡ₚ all_refs L ->
  for_each gc_scan_incref_child2 rem (state (rcf acc) mk gl tl) = Some (state (rcf (acc ++ rem)) mk gl tl).
Proof using Hready.
  revert acc. induction rem as [|q rem IH]; intros acc Hq Hbud; cbn [for_each]; [by rewrite app_nil_r|].
  rewrite (restore_child q acc gl tl mk (rem ++ rest)) by (done || (apply Hq; by left)).
  cbn [mbind option_bind]. rewrite IH; [by rewrite <- app_assoc|intros p Hp; apply Hq; by right|by rewrite <- app_assoc].
Qed.

Lemma restore_loop fuel a t1 t2 mk : a ++ t1 ++ t2 ≡ₚ L -> (length t2 < fuel)%nat ->
  loop fuel gc_restore_body (state (rcf (all_refs (a ++ t1))) mk a (t1 ++ t2), head t2) = Some (state (rcf (all_refs L)) mk a (t1 ++ t2)).
Proof using Hready.
  revert t1 t2. induction fuel as [|fuel IH]; intros t1 t2 Hp Hf; [lia|]. cbn [loop]. destruct t2 as [|p t2]; cbn [head gc_restore_body].
  - rewrite !app_nil_r in *. unfold state. do 2 f_equal. apply hdrs_ext. intros q _. split; [|done]. unfold rcf. by rewrite (cnt_perm q _ _ (all_refs_perm _ _ Hp)).
  - assert (NoDup (a ++ t1 ++ p :: t2)) as Hnd by (rewrite Hp; apply Hready). assert (p ∈ L) as HpL by (rewrite <- Hp; set_solver).
    rewrite mark_children_state by done. rewrite (restore_fold (refs p) (all_refs (a ++ t1)) a (t1 ++ p :: t2) mk (all_refs t2)).
    + cbn [mbind option_bind state tmp_obj_list]. apply NoDup_app in Hnd as (_ & _ & Hnd). apply NoDup_app in Hnd as (_ & Hd & _).
      rewrite next_of_mid by (intros F; apply (Hd p F); by left). cbn [mbind option_bind].
      change (p :: t2) with ([p] ++ t2) in *. rewrite (app_assoc t1) in *. assert (all_refs (a ++ t1) ++ refs p = all_refs (a ++ t1 ++ [p])) as ->.
      { by rewrite (app_assoc a), all_refs_snoc. }
      fold (state (rcf (all_refs (a ++ t1 ++ [p]))) mk a ((t1 ++ [p]) ++ t2)). apply IH; [done|simpl in Hf; lia].
    + intros q Hq. by apply (ready_closed _ Hready p).
    + rewrite <- all_refs_cons, <- all_refs_app, <- app_assoc. by apply all_refs_perm.
Qed.

Lemma scan_start tl : tl ≡ₚ dead [] L -> scan_inv [] (live [] L) tl.
Proof using Hready.
  intros Ht. split.
  - rewrite Ht. unfold live, dead. clear Ht. induction L as [|p l IH]; [done|]. rewrite !filter_cons. destruct (decide (rcf [] p = 0)) as [E|E].
    + rewrite decide_False by tauto. rewrite <- Permutation_middle. by f_equiv.
    + rewrite decide_True by done. cbn [app]. by f_equiv.
  - intros p [Hn Hp]%list_elem_of_filter. pose proof (rcf_nonneg [] p Hp). lia.
  - intros p Hp. rewrite Ht in Hp. by apply list_elem_of_filter in Hp as [? _].
  - intros p [Hn Hp]%list_elem_of_filter. apply reach_root; [done|]. pose proof (rcf_nonneg [] p Hp). unfold rcf in *. change (cnt p []) with 0 in *. lia.
Qed.

Lemma scan_closed gl tl p : scan_inv (all_refs gl) gl tl -> (p ∈ gl <-> reachable rt0 p).
Proof using Hready.
  intros Hinv. split; [apply Hinv|]. induction 1 as [p Hp He|p q Hp IH Hq].
  - destruct (scan_in _ _ _ p Hinv Hp) as [?|F]; [done|]. apply (scan_dead _ _ _ Hinv) in F. unfold rcf in F. pose proof (cnt_nonneg p (all_refs gl)). lia.
  - assert (q ∈ L) as HqL by (apply (ready_closed _ Hready p); [eapply scan_L; [done|by left]|done]).
    destruct (scan_in _ _ _ q Hinv HqL) as [?|F]; [done|]. apply (scan_dead _ _ _ Hinv) in F. pose proof (ready_count _ Hready q HqL).
    apply list_elem_of_split in IH as (a & b & ->). unfold rcf in F. rewrite all_refs_app, all_refs_cons, !cnt_app in F. pose proof (cnt_pos q (refs p) Hq).
    pose proof (cnt_nonneg q (all_refs a)). pose proof (cnt_nonneg q (all_refs b)). lia.
Qed.

(** The whole search. *)
Lemma search_spec : exists mk gl tl, (gc_decref rt0 ≫= gc_scan) = Some (state (rcf (all_refs L)) mk gl tl) /\
  gl ++ tl ≡ₚ L /\ (forall p, p ∈ gl <-> reachable rt0 p) /\ (forall p, p ∈ gl -> mk p = 0).
Proof using Hready.
  destruct gc_decref_spec as (tl & -> & Ht). cbn [mbind option_bind]. unfold gc_scan. cbn [state heap gc_obj_list]. rewrite size_hdrs.
  fold (state (rcf []) (seen L) (live [] L) tl).
  destruct (gc_scan_loop (length L + 1) [] (live [] L) tl (seen L)) as (mk & gl & tl' & E & Hinv & Hmk); [by apply scan_start|set_solver|simpl; lia|].
  cbn [app] in E. change (all_refs []) with (@nil Z) in E. rewrite E. cbn [mbind option_bind state heap tmp_obj_list]. rewrite size_hdrs.
  exists mk, gl, tl'. split_and!; [|apply Hinv|intros p; by apply (scan_closed gl tl')|done].
  fold (state (rcf (all_refs gl)) mk gl tl'). pose proof (restore_loop (length L + 1) gl [] tl' mk) as Hr. rewrite app_nil_r in Hr. cbn [app] in Hr. apply Hr; [apply Hinv|].
  pose proof (scan_perm _ _ _ Hinv) as Hp. apply Permutation_length in Hp. rewrite length_app in Hp. lia.
Qed.
End search.
