(* ===== verification/JsFree.v ===== *)
(** * Freeing objects (quickjs.c)

    Dropping a reference decrements a count; what happens at zero depends on the
    kind of the object and on the phase of the collector.  The functions that
    free the fields of an object are modelled, like those that mark them, by the
    list of the references they drop, in order. *)

From stdpp Require Import gmap.
From S2P Require Import Prelude CArray JsHeap JsGc.
Open Scope Z_scope.

(** ** Dropping a reference *)

(** The calls that free a field. *)
Inductive fref : Set :=
  | F_value (v : JSValue) | F_async (s : Z) | F_var_ref (p : option Z) | F_shape (p : Z) | F_context (p : Z).

Section ops.
(** [free_zero_refcount], called by the outermost drop only. *)
Context (free_zero : JSRuntime -> option JSRuntime).

(** The common end of [__JS_FreeValueRT] and [async_func_free]. *)
Definition defer_free (p : Z) (rt : JSRuntime) : option JSRuntime :=
  match gc_phase rt with
  | JS_GC_PHASE_REMOVE_CYCLES => Some rt
  | ph =>
      let rt := list_del p rt in
      let rt := set_lists (gc_obj_list rt) (p :: gc_zero_ref_count_list rt) (tmp_obj_list rt) rt in
      match ph with JS_GC_PHASE_NONE => free_zero rt | _ => Some rt end
  end.

Definition JS_FreeValueRT (v : JSValue) (rt : JSRuntime) : option JSRuntime :=
  match v with
  | JS_TAG_OBJECT p | JS_TAG_FUNCTION_BYTECODE p =>
      o ← heap rt !! p;
      let n := ref_count o - 1 in
      let rt := set_heap (<[p := set_ref_count n o]> (heap rt)) rt in
      if n <=? 0 then defer_free p rt else Some rt
  | JS_TAG_OTHER => Some rt
  end.

Definition async_func_free (s : Z) (rt : JSRuntime) : option JSRuntime :=
  o ← heap rt !! s;
  let n := ref_count o - 1 in
  let rt := set_heap (<[s := set_ref_count n o]> (heap rt)) rt in
  if n =? 0 then defer_free s rt else Some rt.

Definition free_var_ref (var_ref : option Z) (rt : JSRuntime) : option JSRuntime :=
  match var_ref with
  | None => Some rt
  | Some p =>
      o ← heap rt !! p;
      if ref_count o >? 0 then
        let n := ref_count o - 1 in
        let rt := set_heap (<[p := set_ref_count n o]> (heap rt)) rt in
        if n =? 0 then
          rt ← (match body o with
                | B_VAR_REF true value _ => JS_FreeValueRT value rt
                | B_VAR_REF false _ async_func => match async_func with Some s => async_func_free s rt | None => Some rt end
                | _ => None
                end);
          js_free_rt p (list_del p rt)
        else Some rt
      else None
  end.

Definition js_free_shape0 (sh : Z) (rt : JSRuntime) : option JSRuntime :=
  o ← heap rt !! sh;
  if ref_count o =? 0 then
    rt ← (match body o with
          | B_SHAPE (Some proto) _ => JS_FreeValueRT (JS_TAG_OBJECT proto) rt
          | B_SHAPE None _ => Some rt
          | _ => None
          end);
    js_free_rt sh (list_del sh rt)
  else None.

Definition js_free_shape (sh : Z) (rt : JSRuntime) : option JSRuntime :=
  o ← heap rt !! sh;
  let n := ref_count o - 1 in
  let rt := set_heap (<[sh := set_ref_count n o]> (heap rt)) rt in
  if n <=? 0 then js_free_shape0 sh rt else Some rt.

(** The drops of everything but a context. *)
Definition drop0 (f : fref) (rt : JSRuntime) : option JSRuntime :=
  match f with
  | F_value v => JS_FreeValueRT v rt
  | F_async s => async_func_free s rt
  | F_var_ref p => free_var_ref p rt
  | F_shape p => js_free_shape p rt
  | F_context _ => None
  end.

Fixpoint drops (d : fref -> JSRuntime -> option JSRuntime) (l : list fref) (rt : JSRuntime) : option JSRuntime :=
  match l with [] => Some rt | f :: l => rt ← d f rt; drops d l rt end.

Definition js_free_module_def (m : JSModuleDef) : list fref :=
  (F_var_ref <$> m_local_exports m) ++
  (F_value <$> [m_module_ns m; m_func_obj m; m_eval_exception m; m_meta_obj m; m_promise m; (m_resolving_funcs m).1; (m_resolving_funcs m).2]).

Definition js_free_modules (ctx : JSContext) : list fref := concat (js_free_module_def <$> loaded_modules ctx).

Definition context_frees (ctx : JSContext) : list fref :=
  js_free_modules ctx ++
  (F_value <$> [global_obj ctx; global_var_obj ctx; throw_type_error ctx; eval_obj ctx; array_proto_values ctx]) ++
  (F_value <$> native_error_proto ctx) ++ (F_value <$> class_proto ctx) ++
  (F_value <$> [iterator_proto ctx; async_iterator_proto ctx; promise_ctor ctx; array_ctor ctx; regexp_ctor ctx; function_ctor ctx; function_proto ctx]) ++
  (F_shape <$> mark_opt (array_shape ctx)).

Definition JS_FreeContext (p : Z) (rt : JSRuntime) : option JSRuntime :=
  o ← heap rt !! p;
  let n := ref_count o - 1 in
  let rt := set_heap (<[p := set_ref_count n o]> (heap rt)) rt in
  if n >? 0 then Some rt
  else if n =? 0 then
    match body o with
    | B_JS_CONTEXT ctx => rt ← drops drop0 (context_frees ctx) rt; js_free_rt p (list_del p rt)
    | _ => None
    end
  else None.

Definition drop_ref (f : fref) (rt : JSRuntime) : option JSRuntime :=
  match f with F_context p => JS_FreeContext p rt | _ => drop0 f rt end.

(** ** Fields *)

Definition free_property (pr : JSProperty) (prop_flags : Z) : option (list fref) :=
  if negb (Z.land prop_flags JS_PROP_TMASK =? 0) then
    if Z.land prop_flags JS_PROP_TMASK =? JS_PROP_GETSET then
      match pr with
      | PR_getset getter setter => Some ((fun p => F_value (JS_TAG_OBJECT p)) <$> (mark_opt getter ++ mark_opt setter))
      | _ => None
      end
    else if Z.land prop_flags JS_PROP_TMASK =? JS_PROP_VARREF then
      match pr with PR_var_ref p => Some [F_var_ref (Some p)] | _ => None end
    else if Z.land prop_flags JS_PROP_TMASK =? JS_PROP_AUTOINIT then
      match pr with PR_init realm => Some [F_context realm] | _ => None end
    else Some []
  else match pr with PR_value v => Some [F_value v] | _ => None end.

Fixpoint free_properties (prs : list JSShapeProperty) (prop : list JSProperty) : option (list fref) :=
  match prs, prop with
  | [], _ => Some []
  | s :: prs, pr :: prop => a ← free_property pr (prs_flags s); b ← free_properties prs prop; Some (a ++ b)
  | _ :: _, [] => None
  end.

Definition js_array_finalizer (u : JSObject_u) : option (list fref) :=
  match u with U_array values => Some (F_value <$> values) | _ => None end.

Definition js_object_data_finalizer (u : JSObject_u) : option (list fref) :=
  match u with U_object_data v => Some [F_value v] | _ => None end.

Definition js_c_function_finalizer (u : JSObject_u) : option (list fref) :=
  match u with U_cfunc realm => Some (F_context <$> mark_opt realm) | _ => None end.

Definition js_bytecode_function_finalizer (h : gmap Z JSGCObjectHeader) (u : JSObject_u) : option (list fref) :=
  match u with
  | U_func function_bytecode var_refs home_object =>
      let home := (fun p => F_value (JS_TAG_OBJECT p)) <$> mark_opt home_object in
      match function_bytecode with
      | None => Some home
      | Some b =>
          refs ← (match var_refs with Some l => closure_refs h b l | None => Some [] end);
          Some (home ++ (F_var_ref <$> refs) ++ [F_value (JS_TAG_FUNCTION_BYTECODE b)])
      end
  | _ => None
  end.

Definition js_bound_function_finalizer (u : JSObject_u) : option (list fref) :=
  match u with U_bound_function func_obj this_val argv => Some (F_value <$> (func_obj :: this_val :: argv)) | _ => None end.

Definition js_c_function_data_finalizer (u : JSObject_u) : option (list fref) :=
  match u with U_c_function_data_record data => Some (F_value <$> data) | U_null => Some [] | _ => None end.

Definition js_for_in_iterator_finalizer (u : JSObject_u) : option (list fref) :=
  match u with U_for_in_iterator obj => Some [F_value obj] | _ => None end.

Definition free_generator_stack_rt (completed : bool) (func_state : option Z) : list fref :=
  if completed then [] else F_async <$> mark_opt func_state.

Definition js_generator_finalizer (u : JSObject_u) : option (list fref) :=
  match u with U_generator_data completed func_state => Some (free_generator_stack_rt completed func_state) | U_null => Some [] | _ => None end.

Definition js_proxy_finalizer (u : JSObject_u) : option (list fref) :=
  match u with U_proxy_data target handler => Some [F_value target; F_value handler] | U_null => Some [] | _ => None end.

Definition promise_reaction_data_free (rd : JSPromiseReactionData) : list fref := F_value <$> [rd_resolve rd; rd_reject rd; rd_handler rd].

Definition js_promise_finalizer (u : JSObject_u) : option (list fref) :=
  match u with
  | U_promise_data reactions result =>
      Some (concat (promise_reaction_data_free <$> reactions.1) ++ concat (promise_reaction_data_free <$> reactions.2) ++ [F_value result])
  | U_null => Some []
  | _ => None
  end.

Definition js_promise_resolve_function_finalizer (u : JSObject_u) : option (list fref) :=
  match u with U_promise_function_data promise => Some [F_value promise] | U_null => Some [] | _ => None end.

Definition js_async_function_resolve_finalizer (u : JSObject_u) : option (list fref) :=
  match u with U_async_function_data s => Some [F_async s] | U_null => Some [] | _ => None end.

Definition call_finalizer (h : gmap Z JSGCObjectHeader) (f : class_fn) (u : JSObject_u) : option (list fref) :=
  match f with
  | FN_array => js_array_finalizer u | FN_object_data => js_object_data_finalizer u | FN_c_function => js_c_function_finalizer u
  | FN_bytecode_function => js_bytecode_function_finalizer h u | FN_bound_function => js_bound_function_finalizer u
  | FN_c_function_data => js_c_function_data_finalizer u | FN_for_in_iterator => js_for_in_iterator_finalizer u
  | FN_generator => js_generator_finalizer u | FN_proxy => js_proxy_finalizer u | FN_promise => js_promise_finalizer u
  | FN_promise_resolve_function => js_promise_resolve_function_finalizer u
  | FN_async_function_resolve => js_async_function_resolve_finalizer u
  end.

(** ** Objects *)

(** The common end: unlink the object; while cycles are removed, an object that
    is still referred to is kept until the end. *)
Definition free_or_keep (p : Z) (rt : JSRuntime) : option JSRuntime :=
  let rt := list_del p rt in
  o ← heap rt !! p;
  match gc_phase rt with
  | JS_GC_PHASE_REMOVE_CYCLES =>
      if negb (ref_count o =? 0)
      then Some (set_lists (gc_obj_list rt) (gc_zero_ref_count_list rt ++ [p]) (tmp_obj_list rt) rt)
      else js_free_rt p rt
  | _ => js_free_rt p rt
  end.

Definition free_object (p : Z) (rt : JSRuntime) : option JSRuntime :=
  o ← heap rt !! p;
  match body o with
  | B_JS_OBJECT class_id (Some sh) prop u =>
      s ← heap rt !! sh;
      fields ← (match body s with B_SHAPE _ prs => free_properties prs prop | _ => None end);
      rt ← drops drop_ref fields rt;
      rt ← js_free_shape sh rt;
      rt ← alter_obj (fun o => Some (set_body (B_JS_OBJECT class_id None [] u) o)) p rt;
      c ← rd (class_array rt) class_id;
      data ← (match finalizer c with Some f => call_finalizer (heap rt) f u | None => Some [] end);
      rt ← drops drop_ref data rt;
      rt ← alter_obj (fun o => Some (set_body (B_JS_OBJECT 0 None [] U_null) o)) p rt;
      free_or_keep p rt
  | _ => None
  end.

Definition free_function_bytecode (p : Z) (rt : JSRuntime) : option JSRuntime :=
  o ← heap rt !! p;
  match body o with
  | B_FUNCTION_BYTECODE cpool realm _ => rt ← drops drop_ref ((F_value <$> cpool) ++ (F_context <$> mark_opt realm)) rt; free_or_keep p rt
  | _ => None
  end.

(** [sf->arg_buf] is tested; a function that runs must not be freed. *)
Definition async_func_free_frame (cur_func this_val : JSValue) (arg_buf : option (list JSValue)) (cur_sp : bool) : option (list fref) :=
  stack ← (match arg_buf with Some l => if cur_sp then Some (F_value <$> l) else None | None => Some [] end);
  Some (stack ++ [F_value cur_func; F_value this_val]).

Definition async_func_free_obj (p : Z) (rt : JSRuntime) : option JSRuntime :=
  o ← heap rt !! p;
  match body o with
  | B_ASYNC_FUNCTION is_completed cur_func this_val arg_buf cur_sp resolving_funcs =>
      frame ← (if is_completed then Some [] else async_func_free_frame cur_func this_val arg_buf cur_sp);
      rt ← drops drop_ref (frame ++ [F_value resolving_funcs.1; F_value resolving_funcs.2]) rt;
      rt ← alter_obj (fun o => Some (set_body (B_ASYNC_FUNCTION is_completed cur_func this_val
             (if is_completed then arg_buf else None) cur_sp resolving_funcs) o)) p rt;
      free_or_keep p rt
  | _ => None
  end.

Definition free_gc_object (p : Z) (rt : JSRuntime) : option JSRuntime :=
  o ← heap rt !! p;
  match gc_obj_type o with
  | JS_GC_OBJ_TYPE_JS_OBJECT => free_object p rt
  | JS_GC_OBJ_TYPE_FUNCTION_BYTECODE => free_function_bytecode p rt
  | JS_GC_OBJ_TYPE_ASYNC_FUNCTION => async_func_free_obj p rt
  | _ => None
  end.
End ops.

(** While this loop runs the phase is [JS_GC_PHASE_DECREF], and a nested drop
    does not start another one. *)
Definition free_zero_body (rt : JSRuntime) : option (JSRuntime + JSRuntime) :=
  match gc_zero_ref_count_list rt with
  | [] => Some (inr (set_phase JS_GC_PHASE_NONE rt))
  | p :: _ =>
      o ← heap rt !! p;
      if ref_count o =? 0 then rt ← free_gc_object (fun _ => None) p rt; Some (inl rt) else None
  end.

Definition free_zero_refcount (rt : JSRuntime) : option JSRuntime :=
  loop (size (heap rt) + 1) free_zero_body (set_phase JS_GC_PHASE_DECREF rt).

Definition freeable (t : JSGCObjectTypeEnum) : bool :=
  match t with JS_GC_OBJ_TYPE_JS_OBJECT | JS_GC_OBJ_TYPE_FUNCTION_BYTECODE | JS_GC_OBJ_TYPE_ASYNC_FUNCTION => true | _ => false end.

Definition gc_free_body (rt : JSRuntime) : option (JSRuntime + JSRuntime) :=
  match tmp_obj_list rt with
  | [] => Some (inr rt)
  | p :: _ =>
      o ← heap rt !! p;
      if freeable (gc_obj_type o) then rt ← free_gc_object free_zero_refcount p rt; Some (inl rt)
      else
        let rt := list_del p rt in
        Some (inl (set_lists (gc_obj_list rt) (gc_zero_ref_count_list rt ++ [p]) (tmp_obj_list rt) rt))
  end.

(** The objects kept until the end. *)
Definition free_kept (rt : JSRuntime) (p : Z) : option JSRuntime :=
  o ← heap rt !! p; if freeable (gc_obj_type o) then js_free_rt p rt else None.

Definition gc_free_cycles (rt : JSRuntime) : option JSRuntime :=
  let rt := set_phase JS_GC_PHASE_REMOVE_CYCLES rt in
  rt ← loop (size (heap rt) + 1) gc_free_body rt;
  let rt := set_phase JS_GC_PHASE_NONE rt in
  rt ← for_each free_kept (gc_zero_ref_count_list rt) rt;
  Some (set_lists (gc_obj_list rt) [] (tmp_obj_list rt) rt).

Definition JS_RunGC (rt : JSRuntime) : option JSRuntime :=
  rt ← gc_decref rt;
  rt ← gc_scan rt;
  gc_free_cycles rt.
