(* ===== verification/JsFreeSpec.v ===== *)
(** * The cycle collector frees exactly the unreachable objects

    While cycles are removed, the count of an object is the number of the
    references still held by objects not yet freed; nothing that is still
    referred to is freed, and in the end only the reachable objects are left. *)

From stdpp Require Import gmap.
From S2P Require Import Prelude CArray JsHeap JsGc JsGcSpec JsFree.
Open Scope Z_scope.

(** ** The references an object drops *)

Definition ptr_of (f : fref) : list Z :=
  match f with F_value v => JS_MarkValue v | F_async s => [s] | F_var_ref p => mark_opt p | F_shape p | F_context p => [p] end.

Definition targets (l : list fref) : list Z := concat (ptr_of <$> l).

Definition obj_frees (rt : JSRuntime) (class_id : Z) (sh : Z) (prop : list JSProperty) (u : JSObject_u) : option (list fref) :=
  s ← heap rt !! sh;
  fields ← (match body s with B_SHAPE _ prs => free_properties prs prop | _ => None end);
  c ← rd (class_array rt) class_id;
  data ← (match finalizer c with Some f => call_finalizer (heap rt) f u | None => Some [] end);
  Some (fields ++ F_shape sh :: data).

(** What freeing the object [p] drops, in order. *)
Definition frees (rt : JSRuntime) (p : Z) : option (list fref) :=
  o ← heap rt !! p;
  match body o with
  | B_JS_OBJECT class_id shape prop u => sh ← shape; obj_frees rt class_id sh prop u
  | B_FUNCTION_BYTECODE cpool realm _ => Some ((F_value <$> cpool) ++ (F_context <$> mark_opt realm))
  | B_VAR_REF is_detached value async_func => Some (if is_detached then [F_value value] else F_async <$> mark_opt async_func)
  | B_ASYNC_FUNCTION is_completed cur_func this_val arg_buf cur_sp resolving_funcs =>
      frame ← (if is_completed then Some [] else async_func_free_frame cur_func this_val arg_buf cur_sp);
      Some (frame ++ [F_value resolving_funcs.1; F_value resolving_funcs.2])
  | B_SHAPE proto _ => Some ((fun p => F_value (JS_TAG_OBJECT p)) <$> mark_opt proto)
  | B_JS_CONTEXT ctx => Some (context_frees ctx)
  end.

Definition has_type (rt : JSRuntime) (p : Z) (t : JSGCObjectTypeEnum) : Prop := exists o, heap rt !! p = Some o /\ gc_obj_type o = t.

(** A reference leads to an object of the type of its field. *)
Definition fref_ok (rt : JSRuntime) (f : fref) : Prop :=
  match f with
  | F_value (JS_TAG_OBJECT p) => has_type rt p JS_GC_OBJ_TYPE_JS_OBJECT
  | F_value (JS_TAG_FUNCTION_BYTECODE p) => has_type rt p JS_GC_OBJ_TYPE_FUNCTION_BYTECODE
  | F_value JS_TAG_OTHER => True
  | F_async s => has_type rt s JS_GC_OBJ_TYPE_ASYNC_FUNCTION
  | F_var_ref (Some p) => has_type rt p JS_GC_OBJ_TYPE_VAR_REF
  | F_var_ref None => True
  | F_shape p => has_type rt p JS_GC_OBJ_TYPE_SHAPE
  | F_context p => has_type rt p JS_GC_OBJ_TYPE_JS_CONTEXT
  end.

Definition frees_ok (rt : JSRuntime) (p : Z) : Prop :=
  exists l, frees rt p = Some l /\ Forall (fref_ok rt) l /\ targets l ≡ₚ refs rt p.

Lemma targets_app a b : targets (a ++ b) = targets a ++ targets b.
Proof. unfold targets. by rewrite fmap_app, concat_app. Qed.

Lemma targets_cons f l : targets (f :: l) = ptr_of f ++ targets l.
Proof. done. Qed.

Lemma lookup_delete_Some_iff (h : gmap Z JSGCObjectHeader) p q : is_Some (delete p h !! q) <-> q <> p /\ is_Some (h !! q).
Proof.
  destruct (decide (q = p)) as [-> |Hne]; [rewrite lookup_delete_eq|rewrite lookup_delete_ne by done].
  - split; [by intros [? ?]|by intros [? _]].
  - tauto.
Qed.

(** ** While cycles are removed *)

Section free.
Context (rt0 : JSRuntime) (Hready : gc_ready rt0) (mk : Z -> Z) (gl : list Z).
Context (Hgl : forall p, p ∈ gl <-> reachable rt0 p) (HglL : forall p, p ∈ gl -> p ∈ gc_obj_list rt0).

Notation L := (gc_obj_list rt0).
Notation refs := (refs rt0).
Notation all_refs := (all_refs rt0).
Notation ext := (external rt0).

Definition passive (p : Z) : Prop := exists o, heap rt0 !! p = Some o /\ freeable (gc_obj_type o) = false.

(** The objects of [H] hold their references, those of [C] are being freed and
    still have to drop the references [R]; an object of [E] may have lost its
    last reference. *)
Record finv (E : list Z) (rt : JSRuntime) (H C R : list Z) : Prop := {
  fi_phase : gc_phase rt = JS_GC_PHASE_REMOVE_CYCLES;
  fi_class : class_array rt = class_array rt0;
  fi_gl : gc_obj_list rt = gl;
  fi_nodup : NoDup H;
  fi_live p : p ∈ gl -> p ∈ H;
  fi_body p : p ∈ H -> exists o o0, heap rt !! p = Some o /\ heap rt0 !! p = Some o0 /\ body o = body o0;
  fi_type p o : heap rt !! p = Some o -> exists o0, heap rt0 !! p = Some o0 /\ gc_obj_type o = gc_obj_type o0 /\ mark o = mk p /\
    (gc_obj_type o = JS_GC_OBJ_TYPE_FUNCTION_BYTECODE -> body o = body o0);
  fi_rc p o : heap rt !! p = Some o -> ref_count o = ext p + cnt p (all_refs H ++ R);
  fi_safe q : q ∈ all_refs H ++ R -> is_Some (heap rt !! q);
  fi_lists : NoDup (tmp_obj_list rt ++ gc_zero_ref_count_list rt);
  fi_listed p : p ∈ tmp_obj_list rt ++ gc_zero_ref_count_list rt <-> p ∉ gl /\ is_Some (heap rt !! p);
  fi_tmp p : p ∈ tmp_obj_list rt -> p ∈ H \/ p ∈ C;
  fi_zero p : p ∈ gc_zero_ref_count_list rt -> p ∈ H -> passive p;
  fi_kept p : is_Some (heap rt !! p) -> p ∉ H -> p ∉ C -> ~ passive p;
  fi_passive p : p ∈ H -> p ∉ gl -> p ∉ E -> passive p -> 0 < cnt p (all_refs H ++ R);
  fi_cur p : p ∈ C -> p ∉ H /\ p ∉ gl /\ is_Some (heap rt !! p) /\ (passive p -> cnt p (all_refs H ++ R) = 0) }.

Lemma ext_nonneg p : is_Some (heap rt0 !! p) -> 0 <= ext p.
Proof using Hready. intros Hp. apply (ready_count _ Hready). by apply Hready. Qed.

Lemma live_counted E rt H C R p : finv E rt H C R -> p ∈ gl -> 0 < ext p + cnt p (all_refs H ++ R).
Proof using All.
  intros Hi Hp. apply Hgl in Hp. destruct Hp as [p Hp He|q p Hq Hp].
  - pose proof (cnt_nonneg p (all_refs H ++ R)). lia.
  - assert (q ∈ H) as HqH by (apply (fi_live _ _ _ _ _ Hi), Hgl, Hq). apply list_elem_of_split in HqH as (a & b & ->).
    rewrite (all_refs_app rt0), (all_refs_cons rt0), !cnt_app. pose proof (cnt_pos p (refs q) Hp).
    pose proof (cnt_nonneg p (all_refs a)). pose proof (cnt_nonneg p (all_refs b)). pose proof (cnt_nonneg p R).
    assert (0 <= ext p); [|lia]. apply (ready_count _ Hready). apply HglL, Hgl. by eapply reach_step.
Qed.

Lemma finv_perm E rt H C R R' : R ≡ₚ R' -> finv E rt H C R -> finv E rt H C R'.
Proof using .
  intros Hp Hi. assert (forall p, cnt p (all_refs H ++ R') = cnt p (all_refs H ++ R)) as Hc by (intros p; rewrite !cnt_app; by rewrite (cnt_perm p _ _ Hp)).
  destruct Hi. split; try done.
  - intros p o Ho. rewrite Hc. eauto.
  - intros q Hq. apply fi_safe0. rewrite elem_of_app in *. by rewrite Hp.
  - intros p ? ? ? ?. rewrite Hc. eauto.
  - intros p Hpc. rewrite Hc. eauto.
Qed.

(** Dropping one reference. *)
Lemma dec_ref rt H C R p o : finv [] rt H C (p :: R) -> heap rt !! p = Some o ->
  finv [p] (set_heap (<[p := set_ref_count (ref_count o - 1) o]> (heap rt)) rt) H C R.
Proof using .
  intros Hi Ho. assert (forall q, cnt q (all_refs H ++ p :: R) = Zb (bool_decide (p = q)) + cnt q (all_refs H ++ R)) as Hc by (intros q; rewrite !cnt_app, cnt_cons; lia).
  assert (forall q, is_Some (<[p := set_ref_count (ref_count o - 1) o]> (heap rt) !! q) <-> is_Some (heap rt !! q)) as Hd.
  { intros q. destruct (decide (q = p)) as [-> |]; [rewrite lookup_insert_eq, Ho|rewrite lookup_insert_ne by done]; split; eauto. }
  destruct Hi. split; cbn [set_heap gc_phase class_array gc_obj_list heap tmp_obj_list gc_zero_ref_count_list]; try done.
  - intros q Hq. destruct (fi_body0 q Hq) as (oq & o0 & H1 & H2 & H3). destruct (decide (q = p)) as [-> |]; [|rewrite lookup_insert_ne by done; eauto].
    rewrite lookup_insert_eq. rewrite Ho in H1. injection H1 as <-. by exists (set_ref_count (ref_count o - 1) o), o0.
  - intros q oq Hq. destruct (decide (q = p)) as [-> |]; [|rewrite lookup_insert_ne in Hq by done; eauto]. rewrite lookup_insert_eq in Hq. injection Hq as <-. exact (fi_type0 p o Ho).
  - intros q oq Hq. destruct (decide (q = p)) as [-> |Hne].
    + rewrite lookup_insert_eq in Hq. injection Hq as <-. cbn [ref_count set_ref_count]. rewrite (fi_rc0 p o Ho), Hc, bool_decide_eq_true_2 by done. cbn [Zb]. lia.
    + rewrite lookup_insert_ne in Hq by done. rewrite (fi_rc0 q oq Hq), Hc, bool_decide_eq_false_2 by congruence. cbn [Zb]. lia.
  - intros q Hq. apply Hd, fi_safe0. rewrite elem_of_app in *. rewrite elem_of_cons. tauto.
  - intros q. rewrite Hd. done.
  - intros q Hq. apply fi_kept0. by apply Hd.
  - intros q H1 H2 H3 H4. assert (q <> p) by (intros ->; apply H3; by left). specialize (fi_passive0 q H1 H2 (not_elem_of_nil q) H4). rewrite Hc, bool_decide_eq_false_2 in fi_passive0 by congruence. cbn [Zb] in fi_passive0. lia.
  - intros q Hq. destruct (fi_cur0 q Hq) as (H1 & H2 & H3 & H4). split_and!; [done|done|by apply Hd|]. intros Hpas. specialize (H4 Hpas). rewrite Hc in H4. pose proof (cnt_nonneg q (all_refs H ++ R)). destruct (bool_decide _); cbn [Zb] in H4; lia.
Qed.

Lemma finv_keep rt H C R p : finv [p] rt H C R -> (p ∈ H -> p ∉ gl -> passive p -> 0 < cnt p (all_refs H ++ R)) -> finv [] rt H C R.
Proof using .
  intros Hi Hk. destruct Hi. split; try done. intros q H1 H2 _ H3. destruct (decide (q = p)) as [-> |Hne]; [auto|]. apply fi_passive0; try done.
  intros F. by apply list_elem_of_singleton in F.
Qed.

(** An object without references from others starts to drop its own. *)
Lemma begin_free rt E H C R p : finv E rt H C R -> (forall q, q ∈ E -> q = p) -> p ∈ H -> p ∉ gl -> (passive p -> cnt p (all_refs H ++ R) = 0) ->
  finv [] rt (drop_link p H) (p :: C) (refs p ++ R).
Proof using .
  intros Hi HE HpH Hpg Hz.
  assert (forall q, cnt q (all_refs (drop_link p H) ++ refs p ++ R) = cnt q (all_refs H ++ R)) as Hc.
  { intros q. rewrite !cnt_app. pose proof (all_refs_perm rt0 _ _ (drop_link_perm p H (fi_nodup _ _ _ _ _ Hi) HpH)) as Hp. apply (cnt_perm q) in Hp.
    rewrite (all_refs_cons rt0), cnt_app in Hp. lia. }
  assert (forall q, q ∈ all_refs (drop_link p H) ++ refs p ++ R -> q ∈ all_refs H ++ R) as Hin by (intros q Hq; apply cnt_elem; rewrite <- Hc; by apply cnt_pos).
  destruct Hi. split; try done.
  - by apply NoDup_filter.
  - intros q Hq. apply drop_link_elem. split; [by intros ->|auto].
  - intros q [_ Hq]%drop_link_elem. auto.
  - intros q o Ho. rewrite Hc. eauto.
  - intros q Hq. apply fi_safe0. by apply Hin.
  - intros q Hq. rewrite drop_link_elem, elem_of_cons. destruct (decide (q = p)); [tauto|]. destruct (fi_tmp0 q Hq); tauto.
  - intros q Hq [_ Hq2]%drop_link_elem. auto.
  - intros q Hs H1 H2. rewrite drop_link_elem in H1. rewrite elem_of_cons in H2. apply fi_kept0; tauto.
  - intros q [Hne Hq]%drop_link_elem H2 H3 H4. rewrite Hc. apply fi_passive0; try done. intros F. by apply Hne, HE.
  - intros q Hq. rewrite Hc, drop_link_elem. apply elem_of_cons in Hq as [-> |Hq].
    + split_and!; [tauto|done| |done]. destruct (fi_body0 p HpH) as (o & _ & Ho & _). eauto.
    + destruct (fi_cur0 q Hq) as (H1 & H2 & H3 & H4). split_and!; try done. tauto.
Qed.

(** An object that dropped its references and is referred to no more leaves the
    heap. *)
Lemma end_free rt H C R p : finv [] rt H (p :: C) R -> p ∉ C -> cnt p (all_refs H ++ R) = 0 ->
  exists rt', js_free_rt p (list_del p rt) = Some rt' /\ finv [] rt' H C R /\ (forall q, q ∈ tmp_obj_list rt' -> q ∈ tmp_obj_list rt).
Proof using .
  intros Hi HpC Hz. destruct (fi_cur _ _ _ _ _ Hi p ltac:(by left)) as (HpH & Hpg & [o Ho] & _).
  unfold js_free_rt. cbn [list_del set_lists heap]. rewrite Ho. cbn [mbind option_bind]. eexists. split; [done|]. split; [|cbn; intros q [_ ?]%drop_link_elem; done].
  destruct Hi. split; cbn [set_heap list_del set_lists gc_phase class_array gc_obj_list heap tmp_obj_list gc_zero_ref_count_list]; try done.
  - rewrite fi_gl0. by apply drop_link_id.
  - intros q Hq. assert (q <> p) by (by intros ->). rewrite lookup_delete_ne by done. auto.
  - intros q oq [_ Hq]%lookup_delete_Some. eauto.
  - intros q oq [_ Hq]%lookup_delete_Some. eauto.
  - intros q Hq. apply lookup_delete_Some_iff. split; [|auto]. intros ->. pose proof (cnt_pos p _ Hq). lia.
  - rewrite <- drop_link_app. by apply NoDup_filter.
  - intros q. rewrite <- drop_link_app, drop_link_elem, lookup_delete_Some_iff, fi_listed0. tauto.
  - intros q [Hne Hq]%drop_link_elem. destruct (fi_tmp0 q Hq) as [?|F]; [by left|right]. by apply elem_of_cons in F as [-> |].
  - intros q [_ Hq]%drop_link_elem. auto.
  - intros q [Hne Hs]%lookup_delete_Some_iff H1 H2. apply fi_kept0; [done|done|]. rewrite elem_of_cons. tauto.
  - intros q Hq. destruct (fi_cur0 q ltac:(by right)) as (H1 & H2 & H3 & H4). split_and!; try done. apply lookup_delete_Some_iff. split; [by intros ->|done].
Qed.

(** The result of dropping references. *)
Definition dropped (rt : JSRuntime) (H C R : list Z) (x : option JSRuntime) : Prop :=
  exists rt' H', x = Some rt' /\ finv [] rt' H' C R /\ (forall p, p ∈ H' -> p ∈ H) /\ (forall p, p ∈ H -> ~ passive p -> p ∈ H') /\
    (forall p, p ∈ tmp_obj_list rt' -> p ∈ tmp_obj_list rt).

Lemma dropped_here rt H C R : finv [] rt H C R -> dropped rt H C R (Some rt).
Proof using . intros Hi. exists rt, H. by split_and!. Qed.

Lemma has_type_not_passive p t : has_type rt0 p t -> freeable t = true -> ~ passive p.
Proof using . intros (o & Ho & <-) Ht (o' & Ho' & Hf). rewrite Ho in Ho'. injection Ho' as <-. congruence. Qed.

Lemma has_type_passive p t : has_type rt0 p t -> freeable t = false -> passive p.
Proof using . intros (o & Ho & <-) Ht. by exists o. Qed.

Lemma finv_obj E rt H C R p : finv E rt H C (p :: R) -> exists o, heap rt !! p = Some o.
Proof using . intros Hi. destruct (fi_safe _ _ _ _ _ Hi p ltac:(rewrite elem_of_app, elem_of_cons; tauto)) as [o Ho]. eauto. Qed.

Lemma cur_obj E rt H C R p : finv E rt H (p :: C) R -> exists o, heap rt !! p = Some o.
Proof using . intros Hi. destruct (fi_cur _ _ _ _ _ Hi p ltac:(by left)) as (_ & _ & [o Ho] & _). eauto. Qed.

(** Writing the fields of the object that is being freed. *)
Lemma alter_cur rt H C R p o b : finv [] rt H (p :: C) R -> heap rt !! p = Some o -> gc_obj_type (set_body b o) = gc_obj_type o ->
  gc_obj_type o <> JS_GC_OBJ_TYPE_FUNCTION_BYTECODE ->
  exists rt', alter_obj (fun o => Some (set_body b o)) p rt = Some rt' /\ finv [] rt' H (p :: C) R /\ tmp_obj_list rt' = tmp_obj_list rt.
Proof using .
  intros Hi Ho Hb Hnb. unfold alter_obj. rewrite Ho. cbn [mbind option_bind]. eexists. split; [done|]. split; [|done].
  destruct (fi_cur _ _ _ _ _ Hi p ltac:(by left)) as (HpH & _ & _ & _).
  assert (forall q, is_Some (<[p := set_body b o]> (heap rt) !! q) <-> is_Some (heap rt !! q)) as Hd.
  { intros q. destruct (decide (q = p)) as [-> |]; [rewrite lookup_insert_eq, Ho|rewrite lookup_insert_ne by done]; split; eauto. }
  destruct Hi. split; cbn [set_heap gc_phase class_array gc_obj_list heap tmp_obj_list gc_zero_ref_count_list]; try done.
  - intros q Hq. rewrite lookup_insert_ne by (by intros ->). auto.
  - intros q oq Hq. destruct (decide (q = p)) as [-> |]; [|rewrite lookup_insert_ne in Hq by done; eauto]. rewrite lookup_insert_eq in Hq. injection Hq as <-.
    destruct (fi_type0 p o Ho) as (o0 & H1 & H2 & H3 & H4). exists o0. split_and!; [done|congruence|done|congruence].
  - intros q oq Hq. destruct (decide (q = p)) as [-> |]; [|rewrite lookup_insert_ne in Hq by done; eauto]. rewrite lookup_insert_eq in Hq. injection Hq as <-. exact (fi_rc0 p o Ho).
  - intros q Hq. apply Hd. auto.
  - intros q. rewrite Hd. done.
  - intros q Hq. apply fi_kept0. by apply Hd.
  - intros q Hq. rewrite Hd. auto.
Qed.

(** Moving an object to the end of the list of the kept objects. *)
Lemma move_kept rt H C R p : finv [] rt H (p :: C) R -> ~ passive p -> p ∉ C ->
  finv [] (set_lists (gc_obj_list (list_del p rt)) (gc_zero_ref_count_list (list_del p rt) ++ [p]) (tmp_obj_list (list_del p rt)) (list_del p rt)) H C R.
Proof using .
  intros Hi Hnp HpC. destruct (fi_cur _ _ _ _ _ Hi p ltac:(by left)) as (HpH & Hpg & Hs & _).
  assert (forall q, q ∈ drop_link p (gc_zero_ref_count_list rt) ++ [p] -> q = p \/ q ∈ gc_zero_ref_count_list rt) as Hz.
  { intros q [[_ Hq]%drop_link_elem|Hq]%elem_of_app; [by right|left]. by apply list_elem_of_singleton in Hq. }
  destruct Hi. split; cbn [set_lists list_del gc_phase class_array gc_obj_list heap tmp_obj_list gc_zero_ref_count_list]; try done.
  - rewrite fi_gl0. by apply drop_link_id.
  - rewrite app_assoc, <- drop_link_app, Permutation_app_comm. cbn [app]. apply NoDup_cons. split; [rewrite drop_link_elem; tauto|by apply NoDup_filter].
  - intros q. rewrite app_assoc, <- drop_link_app, elem_of_app, drop_link_elem, fi_listed0, list_elem_of_singleton. destruct (decide (q = p)) as [-> |]; tauto.
  - intros q [Hne Hq]%drop_link_elem. destruct (fi_tmp0 q Hq) as [?|F]; [by left|right]. by apply elem_of_cons in F as [-> |].
  - intros q [-> |Hq]%Hz HqH; [done|auto].
  - intros q Hq H1 H2. destruct (decide (q = p)) as [-> |]; [done|]. apply fi_kept0; [done|done|]. rewrite elem_of_cons. tauto.
  - intros q Hq. apply fi_cur0. by right.
Qed.

(** A passive object is not freed by the main loop. *)
Lemma move_passive rt H R p : finv [] rt H [] R -> passive p -> p ∈ tmp_obj_list rt ->
  finv [] (set_lists (gc_obj_list (list_del p rt)) (gc_zero_ref_count_list (list_del p rt) ++ [p]) (tmp_obj_list (list_del p rt)) (list_del p rt)) H [] R.
Proof using .
  intros Hi Hp Ht. assert (p ∉ gl /\ is_Some (heap rt !! p)) as [Hpg Hs] by (apply (fi_listed _ _ _ _ _ Hi), elem_of_app; by left).
  destruct Hi. split; cbn [set_lists list_del gc_phase class_array gc_obj_list heap tmp_obj_list gc_zero_ref_count_list]; try done.
  - rewrite fi_gl0. by apply drop_link_id.
  - rewrite app_assoc, <- drop_link_app, Permutation_app_comm. cbn [app]. apply NoDup_cons. split; [rewrite drop_link_elem; tauto|by apply NoDup_filter].
  - intros q. rewrite app_assoc, <- drop_link_app, elem_of_app, drop_link_elem, fi_listed0, list_elem_of_singleton. destruct (decide (q = p)) as [-> |]; tauto.
  - intros q [_ Hq]%drop_link_elem. auto.
  - intros q [[_ Hq]%drop_link_elem|Hq]%elem_of_app HqH; [auto|]. by apply list_elem_of_singleton in Hq as ->.
Qed.

Context (free_zero : JSRuntime -> option JSRuntime).

Lemma defer_free_id p rt : gc_phase rt = JS_GC_PHASE_REMOVE_CYCLES -> defer_free free_zero p rt = Some rt.
Proof using . intros H. unfold defer_free. by rewrite H. Qed.

(** A reference to an object that is freed by the main loop. *)
Lemma drop_active rt H C R p o : finv [] rt H C (p :: R) -> ~ passive p -> heap rt !! p = Some o ->
  dropped rt H C R (Some (set_heap (<[p := set_ref_count (ref_count o - 1) o]> (heap rt)) rt)).
Proof using .
  intros Hi Hp Ho. eexists _, H. split; [done|]. split_and!; try done. eapply finv_keep; [by eapply dec_ref|]. done.
Qed.

Lemma drop_value_spec v rt H C R : fref_ok rt0 (F_value v) -> finv [] rt H C (JS_MarkValue v ++ R) -> dropped rt H C R (JS_FreeValueRT free_zero v rt).
Proof using .
  intros Hv Hi. destruct v as [p|p|]; cbn [JS_MarkValue app JS_FreeValueRT] in *; [| |by apply dropped_here].
  all: destruct (finv_obj _ _ _ _ _ _ Hi) as [o Ho]; rewrite Ho; cbn [mbind option_bind].
  all: assert (~ passive p) as Hp by (by eapply has_type_not_passive).
  all: destruct (drop_active rt H C R p o Hi Hp Ho) as (rt' & H' & E & Hi' & Hrest); injection E as <-.
  all: rewrite (defer_free_id p) by (apply (fi_phase _ _ _ _ _ Hi')); destruct (_ <=? _); eexists _, _; eauto.
Qed.

Lemma drop_async_spec s rt H C R : fref_ok rt0 (F_async s) -> finv [] rt H C (s :: R) -> dropped rt H C R (async_func_free free_zero s rt).
Proof using .
  intros Hv Hi. unfold async_func_free. destruct (finv_obj _ _ _ _ _ _ Hi) as [o Ho]; rewrite Ho; cbn [mbind option_bind].
  assert (~ passive s) as Hp by (by eapply has_type_not_passive).
  destruct (drop_active rt H C R s o Hi Hp Ho) as (rt' & H' & E & Hi' & Hrest); injection E as <-.
  rewrite (defer_free_id s) by (apply (fi_phase _ _ _ _ _ Hi')); destruct (_ =? _); eexists _, _; eauto.
Qed.

Context (Hfrees : forall p, p ∈ L -> p ∉ gl -> frees_ok rt0 p).

Lemma garbage_ext p : p ∈ L -> p ∉ gl -> ext p = 0.
Proof using Hready Hgl. intros HpL Hp. pose proof (ready_count _ Hready p HpL). destruct (decide (0 < ext p)); [|lia]. exfalso. apply Hp, Hgl. by apply reach_root. Qed.

Lemma passive_L p : passive p -> p ∈ L.
Proof using Hready. intros (o & Ho & _). apply Hready. eauto. Qed.

(** A reference to an object that is freed with its last reference. *)
Lemma drop_passive rt H C R p o : finv [] rt H C (p :: R) -> passive p -> heap rt !! p = Some o ->
  let rt1 := set_heap (<[p := set_ref_count (ref_count o - 1) o]> (heap rt)) rt in
  (0 < ref_count o - 1 /\ finv [] rt1 H C R) \/
  (ref_count o - 1 = 0 /\ p ∈ H /\ p ∉ gl /\ p ∉ C /\ finv [] rt1 (drop_link p H) (p :: C) (refs p ++ R)).
Proof using Hready Hgl HglL.
  intros Hi Hp Ho rt1. pose proof (dec_ref rt H C R p o Hi Ho) as Hd. fold rt1 in Hd.
  assert (ref_count o - 1 = ext p + cnt p (all_refs H ++ R)) as Hn.
  { rewrite (fi_rc _ _ _ _ _ Hi p o Ho), !cnt_app, cnt_cons, bool_decide_eq_true_2 by done. cbn [Zb]. lia. }
  assert (p ∈ L) as HpL by (by apply passive_L). pose proof (ready_count _ Hready p HpL). pose proof (cnt_nonneg p (all_refs H ++ R)).
  assert (p ∉ C) as HpC. { intros F. destruct (fi_cur _ _ _ _ _ Hi p F) as (_ & _ & _ & Hz). specialize (Hz Hp). rewrite !cnt_app, cnt_cons, bool_decide_eq_true_2 in Hz by done. cbn [Zb] in Hz.
    pose proof (cnt_nonneg p (all_refs H)). pose proof (cnt_nonneg p R). lia. }
  destruct (decide (0 < ref_count o - 1)) as [Hpos|Hz].
  - left. split; [done|]. eapply finv_keep; [exact Hd|]. intros HpH Hpg _. rewrite (garbage_ext p HpL Hpg) in Hn. lia.
  - right. assert (p ∉ gl) as Hpg by (intros F; pose proof (live_counted _ _ _ _ _ p Hd F); lia).
    assert (p ∈ H) as HpH. { destruct (decide (p ∈ H)); [done|]. exfalso. by apply (fi_kept _ _ _ _ _ Hi p). }
    split_and!; try done; [lia|]. eapply begin_free; [exact Hd|intros q Hq; by apply list_elem_of_singleton in Hq|done|done|]. intros _. rewrite (garbage_ext p HpL Hpg) in Hn. lia.
Qed.

Lemma drops_spec d l rt H C R :
  (forall f rt H C R, f ∈ l -> fref_ok rt0 f -> finv [] rt H C (ptr_of f ++ R) -> dropped rt H C R (d f rt)) ->
  Forall (fref_ok rt0) l -> finv [] rt H C (targets l ++ R) -> dropped rt H C R (drops d l rt).
Proof using .
  revert rt H. induction l as [|f l IH]; intros rt H Hd Hok Hi; cbn [drops]; [by apply dropped_here|]. apply Forall_cons in Hok as [Hf Hok].
  rewrite targets_cons, <- app_assoc in Hi. destruct (Hd f rt H C (targets l ++ R) ltac:(by left) Hf Hi) as (rt1 & H1 & -> & Hi1 & Hs1 & Hp1 & Ht1). cbn [mbind option_bind].
  destruct (IH rt1 H1) as (rt2 & H2 & -> & Hi2 & Hs2 & Hp2 & Ht2); [intros; apply Hd; [by right|done|done]|done|done|].
  exists rt2, H2. split_and!; eauto.
Qed.

(** The end of an object freed with its last reference. *)
Lemma dropped_end rt rt1 H C R p x : passive p -> p ∈ H -> p ∉ C -> tmp_obj_list rt1 = tmp_obj_list rt -> dropped rt1 (drop_link p H) (p :: C) R x ->
  dropped rt H C R (rt ← x; js_free_rt p (list_del p rt)).
Proof using .
  intros Hp HpH HpC Ht (rt2 & H2 & -> & Hi2 & Hs2 & Hp2 & Ht2). cbn [mbind option_bind]. destruct (fi_cur _ _ _ _ _ Hi2 p ltac:(by left)) as (_ & _ & _ & Hz).
  destruct (end_free rt2 H2 C R p Hi2 HpC (Hz Hp)) as (rt3 & -> & Hi3 & Ht3). exists rt3, H2. split_and!; try done.
  - intros q Hq. apply Hs2, drop_link_elem in Hq as [_ Hq]. done.
  - intros q Hq Hnp. apply Hp2; [|done]. apply drop_link_elem. split; [by intros ->|done].
  - intros q Hq. rewrite <- Ht. auto.
Qed.

Lemma passive_body rt H C R p o : finv [] rt H C R -> p ∈ H -> heap rt !! p = Some o -> exists o0, heap rt0 !! p = Some o0 /\ body o = body o0.
Proof using . intros Hi Hp Ho. destruct (fi_body _ _ _ _ _ Hi p Hp) as (o' & o0 & H1 & H2 & H3). rewrite Ho in H1. injection H1 as <-. eauto. Qed.

Lemma frees_finv rt H C R p l : frees rt0 p = Some l -> p ∈ L -> p ∉ gl -> finv [] rt H C (refs p ++ R) -> Forall (fref_ok rt0) l /\ finv [] rt H C (targets l ++ R).
Proof using Hfrees.
  intros Hl HpL Hpg Hi. destruct (Hfrees p HpL Hpg) as (l' & E & Hok & Hperm). rewrite Hl in E. injection E as <-. split; [done|]. eapply finv_perm; [|exact Hi]. by rewrite Hperm.
Qed.

Lemma drop_var_ref_spec p rt H C R : fref_ok rt0 (F_var_ref p) -> finv [] rt H C (mark_opt p ++ R) -> dropped rt H C R (free_var_ref free_zero p rt).
Proof using All.
  intros Hv Hi. destruct p as [p|]; cbn [mark_opt app free_var_ref] in *; [|by apply dropped_here].
  destruct (finv_obj _ _ _ _ _ _ Hi) as [o Ho]. rewrite Ho. cbn [mbind option_bind]. assert (passive p) as Hp by (by eapply has_type_passive).
  destruct (drop_passive rt H C R p o Hi Hp Ho) as [(Hn & Hi1)|(Hn & HpH & Hpg & HpC & Hi1)].
  - replace (ref_count o >? 0) with true by lia. replace (ref_count o - 1 =? 0) with false by lia. eexists _, H. by split_and!.
  - replace (ref_count o >? 0) with true by lia. replace (ref_count o - 1 =? 0) with true by lia.
    destruct (passive_body _ _ _ _ _ _ Hi HpH Ho) as (o0 & Ho0 & Hb). destruct Hv as (o0' & E & Ht). rewrite Ho0 in E. injection E as <-.
    apply (dropped_end rt (set_heap (<[p := set_ref_count (ref_count o - 1) o]> (heap rt)) rt)); [done|done|done|reflexivity|].
    assert (exists l, frees rt0 p = Some l) as [l Hl] by (destruct (Hfrees p (passive_L p Hp) Hpg) as (l & ? & _); eauto).
    destruct (frees_finv _ _ _ _ _ _ Hl (passive_L p Hp) Hpg Hi1) as [Hok Hi2]. unfold frees in Hl. rewrite Ho0 in Hl. cbn [mbind option_bind] in Hl. rewrite Hb.
    unfold gc_obj_type in Ht. destruct (body o0) as [| | |[] value async_func| |]; try discriminate Ht; injection Hl as <-.
    + apply Forall_cons in Hok as [Hok _]. apply drop_value_spec; [done|]. unfold targets in Hi2. cbn in Hi2. by rewrite app_nil_r in Hi2.
    + destruct async_func as [s|]; cbn [mark_opt fmap list_fmap] in *; [|by apply dropped_here]. apply Forall_cons in Hok as [Hok _]. by apply drop_async_spec.
Qed.

Lemma drop_shape_spec p rt H C R : fref_ok rt0 (F_shape p) -> finv [] rt H C (p :: R) -> dropped rt H C R (js_free_shape free_zero p rt).
Proof using All.
  intros Hv Hi. unfold js_free_shape. destruct (finv_obj _ _ _ _ _ _ Hi) as [o Ho]. rewrite Ho. cbn [mbind option_bind]. assert (passive p) as Hp by (by eapply has_type_passive).
  destruct (drop_passive rt H C R p o Hi Hp Ho) as [(Hn & Hi1)|(Hn & HpH & Hpg & HpC & Hi1)].
  - replace (ref_count o - 1 <=? 0) with false by lia. eexists _, H. by split_and!.
  - replace (ref_count o - 1 <=? 0) with true by lia. unfold js_free_shape0. cbn [set_heap heap]. rewrite lookup_insert_eq. cbn [mbind option_bind set_ref_count ref_count body].
    replace (ref_count o - 1 =? 0) with true by lia.
    destruct (passive_body _ _ _ _ _ _ Hi HpH Ho) as (o0 & Ho0 & Hb). destruct Hv as (o0' & E & Ht). rewrite Ho0 in E. injection E as <-.
    apply (dropped_end rt (set_heap (<[p := set_ref_count (ref_count o - 1) o]> (heap rt)) rt)); [done|done|done|reflexivity|].
    assert (exists l, frees rt0 p = Some l) as [l Hl] by (destruct (Hfrees p (passive_L p Hp) Hpg) as (l & ? & _); eauto).
    destruct (frees_finv _ _ _ _ _ _ Hl (passive_L p Hp) Hpg Hi1) as [Hok Hi2]. unfold frees in Hl. rewrite Ho0 in Hl. cbn [mbind option_bind] in Hl. rewrite Hb.
    unfold gc_obj_type in Ht. destruct (body o0) as [| |[proto|] prs| | |]; try discriminate Ht; injection Hl as <-.
    + apply Forall_cons in Hok as [Hok _]. by apply drop_value_spec.
    + by apply dropped_here.
Qed.

Lemma drop0_spec f rt H C R : (forall p, f <> F_context p) -> fref_ok rt0 f -> finv [] rt H C (ptr_of f ++ R) -> dropped rt H C R (drop0 free_zero f rt).
Proof using All.
  intros Hc Hf Hi. destruct f; cbn [drop0 ptr_of app] in *; [by apply drop_value_spec|by apply drop_async_spec|by apply drop_var_ref_spec|by apply drop_shape_spec|by destruct (Hc p)].
Qed.

Lemma context_frees_no_context ctx f p : f ∈ context_frees ctx -> f <> F_context p.
Proof using .
  intros Hf ->. unfold context_frees in Hf. rewrite !elem_of_app in Hf. destruct Hf as [Hf|Hf].
  - unfold js_free_modules in Hf. apply list_elem_of_In, in_concat in Hf as (l & Hl & Hf). apply list_elem_of_In in Hl, Hf. apply list_elem_of_fmap in Hl as (m & -> & _).
    unfold js_free_module_def in Hf. apply elem_of_app in Hf as [Hf|Hf]; by apply list_elem_of_fmap in Hf as (? & ? & _).
  - decompose [or] Hf; match goal with H : _ ∈ _ <$> _ |- _ => by apply list_elem_of_fmap in H as (? & ? & _) end.
Qed.

Lemma drop_context_spec p rt H C R : fref_ok rt0 (F_context p) -> finv [] rt H C (p :: R) -> dropped rt H C R (JS_FreeContext free_zero p rt).
Proof using All.
  intros Hv Hi. unfold JS_FreeContext. destruct (finv_obj _ _ _ _ _ _ Hi) as [o Ho]. rewrite Ho. cbn [mbind option_bind]. assert (passive p) as Hp by (by eapply has_type_passive).
  destruct (drop_passive rt H C R p o Hi Hp Ho) as [(Hn & Hi1)|(Hn & HpH & Hpg & HpC & Hi1)].
  - replace (ref_count o - 1 >? 0) with true by lia. eexists _, H. by split_and!.
  - replace (ref_count o - 1 >? 0) with false by lia. replace (ref_count o - 1 =? 0) with true by lia.
    destruct (passive_body _ _ _ _ _ _ Hi HpH Ho) as (o0 & Ho0 & Hb). destruct Hv as (o0' & E & Ht). rewrite Ho0 in E. injection E as <-.
    assert (exists l, frees rt0 p = Some l) as [l Hl] by (destruct (Hfrees p (passive_L p Hp) Hpg) as (l & ? & _); eauto).
    destruct (frees_finv _ _ _ _ _ _ Hl (passive_L p Hp) Hpg Hi1) as [Hok Hi2]. unfold frees in Hl. rewrite Ho0 in Hl. cbn [mbind option_bind] in Hl. rewrite Hb.
    unfold gc_obj_type in Ht. destruct (body o0) as [| | | | |ctx]; try discriminate Ht; injection Hl as <-.
    apply (dropped_end rt (set_heap (<[p := set_ref_count (ref_count o - 1) o]> (heap rt)) rt)); [done|done|done|reflexivity|]. apply drops_spec; [|done|done]. intros f rt2 H2 C2 R2 Hf Hfo Hfi. apply drop0_spec; [|done|done]. intros q. by eapply context_frees_no_context.
Qed.

Lemma drop_ref_spec f rt H C R : fref_ok rt0 f -> finv [] rt H C (ptr_of f ++ R) -> dropped rt H C R (drop_ref free_zero f rt).
Proof using All.
  intros Hf Hi. destruct f; cbn [drop_ref] in *; [by apply drop0_spec..|]. by apply drop_context_spec.
Qed.

(** ** Objects freed by the main loop *)

(** The result of one turn of the main loop at [p]. *)
Definition turned (rt : JSRuntime) (p : Z) (x : option JSRuntime) : Prop :=
  exists rt' H', x = Some rt' /\ finv [] rt' H' [] [] /\ p ∉ tmp_obj_list rt' /\ (forall q, q ∈ tmp_obj_list rt' -> q ∈ tmp_obj_list rt).

Lemma free_or_keep_spec rt rt1 H p : finv [] rt1 H [p] [] -> ~ passive p -> (forall q, q ∈ tmp_obj_list rt1 -> q ∈ tmp_obj_list rt) -> turned rt p (free_or_keep p rt1).
Proof using Hready.
  intros Hi Hnp Ht. destruct (cur_obj _ _ _ _ _ _ Hi) as [o Ho]. unfold free_or_keep. cbn [list_del set_lists heap]. rewrite Ho. cbn [mbind option_bind].
  change (gc_phase (list_del p rt1)) with (gc_phase rt1). rewrite (fi_phase _ _ _ _ _ Hi). destruct (ref_count o =? 0) eqn:E; cbn [negb].
  - destruct (end_free rt1 H [] [] p Hi (not_elem_of_nil p)) as (rt2 & E2 & Hi2 & Ht2).
    { pose proof (fi_rc _ _ _ _ _ Hi p o Ho). destruct (fi_type _ _ _ _ _ Hi p o Ho) as (o0 & Ho0 & _).
      pose proof (ext_nonneg p (mk_is_Some _ _ Ho0)). pose proof (cnt_nonneg p (all_refs H ++ [])). lia. }
    exists rt2, H. split_and!; [exact E2|done| |auto]. intros F. pose proof F as F2. apply Ht2 in F2. destruct (fi_tmp _ _ _ _ _ Hi2 p F) as [G|G]; [|by apply not_elem_of_nil in G].
    destruct (fi_cur _ _ _ _ _ Hi p ltac:(by left)) as (? & _). done.
  - eexists _, H. split; [done|]. split_and!; [apply (move_kept _ _ [] [] p Hi Hnp), not_elem_of_nil|cbn; intros [? _]%drop_link_elem; done|cbn; intros q [_ ?]%drop_link_elem; auto].
Qed.

(** The object at the head of the list starts to drop its references. *)
Lemma turn_start rt H p : finv [] rt H [] [] -> p ∈ tmp_obj_list rt -> ~ passive p ->
  exists o o0 l, heap rt !! p = Some o /\ heap rt0 !! p = Some o0 /\ body o = body o0 /\ frees rt0 p = Some l /\ Forall (fref_ok rt0) l /\
    finv [] rt (drop_link p H) [p] (targets l).
Proof using Hready Hfrees.
  intros Hi Ht Hnp. assert (p ∈ H) as HpH. { destruct (fi_tmp _ _ _ _ _ Hi p Ht) as [?|F]; [done|by apply not_elem_of_nil in F]. }
  assert (p ∉ gl) as Hpg by (apply (fi_listed _ _ _ _ _ Hi), elem_of_app; by left).
  destruct (fi_body _ _ _ _ _ Hi p HpH) as (o & o0 & Ho & Ho0 & Hb).
  assert (p ∈ L) as HpL by (apply Hready; eauto). destruct (Hfrees p HpL Hpg) as (l & Hl & Hok & Hperm). exists o, o0, l. split_and!; try done.
  pose proof (begin_free rt [] H [] [] p Hi ltac:(by intros q F%not_elem_of_nil) HpH Hpg ltac:(done)) as Hb2.
  rewrite <- (app_nil_r (targets l)). eapply finv_perm; [|exact Hb2]. by rewrite Hperm.
Qed.

Lemma drops_ref_spec l rt H C R : Forall (fref_ok rt0) l -> finv [] rt H C (targets l ++ R) -> dropped rt H C R (drops (drop_ref free_zero) l rt).
Proof using All. intros Hl Hi. apply drops_spec; [|done|done]. intros f rt1 H1 C1 R1 _. apply drop_ref_spec. Qed.

Lemma free_bytecode_turn rt H p o0 cpool realm n : finv [] rt H [] [] -> p ∈ tmp_obj_list rt -> heap rt0 !! p = Some o0 -> body o0 = B_FUNCTION_BYTECODE cpool realm n ->
  turned rt p (free_function_bytecode free_zero p rt).
Proof using All.
  intros Hi Ht Ho0 Hb0. assert (~ passive p) as Hnp by (eapply has_type_not_passive; [exists o0; split; [done|unfold gc_obj_type; by rewrite Hb0]|done]).
  destruct (turn_start rt H p Hi Ht Hnp) as (o & o0' & l & Ho & E & Hb & Hl & Hok & Hi1). rewrite Ho0 in E. injection E as <-.
  unfold free_function_bytecode. rewrite Ho. cbn [mbind option_bind]. rewrite Hb, Hb0. unfold frees in Hl. rewrite Ho0 in Hl. cbn [mbind option_bind] in Hl. rewrite Hb0 in Hl. injection Hl as <-.
  rewrite <- (app_nil_r (targets _)) in Hi1. destruct (drops_ref_spec _ _ _ _ _ Hok Hi1) as (rt1 & H1 & -> & Hi2 & _ & _ & Ht2). cbn [mbind option_bind]. by eapply free_or_keep_spec.
Qed.

Lemma free_async_turn rt H p o0 a b c d e f : finv [] rt H [] [] -> p ∈ tmp_obj_list rt -> heap rt0 !! p = Some o0 -> body o0 = B_ASYNC_FUNCTION a b c d e f ->
  turned rt p (async_func_free_obj free_zero p rt).
Proof using All.
  intros Hi Ht Ho0 Hb0. assert (~ passive p) as Hnp by (eapply has_type_not_passive; [exists o0; split; [done|unfold gc_obj_type; by rewrite Hb0]|done]).
  destruct (turn_start rt H p Hi Ht Hnp) as (o & o0' & l & Ho & E & Hb & Hl & Hok & Hi1). rewrite Ho0 in E. injection E as <-.
  unfold async_func_free_obj. rewrite Ho. cbn [mbind option_bind]. rewrite Hb, Hb0. unfold frees in Hl. rewrite Ho0 in Hl. cbn [mbind option_bind] in Hl. rewrite Hb0 in Hl.
  destruct (if a then _ else _) as [frame|]; [|done]. cbn [mbind option_bind] in Hl |- *. injection Hl as <-.
  rewrite <- (app_nil_r (targets _)) in Hi1. destruct (drops_ref_spec _ _ _ _ _ Hok Hi1) as (rt1 & H1 & -> & Hi2 & _ & _ & Ht2). cbn [mbind option_bind].
  destruct (cur_obj _ _ _ _ _ _ Hi2) as [o1 Ho1]. destruct (fi_type _ _ _ _ _ Hi2 p o1 Ho1) as (o0' & E & Hty & _). rewrite Ho0 in E. injection E as <-.
  assert (gc_obj_type o1 = JS_GC_OBJ_TYPE_ASYNC_FUNCTION) as Hty1 by (rewrite Hty; unfold gc_obj_type; by rewrite Hb0).
  destruct (alter_cur rt1 H1 [] [] p o1 (B_ASYNC_FUNCTION a b c (if a then d else None) e f) Hi2 Ho1) as (rt2 & -> & Hi3 & Ht3); [by rewrite Hty1|by rewrite Hty1|].
  cbn [mbind option_bind]. eapply free_or_keep_spec; [done|done|]. rewrite Ht3. auto.
Qed.

(** The finalizer of a function reads its bytecode, which may have been freed of
    its references but is still there. *)
Lemma call_finalizer_later h f u data : call_finalizer (heap rt0) f u = Some data ->
  (forall b o0, b ∈ targets data -> heap rt0 !! b = Some o0 -> gc_obj_type o0 = JS_GC_OBJ_TYPE_FUNCTION_BYTECODE -> exists o, h !! b = Some o /\ body o = body o0) ->
  call_finalizer h f u = Some data.
Proof using .
  intros Hf Hh. destruct f; try exact Hf. destruct u; try exact Hf. cbn [call_finalizer js_bytecode_function_finalizer] in *.
  destruct function_bytecode as [b|]; [|done]. destruct var_refs as [l|]; [|done].
  assert (b ∈ targets data) as Hb. { destruct (closure_refs _ _ _) as [r|]; [|done]. cbn [mbind option_bind] in Hf. injection Hf as <-. rewrite !targets_app, !elem_of_app. right; right. by left. }
  assert (closure_refs h b l = closure_refs (heap rt0) b l) as ->; [|done]. unfold closure_refs in *. destruct (heap rt0 !! b) as [o0|] eqn:Ho0; [|done]. cbn [mbind option_bind] in *.
  destruct (Hh b o0 Hb Ho0) as (o & -> & Ho); [unfold gc_obj_type; by destruct (body o0)|]. cbn [mbind option_bind]. by rewrite Ho.
Qed.

(** A shape referred to by an object that holds its references is intact. *)
Lemma shape_body rt H p q : finv [] rt H [] [] -> p ∈ H -> q ∈ refs p -> passive q -> exists o o0, heap rt !! q = Some o /\ heap rt0 !! q = Some o0 /\ body o = body o0.
Proof using .
  intros Hi Hp Hq Hqp. apply (fi_body _ _ _ _ _ Hi). destruct (decide (q ∈ H)) as [?|F]; [done|]. exfalso. apply (fi_kept _ _ _ _ _ Hi q); [|done|apply not_elem_of_nil|done].
  apply (fi_safe _ _ _ _ _ Hi). apply list_elem_of_split in Hp as (a & b & ->). rewrite (all_refs_app rt0), (all_refs_cons rt0), !elem_of_app. left; right; by left.
Qed.

Lemma free_object_turn rt H p o0 class_id shape prop u : finv [] rt H [] [] -> p ∈ tmp_obj_list rt -> heap rt0 !! p = Some o0 -> body o0 = B_JS_OBJECT class_id shape prop u ->
  turned rt p (free_object free_zero p rt).
Proof using All.
  intros Hi Ht Ho0 Hb0. assert (~ passive p) as Hnp by (eapply has_type_not_passive; [exists o0; split; [done|unfold gc_obj_type; by rewrite Hb0]|done]).
  destruct (turn_start rt H p Hi Ht Hnp) as (o & o0' & l & Ho & E & Hb & Hl & Hok & Hi1). rewrite Ho0 in E. injection E as <-.
  assert (p ∈ L) as HpL by (apply Hready; eauto). assert (p ∉ gl) as Hpg by (apply (fi_listed _ _ _ _ _ Hi), elem_of_app; by left).
  destruct (Hfrees p HpL Hpg) as (l' & E & _ & Hperm). rewrite Hl in E. injection E as <-.
  unfold free_object. rewrite Ho. cbn [mbind option_bind]. rewrite Hb, Hb0. unfold frees in Hl. rewrite Ho0 in Hl. cbn [mbind option_bind] in Hl. rewrite Hb0 in Hl.
  destruct shape as [sh|]; [|done]. cbn [mbind option_bind] in Hl. unfold obj_frees in Hl. destruct (heap rt0 !! sh) as [s0|] eqn:Hs0; [|done]. cbn [mbind option_bind] in Hl.
  destruct (match body s0 with B_SHAPE _ _ => _ | _ => _ end) as [fields|] eqn:Hfields; [|done]. cbn [mbind option_bind] in Hl.
  destruct (rd (class_array rt0) class_id) as [c|] eqn:Hc; [|done]. cbn [mbind option_bind] in Hl.
  destruct (match finalizer c with Some _ => _ | None => _ end) as [data|] eqn:Hdata; [|done]. cbn [mbind option_bind] in Hl. injection Hl as <-.
  apply Forall_app in Hok as [Hok1 Hok]. apply Forall_cons in Hok as [Hsh Hok2].
  destruct (shape_body rt H p sh) as (s & s0' & Hs & E & Hsb); [done|by destruct (fi_tmp _ _ _ _ _ Hi p Ht) as [?|F%not_elem_of_nil]| | |].
  { rewrite <- Hperm, targets_app, elem_of_app. right. by left. }
  { by eapply has_type_passive. }
  rewrite Hs0 in E. injection E as <-. rewrite Hs. cbn [mbind option_bind]. rewrite Hsb, Hfields. cbn [mbind option_bind].
  rewrite targets_app, targets_cons in Hi1. cbn [ptr_of app] in Hi1.
  destruct (drops_ref_spec _ _ _ _ _ Hok1 Hi1) as (rt1 & H1 & -> & Hi2 & _ & _ & Ht2). cbn [mbind option_bind].
  destruct (drop_shape_spec sh rt1 H1 [p] (targets data) Hsh Hi2) as (rt2 & H2 & -> & Hi3 & _ & _ & Ht3). cbn [mbind option_bind].
  destruct (cur_obj _ _ _ _ _ _ Hi3) as [o2 Ho2]. destruct (fi_type _ _ _ _ _ Hi3 p o2 Ho2) as (o0' & E & Hty & _). rewrite Ho0 in E. injection E as <-.
  assert (gc_obj_type o2 = JS_GC_OBJ_TYPE_JS_OBJECT) as Hty2 by (rewrite Hty; unfold gc_obj_type; by rewrite Hb0).
  destruct (alter_cur rt2 H2 [] (targets data) p o2 (B_JS_OBJECT class_id None [] u) Hi3 Ho2) as (rt3 & -> & Hi4 & Ht4); [by rewrite Hty2|by rewrite Hty2|]. cbn [mbind option_bind].
  rewrite (fi_class _ _ _ _ _ Hi4), Hc. cbn [mbind option_bind].
  assert ((match finalizer c with Some f => call_finalizer (heap rt3) f u | None => Some [] end) = Some data) as ->.
  { destruct (finalizer c) as [f|]; [|done]. apply call_finalizer_later; [done|]. intros b ob Hbt Hob Htb.
    destruct (fi_safe _ _ _ _ _ Hi4 b ltac:(apply elem_of_app; by right)) as [o3 Ho3]. exists o3. split; [done|].
    destruct (fi_type _ _ _ _ _ Hi4 b o3 Ho3) as (ob' & E & E2 & _ & Hbody). rewrite Hob in E. injection E as <-. apply Hbody. congruence. }
  cbn [mbind option_bind]. rewrite <- (app_nil_r (targets _)) in Hi4. destruct (drops_ref_spec _ _ _ _ _ Hok2 Hi4) as (rt4 & H4 & -> & Hi5 & _ & _ & Ht5). cbn [mbind option_bind].
  destruct (cur_obj _ _ _ _ _ _ Hi5) as [o4 Ho4]. destruct (fi_type _ _ _ _ _ Hi5 p o4 Ho4) as (o0' & E & Hty' & _). rewrite Ho0 in E. injection E as <-.
  destruct (alter_cur rt4 H4 [] [] p o4 (B_JS_OBJECT 0 None [] U_null) Hi5 Ho4) as (rt5 & -> & Hi6 & Ht6); [by rewrite Hty', <- Hty, Hty2|by rewrite Hty', <- Hty, Hty2|].
  cbn [mbind option_bind]. eapply free_or_keep_spec; [done|done|]. intros q Hq. rewrite Ht6 in Hq. apply Ht5 in Hq. rewrite Ht4 in Hq. auto.
Qed.

(** ** The main loop *)

Lemma loop_start_type rt H p : finv [] rt H [] [] -> p ∈ tmp_obj_list rt ->
  exists o o0, heap rt !! p = Some o /\ heap rt0 !! p = Some o0 /\ gc_obj_type o = gc_obj_type o0.
Proof using .
  intros Hi Ht. destruct (proj1 (fi_listed _ _ _ _ _ Hi p)) as [_ [o Ho]]; [apply elem_of_app; by left|].
  destruct (fi_type _ _ _ _ _ Hi p o Ho) as (o0 & Ho0 & Hty & _). eauto.
Qed.

Lemma free_gc_object_turn rt H p o : finv [] rt H [] [] -> p ∈ tmp_obj_list rt -> heap rt !! p = Some o -> freeable (gc_obj_type o) = true ->
  turned rt p (free_gc_object free_zero p rt).
Proof using All.
  intros Hi Ht Ho Hf. destruct (loop_start_type rt H p Hi Ht) as (o' & o0 & E & Ho0 & Hty). rewrite Ho in E. injection E as <-.
  unfold free_gc_object. rewrite Ho. cbn [mbind option_bind]. rewrite Hty in Hf |- *. unfold gc_obj_type in Hf |- *. destruct (body o0) eqn:Hb0; try discriminate Hf.
  - by eapply free_object_turn.
  - by eapply free_bytecode_turn.
  - by eapply free_async_turn.
Qed.

(** The end of the main loop: nothing but the reachable objects holds
    references, for a chain of passive objects has at most two. *)
Lemma passive_ref p q : p ∈ L -> p ∉ gl -> q ∈ refs p -> passive p -> passive q -> has_type rt0 p JS_GC_OBJ_TYPE_JS_CONTEXT /\ ~ has_type rt0 q JS_GC_OBJ_TYPE_JS_CONTEXT.
Proof using Hfrees.
  intros HpL Hpg Hq (o & Ho & Hf) Hqp. destruct (Hfrees p HpL Hpg) as (l & Hl & Hok & Hperm). rewrite <- Hperm in Hq.
  apply list_elem_of_In, in_concat in Hq as (x & Hx & Hq). apply list_elem_of_In in Hx, Hq. apply list_elem_of_fmap in Hx as (f & -> & Hfl).
  rewrite Forall_forall in Hok. specialize (Hok f Hfl).
  assert (forall v, f = F_value v -> False) as Hv.
  { intros v ->. destruct v; cbn in Hq, Hok; [| |by apply not_elem_of_nil in Hq]; apply list_elem_of_singleton in Hq as ->; by apply (has_type_not_passive _ _ Hok). }
  assert (forall s, f = F_async s -> False) as Hs by (intros s ->; apply list_elem_of_singleton in Hq as ->; by apply (has_type_not_passive _ _ Hok)).
  unfold frees in Hl. rewrite Ho in Hl. cbn [mbind option_bind] in Hl. unfold gc_obj_type in Hf. destruct (body o) as [| | proto|[] value async_func| |ctx] eqn:Hb; try discriminate Hf; injection Hl as <-.
  - apply list_elem_of_fmap in Hfl as (x & -> & _). by destruct (Hv _ eq_refl).
  - apply list_elem_of_singleton in Hfl as ->. by destruct (Hv _ eq_refl).
  - apply list_elem_of_fmap in Hfl as (x & -> & _). by destruct (Hs _ eq_refl).
  - split; [exists o; split; [done|unfold gc_obj_type; by rewrite Hb]|]. intros (oq & Hoq & Htq). pose proof (fun p => context_frees_no_context ctx f p Hfl) as Hc.
    destruct f as [v|s|[r|]|r|r]; cbn in Hq, Hok; [by destruct (Hv v)|by destruct (Hs s)| |by apply not_elem_of_nil in Hq| |by destruct (Hc r)];
      apply list_elem_of_singleton in Hq as ->; destruct Hok as (o' & E & Ho'); rewrite Hoq in E; injection E as <-; congruence.
Qed.

Lemma no_passive_left rt H p : finv [] rt H [] [] -> tmp_obj_list rt = [] -> p ∈ H -> p ∈ gl.
Proof using All.
  intros Hi Ht. assert (forall p, p ∈ H -> p ∉ gl -> passive p) as Hpas.
  { intros q HqH Hqg. apply (fi_zero _ _ _ _ _ Hi); [|done]. assert (q ∈ tmp_obj_list rt ++ gc_zero_ref_count_list rt) as Hq by (apply (fi_listed _ _ _ _ _ Hi); split; [done|]; destruct (fi_body _ _ _ _ _ Hi q HqH) as (o & _ & ? & _); eauto). by rewrite Ht in Hq. }
  assert (forall p, p ∈ H -> p ∉ gl -> exists q, q ∈ H /\ q ∉ gl /\ p ∈ refs q) as Href.
  { intros q HqH Hqg. pose proof (fi_passive _ _ _ _ _ Hi q HqH Hqg (not_elem_of_nil q) (Hpas q HqH Hqg)) as Hc. apply cnt_elem in Hc. rewrite app_nil_r in Hc.
    apply list_elem_of_In, in_concat in Hc as (x & Hx & Hq). apply list_elem_of_In in Hx, Hq. apply list_elem_of_fmap in Hx as (r & -> & Hr). exists r. split_and!; try done.
    intros F. apply Hqg, Hgl. apply (reach_step _ r); [by apply Hgl|done]. }
  assert (forall p, p ∈ H -> p ∈ L) as HL by (intros q HqH; destruct (fi_body _ _ _ _ _ Hi q HqH) as (_ & o0 & _ & ? & _); apply Hready; eauto).
  intros HpH. destruct (decide (p ∈ gl)) as [?|Hpg]; [done|exfalso]. destruct (Href p HpH Hpg) as (q & HqH & Hqg & Hpq). destruct (Href q HqH Hqg) as (r & HrH & Hrg & Hqr).
  destruct (passive_ref q p) as [Hq _]; auto. destruct (passive_ref r q) as [_ Hnq]; auto.
Qed.
End free.
