(* ===== verification/JsRunGC.v ===== *)
(** * Collecting garbage (quickjs.c)

    What the collector relies on: every reference that an object of the heap
    passes to [mark_func] is dropped when the object is freed, and leads to an
    object of the type of its field.  Under these conditions a collection leaves
    exactly the reachable objects and establishes its own preconditions again. *)

From stdpp Require Import gmap.
From S2P Require Import Prelude CArray JsHeap JsGc JsGcSpec JsFree JsFreeSpec.
Open Scope Z_scope.

(** ** A well-formed heap *)

(** A deleted property has no flags and holds no reference. *)
Definition deleted_ok (s : JSShapeProperty) (pr : JSProperty) : Prop :=
  prs_atom s = JS_ATOM_NULL -> prs_flags s = 0 /\ pr = PR_value JS_TAG_OTHER.

(** An asynchronous function that runs has no stack pointer. *)
Definition running (rt : JSRuntime) (p : Z) : Prop :=
  exists o cur_func this_val arg_buf funcs, heap rt !! p = Some o /\ body o = B_ASYNC_FUNCTION false cur_func this_val arg_buf false funcs.

(** A class marks what its finalizer drops; a plain object has no data; a
    generator that has completed has no frame; only a function that is referred
    to from outside can run. *)
Record heap_wf (rt : JSRuntime) : Prop := {
  wf_count p o : heap rt !! p = Some o -> 0 < ref_count o;
  wf_types p l : frees rt p = Some l -> Forall (fref_ok rt) l;
  wf_classes class_id c : rd (class_array rt) class_id = Some c -> finalizer c = gc_mark c;
  wf_plain c : rd (class_array rt) JS_CLASS_OBJECT = Some c -> finalizer c = None;
  wf_object p o class_id shape prop u : heap rt !! p = Some o -> body o = B_JS_OBJECT class_id shape prop u ->
    is_Some (rd (class_array rt) class_id) /\ (forall func_state, u = U_generator_data true func_state -> func_state = None);
  wf_deleted p o class_id sh prop u s proto prs i prs1 pr1 : heap rt !! p = Some o -> body o = B_JS_OBJECT class_id (Some sh) prop u ->
    heap rt !! sh = Some s -> body s = B_SHAPE proto prs -> prs !! i = Some prs1 -> prop !! i = Some pr1 -> deleted_ok prs1 pr1;
  wf_async p o cur_func this_val arg_buf cur_sp funcs : heap rt !! p = Some o -> body o = B_ASYNC_FUNCTION false cur_func this_val arg_buf cur_sp funcs -> is_Some arg_buf;
  wf_running p : running rt p -> 0 < external rt p }.

(** ** Marking and freeing agree *)

Lemma targets_values l : targets (F_value <$> l) = mark_values l.
Proof. unfold targets, mark_values. by rewrite <- list_fmap_compose. Qed.

Lemma targets_objects l : targets ((fun p => F_value (JS_TAG_OBJECT p)) <$> l) = l.
Proof. induction l as [|p l IH]; [done|]. rewrite fmap_cons, targets_cons, IH. done. Qed.

Lemma targets_contexts l : targets (F_context <$> l) = l.
Proof. induction l as [|p l IH]; [done|]. rewrite fmap_cons, targets_cons, IH. done. Qed.

Lemma targets_asyncs l : targets (F_async <$> l) = l.
Proof. induction l as [|p l IH]; [done|]. rewrite fmap_cons, targets_cons, IH. done. Qed.

Lemma targets_shapes l : targets (F_shape <$> l) = l.
Proof. induction l as [|p l IH]; [done|]. rewrite fmap_cons, targets_cons, IH. done. Qed.

Lemma targets_var_refs l : targets (F_var_ref <$> l) = concat (mark_opt <$> l).
Proof. unfold targets. by rewrite <- list_fmap_compose. Qed.

Lemma targets_concat {A} (f : A -> list fref) (g : A -> list Z) l : (forall x, targets (f x) = g x) -> targets (concat (f <$> l)) = concat (g <$> l).
Proof. intros H. induction l as [|x l IH]; [done|]. rewrite !fmap_cons. cbn [concat]. by rewrite targets_app, IH, H. Qed.

Lemma targets_nil : targets [] = [].
Proof. done. Qed.

Lemma ptr_of_value v : ptr_of (F_value v) = JS_MarkValue v.
Proof. done. Qed.

Create HintDb targets.
#[export] Hint Rewrite targets_app targets_cons targets_nil ptr_of_value @app_nil_r targets_values targets_objects targets_contexts targets_asyncs targets_shapes targets_var_refs : targets.

Lemma property_match s pr a : mark_property s pr = Some a -> deleted_ok s pr -> exists l, free_property pr (prs_flags s) = Some l /\ targets l = a.
Proof.
  unfold mark_property, free_property, deleted_ok. destruct (Z.eqb_spec (prs_atom s) JS_ATOM_NULL) as [E|E].
  - intros [= <-] H. destruct (H E) as [-> ->]. by eexists.
  - intros Ha _. destruct (Z.land (prs_flags s) JS_PROP_TMASK =? 0); cbn [negb] in *; [|destruct (_ =? JS_PROP_GETSET); [|destruct (_ =? JS_PROP_VARREF); [|destruct (_ =? JS_PROP_AUTOINIT)]]].
    all: try (destruct pr; try discriminate Ha); injection Ha as <-; eexists; (split; [done|]); autorewrite with targets; try done.
Qed.

Lemma properties_match prs prop a : mark_properties prs prop = Some a ->
  (forall i s pr, prs !! i = Some s -> prop !! i = Some pr -> deleted_ok s pr) -> exists l, free_properties prs prop = Some l /\ targets l = a.
Proof.
  revert prop a. induction prs as [|s prs IH]; intros prop a Ha Hd; cbn [mark_properties free_properties] in *; [injection Ha as <-; by exists []|].
  destruct prop as [|pr prop]; [done|]. destruct (mark_property s pr) as [a1|] eqn:E1; [|done]. cbn [mbind option_bind] in Ha.
  destruct (mark_properties prs prop) as [a2|] eqn:E2; [|done]. injection Ha as <-.
  destruct (property_match s pr a1 E1 (Hd 0%nat s pr eq_refl eq_refl)) as (l1 & -> & <-). destruct (IH prop a2 E2 (fun i => Hd (S i))) as (l2 & -> & <-).
  eexists. split; [done|]. by rewrite targets_app.
Qed.

Lemma reaction_match r : targets (promise_reaction_data_free r) = mark_reaction r.
Proof. unfold promise_reaction_data_free, mark_reaction. rewrite targets_values. unfold mark_values. cbn. by rewrite app_nil_r. Qed.

Lemma module_match m : targets (js_free_module_def m) = js_mark_module_def m.
Proof. unfold js_free_module_def, js_mark_module_def. rewrite targets_app, targets_var_refs, targets_values. unfold mark_values. cbn [fmap list_fmap concat]. by rewrite app_nil_r. Qed.

Lemma context_match ctx : targets (context_frees ctx) = JS_MarkContext ctx.
Proof.
  unfold context_frees, JS_MarkContext, js_free_modules. autorewrite with targets. rewrite (targets_concat _ _ _ module_match).
  unfold mark_values. cbn [fmap list_fmap concat]. by rewrite !app_nil_r, <- !app_assoc.
Qed.

Lemma data_match h f u a : call_gc_mark h f u = Some a -> (forall func_state, u = U_generator_data true func_state -> func_state = None) ->
  exists l, call_finalizer h f u = Some l /\ targets l = a.
Proof.
  intros Ha Hg. destruct f, u; try discriminate Ha; cbn in Ha |- *; try (destruct function_bytecode as [b|]; [destruct var_refs as [vr|]; [destruct (closure_refs h b vr) as [r|]; [|done]|]|]); cbn in Ha |- *; injection Ha as <-; eexists; (split; [done|]).
  all: autorewrite with targets; try done.
  - unfold free_generator_stack_rt. destruct completed; [by rewrite (Hg func_state eq_refl)|by autorewrite with targets].
  - by rewrite !(targets_concat _ _ _ reaction_match).
Qed.

Definition same_body (rt rt' : JSRuntime) (p : Z) : Prop := exists o o', heap rt !! p = Some o /\ heap rt' !! p = Some o' /\ body o' = body o.

Section wf.
Context (rt : JSRuntime) (Hwf : heap_wf rt).

(** Freeing an object drops the references that marking it visits. *)
Lemma frees_object p o class_id shape prop u : heap rt !! p = Some o -> body o = B_JS_OBJECT class_id shape prop u -> children rt p = Some (refs rt p) ->
  exists l, frees rt p = Some l /\ targets l ≡ₚ refs rt p.
Proof using Hwf.
  intros Ho Hb Hc. unfold children, frees in *. rewrite Ho in *. cbn [mbind option_bind] in *. rewrite Hb in *.
  destruct shape as [sh|]; [|done]. cbn [mbind option_bind] in *. unfold obj_frees. destruct (heap rt !! sh) as [s|] eqn:Hs; [|done]. cbn [mbind option_bind] in *.
  destruct (body s) as [| |proto prs| | |] eqn:Hsb; try discriminate Hc. destruct (mark_properties prs prop) as [fields|] eqn:Hf; [|done]. cbn [mbind option_bind] in Hc.
  destruct (properties_match _ _ _ Hf (fun i s1 pr1 => wf_deleted rt Hwf p o class_id sh prop u s proto prs i s1 pr1 Ho Hb Hs Hsb)) as (lf & -> & <-). cbn [mbind option_bind].
  destruct (wf_object rt Hwf _ _ _ _ _ _ Ho Hb) as [[c Hrd] Hg]. rewrite Hrd in Hc |- *. cbn [mbind option_bind] in Hc |- *.
  assert (exists data ld, (match finalizer c with Some f => call_finalizer (heap rt) f u | None => Some [] end) = Some ld /\ targets ld = data /\ refs rt p = sh :: targets lf ++ data) as (data & ld & -> & <- & ->).
  { destruct (Z.eqb_spec class_id JS_CLASS_OBJECT) as [-> |Hne]; cbn [mbind option_bind] in Hc.
    - rewrite (wf_plain rt Hwf c Hrd). exists [], []. split_and!; [done|done|]. by injection Hc as <-.
    - rewrite (wf_classes rt Hwf _ _ Hrd). destruct (gc_mark c) as [f|]; cbn [mbind option_bind] in Hc; [|exists [], []; split_and!; [done|done|by injection Hc as <-]].
      destruct (call_gc_mark (heap rt) f u) as [data|] eqn:Hd; [|done]. destruct (data_match _ _ _ _ Hd Hg) as (ld & Hld & E). exists data, ld. split_and!; [done|done|by injection Hc as <-]. }
  eexists. split; [done|]. rewrite targets_app, targets_cons. symmetry. apply Permutation_middle.
Qed.

Lemma frees_match p : children rt p = Some (refs rt p) ->
  (exists l, frees rt p = Some l /\ targets l ≡ₚ refs rt p) \/
  ((forall rt', same_body rt rt' p -> frees rt' p = None) /\ running rt p).
Proof using Hwf.
  intros Hc. destruct (heap rt !! p) as [o|] eqn:Ho; [|unfold children in Hc; by rewrite Ho in Hc].
  destruct (body o) as [class_id shape prop u|cpool realm n|proto prs|d v a|ic cf tv ab sp rf|ctx] eqn:Hb; [left; by eapply frees_object|..].
  all: unfold children, frees in *; rewrite Ho in *; cbn [mbind option_bind] in *; rewrite Hb in *.
  4: { destruct ic; cbn [mbind option_bind] in *; [left; eexists; split; [done|]; injection Hc as <-; by autorewrite with targets|].
    destruct (wf_async rt Hwf _ _ _ _ _ _ _ Ho Hb) as [l1 ->]. unfold async_func_free_frame. destruct sp; [left|right; split; [|by exists o, cf, tv, (Some l1), rf]; intros rt' (o1 & o' & E & Ho' & Hb'); rewrite Ho in E; injection E as <-; rewrite Ho'; cbn [mbind option_bind]; by rewrite Hb', Hb]. cbn [mbind option_bind] in *. eexists. split; [done|]. injection Hc as <-.
    autorewrite with targets. rewrite <- !app_assoc. rewrite Permutation_app_comm, <- !app_assoc. f_equiv. f_equiv. rewrite app_assoc, Permutation_app_comm. done. }
  all: left; eexists; split; [done|]; injection Hc as <-.
  3: destruct d.
  all: autorewrite with targets; try done. by rewrite context_match.
Qed.
End wf.

(** ** What depends on the bodies of the objects only *)

Lemma closure_refs_same rt rt' b l r : closure_refs (heap rt) b l = Some r -> same_body rt rt' b -> closure_refs (heap rt') b l = Some r.
Proof. intros Hr (o & o' & Ho & Ho' & Hb). unfold closure_refs in *. rewrite Ho in Hr. rewrite Ho'. cbn [mbind option_bind] in *. by rewrite Hb. Qed.

Lemma children_same rt rt' p : children rt p = Some (refs rt p) -> class_array rt' = class_array rt -> same_body rt rt' p ->
  (forall q, q ∈ refs rt p -> same_body rt rt' q) -> children rt' p = Some (refs rt p).
Proof.
  intros Hc Hcl (o & o' & Ho & Ho' & Hb) Hq. unfold children in *. rewrite Ho in Hc. rewrite Ho'. cbn [mbind option_bind] in *. rewrite Hb.
  destruct (body o) as [class_id shape prop u| | | | |]; try done. destruct shape as [sh|]; [|done]. cbn [mbind option_bind] in *.
  destruct (heap rt !! sh) as [s|] eqn:Hs; [|done]. cbn [mbind option_bind] in Hc. destruct (body s) as [| |proto prs| | |] eqn:Hsb; try discriminate Hc.
  destruct (mark_properties prs prop) as [fields|] eqn:Hf; [|done]. cbn [mbind option_bind] in Hc. destruct (if class_id =? _ then _ else _) as [data|] eqn:Hd; [|done]. cbn [mbind option_bind] in Hc. injection Hc as Hr.
  destruct (Hq sh ltac:(rewrite <- Hr; by left)) as (s1 & s' & E & -> & Hsb'). rewrite Hs in E. injection E as <-. cbn [mbind option_bind]. rewrite Hsb', Hsb, Hf. cbn [mbind option_bind].
  rewrite Hcl. destruct (class_id =? JS_CLASS_OBJECT); [injection Hd as <-; cbn [mbind option_bind]; by rewrite Hr|]. destruct (rd (class_array rt) class_id) as [c|]; [|done]. cbn [mbind option_bind] in *.
  destruct (gc_mark c) as [f|]; [|injection Hd as <-; cbn [mbind option_bind]; by rewrite Hr].
  assert (call_gc_mark (heap rt') f u = Some data) as ->; [|cbn [mbind option_bind]; by rewrite Hr].
  destruct f; try exact Hd. destruct u; try exact Hd. cbn [call_gc_mark js_bytecode_function_mark] in *. destruct function_bytecode as [b|]; [|done]. destruct var_refs as [l|]; [|done].
  destruct (closure_refs (heap rt) b l) as [r|] eqn:Hcr; [|done]. cbn [mbind option_bind] in Hd. injection Hd as <-.
  rewrite (closure_refs_same _ _ _ _ _ Hcr); [done|]. apply Hq. rewrite <- Hr. right. rewrite !elem_of_app. right; right; right. by left.
Qed.

Lemma frees_same rt rt' p l : frees rt p = Some l -> class_array rt' = class_array rt -> same_body rt rt' p ->
  (forall q, q ∈ targets l -> same_body rt rt' q) -> frees rt' p = Some l.
Proof.
  intros Hl Hcl (o & o' & Ho & Ho' & Hb) Hq. unfold frees in *. rewrite Ho in Hl. rewrite Ho'. cbn [mbind option_bind] in *. rewrite Hb.
  destruct (body o) as [class_id shape prop u| | | | |]; try done. destruct shape as [sh|]; [|done]. cbn [mbind option_bind] in *. unfold obj_frees in *.
  destruct (heap rt !! sh) as [s|] eqn:Hs; [|done]. cbn [mbind option_bind] in Hl. destruct (match body s with B_SHAPE _ _ => _ | _ => _ end) as [fields|] eqn:Hf; [|done]. cbn [mbind option_bind] in Hl.
  rewrite Hcl. destruct (rd (class_array rt) class_id) as [c|]; [|done]. cbn [mbind option_bind] in *.
  destruct (match finalizer c with Some _ => _ | None => _ end) as [data|] eqn:Hd; [|done]. cbn [mbind option_bind] in Hl. injection Hl as <-.
  destruct (Hq sh ltac:(rewrite targets_app, elem_of_app; right; by left)) as (s1 & s' & E & -> & Hsb). rewrite Hs in E. injection E as <-. cbn [mbind option_bind]. rewrite Hsb, Hf. cbn [mbind option_bind].
  assert ((match finalizer c with Some f => call_finalizer (heap rt') f u | None => Some [] end) = Some data) as ->; [|done].
  destruct (finalizer c) as [f|]; [|done]. apply (call_finalizer_later rt); [done|]. intros b o0 Hbt Hob _.
  destruct (Hq b) as (o1 & o2 & E & Ho2 & Hb2); [rewrite targets_app, targets_cons, !elem_of_app; by right; right|]. rewrite Hob in E. injection E as <-. eauto.
Qed.

Lemma fref_same rt rt' f : fref_ok rt f -> (forall q, q ∈ ptr_of f -> same_body rt rt' q) -> fref_ok rt' f.
Proof.
  intros Hf Hq. assert (forall q t, has_type rt q t -> q ∈ ptr_of f -> has_type rt' q t) as Ht.
  { intros q t (o & Ho & <-) Hin. destruct (Hq q Hin) as (o1 & o' & E & Ho' & Hb). rewrite Ho in E. injection E as <-. exists o'. split; [done|]. unfold gc_obj_type. by rewrite Hb. }
  destruct f as [[q|q|]|s|[q|]|q|q]; cbn [fref_ok] in *; try done; (apply Ht; [done|by left]).
Qed.

(** ** A collection *)

Section collect.
Context (rt0 : JSRuntime) (Hready : gc_ready rt0) (Hwf : heap_wf rt0) (mk : Z -> Z) (gl tl : list Z).
Context (Hgl : forall p, p ∈ gl <-> reachable rt0 p) (Hperm : gl ++ tl ≡ₚ gc_obj_list rt0).

Notation L := (gc_obj_list rt0).

Lemma gl_in p : p ∈ gl -> p ∈ L.
Proof using Hperm. intros Hp. rewrite <- Hperm, elem_of_app. by left. Qed.

Lemma garbage_frees p : p ∈ L -> p ∉ gl -> frees_ok rt0 p.
Proof using All.
  intros HpL Hpg. destruct (frees_match rt0 Hwf p (children_refs rt0 Hready p HpL)) as [(l & Hl & Hp)|[_ He%(wf_running rt0 Hwf)]].
  - exists l. split_and!; [done|by apply (wf_types rt0 Hwf p)|done].
  - exfalso. apply Hpg, Hgl. by apply reach_root.
Qed.

Lemma finv_start : finv rt0 mk gl [] (set_phase JS_GC_PHASE_REMOVE_CYCLES (state rt0 (rcf rt0 (all_refs rt0 L)) mk gl tl)) L [] [].
Proof using All.
  assert (NoDup (gl ++ tl)) as Hnd by (rewrite Hperm; apply Hready). apply NoDup_app in Hnd as (Hn1 & Hdis & Hn2).
  assert (forall p, is_Some (hdrs rt0 (rcf rt0 (all_refs rt0 L)) mk !! p) <-> p ∈ L) as Hs by (intros p; rewrite hdrs_lookup, fmap_is_Some; symmetry; apply Hready).
  split; cbn [set_phase state gc_phase class_array gc_obj_list heap tmp_obj_list gc_zero_ref_count_list]; try done.
  - apply Hready.
  - apply gl_in.
  - intros p HpL. destruct (hdrs_obj rt0 Hready (rcf rt0 (all_refs rt0 L)) mk p HpL) as (o & Ho & ->). eauto.
  - intros p o Hp. rewrite hdrs_lookup in Hp. apply fmap_Some in Hp as (o0 & Ho0 & ->). by exists o0.
  - intros p o Hp. rewrite hdrs_lookup in Hp. apply fmap_Some in Hp as (o0 & Ho0 & ->). rewrite app_nil_r. done.
  - intros q Hq. rewrite app_nil_r in Hq. apply Hs. by apply (all_refs_in rt0 Hready L).
  - rewrite (ready_zero _ Hready), app_nil_r. done.
  - intros p. rewrite (ready_zero _ Hready), app_nil_r, Hs, <- Hperm, elem_of_app. split; [intros Hp; split; [intros F; by apply (Hdis p)|by right]|by intros [? [?|?]]].
  - intros p Hp. left. rewrite <- Hperm, elem_of_app. by right.
  - rewrite (ready_zero _ Hready). by intros p F%not_elem_of_nil.
  - intros p Hp%Hs. done.
  - intros p HpL Hpg _ _. rewrite app_nil_r. pose proof (garbage_ext rt0 Hready gl Hgl p HpL Hpg) as He. destruct (hdrs_obj rt0 Hready (fun _ => 0) (fun _ => 0) p HpL) as (o & Ho & _).
    pose proof (wf_count rt0 Hwf p o Ho) as Hc. pose proof (rcf_start rt0 p o Ho) as Hr. unfold rcf in Hr. lia.
  - by intros p F%not_elem_of_nil.
Qed.

Lemma free_body_turn rt H p l : finv rt0 mk gl [] rt H [] [] -> tmp_obj_list rt = p :: l ->
  exists rt' H', gc_free_body rt = Some (inl rt') /\ finv rt0 mk gl [] rt' H' [] [] /\ (length (tmp_obj_list rt') < length (tmp_obj_list rt))%nat.
Proof using All.
  intros Hi Ht. assert (p ∈ tmp_obj_list rt) as Hp by (rewrite Ht; by left).
  assert (forall rt' H', finv rt0 mk gl [] rt' H' [] [] -> p ∉ tmp_obj_list rt' -> (forall q, q ∈ tmp_obj_list rt' -> q ∈ tmp_obj_list rt) -> (length (tmp_obj_list rt') < length (tmp_obj_list rt))%nat) as Hlen.
  { intros rt' H' Hi' Hp' Hs. assert (NoDup (p :: tmp_obj_list rt')) as Hn. { apply NoDup_cons. split; [done|]. pose proof (fi_lists _ _ _ _ _ _ _ _ Hi') as Hn. by apply NoDup_app in Hn as [? _]. }
    apply (submseteq_length (p :: tmp_obj_list rt')). apply NoDup_submseteq; [done|]. intros q [-> |Hq]%elem_of_cons; auto. }
  destruct (loop_start_type rt0 mk gl rt H p Hi Hp) as (o & o0 & Ho & Ho0 & Hty). unfold gc_free_body. rewrite Ht, Ho. cbn [mbind option_bind]. destruct (freeable (gc_obj_type o)) eqn:Hf.
  - destruct (free_gc_object_turn rt0 Hready mk gl Hgl gl_in free_zero_refcount garbage_frees rt H p o Hi Hp Ho Hf) as (rt' & H' & -> & Hi' & Hp' & Hs). cbn [mbind option_bind]. exists rt', H'. split_and!; [done|done|]. rewrite <- Ht. by eapply Hlen.
  - eexists _, H. split; [done|]. rewrite <- Ht. assert (finv rt0 mk gl [] (set_lists (gc_obj_list (list_del p rt)) (gc_zero_ref_count_list (list_del p rt) ++ [p]) (tmp_obj_list (list_del p rt)) (list_del p rt)) H [] []) as Hi'.
    { apply move_passive; [done| |done]. exists o0. split; [done|]. congruence. }
    split; [exact Hi'|]. apply (Hlen _ H Hi'); cbn; [by intros [? _]%drop_link_elem|by intros q [_ ?]%drop_link_elem].
Qed.

Lemma free_loop fuel rt H : finv rt0 mk gl [] rt H [] [] -> (length (tmp_obj_list rt) < fuel)%nat ->
  exists rt' H', loop fuel gc_free_body rt = Some rt' /\ finv rt0 mk gl [] rt' H' [] [] /\ tmp_obj_list rt' = [].
Proof using All.
  intros Hi Hf.
  assert (wp (loop fuel gc_free_body rt) (fun rt' => exists H', finv rt0 mk gl [] rt' H' [] [] /\ tmp_obj_list rt' = [])) as Hw.
  { apply (wp_loop (fun rt => exists H, finv rt0 mk gl [] rt H [] []) (fun rt => length (tmp_obj_list rt))); [eauto|done|]. clear H rt Hi Hf. intros rt [H Hi].
    destruct (tmp_obj_list rt) as [|p l] eqn:Ht; [unfold gc_free_body; rewrite Ht; by exists H|]. destruct (free_body_turn rt H p l Hi Ht) as (rt' & H' & -> & Hi' & Hlt). rewrite Ht in Hlt. cbn [wp]. eauto. }
  apply wp_exists in Hw as (rt' & -> & H' & Hi' & Ht). eauto.
Qed.

Lemma free_kept_all z rt : NoDup z -> (forall p, p ∈ z -> exists o, heap rt !! p = Some o /\ freeable (gc_obj_type o) = true) ->
  exists h, for_each free_kept z rt = Some (set_heap h rt) /\ forall p, h !! p = if decide (p ∈ z) then None else heap rt !! p.
Proof using .
  revert rt. induction z as [|q z IH]; intros rt Hn Hz; cbn [for_each].
  - exists (heap rt). split; [by destruct rt|]. intros p. by rewrite decide_False by apply not_elem_of_nil.
  - apply NoDup_cons in Hn as [Hq Hn]. destruct (Hz q ltac:(by left)) as (o & Ho & Hf). assert (free_kept rt q = Some (set_heap (delete q (heap rt)) rt)) as -> by (unfold free_kept, js_free_rt; rewrite Ho; cbn [mbind option_bind]; by rewrite Hf). cbn [mbind option_bind].
    destruct (IH (set_heap (delete q (heap rt)) rt) Hn) as (h & -> & Hh).
    + intros p Hp. cbn [set_heap heap]. rewrite lookup_delete_ne by (by intros ->). apply Hz. by right.
    + exists h. split; [done|]. intros p. rewrite Hh. cbn [set_heap heap]. destruct (decide (p = q)) as [-> |Hne].
      * rewrite (decide_False (P := q ∈ z)) by done. rewrite lookup_delete_eq, decide_True by (by left). done.
      * rewrite lookup_delete_ne by done. destruct (decide (p ∈ z)); [by rewrite decide_True by (by right)|rewrite decide_False; [done|]]. by intros [->|?]%elem_of_cons.
Qed.
End collect.

(** What a collection leaves behind. *)
Record collected (rt rt' : JSRuntime) : Prop := {
  col_nodup : NoDup (gc_obj_list rt');
  col_live p : p ∈ gc_obj_list rt' <-> reachable rt p;
  col_dom p : p ∈ gc_obj_list rt' <-> is_Some (heap rt' !! p);
  col_object p o' : heap rt' !! p = Some o' -> exists o, heap rt !! p = Some o /\ body o' = body o /\ mark o' = 0 /\
    ref_count o' = external rt p + cnt p (all_refs rt (gc_obj_list rt'));
  col_zero : gc_zero_ref_count_list rt' = [];
  col_tmp : tmp_obj_list rt' = [];
  col_phase : gc_phase rt' = JS_GC_PHASE_NONE;
  col_class : class_array rt' = class_array rt }.

Lemma run_gc_spec rt : gc_ready rt -> heap_wf rt -> exists rt', JS_RunGC rt = Some rt' /\ collected rt rt'.
Proof.
  intros Hready Hwf. destruct (search_spec rt Hready) as (mk & gl & tl & E & Hperm & Hgl & Hmk). unfold JS_RunGC.
  destruct (gc_decref rt) as [rt1|]; [|done]. cbn [mbind option_bind] in E |- *. rewrite E. cbn [mbind option_bind]. unfold gc_free_cycles.
  destruct (free_loop rt Hready Hwf mk gl tl Hgl Hperm (size (heap (set_phase JS_GC_PHASE_REMOVE_CYCLES (state rt (rcf rt (all_refs rt (gc_obj_list rt))) mk gl tl))) + 1) _ _ (finv_start rt Hready Hwf mk gl tl Hgl Hperm)) as (rt2 & H & -> & Hi & Ht).
  { cbn [set_phase state heap tmp_obj_list]. rewrite size_hdrs by done. apply Permutation_length in Hperm. rewrite length_app in Hperm. lia. }
  cbn [mbind option_bind]. cbn [set_phase gc_zero_ref_count_list].
  assert (forall p, p ∈ H -> p ∈ gl) as HH by (intros p; apply (no_passive_left rt Hready mk gl Hgl (gl_in rt gl tl Hperm) (fun _ => None) (garbage_frees rt Hready Hwf mk gl tl Hgl Hperm) rt2 H p Hi Ht)).
  assert (NoDup gl) as Hnd by (assert (NoDup (gl ++ tl)) as Hnd by (rewrite Hperm; apply Hready); by apply NoDup_app in Hnd as [? _]).
  assert (gl ≡ₚ H) as HP by (apply NoDup_Permutation; [done|apply Hi|]; intros p; split; [apply Hi|apply HH]).
  assert (forall p, p ∈ gc_zero_ref_count_list rt2 <-> p ∉ gl /\ is_Some (heap rt2 !! p)) as Hz by (intros p; pose proof (fi_listed _ _ _ _ _ _ _ _ Hi p) as Hl; by rewrite Ht in Hl).
  destruct (free_kept_all (gc_zero_ref_count_list rt2) (set_phase JS_GC_PHASE_NONE rt2)) as (h & -> & Hh).
  { pose proof (fi_lists _ _ _ _ _ _ _ _ Hi) as Hn. by rewrite Ht in Hn. }
  { intros p Hp. apply Hz in Hp as [Hpg [o Ho]]. exists o. split; [done|]. destruct (fi_type _ _ _ _ _ _ _ _ Hi p o Ho) as (o0 & Ho0 & Hty & _). destruct (freeable (gc_obj_type o)) eqn:Hf; [done|exfalso].
    apply (fi_kept _ _ _ _ _ _ _ _ Hi p); [eauto|by intros F%HH|apply not_elem_of_nil|]. exists o0. split; [done|congruence]. }
  cbn [mbind option_bind set_heap set_phase set_lists heap gc_obj_list tmp_obj_list gc_zero_ref_count_list] in *. eexists. split; [done|].
  assert (forall p, is_Some (h !! p) <-> p ∈ gl) as Hdom.
  { intros p. rewrite Hh. destruct (decide _) as [Hp|Hp]; [apply Hz in Hp; split; [by intros [? ?]|tauto]|]. split; [intros Hs; destruct (decide (p ∈ gl)); [done|exfalso; apply Hp, Hz; done]|].
    intros Hg. destruct (fi_body _ _ _ _ _ _ _ _ Hi p ltac:(by apply Hi)) as (o & _ & ? & _). eauto. }
  split; cbn [gc_obj_list heap gc_zero_ref_count_list tmp_obj_list gc_phase class_array]; try done; rewrite ?(fi_gl _ _ _ _ _ _ _ _ Hi); try done; [|by apply Hi].
  intros p o' Ho'. assert (p ∈ gl) as Hp by (apply Hdom; eauto). rewrite Hh in Ho'. destruct (decide _); [done|]. destruct (fi_body _ _ _ _ _ _ _ _ Hi p ltac:(by apply Hi)) as (o2 & o0 & Ho2 & Ho0 & Hb).
  rewrite Ho' in Ho2. injection Ho2 as <-. exists o0. destruct (fi_type _ _ _ _ _ _ _ _ Hi p o' Ho') as (_ & _ & _ & Hm & _). split_and!; [done|done|by rewrite Hm, Hmk|].
  rewrite (fi_rc _ _ _ _ _ _ _ _ Hi p o' Ho'), app_nil_r. cbn [gc_obj_list]. f_equal. symmetry. apply cnt_perm, all_refs_perm. exact HP.
Qed.

(** What an operation leaves that frees some objects and changes no other: the
    objects left are closed under references, and [e] counts the references from
    outside. *)
Record kept (rt : JSRuntime) (e : Z -> Z) (rt' : JSRuntime) : Prop := {
  kp_nodup : NoDup (gc_obj_list rt');
  kp_dom p : p ∈ gc_obj_list rt' <-> is_Some (heap rt' !! p);
  kp_closed p q : p ∈ gc_obj_list rt' -> q ∈ refs rt p -> q ∈ gc_obj_list rt';
  kp_object p o' : heap rt' !! p = Some o' -> exists o, heap rt !! p = Some o /\ body o' = body o /\ mark o' = 0 /\
    ref_count o' = e p + cnt p (all_refs rt (gc_obj_list rt'));
  kp_count p o' : heap rt' !! p = Some o' -> 0 < ref_count o';
  kp_outside p : p ∈ gc_obj_list rt' -> 0 <= e p <= external rt p;
  kp_running p : p ∈ gc_obj_list rt' -> running rt p -> 0 < e p;
  kp_zero : gc_zero_ref_count_list rt' = [];
  kp_class : class_array rt' = class_array rt }.

Section after.
Context (rt rt' : JSRuntime) (e : Z -> Z) (Hready : gc_ready rt) (Hwf : heap_wf rt) (Hk : kept rt e rt').

Lemma kept_old p : p ∈ gc_obj_list rt' -> p ∈ gc_obj_list rt.
Proof using Hready Hk. intros Hp. apply (kp_dom _ _ _ Hk) in Hp as [o' Ho']. destruct (kp_object _ _ _ Hk p o' Ho') as (o & Ho & _). apply Hready. eauto. Qed.

Lemma kept_same p : p ∈ gc_obj_list rt' -> same_body rt rt' p.
Proof using Hk. intros Hp. apply (kp_dom _ _ _ Hk) in Hp as [o' Ho']. destruct (kp_object _ _ _ Hk p o' Ho') as (o & Ho & Hb & _). by exists o, o'. Qed.

Lemma kept_children p : p ∈ gc_obj_list rt' -> children rt' p = Some (refs rt p).
Proof using Hready Hk.
  intros Hp. apply children_same; [apply (children_refs rt Hready), kept_old, Hp|apply Hk|by apply kept_same|]. intros q Hq. by eapply kept_same, (kp_closed _ _ _ Hk).
Qed.

Lemma kept_refs p : p ∈ gc_obj_list rt' -> refs rt' p = refs rt p.
Proof using Hready Hk. intros Hp. unfold refs at 1. by rewrite kept_children. Qed.

Lemma kept_all_refs : all_refs rt' (gc_obj_list rt') = all_refs rt (gc_obj_list rt').
Proof using Hready Hk. unfold all_refs. f_equal. apply list_fmap_ext. intros i p Hi. apply kept_refs. by eapply list_elem_of_lookup_2. Qed.

Lemma kept_external p : p ∈ gc_obj_list rt' -> external rt' p = e p.
Proof using Hready Hk.
  intros Hp. apply (kp_dom _ _ _ Hk) in Hp as [o' Ho']. destruct (kp_object _ _ _ Hk p o' Ho') as (_ & _ & _ & _ & Hc). unfold external at 1. rewrite Ho', kept_all_refs. lia.
Qed.

(** No count grows. *)
Lemma kept_count_le p o o' : heap rt !! p = Some o -> heap rt' !! p = Some o' -> ref_count o' <= ref_count o.
Proof using Hready Hk.
  intros Ho Ho'. assert (p ∈ gc_obj_list rt') as Hl by (apply (kp_dom _ _ _ Hk); eauto). destruct (kp_object _ _ _ Hk p o' Ho') as (_ & _ & _ & _ & Hc).
  assert (exists k, gc_obj_list rt ≡ₚ gc_obj_list rt' ++ k) as [k Hp] by (apply submseteq_Permutation, NoDup_submseteq; [apply Hk|apply kept_old]).
  apply (all_refs_perm rt), (cnt_perm p) in Hp. rewrite (all_refs_app rt), cnt_app in Hp. pose proof (cnt_nonneg p (all_refs rt k)).
  pose proof (kp_outside _ _ _ Hk p Hl). pose proof (rcf_start rt p o Ho) as Hr. unfold rcf in Hr. lia.
Qed.

Lemma kept_ready : gc_ready rt'.
Proof using Hready Hk.
  split.
  - apply Hk.
  - apply Hk.
  - intros p o' Ho'. by destruct (kp_object _ _ _ Hk p o' Ho') as (_ & _ & _ & ? & _).
  - intros p Hp. rewrite kept_children by done. eauto.
  - intros p q Hp Hq. rewrite kept_refs in Hq by done. by eapply (kp_closed _ _ _ Hk).
  - intros p Hp. rewrite kept_external by done. by apply Hk.
  - intros p o' Ho'. destruct (kp_object _ _ _ Hk p o' Ho') as (o & Ho & _). pose proof (kept_count_le p o o' Ho Ho'). pose proof (ready_bound _ Hready p o Ho). lia.
  - apply Hk.
Qed.

Lemma kept_types p l : frees rt' p = Some l -> Forall (fref_ok rt') l.
Proof using Hready Hwf Hk.
  intros Hl. assert (p ∈ gc_obj_list rt') as Hp by (apply (kp_dom _ _ _ Hk); unfold frees in Hl; destruct (heap rt' !! p); [eauto|done]).
  destruct (frees_match rt Hwf p (children_refs rt Hready p (kept_old p Hp))) as [(l0 & Hl0 & Hperm)|[Hn _]]; [|by rewrite (Hn rt' (kept_same p Hp)) in Hl].
  assert (forall q, q ∈ targets l0 -> same_body rt rt' q) as Hq by (intros q Hq; rewrite Hperm in Hq; by eapply kept_same, (kp_closed _ _ _ Hk)).
  rewrite (frees_same rt rt' p l0 Hl0 (kp_class _ _ _ Hk) (kept_same p Hp) Hq) in Hl. injection Hl as <-. pose proof (wf_types rt Hwf p l0 Hl0) as Hok.
  apply Forall_forall. intros f Hf. rewrite Forall_forall in Hok. apply (fref_same rt); [by apply Hok|]. intros q Hqf. apply Hq. apply list_elem_of_In, in_concat. exists (ptr_of f). split; apply list_elem_of_In; [|done]. by apply list_elem_of_fmap_2.
Qed.

Lemma kept_wf : heap_wf rt'.
Proof using Hready Hwf Hk.
  assert (forall p o', heap rt' !! p = Some o' -> exists o, heap rt !! p = Some o /\ body o = body o') as Hold.
  { intros p o' Ho'. destruct (kp_object _ _ _ Hk p o' Ho') as (o & Ho & Hb & _). eauto. }
  split.
  - intros p o' Ho'. by apply (kp_count _ _ _ Hk p).
  - apply kept_types.
  - rewrite (kp_class _ _ _ Hk). apply Hwf.
  - rewrite (kp_class _ _ _ Hk). apply Hwf.
  - intros p o' class_id shape prop u Ho' Hb. destruct (Hold p o' Ho') as (o & Ho & E). rewrite (kp_class _ _ _ Hk). apply (wf_object rt Hwf p o class_id shape prop u Ho). congruence.
  - intros p o' class_id sh prop u s' proto prs i prs1 pr1 Ho' Hb Hs' Hsb. destruct (Hold p o' Ho') as (o & Ho & E). destruct (Hold sh s' Hs') as (s & Hs & Es).
    apply (wf_deleted rt Hwf p o class_id sh prop u s proto); congruence.
  - intros p o' cur_func this_val arg_buf cur_sp funcs Ho' Hb. destruct (Hold p o' Ho') as (o & Ho & E). apply (wf_async rt Hwf p o cur_func this_val arg_buf cur_sp funcs Ho). congruence.
  - intros p (o' & cf & tv & ab & rf & Ho' & Hb). destruct (Hold p o' Ho') as (o & Ho & E). assert (p ∈ gc_obj_list rt') as Hp by (apply (kp_dom _ _ _ Hk); eauto).
    rewrite kept_external by done. apply Hk; [done|]. exists o, cf, tv, ab, rf. split; [done|congruence].
Qed.
End after.

Section collected.
Context (rt rt' : JSRuntime) (Hready : gc_ready rt) (Hwf : heap_wf rt) (Hcol : collected rt rt').

Lemma collected_kept : kept rt (external rt) rt'.
Proof using Hready Hwf Hcol.
  assert (forall p, p ∈ gc_obj_list rt' -> p ∈ gc_obj_list rt) as Hold.
  { intros p Hp. apply (col_dom _ _ Hcol) in Hp as [o' Ho']. destruct (col_object _ _ Hcol p o' Ho') as (o & Ho & _). apply Hready. eauto. }
  split; try apply Hcol.
  - intros p q Hp Hq. apply Hcol. eapply reach_step; [by apply Hcol|done].
  - intros p o' Ho'. destruct (col_object _ _ Hcol p o' Ho') as (_ & _ & _ & _ & ->). assert (p ∈ gc_obj_list rt') as Hl by (apply (col_dom _ _ Hcol); eauto).
    pose proof (ready_count rt Hready p (Hold p Hl)) as He. pose proof (cnt_nonneg p (all_refs rt (gc_obj_list rt'))).
    apply (col_live _ _ Hcol) in Hl. destruct Hl as [p Hp0 He0|q p Hq Hqp]; [lia|]. assert (0 < cnt p (all_refs rt (gc_obj_list rt'))); [|lia]. apply cnt_pos.
    apply (col_live _ _ Hcol) in Hq. apply list_elem_of_split in Hq as (a & b & E). rewrite E, (all_refs_app rt), (all_refs_cons rt), !elem_of_app. tauto.
  - intros p Hp. split; [|done]. by apply Hready, Hold.
  - intros p _. apply Hwf.
Qed.

Lemma live_reachable p : reachable rt p -> reachable rt' p.
Proof using Hready Hwf Hcol.
  induction 1 as [p Hp He|p q Hp IH Hq].
  - assert (p ∈ gc_obj_list rt') as Hl by (apply Hcol; by apply reach_root). apply reach_root; [done|]. by rewrite (kept_external rt rt' _ Hready collected_kept).
  - eapply reach_step; [done|]. rewrite (kept_refs rt rt' _ Hready collected_kept); [done|]. by apply Hcol.
Qed.

Lemma collected_ready : gc_ready rt'.
Proof using Hready Hwf Hcol. exact (kept_ready _ _ _ Hready collected_kept). Qed.

Lemma collected_wf : heap_wf rt'.
Proof using Hready Hwf Hcol. exact (kept_wf _ _ _ Hready Hwf collected_kept). Qed.
End collected.

(** ** Theorems *)

(** C3. A collection succeeds (no assertion fails, nothing freed is read and no
    count overflows) and leaves exactly the objects that are reachable from
    outside the heap; these keep their contents and are counted by the
    references from outside and from the objects that are left. *)
Theorem JS_RunGC_collects rt : gc_ready rt -> heap_wf rt ->
  exists rt', JS_RunGC rt = Some rt' /\ (forall p, is_Some (heap rt' !! p) <-> reachable rt p) /\
    (forall p, p ∈ gc_obj_list rt' <-> reachable rt p) /\ gc_zero_ref_count_list rt' = [] /\ gc_phase rt' = JS_GC_PHASE_NONE /\
    forall p o', heap rt' !! p = Some o' -> exists o, heap rt !! p = Some o /\ body o' = body o /\ mark o' = 0 /\
      ref_count o' = external rt p + cnt p (all_refs rt (gc_obj_list rt')).
Proof.
  intros Hr Hw. destruct (run_gc_spec rt Hr Hw) as (rt' & E & Hcol). exists rt'. split_and!; try done; try apply Hcol. intros p. by rewrite <- (col_dom _ _ Hcol), (col_live _ _ Hcol).
Qed.

(** C4. What a collection relies on holds again after it: every reference leads
    to an object of the type of its field, marking and freeing agree, and counts
    are at least the references of the heap. *)
Theorem JS_RunGC_keeps_heap_wf rt : gc_ready rt -> heap_wf rt ->
  exists rt', JS_RunGC rt = Some rt' /\ gc_ready rt' /\ heap_wf rt'.
Proof.
  intros Hr Hw. destruct (run_gc_spec rt Hr Hw) as (rt' & E & Hcol). exists rt'. split_and!; [done|exact (collected_ready rt rt' Hr Hw Hcol)|exact (collected_wf rt rt' Hr Hw Hcol)].
Qed.

(** C5. Garbage does not outlive a collection: after it every object of the heap
    is reachable, and a second collection frees nothing and changes no object. *)
Theorem JS_RunGC_complete rt : gc_ready rt -> heap_wf rt ->
  exists rt' rt'', JS_RunGC rt = Some rt' /\ (forall p, is_Some (heap rt' !! p) -> reachable rt' p) /\
    JS_RunGC rt' = Some rt'' /\ heap rt'' = heap rt'.
Proof.
  intros Hr Hw. destruct (run_gc_spec rt Hr Hw) as (rt' & E & Hcol).
  destruct (run_gc_spec rt' (collected_ready _ _ Hr Hw Hcol) (collected_wf _ _ Hr Hw Hcol)) as (rt'' & E' & Hcol').
  assert (forall p, p ∈ gc_obj_list rt' -> reachable rt' p) as Hre by (intros p Hp; apply (live_reachable rt rt' Hr Hw Hcol), Hcol, Hp).
  exists rt', rt''. split_and!; [done|intros p Hp; by apply Hre, (col_dom _ _ Hcol)|done|].
  assert (gc_obj_list rt'' ≡ₚ gc_obj_list rt') as HP.
  { apply NoDup_Permutation; [apply Hcol'|apply Hcol|]. intros p. split; [intros Hp; exact (kept_old rt' rt'' _ (collected_ready _ _ Hr Hw Hcol) (collected_kept rt' rt'' (collected_ready _ _ Hr Hw Hcol) (collected_wf _ _ Hr Hw Hcol) Hcol') p Hp)|]. intros Hp. by apply (col_live _ _ Hcol'), Hre. }
  apply map_eq. intros p. destruct (heap rt'' !! p) as [o''|] eqn:Ho''.
  - destruct (col_object _ _ Hcol' p o'' Ho'') as (o' & Ho' & Hb & Hm & Hc). rewrite Ho'. f_equal. destruct (col_object _ _ Hcol p o' Ho') as (_ & _ & _ & Hm' & _).
    rewrite (cnt_perm p _ _ (all_refs_perm rt' _ _ HP)) in Hc. unfold external in Hc. rewrite Ho' in Hc. destruct o', o''. cbn in *. f_equal; [lia|congruence|done].
  - symmetry. apply eq_None_not_Some. intros Hs. apply (col_dom _ _ Hcol) in Hs. rewrite <- HP in Hs. apply (col_dom _ _ Hcol') in Hs as [? Hs]. congruence.
Qed.

(** ** A heap with garbage

    The objects 1 and 2 refer to each other, and the function 4 to its bytecode
    20 and to the variable 30, which holds the function; only the object 3 is
    referred to from outside. *)

Definition sample_objects : list (Z * JSGCObjectHeader) :=
  [ (10, GCObject 3 0 (B_SHAPE None [ShapeProperty 5 7]));
    (1, GCObject 1 0 (B_JS_OBJECT JS_CLASS_OBJECT (Some 10) [PR_value (JS_TAG_OBJECT 2)] U_null));
    (2, GCObject 1 0 (B_JS_OBJECT JS_CLASS_OBJECT (Some 10) [PR_value (JS_TAG_OBJECT 1)] U_null));
    (3, GCObject 1 0 (B_JS_OBJECT JS_CLASS_OBJECT (Some 10) [PR_value JS_TAG_OTHER] U_null));
    (11, GCObject 1 0 (B_SHAPE None []));
    (4, GCObject 1 0 (B_JS_OBJECT 2 (Some 11) [] (U_func (Some 20) (Some [Some 30]) None)));
    (20, GCObject 1 0 (B_FUNCTION_BYTECODE [] None 1));
    (30, GCObject 1 0 (B_VAR_REF true (JS_TAG_OBJECT 4) None)) ].

Definition sample_classes : list JSClass :=
  [ClassEntry None None; ClassEntry None None; ClassEntry (Some FN_bytecode_function) (Some FN_bytecode_function)].

Definition sample_rt : JSRuntime := Runtime (list_to_map sample_objects) (fst <$> sample_objects) [] [] JS_GC_PHASE_NONE sample_classes.

Lemma sample_cases p o : heap sample_rt !! p = Some o -> (p, o) ∈ sample_objects.
Proof. apply elem_of_list_to_map_2. Qed.

(** Every object of the sample, one goal each. *)
Ltac sample_case H := repeat (apply elem_of_cons in H as [H|H]; [first [injection H as -> -> | injection H as -> | subst]|]); [.. | by apply not_elem_of_nil in H].

Lemma sample_dom p : p ∈ gc_obj_list sample_rt <-> is_Some (heap sample_rt !! p).
Proof.
  split.
  - intros Hp. sample_case Hp; vm_compute; by eexists.
  - intros [o Ho%sample_cases]. apply list_elem_of_fmap. by exists (p, o).
Qed.

Lemma sample_ready : gc_ready sample_rt.
Proof.
  split.
  - apply (bool_decide_unpack (NoDup (gc_obj_list sample_rt))). vm_compute. exact I.
  - apply sample_dom.
  - intros p o Ho%sample_cases. sample_case Ho; done.
  - intros p Hp. sample_case Hp; vm_compute; by eexists.
  - intros p q Hp Hq. sample_case Hp; vm_compute in Hq; sample_case Hq; apply sample_dom; vm_compute; by eexists.
  - intros p Hp. sample_case Hp; vm_compute; done.
  - intros p o Ho%sample_cases. sample_case Ho; vm_compute; done.
  - done.
Qed.

Lemma sample_wf : heap_wf sample_rt.
Proof.
  split.
  - intros p o Ho%sample_cases. sample_case Ho; done.
  - intros p l Hl. assert (p ∈ gc_obj_list sample_rt) as Hp by (apply sample_dom; unfold frees in Hl; destruct (heap sample_rt !! p); [eauto|done]).
    sample_case Hp; vm_compute in Hl; injection Hl as <-; repeat apply Forall_cons_2; try apply Forall_nil_2; try exact I; (eexists; split; vm_compute; reflexivity).
  - intros class_id c Hc. assert (c ∈ sample_classes) as Hin by (unfold rd in Hc; destruct (0 <=? class_id); [by eapply list_elem_of_lookup_2|done]). sample_case Hin; done.
  - intros c [= <-]. done.
  - intros p o class_id shape prop u Ho%sample_cases Hb. sample_case Ho; try discriminate Hb; injection Hb as <- <- <- <-; (split; [vm_compute; by eexists|done]).
  - intros p o class_id sh prop u s proto prs i prs1 pr1 Ho%sample_cases Hb Hs%sample_cases Hsb Hi _ F. sample_case Ho; try discriminate Hb; sample_case Hs; try discriminate Hsb; injection Hsb as <- <-; destruct i as [|i]; try discriminate Hi; injection Hi as <-; discriminate F.
  - intros p o cur_func this_val arg_buf cur_sp funcs Ho%sample_cases Hb. sample_case Ho; discriminate Hb.
  - intros p (o & cf & tv & ab & rf & Ho%sample_cases & Hb). sample_case Ho; discriminate Hb.
Qed.

Lemma JS_RunGC_collects_witness : exists rt', JS_RunGC sample_rt = Some rt' /\ forall p, is_Some (heap rt' !! p) <-> reachable sample_rt p.
Proof. destruct (JS_RunGC_collects sample_rt sample_ready sample_wf) as (rt' & E & H & _). exists rt'. split; [exact E|exact H]. Defined.

Lemma JS_RunGC_keeps_heap_wf_witness : exists rt', JS_RunGC sample_rt = Some rt' /\ gc_ready rt' /\ heap_wf rt'.
Proof. exact (JS_RunGC_keeps_heap_wf sample_rt sample_ready sample_wf). Defined.

Lemma JS_RunGC_complete_witness : exists rt' rt'', JS_RunGC sample_rt = Some rt' /\ JS_RunGC rt' = Some rt'' /\ heap rt'' = heap rt'.
Proof. destruct (JS_RunGC_complete sample_rt sample_ready sample_wf) as (rt' & rt'' & E & _ & E' & H). exists rt', rt''. split; [exact E|split; [exact E'|exact H]]. Defined.

(** The objects 3 and 10 are left. *)
Example sample_collected : (map_to_list ∘ heap) <$> JS_RunGC sample_rt =
  Some [(3, GCObject 1 0 (B_JS_OBJECT JS_CLASS_OBJECT (Some 10) [PR_value JS_TAG_OTHER] U_null)); (10, GCObject 1 0 (B_SHAPE None [ShapeProperty 5 7]))].
Proof. vm_compute. reflexivity. Qed.
