(* ===== verification/JsRefCount.v ===== *)
(** * Reference counting frees what is no longer referred to (quickjs.c)

    Outside a collection, dropping the last reference to an object moves it to
    [gc_zero_ref_count_list]; [free_zero_refcount] frees the objects of this list
    one by one, which may add others.  Shapes, variables and contexts are freed
    at once. *)

From stdpp Require Import gmap.
From S2P Require Import Prelude CArray JsHeap JsGc JsGcSpec JsFree JsFreeSpec JsRunGC.
Open Scope Z_scope.

(** What goes away when the references [D] from outside are dropped: the objects
    with no other reference from outside that only such objects refer to. *)
Inductive released (rt : JSRuntime) (D : list Z) : Z -> Prop :=
  | released_intro p : p ∈ gc_obj_list rt -> external rt p = cnt p D ->
      (forall q, q ∈ gc_obj_list rt -> p ∈ refs rt q -> released rt D q) -> released rt D p.

(** A refined induction principle: the hypothesis for the referring objects. *)
Lemma released_rec' rt D (P : Z -> Prop) :
  (forall p, p ∈ gc_obj_list rt -> external rt p = cnt p D -> (forall q, q ∈ gc_obj_list rt -> p ∈ refs rt q -> P q) -> P p) -> forall p, released rt D p -> P p.
Proof. intros H. fix IH 2. intros p [p' Hp He Hq]. apply H; [done|done|]. intros q H1 H2. apply IH. by apply Hq. Qed.

Section count.
Context (rt0 : JSRuntime) (Hready : gc_ready rt0) (D : list Z).

Notation L := (gc_obj_list rt0).
Notation refs := (refs rt0).
Notation all_refs := (all_refs rt0).
Notation passive := (passive rt0).

(** The references from outside that are left. *)
Definition ext (p : Z) : Z := external rt0 p - cnt p D.

Context (Hext : forall p, p ∈ L -> 0 <= ext p).
Context (Hfrees : forall p, p ∈ L -> ext p = 0 -> frees_ok rt0 p).

(** The objects of [H] hold their references, those of [C] are being freed and
    still have to drop the references [R]; an object of [E] may have lost its
    last reference. *)
Record rinv (ph : JSGCPhaseEnum) (E : list Z) (rt : JSRuntime) (H C R : list Z) : Prop := {
  ri_phase : gc_phase rt = ph;
  ri_class : class_array rt = class_array rt0;
  ri_nodup : NoDup H;
  ri_dom p : is_Some (heap rt !! p) <-> p ∈ H \/ p ∈ C;
  ri_body p o : p ∈ H -> heap rt !! p = Some o -> exists o0, heap rt0 !! p = Some o0 /\ body o = body o0;
  ri_type p o : heap rt !! p = Some o -> exists o0, heap rt0 !! p = Some o0 /\ gc_obj_type o = gc_obj_type o0 /\ mark o = 0;
  ri_rc p o : heap rt !! p = Some o -> ref_count o = ext p + cnt p (all_refs H ++ R);
  ri_safe q : q ∈ all_refs H ++ R -> q ∈ H;
  ri_lists : NoDup (gc_obj_list rt ++ gc_zero_ref_count_list rt);
  ri_listed p : p ∈ gc_obj_list rt ++ gc_zero_ref_count_list rt <-> is_Some (heap rt !! p);
  ri_zero p : p ∈ gc_zero_ref_count_list rt -> ~ passive p /\ ext p + cnt p (all_refs H ++ R) = 0;
  ri_pos p : p ∈ H -> p ∉ E -> p ∉ gc_zero_ref_count_list rt -> 0 < ext p + cnt p (all_refs H ++ R);
  ri_cur p : p ∈ C -> p ∉ H /\ ext p + cnt p (all_refs H ++ R) = 0;
  ri_now p : ph = JS_GC_PHASE_NONE -> p ∈ C -> passive p;
  ri_gone p : p ∈ L -> p ∉ H -> released rt0 D p }.

Lemma H_in_L ph E rt H C R p : rinv ph E rt H C R -> p ∈ H -> p ∈ L.
Proof using Hready.
  intros Hi Hp. destruct (proj2 (ri_dom _ _ _ _ _ _ Hi p) (or_introl Hp)) as [o Ho]. destruct (ri_body _ _ _ _ _ _ Hi p o Hp Ho) as (o0 & Ho0 & _). apply Hready. eauto.
Qed.

Lemma rinv_perm ph E rt H C R R' : R ≡ₚ R' -> rinv ph E rt H C R -> rinv ph E rt H C R'.
Proof using .
  intros Hp Hi. assert (forall p, cnt p (all_refs H ++ R') = cnt p (all_refs H ++ R)) as Hc by (intros p; rewrite !cnt_app; by rewrite (cnt_perm p _ _ Hp)).
  destruct Hi. split; try assumption; try (intros *; rewrite Hc; eauto; fail). intros q Hq. apply ri_safe0. rewrite elem_of_app in *. by rewrite Hp.
Qed.

Lemma is_Some_insert (h : gmap Z JSGCObjectHeader) p o o' q : h !! p = Some o -> is_Some (<[p := o']> h !! q) <-> is_Some (h !! q).
Proof using . intros Ho. destruct (decide (q = p)) as [-> |]; [rewrite lookup_insert_eq, Ho|rewrite lookup_insert_ne by done]; split; eauto. Qed.

(** Dropping one reference. *)
Lemma dec_count ph rt H C R p o : rinv ph [] rt H C (p :: R) -> heap rt !! p = Some o ->
  rinv ph [p] (set_heap (<[p := set_ref_count (ref_count o - 1) o]> (heap rt)) rt) H C R /\
  p ∈ H /\ p ∉ gc_zero_ref_count_list rt /\ ref_count o - 1 = ext p + cnt p (all_refs H ++ R).
Proof using Hready Hext.
  intros Hi Ho. assert (forall q, cnt q (all_refs H ++ p :: R) = Zb (bool_decide (p = q)) + cnt q (all_refs H ++ R)) as Hc by (intros q; rewrite !cnt_app, cnt_cons; lia).
  assert (p ∈ H) as HpH by (apply (ri_safe _ _ _ _ _ _ Hi); rewrite elem_of_app, elem_of_cons; tauto).
  pose proof (Hext p (H_in_L _ _ _ _ _ _ p Hi HpH)) as He. pose proof (cnt_nonneg p (all_refs H ++ R)) as Hnn.
  assert (cnt p (all_refs H ++ p :: R) = 1 + cnt p (all_refs H ++ R)) as Hcp by (by rewrite Hc, bool_decide_eq_true_2).
  assert (forall q, q <> p -> cnt q (all_refs H ++ p :: R) = cnt q (all_refs H ++ R)) as Hcq by (intros q Hne; by rewrite Hc, bool_decide_eq_false_2).
  assert (p ∉ gc_zero_ref_count_list rt) as Hz by (intros F; destruct (ri_zero _ _ _ _ _ _ Hi p F); lia).
  assert (p ∉ C) as HpC by (intros F; by destruct (ri_cur _ _ _ _ _ _ Hi p F)).
  split; [|split_and!; [done|done|rewrite (ri_rc _ _ _ _ _ _ Hi p o Ho); lia]].
  destruct Hi. split; cbn [set_heap gc_phase class_array gc_obj_list heap tmp_obj_list gc_zero_ref_count_list]; try assumption.
  - intros q. by rewrite (is_Some_insert _ _ _ _ _ Ho).
  - intros q oq Hq Hoq. destruct (decide (q = p)) as [-> |]; [|rewrite lookup_insert_ne in Hoq by done; eauto]. rewrite lookup_insert_eq in Hoq. injection Hoq as <-. by apply (ri_body0 p o).
  - intros q oq Hoq. destruct (decide (q = p)) as [-> |]; [|rewrite lookup_insert_ne in Hoq by done; eauto]. rewrite lookup_insert_eq in Hoq. injection Hoq as <-. by apply (ri_type0 p o).
  - intros q oq Hoq. destruct (decide (q = p)) as [-> |Hne].
    + rewrite lookup_insert_eq in Hoq. injection Hoq as <-. cbn [set_ref_count ref_count]. rewrite (ri_rc0 p o Ho). lia.
    + rewrite lookup_insert_ne in Hoq by done. rewrite (ri_rc0 q oq Hoq), Hcq by done. done.
  - intros q Hq. apply ri_safe0. rewrite elem_of_app in *. rewrite elem_of_cons. destruct Hq; [by left|by right; right].
  - intros q. by rewrite (is_Some_insert _ _ _ _ _ Ho).
  - intros q Hq. rewrite <- Hcq by (by intros ->). auto.
  - intros q H1 H2 H3. assert (q <> p) by (intros ->; apply H2; by left). rewrite <- Hcq by done. apply ri_pos0; [done|apply not_elem_of_nil|done].
  - intros q Hq. rewrite <- Hcq by (by intros ->). auto.
Qed.

Lemma rinv_keep ph rt H C R p : rinv ph [p] rt H C R -> 0 < ext p + cnt p (all_refs H ++ R) -> rinv ph [] rt H C R.
Proof using .
  intros Hi Hk. destruct Hi. split; try assumption. intros q H1 _ H3. destruct (decide (q = p)) as [-> |Hne]; [done|]. apply ri_pos0; try done. intros F. by apply list_elem_of_singleton in F.
Qed.

(** An object without references starts to drop its own. *)
Lemma begin_release ph E rt H C R p : rinv ph E rt H C R -> (ph = JS_GC_PHASE_NONE -> passive p) -> (forall q, q ∈ E -> q = p) -> p ∈ H -> ext p + cnt p (all_refs H ++ R) = 0 ->
  rinv ph [] rt (drop_link p H) (p :: C) (refs p ++ R).
Proof using Hready Hext.
  intros Hi Hnow HE HpH Hz. pose proof (H_in_L _ _ _ _ _ _ p Hi HpH) as HpL. pose proof (Hext p HpL) as He. pose proof (cnt_nonneg p (all_refs H ++ R)) as Hnn.
  assert (forall q, cnt q (all_refs (drop_link p H) ++ refs p ++ R) = cnt q (all_refs H ++ R)) as Hc.
  { intros q. rewrite !cnt_app. pose proof (all_refs_perm rt0 _ _ (drop_link_perm p H (ri_nodup _ _ _ _ _ _ Hi) HpH)) as Hp. apply (cnt_perm q) in Hp.
    rewrite (all_refs_cons rt0), cnt_app in Hp. lia. }
  assert (forall q, q ∈ all_refs (drop_link p H) ++ refs p ++ R -> q ∈ all_refs H ++ R) as Hin by (intros q Hq; apply cnt_elem; rewrite <- Hc; by apply cnt_pos).
  assert (forall q, q ∈ L -> p ∈ refs q -> q ∉ H) as Href.
  { intros q HqL Hq HqH. apply list_elem_of_split in HqH as (a & b & E'). subst H. rewrite (all_refs_app rt0), (all_refs_cons rt0), !cnt_app in *. pose proof (cnt_pos p (refs q) Hq).
    pose proof (cnt_nonneg p (all_refs a)). pose proof (cnt_nonneg p (all_refs b)). pose proof (cnt_nonneg p R). lia. }
  destruct Hi. split; try assumption.
  - by apply NoDup_filter.
  - intros q. rewrite ri_dom0, drop_link_elem, elem_of_cons. destruct (decide (q = p)) as [-> |]; [split; [by intros _; right; left|by intros _; left]|].
    split; [intros [?|?]; [by left|by right; right]|intros [[_ ?]|[?|?]]; [by left|done|by right]].
  - intros q o [_ Hq]%drop_link_elem. eauto.
  - intros q o Ho. rewrite Hc. eauto.
  - intros q Hq. apply drop_link_elem. split; [intros ->; apply Hin in Hq; pose proof (cnt_pos p _ Hq); lia|auto].
  - intros q Hq. rewrite Hc. auto.
  - intros q [Hne Hq]%drop_link_elem _ Hqz. rewrite Hc. apply ri_pos0; [done| |done]. intros F. by apply Hne, HE.
  - intros q Hq. rewrite Hc, drop_link_elem. apply elem_of_cons in Hq as [-> |Hq]; [by split; [intros [? _]|]|]. destruct (ri_cur0 q Hq) as [H1 H2]. by split; [intros [_ ?]|].
  - intros q Hph [-> |Hq]%elem_of_cons; auto.
  - intros q HqL Hq. destruct (decide (q ∈ H)) as [HqH|]; [|auto]. assert (q = p) as -> by (destruct (decide (q = p)); [done|exfalso; apply Hq; by apply drop_link_elem]).
    constructor; [done|unfold ext in *; lia|]. auto.
Qed.

(** An object that has dropped its references leaves the heap. *)
Lemma end_release ph rt H C R p : rinv ph [] rt H (p :: C) R -> p ∉ C ->
  exists rt', js_free_rt p (list_del p rt) = Some rt' /\ rinv ph [] rt' H C R /\ gc_zero_ref_count_list rt' = drop_link p (gc_zero_ref_count_list rt).
Proof using .
  intros Hi HpC. destruct (ri_cur _ _ _ _ _ _ Hi p ltac:(by left)) as (HpH & Hz). destruct (proj2 (ri_dom _ _ _ _ _ _ Hi p)) as [o Ho]; [right; by left|].
  unfold js_free_rt. cbn [list_del set_lists heap]. rewrite Ho. cbn [mbind option_bind]. eexists. split; [done|]. split; [|done].
  destruct Hi. split; cbn [set_heap list_del set_lists gc_phase class_array gc_obj_list heap tmp_obj_list gc_zero_ref_count_list]; try assumption.
  - intros q. rewrite lookup_delete_Some_iff, ri_dom0, elem_of_cons. split; [intros [Hne [?|[?|?]]]; [by left|done|by right]|]. intros [Hq|Hq]; (split; [by intros ->|]); [by left|by right; right].
  - intros q oq Hq [_ Hoq]%lookup_delete_Some. eauto.
  - intros q oq [_ Hoq]%lookup_delete_Some. eauto.
  - intros q oq [_ Hoq]%lookup_delete_Some. eauto.
  - rewrite <- drop_link_app. by apply NoDup_filter.
  - intros q. rewrite <- drop_link_app, drop_link_elem, lookup_delete_Some_iff, ri_listed0. done.
  - intros q [_ Hq]%drop_link_elem. auto.
  - intros q Hq HE Hqz. apply ri_pos0; [done|done|]. intros F. apply Hqz, drop_link_elem. split; [by intros ->|done].
  - intros q Hq. apply ri_cur0. by right.
  - intros q Hph Hq. apply ri_now0; [done|]. by right.
Qed.

(** An object that lost its last reference is moved to the list of the objects
    to free. *)
Lemma move_zero ph rt H C R p : rinv ph [p] rt H C R -> p ∈ H -> ~ passive p -> ext p + cnt p (all_refs H ++ R) = 0 ->
  rinv ph [] (set_lists (gc_obj_list (list_del p rt)) (p :: gc_zero_ref_count_list (list_del p rt)) (tmp_obj_list (list_del p rt)) (list_del p rt)) H C R.
Proof using .
  intros Hi HpH Hnp Hz. assert (is_Some (heap rt !! p)) as Hs by (apply (ri_dom _ _ _ _ _ _ Hi); by left).
  destruct Hi. split; cbn [list_del set_lists gc_phase class_array gc_obj_list heap tmp_obj_list gc_zero_ref_count_list]; try assumption.
  - rewrite <- Permutation_middle, <- drop_link_app. apply NoDup_cons. split; [by intros [? _]%drop_link_elem|by apply NoDup_filter].
  - intros q. rewrite <- Permutation_middle, <- drop_link_app, elem_of_cons, drop_link_elem, ri_listed0. split; [by intros [-> |[_ ?]]|]. intros Hq. destruct (decide (q = p)); [by left|by right].
  - intros q [-> |[_ Hq]%drop_link_elem]%elem_of_cons; [done|auto].
  - intros q Hq _ Hqz. apply ri_pos0; [done| |]; intros F; apply Hqz, elem_of_cons.
    + apply list_elem_of_singleton in F. by left.
    + destruct (decide (q = p)); [by left|right]. by apply drop_link_elem.
Qed.

Lemma alter_current ph rt H C R p o b : rinv ph [] rt H (p :: C) R -> heap rt !! p = Some o -> gc_obj_type (set_body b o) = gc_obj_type o ->
  exists rt', alter_obj (fun o => Some (set_body b o)) p rt = Some rt' /\ rinv ph [] rt' H (p :: C) R /\ gc_zero_ref_count_list rt' = gc_zero_ref_count_list rt.
Proof using .
  intros Hi Ho Hb. unfold alter_obj. rewrite Ho. cbn [mbind option_bind]. eexists. split; [done|]. split; [|done].
  destruct (ri_cur _ _ _ _ _ _ Hi p ltac:(by left)) as (HpH & _).
  destruct Hi. split; cbn [set_heap gc_phase class_array gc_obj_list heap tmp_obj_list gc_zero_ref_count_list]; try assumption.
  - intros q. by rewrite (is_Some_insert _ _ _ _ _ Ho).
  - intros q oq Hq Hoq. rewrite lookup_insert_ne in Hoq by (by intros ->). eauto.
  - intros q oq Hoq. destruct (decide (q = p)) as [-> |]; [|rewrite lookup_insert_ne in Hoq by done; eauto]. rewrite lookup_insert_eq in Hoq. injection Hoq as <-. rewrite Hb. by apply (ri_type0 p o).
  - intros q oq Hoq. destruct (decide (q = p)) as [-> |]; [|rewrite lookup_insert_ne in Hoq by done; eauto]. rewrite lookup_insert_eq in Hoq. injection Hoq as <-. exact (ri_rc0 p o Ho).
  - intros q. by rewrite (is_Some_insert _ _ _ _ _ Ho).
Qed.

(** ** Dropping references, in one of the phases *)

Section phase.
Context (ph : JSGCPhaseEnum) (free_zero : JSRuntime -> option JSRuntime).

(** Outside [free_zero_refcount] nothing waits to be freed. *)
Definition calm (rt : JSRuntime) : Prop := ph = JS_GC_PHASE_NONE -> gc_zero_ref_count_list rt = [].

Definition releases (H C R : list Z) (x : option JSRuntime) : Prop :=
  exists rt' H', x = Some rt' /\ rinv ph [] rt' H' C R /\ calm rt' /\ (forall p, p ∈ H' -> p ∈ H).

Context (Hph : ph <> JS_GC_PHASE_REMOVE_CYCLES).
Context (Hfz : ph = JS_GC_PHASE_NONE -> forall rt H C R, rinv ph [] rt H C R -> releases H C R (free_zero rt)).

Lemma releases_here rt H C R : rinv ph [] rt H C R -> calm rt -> releases H C R (Some rt).
Proof using . intros Hi Hc. exists rt, H. split_and!; [done|exact Hi|exact Hc|done]. Qed.

Lemma defer_free_spec rt H C R p : rinv ph [p] rt H C R -> p ∈ H -> ~ passive p -> ext p + cnt p (all_refs H ++ R) = 0 -> releases H C R (defer_free free_zero p rt).
Proof using All.
  intros Hi HpH Hnp Hz. pose proof (move_zero _ _ _ _ _ _ Hi HpH Hnp Hz) as Hi'. unfold defer_free. rewrite (ri_phase _ _ _ _ _ _ Hi). clear Hi.
  assert (ph = JS_GC_PHASE_NONE \/ ph = JS_GC_PHASE_DECREF) as [E|E] by (destruct ph; [by left|by right|done]); rewrite E; [exact (Hfz E _ H C R Hi')|].
  eexists _, H. split; [done|]. split_and!; [exact Hi'|intros F; congruence|done].
Qed.

Lemma drop_counted rt H C R p o : rinv ph [] rt H C (p :: R) -> calm rt -> heap rt !! p = Some o -> ~ passive p ->
  let rt1 := set_heap (<[p := set_ref_count (ref_count o - 1) o]> (heap rt)) rt in
  0 <= ref_count o - 1 /\ (0 < ref_count o - 1 -> releases H C R (Some rt1)) /\ (ref_count o - 1 = 0 -> releases H C R (defer_free free_zero p rt1)).
Proof using All.
  intros Hi Hc Ho Hnp rt1. destruct (dec_count _ _ _ _ _ _ _ Hi Ho) as (Hi1 & HpH & Hz & Hn). fold rt1 in Hi1. pose proof (Hext p (H_in_L _ _ _ _ _ _ p Hi HpH)). pose proof (cnt_nonneg p (all_refs H ++ R)).
  split_and!; [lia| |].
  - intros Hpos. apply releases_here; [|exact Hc]. eapply rinv_keep; [exact Hi1|lia].
  - intros Hzero. apply defer_free_spec; [exact Hi1|exact HpH|exact Hnp|lia].
Qed.

Lemma rinv_obj rt H C R p : rinv ph [] rt H C (p :: R) -> exists o, heap rt !! p = Some o.
Proof using .
  intros Hi. assert (p ∈ H) as HpH by (apply (ri_safe _ _ _ _ _ _ Hi); rewrite elem_of_app, elem_of_cons; by right; left). destruct (proj2 (ri_dom _ _ _ _ _ _ Hi p) (or_introl HpH)) as [o Ho]. eauto.
Qed.

Lemma release_value v rt H C R : fref_ok rt0 (F_value v) -> rinv ph [] rt H C (JS_MarkValue v ++ R) -> calm rt -> releases H C R (JS_FreeValueRT free_zero v rt).
Proof using All.
  intros Hv Hi Hc. destruct v as [p|p|]; cbn [JS_MarkValue app JS_FreeValueRT] in *; [| |apply releases_here; [exact Hi|exact Hc]].
  all: destruct (rinv_obj _ _ _ _ _ Hi) as [o Ho]; rewrite Ho; cbn [mbind option_bind].
  all: assert (~ passive p) as Hp by (by eapply has_type_not_passive).
  all: destruct (drop_counted rt H C R p o Hi Hc Ho Hp) as (Hn & H1 & H2); destruct (Z.leb_spec (ref_count o - 1) 0); [apply H2|apply H1]; lia.
Qed.

Lemma release_async s rt H C R : fref_ok rt0 (F_async s) -> rinv ph [] rt H C (s :: R) -> calm rt -> releases H C R (async_func_free free_zero s rt).
Proof using All.
  intros Hv Hi Hc. unfold async_func_free. destruct (rinv_obj _ _ _ _ _ Hi) as [o Ho]; rewrite Ho; cbn [mbind option_bind].
  assert (~ passive s) as Hp by (by eapply has_type_not_passive).
  destruct (drop_counted rt H C R s o Hi Hc Ho Hp) as (Hn & H1 & H2); destruct (Z.eqb_spec (ref_count o - 1) 0); [apply H2|apply H1]; lia.
Qed.

(** A reference to an object that is freed with its last reference. *)
Lemma drop_last rt H C R p o : rinv ph [] rt H C (p :: R) -> calm rt -> passive p -> heap rt !! p = Some o ->
  let rt1 := set_heap (<[p := set_ref_count (ref_count o - 1) o]> (heap rt)) rt in
  0 < ref_count o /\
  ((0 < ref_count o - 1 /\ releases H C R (Some rt1)) \/
   (ref_count o - 1 = 0 /\ p ∈ H /\ p ∉ C /\ exists l, frees rt0 p = Some l /\ Forall (fref_ok rt0) l /\ rinv ph [] rt1 (drop_link p H) (p :: C) (targets l ++ R))).
Proof using All.
  intros Hi Hc Hp Ho rt1. destruct (dec_count _ _ _ _ _ _ _ Hi Ho) as (Hi1 & HpH & Hz & Hn). fold rt1 in Hi1. pose proof (H_in_L _ _ _ _ _ _ p Hi HpH) as HpL. pose proof (Hext p HpL). pose proof (cnt_nonneg p (all_refs H ++ R)).
  split; [lia|]. destruct (decide (0 < ref_count o - 1)) as [Hpos|Hzero]; [left; split; [done|apply releases_here; [eapply rinv_keep; [exact Hi1|lia]|exact Hc]]|right].
  assert (p ∉ C) as HpC by (intros F; by destruct (ri_cur _ _ _ _ _ _ Hi1 p F)). split_and!; [lia|done|done|].
  destruct (Hfrees p HpL ltac:(lia)) as (l & Hl & Hok & Hperm). exists l. split_and!; [done|done|].
  eapply rinv_perm; [|eapply begin_release; [exact Hi1|done|intros q Hq; by apply list_elem_of_singleton in Hq|done|lia]]. by rewrite Hperm.
Qed.

Lemma releases_list d l rt H C R :
  (forall f rt H C R, f ∈ l -> fref_ok rt0 f -> rinv ph [] rt H C (ptr_of f ++ R) -> calm rt -> releases H C R (d f rt)) ->
  Forall (fref_ok rt0) l -> rinv ph [] rt H C (targets l ++ R) -> calm rt -> releases H C R (drops d l rt).
Proof using .
  revert rt H. induction l as [|f l IH]; intros rt H Hd Hok Hi Hc; cbn [drops]; [by apply releases_here|]. apply Forall_cons in Hok as [Hf Hok].
  rewrite targets_cons, <- app_assoc in Hi. destruct (Hd f rt H C (targets l ++ R) ltac:(by left) Hf Hi Hc) as (rt1 & H1 & -> & Hi1 & Hc1 & Hs1). cbn [mbind option_bind].
  destruct (IH rt1 H1) as (rt2 & H2 & -> & Hi2 & Hc2 & Hs2); [intros; apply Hd; [by right|assumption..]|exact Hok|exact Hi1|exact Hc1|].
  exists rt2, H2. split_and!; [done|exact Hi2|exact Hc2|auto].
Qed.

(** The end of an object freed with its last reference. *)
Lemma releases_end H C R p x : p ∈ H -> p ∉ C -> releases (drop_link p H) (p :: C) R x -> releases H C R (rt ← x; js_free_rt p (list_del p rt)).
Proof using .
  intros HpH HpC (rt2 & H2 & -> & Hi2 & Hc2 & Hs2). cbn [mbind option_bind]. destruct (end_release _ rt2 H2 C R p Hi2 HpC) as (rt3 & -> & Hi3 & Hz). exists rt3, H2. split_and!; [done|exact Hi3| |].
  - intros E. rewrite Hz, (Hc2 E). done.
  - intros q Hq. apply Hs2, drop_link_elem in Hq as [_ Hq]. done.
Qed.

Lemma in_H_body rt H C R p o : rinv ph [] rt H C (p :: R) -> heap rt !! p = Some o -> exists o0, heap rt0 !! p = Some o0 /\ body o = body o0.
Proof using . intros Hi Ho. apply (ri_body _ _ _ _ _ _ Hi p o); [|done]. apply (ri_safe _ _ _ _ _ _ Hi). rewrite elem_of_app, elem_of_cons. by right; left. Qed.

Lemma release_var_ref p rt H C R : fref_ok rt0 (F_var_ref p) -> rinv ph [] rt H C (mark_opt p ++ R) -> calm rt -> releases H C R (free_var_ref free_zero p rt).
Proof using All.
  intros Hv Hi Hc. destruct p as [p|]; cbn [mark_opt app free_var_ref] in *; [|by apply releases_here].
  destruct (rinv_obj _ _ _ _ _ Hi) as [o Ho]. rewrite Ho. cbn [mbind option_bind]. destruct (drop_last rt H C R p o Hi Hc (has_type_passive rt0 _ _ Hv eq_refl) Ho) as [Hpos [(Hn & Hrel)|(Hn & HpH & HpC & l & Hl & Hok & Hi1)]]; replace (ref_count o >? 0) with true by lia.
  - by replace (ref_count o - 1 =? 0) with false by lia.
  - replace (ref_count o - 1 =? 0) with true by lia. apply releases_end; [done|done|]. destruct (in_H_body _ _ _ _ _ _ Hi Ho) as (o0 & Ho0 & Hb). destruct Hv as (o0' & E & Ht). rewrite Ho0 in E. injection E as <-.
    unfold frees in Hl. rewrite Ho0 in Hl. cbn [mbind option_bind] in Hl. rewrite Hb. unfold gc_obj_type in Ht. destruct (body o0) as [| | |[] value async_func| |]; try discriminate Ht; injection Hl as <-.
    + apply Forall_cons in Hok as [Hok _]. apply release_value; [done| |done]. unfold targets in Hi1. cbn in Hi1. by rewrite app_nil_r in Hi1.
    + destruct async_func as [s|]; cbn [mark_opt fmap list_fmap] in *; [|by apply releases_here]. apply Forall_cons in Hok as [Hok _]. by apply release_async.
Qed.

Lemma release_shape p rt H C R : fref_ok rt0 (F_shape p) -> rinv ph [] rt H C (p :: R) -> calm rt -> releases H C R (js_free_shape free_zero p rt).
Proof using All.
  intros Hv Hi Hc. unfold js_free_shape. destruct (rinv_obj _ _ _ _ _ Hi) as [o Ho]. rewrite Ho. cbn [mbind option_bind].
  destruct (drop_last rt H C R p o Hi Hc (has_type_passive rt0 _ _ Hv eq_refl) Ho) as [Hpos [(Hn & Hrel)|(Hn & HpH & HpC & l & Hl & Hok & Hi1)]]; [by replace (ref_count o - 1 <=? 0) with false by lia|].
  replace (ref_count o - 1 <=? 0) with true by lia. unfold js_free_shape0. cbn [set_heap heap]. rewrite lookup_insert_eq. cbn [mbind option_bind set_ref_count ref_count body].
  replace (ref_count o - 1 =? 0) with true by lia. apply releases_end; [done|done|]. destruct (in_H_body _ _ _ _ _ _ Hi Ho) as (o0 & Ho0 & Hb). destruct Hv as (o0' & E & Ht). rewrite Ho0 in E. injection E as <-.
  unfold frees in Hl. rewrite Ho0 in Hl. cbn [mbind option_bind] in Hl. rewrite Hb. unfold gc_obj_type in Ht. destruct (body o0) as [| |[proto|] prs| | |]; try discriminate Ht; injection Hl as <-.
  - apply Forall_cons in Hok as [Hok _]. by apply release_value.
  - by apply releases_here.
Qed.

Lemma release0 f rt H C R : (forall p, f <> F_context p) -> fref_ok rt0 f -> rinv ph [] rt H C (ptr_of f ++ R) -> calm rt -> releases H C R (drop0 free_zero f rt).
Proof using All.
  intros Hc Hf Hi Hcalm. destruct f; cbn [drop0 ptr_of app] in *; [by apply release_value|by apply release_async|by apply release_var_ref|by apply release_shape|by destruct (Hc p)].
Qed.

Lemma release_context p rt H C R : fref_ok rt0 (F_context p) -> rinv ph [] rt H C (p :: R) -> calm rt -> releases H C R (JS_FreeContext free_zero p rt).
Proof using All.
  intros Hv Hi Hc. unfold JS_FreeContext. destruct (rinv_obj _ _ _ _ _ Hi) as [o Ho]. rewrite Ho. cbn [mbind option_bind].
  destruct (drop_last rt H C R p o Hi Hc (has_type_passive rt0 _ _ Hv eq_refl) Ho) as [Hpos [(Hn & Hrel)|(Hn & HpH & HpC & l & Hl & Hok & Hi1)]]; [by replace (ref_count o - 1 >? 0) with true by lia|].
  replace (ref_count o - 1 >? 0) with false by lia. replace (ref_count o - 1 =? 0) with true by lia.
  destruct (in_H_body _ _ _ _ _ _ Hi Ho) as (o0 & Ho0 & Hb). destruct Hv as (o0' & E & Ht). rewrite Ho0 in E. injection E as <-.
  unfold frees in Hl. rewrite Ho0 in Hl. cbn [mbind option_bind] in Hl. rewrite Hb. unfold gc_obj_type in Ht. destruct (body o0) as [| | | | |ctx]; try discriminate Ht; injection Hl as <-.
  apply releases_end; [done|done|]. eapply releases_list; [|done|exact Hi1|done]. intros f rt2 H2 C2 R2 Hf Hfo Hfi Hfc. apply release0; [|done|done|done]. intros q. by eapply context_frees_no_context.
Qed.

Lemma release_ref f rt H C R : fref_ok rt0 f -> rinv ph [] rt H C (ptr_of f ++ R) -> calm rt -> releases H C R (drop_ref free_zero f rt).
Proof using All. intros Hf Hi Hc. destruct f; cbn [drop_ref] in *; [by apply release0..|]. by apply release_context. Qed.

Lemma release_refs l rt H C R : Forall (fref_ok rt0) l -> rinv ph [] rt H C (targets l ++ R) -> calm rt -> releases H C R (drops (drop_ref free_zero) l rt).
Proof using All. intros Hl Hi Hc. apply releases_list; [|done|done|done]. intros f rt1 H1 C1 R1 _. apply release_ref. Qed.
End phase.

(** ** [free_zero_refcount] *)

Lemma set_phase_rinv ph ph' rt H C R : rinv ph [] rt H C R -> (forall p, p ∈ C -> passive p) -> rinv ph' [] (set_phase ph' rt) H C R.
Proof using . intros Hi HC. destruct Hi. split; cbn [set_phase gc_phase class_array gc_obj_list heap gc_zero_ref_count_list]; try assumption; [done|auto]. Qed.

(** The result of freeing the object [p]. *)
Definition freed (H C R : list Z) (p : Z) (x : option JSRuntime) : Prop :=
  exists rt' H', x = Some rt' /\ rinv JS_GC_PHASE_DECREF [] rt' H' C R /\ (forall q, q ∈ H' -> q ∈ drop_link p H).

Notation nested := (fun _ : JSRuntime => None).

Lemma nested_refs l rt H C R : Forall (fref_ok rt0) l -> rinv JS_GC_PHASE_DECREF [] rt H C (targets l ++ R) ->
  exists rt' H', drops (drop_ref nested) l rt = Some rt' /\ rinv JS_GC_PHASE_DECREF [] rt' H' C R /\ (forall q, q ∈ H' -> q ∈ H).
Proof using Hready Hext Hfrees.
  intros Hl Hi. destruct (release_refs JS_GC_PHASE_DECREF nested ltac:(done) ltac:(done) l rt H C R Hl Hi ltac:(done)) as (rt' & H' & E & Hi' & _ & Hs). exists rt', H'. by split_and!.
Qed.

Lemma freed_end rt H1 H C R p : rinv JS_GC_PHASE_DECREF [] rt H1 (p :: C) R -> p ∉ C -> (forall q, q ∈ H1 -> q ∈ drop_link p H) -> freed H C R p (free_or_keep p rt).
Proof using .
  intros Hi HpC Hs. destruct (end_release _ rt H1 C R p Hi HpC) as (rt' & E & Hi' & _). exists rt', H1. split_and!; [|done|done].
  unfold free_or_keep. destruct (proj2 (ri_dom _ _ _ _ _ _ Hi p)) as [o Ho]; [right; by left|]. cbn [list_del set_lists heap]. rewrite Ho. cbn [mbind option_bind].
  change (gc_phase (list_del p rt)) with (gc_phase rt). rewrite (ri_phase _ _ _ _ _ _ Hi). exact E.
Qed.

(** The head of the list starts to drop its references. *)
Lemma release_start rt H C R p : rinv JS_GC_PHASE_DECREF [] rt H C R -> (forall q, q ∈ C -> passive q) -> p ∈ gc_zero_ref_count_list rt ->
  exists o o0 l, heap rt !! p = Some o /\ ref_count o = 0 /\ heap rt0 !! p = Some o0 /\ freeable (gc_obj_type o0) = true /\ body o = body o0 /\ p ∉ C /\
    frees rt0 p = Some l /\ Forall (fref_ok rt0) l /\ p ∈ H /\ rinv JS_GC_PHASE_DECREF [] rt (drop_link p H) (p :: C) (targets l ++ R).
Proof using Hready Hext Hfrees.
  intros Hi HC Hp. destruct (ri_zero _ _ _ _ _ _ Hi p Hp) as [Hnp Hz]. assert (is_Some (heap rt !! p)) as [o Ho] by (apply (ri_listed _ _ _ _ _ _ Hi), elem_of_app; by right).
  assert (p ∉ C) as HpC by (intros F; by apply Hnp, HC). assert (p ∈ H) as HpH by (destruct (proj1 (ri_dom _ _ _ _ _ _ Hi p) ltac:(eauto)); done).
  destruct (ri_body _ _ _ _ _ _ Hi p o HpH Ho) as (o0 & Ho0 & Hb). pose proof (H_in_L _ _ _ _ _ _ p Hi HpH) as HpL. pose proof (Hext p HpL). pose proof (cnt_nonneg p (all_refs H ++ R)).
  destruct (Hfrees p HpL ltac:(lia)) as (l & Hl & Hok & Hperm). exists o, o0, l. split_and!; try assumption.
  - rewrite (ri_rc _ _ _ _ _ _ Hi p o Ho). lia.
  - destruct (freeable (gc_obj_type o0)) eqn:Hf; [done|]. exfalso. apply Hnp. by exists o0.
  - eapply rinv_perm; [|eapply begin_release; [exact Hi|done|by intros q F%not_elem_of_nil|done|done]]. by rewrite Hperm.
Qed.

Lemma release_object rt H C R p o o0 class_id shape prop u l : body o0 = B_JS_OBJECT class_id shape prop u -> heap rt0 !! p = Some o0 -> heap rt !! p = Some o -> body o = body o0 ->
  p ∉ C -> frees rt0 p = Some l -> Forall (fref_ok rt0) l -> rinv JS_GC_PHASE_DECREF [] rt (drop_link p H) (p :: C) (targets l ++ R) -> freed H C R p (free_object nested p rt).
Proof using Hready Hext Hfrees.
  intros Hb0 Ho0 Eo Hb HpC Hl Hok Hi. unfold free_object. rewrite Eo. cbn [mbind option_bind]. rewrite Hb, Hb0. unfold frees in Hl. rewrite Ho0 in Hl. cbn [mbind option_bind] in Hl. rewrite Hb0 in Hl.
  destruct shape as [sh|]; [|done]. cbn [mbind option_bind] in Hl. unfold obj_frees in Hl. destruct (heap rt0 !! sh) as [s0|] eqn:Hs0; [|done]. cbn [mbind option_bind] in Hl.
  destruct (match body s0 with B_SHAPE _ _ => _ | _ => _ end) as [fields|] eqn:Hfields; [|done]. cbn [mbind option_bind] in Hl.
  destruct (rd (class_array rt0) class_id) as [c|] eqn:Hc; [|done]. cbn [mbind option_bind] in Hl.
  destruct (match finalizer c with Some _ => _ | None => _ end) as [data|] eqn:Hdata; [|done]. cbn [mbind option_bind] in Hl. injection Hl as <-.
  apply Forall_app in Hok as [Hok1 Hok]. apply Forall_cons in Hok as [Hsh Hok2]. rewrite targets_app, targets_cons, <- app_assoc in Hi. cbn [ptr_of app] in Hi.
  assert (sh ∈ drop_link p H) as HshH by (apply (ri_safe _ _ _ _ _ _ Hi); rewrite !elem_of_app, elem_of_cons; by right; right; left).
  destruct (proj2 (ri_dom _ _ _ _ _ _ Hi sh) (or_introl HshH)) as [s Hs]. destruct (ri_body _ _ _ _ _ _ Hi sh s HshH Hs) as (s0' & E & Hsb). rewrite Hs0 in E. injection E as <-.
  rewrite Hs. cbn [mbind option_bind]. rewrite Hsb, Hfields. cbn [mbind option_bind].
  destruct (nested_refs _ _ _ _ _ Hok1 Hi) as (rt1 & H1 & -> & Hi1 & Hsub1). cbn [mbind option_bind].
  destruct (release_shape JS_GC_PHASE_DECREF nested ltac:(done) ltac:(done) sh rt1 H1 (p :: C) (targets data ++ R) Hsh Hi1 ltac:(done)) as (rt2 & H2 & -> & Hi2 & _ & Hsub2). cbn [mbind option_bind].
  assert (forall rt H R, rinv JS_GC_PHASE_DECREF [] rt H (p :: C) R -> forall class_id u, exists rt', alter_obj (fun o => Some (set_body (B_JS_OBJECT class_id None [] u) o)) p rt = Some rt' /\ rinv JS_GC_PHASE_DECREF [] rt' H (p :: C) R) as Halter.
  { intros rta Ha Ra Hia ci ua. destruct (proj2 (ri_dom _ _ _ _ _ _ Hia p)) as [oa Hoa]; [right; by left|]. destruct (ri_type _ _ _ _ _ _ Hia p oa Hoa) as (o0' & E & Hty & _). rewrite Ho0 in E. injection E as <-.
    destruct (alter_current _ _ _ _ _ p oa (B_JS_OBJECT ci None [] ua) Hia Hoa) as (rt' & E' & Hi' & _); [rewrite Hty; unfold gc_obj_type; by rewrite Hb0|eauto]. }
  destruct (Halter _ _ _ Hi2 class_id u) as (rt3 & -> & Hi3). cbn [mbind option_bind]. rewrite (ri_class _ _ _ _ _ _ Hi3), Hc. cbn [mbind option_bind].
  assert ((match finalizer c with Some f => call_finalizer (heap rt3) f u | None => Some [] end) = Some data) as ->.
  { destruct (finalizer c) as [f|]; [|done]. apply (call_finalizer_later rt0); [done|]. intros b ob Hbt Hob _.
    assert (b ∈ H2) as HbH by (apply (ri_safe _ _ _ _ _ _ Hi3); rewrite !elem_of_app; by right; left). destruct (proj2 (ri_dom _ _ _ _ _ _ Hi3 b) (or_introl HbH)) as [o3 Ho3].
    destruct (ri_body _ _ _ _ _ _ Hi3 b o3 HbH Ho3) as (ob' & E & Eb). rewrite Hob in E. injection E as <-. eauto. }
  cbn [mbind option_bind]. destruct (nested_refs _ _ _ _ _ Hok2 Hi3) as (rt4 & H4 & -> & Hi4 & Hsub4). cbn [mbind option_bind].
  destruct (Halter _ _ _ Hi4 0 U_null) as (rt5 & -> & Hi5). cbn [mbind option_bind]. eapply freed_end; [exact Hi5|done|]. auto.
Qed.

Lemma release_turn rt H C R p : rinv JS_GC_PHASE_DECREF [] rt H C R -> (forall q, q ∈ C -> passive q) -> p ∈ gc_zero_ref_count_list rt ->
  (exists o, heap rt !! p = Some o /\ ref_count o = 0) /\ p ∈ H /\ freed H C R p (free_gc_object nested p rt).
Proof using Hready Hext Hfrees.
  intros Hi HC Hp. destruct (release_start rt H C R p Hi HC Hp) as (o & o0 & l & Ho & Hrc & Ho0 & Hf & Hb & HpC & Hl & Hok & HpH & Hi1). split_and!; [eauto|done|].
  unfold free_gc_object. rewrite Ho. cbn [mbind option_bind]. unfold gc_obj_type in *. rewrite Hb. destruct (body o0) as [class_id shape prop u|cpool realm n| | |ic cf tv ab sp rf|] eqn:Hb0; try discriminate Hf.
  - eapply (release_object rt H C R p o o0); [exact Hb0|exact Ho0|exact Ho|by rewrite Hb0|exact HpC|exact Hl|exact Hok|exact Hi1].
  - unfold free_function_bytecode. rewrite Ho. cbn [mbind option_bind]. rewrite Hb. unfold frees in Hl. rewrite Ho0 in Hl. cbn [mbind option_bind] in Hl. rewrite Hb0 in Hl. injection Hl as <-.
    destruct (nested_refs _ _ _ _ _ Hok Hi1) as (rt1 & H1 & -> & Hi2 & Hs). cbn [mbind option_bind]. by eapply freed_end.
  - unfold async_func_free_obj. rewrite Ho. cbn [mbind option_bind]. rewrite Hb. unfold frees in Hl. rewrite Ho0 in Hl. cbn [mbind option_bind] in Hl. rewrite Hb0 in Hl.
    destruct (if ic then _ else _) as [frame|]; [|done]. cbn [mbind option_bind] in Hl |- *. injection Hl as <-. destruct (nested_refs _ _ _ _ _ Hok Hi1) as (rt1 & H1 & -> & Hi2 & Hs). cbn [mbind option_bind].
    destruct (proj2 (ri_dom _ _ _ _ _ _ Hi2 p)) as [o1 Ho1]; [right; by left|]. destruct (ri_type _ _ _ _ _ _ Hi2 p o1 Ho1) as (o0' & E & Hty & _). rewrite Ho0 in E. injection E as <-.
    destruct (alter_current _ _ _ _ _ p o1 (B_ASYNC_FUNCTION ic cf tv (if ic then ab else None) sp rf) Hi2 Ho1) as (rt2 & -> & Hi3 & _); [rewrite Hty; unfold gc_obj_type; by rewrite Hb0|].
    cbn [mbind option_bind]. by eapply freed_end.
Qed.

Lemma zero_loop fuel rt H C R : rinv JS_GC_PHASE_DECREF [] rt H C R -> (forall q, q ∈ C -> passive q) -> (length H < fuel)%nat ->
  releases JS_GC_PHASE_NONE H C R (loop fuel free_zero_body rt).
Proof using Hready Hext Hfrees.
  revert rt H. induction fuel as [|fuel IH]; intros rt H Hi HC Hf; [lia|]. cbn [loop]. unfold free_zero_body at 1. destruct (gc_zero_ref_count_list rt) as [|p z] eqn:Hz.
  - exists (set_phase JS_GC_PHASE_NONE rt), H. split_and!; [done|by eapply set_phase_rinv|by intros _|done].
  - destruct (release_turn rt H C R p Hi HC ltac:(rewrite Hz; by left)) as ((o & Ho & Hrc) & HpH & rt' & H' & E & Hi' & Hs). rewrite Ho. cbn [mbind option_bind]. rewrite Hrc. cbn [Z.eqb]. rewrite E. cbn [mbind option_bind].
    destruct (IH rt' H' Hi' HC) as (rt2 & H2 & -> & Hi2 & Hc2 & Hs2).
    + apply NoDup_submseteq in Hs; [|apply Hi']. apply submseteq_length in Hs. pose proof (Permutation_length (drop_link_perm p H (ri_nodup _ _ _ _ _ _ Hi) HpH)) as Hlen. simpl in Hlen. lia.
    + exists rt2, H2. split_and!; [done|done|done|]. intros q Hq. apply Hs2, Hs, drop_link_elem in Hq as [_ Hq]. done.
Qed.

Lemma rinv_size ph E rt H C R : rinv ph E rt H C R -> (length H <= size (heap rt))%nat.
Proof using .
  intros Hi. rewrite <- size_dom, <- (size_list_to_set (C := gset Z) H) by apply Hi. apply subseteq_size. intros p Hp. apply elem_of_list_to_set in Hp. apply elem_of_dom, (ri_dom _ _ _ _ _ _ Hi). by left.
Qed.

Lemma free_zero_spec rt H C R : rinv JS_GC_PHASE_NONE [] rt H C R -> releases JS_GC_PHASE_NONE H C R (free_zero_refcount rt).
Proof using Hready Hext Hfrees.
  intros Hi. unfold free_zero_refcount. assert (forall q, q ∈ C -> passive q) as HC by (intros q; by apply (ri_now _ _ _ _ _ _ Hi)). apply zero_loop; [by eapply set_phase_rinv|done|].
  pose proof (rinv_size _ _ _ _ _ _ Hi). lia.
Qed.
End count.

(** ** Theorems *)

(** The caller owns the reference it drops, and not the one of a function that
    runs. *)
Definition may_drop (rt : JSRuntime) (f : fref) : Prop :=
  fref_ok rt f /\ forall p, p ∈ ptr_of f -> 0 < external rt p /\ (running rt p -> 1 < external rt p).

Lemma ptr_of_once f p : cnt p (ptr_of f) = 0 \/ cnt p (ptr_of f) = 1 /\ p ∈ ptr_of f.
Proof.
  assert (length (ptr_of f) <= 1)%nat as Hlen by (destruct f as [[]| |[]| |]; cbn; lia). destruct (ptr_of f) as [|q [|]]; [by left| |simpl in Hlen; lia].
  rewrite cnt_cons. change (cnt p []) with 0. destruct (decide (q = p)) as [-> |]; [rewrite bool_decide_eq_true_2 by done; right; split; [done|by left]|rewrite bool_decide_eq_false_2 by done; by left].
Qed.

Section drop.
Context (rt : JSRuntime) (f : fref) (Hready : gc_ready rt) (Hwf : heap_wf rt) (Hphase : gc_phase rt = JS_GC_PHASE_NONE) (Hf : may_drop rt f).

Lemma ext_drop p : p ∈ gc_obj_list rt -> 0 <= ext rt (ptr_of f) p <= external rt p /\ (running rt p -> 0 < ext rt (ptr_of f) p).
Proof using Hready Hwf Hf.
  intros Hp. pose proof (ready_count rt Hready p Hp). pose proof (wf_running rt Hwf p) as Hrun. unfold ext. destruct (ptr_of_once f p) as [-> |[-> Hin]]; [split; [lia|intros Hr; specialize (Hrun Hr); lia]|].
  destruct (proj2 Hf p Hin) as [H1 H2]. split; [lia|intros Hr; specialize (H2 Hr); lia].
Qed.

Lemma drop_frees p : p ∈ gc_obj_list rt -> ext rt (ptr_of f) p = 0 -> frees_ok rt p.
Proof using Hready Hwf Hf.
  intros Hp He. destruct (frees_match rt Hwf p (children_refs rt Hready p Hp)) as [(l & Hl & Hperm)|[_ Hr]].
  - exists l. split_and!; [done|by apply (wf_types rt Hwf p)|done].
  - destruct (ext_drop p Hp) as [_ Hpos]. specialize (Hpos Hr). lia.
Qed.

Lemma fref_ok_in p : p ∈ ptr_of f -> p ∈ gc_obj_list rt.
Proof using Hready Hf.
  intros Hp. apply Hready. destruct Hf as [Hok _]. destruct f as [[q|q|]|q|[q|]|q|q]; cbn [ptr_of JS_MarkValue mark_opt fref_ok] in *; try (by apply not_elem_of_nil in Hp);
    apply list_elem_of_singleton in Hp as ->; destruct Hok as (o & Ho & _); eauto.
Qed.

Lemma drop_start : rinv rt (ptr_of f) JS_GC_PHASE_NONE [] rt (gc_obj_list rt) [] (ptr_of f ++ []).
Proof using All.
  assert (forall p o, heap rt !! p = Some o -> ref_count o = ext rt (ptr_of f) p + cnt p (all_refs rt (gc_obj_list rt) ++ ptr_of f ++ [])) as Hrc.
  { intros p o Ho. unfold ext. pose proof (rcf_start rt p o Ho) as Hr. unfold rcf in Hr. rewrite app_nil_r, cnt_app. lia. }
  split.
  - done.
  - done.
  - apply Hready.
  - intros p. rewrite <- (ready_dom rt Hready). split; [by left|by intros [?|F%not_elem_of_nil]].
  - intros p o _ Ho. by exists o.
  - intros p o Ho. exists o. split_and!; [done|done|by apply (ready_mark rt Hready p)].
  - exact Hrc.
  - intros q Hq. rewrite app_nil_r in Hq. apply elem_of_app in Hq as [Hq|Hq]; [by apply (all_refs_in rt Hready (gc_obj_list rt))|by apply fref_ok_in].
  - rewrite (ready_zero rt Hready), app_nil_r. apply Hready.
  - intros p. rewrite (ready_zero rt Hready), app_nil_r. apply Hready.
  - rewrite (ready_zero rt Hready). by intros p F%not_elem_of_nil.
  - intros p Hp _ _. apply (ready_dom rt Hready) in Hp as [o Ho]. rewrite <- (Hrc p o Ho). by apply (wf_count rt Hwf p).
  - by intros p F%not_elem_of_nil.
  - by intros p _ F%not_elem_of_nil.
  - by intros p ? ?.
Qed.

Lemma drop_ref_kept : exists rt', drop_ref free_zero_refcount f rt = Some rt' /\ gc_phase rt' = JS_GC_PHASE_NONE /\ kept rt (ext rt (ptr_of f)) rt' /\
  (forall p, is_Some (heap rt' !! p) <-> is_Some (heap rt !! p) /\ ~ released rt (ptr_of f) p).
Proof using All.
  assert (forall p, p ∈ gc_obj_list rt -> 0 <= ext rt (ptr_of f) p) as Hext by (intros p Hp; by destruct (ext_drop p Hp) as [[? _] _]).
  destruct (release_ref rt Hready (ptr_of f) Hext drop_frees JS_GC_PHASE_NONE free_zero_refcount ltac:(done) (fun _ => free_zero_spec rt Hready (ptr_of f) Hext drop_frees) f rt (gc_obj_list rt) [] [])
    as (rt' & H & E & Hi & Hc & Hs); [apply Hf|exact drop_start|intros _; apply Hready|]. specialize (Hc eq_refl).
  assert (forall p, is_Some (heap rt' !! p) <-> p ∈ H) as Hdom by (intros p; rewrite (ri_dom _ _ _ _ _ _ _ _ Hi); split; [by intros [?|F%not_elem_of_nil]|by left]).
  assert (forall p, p ∈ gc_obj_list rt' <-> p ∈ H) as Hlist by (intros p; pose proof (ri_listed _ _ _ _ _ _ _ _ Hi p) as Hl; rewrite Hc, app_nil_r in Hl; by rewrite Hl).
  assert (NoDup (gc_obj_list rt')) as Hnd by (pose proof (ri_lists _ _ _ _ _ _ _ _ Hi) as Hn; by rewrite Hc, app_nil_r in Hn).
  assert (gc_obj_list rt' ≡ₚ H) as HP by (apply NoDup_Permutation; [done|apply Hi|done]).
  assert (forall p, cnt p (all_refs rt H ++ []) = cnt p (all_refs rt (gc_obj_list rt'))) as Hcnt by (intros p; rewrite app_nil_r; symmetry; by apply cnt_perm, all_refs_perm).
  exists rt'. split_and!; [done|apply Hi| |].
  - split.
    + done.
    + intros p. by rewrite Hdom.
    + intros p q Hp Hq. apply Hlist, (ri_safe _ _ _ _ _ _ _ _ Hi). apply Hlist, list_elem_of_split in Hp as (a & b & ->). rewrite app_nil_r, (all_refs_app rt), (all_refs_cons rt), !elem_of_app. by right; left.
    + intros p o' Ho'. assert (p ∈ H) as Hp by (apply Hdom; eauto). destruct (ri_body _ _ _ _ _ _ _ _ Hi p o' Hp Ho') as (o & Ho & Hb). destruct (ri_type _ _ _ _ _ _ _ _ Hi p o' Ho') as (_ & _ & _ & Hm).
      exists o. split_and!; [done|done|done|]. by rewrite (ri_rc _ _ _ _ _ _ _ _ Hi p o' Ho'), Hcnt.
    + intros p o' Ho'. rewrite (ri_rc _ _ _ _ _ _ _ _ Hi p o' Ho'). apply (ri_pos _ _ _ _ _ _ _ _ Hi); [apply Hdom; eauto|apply not_elem_of_nil|rewrite Hc; apply not_elem_of_nil].
    + intros p Hp. by apply ext_drop, Hs, Hlist.
    + intros p Hp. by apply ext_drop, Hs, Hlist.
    + done.
    + apply Hi.
  - intros p. rewrite Hdom, <- (ready_dom rt Hready). split.
    + intros Hp. split; [by apply Hs|]. intros Hrel. revert Hp. induction Hrel as [p HpL He IH] using released_rec'. intros Hp.
      pose proof (ri_pos _ _ _ _ _ _ _ _ Hi p Hp (not_elem_of_nil p) ltac:(rewrite Hc; apply not_elem_of_nil)) as Hpos. unfold ext in Hpos. rewrite app_nil_r in Hpos.
      assert (0 < cnt p (all_refs rt H)) as Hin%cnt_elem by lia. apply list_elem_of_In, in_concat in Hin as (x & Hx & Hq). apply list_elem_of_In in Hx, Hq. apply list_elem_of_fmap in Hx as (q & -> & HqH).
      exact (IH q (Hs q HqH) Hq HqH).
    + intros [HpL Hnr]. destruct (decide (p ∈ H)); [done|]. exfalso. apply Hnr. by apply (ri_gone _ _ _ _ _ _ _ _ Hi).
Qed.
End drop.

(** C6. Outside a collection, dropping a reference ([JS_FreeValueRT],
    [async_func_free], [free_var_ref], [js_free_shape] or [JS_FreeContext])
    succeeds and frees exactly the objects that nothing refers to any more: those
    without other references from outside that only such objects refer to.  No
    other object changes but in its count. *)
Theorem drop_ref_releases rt f : gc_ready rt -> heap_wf rt -> gc_phase rt = JS_GC_PHASE_NONE -> may_drop rt f ->
  exists rt', drop_ref free_zero_refcount f rt = Some rt' /\ gc_phase rt' = JS_GC_PHASE_NONE /\
    (forall p, is_Some (heap rt' !! p) <-> is_Some (heap rt !! p) /\ ~ released rt (ptr_of f) p) /\
    forall p o', heap rt' !! p = Some o' -> exists o, heap rt !! p = Some o /\ body o' = body o /\
      ref_count o' = external rt p - cnt p (ptr_of f) + cnt p (all_refs rt (gc_obj_list rt')).
Proof.
  intros Hr Hw Hph Hf. destruct (drop_ref_kept rt f Hr Hw Hph Hf) as (rt' & E & Hph' & Hk & Hdom). exists rt'. split_and!; [done|done|done|].
  intros p o' Ho'. destruct (kp_object _ _ _ Hk p o' Ho') as (o & Ho & Hb & _ & Hc). by exists o.
Qed.

(** C7. Reference counting keeps the invariant of the heap: after a drop counts
    agree with references again, no object refers to a freed one, every reference
    leads to an object of the type of its field, and what is left can be
    collected. *)
Theorem drop_ref_keeps_heap_wf rt f : gc_ready rt -> heap_wf rt -> gc_phase rt = JS_GC_PHASE_NONE -> may_drop rt f ->
  exists rt', drop_ref free_zero_refcount f rt = Some rt' /\ gc_ready rt' /\ heap_wf rt' /\
    forall p, p ∈ gc_obj_list rt' -> external rt' p = external rt p - cnt p (ptr_of f).
Proof.
  intros Hr Hw Hph Hf. destruct (drop_ref_kept rt f Hr Hw Hph Hf) as (rt' & E & Hph' & Hk & Hdom). exists rt'.
  split_and!; [done|exact (kept_ready _ _ _ Hr Hk)|exact (kept_wf _ _ _ Hr Hw Hk)|]. intros p Hp. exact (kept_external _ _ _ Hr Hk p Hp).
Qed.

(** ** New objects *)

(** An object that is added with the references [l], which were held from
    outside, takes them over; the caller holds the only reference to it. *)
Theorem add_gc_object_takes_over rt h b l : gc_ready rt -> heap rt !! h = None ->
  children (add_gc_object rt h b 1) h = Some l -> (forall q, q ∈ l -> q ∈ gc_obj_list rt) -> (forall q, q ∈ gc_obj_list rt -> cnt q l <= external rt q) ->
  gc_ready (add_gc_object rt h b 1) /\ external (add_gc_object rt h b 1) h = 1 /\
  forall q, q ∈ gc_obj_list rt -> external (add_gc_object rt h b 1) q = external rt q - cnt q l.
Proof.
  intros Hr Hh Hl Hin Hown. set (rt' := add_gc_object rt h b 1) in *. assert (h ∉ gc_obj_list rt) as HhL by (intros [? F]%(ready_dom rt Hr); congruence).
  assert (gc_obj_list rt' = gc_obj_list rt ++ [h]) as EL by done. assert (heap rt' = <[h := GCObject 1 0 b]> (heap rt)) as EH by done.
  assert (forall q, q ∈ gc_obj_list rt -> heap rt' !! q = heap rt !! q) as Hold by (intros q Hq; rewrite EH, lookup_insert_ne by (by intros ->); done).
  assert (forall q, q ∈ gc_obj_list rt -> same_body rt rt' q) as Hsame by (intros q Hq; pose proof (Hold q Hq) as E; apply (ready_dom rt Hr) in Hq as [o Ho]; exists o, o; by rewrite E).
  assert (forall q, q ∈ gc_obj_list rt -> children rt' q = Some (refs rt q)) as Hch.
  { intros q Hq. apply children_same; [by apply children_refs|done|by apply Hsame|]. intros r Hr'. apply Hsame. by apply (ready_closed rt Hr q). }
  assert (refs rt' h = l) as Hrh by (unfold refs; by rewrite Hl). assert (forall q, q ∈ gc_obj_list rt -> refs rt' q = refs rt q) as Href by (intros q Hq; unfold refs at 1; by rewrite Hch).
  assert (forall q, cnt q (all_refs rt' (gc_obj_list rt')) = cnt q (all_refs rt (gc_obj_list rt)) + cnt q l) as Hcnt.
  { intros q. rewrite EL, (all_refs_snoc rt'), cnt_app, Hrh. f_equal. unfold all_refs. do 2 f_equal. apply list_fmap_ext. intros i p Hp. apply Href. by eapply list_elem_of_lookup_2. }
  assert (external rt' h = 1) as Hex.
  { unfold external. rewrite EH, lookup_insert_eq, Hcnt. cbn [ref_count]. assert (cnt h (all_refs rt (gc_obj_list rt)) = 0) as ->. { unfold cnt. rewrite (proj1 (count_occ_not_In Z.eq_dec _ _)); [done|]. intros F%list_elem_of_In. by apply HhL, (all_refs_in rt Hr (gc_obj_list rt)). }
    assert (cnt h l = 0) as ->; [|lia]. unfold cnt. rewrite (proj1 (count_occ_not_In Z.eq_dec _ _)); [done|]. intros F%list_elem_of_In. by apply HhL, Hin. }
  assert (forall q, q ∈ gc_obj_list rt -> external rt' q = external rt q - cnt q l) as Hexq by (intros q Hq; unfold external; rewrite (Hold q Hq), Hcnt; apply (ready_dom rt Hr) in Hq as [o ->]; lia).
  split_and!; [|done|done]. split; rewrite ?EL.
  - apply NoDup_app. split_and!; [apply Hr|by intros q Hq ->%list_elem_of_singleton|by apply NoDup_singleton].
  - intros p. rewrite elem_of_app, list_elem_of_singleton, EH, (ready_dom rt Hr). destruct (decide (p = h)) as [-> |]; [rewrite lookup_insert_eq; split; [eauto|by right]|rewrite lookup_insert_ne by done]. split; [by intros [?|?]|by left].
  - intros p o. rewrite EH. intros [[<- <-]|[_ Ho]]%lookup_insert_Some; [done|]. by apply (ready_mark rt Hr p).
  - intros p [Hp| ->%list_elem_of_singleton]%elem_of_app; [rewrite Hch by done|rewrite Hl]; eauto.
  - intros p q [Hp| ->%list_elem_of_singleton]%elem_of_app; rewrite elem_of_app; [rewrite Href by done; left; by apply (ready_closed rt Hr p)|rewrite Hrh; left; auto].
  - intros p [Hp| ->%list_elem_of_singleton]%elem_of_app; [rewrite Hexq by done; specialize (Hown p Hp); lia|rewrite Hex; lia].
  - intros p o. rewrite EH. intros [[<- <-]|[_ Ho]]%lookup_insert_Some; [done|]. by apply (ready_bound rt Hr p).
  - apply Hr.
Qed.

Lemma sample_may_drop : may_drop sample_rt (F_value (JS_TAG_OBJECT 3)).
Proof.
  split; [eexists; split; vm_compute; reflexivity|]. intros p ->%list_elem_of_singleton. split; [vm_compute; reflexivity|]. intros (o & cf & tv & ab & rf & Ho%sample_cases & Hb). sample_case Ho; discriminate Hb.
Qed.

Lemma drop_ref_releases_witness : exists rt', drop_ref free_zero_refcount (F_value (JS_TAG_OBJECT 3)) sample_rt = Some rt' /\
  forall p, is_Some (heap rt' !! p) <-> is_Some (heap sample_rt !! p) /\ ~ released sample_rt [3] p.
Proof. destruct (drop_ref_releases sample_rt (F_value (JS_TAG_OBJECT 3)) sample_ready sample_wf eq_refl sample_may_drop) as (rt' & E & _ & H & _). exists rt'. split; [exact E|exact H]. Defined.

Lemma drop_ref_keeps_heap_wf_witness : exists rt', drop_ref free_zero_refcount (F_value (JS_TAG_OBJECT 3)) sample_rt = Some rt' /\ gc_ready rt' /\ heap_wf rt'.
Proof. destruct (drop_ref_keeps_heap_wf sample_rt (F_value (JS_TAG_OBJECT 3)) sample_ready sample_wf eq_refl sample_may_drop) as (rt' & E & H1 & H2 & _). exists rt'. split; [exact E|split; [exact H1|exact H2]]. Defined.

(** Once the object 3 is dropped and the garbage collected, the heap is empty. *)
Example sample_emptied : (heap <$> (drop_ref free_zero_refcount (F_value (JS_TAG_OBJECT 3)) sample_rt ≫= JS_RunGC)) = Some ∅.
Proof. vm_compute. reflexivity. Qed.
