(* ===== verification/JsLines.v ===== *)
(** * The line table of a function (quickjs.c)

    The compiler records at which positions of the bytecode the line changes
    ([add_pc2line_info]) as long as there are slots for it, moves the positions
    when it shortens jumps ([resolve_labels]), encodes the differences in LEB128
    and short opcodes ([compute_pc2line_info]), and a backtrace decodes them
    ([find_line_num]). *)

From S2P Require Import Prelude CArray DynBuf.
Open Scope Z_scope.

(** ** Definitions *)

Section encode.
Context (realloc_func : realloc_t).

Definition leb128_body (st : dynbuf * Z) : option ((dynbuf * Z) + dynbuf) :=
  let '(s, v) := st in
  let a := Z.land v 127 in
  let v := Z.shiftr v 7 in
  if negb (v =? 0) then '(_, s) ← dbuf_putc realloc_func s (Z.lor a 128); Some (inl (s, v))
  else '(_, s) ← dbuf_putc realloc_func s a; Some (inr s).

Definition dbuf_put_leb128 (s : dynbuf) (v : Z) : option dynbuf := loop 5 leb128_body (s, v).

Definition dbuf_put_sleb128 (s : dynbuf) (v1 : Z) : option dynbuf :=
  let v := u32 v1 in
  dbuf_put_leb128 s (Z.lxor (u32 (2 * v)) (u32 (- Z.shiftr v 31))).
End encode.

(** [buf] and [buf_end] as positions; the result and [*pval]. *)
Fixpoint get_leb128_loop (n : nat) (mem : list Z) (buf ptr buf_end i v : Z) : option (Z * Z) :=
  match n with
  | O => Some (-1, 0)
  | S n =>
      if ptr >=? buf_end then Some (-1, 0)
      else
        a ← rd mem ptr;
        let v := Z.lor v (u32 (Z.shiftl (Z.land a 127) (i * 7))) in
        if Z.land a 128 =? 0 then Some (ptr + 1 - buf, v)
        else get_leb128_loop n mem buf (ptr + 1) buf_end (i + 1) v
  end.

Definition get_leb128 (mem : list Z) (buf buf_end : Z) : option (Z * Z) := get_leb128_loop 5 mem buf buf buf_end 0 0.

Definition get_sleb128 (mem : list Z) (buf buf_end : Z) : option (Z * Z) :=
  '(ret, val) ← get_leb128 mem buf buf_end;
  if ret <? 0 then Some (-1, 0)
  else Some (ret, s32 (Z.lxor (Z.shiftr val 1) (u32 (- Z.land val 1)))).

Definition PC2LINE_BASE : Z := -1.
Definition PC2LINE_RANGE : Z := 5.
Definition PC2LINE_OP_FIRST : Z := 1.
Definition PC2LINE_DIFF_PC_MAX : Z := (255 - PC2LINE_OP_FIRST) / PC2LINE_RANGE.

Record LineNumberSlot := Slot { slot_pc : Z; slot_line_num : Z }.

(** The part of [JSFunctionDef] that records lines; [size] is the number of
    allocated slots. *)
Record line_info := LineInfo {
  line_number_slots : list LineNumberSlot; line_number_size : Z;
  line_number_last_pc : Z; line_number_last : Z }.

Definition add_pc2line_info (s : line_info) (pc line_num : Z) : line_info :=
  if (zlen (line_number_slots s) <? line_number_size s) && (pc >=? line_number_last_pc s) && negb (line_num =? line_number_last s)
  then LineInfo (line_number_slots s ++ [Slot pc line_num]) (line_number_size s) pc line_num
  else s.

(** A jump whose operand is at [pos] loses [delta] bytes: what is behind [pos]
    moves. *)
Definition shift_pc (pos delta pc : Z) : Z := if pc >? pos then u32 (pc - delta) else pc.

Definition shrink_slots (s : line_info) (pos delta : Z) : line_info :=
  LineInfo ((fun e => Slot (shift_pc pos delta (slot_pc e)) (slot_line_num e)) <$> line_number_slots s)
    (line_number_size s) (line_number_last_pc s) (line_number_last s).

Section compute.
Context (realloc_func : realloc_t).

Definition pc2line_step (st : dynbuf * Z * Z) (slot : LineNumberSlot) : option (dynbuf * Z * Z) :=
  let '(s, last_line_num, last_pc) := st in
  let pc := slot_pc slot in
  let line_num := slot_line_num slot in
  if line_num <? 0 then Some st
  else
    let diff_pc := s32 (u32 (pc - last_pc)) in
    diff_line ← int_check (line_num - last_line_num);
    if (diff_line =? 0) || (diff_pc <? 0) then Some st
    else
      s ← (if (diff_line >=? PC2LINE_BASE) && (diff_line <? PC2LINE_BASE + PC2LINE_RANGE) && (diff_pc <=? PC2LINE_DIFF_PC_MAX)
           then '(_, s) ← dbuf_putc realloc_func s (u8 ((diff_line - PC2LINE_BASE) + diff_pc * PC2LINE_RANGE + PC2LINE_OP_FIRST)); Some s
           else
             '(_, s) ← dbuf_putc realloc_func s 0;
             s ← dbuf_put_leb128 realloc_func s (u32 diff_pc);
             dbuf_put_sleb128 realloc_func s diff_line);
      Some (s, line_num, pc).

Fixpoint pc2line_loop (st : dynbuf * Z * Z) (slots : list LineNumberSlot) : option (dynbuf * Z * Z) :=
  match slots with [] => Some st | slot :: slots => st ← pc2line_step st slot; pc2line_loop st slots end.

Definition compute_pc2line_info (line_num : Z) (s : line_info) : option dynbuf :=
  '(pc2line, _, _) ← pc2line_loop (dbuf_init, line_num, 0) (line_number_slots s); Some pc2line.
End compute.

(** The buffer of the function object: a buffer of size 0 was never allocated. *)
Definition pc2line_buf (s : dynbuf) : option (list Z) := if size s =? 0 then None else Some (contents s).

(** [p], [pc] and [line_num] of the loop; a table that ends within an entry
    gives the first line. *)
Definition find_line_body (mem : list Z) (p_end first_line pc_value : Z) (st : Z * Z * Z) : option ((Z * Z * Z) + Z) :=
  let '(p, pc, line_num) := st in
  if p <? p_end then
    op ← rd mem p;
    let p := p + 1 in
    let next p pc new_line_num := if pc_value <? u32 pc then Some (inr line_num) else Some (inl (p, pc, new_line_num)) in
    if op =? 0 then
      '(ret, val) ← get_leb128 mem p p_end;
      if ret <? 0 then Some (inr first_line)
      else
        let pc := s32 (u32 (pc + val)) in
        let p := p + ret in
        '(ret, v) ← get_sleb128 mem p p_end;
        if ret <? 0 then Some (inr first_line)
        else
          new_line_num ← int_check (line_num + v);
          next (p + ret) pc new_line_num
    else
      let op := u32 (op - PC2LINE_OP_FIRST) in
      let pc := s32 (u32 (pc + op / PC2LINE_RANGE)) in
      next p pc (s32 (u32 (line_num + op mod PC2LINE_RANGE + PC2LINE_BASE)))
  else Some (inr line_num).

(** [pc2line_buf] and [line_num] of a function that was not stripped. *)
Definition find_line_num (pc2line_buf : option (list Z)) (line_num pc_value : Z) : option Z :=
  match pc2line_buf with
  | None => Some (-1)
  | Some mem => loop (length mem + 1) (find_line_body mem (zlen mem) line_num pc_value) (0, 0, line_num)
  end.

(** ** LEB128 *)

Fixpoint leb128 (n : nat) (v : Z) : list Z :=
  match n with
  | O => []
  | S n => if v / 128 =? 0 then [v mod 128] else v mod 128 + 128 :: leb128 n (v / 128)
  end.

Definition zigzag (v : Z) : Z := if 0 <=? v then 2 * v else - 2 * v - 1.

Lemma land_127 v : Z.land v 127 = v mod 128.
Proof. exact (land_mod v 7 ltac:(lia)). Qed.

Lemma shiftr_7 v : Z.shiftr v 7 = v / 128.
Proof. by rewrite Z.shiftr_div_pow2 by lia. Qed.

Lemma lor_128 v : Z.lor (v mod 128) 128 = v mod 128 + 128.
Proof. exact (lor_add (v mod 128) 1 7 ltac:(lia) (Z.mod_pos_bound v 128 ltac:(lia))). Qed.

Lemma land_128 v : Z.land v 128 = (v / 128) mod 2 * 128.
Proof. exact (land_mask_shift v 1 7 ltac:(lia) ltac:(lia)). Qed.

Lemma zigzag_enc v : - 2 ^ 31 <= v < 2 ^ 31 -> Z.lxor (u32 (2 * u32 v)) (u32 (- Z.shiftr (u32 v) 31)) = zigzag v.
Proof.
  intros Hv. unfold zigzag, uwrap. rewrite Z.shiftr_div_pow2 by lia. destruct (Z.leb_spec 0 v) as [H|H].
  - rewrite (Z.mod_small v), (Z.mod_small (2 * v)), (Z.div_small v) by lia. apply Z.lxor_0_r.
  - rewrite <- (Z.mod_unique v (2 ^ 32) (-1) (v + 2 ^ 32)) by lia. rewrite <- (Z.div_unique (v + 2 ^ 32) (2 ^ 31) 1 (v + 2 ^ 31)) by lia.
    rewrite <- (Z.mod_unique (2 * (v + 2 ^ 32)) (2 ^ 32) 1 (2 * v + 2 ^ 32)) by lia. change ((- (1)) mod 2 ^ 32) with (2 ^ 32 - 1). rewrite (lxor_ones _ 32) by lia. lia.
Qed.

Lemma zigzag_dec v : - 2 ^ 31 <= v < 2 ^ 31 -> s32 (Z.lxor (Z.shiftr (zigzag v) 1) (u32 (- Z.land (zigzag v) 1))) = v.
Proof.
  intros Hv. unfold zigzag. rewrite Z.shiftr_div_pow2, land_1 by lia. change (2 ^ 1) with 2. destruct (Z.leb_spec 0 v) as [H|H].
  - rewrite Z.odd_mul. cbn [Z.odd andb Zb]. change (u32 (- 0)) with 0. rewrite Z.lxor_0_r. replace (2 * v / 2) with v by (apply (Z.div_unique _ _ _ 0); lia). apply swrap_id; [lia|unfold in_s; lia].
  - replace (-2 * v - 1) with (1 + 2 * (- v - 1)) by lia. rewrite Z.odd_add_mul_2. cbn [Z.odd Zb]. change (u32 (- (1))) with (2 ^ 32 - 1).
    replace ((1 + 2 * (- v - 1)) / 2) with (- v - 1) by (apply (Z.div_unique _ _ _ 1); lia). rewrite (lxor_ones _ 32) by lia.
    unfold swrap. rewrite <- (Z.mod_unique (2 ^ 32 - 1 - (- v - 1) + 2 ^ (32 - 1)) (2 ^ 32) 1 (v + 2 ^ 31)) by lia. lia.
Qed.

Lemma zigzag_range v : - 2 ^ 31 <= v < 2 ^ 31 -> 0 <= zigzag v < 2 ^ 32.
Proof. unfold zigzag. destruct (Z.leb_spec 0 v); lia. Qed.

Section put.
Context (realloc_func : realloc_t).

(** The bytes appended one by one. *)
Definition dbuf_bytes (s : dynbuf) (l : list Z) : option dynbuf := dbuf_puts realloc_func s ((fun c => [c]) <$> l).

Lemma dbuf_bytes_app s a b : dbuf_bytes s (a ++ b) = (s ← dbuf_bytes s a; dbuf_bytes s b).
Proof.
  unfold dbuf_bytes. revert s. induction a as [|c a IH]; intros s; [done|]. rewrite <- app_comm_cons, !fmap_cons. cbn [dbuf_puts]. destruct (dbuf_put _ _ _) as [[r s1]|]; [|done]. cbn [mbind option_bind]. apply IH.
Qed.

Lemma dbuf_bytes_one s c : dbuf_bytes s [c] = ('(_, s) ← dbuf_putc realloc_func s c; Some s).
Proof. unfold dbuf_bytes, dbuf_putc. cbn [fmap list_fmap dbuf_puts]. by destruct (dbuf_put _ _ _) as [[]|]. Qed.

Lemma put_leb128_loop n v s : 0 <= v < 2 ^ (7 * Z.of_nat n) -> (0 < n)%nat -> loop n (leb128_body realloc_func) (s, v) = dbuf_bytes s (leb128 n v).
Proof.
  revert v s. induction n as [|n IH]; intros v s Hv Hn; [lia|]. cbn [loop leb128]. unfold leb128_body at 1. rewrite land_127, shiftr_7, lor_128. unfold dbuf_bytes, dbuf_putc.
  destruct (v / 128 =? 0) eqn:E; cbn [negb].
  - cbn [fmap list_fmap dbuf_puts]. by destruct (dbuf_put _ _ _) as [[r s1]|].
  - rewrite fmap_cons. cbn [dbuf_puts]. destruct (dbuf_put _ _ _) as [[r s1]|]; [|done]. cbn [mbind option_bind].
    apply IH; [|destruct n; [change (2 ^ (7 * Z.of_nat 1)) with 128 in Hv; rewrite Z.div_small in E by lia; done|lia]].
    split; [apply Z.div_pos; lia|]. apply Z.div_lt_upper_bound; [lia|]. replace (7 * Z.of_nat (S n)) with (7 + 7 * Z.of_nat n) in Hv by lia. rewrite Z.pow_add_r in Hv by lia. lia.
Qed.

Lemma put_leb128 s v : 0 <= v < 2 ^ 32 -> dbuf_put_leb128 realloc_func s v = dbuf_bytes s (leb128 5 v).
Proof. intros Hv. apply put_leb128_loop; [|lia]. change (2 ^ (7 * Z.of_nat 5)) with (2 ^ 35). lia. Qed.

Lemma put_sleb128 s v : - 2 ^ 31 <= v < 2 ^ 31 -> dbuf_put_sleb128 realloc_func s v = dbuf_bytes s (leb128 5 (zigzag v)).
Proof. intros Hv. unfold dbuf_put_sleb128. rewrite zigzag_enc by done. apply put_leb128. by apply zigzag_range. Qed.
End put.

Lemma leb128_len n v : zlen (leb128 n v) <= Z.of_nat n.
Proof. revert v. induction n as [|n IH]; intros v; cbn [leb128]; [done|]. destruct (_ =? _); rewrite zlen_cons; [rewrite zlen_nil; lia|]. specialize (IH (v / 128)). lia. Qed.

Lemma get_leb128_enc n mem pre post v buf i acc : mem = pre ++ leb128 n v ++ post -> (0 < n)%nat -> 0 <= i -> 0 <= acc < 2 ^ (i * 7) -> 0 <= v -> v * 2 ^ (i * 7) < 2 ^ 32 -> v < 2 ^ (7 * Z.of_nat n) ->
  get_leb128_loop n mem buf (zlen pre) (zlen mem) i acc = Some (zlen pre + zlen (leb128 n v) - buf, acc + v * 2 ^ (i * 7)).
Proof.
  revert pre v i acc. induction n as [|n IH]; intros pre v i acc Hm Hn Hi Hacc Hv Hb Hvn; [lia|]. cbn [get_leb128_loop leb128] in *. pose proof (zlen_nonneg post). pose proof (Z.mod_pos_bound v 128 ltac:(lia)) as Hmod.
  assert (0 < 2 ^ (i * 7)) as Hp by lia. pose proof (Z.div_mod v 128 ltac:(lia)) as Hdm. pose proof (Z.div_pos v 128 ltac:(lia) ltac:(lia)) as Hdp.
  assert (Z.lor acc (u32 (Z.shiftl (v mod 128) (i * 7))) = acc + v mod 128 * 2 ^ (i * 7)) as Hlor.
  { rewrite Z.shiftl_mul_pow2 by lia. rewrite uwrap_id by (unfold in_u; nia). apply lor_add; lia. }
  assert ((v mod 128 + 128) mod 128 = v mod 128) as Hm128 by (rewrite <- (Z.mod_unique (v mod 128 + 128) 128 1 (v mod 128)); lia).
  assert (rd mem (zlen pre) = Some (if v / 128 =? 0 then v mod 128 else v mod 128 + 128)) as Hrd by (rewrite Hm; destruct (v / 128 =? 0); by rewrite <- app_comm_cons, rd_mid).
  assert (zlen pre < zlen mem) as Hlt by (apply rd_Some_range in Hrd; lia).
  replace (zlen pre >=? zlen mem) with false by lia. rewrite Hrd. cbn [mbind option_bind]. destruct (v / 128 =? 0) eqn:E; rewrite land_127, land_128.
  - rewrite (Z.mod_small (v mod 128)), (Z.div_small (v mod 128)) by lia. cbn [Z.eqb Z.mul]. change (0 mod 2 * 128 =? 0) with true. rewrite Hlor, zlen_cons, zlen_nil. apply Z.eqb_eq in E. replace (v mod 128) with v by lia. done.
  - rewrite Hm128, <- (Z.div_unique (v mod 128 + 128) 128 1 (v mod 128)) by lia. change (1 mod 2 * 128 =? 0) with false. cbv iota.
    rewrite Hlor. assert (2 ^ ((i + 1) * 7) = 128 * 2 ^ (i * 7)) as Hpow by (replace ((i + 1) * 7) with (7 + i * 7) by lia; by rewrite Z.pow_add_r by lia).
    assert (n <> 0%nat) as Hn0 by (intros ->; change (2 ^ (7 * Z.of_nat 1)) with 128 in Hvn; rewrite Z.div_small in E by lia; done).
    assert (2 ^ (7 * Z.of_nat (S n)) = 128 * 2 ^ (7 * Z.of_nat n)) as Hpn by (replace (7 * Z.of_nat (S n)) with (7 + 7 * Z.of_nat n) by lia; by rewrite Z.pow_add_r by lia).
    replace (zlen pre + 1) with (zlen (pre ++ [v mod 128 + 128])) by (rewrite zlen_app, zlen_cons, zlen_nil; lia).
    rewrite (IH _ (v / 128)); [|rewrite <- app_assoc; exact Hm|lia|lia|rewrite Hpow; nia|lia|rewrite Hpow; nia|apply Z.div_lt_upper_bound; lia].
    rewrite zlen_app, !zlen_cons, zlen_nil, Hpow. f_equal. apply pair_equal_spec. split; [lia|]. rewrite Hdm at 3. lia.
Qed.

Lemma get_leb128_at mem pre post v : mem = pre ++ leb128 5 v ++ post -> 0 <= v < 2 ^ 32 -> get_leb128 mem (zlen pre) (zlen mem) = Some (zlen (leb128 5 v), v).
Proof.
  intros Hm Hv. unfold get_leb128. rewrite (get_leb128_enc 5 mem pre post v) by (done || lia). f_equal. apply pair_equal_spec. split; lia.
Qed.

Lemma get_sleb128_at mem pre post v : mem = pre ++ leb128 5 (zigzag v) ++ post -> - 2 ^ 31 <= v < 2 ^ 31 -> get_sleb128 mem (zlen pre) (zlen mem) = Some (zlen (leb128 5 (zigzag v)), v).
Proof.
  intros Hm Hv. unfold get_sleb128. rewrite (get_leb128_at mem pre post (zigzag v)) by (done || by apply zigzag_range). cbn [mbind option_bind]. pose proof (zlen_nonneg (leb128 5 (zigzag v))).
  replace (zlen _ <? 0) with false by lia. by rewrite zigzag_dec.
Qed.

(** ** The table *)

Definition entry (diff_pc diff_line : Z) : list Z :=
  if (-1 <=? diff_line) && (diff_line <? 4) && (diff_pc <=? 50) then [diff_line + 1 + diff_pc * 5 + 1]
  else [0] ++ leb128 5 diff_pc ++ leb128 5 (zigzag diff_line).

Fixpoint table (line pc : Z) (slots : list LineNumberSlot) : list Z :=
  match slots with
  | [] => []
  | s :: slots =>
      if (slot_line_num s <? 0) || (slot_line_num s =? line) then table line pc slots
      else entry (slot_pc s - pc) (slot_line_num s - line) ++ table (slot_line_num s) (slot_pc s) slots
  end.

(** The line of the last slot at or before [pc]. *)
Fixpoint line_at (pc line : Z) (slots : list LineNumberSlot) : Z :=
  match slots with
  | [] => line
  | s :: slots => line_at pc (if (slot_line_num s <? 0) || (pc <? slot_pc s) then line else slot_line_num s) slots
  end.

(** Positions that do not decrease, from [pc] on. *)
Fixpoint slots_ok (pc : Z) (slots : list LineNumberSlot) : Prop :=
  match slots with [] => True | s :: slots => pc <= slot_pc s < 2 ^ 31 /\ slot_line_num s < 2 ^ 31 /\ slots_ok (slot_pc s) slots end.

Lemma slots_ok_mono pc pc' slots : pc' <= pc -> slots_ok pc slots -> slots_ok pc' slots.
Proof. destruct slots as [|s slots]; [done|]. cbn [slots_ok]. intros H (H1 & H2 & H3). split_and!; [lia|lia|done..]. Qed.

Lemma line_at_stop pcv line pc slots : slots_ok pc slots -> pcv < pc -> line_at pcv line slots = line.
Proof.
  revert pc. induction slots as [|s slots IH]; intros pc Hok Hlt; [done|]. cbn [slots_ok line_at] in *. destruct Hok as (H1 & _ & Hok). replace (pcv <? slot_pc s) with true by lia. rewrite orb_true_r. apply (IH (slot_pc s)); [done|lia].
Qed.

Section table.
Context (realloc_func : realloc_t).

Lemma pc2line_table slots s line pc : 0 <= line < 2 ^ 31 -> 0 <= pc -> slots_ok pc slots ->
  exists line' pc', pc2line_loop realloc_func (s, line, pc) slots = (s' ← dbuf_bytes realloc_func s (table line pc slots); Some (s', line', pc')).
Proof.
  revert s line pc. induction slots as [|slot slots IH]; intros s line pc Hline Hpc Hok; [by exists line, pc|]. cbn [slots_ok pc2line_loop table] in *. destruct Hok as (H1 & H2 & Hok). unfold pc2line_step.
  destruct (slot_line_num slot <? 0) eqn:E; cbn [orb mbind option_bind].
  { apply IH; [done|done|]. eapply slots_ok_mono; [|done]. lia. }
  unfold int_check. replace (_ && _) with true by (symmetry; apply andb_true_iff; lia). cbn [mbind option_bind]. rewrite (uwrap_id 32) by (unfold in_u; lia). rewrite (swrap_id 32) by (unfold in_s; lia).
  replace (slot_pc slot - pc <? 0) with false by lia. rewrite orb_false_r. destruct (Z.eqb_spec (slot_line_num slot) line) as [El|El].
  { replace (slot_line_num slot - line =? 0) with true by lia. cbn [mbind option_bind]. apply IH; [done|done|]. eapply slots_ok_mono; [|done]. lia. }
  replace (slot_line_num slot - line =? 0) with false by lia. unfold entry. change (PC2LINE_DIFF_PC_MAX) with 50. unfold PC2LINE_BASE, PC2LINE_RANGE, PC2LINE_OP_FIRST. change (-1 + 5) with 4. rewrite Z.geb_leb.
  assert (forall s', exists line' pc', pc2line_loop realloc_func (s', slot_line_num slot, slot_pc slot) slots = (s'' ← dbuf_bytes realloc_func s' (table (slot_line_num slot) (slot_pc slot) slots); Some (s'', line', pc'))) as HIH by (intros s'; apply IH; [lia|lia|done]).
  destruct (_ && _ && _) eqn:Ec.
  - apply andb_true_iff in Ec as [Ec Ec3]. apply andb_true_iff in Ec as [Ec1 Ec2]. rewrite (uwrap_id 8) by (unfold in_u; lia). replace (slot_line_num slot - line - -1) with (slot_line_num slot - line + 1) by lia.
    rewrite dbuf_bytes_app, dbuf_bytes_one. destruct (dbuf_putc _ _ _) as [[r s1]|]; [|by exists 0, 0]. cbn [mbind option_bind]. apply HIH.
  - rewrite dbuf_bytes_app, (dbuf_bytes_app _ _ [0]), dbuf_bytes_one. destruct (dbuf_putc _ _ _) as [[r s1]|]; [|by exists 0, 0]. cbn [mbind option_bind]. rewrite dbuf_bytes_app.
    rewrite (uwrap_id 32) by (unfold in_u; lia). rewrite put_leb128 by lia. destruct (dbuf_bytes realloc_func s1 _) as [s2|]; [|by exists 0, 0]. cbn [mbind option_bind].
    rewrite put_sleb128 by lia. destruct (dbuf_bytes realloc_func s2 _) as [s3|]; [|by exists 0, 0]. cbn [mbind option_bind]. apply HIH.
Qed.
End table.

(** ** Decoding *)

Lemma entry_pos dpc dl : 0 < zlen (entry dpc dl).
Proof. unfold entry. destruct (_ && _ && _); [done|]. rewrite !zlen_app. pose proof (zlen_nonneg (leb128 5 dpc)). pose proof (zlen_nonneg (leb128 5 (zigzag dl))). change (zlen [0]) with 1. lia. Qed.

Lemma s32_u32_id x : 0 <= x < 2 ^ 31 -> s32 (u32 x) = x.
Proof. intros Hx. rewrite uwrap_id by (unfold in_u; lia). apply swrap_id; [lia|unfold in_s; lia]. Qed.

Lemma u32_s32_u32 x : 0 <= x < 2 ^ 31 -> u32 (s32 (u32 x)) = x.
Proof. intros Hx. rewrite s32_u32_id by done. apply uwrap_id. unfold in_u; lia. Qed.

Lemma find_entry mem pre post first_line line pc dpc dl pcv : mem = pre ++ entry dpc dl ++ post -> 0 <= line < 2 ^ 31 -> 0 <= line + dl < 2 ^ 31 -> 0 <= pc -> 0 <= dpc -> pc + dpc < 2 ^ 31 ->
  find_line_body mem (zlen mem) first_line pcv (zlen pre, pc, line) =
  Some (if pcv <? pc + dpc then inr line else inl (zlen (pre ++ entry dpc dl), pc + dpc, line + dl)).
Proof.
  intros Hm Hl Hl' Hpc Hdpc Hpc'. pose proof (entry_pos dpc dl) as Hlen.
  unfold find_line_body. replace (zlen pre <? zlen mem) with true by (rewrite Hm, !zlen_app; pose proof (zlen_nonneg post); lia). rewrite (zlen_app pre). unfold entry in *.
  destruct (_ && _ && _) eqn:Ec.
  - apply andb_true_iff in Ec as [Ec Ec3]. apply andb_true_iff in Ec as [Ec1 Ec2]. assert (rd mem (zlen pre) = Some (dl + 1 + dpc * 5 + 1)) as -> by (rewrite Hm; by apply rd_mid). cbn [mbind option_bind].
    replace (_ =? 0) with false by lia. unfold PC2LINE_OP_FIRST, PC2LINE_RANGE, PC2LINE_BASE. rewrite (uwrap_id 32 (_ - 1)) by (unfold in_u; lia).
    replace (dl + 1 + dpc * 5 + 1 - 1) with (dl + 1 + dpc * 5) by lia. rewrite Z.div_add, Z.mod_add, (Z.div_small (dl + 1)), (Z.mod_small (dl + 1)) by lia.
    replace (pc + (0 + dpc)) with (pc + dpc) by lia. replace (line + (dl + 1) + -1) with (line + dl) by lia. rewrite (u32_s32_u32 (pc + dpc)), (s32_u32_id (pc + dpc)), (s32_u32_id (line + dl)), zlen_cons, zlen_nil by lia.
    by destruct (pcv <? pc + dpc).
  - assert (rd mem (zlen pre) = Some 0) as -> by (rewrite Hm; by apply rd_mid). cbn [mbind option_bind Z.eqb].
    replace (zlen pre + 1) with (zlen (pre ++ [0])) by (rewrite zlen_app, zlen_cons, zlen_nil; lia).
    rewrite (get_leb128_at mem (pre ++ [0]) (leb128 5 (zigzag dl) ++ post) dpc) by (rewrite ?Hm, <- ?app_assoc; done || lia). cbn [mbind option_bind].
    pose proof (zlen_nonneg (leb128 5 dpc)). replace (zlen (leb128 5 dpc) <? 0) with false by lia. rewrite <- zlen_app.
    rewrite (get_sleb128_at mem ((pre ++ [0]) ++ leb128 5 dpc) post dl) by (rewrite ?Hm, <- ?app_assoc; done || lia). cbn [mbind option_bind].
    pose proof (zlen_nonneg (leb128 5 (zigzag dl))). replace (zlen (leb128 5 (zigzag dl)) <? 0) with false by lia. unfold int_check. replace (_ && _) with true by (symmetry; apply andb_true_iff; lia). cbn [mbind option_bind].
    rewrite (u32_s32_u32 (pc + dpc)), (s32_u32_id (pc + dpc)) by lia. destruct (pcv <? pc + dpc); [done|]. rewrite !zlen_app. do 4 f_equal. lia.
Qed.

Lemma find_table fuel mem pre first_line slots line pc pcv : mem = pre ++ table line pc slots -> 0 <= line < 2 ^ 31 -> 0 <= pc -> slots_ok pc slots -> 0 <= pcv -> zlen mem - zlen pre < Z.of_nat fuel ->
  loop fuel (find_line_body mem (zlen mem) first_line pcv) (zlen pre, pc, line) = Some (line_at pcv line slots).
Proof.
  revert pre slots line pc. induction fuel as [|fuel IH]; intros pre slots line pc Hm Hl Hpc Hok Hpcv Hf; [rewrite Hm, zlen_app in Hf; pose proof (zlen_nonneg (table line pc slots)); lia|].
  revert line pc Hm Hl Hpc Hok. induction slots as [|s slots IHs]; intros line pc Hm Hl Hpc Hok; cbn [table slots_ok line_at] in *.
  - cbn [loop]. unfold find_line_body. rewrite app_nil_r in Hm. subst mem. by rewrite Z.ltb_irrefl.
  - destruct Hok as (H1 & H2 & Hok). assert (slots_ok pc slots) as Hok' by (eapply slots_ok_mono; [|done]; lia). destruct (slot_line_num s <? 0) eqn:E; cbn [orb] in *; [by apply IHs|].
    destruct (Z.eqb_spec (slot_line_num s) line) as [-> |Hne]; [replace (if pcv <? slot_pc s then line else line) with line by (by destruct (pcv <? slot_pc s)); by apply IHs|].
    cbn [loop]. rewrite (find_entry mem pre (table (slot_line_num s) (slot_pc s) slots) first_line line pc (slot_pc s - pc) (slot_line_num s - line)) by (done || lia).
    replace (pc + (slot_pc s - pc)) with (slot_pc s) by lia. replace (line + (slot_line_num s - line)) with (slot_line_num s) by lia. destruct (pcv <? slot_pc s) eqn:Ep.
    + f_equal. symmetry. apply (line_at_stop pcv line (slot_pc s)); [done|lia].
    + apply IH; [by rewrite <- app_assoc|lia|lia|done|done|]. rewrite zlen_app. assert (0 < zlen (entry (slot_pc s - pc) (slot_line_num s - line))) by apply entry_pos. lia.
Qed.

(** ** Theorems *)

Lemma concat_singletons (l : list Z) : concat ((fun c => [c]) <$> l) = l.
Proof. induction l as [|c l IH]; [done|]. rewrite fmap_cons. cbn [concat app]. by rewrite IH. Qed.

Lemma table_len slots line pc : zlen (table line pc slots) <= 11 * zlen slots.
Proof.
  revert line pc. induction slots as [|s slots IH]; intros line pc; cbn [table]; [done|]. rewrite zlen_cons. destruct (_ || _); [specialize (IH line pc); lia|]. rewrite zlen_app.
  specialize (IH (slot_line_num s) (slot_pc s)). assert (zlen (entry (slot_pc s - pc) (slot_line_num s - line)) <= 11); [|lia]. unfold entry. destruct (_ && _ && _); [done|].
  rewrite !zlen_app. change (zlen [0]) with 1. pose proof (leb128_len 5 (slot_pc s - pc)). pose proof (leb128_len 5 (zigzag (slot_line_num s - line))). lia.
Qed.

(** The slots that a sequence of calls of [add_pc2line_info] records, and the
    state before the first call. *)
Definition record_lines (s : line_info) (l : list LineNumberSlot) : line_info := foldl (fun s e => add_pc2line_info s (slot_pc e) (slot_line_num e)) s l.
Definition no_lines (first_line size : Z) : line_info := LineInfo [] size 0 first_line.

(** The jumps shortened one after the other, and where they move a position. *)
Definition shrink_all (s : line_info) (cuts : list (Z * Z)) : line_info := foldl (fun s c => shrink_slots s c.1 c.2) s cuts.
Definition shift_all (pc : Z) (cuts : list (Z * Z)) : Z := foldl (fun pc c => shift_pc c.1 c.2 pc) pc cuts.

(** A position that is not inside the operand of a jump that is shortened. *)
Fixpoint cuts_ok (pc : Z) (cuts : list (Z * Z)) : Prop :=
  match cuts with
  | [] => True
  | (pos, delta) :: cuts => 0 <= pos /\ 0 <= delta /\ (pc <= pos \/ pos + delta < pc) /\ cuts_ok (shift_pc pos delta pc) cuts
  end.

(** ** What is recorded *)

Definition call_ok (e : LineNumberSlot) : Prop := 0 <= slot_pc e < 2 ^ 31 /\ slot_line_num e < 2 ^ 31.

(** Each slot has another line than the one before it. *)
Fixpoint lines_change (line : Z) (slots : list LineNumberSlot) : Prop :=
  match slots with [] => True | s :: slots => slot_line_num s <> line /\ lines_change (slot_line_num s) slots end.

Definition record_inv (first_line : Z) (s : line_info) : Prop :=
  zlen (line_number_slots s) <= line_number_size s /\ 0 <= line_number_last_pc s /\
  (forall l, slots_ok (line_number_last_pc s) l -> slots_ok 0 (line_number_slots s ++ l)) /\
  (forall l, lines_change (line_number_last s) l -> lines_change first_line (line_number_slots s ++ l)).

(** One call: the slot is recorded or nothing changes. *)
Lemma add_inv first_line s e : record_inv first_line s -> call_ok e ->
  let s' := add_pc2line_info s (slot_pc e) (slot_line_num e) in
  record_inv first_line s' /\ line_number_size s' = line_number_size s /\
  exists k, k `sublist_of` [e] /\ line_number_slots s' = line_number_slots s ++ k.
Proof.
  intros Hinv He. cbv zeta. unfold add_pc2line_info.
  destruct (_ && _ && _) eqn:E; [|split; [done|]; split; [done|]; exists []; split; [apply sublist_nil_l|by rewrite app_nil_r]].
  apply andb_true_iff in E as [E E3]. apply andb_true_iff in E as [E1 E2]. apply negb_true_iff in E3. zbool. destruct He as [He1 He2].
  destruct Hinv as (H1 & H2 & H3 & H4). unfold record_inv. cbn [line_number_slots line_number_size line_number_last_pc line_number_last].
  rewrite zlen_app, zlen_cons, zlen_nil. split; [|split; [done|]; exists [Slot (slot_pc e) (slot_line_num e)]; split; [by destruct e|done]].
  split_and!; [lia|lia| |]; intros l Hl; rewrite <- app_assoc.
  - apply H3. cbn [app slots_ok slot_pc slot_line_num]. split_and!; (done || lia).
  - apply H4. by split.
Qed.

Lemma record_any first_line l s : record_inv first_line s -> Forall call_ok l ->
  let s' := record_lines s l in
  record_inv first_line s' /\ line_number_size s' = line_number_size s /\
  exists k, k `sublist_of` l /\ line_number_slots s' = line_number_slots s ++ k.
Proof.
  revert s. induction l as [|e l IH]; intros s Hinv Hall; cbn [record_lines foldl].
  { split; [done|]. split; [done|]. exists []. by rewrite app_nil_r. }
  apply Forall_cons in Hall as [He Hall]. destruct (add_inv first_line s e Hinv He) as (Hinv' & Hsz & k & Hk & Hs).
  destruct (IH _ Hinv' Hall) as (Hinv'' & Hsz' & k' & Hk' & Hs'). split; [exact Hinv''|]. split; [exact (eq_trans Hsz' Hsz)|]. exists (k ++ k').
  split; [exact (sublist_app k [e] k' l Hk Hk')|]. rewrite app_assoc, <- Hs. exact Hs'.
Qed.

Lemma line_at_app pcv line a b : line_at pcv line (a ++ b) = line_at pcv (line_at pcv line a) b.
Proof. revert line. induction a as [|s a IH]; intros line; [done|]. cbn [app line_at]. apply IH. Qed.

Lemma record_full s l : line_number_size s <= zlen (line_number_slots s) -> record_lines s l = s.
Proof.
  intros Hfull. induction l as [|e l IH]; [done|]. cbn [record_lines foldl]. unfold add_pc2line_info at 2.
  replace (zlen (line_number_slots s) <? line_number_size s) with false by lia. exact IH.
Qed.

(** Positions that do not decrease: nothing of the calls is lost until the slots
    are full. *)
Lemma record_prefix l s first_line : slots_ok (line_number_last_pc s) l -> zlen (line_number_slots s) <= line_number_size s ->
  (forall pcv, line_number_last_pc s <= pcv -> 0 <= line_number_last s -> line_at pcv first_line (line_number_slots s) = line_number_last s) ->
  exists l1 l2, l = l1 ++ l2 /\ (l2 = [] \/ zlen (line_number_slots (record_lines s l)) = line_number_size s) /\
    forall pcv, line_at pcv first_line (line_number_slots (record_lines s l)) = line_at pcv first_line (line_number_slots s ++ l1).
Proof.
  revert s. induction l as [|e l IH]; intros s Hok Hsz Hlast.
  { exists [], []. split; [done|]. split; [by left|]. intros pcv. by rewrite app_nil_r. }
  destruct (decide (line_number_size s <= zlen (line_number_slots s))) as [Hfull|Hroom].
  { exists [], (e :: l). rewrite record_full by done. split; [done|]. split; [right; lia|]. intros pcv. by rewrite app_nil_r. }
  cbn [slots_ok] in Hok. destruct Hok as (H1 & H2 & Hok). cbn [record_lines foldl].
  fold (record_lines (add_pc2line_info s (slot_pc e) (slot_line_num e)) l). unfold add_pc2line_info.
  replace (zlen (line_number_slots s) <? line_number_size s) with true by lia. replace (slot_pc e >=? line_number_last_pc s) with true by lia. cbn [andb].
  destruct (Z.eqb_spec (slot_line_num e) (line_number_last s)) as [El|El]; cbn [negb].
  - destruct (IH s) as (l1 & l2 & -> & Hl2 & Hat); [eapply slots_ok_mono; [|done]; lia|done|done|]. exists (e :: l1), l2.
    split; [done|]. split; [done|]. intros pcv. rewrite Hat, !line_at_app. cbn [line_at]. f_equal.
    destruct (slot_line_num e <? 0) eqn:En; [done|]. destruct (pcv <? slot_pc e) eqn:Ep; [done|]. cbn [orb]. rewrite El. apply Hlast; lia.
  - destruct (IH (LineInfo (line_number_slots s ++ [Slot (slot_pc e) (slot_line_num e)]) (line_number_size s) (slot_pc e) (slot_line_num e))) as (l1 & l2 & -> & Hl2 & Hat);
      cbn [line_number_slots line_number_size line_number_last_pc line_number_last] in *.
    + done.
    + rewrite zlen_app, zlen_cons, zlen_nil. lia.
    + intros pcv Hp Hl. rewrite line_at_app. cbn [line_at slot_pc slot_line_num]. replace (slot_line_num e <? 0) with false by lia. replace (pcv <? slot_pc e) with false by lia. done.
    + exists (e :: l1), l2. split; [done|]. split; [done|]. intros pcv. rewrite Hat, <- app_assoc. by destruct e.
Qed.

(** ** Shortened jumps *)

Lemma shift_pc_le pos delta a b : 0 <= pos -> 0 <= delta -> a < 2 ^ 31 -> b < 2 ^ 31 -> a <= pos \/ pos + delta < a -> b <= pos \/ pos + delta < b ->
  (shift_pc pos delta a <= shift_pc pos delta b <-> a <= b) /\ shift_pc pos delta a <= a /\ (0 <= a -> 0 <= shift_pc pos delta a).
Proof.
  intros Hp Hd Ha Hb Ca Cb. unfold shift_pc. destruct (Z.gtb_spec a pos), (Z.gtb_spec b pos); rewrite ?uwrap_id by (unfold in_u; lia); lia.
Qed.

Lemma shift_pc_sub pos delta x : 0 <= pos -> 0 <= delta -> x < 2 ^ 32 -> x <= pos \/ pos + delta < x -> shift_pc pos delta x = if x >? pos then x - delta else x.
Proof. intros ? ? ? ?. unfold shift_pc. destruct (Z.gtb_spec x pos); [|done]. rewrite uwrap_id by (unfold in_u; lia). done. Qed.

Definition shift_slots (pos delta : Z) (R : list LineNumberSlot) : list LineNumberSlot :=
  (fun e => Slot (shift_pc pos delta (slot_pc e)) (slot_line_num e)) <$> R.

(** One jump: positions stay in order, and a position finds the line it found. *)
Lemma shift_slots_spec pos delta R pc : 0 <= pos -> 0 <= delta -> (pc <= pos \/ pos + delta < pc) -> 0 <= pc < 2 ^ 31 ->
  Forall (fun e => slot_pc e <= pos \/ pos + delta < slot_pc e) R -> slots_ok pc R ->
  slots_ok (shift_pc pos delta pc) (shift_slots pos delta R) /\
  forall pcv line, 0 <= pcv < 2 ^ 32 -> (pcv <= pos \/ pos + delta < pcv) -> line_at (shift_pc pos delta pcv) line (shift_slots pos delta R) = line_at pcv line R.
Proof.
  intros Hp Hd. revert pc. induction R as [|e R IH]; intros pc Cpc Hpc Hall Hok; [done|].
  apply Forall_cons in Hall as [He Hall]. cbn [slots_ok] in Hok. destruct Hok as (H1 & H2 & Hok).
  destruct (IH (slot_pc e) He ltac:(lia) Hall Hok) as [Hok' Hat]. split.
  - cbn [shift_slots fmap list_fmap slots_ok slot_pc slot_line_num]. fold (shift_slots pos delta R).
    destruct (shift_pc_le pos delta pc (slot_pc e)) as [Hle _]; [lia..|]. destruct (shift_pc_le pos delta (slot_pc e) (slot_pc e)) as [_ [Hs _]]; [lia..|].
    split_and!; try done; [apply Hle; lia|lia].
  - intros pcv line Hpcv Cpcv. cbn [shift_slots fmap list_fmap line_at slot_pc slot_line_num]. fold (shift_slots pos delta R). rewrite Hat by done. f_equal.
    destruct (slot_line_num e <? 0); [done|]. cbn [orb]. rewrite !shift_pc_sub by lia.
    destruct (Z.gtb_spec pcv pos), (Z.gtb_spec (slot_pc e) pos); repeat match goal with |- context [?a <? ?b] => destruct (Z.ltb_spec a b) end; (done || lia).
Qed.

Lemma shrink_all_spec cuts s : slots_ok 0 (line_number_slots s) -> Forall (fun e => cuts_ok (slot_pc e) cuts) (line_number_slots s) ->
  slots_ok 0 (line_number_slots (shrink_all s cuts)) /\ zlen (line_number_slots (shrink_all s cuts)) = zlen (line_number_slots s) /\
  (slot_line_num <$> line_number_slots (shrink_all s cuts)) = slot_line_num <$> line_number_slots s /\
  forall pcv line, 0 <= pcv < 2 ^ 32 -> cuts_ok pcv cuts ->
    0 <= shift_all pcv cuts < 2 ^ 32 /\ line_at (shift_all pcv cuts) line (line_number_slots (shrink_all s cuts)) = line_at pcv line (line_number_slots s).
Proof.
  revert s. induction cuts as [|[pos delta] cuts IH]; intros s Hok Hall; [done|].
  change (shrink_all s ((pos, delta) :: cuts)) with (shrink_all (shrink_slots s pos delta) cuts).
  destruct (line_number_slots s) as [|e0 R0] eqn:ER.
  { assert (line_number_slots (shrink_slots s pos delta) = []) as Es by (cbn [shrink_slots line_number_slots]; by rewrite ER).
    destruct (IH (shrink_slots s pos delta)) as (H1 & H2 & H3 & H4); rewrite ?Es; [done|by constructor|]. rewrite Es in H2, H3, H4.
    split; [exact H1|]. split; [exact H2|]. split; [exact H3|]. intros pcv line Hpcv (Hp & Hd & Hc & Hcuts).
    destruct (H4 (shift_pc pos delta pcv) line) as [H5 H6]; [|done|by split].
    rewrite shift_pc_sub by lia. destruct (Z.gtb_spec pcv pos); lia. }
  rewrite <- ER in *. assert (0 <= pos /\ 0 <= delta) as [Hp Hd] by (rewrite ER in Hall; apply Forall_cons in Hall as [(? & ? & _) _]; done).
  destruct (shift_slots_spec pos delta (line_number_slots s) 0 Hp Hd ltac:(lia) ltac:(lia)) as [Hok' Hat]; [|done|].
  { eapply Forall_impl; [exact Hall|]. by intros e (_ & _ & ? & _). }
  assert (shift_pc pos delta 0 = 0) as E0 by (unfold shift_pc; by replace (0 >? pos) with false by lia). rewrite E0 in Hok'.
  destruct (IH (shrink_slots s pos delta)) as (H1 & H2 & H3 & H4); [exact Hok'| |].
  { cbn [shrink_slots line_number_slots]. apply Forall_fmap. eapply Forall_impl; [exact Hall|]. by intros e (_ & _ & _ & ?). }
  split; [exact H1|]. split; [rewrite H2; unfold zlen; cbn [shrink_slots line_number_slots]; by rewrite length_fmap|].
  split; [rewrite H3; cbn [shrink_slots line_number_slots]; rewrite <- list_fmap_compose; done|].
  intros pcv line Hpcv (_ & _ & Hc & Hcuts). destruct (H4 (shift_pc pos delta pcv) line) as [H5 H6]; [|done|].
  - rewrite shift_pc_sub by lia. destruct (Z.gtb_spec pcv pos); lia.
  - split; [exact H5|]. etransitivity; [exact H6|]. by apply Hat.
Qed.

(** ** The whole way *)

(** No line but the first one is in the slots. *)
Definition one_line (first_line : Z) (slots : list LineNumberSlot) : bool :=
  forallb (fun n => (n <? 0) || (n =? first_line)) (slot_line_num <$> slots).

Lemma table_no_entries slots line pc : (zlen (table line pc slots) =? 0) = one_line line slots.
Proof.
  revert pc. induction slots as [|s slots IH]; intros pc; [done|]. unfold one_line. rewrite fmap_cons. cbn [table forallb]. fold (one_line line slots).
  destruct (_ || _); [apply IH|]. rewrite zlen_app. pose proof (entry_pos (slot_pc s - pc) (slot_line_num s - line)).
  pose proof (zlen_nonneg (table (slot_line_num s) (slot_pc s) slots)). cbn [andb]. lia.
Qed.

Lemma compute_find (realloc_func : realloc_t) `{!ReallocLaws realloc_func} first_line (i : line_info) :
  0 <= first_line < 2 ^ 31 -> slots_ok 0 (line_number_slots i) -> zlen (line_number_slots i) < 2 ^ 31 ->
  exists s, compute_pc2line_info realloc_func first_line i = Some s /\ dbuf_ok s /\
    (dbuf_error s = true -> oom realloc_func) /\
    (dbuf_error s = false -> forall pcv, 0 <= pcv < 2 ^ 32 -> find_line_num (pc2line_buf s) first_line pcv =
       Some (if one_line first_line (line_number_slots i) then -1 else line_at pcv first_line (line_number_slots i))).
Proof.
  intros Hf Hok Hlen. set (slots := line_number_slots i) in *.
  destruct (pc2line_table realloc_func slots dbuf_init first_line 0 Hf ltac:(lia) Hok) as (line' & pc' & E). unfold compute_pc2line_info. fold slots. rewrite E.
  pose proof (table_len slots first_line 0). pose proof (zlen_nonneg slots).
  assert (concat ((fun c => [c]) <$> table first_line 0 slots) = table first_line 0 slots) as Hcat by apply concat_singletons.
  pose proof (dbuf_puts_spec realloc_func dbuf_init ((fun c => [c]) <$> table first_line 0 slots) dbuf_init_ok) as Hw. rewrite Hcat in Hw. specialize (Hw ltac:(cbn [dbuf_init dbuf_init2 DynBuf.size]; lia)).
  apply wp_exists in Hw as (s & Es & Hs & _ & Hoom & _ & Hc). unfold dbuf_bytes. rewrite Es. cbn [mbind option_bind]. exists s. split_and!; [done|done| |].
  - intros He. destruct (Hoom He); done.
  - intros He pcv Hpcv. specialize (Hc He). change (contents dbuf_init) with (@nil Z) in Hc. cbn [app] in Hc. unfold pc2line_buf.
    assert (size s = zlen (contents s)) as -> by (destruct Hs as (? & ? & _); unfold contents; rewrite zlen_zslice; lia). rewrite Hc, table_no_entries.
    destruct (one_line first_line slots); [done|]. cbn [find_line_num].
    apply (find_table _ (table first_line 0 slots) []); [done|lia|lia|done|lia|]. unfold zlen. cbn. lia.
Qed.

(** C8. The line table, for any sequence [l] of calls of [add_pc2line_info] and any
    number of slots.  What is recorded is a part of the calls that fits the slots,
    with positions that do not decrease and lines that change.  When the positions
    of the calls do not decrease, nothing is lost until the slots are full: the
    slots give every position the line that a beginning [l1] of the calls gives
    it, and [l1] is all of [l] unless every slot is taken.  After jumps were
    shortened around the recorded positions, encoding the slots and looking up a
    position that moved with the code gives the line recorded last at or before
    it, or the first line of the function; but a function without another line
    than its first has no table and gives -1.  The encoding fails only when an
    allocation is refused. *)
Theorem pc2line_roundtrip (realloc_func : realloc_t) `{!ReallocLaws realloc_func} first_line size l cuts R :
  0 <= first_line < 2 ^ 31 -> 0 <= size < 2 ^ 31 -> Forall call_ok l -> line_number_slots (record_lines (no_lines first_line size) l) = R ->
  (R `sublist_of` l /\ zlen R <= size /\ slots_ok 0 R /\ lines_change first_line R) /\
  (slots_ok 0 l -> exists l1 l2, l = l1 ++ l2 /\ (l2 = [] \/ zlen R = size) /\ forall pcv, line_at pcv first_line R = line_at pcv first_line l1) /\
  (Forall (fun e => cuts_ok (slot_pc e) cuts) R ->
   exists s, compute_pc2line_info realloc_func first_line (shrink_all (record_lines (no_lines first_line size) l) cuts) = Some s /\ dbuf_ok s /\
    (dbuf_error s = true -> oom realloc_func) /\
    (dbuf_error s = false -> forall pcv, 0 <= pcv < 2 ^ 32 -> cuts_ok pcv cuts ->
       find_line_num (pc2line_buf s) first_line (shift_all pcv cuts) = Some (if one_line first_line R then -1 else line_at pcv first_line R))).
Proof.
  intros Hf Hsz Hall HR. assert (record_inv first_line (no_lines first_line size)) as Hinv by (unfold record_inv; cbn; rewrite zlen_nil; split_and!; (done || lia)).
  destruct (record_any first_line l _ Hinv Hall) as ((H1 & H2 & H3 & H4) & Hs & k & Hk & Hsl). cbn [no_lines line_number_slots app] in Hsl. rewrite HR in *.
  rewrite Hs in H1. cbn [no_lines line_number_size] in H1. specialize (H3 [] I). specialize (H4 [] I). rewrite app_nil_r in H3, H4.
  split; [split_and!; try done; by subst k|]. split.
  - intros Hmono. destruct (record_prefix l (no_lines first_line size) first_line) as (l1 & l2 & Hl & Hfull & Hat); [done|cbn; rewrite zlen_nil; lia|done|].
    rewrite HR in Hfull, Hat. by exists l1, l2.
  - intros Hcuts. set (s0 := record_lines (no_lines first_line size) l) in *.
    destruct (shrink_all_spec cuts s0) as (Hok & Hlen & Hlines & Hat); [by rewrite HR|by rewrite HR|].
    destruct (compute_find realloc_func first_line (shrink_all s0 cuts) Hf Hok) as (s & E & Hd & Hoom & Hfind); [rewrite Hlen, HR; lia|].
    exists s. split_and!; try done. intros He pcv Hpcv Hc. destruct (Hat pcv first_line Hpcv Hc) as [Hr Ha]. rewrite (Hfind He) by done.
    unfold one_line. by rewrite Hlines, Ha, HR.
Qed.

(** Five calls for four slots, one of them for a position that was passed; a jump
    with its operand at 100 loses 3 bytes. *)
Lemma pc2line_roundtrip_witness :
  let l := [Slot 3 12; Slot 5 11; Slot 4 13; Slot 400 9000; Slot 400 9001; Slot 500 1] in
  exists s, compute_pc2line_info realloc64 10 (shrink_all (record_lines (no_lines 10 4) l) [(100, 3)]) = Some s /\
  dbuf_error s = false /\ find_line_num (pc2line_buf s) 10 4 = Some 12 /\ find_line_num (pc2line_buf s) 10 396 = Some 11 /\ find_line_num (pc2line_buf s) 10 597 = Some 9001.
Proof.
  destruct (pc2line_roundtrip realloc64 10 4 [Slot 3 12; Slot 5 11; Slot 4 13; Slot 400 9000; Slot 400 9001; Slot 500 1] [(100, 3)] [Slot 3 12; Slot 5 11; Slot 400 9000; Slot 400 9001]
    ltac:(lia) ltac:(lia) ltac:(repeat (apply Forall_cons; split; [split; cbn; lia|]); by constructor) eq_refl) as (_ & _ & H).
  destruct H as (s & E & _ & _ & H); [repeat (apply Forall_cons; split; [cbn; lia|]); by constructor|].
  exists s. split; [exact E|]. vm_compute in E. injection E as <-. split; [reflexivity|].
  split; [exact (H eq_refl 4 ltac:(lia) ltac:(cbn; lia))|]. split; [exact (H eq_refl 399 ltac:(lia) ltac:(cbn; lia))|exact (H eq_refl 600 ltac:(lia) ltac:(cbn; lia))].
Defined.
