(* ===== verification/JsDate.v ===== *)
(** * Dates (quickjs.c)

    A time value is a number of milliseconds since 1970; the fields of a date are
    [double]s that hold integers.  A finite [double] that was truncated is an
    integer, so that a [Z] stands for it, and every operation on it rounds to 53
    bits; an infinite result is [None].  The time zone of the host is a
    parameter. *)

From S2P Require Import Prelude CArray.
Open Scope Z_scope.

(** ** [double]s that hold integers *)

(** [a / b] rounded to the nearest integer, ties to even. *)
Definition rne (a b : Z) : Z :=
  let q := a / b in
  let r := a mod b in
  if 2 * r <? b then q else if b <? 2 * r then q + 1 else if Z.even q then q else q + 1.

(** The nearest [double] of an integer. *)
Definition rnd (x : Z) : option Z :=
  let k := Z.log2 (Z.abs x) - 52 in
  if k <=? 0 then Some x
  else let r := rne x (2 ^ k) * 2 ^ k in if Z.abs r <? 2 ^ 1024 then Some r else None.

(** [floor(x / 12)]: the quotient is rounded before [floor]; below 12 it is not
    rounded to an integer. *)
Definition floor_div12 (x : Z) : Z :=
  if Z.abs x <? 12 then x / 12
  else
    let k := 52 - Z.log2 (Z.abs x / 12) in
    if 0 <=? k then rne (x * 2 ^ k) 12 / 2 ^ k else rne x (12 * 2 ^ (- k)) * 2 ^ (- k).

(** Operations on results that may be infinite. *)
Definition dadd (a b : option Z) : option Z := a ← a; b ← b; rnd (a + b).
Definition dmul (a : option Z) (b : Z) : option Z := a ← a; rnd (a * b).

(** [int64_t] arithmetic; an overflow is undefined, and so is the conversion of a
    [double] that does not fit. *)
Definition i64 (x : Z) : option Z := if (- 2 ^ 63 <=? x) && (x <? 2 ^ 63) then Some x else None.

(** ** The calendar *)

Definition math_mod (a b : Z) : Z := let m := Z.rem a b in m + Zb (m <? 0) * b.

Definition floor_div (a b : Z) : option Z :=
  let m := Z.rem a b in
  n ← i64 (a - (m + Zb (m <? 0) * b)); Some (Z.quot n b).

Definition days_from_year (y : Z) : option Z :=
  a ← i64 (y - 1970); a ← i64 (365 * a);
  b ← i64 (y - 1969); b ← floor_div b 4; a ← i64 (a + b);
  c ← i64 (y - 1901); c ← floor_div c 100; a ← i64 (a - c);
  d ← i64 (y - 1601); d ← floor_div d 400; i64 (a + d).

Definition days_in_year (y : Z) : Z :=
  365 + Zb (Z.rem y 4 =? 0) - Zb (Z.rem y 100 =? 0) + Zb (Z.rem y 400 =? 0).

Definition year_body (d : Z) (y : Z) : option (Z + Z * Z) :=
  n ← days_from_year y;
  d1 ← i64 (d - n);
  if d1 <? 0 then Some (inl (y - 1))
  else if d1 <? days_in_year y then Some (inr (y, d1))
  else Some (inl (y + 1)).

(** The year and the day in the year. *)
Definition year_from_days (days : Z) : option (Z * Z) :=
  n ← i64 (days * 10000); y ← floor_div n 3652425; loop 3 (year_body days) (y + 1970).

Definition month_days : list Z := [31; 28; 31; 30; 31; 30; 31; 31; 30; 31; 30; 31].

Definition month_len (y i : Z) : option Z :=
  md ← rd month_days i; Some (if i =? 1 then md + (days_in_year y - 365) else md).

Fixpoint month_loop (n : nat) (y i days : Z) : option (Z * Z) :=
  match n with
  | O => Some (i, days)
  | S n => md ← month_len y i; if days <? md then Some (i, days) else month_loop n y (i + 1) (days - md)
  end.

(** ** Fields *)

(** The part of [get_date_fields] below the time zone. *)
Definition time_fields (d tz : Z) : option (Z * list Z) :=
  let h := math_mod d 86400000 in
  n ← i64 (d - h);
  let days := Z.quot n 86400000 in
  let ms := Z.rem h 1000 in
  let h := Z.quot (h - ms) 1000 in
  let s := Z.rem h 60 in
  let h := Z.quot (h - s) 60 in
  let m := Z.rem h 60 in
  let h := Z.quot (h - m) 60 in
  let wd := math_mod (days + 4) 7 in
  '(y, days) ← year_from_days days;
  '(i, days) ← month_loop 11 y 0 days;
  Some (1, [y; i; days + 1; h; m; s; ms; wd; tz]).

Section date.
(** [getTimezoneOffset]: minutes from local time to UTC. *)
Context (getTimezoneOffset : Z -> Z).

(** [JS_ThisTimeValue]: not a date, NaN or a time value. *)
Definition date_object : Type := option (option Z).

Definition get_date_fields (obj : date_object) (is_local force : bool) : option (Z * list Z) :=
  match obj with
  | None => Some (-1, [])
  | Some dval =>
      match dval, force with
      | None, false => Some (0, [])
      | _, _ =>
          d_tz ← (match dval with
                  | None => Some (0, 0)
                  | Some dval =>
                      d ← i64 dval;
                      if is_local then let tz := - getTimezoneOffset d in d ← i64 (d + tz * 60000); Some (d, tz) else Some (d, 0)
                  end);
          time_fields d_tz.1 d_tz.2
      end
  end.

Definition time_clip (t : option Z) : option Z :=
  t ← t; if (- 8640000000000000 <=? t) && (t <=? 8640000000000000) then Some t else None.

Fixpoint months_before (n : nat) (y i : Z) (days : option Z) : option (option Z) :=
  match n with
  | O => Some days
  | S n => md ← month_len y i; months_before n y (i + 1) (dadd days (Some md))
  end.

(** The time value, [None] inside for NaN. *)
Definition set_date_fields (fields : list Z) (is_local : bool) : option (option Z) :=
  m1 ← rd fields 1;
  let m := Z.rem m1 12 in
  let m := if m <? 0 then m + 12 else m in
  f0 ← rd fields 0;
  yd ← rnd (f0 + floor_div12 m1);
  y ← i64 yd;
  n ← days_from_year y;
  days ← months_before (Z.to_nat m) y 0 (rnd n);
  f2 ← rd fields 2; f3 ← rd fields 3; f4 ← rd fields 4; f5 ← rd fields 5; f6 ← rd fields 6;
  let days := dadd days (rnd (f2 - 1)) in
  let h := dadd (dadd (dadd (dmul (Some f3) 3600000) (dmul (Some f4) 60000)) (dmul (Some f5) 1000)) (Some f6) in
  let d := dadd (dmul days 86400000) h in
  d ← (if is_local then x ← d; t ← i64 x; Some (dadd (Some x) (rnd (getTimezoneOffset t * 60000))) else Some d);
  Some (time_clip d).

(** ** Methods *)

(** An argument converted by [JS_ToFloat64]: an exception, a number that is not
    finite, or the number truncated. *)
Definition date_arg : Type := option (option Z).

Inductive date_result : Set := JS_EXCEPTION | JS_NUMBER (v : option Z).

Definition get_date_field (this_val : date_object) (magic : Z) : option date_result :=
  let is_local := negb (Z.land magic 15 =? 0) in
  let n := Z.land (Z.shiftr magic 4) 15 in
  '(res, fields) ← get_date_fields this_val is_local false;
  if res <? 0 then Some JS_EXCEPTION
  else if res =? 0 then Some (JS_NUMBER None)
  else
    v ← rd fields n;
    Some (JS_NUMBER (Some (if negb (Z.land magic 256 =? 0) && (n =? 0) then v - 1900 else v))).

(** The conversion of the arguments: [None] inside is an exception. *)
Fixpoint date_args (args : list date_arg) (i : Z) (res : bool) (fields : list Z) : option (option (bool * list Z)) :=
  match args with
  | [] => Some (Some (res, fields))
  | None :: _ => Some None
  | Some None :: args => date_args args (i + 1) false fields
  | Some (Some a) :: args => fields ← wr fields i a; date_args args (i + 1) res fields
  end.

(** The result and the new time value of the object.  The fields of a date that is
    NaN are not initialized, and not read either. *)
Definition set_date_field (this_val : date_object) (args : list date_arg) (magic : Z) : option (date_result * date_object) :=
  let first_field := Z.land (Z.shiftr magic 8) 15 in
  let end_field := Z.land (Z.shiftr magic 4) 15 in
  let is_local := negb (Z.land magic 15 =? 0) in
  '(res, fields) ← get_date_fields this_val is_local (first_field =? 0);
  if res <? 0 then Some (JS_EXCEPTION, this_val)
  else
    let n := Z.min (zlen args) (end_field - first_field) in
    conv ← date_args (take (Z.to_nat n) args) first_field (negb (res =? 0)) (if res =? 0 then replicate 9 0 else fields);
    match conv with
    | None => Some (JS_EXCEPTION, this_val)
    | Some (res, fields) =>
        d ← (if res && (0 <? zlen args) then set_date_fields fields is_local else Some None);
        Some (JS_NUMBER d, Some d)
    end.

(** The fields of [js_Date_UTC]: years from 0 to 99 are in the 20th century. *)
Fixpoint utc_args (args : list date_arg) (i : Z) (fields : list Z) : option (option (option (list Z))) :=
  match args with
  | [] => Some (Some (Some fields))
  | None :: _ => Some None
  | Some None :: _ => Some (Some None)
  | Some (Some a) :: args => fields ← wr fields i (if (i =? 0) && (0 <=? a) && (a <? 100) then a + 1900 else a); utc_args args (i + 1) fields
  end.

Definition js_Date_UTC (args : list date_arg) : option date_result :=
  if zlen args =? 0 then Some (JS_NUMBER None)
  else
    conv ← utc_args (take 7 args) 0 [0; 0; 1; 0; 0; 0; 0];
    match conv with
    | None => Some JS_EXCEPTION
    | Some None => Some (JS_NUMBER None)
    | Some (Some fields) => d ← set_date_fields fields false; Some (JS_NUMBER d)
    end.
End date.

(** ** Arithmetic *)

Lemma rnd_exact x : Z.abs x < 2 ^ 53 -> rnd x = Some x.
Proof.
  intros Hx. unfold rnd. replace (Z.log2 (Z.abs x) - 52 <=? 0) with true; [done|]. symmetry. apply Z.leb_le. destruct (decide (x = 0)) as [-> |]; [done|].
  pose proof (proj1 (Z.log2_lt_pow2 (Z.abs x) 53 ltac:(lia)) Hx). lia.
Qed.

Lemma dadd_exact a b : Z.abs (a + b) < 2 ^ 53 -> dadd (Some a) (Some b) = Some (a + b).
Proof. apply rnd_exact. Qed.

Lemma dmul_exact a b : Z.abs (a * b) < 2 ^ 53 -> dmul (Some a) b = Some (a * b).
Proof. apply rnd_exact. Qed.

Lemma rne_floor r k : 0 <= r < 12 -> 3 <= k -> 0 <= rne (r * 2 ^ k) 12 < 2 ^ k.
Proof.
  intros Hr Hk. assert (8 <= 2 ^ k) as Hp by (change 8 with (2 ^ 3); by apply Z.pow_le_mono_r). generalize dependent (2 ^ k). intros p Hp. unfold rne.
  pose proof (Z.div_mod (r * p) 12 ltac:(lia)) as Hd. pose proof (Z.mod_pos_bound (r * p) 12 ltac:(lia)). assert (r * p <= 11 * p) by nia. assert (0 <= r * p) by nia.
  destruct (Z.ltb_spec (2 * ((r * p) mod 12)) 12); [lia|]. destruct (Z.ltb_spec 12 (2 * ((r * p) mod 12))); [lia|]. destruct (Z.even _); lia.
Qed.

Lemma rne_add q a b : 0 < b -> Z.even q = true -> rne (q * b + a) b = q + rne a b.
Proof.
  intros Hb Hq. unfold rne. rewrite Z.add_comm, Z.mod_add, Z.div_add by lia. rewrite Z.even_add, Hq.
  destruct (_ <? b); [lia|]. destruct (b <? _); [lia|]. destruct (Z.even (a / b)); cbn [Bool.eqb]; lia.
Qed.

Lemma floor_div12_exact x : Z.abs x < 2 ^ 50 -> floor_div12 x = x / 12.
Proof.
  intros Hx. unfold floor_div12. destruct (Z.ltb_spec (Z.abs x) 12) as [|H12]; [done|].
  assert (0 < Z.abs x / 12) as Hpos by (apply Z.div_str_pos; lia). assert (Z.abs x / 12 < 2 ^ 47) as Hlt by (apply Z.div_lt_upper_bound; lia).
  apply (Z.log2_lt_pow2 (Z.abs x / 12) 47 Hpos) in Hlt. pose proof (Z.log2_nonneg (Z.abs x / 12)). set (k := 52 - Z.log2 (Z.abs x / 12)) in *. replace (0 <=? k) with true by lia.
  pose proof (Z.div_mod x 12 ltac:(lia)) as Hd. pose proof (Z.mod_pos_bound x 12 ltac:(lia)) as Hm.
  replace (x * 2 ^ k) with ((x / 12 * 2 ^ k) * 12 + (x mod 12) * 2 ^ k) by (rewrite Hd at 3; lia). rewrite rne_add; [|lia|].
  - symmetry. apply (Z.div_unique _ _ _ (rne (x mod 12 * 2 ^ k) 12)); [left; apply rne_floor; lia|lia].
  - rewrite Z.even_mul. replace (Z.even (2 ^ k)) with true; [by rewrite orb_true_r|]. symmetry. rewrite Z.even_pow by lia. done.
Qed.

Lemma math_mod_eq a b : 0 < b -> math_mod a b = a mod b.
Proof.
  intros Hb. unfold math_mod. pose proof (Z.quot_rem' a b) as Hq. pose proof (Z.rem_bound_abs a b ltac:(lia)) as Hr.
  destruct (Z.ltb_spec (Z.rem a b) 0); cbn [Zb]; [apply (Z.mod_unique a b (Z.quot a b - 1)); lia|apply (Z.mod_unique a b (Z.quot a b)); lia].
Qed.

Lemma i64_ok x : - 2 ^ 63 <= x < 2 ^ 63 -> i64 x = Some x.
Proof. intros Hx. unfold i64. by replace ((- 2 ^ 63 <=? x) && (x <? 2 ^ 63)) with true by lia. Qed.

Lemma floor_div_eq a b : 0 < b -> b <= 2 ^ 32 -> Z.abs a < 2 ^ 62 -> floor_div a b = Some (a / b).
Proof.
  intros Hb Hb' Ha. unfold floor_div. change (Z.rem a b + Zb (Z.rem a b <? 0) * b) with (math_mod a b). rewrite math_mod_eq by done. pose proof (Z.mod_pos_bound a b Hb). pose proof (Z.div_mod a b ltac:(lia)).
  rewrite i64_ok by lia. cbn [mbind option_bind]. f_equal. replace (a - a mod b) with (a / b * b) by lia. apply Z.quot_mul. lia.
Qed.

(** ** Years *)

(** The number of the first day of a year. *)
Definition year_start (y : Z) : Z := 365 * (y - 1970) + (y - 1969) / 4 - (y - 1901) / 100 + (y - 1601) / 400.

Lemma days_from_year_eq y : Z.abs y < 2 ^ 40 -> days_from_year y = Some (year_start y).
Proof.
  intros Hy. unfold days_from_year. repeat first [rewrite i64_ok by (Z.to_euclidean_division_equations; lia)|rewrite floor_div_eq by lia|progress cbn [mbind option_bind]]. done.
Qed.

Lemma days_in_year_eq y : days_in_year y = year_start (y + 1) - year_start y.
Proof.
  unfold days_in_year, year_start.
  assert (forall k, k <> 0 -> (Z.rem y k =? 0) = (y mod k =? 0)) as Hr.
  { intros k Hk. destruct (Z.eqb_spec (y mod k) 0) as [E|E]; [apply Z.eqb_eq|apply Z.eqb_neq]; by rewrite Z.rem_mod_eq_0. }
  rewrite !Hr by lia. destruct (Z.eqb_spec (y mod 4) 0), (Z.eqb_spec (y mod 100) 0), (Z.eqb_spec (y mod 400) 0); cbn [Zb]; Z.to_euclidean_division_equations; lia.
Qed.

Lemma days_in_year_bounds y : days_in_year y = 365 \/ days_in_year y = 366.
Proof. rewrite days_in_year_eq. unfold year_start. Z.to_euclidean_division_equations; lia. Qed.

Lemma year_start_mono y y' : y <= y' -> year_start y + 365 * (y' - y) <= year_start y'.
Proof. intros H. unfold year_start. Z.to_euclidean_division_equations; lia. Qed.

(** The first guess is at most one year off. *)
Lemma year_guess d : exists y, Z.abs (d * 10000 / 3652425 + 1970 - y) <= 1 /\ year_start y <= d < year_start (y + 1).
Proof.
  set (y0 := d * 10000 / 3652425 + 1970). assert (year_start (y0 - 1) <= d < year_start (y0 + 2)) as H by (unfold y0, year_start; Z.to_euclidean_division_equations; lia).
  destruct (decide (d < year_start y0)); [exists (y0 - 1); replace (y0 - 1 + 1) with y0 by lia; lia|]. destruct (decide (d < year_start (y0 + 1))); [exists y0; lia|]. exists (y0 + 1). replace (y0 + 1 + 1) with (y0 + 2) by lia. lia.
Qed.

Lemma year_loop d y n y0 : Z.abs d < 2 ^ 40 -> year_start y <= d < year_start (y + 1) -> Z.abs (y0 - y) <= Z.of_nat n -> (n <= 2)%nat -> Z.abs y < 2 ^ 39 ->
  loop (S n) (year_body d) y0 = Some (y, d - year_start y).
Proof.
  intros Hd Hy. revert y0. induction n as [|n IH]; intros y0 Hn Hn2 Hyb.
  all: cbn [loop]; unfold year_body at 1; rewrite days_from_year_eq by lia; cbn [mbind option_bind]; rewrite i64_ok by (unfold year_start; Z.to_euclidean_division_equations; lia); cbn [mbind option_bind]; rewrite days_in_year_eq.
  - replace y0 with y by lia. replace (d - year_start y <? 0) with false by lia. by replace (d - year_start y <? year_start (y + 1) - year_start y) with true by lia.
  - destruct (decide (y0 = y)) as [-> |Hne]; [replace (d - year_start y <? 0) with false by lia; by replace (d - year_start y <? year_start (y + 1) - year_start y) with true by lia|].
    destruct (decide (y < y0)).
    + pose proof (year_start_mono (y + 1) y0 ltac:(lia)). replace (d - year_start y0 <? 0) with true by lia. apply IH; lia.
    + pose proof (year_start_mono y0 y ltac:(lia)). pose proof (year_start_mono (y0 + 1) y ltac:(lia)). replace (d - year_start y0 <? 0) with false by lia.
      replace (d - year_start y0 <? year_start (y0 + 1) - year_start y0) with false by lia. apply IH; lia.
Qed.

Lemma year_from_days_spec d : Z.abs d < 2 ^ 38 -> exists y, year_from_days d = Some (y, d - year_start y) /\ year_start y <= d < year_start (y + 1) /\ 365 * Z.abs (y - 1970) <= Z.abs d + 366.
Proof.
  intros Hd. destruct (year_guess d) as (y & Hg & Hy). exists y. assert (365 * Z.abs (y - 1970) <= Z.abs d + 366) as Hb.
  { pose proof (year_start_mono 1970 y) as H1. pose proof (year_start_mono (y + 1) 1970) as H2. change (year_start 1970) with 0 in *. lia. }
  split_and!; try lia. unfold year_from_days. rewrite i64_ok by lia. cbn [mbind option_bind]. rewrite floor_div_eq by lia. cbn [mbind option_bind]. apply year_loop; lia.
Qed.

(** ** Months *)

Definition month_starts : list Z := [0; 31; 59; 90; 120; 151; 181; 212; 243; 273; 304; 334].

Definition leap (y : Z) : Z := days_in_year y - 365.

(** The days of a year before a month, and the length of the month: April,
    June, September and November have 30 days, February 28 or 29. *)
Definition month_start (y m : Z) : Z := nth (Z.to_nat m) month_starts 0 + (if 1 <? m then leap y else 0).
Definition month_size (y m : Z) : Z :=
  if m =? 1 then 28 + leap y else if (m =? 3) || (m =? 5) || (m =? 8) || (m =? 10) then 30 else 31.

(** Every month, one goal each. *)
Ltac each_month m Hm :=
  assert (m = 0 \/ m = 1 \/ m = 2 \/ m = 3 \/ m = 4 \/ m = 5 \/ m = 6 \/ m = 7 \/ m = 8 \/ m = 9 \/ m = 10 \/ m = 11) as Hm by lia;
  decompose [or] Hm; clear Hm; subst m.

Ltac month_eval :=
  repeat match goal with
  | |- context [Z.to_nat ?n] => let v := eval vm_compute in (Z.to_nat n) in change (Z.to_nat n) with v
  | |- context [?a <? ?b] => let v := eval vm_compute in (a <? b) in change (a <? b) with v
  | |- context [?a =? ?b] => let v := eval vm_compute in (a =? b) in change (a =? b) with v
  end; cbn [nth month_starts orb].

Lemma month_len_eq y m : 0 <= m <= 11 -> month_len y m = Some (month_size y m).
Proof. intros H. unfold month_len, month_size, leap. each_month m Hm; month_eval; cbn [rd month_days mbind option_bind]; by rewrite ?Z.add_0_r. Qed.

Lemma month_start_next y m : 0 <= m < 11 -> month_start y (m + 1) = month_start y m + month_size y m.
Proof. intros H. unfold month_start, month_size. assert (0 <= m <= 11) as Hm by lia. each_month m Hm'; month_eval; lia. Qed.

Lemma month_end y : month_start y 11 + month_size y 11 = days_in_year y.
Proof. unfold month_start, month_size, leap. month_eval. lia. Qed.

Lemma month_size_bounds y m : 0 <= m <= 11 -> 28 <= month_size y m <= 31.
Proof. intros H. pose proof (days_in_year_bounds y). unfold month_size, leap. each_month m Hm; month_eval; lia. Qed.

Lemma month_start_bounds y m : 0 <= m <= 11 -> 0 <= month_start y m <= 335.
Proof. intros H. pose proof (days_in_year_bounds y). unfold month_start, leap. each_month m Hm; month_eval; lia. Qed.

Lemma month_loop_spec n y i days : 0 <= i -> i + Z.of_nat n = 11 -> 0 <= days < days_in_year y - month_start y i ->
  exists m d, month_loop n y i days = Some (m, d) /\ i <= m <= 11 /\ 0 <= d < month_size y m /\ month_start y m + d = month_start y i + days.
Proof.
  revert i days. induction n as [|n IH]; intros i days Hi Hn Hd; cbn [month_loop].
  - exists i, days. pose proof (month_end y). replace i with 11 in * by lia. split_and!; try done; lia.
  - rewrite month_len_eq by lia. cbn [mbind option_bind]. destruct (Z.ltb_spec days (month_size y i)) as [H|H]; [exists i, days; split_and!; (done || lia)|].
    pose proof (month_start_next y i ltac:(lia)). destruct (IH (i + 1) (days - month_size y i)) as (m & d & E & H1 & H2 & H3); [lia..|]. exists m, d. split_and!; (done || lia).
Qed.

(** ** Days *)

(** The number of a day of the calendar. *)
Definition day_number (y m d : Z) : Z := year_start y + month_start y m + d - 1.

Definition civil (y m d : Z) : Prop := 0 <= m <= 11 /\ 1 <= d <= month_size y m.

Lemma month_start_mono y m m' : 0 <= m < m' -> m' <= 11 -> month_start y m + month_size y m <= month_start y m'.
Proof.
  intros H H'. rewrite <- month_start_next by lia. remember (Z.to_nat (m' - (m + 1))) as k eqn:Ek. revert m' H H' Ek. induction k as [|k IH]; intros m' H H' Ek; [replace m' with (m + 1) by lia; lia|].
  specialize (IH (m' - 1) ltac:(lia) ltac:(lia) ltac:(lia)). pose proof (month_start_next y (m' - 1) ltac:(lia)) as Hn. replace (m' - 1 + 1) with m' in Hn by lia. pose proof (month_size_bounds y (m' - 1) ltac:(lia)). lia.
Qed.

Lemma civil_year y m d : civil y m d -> year_start y <= day_number y m d < year_start (y + 1).
Proof.
  intros [Hm Hd]. unfold day_number. pose proof (month_start_bounds y m Hm). pose proof (days_in_year_eq y). pose proof (month_end y).
  destruct (decide (m = 11)) as [-> |]; [lia|]. pose proof (month_start_mono y m 11 ltac:(lia) ltac:(lia)). pose proof (month_size_bounds y 11 ltac:(lia)). lia.
Qed.

Lemma civil_unique y m d y' m' d' : civil y m d -> civil y' m' d' -> day_number y m d = day_number y' m' d' -> y = y' /\ m = m' /\ d = d'.
Proof.
  intros H H' E. pose proof (civil_year _ _ _ H). pose proof (civil_year _ _ _ H').
  assert (y = y') as ->. { destruct (Z.lt_trichotomy y y') as [?|[?|?]]; [pose proof (year_start_mono (y + 1) y' ltac:(lia)); lia|done|pose proof (year_start_mono (y' + 1) y ltac:(lia)); lia]. }
  destruct H as [Hm Hd], H' as [Hm' Hd']. unfold day_number in E. destruct (Z.lt_trichotomy m m') as [?|[?|?]]; [pose proof (month_start_mono y' m m' ltac:(lia) ltac:(lia)); lia|subst; lia|pose proof (month_start_mono y' m' m ltac:(lia) ltac:(lia)); lia].
Qed.

(** ** Fields of a time value *)

Definition hours (t : Z) : Z := t mod 86400000 / 3600000.
Definition minutes (t : Z) : Z := t / 60000 mod 60.
Definition seconds (t : Z) : Z := t / 1000 mod 60.
Definition millis (t : Z) : Z := t mod 1000.

Lemma clock t : t = t / 86400000 * 86400000 + hours t * 3600000 + minutes t * 60000 + seconds t * 1000 + millis t.
Proof. unfold hours, minutes, seconds, millis. Z.to_euclidean_division_equations; lia. Qed.

Lemma clock_bounds t : 0 <= hours t < 24 /\ 0 <= minutes t < 60 /\ 0 <= seconds t < 60 /\ 0 <= millis t < 1000.
Proof. unfold hours, minutes, seconds, millis. Z.to_euclidean_division_equations; lia. Qed.

Lemma time_fields_spec t tz : Z.abs t < 2 ^ 54 -> exists y m d, time_fields t tz = Some (1, [y; m; d; hours t; minutes t; seconds t; millis t; (t / 86400000 + 4) mod 7; tz]) /\
  civil y m d /\ day_number y m d = t / 86400000 /\ 365 * Z.abs (y - 1970) <= Z.abs (t / 86400000) + 366.
Proof.
  intros Ht. unfold time_fields. rewrite !math_mod_eq by lia. pose proof (Z.mod_pos_bound t 86400000 ltac:(lia)) as Hh. rewrite i64_ok by lia. cbn [mbind option_bind].
  replace (Z.quot (t - t mod 86400000) 86400000) with (t / 86400000) by (pose proof (Z.div_mod t 86400000 ltac:(lia)); replace (t - t mod 86400000) with (t / 86400000 * 86400000) by lia; by rewrite Z.quot_mul).
  destruct (year_from_days_spec (t / 86400000)) as (y & -> & Hy & Hb); [Z.to_euclidean_division_equations; lia|]. cbn [mbind option_bind].
  destruct (month_loop_spec 11 y 0 (t / 86400000 - year_start y)) as (m & d & -> & Hm & Hd & E); [lia|lia|rewrite days_in_year_eq; change (month_start y 0) with (0 + 0); lia|]. cbn [mbind option_bind].
  change (month_start y 0) with 0 in E. exists y, m, (d + 1). split_and!; [|split; lia|unfold day_number; lia|done].
  assert (Z.rem (t mod 86400000) 1000 = millis t) as -> by (unfold millis; Z.to_euclidean_division_equations; lia).
  assert (Z.quot (t mod 86400000 - millis t) 1000 = t mod 86400000 / 1000) as -> by (unfold millis; Z.to_euclidean_division_equations; lia).
  assert (Z.rem (t mod 86400000 / 1000) 60 = seconds t) as -> by (unfold seconds; Z.to_euclidean_division_equations; lia).
  assert (Z.quot (t mod 86400000 / 1000 - seconds t) 60 = t mod 86400000 / 60000) as -> by (unfold seconds; Z.to_euclidean_division_equations; lia).
  assert (Z.rem (t mod 86400000 / 60000) 60 = minutes t) as -> by (unfold minutes; Z.to_euclidean_division_equations; lia).
  assert (Z.quot (t mod 86400000 / 60000 - minutes t) 60 = hours t) as -> by (unfold minutes, hours; Z.to_euclidean_division_equations; lia). by rewrite math_mod_eq.
Qed.

(** ** Time values of fields *)

(** The time value of a month, a day and a time of the day, in exact integers. *)
Definition make_time (y m d h mi s ms : Z) : Z :=
  let y' := y + m / 12 in
  (year_start y' + month_start y' (m mod 12) + d - 1) * 86400000 + h * 3600000 + mi * 60000 + s * 1000 + ms.

Lemma months_before_spec n y i x : 0 <= i -> i + Z.of_nat n <= 11 -> Z.abs x + 31 * Z.of_nat n < 2 ^ 53 ->
  months_before n y i (Some x) = Some (Some (x + month_start y (i + Z.of_nat n) - month_start y i)).
Proof.
  revert i x. induction n as [|n IH]; intros i x Hi Hn Hx; cbn [months_before]; [do 2 f_equal; replace (i + Z.of_nat 0) with i by lia; lia|].
  rewrite month_len_eq by lia. cbn [mbind option_bind]. pose proof (month_size_bounds y i ltac:(lia)). rewrite dadd_exact by lia.
  rewrite IH by lia. pose proof (month_start_next y i ltac:(lia)). replace (i + Z.of_nat (S n)) with (i + 1 + Z.of_nat n) by lia. do 2 f_equal. lia.
Qed.

Lemma month_index m1 : (let m := Z.rem m1 12 in if m <? 0 then m + 12 else m) = m1 mod 12.
Proof. rewrite <- (math_mod_eq m1 12) by lia. unfold math_mod. cbv zeta. destruct (_ <? 0); cbn [Zb]; lia. Qed.

(** Fields for which no [double] is rounded. *)
Definition fields_exact (y m d h mi s ms : Z) : Prop :=
  Z.abs y < 2 ^ 20 /\ Z.abs m < 2 ^ 24 /\ Z.abs d < 2 ^ 30 /\ Z.abs h < 2 ^ 25 /\ Z.abs mi < 2 ^ 25 /\ Z.abs s < 2 ^ 25 /\ Z.abs ms < 2 ^ 40 /\
  Z.abs (day_number (y + m / 12) (m mod 12) d) <= 100000001.

Lemma date_sum D h mi s ms : Z.abs D <= 100000001 -> Z.abs h < 2 ^ 25 -> Z.abs mi < 2 ^ 25 -> Z.abs s < 2 ^ 25 -> Z.abs ms < 2 ^ 40 ->
  dadd (dmul (Some D) 86400000) (dadd (dadd (dadd (dmul (Some h) 3600000) (dmul (Some mi) 60000)) (dmul (Some s) 1000)) (Some ms)) =
  Some (D * 86400000 + h * 3600000 + mi * 60000 + s * 1000 + ms).
Proof. intros HD Hh Hmi Hs Hms. rewrite !dmul_exact by lia. rewrite !dadd_exact by lia. f_equal. lia. Qed.

Lemma year_months tz y m rest : Z.abs y < 2 ^ 20 -> Z.abs m < 2 ^ 24 ->
  set_date_fields tz (y :: m :: rest) false =
  (f2 ← rd (y :: m :: rest) 2; f3 ← rd (y :: m :: rest) 3; f4 ← rd (y :: m :: rest) 4; f5 ← rd (y :: m :: rest) 5; f6 ← rd (y :: m :: rest) 6;
   let days := dadd (Some (year_start (y + m / 12) + month_start (y + m / 12) (m mod 12))) (rnd (f2 - 1)) in
   Some (time_clip (dadd (dmul days 86400000) (dadd (dadd (dadd (dmul (Some f3) 3600000) (dmul (Some f4) 60000)) (dmul (Some f5) 1000)) (Some f6))))).
Proof.
  intros Hy Hm. unfold set_date_fields. change (rd (y :: m :: rest) 1) with (Some m). change (rd (y :: m :: rest) 0) with (Some y). cbn [mbind option_bind]. rewrite month_index.
  rewrite floor_div12_exact by (clear - Hm; lia). assert (Z.abs (m / 12) < 2 ^ 24) as Hq by (clear - Hm; Z.to_euclidean_division_equations; lia). pose proof (Z.mod_pos_bound m 12 ltac:(done)) as Hmod.
  generalize dependent (m mod 12). generalize dependent (m / 12). intros q Hq r Hr. clear Hm. rewrite rnd_exact by lia. cbn [mbind option_bind]. rewrite i64_ok by lia. cbn [mbind option_bind].
  rewrite days_from_year_eq by lia. cbn [mbind option_bind]. assert (Z.abs (year_start (y + q)) < 2 ^ 40) as Hys by (unfold year_start; Z.to_euclidean_division_equations; lia).
  rewrite rnd_exact by (clear - Hys; lia). rewrite months_before_spec by (clear - Hys Hr; lia). cbn [mbind option_bind]. replace (0 + Z.of_nat (Z.to_nat r)) with r by (clear - Hr; lia). change (month_start (y + q) 0) with 0.
  by rewrite Z.sub_0_r.
Qed.

Lemma set_date_fields_utc tz y m d h mi s ms rest : fields_exact y m d h mi s ms ->
  set_date_fields tz (y :: m :: d :: h :: mi :: s :: ms :: rest) false = Some (time_clip (Some (make_time y m d h mi s ms))).
Proof.
  intros (Hy & Hm & Hd & Hh & Hmi & Hs & Hms & Hday). rewrite year_months by done.
  change (rd (y :: m :: d :: h :: mi :: s :: ms :: rest) 2) with (Some d). change (rd (y :: m :: d :: h :: mi :: s :: ms :: rest) 3) with (Some h). change (rd (y :: m :: d :: h :: mi :: s :: ms :: rest) 4) with (Some mi).
  change (rd (y :: m :: d :: h :: mi :: s :: ms :: rest) 5) with (Some s). change (rd (y :: m :: d :: h :: mi :: s :: ms :: rest) 6) with (Some ms). cbn [mbind option_bind].
  unfold make_time, day_number in *. cbv zeta. generalize dependent (year_start (y + m / 12) + month_start (y + m / 12) (m mod 12)). intros D Hday. clear Hy Hm.
  rewrite rnd_exact by lia. rewrite dadd_exact by lia. rewrite date_sum by lia. do 3 f_equal. lia.
Qed.

(** ** Theorems *)

(** The fields of a moment that a date can hold. *)
Definition valid_fields (y m d h mi s ms : Z) : Prop :=
  civil y m d /\ 0 <= h < 24 /\ 0 <= mi < 60 /\ 0 <= s < 60 /\ 0 <= ms < 1000 /\ Z.abs (make_time y m d h mi s ms) <= 8640000000000000.

Lemma make_time_day y m d h mi s ms : valid_fields y m d h mi s ms -> make_time y m d h mi s ms = day_number y m d * 86400000 + h * 3600000 + mi * 60000 + s * 1000 + ms.
Proof. intros ([Hm _] & _). unfold make_time, day_number. rewrite Z.div_small, Z.mod_small by lia. by rewrite Z.add_0_r. Qed.

Lemma valid_day y m d h mi s ms : valid_fields y m d h mi s ms -> Z.abs (day_number y m d) <= 100000000 /\ 365 * Z.abs (y - 1970) <= 100000366.
Proof.
  intros H. pose proof (make_time_day _ _ _ _ _ _ _ H) as E. destruct H as (Hc & Hh & Hmi & Hs & Hms & Hb). assert (Z.abs (day_number y m d) <= 100000000) as Hd by lia. split; [done|].
  pose proof (civil_year _ _ _ Hc) as Hy. pose proof (year_start_mono 1970 y) as H1. pose proof (year_start_mono (y + 1) 1970) as H2. change (year_start 1970) with 0 in *. lia.
Qed.

Lemma valid_exact y m d h mi s ms : valid_fields y m d h mi s ms -> fields_exact y m d h mi s ms.
Proof.
  intros H. destruct (valid_day _ _ _ _ _ _ _ H) as [Hd Hy]. destruct H as ([Hm Hdm] & Hh & Hmi & Hs & Hms & _). pose proof (month_size_bounds y m Hm). unfold fields_exact. rewrite Z.div_small, Z.mod_small by lia. rewrite Z.add_0_r.
  split_and!; lia.
Qed.

Lemma time_fields_valid t : Z.abs t <= 8640000000000000 -> exists y m d, time_fields t 0 = Some (1, [y; m; d; hours t; minutes t; seconds t; millis t; (t / 86400000 + 4) mod 7; 0]) /\
  valid_fields y m d (hours t) (minutes t) (seconds t) (millis t) /\ make_time y m d (hours t) (minutes t) (seconds t) (millis t) = t.
Proof.
  intros Ht. destruct (time_fields_spec t 0) as (y & m & d & E & Hc & Hd & _); [lia|]. exists y, m, d. split; [done|]. pose proof (clock_bounds t) as (H1 & H2 & H3 & H4). pose proof (clock t) as Hclock.
  assert (make_time y m d (hours t) (minutes t) (seconds t) (millis t) = t) as Hmt.
  { unfold make_time. destruct Hc as [Hm _]. rewrite Z.div_small, Z.mod_small by lia. rewrite Z.add_0_r. unfold day_number in Hd. rewrite Hd. lia. }
  split; [|done]. unfold valid_fields. rewrite Hmt. exact (conj Hc (conj H1 (conj H2 (conj H3 (conj H4 Ht))))).
Qed.

Lemma fields_of_make y m d h mi s ms : valid_fields y m d h mi s ms ->
  exists wd, time_fields (make_time y m d h mi s ms) 0 = Some (1, [y; m; d; h; mi; s; ms; wd; 0]).
Proof.
  intros H. pose proof (make_time_day _ _ _ _ _ _ _ H) as E. destruct H as (Hc & Hh & Hmi & Hs & Hms & Hb). rewrite E in Hb |- *. clear E. remember (day_number y m d) as D eqn:ED.
  destruct (time_fields_spec (D * 86400000 + h * 3600000 + mi * 60000 + s * 1000 + ms) 0) as (y2 & m2 & d2 & E2 & Hc2 & Hd2 & _); [lia|].
  assert ((D * 86400000 + h * 3600000 + mi * 60000 + s * 1000 + ms) / 86400000 = D) as Ediv by (clear - Hh Hmi Hs Hms; Z.to_euclidean_division_equations; lia).
  rewrite Ediv in *. destruct (civil_unique y2 m2 d2 y m d Hc2 Hc ltac:(congruence)) as (-> & -> & ->). exists ((D + 4) mod 7). rewrite E2.
  assert (forall t, t = D * 86400000 + h * 3600000 + mi * 60000 + s * 1000 + ms -> hours t = h /\ minutes t = mi /\ seconds t = s /\ millis t = ms) as Hclk.
  { clear - Hh Hmi Hs Hms. intros t ->. unfold hours, minutes, seconds, millis. split_and!; Z.to_euclidean_division_equations; lia. }
  destruct (Hclk _ eq_refl) as (-> & -> & -> & ->). done.
Qed.

Lemma time_clip_id t : Z.abs t <= 8640000000000000 -> time_clip (Some t) = Some t.
Proof. intros Ht. cbn. by replace ((-8640000000000000 <=? t) && (t <=? 8640000000000000)) with true by lia. Qed.

Lemma get_fields_utc tz t force : Z.abs t <= 8640000000000000 -> get_date_fields tz (Some (Some t)) false force = time_fields t 0.
Proof. intros Ht. unfold get_date_fields. rewrite i64_ok by lia. by destruct force. Qed.

(** Setting valid fields and reading them back. *)
Lemma set_get_valid tz y m d h mi s ms rest : valid_fields y m d h mi s ms -> exists t wd,
  set_date_fields tz (y :: m :: d :: h :: mi :: s :: ms :: rest) false = Some (Some t) /\ Z.abs t <= 8640000000000000 /\
  get_date_fields tz (Some (Some t)) false false = Some (1, [y; m; d; h; mi; s; ms; wd; 0]).
Proof.
  intros Hv. destruct (fields_of_make y m d h mi s ms Hv) as (wd & E). exists (make_time y m d h mi s ms), wd. rewrite set_date_fields_utc by (by apply valid_exact).
  assert (Z.abs (make_time y m d h mi s ms) <= 8640000000000000) as Hb by apply Hv. rewrite time_clip_id, get_fields_utc by done. done.
Qed.

(** C9. Dates, both ways: a date has fields of the calendar, in range, and setting
    the fields of any moment that a date can hold gives the moment they were read
    from; reading back the fields that were set gives them again. *)
Theorem date_fields_roundtrip getTimezoneOffset :
  (forall t, Z.abs t <= 8640000000000000 -> exists y m d h mi s ms wd,
     get_date_fields getTimezoneOffset (Some (Some t)) false false = Some (1, [y; m; d; h; mi; s; ms; wd; 0]) /\ valid_fields y m d h mi s ms /\
     set_date_fields getTimezoneOffset [y; m; d; h; mi; s; ms; wd; 0] false = Some (Some t)) /\
  (forall y m d h mi s ms, valid_fields y m d h mi s ms -> exists t wd,
     set_date_fields getTimezoneOffset [y; m; d; h; mi; s; ms] false = Some (Some t) /\
     get_date_fields getTimezoneOffset (Some (Some t)) false false = Some (1, [y; m; d; h; mi; s; ms; wd; 0])).
Proof.
  split.
  - intros t Ht. destruct (time_fields_valid t Ht) as (y & m & d & E & Hv & Hmt). do 8 eexists. rewrite get_fields_utc, E by done. split; [done|]. split; [exact Hv|]. rewrite set_date_fields_utc by (by apply valid_exact). by rewrite Hmt, time_clip_id.
  - intros y m d h mi s ms Hv. destruct (set_get_valid getTimezoneOffset y m d h mi s ms [] Hv) as (t & wd & E & _ & Hg). eauto.
Qed.

(** The day after a day of the calendar. *)
Definition next_day (y m d : Z) : Z * Z * Z :=
  if d <? month_size y m then (y, m, d + 1) else if m <? 11 then (y, m + 1, 1) else (y + 1, 0, 1).

Lemma next_day_number y m d : civil y m d -> let '(y', m', d') := next_day y m d in civil y' m' d' /\ day_number y' m' d' = day_number y m d + 1.
Proof.
  intros [Hm Hd]. unfold next_day, civil, day_number. destruct (Z.ltb_spec d (month_size y m)); [lia|]. destruct (Z.ltb_spec m 11).
  - pose proof (month_start_next y m ltac:(lia)). pose proof (month_size_bounds y (m + 1) ltac:(lia)). lia.
  - replace m with 11 in * by lia. pose proof (month_end y). pose proof (days_in_year_eq y). pose proof (month_size_bounds (y + 1) 0 ltac:(lia)). change (month_start (y + 1) 0) with 0. lia.
Qed.

(** C10. The calendar: time 0 is Thursday, 1 January 1970, and 24 hours later the
    fields are those of the next day of the calendar at the same time of the day,
    for every moment that a date can hold; months have 28 to 31 days and a leap
    year every fourth year but in centuries that 400 does not divide. *)
Theorem date_calendar getTimezoneOffset :
  get_date_fields getTimezoneOffset (Some (Some 0)) false false = Some (1, [1970; 0; 1; 0; 0; 0; 0; 4; 0]) /\
  (forall t y m d h mi s ms wd, Z.abs t <= 8640000000000000 -> Z.abs (t + 86400000) <= 8640000000000000 ->
     get_date_fields getTimezoneOffset (Some (Some t)) false false = Some (1, [y; m; d; h; mi; s; ms; wd; 0]) ->
     let '(y', m', d') := next_day y m d in
     get_date_fields getTimezoneOffset (Some (Some (t + 86400000))) false false = Some (1, [y'; m'; d'; h; mi; s; ms; (wd + 1) mod 7; 0])) /\
  (forall y, leap y = if (y mod 4 =? 0) && (negb (y mod 100 =? 0) || (y mod 400 =? 0)) then 1 else 0).
Proof.
  split_and!; [vm_compute; reflexivity| |].
  - intros t y m d h mi s ms wd Ht Ht' E. unfold get_date_fields in E |- *. rewrite i64_ok in E |- * by lia. cbn [mbind option_bind fst snd] in E |- *.
    destruct (time_fields_spec t 0) as (y0 & m0 & d0 & E0 & Hc0 & Hd0 & _); [lia|]. rewrite E0 in E. injection E as -> -> -> <- <- <- <- <-.
    pose proof (next_day_number y m d Hc0) as Hn. destruct (next_day y m d) as [[y' m'] d']. destruct Hn as [Hc' Hd'].
    destruct (time_fields_spec (t + 86400000) 0) as (y1 & m1 & d1 & E1 & Hc1 & Hd1 & _); [lia|]. rewrite E1.
    assert ((t + 86400000) / 86400000 = t / 86400000 + 1) as Ediv by (rewrite <- (Z.div_add t 1 86400000) by lia; f_equal).
    destruct (civil_unique y1 m1 d1 y' m' d' Hc1 Hc' ltac:(lia)) as (-> & -> & ->). rewrite Ediv.
    assert (hours (t + 86400000) = hours t /\ minutes (t + 86400000) = minutes t /\ seconds (t + 86400000) = seconds t /\ millis (t + 86400000) = millis t) as (-> & -> & -> & ->).
    { unfold hours, minutes, seconds, millis. split_and!; Z.to_euclidean_division_equations; lia. }
    rewrite Zplus_mod_idemp_l. by replace (t / 86400000 + 4 + 1) with (t / 86400000 + 1 + 4) by lia.
  - intros y. unfold leap. rewrite days_in_year_eq. unfold year_start. destruct (Z.eqb_spec (y mod 4) 0), (Z.eqb_spec (y mod 100) 0), (Z.eqb_spec (y mod 400) 0); cbn [andb orb negb]; Z.to_euclidean_division_equations; lia.
Qed.

(** ** Setters and getters *)

(** The [magic] of the UTC setters and getters, by field (see
    [js_date_proto_funcs]). *)
Definition utc_setter (k : Z) : Z :=
  if k =? 0 then 48 else if k =? 1 then 304 else if k =? 2 then 560 else if k =? 3 then 880 else if k =? 4 then 1136 else if k =? 5 then 1392 else 1648.
Definition utc_getter (k : Z) : Z := k * 16.

Definition valid_list (l : list Z) : Prop :=
  match l with y :: m :: d :: h :: mi :: s :: ms :: _ => valid_fields y m d h mi s ms | _ => False end.

(** Every field, one goal each. *)
Ltac each_field k :=
  assert (k = 0 \/ k = 1 \/ k = 2 \/ k = 3 \/ k = 4 \/ k = 5 \/ k = 6) as Hfield by lia; decompose [or] Hfield; clear Hfield; subst k.

(** A result that is rounded is far out of the range of dates. *)
Lemma rne_error x b : 0 < b -> 2 * Z.abs (rne x b * b - x) <= b.
Proof.
  intros Hb. unfold rne. pose proof (Z.div_mod x b ltac:(lia)) as Hd. pose proof (Z.mod_pos_bound x b Hb) as Hm. set (q := x / b) in *. set (r := x mod b) in *.
  destruct (Z.ltb_spec (2 * r) b); [nia|]. destruct (Z.ltb_spec b (2 * r)); [nia|]. destruct (Z.even q); nia.
Qed.

Lemma rnd_far x : 2 ^ 53 <= Z.abs x -> rnd x = None \/ exists r, rnd x = Some r /\ 2 ^ 53 - 1 <= Z.abs r.
Proof.
  intros Hx. pose proof (proj1 (Z.log2_le_pow2 (Z.abs x) 53 ltac:(lia)) Hx) as Hl. pose proof (Z.log2_spec (Z.abs x) ltac:(lia)) as [Hlo _].
  unfold rnd. set (k := Z.log2 (Z.abs x) - 52) in *. replace (k <=? 0) with false by lia.
  replace (Z.log2 (Z.abs x)) with (52 + k) in Hlo by lia. rewrite Z.pow_add_r in Hlo by lia.
  pose proof (rne_error x (2 ^ k) ltac:(lia)) as He. assert (2 ^ 1 <= 2 ^ k) by (apply Z.pow_le_mono_r; lia).
  destruct (Z.abs _ <? 2 ^ 1024); [right|by left]. eexists. split; [done|]. lia.
Qed.

Lemma clip_out t : 8640000000000000 < Z.abs t -> time_clip (Some t) = None.
Proof. intros Ht. cbn. by replace ((-8640000000000000 <=? t) && (t <=? 8640000000000000)) with false by lia. Qed.

Lemma clip_rnd x : time_clip (rnd x) = time_clip (Some x).
Proof.
  destruct (decide (Z.abs x < 2 ^ 53)); [by rewrite rnd_exact|]. rewrite (clip_out x) by lia.
  destruct (rnd_far x) as [-> |(r & -> & Hr)]; [lia|done|]. apply clip_out. lia.
Qed.

Lemma clip_far x c : 2 ^ 53 <= Z.abs x -> Z.abs c < 86400000 -> time_clip (dadd (rnd x) (Some c)) = None.
Proof.
  intros Hx Hc. destruct (rnd_far x Hx) as [-> |(r & -> & Hr)]; [done|]. unfold dadd. cbn [mbind option_bind]. rewrite clip_rnd. apply clip_out. lia.
Qed.

(** Milliseconds of a unit of the time of the day. *)
Definition unit_of (k : Z) : Z := if k =? 3 then 3600000 else if k =? 4 then 60000 else if k =? 5 then 1000 else 1.

(** The distance a setter moves a date: to the same day of the same month of
    another year, to the same day of the month [v] counted from January (so that
    month 12 is January of the next year and month -1 December of the last one), by
    whole days, or by whole units of the time of the day. *)
Definition field_shift (l : list Z) (k v : Z) : Z :=
  match l with
  | y :: m :: d :: _ =>
      if k =? 0 then (day_number v m d - day_number y m d) * 86400000
      else if k =? 1 then (day_number (y + v / 12) (v mod 12) d - day_number y m d) * 86400000
      else if k =? 2 then (v - d) * 86400000
      else (v - nth (Z.to_nat k) l 0) * unit_of k
  | _ => 0
  end.

(** Arguments whose effect on the days or on the time of the day no [double]
    rounds: they move a date further than dates reach. *)
Definition arg_small (k v : Z) : Prop :=
  if k =? 0 then Z.abs v < 2 ^ 20 else if k =? 1 then Z.abs v < 2 ^ 24 else if k =? 2 then Z.abs v < 2 ^ 30
  else Z.abs (v * unit_of k) <= 8800000000000000.

(** Fields out of their range carry over, and a date that leaves the range of
    dates is NaN.  Either the days or the time of the day are far out of range. *)
Lemma set_date_fields_carry tz y m d h mi s ms rest :
  Z.abs y < 2 ^ 20 -> Z.abs m < 2 ^ 24 -> Z.abs d < 2 ^ 30 ->
  Z.abs (h * 3600000) < 2 ^ 53 - 86400000 -> Z.abs (mi * 60000) < 2 ^ 53 - 86400000 -> Z.abs (s * 1000) < 2 ^ 53 - 86400000 ->
  Z.abs (h * 3600000 + mi * 60000) < 2 ^ 53 -> Z.abs (h * 3600000 + mi * 60000 + s * 1000) < 2 ^ 53 ->
  Z.abs (h * 3600000 + mi * 60000 + s * 1000 + ms) < 2 ^ 53 ->
  Z.abs (day_number (y + m / 12) (m mod 12) d) <= 100000001 \/ Z.abs (h * 3600000 + mi * 60000 + s * 1000 + ms) < 86400000 ->
  set_date_fields tz (y :: m :: d :: h :: mi :: s :: ms :: rest) false = Some (time_clip (Some (make_time y m d h mi s ms))).
Proof.
  intros Hy Hm Hd Hh Hmi Hs H1 H2 H3 Hcase. rewrite year_months by done.
  change (rd (y :: m :: d :: h :: mi :: s :: ms :: rest) 2) with (Some d). change (rd (y :: m :: d :: h :: mi :: s :: ms :: rest) 3) with (Some h). change (rd (y :: m :: d :: h :: mi :: s :: ms :: rest) 4) with (Some mi).
  change (rd (y :: m :: d :: h :: mi :: s :: ms :: rest) 5) with (Some s). change (rd (y :: m :: d :: h :: mi :: s :: ms :: rest) 6) with (Some ms). cbn [mbind option_bind].
  assert (Z.abs (year_start (y + m / 12) + month_start (y + m / 12) (m mod 12)) < 2 ^ 40) as HD.
  { pose proof (month_start_bounds (y + m / 12) (m mod 12) ltac:(pose proof (Z.mod_pos_bound m 12); lia)).
    assert (Z.abs (y + m / 12) < 2 ^ 25) by (clear - Hy Hm; Z.to_euclidean_division_equations; lia). generalize dependent (y + m / 12). intros q ? ?.
    unfold year_start. Z.to_euclidean_division_equations; lia. }
  unfold make_time, day_number in *. cbv zeta. generalize dependent (year_start (y + m / 12) + month_start (y + m / 12) (m mod 12)). intros D Hcase HD. clear Hy Hm.
  rewrite rnd_exact by lia. rewrite dadd_exact by lia. rewrite (dmul_exact h), (dmul_exact mi), (dmul_exact s) by lia. rewrite !dadd_exact by lia. cbn [dmul mbind option_bind].
  set (c := h * 3600000 + mi * 60000 + s * 1000 + ms) in *. replace (D + (d - 1)) with (D + d - 1) by lia. f_equal.
  replace ((D + d - 1) * 86400000 + h * 3600000 + mi * 60000 + s * 1000 + ms) with ((D + d - 1) * 86400000 + c) by lia. clearbody c. clear Hh Hmi Hs H1 H2.
  destruct (decide (Z.abs ((D + d - 1) * 86400000) < 2 ^ 53)).
  - rewrite rnd_exact by done. unfold dadd. cbn [mbind option_bind]. apply clip_rnd.
  - rewrite clip_far by lia. rewrite clip_out by lia. done.
Qed.

(** The fields of a date with one of them replaced. *)
Lemma set_field_shift tz t k v y m d wd : Z.abs t <= 8640000000000000 -> 0 <= k <= 6 -> arg_small k v ->
  valid_fields y m d (hours t) (minutes t) (seconds t) (millis t) -> make_time y m d (hours t) (minutes t) (seconds t) (millis t) = t ->
  set_date_fields tz (upd [y; m; d; hours t; minutes t; seconds t; millis t; wd; 0] k v) false =
    Some (time_clip (Some (t + field_shift [y; m; d; hours t; minutes t; seconds t; millis t; wd; 0] k v))).
Proof.
  intros Ht Hk Hsmall Hvalid Hmt. pose proof (valid_day _ _ _ _ _ _ _ Hvalid) as [Hday Hy]. rewrite (make_time_day _ _ _ _ _ _ _ Hvalid) in Hmt.
  destruct Hvalid as ([Hm Hd] & Hh & Hmi & Hs & Hms & _). pose proof (month_size_bounds y m Hm).
  generalize dependent (hours t). generalize dependent (minutes t). generalize dependent (seconds t). generalize dependent (millis t). intros ms Hms s Hs mi Hmi h Hmt Hh.
  each_field k; cbn [arg_small unit_of Z.eqb Pos.eqb] in Hsmall; match goal with |- set_date_fields _ ?l _ = _ => let l' := eval vm_compute in l in change l with l' end;
    (rewrite set_date_fields_carry; [|rewrite ?(Z.div_small m 12), ?(Z.mod_small m 12), ?Z.add_0_r by lia; lia..]); do 3 f_equal;
    unfold make_time, field_shift, unit_of; month_eval; unfold day_number in *;
    rewrite ?(Z.div_small m 12), ?(Z.mod_small m 12), ?Z.add_0_r by lia; lia.
Qed.

(** C11. A setter with one argument [v], an integer as large as dates reach: on a
    date, the UTC setter of a field moves the date by the distance that [v] is from
    the field, whatever carries into the other fields (month 12, day 31 of February,
    hour 24), and returns and stores NaN when this leaves the range of dates.  When
    [v] makes the fields those of a moment, the new fields are the old ones but for
    the field set (and the day of the week), and the getter of the field returns
    [v]. *)
Theorem date_setter_getter getTimezoneOffset t k v l : Z.abs t <= 8640000000000000 -> 0 <= k <= 6 -> arg_small k v ->
  get_date_fields getTimezoneOffset (Some (Some t)) false false = Some (1, l) ->
  exists t', t' = time_clip (Some (t + field_shift l k v)) /\
    set_date_field getTimezoneOffset (Some (Some t)) [Some (Some v)] (utc_setter k) = Some (JS_NUMBER t', Some t') /\
    (valid_list (upd l k v) -> exists wd,
      get_date_fields getTimezoneOffset (Some t') false false = Some (1, upd (upd l k v) 7 wd) /\
      get_date_field getTimezoneOffset (Some t') (utc_getter k) = Some (JS_NUMBER (Some v))).
Proof.
  intros Ht Hk Hsmall Hget. rewrite get_fields_utc in Hget by done. destruct (time_fields_valid t Ht) as (y & m & d & E & Hvalid & Hmt). rewrite E in Hget. injection Hget as <-.
  assert (forall force, get_date_fields getTimezoneOffset (Some (Some t)) false force = Some (1, [y; m; d; hours t; minutes t; seconds t; millis t; (t / 86400000 + 4) mod 7; 0])) as Hget by (intros force; by rewrite get_fields_utc).
  generalize dependent ((t / 86400000 + 4) mod 7). intros wd0 E Hget. clear E. eexists. split; [done|].
  pose proof (set_field_shift getTimezoneOffset t k v y m d wd0 Ht Hk Hsmall Hvalid Hmt) as Hset.
  generalize dependent (time_clip (Some (t + field_shift [y; m; d; hours t; minutes t; seconds t; millis t; wd0; 0] k v))). intros T Hset. split.
  - unfold set_date_field. each_field k; match goal with |- context [get_date_fields _ _ ?a ?b] => change a with false end; rewrite Hget; cbn [mbind option_bind].
    all: match type of Hset with ?x = _ => transitivity (d ← x; Some (JS_NUMBER d, Some d)); [reflexivity|by rewrite Hset] end.
  - intros Hv.
    assert (exists t' wd, set_date_fields getTimezoneOffset (upd [y; m; d; hours t; minutes t; seconds t; millis t; wd0; 0] k v) false = Some (Some t') /\
      get_date_fields getTimezoneOffset (Some (Some t')) false false = Some (1, upd (upd [y; m; d; hours t; minutes t; seconds t; millis t; wd0; 0] k v) 7 wd)) as (t' & wd & Hset' & Hget').
    { clear Hset. each_field k; cbn in Hv; destruct (set_get_valid getTimezoneOffset _ _ _ _ _ _ _ [wd0; 0] Hv) as (t' & wd & E1 & _ & E2); exists t', wd; (split; [exact E1|exact E2]). }
    assert (T = Some t') as -> by congruence. exists wd. split; [done|].
    unfold get_date_field. each_field k; match goal with |- context [get_date_fields _ _ ?a false] => change a with false end; rewrite Hget'; reflexivity.
Qed.

(** Years from 0 to 99 apart, [Date.UTC] takes the fields as they are. *)
Lemma Date_UTC_valid getTimezoneOffset y m d h mi s ms : valid_fields y m d h mi s ms -> y < 0 \/ 100 <= y -> exists t wd,
  js_Date_UTC getTimezoneOffset (Some ∘ Some <$> [y; m; d; h; mi; s; ms]) = Some (JS_NUMBER (Some t)) /\
  get_date_fields getTimezoneOffset (Some (Some t)) false false = Some (1, [y; m; d; h; mi; s; ms; wd; 0]).
Proof.
  intros Hv Hy. destruct (set_get_valid getTimezoneOffset y m d h mi s ms [] Hv) as (t & wd & E & _ & Hg). exists t, wd. split; [|done].
  transitivity (d ← set_date_fields getTimezoneOffset [if (0 <=? y) && (y <? 100) then y + 1900 else y; m; d; h; mi; s; ms] false; Some (JS_NUMBER d)); [reflexivity|].
  replace ((0 <=? y) && (y <? 100)) with false by lia. by rewrite E.
Qed.

(** A year that [int64_t] cannot hold: the conversion is undefined. *)
Example Date_UTC_huge_year : js_Date_UTC (fun _ => 0) [Some (Some (2 ^ 70))] = None.
Proof. vm_compute. reflexivity. Qed.

Lemma valid_sample : valid_fields 2024 1 29 23 59 59 999.
Proof. unfold valid_fields, civil. change (month_size 2024 1) with 29. change (make_time 2024 1 29 23 59 59 999) with 1709251199999. lia. Qed.

Lemma date_fields_roundtrip_witness : exists t wd, set_date_fields (fun _ => 0) [2024; 1; 29; 23; 59; 59; 999] false = Some (Some t) /\
  get_date_fields (fun _ => 0) (Some (Some t)) false false = Some (1, [2024; 1; 29; 23; 59; 59; 999; wd; 0]).
Proof. exact (proj2 (date_fields_roundtrip (fun _ => 0)) 2024 1 29 23 59 59 999 valid_sample). Defined.

Lemma date_calendar_witness : get_date_fields (fun _ => 0) (Some (Some (1709251199999 + 86400000))) false false = Some (1, [2024; 2; 1; 23; 59; 59; 999; 5; 0]).
Proof. exact (proj1 (proj2 (date_calendar (fun _ => 0))) 1709251199999 2024 1 29 23 59 59 999 4 ltac:(lia) ltac:(lia) ltac:(vm_compute; reflexivity)). Defined.

(** Day 29 of January 1970, which is a day of the month, then month 12: January
    of the next year, and hour 24: the next day. *)
Lemma date_setter_getter_witness :
  (exists wd, get_date_fields (fun _ => 0) (Some (Some 2419200000)) false false = Some (1, [1970; 0; 29; 0; 0; 0; 0; wd; 0])) /\
  set_date_field (fun _ => 0) (Some (Some 0)) [Some (Some 12)] (utc_setter 1) = Some (JS_NUMBER (Some 31536000000), Some (Some 31536000000)) /\
  set_date_field (fun _ => 0) (Some (Some 0)) [Some (Some 24)] (utc_setter 3) = Some (JS_NUMBER (Some 86400000), Some (Some 86400000)).
Proof.
  destruct (date_setter_getter (fun _ => 0) 0 2 29 [1970; 0; 1; 0; 0; 0; 0; 4; 0]) as (t1 & E1 & _ & H1); [lia|lia|done|vm_compute; reflexivity|].
  destruct (date_setter_getter (fun _ => 0) 0 1 12 [1970; 0; 1; 0; 0; 0; 0; 4; 0]) as (t2 & E2 & H2 & _); [lia|lia|done|vm_compute; reflexivity|].
  destruct (date_setter_getter (fun _ => 0) 0 3 24 [1970; 0; 1; 0; 0; 0; 0; 4; 0]) as (t3 & E3 & H3 & _); [lia|lia|done|vm_compute; reflexivity|].
  vm_compute in E1, E2, E3. subst t1 t2 t3. split; [|split; [exact H2|exact H3]].
  destruct H1 as (wd & H1 & _); [|exists wd; exact H1].
  change (valid_fields 1970 0 29 0 0 0 0). unfold valid_fields, civil. change (month_size 1970 0) with 31. change (make_time 1970 0 29 0 0 0 0) with 2419200000. lia.
Defined.
