(* ===== verification/JsMap.v ===== *)
(** * Map and Set objects (quickjs.c)

    A map is a list of records in insertion order and a hash table over them.  A
    record is shared with the iterators that stand on it: [ref_count] counts the
    map and these iterators, and a record that is deleted while an iterator stands
    on it stays in the list, empty.  Records have addresses in a heap; a freed
    record leaves the heap, and an access to it is [None].  The intrusive lists
    are the lists of the addresses of their elements (see ListHead).

    Dropping a value can run finalizers; those of map iterators release records.
    What a drop finalizes, whether an allocation is refused and how large a
    reallocated block is are decisions of the engine's memory management, the
    parameter [MapEnv].  The weak variants are not modelled: [is_weak] is FALSE. *)

From S2P Require Import Prelude CArray.
Open Scope Z_scope.

(** ** Values *)

(** Numbers are tagged [int]s or [double]s, given by their 64 bits; strings are
    their code units, symbols and objects their addresses. *)
Inductive JSValue : Set :=
  | JS_INT (i : Z) | JS_BOOL (b : bool) | JS_NULL | JS_UNDEFINED | JS_FLOAT64 (u : Z)
  | JS_STRING (s : list Z) | JS_SYMBOL (p : Z) | JS_OBJECT (p : Z) | JS_BIG_INT (n : Z).

#[global] Instance JSValue_eq_dec : EqDecision JSValue.
Proof. solve_decision. Defined.

(** The tags as [uint32_t]. *)
Definition norm_tag (v : JSValue) : Z :=
  match v with
  | JS_BIG_INT _ => u32 (-10) | JS_SYMBOL _ => u32 (-8) | JS_STRING _ => u32 (-7) | JS_OBJECT _ => u32 (-1)
  | JS_INT _ => 0 | JS_BOOL _ => 1 | JS_NULL => 2 | JS_UNDEFINED => 3 | JS_FLOAT64 _ => 7
  end.

(** *** Bits of a [double] *)

Definition f64_nan : Z := 9221120237041090560.
Definition isnan (u : Z) : bool := 9218868437227405312 <? u mod 2 ^ 63.
Definition f64_is_zero (u : Z) : bool := u mod 2 ^ 63 =? 0.

(** [(double)i] for an [int]. *)
Definition f64_of_int (i : Z) : Z :=
  if i =? 0 then 0
  else
    let e := Z.log2 (Z.abs i) in
    Zb (i <? 0) * 2 ^ 63 + (1023 + e) * 2 ^ 52 + (Z.abs i * 2 ^ (52 - e) - 2 ^ 52).

(** [d1 == d2] for numbers. *)
Definition f64_eq (u1 u2 : Z) : bool := (u1 =? u2) || (f64_is_zero u1 && f64_is_zero u2).

(** The comparison [number_test] with [JS_EQ_SAME_VALUE_ZERO]. *)
Definition number_test (d1 d2 : Z) : bool :=
  if isnan d1 || isnan d2 then eqb (isnan d1) (isnan d2) else f64_eq d1 d2.

(** [js_strict_eq2] in the mode [JS_EQ_SAME_VALUE_ZERO]. *)
Definition js_same_value_zero (op1 op2 : JSValue) : bool :=
  match op1, op2 with
  | JS_BOOL b1, JS_BOOL b2 => eqb b1 b2
  | JS_NULL, JS_NULL | JS_UNDEFINED, JS_UNDEFINED => true
  | JS_STRING s1, JS_STRING s2 => bool_decide (s1 = s2)
  | JS_SYMBOL p1, JS_SYMBOL p2 | JS_OBJECT p1, JS_OBJECT p2 => p1 =? p2
  | JS_INT i1, JS_INT i2 => number_test (f64_of_int i1) (f64_of_int i2)
  | JS_INT i1, JS_FLOAT64 d2 => number_test (f64_of_int i1) d2
  | JS_FLOAT64 d1, JS_FLOAT64 d2 => number_test d1 d2
  | JS_FLOAT64 d1, JS_INT i2 => number_test d1 (f64_of_int i2)
  | JS_BIG_INT n1, JS_BIG_INT n2 => n1 =? n2
  | _, _ => false
  end.

(** *** Hashing *)

Definition map_normalize_key (key : JSValue) : JSValue :=
  match key with JS_FLOAT64 d => if f64_is_zero d then JS_INT 0 else key | _ => key end.

(** The two loops of [hash_string8] and [hash_string16] differ in the width of the
    code units only. *)
Definition hash_string (str : list Z) (h : Z) : Z := foldl (fun h c => u32 (h * 263 + c)) h str.

Definition hash_float64 (u : Z) : Z := u32 (Z.lxor (u mod 2 ^ 32) (u / 2 ^ 32) * 3163).

(** The product of an [int] key is computed in [int]. *)
Definition map_hash_key (key : JSValue) : option Z :=
  h ← (match key with
       | JS_BOOL b => Some (Zb b)
       | JS_STRING s => Some (hash_string s 0)
       | JS_OBJECT p | JS_SYMBOL p => Some (u32 (p * 3163))
       | JS_INT i => d ← int_check (i * 3163); Some (hash_float64 (f64_of_int d))
       | JS_FLOAT64 d => Some (hash_float64 (if isnan d then f64_nan else d))
       | _ => Some 0
       end);
  Some (Z.lxor h (norm_tag key)).

(** ** State *)

(** Decisions of the memory management: references taken and dropped, with the map
    iterators that a drop finalizes, allocations, and the slack of a reallocated
    block. *)
Class MapEnv := {
  W : Type;
  dup_value : JSValue -> W -> W;
  free_value : JSValue -> W -> W * list Z;
  js_malloc : W -> W * bool;
  js_realloc2 : Z -> W -> W * option Z }.

Record JSMapRecord := MapRecord { ref_count : Z; empty : bool; key : JSValue; value : JSValue }.

Record JSMapState := MapState {
  records : list Z; record_count : Z; hash_table : list (list Z); hash_size : Z; record_count_threshold : Z }.

Inductive JSIteratorKindEnum : Set := JS_ITERATOR_KIND_KEY | JS_ITERATOR_KIND_VALUE | JS_ITERATOR_KIND_KEY_AND_VALUE.

(** [it_obj]: the map, or FALSE for the [JS_UNDEFINED] of an iterator that has
    ended. *)
Record JSMapIteratorData := MapIterator { it_obj : bool; kind : JSIteratorKindEnum; cur_record : option Z }.

Section map.
Context `{MapEnv}.

(** A map, the heap of its records, the iterators on it, and the addresses of the
    next record and iterator. *)
Record map_heap := MapHeap {
  map_state : JSMapState; recs : gmap Z JSMapRecord; its : gmap Z JSMapIteratorData;
  next_record : Z; next_iterator : Z; world : W }.

Definition set_state (h : map_heap) (s : JSMapState) : map_heap := MapHeap s (recs h) (its h) (next_record h) (next_iterator h) (world h).
Definition set_recs (h : map_heap) (r : gmap Z JSMapRecord) : map_heap := MapHeap (map_state h) r (its h) (next_record h) (next_iterator h) (world h).
Definition set_its (h : map_heap) (i : gmap Z JSMapIteratorData) : map_heap := MapHeap (map_state h) (recs h) i (next_record h) (next_iterator h) (world h).
Definition set_world (h : map_heap) (w : W) : map_heap := MapHeap (map_state h) (recs h) (its h) (next_record h) (next_iterator h) w.

Definition set_records (s : JSMapState) (l : list Z) : JSMapState := MapState l (record_count s) (hash_table s) (hash_size s) (record_count_threshold s).
Definition set_table (s : JSMapState) (t : list (list Z)) : JSMapState := MapState (records s) (record_count s) t (hash_size s) (record_count_threshold s).
Definition set_count (s : JSMapState) (n : Z) : JSMapState := MapState (records s) n (hash_table s) (hash_size s) (record_count_threshold s).

Definition JS_DupValue (v : JSValue) (h : map_heap) : map_heap := set_world h (dup_value v (world h)).

(** [el->next] of an element of a list or of its head ([None]). *)
Fixpoint list_next (l : list Z) (el : Z) : option (option Z) :=
  match l with [] => None | x :: l => if x =? el then Some (head l) else list_next l el end.

Definition remove_link (x : Z) (l : list Z) : list Z := filter (fun y => y <> x) l.

(** ** Records *)

(** [list_del(&mr->link); js_free_rt(rt, mr)] *)
Definition free_record (h : map_heap) (mr : Z) : map_heap :=
  set_recs (set_state h (set_records (map_state h) (remove_link mr (records (map_state h))))) (delete mr (recs h)).

Definition map_decref_record (h : map_heap) (mr : Z) : option map_heap :=
  r ← recs h !! mr;
  let r := MapRecord (ref_count r - 1) (empty r) (key r) (value r) in
  if ref_count r =? 0 then if empty r then Some (free_record h mr) else None
  else Some (set_recs h (<[mr := r]> (recs h))).

Definition js_map_iterator_finalizer (h : map_heap) (i : Z) : option map_heap :=
  match its h !! i with
  | None => Some h
  | Some it =>
      h ← (match it_obj it, cur_record it with true, Some mr => map_decref_record h mr | _, _ => Some h end);
      Some (set_its h (delete i (its h)))
  end.

(** [JS_FreeValueRT] with the finalizers it runs. *)
Fixpoint finalize_iterators (h : map_heap) (l : list Z) : option map_heap :=
  match l with [] => Some h | i :: l => h ← js_map_iterator_finalizer h i; finalize_iterators h l end.

Definition JS_FreeValueRT (v : JSValue) (h : map_heap) : option map_heap :=
  let '(w, dead) := free_value v (world h) in finalize_iterators (set_world h w) dead.

Fixpoint find_chain (r : gmap Z JSMapRecord) (chain : list Z) (k : JSValue) : option (option Z) :=
  match chain with
  | [] => Some None
  | el :: chain => mr ← r !! el; if js_same_value_zero (key mr) k then Some (Some el) else find_chain r chain k
  end.

Definition map_find_record (h : map_heap) (k : JSValue) : option (option Z) :=
  hash ← map_hash_key k;
  chain ← rd (hash_table (map_state h)) (Z.land hash (u32 (hash_size (map_state h) - 1)));
  find_chain (recs h) chain k.

(** [list_add_tail(&mr->hash_link, &table[hash & (size - 1)])] *)
Definition table_add (t : list (list Z)) (size : Z) (k : JSValue) (mr : Z) : option (list (list Z)) :=
  hash ← map_hash_key k;
  let j := Z.land hash (u32 (size - 1)) in
  chain ← rd t j; wr t j (chain ++ [mr]).

Fixpoint rehash (r : gmap Z JSMapRecord) (l : list Z) (size : Z) (t : list (list Z)) : option (list (list Z)) :=
  match l with
  | [] => Some t
  | el :: l => mr ← r !! el; t ← (if empty mr then Some t else table_add t size (key mr) el); rehash r l size t
  end.

Definition map_hash_resize (h : map_heap) : option map_heap :=
  let s := map_state h in
  let new_hash_size := if hash_size s =? 1 then 4 else u32 (hash_size s * 2) in
  let '(w, new_hash_table) := js_realloc2 (16 * new_hash_size) (world h) in
  let h := set_world h w in
  match new_hash_table with
  | None => Some h
  | Some slack =>
      let new_hash_size := u32 (new_hash_size + slack / 16) in
      t ← rehash (recs h) (records s) new_hash_size (replicate (Z.to_nat new_hash_size) []);
      Some (set_state h (MapState (records s) (record_count s) t new_hash_size (u32 (new_hash_size * 2))))
  end.

(** The value of the new record is set by the caller. *)
Definition map_add_record (h : map_heap) (k : JSValue) : option (option Z * map_heap) :=
  let '(w, ok) := js_malloc (world h) in
  let h := set_world h w in
  if negb ok then Some (None, h)
  else
    let mr := next_record h in
    let h := JS_DupValue k h in
    let s := map_state h in
    t ← table_add (hash_table s) (hash_size s) k mr;
    let s := MapState (records s ++ [mr]) (u32 (record_count s + 1)) t (hash_size s) (record_count_threshold s) in
    let h := MapHeap s (<[mr := MapRecord 1 false k JS_UNDEFINED]> (recs h)) (its h) (mr + 1) (next_iterator h) (world h) in
    h ← (if record_count s >=? record_count_threshold s then map_hash_resize h else Some h);
    Some (Some mr, h).

Definition map_delete_record (h : map_heap) (mr : Z) : option map_heap :=
  r ← recs h !! mr;
  if empty r then Some h
  else
    let h := set_state h (set_table (map_state h) (remove_link mr <$> hash_table (map_state h))) in
    h ← JS_FreeValueRT (key r) h;
    h ← JS_FreeValueRT (value r) h;
    r ← recs h !! mr;
    let h := (if ref_count r - 1 =? 0 then free_record h mr
              else set_recs h (<[mr := MapRecord (ref_count r - 1) true JS_UNDEFINED JS_UNDEFINED]> (recs h))) in
    Some (set_state h (set_count (map_state h) (u32 (record_count (map_state h) - 1)))).

(** ** Methods *)

Definition js_map_set (h : map_heap) (is_set : bool) (k v : JSValue) : option (bool * map_heap) :=
  let k := map_normalize_key k in
  let v := if is_set then JS_UNDEFINED else v in
  found ← map_find_record h k;
  res ← (match found with
         | Some mr => r ← recs h !! mr; h ← JS_FreeValueRT (value r) h; Some (Some mr, h)
         | None => map_add_record h k
         end);
  match res with
  | (None, h) => Some (false, h)
  | (Some mr, h) =>
      let h := JS_DupValue v h in
      r ← recs h !! mr;
      Some (true, set_recs h (<[mr := MapRecord (ref_count r) (empty r) (key r) v]> (recs h)))
  end.

Definition js_map_get (h : map_heap) (k : JSValue) : option (JSValue * map_heap) :=
  found ← map_find_record h (map_normalize_key k);
  match found with
  | None => Some (JS_UNDEFINED, h)
  | Some mr => r ← recs h !! mr; Some (value r, JS_DupValue (value r) h)
  end.

Definition js_map_has (h : map_heap) (k : JSValue) : option bool :=
  found ← map_find_record h (map_normalize_key k); Some (bool_decide (is_Some found)).

Definition js_map_delete (h : map_heap) (k : JSValue) : option (bool * map_heap) :=
  found ← map_find_record h (map_normalize_key k);
  match found with
  | None => Some (false, h)
  | Some mr => h ← map_delete_record h mr; Some (true, h)
  end.

(** [list_for_each_safe]: [el1] is read before the record is deleted. *)
Definition clear_body (st : map_heap * option Z) : option ((map_heap * option Z) + map_heap) :=
  let '(h, el) := st in
  match el with
  | None => Some (inr h)
  | Some mr =>
      el1 ← list_next (records (map_state h)) mr;
      h ← map_delete_record h mr;
      Some (inl (h, el1))
  end.

Definition js_map_clear (h : map_heap) : option map_heap :=
  loop (length (records (map_state h)) + 1) clear_body (h, head (records (map_state h))).

Definition js_map_get_size (h : map_heap) : Z := record_count (map_state h).

(** ** Iterators *)

(** [None]: an exception; both the object and its data are allocated. *)
Definition js_create_map_iterator (h : map_heap) (k : JSIteratorKindEnum) : option Z * map_heap :=
  let '(w, ok1) := js_malloc (world h) in
  if negb ok1 then (None, set_world h w)
  else
    let '(w, ok2) := js_malloc w in
    if negb ok2 then (None, set_world h w)
    else (Some (next_iterator h),
          MapHeap (map_state h) (recs h) (<[next_iterator h := MapIterator true k None]> (its h)) (next_record h) (next_iterator h + 1) w).

Inductive next_result : Set := NEXT_EXCEPTION | NEXT_DONE | NEXT_VALUE (v : JSValue) | NEXT_ENTRY (k v : JSValue).

(** The search for the next record that is not empty. *)
Definition skip_body (h : map_heap) (el : option Z) : option (option Z + option Z) :=
  match el with
  | None => Some (inr None)
  | Some mr =>
      r ← recs h !! mr;
      if negb (empty r) then Some (inr (Some mr)) else el ← list_next (records (map_state h)) mr; Some (inl el)
  end.

(** [JS_FreeValue(ctx, it->obj)] of an iterator that ends: the caller holds a
    reference to the map. *)
Definition js_map_iterator_next (h : map_heap) (is_set : bool) (i : Z) : option (next_result * map_heap) :=
  it ← its h !! i;
  if negb (it_obj it) then Some (NEXT_DONE, h)
  else
    '(el, h) ← (match cur_record it with
                | None => Some (head (records (map_state h)), h)
                | Some mr => el ← list_next (records (map_state h)) mr; h ← map_decref_record h mr; Some (el, h)
                end);
    el ← loop (length (records (map_state h)) + 1) (skip_body h) el;
    match el with
    | None => Some (NEXT_DONE, set_its h (<[i := MapIterator false (kind it) None]> (its h)))
    | Some mr =>
        r ← recs h !! mr;
        rc ← int_check (ref_count r + 1);
        let h := set_recs h (<[mr := MapRecord rc (empty r) (key r) (value r)]> (recs h)) in
        let h := set_its h (<[i := MapIterator true (kind it) (Some mr)]> (its h)) in
        let arg := if is_set then key r else value r in
        match kind it with
        | JS_ITERATOR_KIND_KEY => Some (NEXT_VALUE (key r), JS_DupValue (key r) h)
        | JS_ITERATOR_KIND_VALUE => Some (NEXT_VALUE arg, JS_DupValue arg h)
        | JS_ITERATOR_KIND_KEY_AND_VALUE =>
            let '(w, ok) := js_malloc (world h) in
            let h := set_world h w in
            if ok then Some (NEXT_ENTRY (key r) arg, JS_DupValue arg (JS_DupValue (key r) h)) else Some (NEXT_EXCEPTION, h)
        end
    end.

(** ** Traversal *)

(** [func] is the call of the callback with the value, the key and the state of the
    map: whether it threw, what it returned, and the state after it.  Its third
    argument, the map, is borrowed. *)
Definition for_each_body (is_set : bool) (func : JSValue -> JSValue -> map_heap -> option (bool * JSValue * map_heap)) (st : map_heap * option Z) : option ((map_heap * option Z) + (bool * map_heap)) :=
  let '(h, el) := st in
  match el with
  | None => Some (inr (true, h))
  | Some mr =>
      r ← recs h !! mr;
      if negb (empty r) then
        rc ← int_check (ref_count r + 1);
        let h := set_recs h (<[mr := MapRecord rc (empty r) (key r) (value r)]> (recs h)) in
        let h := JS_DupValue (key r) h in
        let arg0 := if is_set then key r else value r in
        let h := if is_set then h else JS_DupValue (value r) h in
        '(threw, ret, h) ← func arg0 (key r) h;
        h ← JS_FreeValueRT arg0 h;
        h ← (if is_set then Some h else JS_FreeValueRT (key r) h);
        el ← list_next (records (map_state h)) mr;
        h ← map_decref_record h mr;
        if threw : bool then Some (inr (false, h)) else h ← JS_FreeValueRT ret h; Some (inl (h, el))
      else el ← list_next (records (map_state h)) mr; Some (inl (h, el))
  end.

(** FALSE: an exception of the callback.  The callback can prolong the traversal
    for ever; [fuel] bounds the number of turns. *)
Definition js_map_forEach (fuel : nat) (is_set : bool) (func : JSValue -> JSValue -> map_heap -> option (bool * JSValue * map_heap)) (h : map_heap) : option (bool * map_heap) :=
  loop fuel (for_each_body is_set func) (h, head (records (map_state h))).

(** ** The end of a map *)

(** [js_map_finalizer]: the records are freed, their links are not touched. *)
Definition finalizer_body (st : map_heap * option Z) : option ((map_heap * option Z) + map_heap) :=
  let '(h, el) := st in
  match el with
  | None => Some (inr h)
  | Some mr =>
      el1 ← list_next (records (map_state h)) mr;
      r ← recs h !! mr;
      h ← (if negb (empty r) then h ← JS_FreeValueRT (key r) h; JS_FreeValueRT (value r) h else Some h);
      Some (inl (set_recs h (delete mr (recs h)), el1))
  end.

Definition js_map_finalizer (h : map_heap) : option map_heap :=
  loop (length (records (map_state h)) + 1) finalizer_body (h, head (records (map_state h))).
End map.
