(* ===== verification/JsMapKeys.v ===== *)
(** * Keys of Map and Set objects

    Keys are compared by SameValueZero ([js_same_value_zero]), an equivalence, and
    found through their hash.  The hash agrees with the comparison for the keys
    of [key_ok]: an integer-valued [double] is hashed apart from the [int] it
    equals. *)

From S2P Require Import Prelude CArray JsMap.
Open Scope Z_scope.

(** [(int32_t)d], from the bits of a [double] in the range. *)
Definition f64_trunc (u : Z) : Z :=
  let e := u / 2 ^ 52 mod 2 ^ 11 - 1023 in
  let m := u mod 2 ^ 52 + 2 ^ 52 in
  let v := if e <? 0 then 0 else m / 2 ^ (52 - e) in
  if u / 2 ^ 63 =? 1 then - v else v.

(** Keys as they are stored: normalized, and no [double] that equals an [int]. *)
Definition key_ok (k : JSValue) : Prop :=
  match k with
  | JS_INT i => - 2 ^ 31 <= i * 3163 < 2 ^ 31
  | JS_FLOAT64 u => 0 <= u < 2 ^ 64 /\ f64_is_zero u = false /\ f64_of_int (f64_trunc u) <> u
  | _ => True
  end.

(** Keys as a program passes them. *)
Definition arg_ok (k : JSValue) : Prop :=
  match k with
  | JS_FLOAT64 u => 0 <= u < 2 ^ 64 /\ (f64_is_zero u = false -> f64_of_int (f64_trunc u) <> u)
  | _ => key_ok k
  end.

Lemma normalize_ok k : arg_ok k -> key_ok (map_normalize_key k).
Proof. destruct k; cbn; try done. destruct (f64_is_zero u) eqn:E; cbn; [lia|]. intros [? Hc]. auto. Qed.

Lemma f64_of_int_parts i : i <> 0 -> Z.abs i < 2 ^ 32 -> exists e f, 0 <= e < 32 /\ 0 <= f < 2 ^ 52 /\ Z.abs i * 2 ^ (52 - e) = f + 2 ^ 52 /\ f64_of_int i = Zb (i <? 0) * 2 ^ 63 + (1023 + e) * 2 ^ 52 + f.
Proof.
  intros Hi Hb. unfold f64_of_int. replace (i =? 0) with false by lia. set (e := Z.log2 (Z.abs i)).
  assert (0 <= e) by apply Z.log2_nonneg. assert (e < 32) by (apply Z.log2_lt_pow2; lia).
  pose proof (Z.log2_spec (Z.abs i) ltac:(lia)) as [H1 H2]. fold e in H1, H2.
  assert (2 ^ 52 = 2 ^ e * 2 ^ (52 - e)) as E52 by (rewrite <- Z.pow_add_r by lia; f_equal; lia). rewrite Z.pow_succ_r in H2 by lia.
  exists e, (Z.abs i * 2 ^ (52 - e) - 2 ^ 52). assert (0 < 2 ^ (52 - e)) by (apply Z.pow_pos_nonneg; lia). split_and!; try lia; nia.
Qed.

Lemma f64_trunc_of_int i : Z.abs i < 2 ^ 32 -> f64_trunc (f64_of_int i) = i.
Proof.
  intros Hb. destruct (decide (i = 0)) as [->|Hi]; [reflexivity|]. destruct (f64_of_int_parts i Hi Hb) as (e & f & He & Hf & Hm & ->).
  unfold f64_trunc. set (sg := Zb (i <? 0)). assert (0 <= sg <= 1) by (unfold sg; destruct (i <? 0); cbn; lia).
  assert ((sg * 2 ^ 63 + (1023 + e) * 2 ^ 52 + f) / 2 ^ 63 = sg) as ->. { symmetry. apply (Z.div_unique _ _ _ ((1023 + e) * 2 ^ 52 + f)); lia. }
  assert ((sg * 2 ^ 63 + (1023 + e) * 2 ^ 52 + f) / 2 ^ 52 = sg * 2 ^ 11 + (1023 + e)) as ->. { symmetry. apply (Z.div_unique _ _ _ f); lia. }
  assert ((sg * 2 ^ 63 + (1023 + e) * 2 ^ 52 + f) mod 2 ^ 52 = f) as ->. { symmetry. apply (Z.mod_unique _ _ (sg * 2 ^ 11 + (1023 + e))); lia. }
  assert ((sg * 2 ^ 11 + (1023 + e)) mod 2 ^ 11 = 1023 + e) as ->. { symmetry. apply (Z.mod_unique _ _ sg); lia. }
  replace (1023 + e - 1023) with e by lia. replace (e <? 0) with false by lia. rewrite <- Hm, Z.div_mul by (apply Z.pow_nonzero; lia).
  unfold sg. destruct (Z.ltb_spec i 0); cbn; lia.
Qed.

Lemma f64_of_int_range i : Z.abs i < 2 ^ 32 -> 0 <= f64_of_int i < 2 ^ 64 /\ isnan (f64_of_int i) = false /\ (f64_is_zero (f64_of_int i) = true -> i = 0).
Proof.
  intros Hb. destruct (decide (i = 0)) as [->|Hi]; [done|]. destruct (f64_of_int_parts i Hi Hb) as (e & f & He & Hf & _ & ->).
  set (sg := Zb (i <? 0)). assert (0 <= sg <= 1) by (unfold sg; destruct (i <? 0); cbn; lia).
  assert ((sg * 2 ^ 63 + (1023 + e) * 2 ^ 52 + f) mod 2 ^ 63 = (1023 + e) * 2 ^ 52 + f) as Em. { symmetry. apply (Z.mod_unique _ _ sg); lia. }
  unfold isnan, f64_is_zero. rewrite Em. split_and!; lia.
Qed.

Lemma key_int i : key_ok (JS_INT i) -> Z.abs i < 2 ^ 32.
Proof. cbn. lia. Qed.

(** *** SameValueZero *)

Lemma number_test_refl d : number_test d d = true.
Proof. unfold number_test, f64_eq. destruct (isnan d); cbn; [done|]. by rewrite Z.eqb_refl. Qed.

Lemma f64_eq_iff a b : f64_eq a b = true <-> a = b \/ f64_is_zero a = true /\ f64_is_zero b = true.
Proof. unfold f64_eq. rewrite orb_true_iff, andb_true_iff, Z.eqb_eq. done. Qed.

Lemma number_test_iff a b : number_test a b = true <-> isnan a = true /\ isnan b = true \/ isnan a = false /\ isnan b = false /\ f64_eq a b = true.
Proof. unfold number_test. destruct (isnan a), (isnan b); cbn; naive_solver. Qed.

Lemma number_test_sym a b : number_test a b = number_test b a.
Proof. apply eq_true_iff_eq. rewrite !number_test_iff, !f64_eq_iff. naive_solver. Qed.

Lemma number_test_trans a b c : number_test a b = true -> number_test b c = true -> number_test a c = true.
Proof.
  rewrite !number_test_iff, !f64_eq_iff. intros [[? ?]|(Ha & Hb & Hab)] [[? ?]|(Hb' & Hc & Hbc)]; [by left|congruence|congruence|].
  right. split_and!; [done|done|]. destruct Hab as [->|[? ?]], Hbc as [->|[? ?]]; auto.
Qed.

(** The number a key stands for, as the bits of a [double]. *)
Definition number_bits (v : JSValue) : option Z :=
  match v with JS_INT i => Some (f64_of_int i) | JS_FLOAT64 u => Some u | _ => None end.

Lemma same_value_zero_iff a b : js_same_value_zero a b = true <->
  match number_bits a, number_bits b with Some x, Some y => number_test x y = true | None, None => a = b | _, _ => False end.
Proof.
  destruct a, b; cbn; try (split; [done|by intros [=]]); try done.
  all: try (rewrite bool_decide_eq_true; split; congruence). all: try (rewrite Z.eqb_eq; split; congruence). rewrite eqb_true_iff. split; congruence.
Qed.

Lemma same_value_zero_refl a : js_same_value_zero a a = true.
Proof. rewrite same_value_zero_iff. destruct (number_bits a); [apply number_test_refl|done]. Qed.

Lemma same_value_zero_sym a b : js_same_value_zero a b = js_same_value_zero b a.
Proof. apply eq_true_iff_eq. rewrite !same_value_zero_iff. destruct (number_bits a), (number_bits b); try done; by rewrite number_test_sym. Qed.

Lemma same_value_zero_trans a b c : js_same_value_zero a b = true -> js_same_value_zero b c = true -> js_same_value_zero a c = true.
Proof. rewrite !same_value_zero_iff. destruct (number_bits a), (number_bits b), (number_bits c); try done; [apply number_test_trans|congruence]. Qed.

(** *** The hash *)

Lemma int_hash i : key_ok (JS_INT i) -> map_hash_key (JS_INT i) = Some (Z.lxor (hash_float64 (f64_of_int (i * 3163))) 0).
Proof. cbn. intros Hi. unfold map_hash_key, int_check. replace ((- 2 ^ 31 <=? i * 3163) && (i * 3163 <? 2 ^ 31)) with true by lia. done. Qed.

Lemma map_hash_key_ok k : key_ok k -> is_Some (map_hash_key k).
Proof. destruct k; cbn [key_ok]; intros Hk; try by eexists. rewrite int_hash by done. by eexists. Qed.

Lemma number_test_int i j : key_ok (JS_INT i) -> key_ok (JS_INT j) -> number_test (f64_of_int i) (f64_of_int j) = true -> i = j.
Proof.
  intros Hi%key_int Hj%key_int. destruct (f64_of_int_range i Hi) as (_ & Ni & Zi), (f64_of_int_range j Hj) as (_ & Nj & Zj). rewrite number_test_iff, f64_eq_iff, Ni, Nj.
  intros [[[=] _]|(_ & _ & [E|[? ?]])]; [|by rewrite Zi, Zj by done]. by rewrite <- (f64_trunc_of_int i Hi), E, f64_trunc_of_int.
Qed.

Lemma number_test_mixed i u : key_ok (JS_INT i) -> key_ok (JS_FLOAT64 u) -> number_test (f64_of_int i) u = false.
Proof.
  intros Hi%key_int (_ & Hz & Hu). destruct (f64_of_int_range i Hi) as (_ & Ni & _). apply not_true_iff_false. rewrite number_test_iff, f64_eq_iff, Ni, Hz.
  intros [[[=] _]|(_ & _ & [E|[_ [=]]])]. apply Hu. by rewrite <- E, f64_trunc_of_int.
Qed.

(** Keys that SameValueZero identifies have the same hash. *)
Lemma hash_same a b : key_ok a -> key_ok b -> js_same_value_zero a b = true -> map_hash_key a = map_hash_key b.
Proof.
  intros Ha Hb. rewrite same_value_zero_iff. destruct a, b; cbn [number_bits]; intros Hs; try (by injection Hs as <-); try done.
  - by rewrite (number_test_int i i0).
  - by rewrite number_test_mixed in Hs.
  - rewrite number_test_sym in Hs. by rewrite number_test_mixed in Hs.
  - destruct Ha as (_ & Za & _), Hb as (_ & Zb' & _). rewrite number_test_iff, f64_eq_iff, Za, Zb' in Hs. unfold map_hash_key.
    destruct Hs as [[-> ->]|(_ & _ & [->|[? ?]])]; done.
Qed.
