(* ===== verification/JsMapRefs.v ===== *)
(** * Records of a map and the iterators on them

    [refs_ok]: the list of records, the heap and the counts agree with the map and
    its iterators.  Finalizers of iterators keep this and the contents of the
    records ([finalized]). *)

From S2P Require Import Prelude CArray JsMap.
Open Scope Z_scope.

(** ** Lists of addresses *)

Lemma elem_of_remove_link x l i : i ∈ remove_link x l <-> i ∈ l /\ i <> x.
Proof. unfold remove_link. rewrite list_elem_of_filter. tauto. Qed.

Lemma remove_link_sorted x l : StronglySorted Z.lt l -> StronglySorted Z.lt (remove_link x l).
Proof.
  unfold remove_link. induction 1 as [|y l Hs IH Hf]; [constructor|]. rewrite filter_cons. destruct (decide _); [|done].
  constructor; [done|]. rewrite Forall_forall in Hf |- *. intros z [_ ?]%list_elem_of_filter. auto.
Qed.

Lemma sorted_cons_inv x l : StronglySorted Z.lt (x :: l) -> StronglySorted Z.lt l /\ forall y, y ∈ l -> x < y.
Proof. inversion 1 as [|?? ? Hf]; subst. rewrite Forall_forall in Hf. auto. Qed.

(** The next element is the least greater one. *)
Lemma list_next_spec l x : StronglySorted Z.lt l -> x ∈ l -> exists n, list_next l x = Some n /\
  match n with Some y => y ∈ l /\ x < y /\ (forall z, z ∈ l -> x < z -> y <= z) | None => forall z, z ∈ l -> z <= x end.
Proof.
  induction l as [|y l IH]; intros Hs Hx; [by apply elem_of_nil in Hx|]. apply sorted_cons_inv in Hs as [Hs Hy]. cbn [list_next]. destruct (Z.eqb_spec y x) as [->|Hne].
  - exists (head l). split; [done|]. destruct l as [|z l]; cbn [head].
    + intros z [->|?%elem_of_nil]%elem_of_cons; [lia|done].
    + split_and!; [set_solver|apply Hy; set_solver|]. intros t [->|[->|Ht]%elem_of_cons]%elem_of_cons Hlt; [lia|lia|]. apply sorted_cons_inv in Hs as [_ Hz]. specialize (Hz t Ht). lia.
  - assert (x ∈ l) as Hx' by set_solver. destruct (IH Hs Hx') as (n & E & Hn). exists n. split; [done|]. specialize (Hy x Hx'). destruct n as [z|].
    + destruct Hn as (Hz & Hlt & Hmin). split_and!; [set_solver|done|]. intros t [->|Ht]%elem_of_cons Hxt; [lia|auto].
    + intros t [->|Ht]%elem_of_cons; [lia|auto].
Qed.

Lemma head_spec l : StronglySorted Z.lt l -> match head l with Some y => y ∈ l /\ (forall z, z ∈ l -> y <= z) | None => forall z, z ∉ l end.
Proof. destruct l as [|y l]; cbn; [intros _ z; apply not_elem_of_nil|]. intros [_ Hy]%sorted_cons_inv. split; [set_solver|]. intros z [->|Hz]%elem_of_cons; [lia|]. specialize (Hy z Hz). lia. Qed.

(** ** Iterators on a record *)

Definition stands_on (i : Z) (p : Z * JSMapIteratorData) : Prop := cur_record p.2 = Some i.
#[global] Instance stands_on_dec i p : Decision (stands_on i p).
Proof. unfold stands_on. apply _. Defined.

Definition pins (m : gmap Z JSMapIteratorData) (i : Z) : Z := Z.of_nat (size (filter (stands_on i) m)).
Definition pin (it : JSMapIteratorData) (i : Z) : Z := Zb (bool_decide (cur_record it = Some i)).

Lemma pins_new m j it i : m !! j = None -> pins (<[j := it]> m) i = pins m i + pin it i.
Proof.
  intros Hj. unfold pins, pin. destruct (bool_decide_reflect (cur_record it = Some i)) as [E|E]; cbn [Zb].
  - rewrite map_filter_insert_True by done. rewrite map_size_insert_None; [lia|]. apply map_lookup_filter_None. by left.
  - rewrite map_filter_insert_False by done. rewrite delete_id by done. lia.
Qed.

Lemma pins_delete m j it i : m !! j = Some it -> pins (delete j m) i = pins m i - pin it i.
Proof. intros Hj. rewrite <- (insert_delete_id m j it Hj) at 2. rewrite pins_new by apply lookup_delete_eq. lia. Qed.

Lemma pins_update m j it it' i : m !! j = Some it -> pins (<[j := it']> m) i = pins m i - pin it i + pin it' i.
Proof. intros Hj. rewrite <- insert_delete_eq, pins_new by apply lookup_delete_eq. by rewrite (pins_delete m j it). Qed.

Lemma pins_nonneg m i : 0 <= pins m i.
Proof. unfold pins. lia. Qed.

Lemma pins_pos m j it i : m !! j = Some it -> cur_record it = Some i -> 0 < pins m i.
Proof. intros Hj E. pose proof (pins_delete m j it i Hj) as Hd. pose proof (pins_nonneg (delete j m) i). unfold pin in Hd. rewrite bool_decide_eq_true_2 in Hd by done. cbn in Hd. lia. Qed.

Lemma pins_bound m i : pins m i <= Z.of_nat (size m).
Proof. unfold pins. apply inj_le, map_subseteq_size, map_filter_subseteq. Qed.

Lemma pin_same it : pin it = fun i => Zb (bool_decide (cur_record it = Some i)).
Proof. done. Qed.

Lemma pins_witness m i : 0 < pins m i -> exists j it, m !! j = Some it /\ cur_record it = Some i.
Proof.
  unfold pins. intros Hp. destruct (map_choose (filter (stands_on i) m)) as (j & it & Hj).
  { intros E. rewrite E, map_size_empty in Hp. done. }
  apply map_lookup_filter_Some in Hj as [Hj Hs]. eauto.
Qed.

(** ** The invariant *)

Section refs.
Context `{MapEnv}.
Implicit Types (h : map_heap) (lk : Z -> Z).

(** [lk]: the locks that running [forEach] calls hold. *)
Record refs_ok lk h : Prop := {
  refs_sorted : StronglySorted Z.lt (records (map_state h));
  refs_dom : forall i, i ∈ records (map_state h) <-> is_Some (recs h !! i);
  refs_new : forall i, i ∈ records (map_state h) -> 0 <= i < next_record h;
  refs_count : forall i r, recs h !! i = Some r -> ref_count r = Zb (negb (empty r)) + pins (its h) i + lk i /\ 0 < ref_count r;
  refs_its : forall j it, its h !! j = Some it -> j < next_iterator h /\ (it_obj it = false -> cur_record it = None);
  refs_pin : forall j it i, its h !! j = Some it -> cur_record it = Some i -> is_Some (recs h !! i);
  refs_lock : forall i, 0 <= lk i /\ (0 < lk i -> is_Some (recs h !! i)) }.

Definition same_content (r r' : JSMapRecord) : Prop := empty r' = empty r /\ key r' = key r /\ value r' = value r.

(** [h'] is [h] after finalizers of the iterators [dead]: records that are not
    empty stay, and so do those on which no dead iterator stands. *)
Record finalized (dead : list Z) h h' : Prop := {
  fin_state : map_state h' = set_records (map_state h) (records (map_state h'));
  fin_next : next_record h' = next_record h /\ next_iterator h' = next_iterator h;
  fin_old : forall i r', recs h' !! i = Some r' -> exists r, recs h !! i = Some r /\ same_content r r';
  fin_keep : forall i r, recs h !! i = Some r -> empty r = false \/ (forall j it, j ∈ dead -> its h !! j = Some it -> cur_record it <> Some i) ->
    exists r', recs h' !! i = Some r' /\ same_content r r';
  fin_its : its h' ⊆ its h;
  fin_alive : forall j it, its h !! j = Some it -> j ∉ dead -> its h' !! j = Some it }.

Lemma finalized_refl dead h w : finalized dead h (set_world h w).
Proof. split; cbn; try done; [by destruct (map_state h)|unfold same_content; by eauto 6..]. Qed.

Lemma finalized_id dead h : finalized dead h h.
Proof. split; try done; [by destruct (map_state h)|unfold same_content; by eauto 6..]. Qed.

Lemma same_content_trans r r' r'' : same_content r r' -> same_content r' r'' -> same_content r r''.
Proof. unfold same_content. naive_solver congruence. Qed.

Lemma finalized_trans d1 d2 h h' h'' : finalized d1 h h' -> finalized d2 h' h'' -> finalized (d1 ++ d2) h h''.
Proof.
  intros [A1 A2 A3 A4 A5 A6] [B1 B2 B3 B4 B5 B6]. split.
  - rewrite B1, A1. done.
  - destruct A2, B2. split; congruence.
  - intros i r'' Hr. destruct (B3 i r'' Hr) as (r' & Hr' & Hs'). destruct (A3 i r' Hr') as (r & Hr0 & Hs). eauto using same_content_trans.
  - intros i r Hr Hk. destruct (A4 i r Hr) as (r' & Hr' & Hs). { destruct Hk as [?|Hk]; [by left|right]. intros j it Hj. apply Hk. set_solver. }
    destruct (B4 i r' Hr') as (r'' & Hr'' & Hs'). { destruct Hk as [?|Hk]; [left; by destruct Hs as [-> _]|right]. intros j it Hj Hit. apply (Hk j); [set_solver|]. by eapply lookup_weaken. }
    eauto using same_content_trans.
  - by transitivity (its h').
  - intros j it Hj Hd. apply B6; [apply A6|]; set_solver.
Qed.

(** A reference to a record is dropped: [m'] and [lk'] are the iterators and locks
    without it. *)
Lemma decref_spec lk lk' h i m' : refs_ok lk h ->
  (forall x, pins m' x + lk' x = pins (its h) x + lk x - Zb (x =? i)) -> (forall x, 0 <= lk' x) ->
  (forall j it, m' !! j = Some it -> j < next_iterator h /\ (it_obj it = false -> cur_record it = None)) -> is_Some (recs h !! i) ->
  (forall j it x, m' !! j = Some it -> cur_record it = Some x -> is_Some (recs h !! x)) -> (forall x, 0 < lk' x -> is_Some (recs h !! x)) ->
  wp (map_decref_record h i) (fun h' => refs_ok lk' (set_its h' m') /\ exists r, recs h !! i = Some r /\
    (empty r = true /\ pins m' i = 0 /\ lk' i = 0 /\ h' = free_record h i \/ exists r', same_content r r' /\ h' = set_recs h (<[i := r']> (recs h)))).
Proof.
  intros Hok Hp Hlk Hits [r Hr] Hpin Hlock. unfold map_decref_record. rewrite Hr. cbn [mbind option_bind ref_count empty key value].
  destruct (refs_count _ _ Hok i r Hr) as [Hc Hpos]. pose proof (Hp i) as Hpi. rewrite Z.eqb_refl in Hpi. cbn [Zb] in Hpi. pose proof (pins_nonneg m' i). specialize (Hlk i) as Hlki.
  destruct (Z.eqb_spec (ref_count r - 1) 0) as [E|E].
  - destruct (empty r) eqn:He; cbn [negb Zb] in Hc; [|lia]. apply wp_ret. split; [|exists r; split; [done|left; split_and!; (done || lia)]]. unfold free_record. split; cbn.
    + apply remove_link_sorted, Hok.
    + intros x. rewrite elem_of_remove_link, (refs_dom _ _ Hok), lookup_delete_is_Some. naive_solver.
    + intros x [Hx _]%elem_of_remove_link. by apply (refs_new _ _ Hok).
    + intros x rx [Hne Hx]%lookup_delete_Some. destruct (refs_count _ _ Hok x rx Hx). specialize (Hp x). replace (x =? i) with false in Hp by lia. cbn in Hp. lia.
    + exact Hits.
    + intros j it x Hj Hx. rewrite lookup_delete_is_Some. split; [|eauto]. intros <-. pose proof (pins_pos m' j it i Hj Hx). lia.
    + intros x. split; [auto|]. intros Hx. rewrite lookup_delete_is_Some. split; [|auto]. intros <-. lia.
  - apply wp_ret. split; [|exists r; split; [done|right; eexists; split; [|reflexivity]; done]]. split; cbn.
    + apply Hok.
    + intros x. rewrite (refs_dom _ _ Hok), lookup_insert_is_Some. destruct (decide (i = x)) as [<-|]; naive_solver.
    + apply Hok.
    + intros x rx Hx. destruct (decide (i = x)) as [<-|Hne].
      * rewrite lookup_insert_eq in Hx. injection Hx as <-. cbn. lia.
      * rewrite lookup_insert_ne in Hx by done. destruct (refs_count _ _ Hok x rx Hx). specialize (Hp x). replace (x =? i) with false in Hp by lia. cbn in Hp. lia.
    + exact Hits.
    + intros j it x Hj Hx. rewrite lookup_insert_is_Some'. eauto.
    + intros x. split; [auto|]. intros Hx. rewrite lookup_insert_is_Some'. auto.
Qed.

(** An iterator that stands on no record goes away. *)
Lemma refs_drop_idle lk h j it : refs_ok lk h -> its h !! j = Some it -> cur_record it = None -> refs_ok lk (set_its h (delete j (its h))).
Proof.
  intros Hok Hj Hc. split; cbn; try apply Hok.
  - intros i r Hr. rewrite (pins_delete _ _ it) by done. unfold pin. rewrite Hc, bool_decide_eq_false_2 by done. destruct (refs_count _ _ Hok i r Hr). cbn [Zb]. lia.
  - intros j' it' [_ Hj']%lookup_delete_Some. by apply (refs_its _ _ Hok).
  - intros j' it' i [_ Hj']%lookup_delete_Some. by apply (refs_pin _ _ Hok j').
Qed.

(** Dropping the reference of the iterator [j]. *)
Lemma decref_finalized h h' i j it r : its h !! j = Some it -> cur_record it = Some i -> recs h !! i = Some r ->
  (empty r = true /\ h' = free_record h i) \/ (exists r', same_content r r' /\ h' = set_recs h (<[i := r']> (recs h))) -> finalized [j] h h' /\ its h' = its h.
Proof.
  intros Hj Hc Hr [[He ->]|(r' & Hs & ->)]; (split; [|done]); split; cbn; try done.
  - intros x rx [_ Hx]%lookup_delete_Some. exists rx. by unfold same_content.
  - intros x rx Hx Hk. exists rx. split; [|by unfold same_content]. rewrite lookup_delete_ne; [done|]. intros <-. destruct Hk as [?|Hk]; [congruence|]. apply (Hk j it); [set_solver|done|done].
  - by destruct (map_state h).
  - intros x rx Hx. destruct (decide (i = x)) as [<-|Hne]; [rewrite lookup_insert_eq in Hx; injection Hx as <-; eauto|]. rewrite lookup_insert_ne in Hx by done. exists rx. by unfold same_content.
  - intros x rx Hx _. destruct (decide (i = x)) as [<-|Hne]; [rewrite lookup_insert_eq; exists r'; split; [done|congruence]|]. rewrite lookup_insert_ne by done. exists rx. by unfold same_content.
Qed.

Lemma finalized_delete h h' j : finalized [j] h h' -> finalized [j] h (set_its h' (delete j (its h'))).
Proof.
  intros [H1 H2 H3 H4 H5 H6]. split; cbn; try done.
  - by etransitivity; [apply delete_subseteq|].
  - intros j' it' Hj' Hn. rewrite lookup_delete_ne by set_solver. by apply H6.
Qed.

(** The iterator [j] no longer stands on [i]. *)
Lemma pins_leave lk h i j it m' : refs_ok lk h -> its h !! j = Some it -> cur_record it = Some i -> m' = delete j (its h) \/ (exists it', m' = <[j := it']> (its h) /\ cur_record it' = None /\ it_obj it' = true) ->
  wp (map_decref_record h i) (fun h' => refs_ok lk (set_its h' m') /\ finalized [j] h h' /\ its h' = its h).
Proof.
  intros Hok Hj Hc Hm. eapply wp_mono; [apply (decref_spec lk lk h i m' Hok)|].
  - intros x. assert (pins m' x = pins (its h) x - pin it x) as ->.
    { destruct Hm as [->|(it' & -> & Hc' & _)]; [by rewrite (pins_delete _ _ it)|]. rewrite (pins_update _ _ it) by done. unfold pin at 2. rewrite Hc', bool_decide_eq_false_2 by done. cbn [Zb]. lia. }
    unfold pin. rewrite Hc. destruct (Z.eqb_spec x i) as [->|Hne]; [rewrite bool_decide_eq_true_2 by done|rewrite bool_decide_eq_false_2 by congruence]; cbn [Zb]; lia.
  - intros x. apply (refs_lock _ _ Hok).
  - intros j' it' Hj'. destruct Hm as [->|(it0 & -> & Hc' & Ho)]; [apply lookup_delete_Some in Hj' as [_ Hj']; by apply (refs_its _ _ Hok)|].
    apply lookup_insert_Some in Hj' as [[<- <-]|[_ Hj']]; [|by apply (refs_its _ _ Hok)]. split; [by apply (refs_its _ _ Hok j it)|done].
  - by apply (refs_pin _ _ Hok j it).
  - intros j' it' x Hj' Hx. destruct Hm as [->|(it0 & -> & Hc' & Ho)]; [apply lookup_delete_Some in Hj' as [_ Hj']; by apply (refs_pin _ _ Hok j' it')|].
    apply lookup_insert_Some in Hj' as [[<- <-]|[_ Hj']]; [congruence|]. by apply (refs_pin _ _ Hok j' it').
  - intros x. apply (refs_lock _ _ Hok).
  - intros h' (Hok' & r & Hr & Hcase). split; [done|]. eapply decref_finalized; [done..|]. destruct Hcase as [(? & _ & _ & ?)|?]; [by left|by right].
Qed.

Lemma finalizer_spec lk h j : refs_ok lk h -> wp (js_map_iterator_finalizer h j) (fun h' => refs_ok lk h' /\ finalized [j] h h').
Proof.
  intros Hok. unfold js_map_iterator_finalizer. destruct (its h !! j) as [it|] eqn:Hj; [|apply wp_ret; split; [done|apply finalized_id]].
  destruct (cur_record it) as [i|] eqn:Hc.
  - assert (it_obj it = true) as ->. { destruct (refs_its _ _ Hok j it Hj) as [_ Hi]. destruct (it_obj it); [done|]. rewrite Hi in Hc; done. }
    apply wp_bind. eapply wp_mono; [apply (pins_leave lk h i j it (delete j (its h)) Hok Hj Hc); by left|]. intros h' (Hok' & Hf & E). apply wp_ret. rewrite E. split; [done|]. rewrite <- E. by apply finalized_delete.
  - assert ((match it_obj it, (None : option Z) with true, Some mr => map_decref_record h mr | _, _ => Some h end) = Some h) as -> by (by destruct (it_obj it)). cbn [mbind option_bind]. apply wp_ret.
    split; [by eapply refs_drop_idle|]. apply finalized_delete, finalized_id.
Qed.

Lemma finalize_iterators_spec lk dead h : refs_ok lk h -> wp (finalize_iterators h dead) (fun h' => refs_ok lk h' /\ finalized dead h h').
Proof.
  revert h. induction dead as [|j dead IH]; intros h Hok; cbn [finalize_iterators].
  - apply wp_ret. split; [done|]. apply finalized_id.
  - apply wp_bind. eapply wp_mono; [by apply finalizer_spec|]. intros h1 [Hok1 Hf1]. eapply wp_mono; [by apply IH|]. intros h2 [Hok2 Hf2]. split; [done|]. by eapply (finalized_trans [j]).
Qed.

Lemma refs_set_world lk h w : refs_ok lk h -> refs_ok lk (set_world h w).
Proof. intros []. by split. Qed.

Lemma free_value_spec lk v h : refs_ok lk h -> wp (JS_FreeValueRT v h) (fun h' => refs_ok lk h' /\ finalized (free_value v (world h)).2 h h').
Proof.
  intros Hok. unfold JS_FreeValueRT. destruct (free_value v (world h)) as [w dead]. eapply wp_mono; [apply finalize_iterators_spec, refs_set_world, Hok|].
  intros h' [Hok' Hf]. split; [done|]. exact (finalized_trans [] dead _ _ _ (finalized_refl [] h w) Hf).
Qed.
End refs.
