(* ===== verification/JsMapTable.v ===== *)
(** * The hash table of a map

    [table_ok]: the chain of a slot holds exactly the records whose key has this
    slot.  Adding, unlinking and rehashing keep it, whatever the size of the
    table. *)

From S2P Require Import Prelude CArray JsMap JsMapKeys JsMapRefs.
Open Scope Z_scope.

Lemma land_bound a b : 0 <= b -> 0 <= Z.land a b <= b.
Proof.
  intros Hb. split; [apply Z.land_nonneg; by right|].
  assert (b - Z.land a b = Z.ldiff b (Z.land a b)) as E.
  { apply Z.sub_nocarry_ldiff, Z.bits_inj'. intros n _. rewrite Z.ldiff_spec, Z.land_spec, Z.bits_0. by destruct (Z.testbit a n), (Z.testbit b n). }
  assert (0 <= Z.ldiff b (Z.land a b)) by (apply Z.ldiff_nonneg; by left). lia.
Qed.

(** The slot of a key. *)
Definition slot (size : Z) (k : JSValue) : option Z := hash ← map_hash_key k; Some (Z.land hash (u32 (size - 1))).

Lemma slot_ok size k : key_ok k -> 1 <= size < 2 ^ 32 -> exists j, slot size k = Some j /\ 0 <= j < size.
Proof.
  intros [hash E]%map_hash_key_ok Hs. unfold slot. rewrite E. eexists. split; [done|]. rewrite uwrap_id by (unfold in_u; lia).
  pose proof (land_bound hash (size - 1)). lia.
Qed.

Lemma slot_same size k k' : key_ok k -> key_ok k' -> js_same_value_zero k k' = true -> slot size k = slot size k'.
Proof. intros. unfold slot. by rewrite (hash_same k k'). Qed.

Record table_ok (t : list (list Z)) (size : Z) (P : Z -> JSValue -> Prop) : Prop := {
  table_size : size = zlen t /\ 1 <= size < 2 ^ 30;
  table_chain : forall j chain, rd t j = Some chain -> NoDup chain /\ forall i, i ∈ chain <-> exists k, P i k /\ slot size k = Some j }.

Lemma table_iff t size (P P' : Z -> JSValue -> Prop) : (forall i k, P i k <-> P' i k) -> table_ok t size P -> table_ok t size P'.
Proof. intros HP [H1 H2]. split; [done|]. intros j chain Hj. destruct (H2 j chain Hj) as [Hnd Hin]. split; [done|]. intros i. rewrite Hin. by setoid_rewrite HP. Qed.

Lemma table_chain_at t size P k : table_ok t size P -> key_ok k -> exists j chain, slot size k = Some j /\ 0 <= j < zlen t /\ rd t j = Some chain.
Proof. intros Ht Hk. destruct (table_size _ _ _ Ht) as [E Hs]. destruct (slot_ok size k Hk ltac:(lia)) as (j & Ej & Hj). destruct (rd_is_Some t j) as [chain Hc]; [lia|]. exists j, chain. split_and!; (done || lia). Qed.

Lemma table_add_spec t size P k mr : table_ok t size P -> key_ok k -> (forall k', ~ P mr k') ->
  exists t', table_add t size k mr = Some t' /\ table_ok t' size (fun i k' => P i k' \/ i = mr /\ k' = k).
Proof.
  intros Ht Hk Hnew. destruct (table_chain_at t size P k Ht Hk) as (j & chain & Ej & Hj & Hc). exists (upd t j (chain ++ [mr])). split.
  - unfold table_add. unfold slot in Ej. destruct (map_hash_key k) as [hash|]; [|done]. cbn in Ej |- *. injection Ej as ->. rewrite Hc. cbn. by rewrite wr_upd.
  - split; [rewrite zlen_upd; apply Ht|]. intros j' chain' Hc'. destruct (decide (j' = j)) as [->|Hne].
    + rewrite rd_upd_eq in Hc' by done. injection Hc' as <-. destruct (table_chain _ _ _ Ht j chain Hc) as [Hnd Hin]. split.
      * apply NoDup_app. split_and!; [done| |apply NoDup_singleton]. intros x Hx Heq%list_elem_of_singleton. subst x. apply Hin in Hx as (k' & HP & _). by apply (Hnew k').
      * intros i. rewrite elem_of_app, list_elem_of_singleton, Hin. split.
        { intros [(k' & HP & Hs)| ->]; [by eauto|]. exists k. auto. }
        { intros (k' & [HP|[-> ->]] & Hs); [left; eauto|by right]. }
    + rewrite rd_upd_ne in Hc' by lia. destruct (table_chain _ _ _ Ht j' chain' Hc') as [Hnd Hin]. split; [done|]. intros i. rewrite Hin. split; [naive_solver|].
      intros (k' & [HP|[-> ->]] & Hs); [by eauto|]. congruence.
Qed.

Lemma table_remove t size P mr : table_ok t size P -> table_ok (remove_link mr <$> t) size (fun i k => P i k /\ i <> mr).
Proof.
  intros [H1 H2]. split; [unfold zlen; rewrite length_fmap; exact H1|]. intros j chain Hc. unfold rd in Hc. destruct (0 <=? j) eqn:Ej; [|done].
  rewrite list_lookup_fmap in Hc. destruct (t !! Z.to_nat j) as [c|] eqn:Et; [|done]. injection Hc as <-.
  destruct (H2 j c) as [Hnd Hin]; [unfold rd; by rewrite Ej|]. split; [by apply NoDup_filter|]. intros i. rewrite elem_of_remove_link, Hin. naive_solver.
Qed.

Lemma table_empty n : 1 <= n < 2 ^ 30 -> table_ok (replicate (Z.to_nat n) []) n (fun _ _ => False).
Proof.
  intros Hn. split; [unfold zlen; rewrite length_replicate; lia|]. intros j chain Hc. unfold rd in Hc. destruct (0 <=? j); [|done]. apply lookup_replicate in Hc as [-> _].
  split; [constructor|]. intros i. split; [by intros ?%elem_of_nil|naive_solver].
Qed.

(** The records of a list that are not empty, with their keys. *)
Definition in_list (r : gmap Z JSMapRecord) (l : list Z) (i : Z) (k : JSValue) : Prop := i ∈ l /\ exists mr, r !! i = Some mr /\ empty mr = false /\ key mr = k.

Lemma rehash_spec r l size t P : table_ok t size P -> NoDup l -> (forall i k, i ∈ l -> ~ P i k) -> (forall i, i ∈ l -> is_Some (r !! i)) ->
  (forall i mr, r !! i = Some mr -> empty mr = false -> key_ok (key mr)) ->
  exists t', rehash r l size t = Some t' /\ table_ok t' size (fun i k => P i k \/ in_list r l i k).
Proof.
  intros Ht Hnd Hdis Hdom Hkeys. revert t P Ht Hdis. induction l as [|el l IH]; intros t P Ht Hdis; cbn [rehash].
  - exists t. split; [done|]. eapply table_iff; [|done]. intros i k. unfold in_list. split; [by left|]. by intros [?|[?%elem_of_nil _]].
  - apply NoDup_cons in Hnd as [Hel Hnd]. destruct (Hdom el) as [mr Hr]; [apply elem_of_cons; by left|]. rewrite Hr. cbn [mbind option_bind].
    assert (forall i, i ∈ l -> i ∈ el :: l) as Hsub by (intros; by apply elem_of_cons; right).
    destruct (empty mr) eqn:He; cbn [mbind option_bind].
    + destruct (IH Hnd (fun i Hi => Hdom i (Hsub i Hi)) t P Ht (fun i k Hi => Hdis i k (Hsub i Hi))) as (t' & -> & Ht'). exists t'. split; [done|]. eapply table_iff; [|done]. intros i k. unfold in_list.
      split; [intros [?|[? ?]]; [by left|right; auto]|]. intros [?|[[->|?]%elem_of_cons Hm]]; [by left|destruct Hm as (mr' & Hr' & He' & _); congruence|by right].
    + destruct (table_add_spec t size P (key mr) el Ht) as (t1 & -> & Ht1); [by eapply Hkeys|intros k'; apply Hdis, elem_of_cons; by left|]. cbn [mbind option_bind].
      destruct (IH Hnd (fun i Hi => Hdom i (Hsub i Hi)) t1 _ Ht1) as (t' & -> & Ht').
      { intros i k Hi [HP|[-> ->]]; [|done]. by apply (Hdis i k); [auto|]. }
      exists t'. split; [done|]. eapply table_iff; [|done]. intros i k. unfold in_list. split.
      * intros [[?|[-> ->]]|[Hi Hm]]; [by left|right; split; [apply elem_of_cons; by left|eauto]|right; split; [auto|done]].
      * intros [?|[[->|Hi]%elem_of_cons Hm]]; [by left; left|left; right; destruct Hm as (mr' & Hr' & _ & <-); split; congruence|by right].
Qed.
