(* ===== verification/JsMapSpec.v ===== *)
(** * What a map promises

    The specification follows the language definition: a map is a list of entries
    in the order of their insertion, in which a deleted entry leaves a hole for
    ever, and an iterator is an index into this list.  [map_ok] relates the records
    of the implementation with the entries: the address of a record is the index
    of its entry. *)

From S2P Require Import Prelude CArray JsMap JsMapKeys JsMapRefs JsMapTable.
Open Scope Z_scope.

Abbreviation map_data := (list (option (JSValue * JSValue))).

(** ** Entries *)

Definition has_key (k : JSValue) (e : option (JSValue * JSValue)) : Prop := match e with Some (k', _) => js_same_value_zero k' k = true | None => False end.
#[global] Instance has_key_dec k e : Decision (has_key k e).
Proof. destruct e as [[??]|]; cbn; apply _. Defined.

Definition spec_find (d : map_data) (k : JSValue) : option Z := (fun p => Z.of_nat p.1) <$> list_find (has_key k) d.

(** Number of entries. *)
Definition live (d : map_data) : Z := zlen (omap id d).

Definition entry (d : map_data) (i : Z) (k : JSValue) : Prop := exists v, rd d i = Some (Some (k, v)).

Record data_ok (d : map_data) : Prop := {
  data_key : forall i k, entry d i k -> key_ok k;
  data_distinct : forall i j k k', entry d i k -> entry d j k' -> js_same_value_zero k k' = true -> i = j }.

Lemma rd_nat {A} (l : list A) (n : nat) : rd l (Z.of_nat n) = l !! n.
Proof. rewrite rd_lookup by lia. by rewrite Nat2Z.id. Qed.

Lemma spec_find_Some d k i : spec_find d k = Some i -> exists k' v, rd d i = Some (Some (k', v)) /\ js_same_value_zero k' k = true.
Proof.
  unfold spec_find. destruct (list_find (has_key k) d) as [[n e]|] eqn:E; [|done]. intros [= <-]. apply list_find_Some in E as (Hn & Hk & _). cbn. rewrite rd_nat.
  destruct e as [[k' v]|]; [eauto|done].
Qed.

Lemma spec_find_None d k i k' : spec_find d k = None -> entry d i k' -> js_same_value_zero k' k = false.
Proof.
  unfold spec_find. destruct (list_find (has_key k) d) eqn:E; [done|]. intros _ [v Hi]. apply list_find_None in E. rewrite Forall_forall in E.
  pose proof (rd_Some_range _ _ _ Hi). rewrite rd_lookup in Hi by lia. apply list_elem_of_lookup_2 in Hi. apply E in Hi. cbn in Hi. by destruct (js_same_value_zero k' k).
Qed.

Lemma spec_find_at d k i k' : data_ok d -> entry d i k' -> js_same_value_zero k' k = true -> spec_find d k = Some i.
Proof.
  intros Hd Hi Hs. destruct (spec_find d k) as [i'|] eqn:E.
  - apply spec_find_Some in E as (k'' & v & Hi' & Hs'). f_equal. apply (data_distinct d Hd i' i k'' k'); [by exists v|done|]. apply (same_value_zero_trans _ k); [done|]. by rewrite same_value_zero_sym.
  - rewrite (spec_find_None d k i k') in Hs; done.
Qed.

(** *** Changes of the list *)

Lemma entry_app d kv i k : entry (d ++ [Some kv]) i k <-> entry d i k \/ i = zlen d /\ k = kv.1.
Proof.
  unfold entry. split.
  - intros [v Hi]. pose proof (rd_Some_range _ _ _ Hi) as Hr. rewrite zlen_app in Hr. change (zlen [Some kv]) with 1 in Hr. destruct (decide (i = zlen d)) as [->|].
    + rewrite rd_mid in Hi by done. injection Hi as ->. by right.
    + rewrite rd_app_l in Hi by lia. eauto.
  - intros [[v Hi]|[-> ->]]; [exists v; pose proof (rd_Some_range _ _ _ Hi); by rewrite rd_app_l by lia|]. exists kv.2. rewrite rd_mid by done. by destruct kv.
Qed.

Lemma rd_upd {A} (l : list A) i j v : 0 <= i < zlen l -> rd (upd l i v) j = if decide (j = i) then Some v else rd l j.
Proof. intros Hi. destruct (decide _) as [->|]; [by apply rd_upd_eq|apply rd_upd_ne; lia]. Qed.

Lemma entry_remove d i j k : 0 <= i < zlen d -> entry (upd d i None) j k <-> entry d j k /\ j <> i.
Proof. intros Hi. unfold entry. rewrite rd_upd by done. destruct (decide _) as [->|]; split; intros Hj; [by destruct Hj|destruct Hj; done|by split|apply Hj]. Qed.

Lemma entry_update d i j k v0 v k' : rd d i = Some (Some (k, v0)) -> entry (upd d i (Some (k, v))) j k' <-> entry d j k'.
Proof.
  intros Hi. pose proof (rd_Some_range _ _ _ Hi). unfold entry. rewrite rd_upd by done. destruct (decide _) as [->|]; [|done]. rewrite Hi.
  split; intros [v' [= <- <-]]; eauto.
Qed.

Lemma live_app d d' : live (d ++ d') = live d + live d'.
Proof. unfold live. rewrite omap_app, zlen_app. done. Qed.

Lemma live_bounds d : 0 <= live d <= zlen d.
Proof. unfold live, zlen. induction d as [|[?|] d IH]; cbn; lia. Qed.

Lemma live_upd d i e e' : rd d i = Some e -> live (upd d i e') = live d - live [e] + live [e'].
Proof. intros Hi. rewrite (upd_split d i e e' Hi). rewrite (rd_split d i e Hi) at 3. rewrite (cons_middle e'), (cons_middle e), !live_app. lia. Qed.

Lemma data_ok_iff d d' : (forall i k, entry d' i k -> entry d i k) -> data_ok d -> data_ok d'.
Proof. intros Hsub [H1 H2]. split; eauto. Qed.

Lemma data_ok_app d k v : data_ok d -> key_ok k -> spec_find d k = None -> data_ok (d ++ [Some (k, v)]).
Proof.
  intros Hd Hk Hn. split.
  - intros i k' [?|[_ ->]]%entry_app; [by eapply data_key|done].
  - intros i j k1 k2 [Hi|[-> ->]]%entry_app [Hj|[-> ->]]%entry_app Hs; cbn in *; [by eapply data_distinct| | |done].
    + by rewrite (spec_find_None d k i k1) in Hs.
    + rewrite same_value_zero_sym, (spec_find_None d k j k2) in Hs; done.
Qed.
