(* ===== verification/JsMapOps.v ===== *)
(** * The methods of a map keep its records in agreement with its entries *)

From S2P Require Import Prelude CArray JsMap JsMapKeys JsMapRefs JsMapTable JsMapSpec.
Open Scope Z_scope.

(** A block of 2^34 bytes is not available: sizes of hash tables stay in
    [uint32_t]. *)
Class MapEnvLaws `{MapEnv} : Prop := {
  realloc2_law : forall size w w' slack, js_realloc2 size w = (w', Some slack) -> 0 <= slack /\ size + slack < 2 ^ 34 }.

Section ops.
Context `{MapEnv} `{!MapEnvLaws}.
Implicit Types (h : map_heap) (lk : Z -> Z) (d : map_data).

Record contents h d : Prop := {
  c_next : next_record h = zlen d;
  c_rec : forall i r, recs h !! i = Some r -> rd d i = Some (if empty r then None else Some (key r, value r));
  c_live : forall i kv, rd d i = Some (Some kv) -> exists r, recs h !! i = Some r /\ empty r = false }.

Record map_ok lk h d : Prop := {
  ok_refs : refs_ok lk h;
  ok_contents : contents h d;
  ok_table : table_ok (hash_table (map_state h)) (hash_size (map_state h)) (entry d);
  ok_data : data_ok d;
  ok_count : record_count (map_state h) = live d;
  ok_len : zlen d < 2 ^ 32 }.

(** The record of an entry. *)
Lemma entry_record h d i k v : contents h d -> rd d i = Some (Some (k, v)) -> exists r, recs h !! i = Some r /\ empty r = false /\ key r = k /\ value r = v.
Proof. intros Hc Hi. destruct (c_live _ _ Hc i _ Hi) as (r & Hr & He). exists r. pose proof (c_rec _ _ Hc i r Hr) as Hd. rewrite He, Hi in Hd. injection Hd as -> ->. done. Qed.

Lemma record_entry h d i r : contents h d -> recs h !! i = Some r -> empty r = false -> rd d i = Some (Some (key r, value r)).
Proof. intros Hc Hr He. pose proof (c_rec _ _ Hc i r Hr) as Hd. by rewrite He in Hd. Qed.

(** *** Finalizers *)

Lemma contents_fin dead h h' d : finalized dead h h' -> contents h d -> contents h' d.
Proof.
  intros Hf Hc. split.
  - rewrite (proj1 (fin_next _ _ _ Hf)). apply Hc.
  - intros i r' Hr'. destruct (fin_old _ _ _ Hf i r' Hr') as (r & Hr & He & Hk & Hv). rewrite He, Hk, Hv. by apply Hc.
  - intros i kv Hi. destruct (c_live _ _ Hc i kv Hi) as (r & Hr & He). destruct (fin_keep _ _ _ Hf i r Hr (or_introl He)) as (r' & Hr' & He' & _). exists r'. split; [done|congruence].
Qed.

Lemma table_fin dead h h' : finalized dead h h' -> hash_table (map_state h') = hash_table (map_state h) /\ hash_size (map_state h') = hash_size (map_state h) /\ record_count (map_state h') = record_count (map_state h).
Proof. intros Hf. rewrite (fin_state _ _ _ Hf). done. Qed.

Lemma map_ok_fin lk dead h h' d : finalized dead h h' -> refs_ok lk h' -> map_ok lk h d -> map_ok lk h' d.
Proof. intros Hf Hr [_ Hc Ht Hd Hn Hz]. destruct (table_fin _ _ _ Hf) as (E1 & E2 & E3). split; [done|by eapply contents_fin|by rewrite E1, E2|done|by rewrite E3|done]. Qed.

Lemma map_ok_world lk h d w : map_ok lk h d -> map_ok lk (set_world h w) d.
Proof. intros [Hr Hc Ht Hd Hn Hz]. split; [by apply refs_set_world| |done..]. destruct Hc. by split. Qed.

(** *** Lookup *)

Lemma find_chain_spec h d k chain : contents h d -> (forall i, i ∈ chain -> exists k', entry d i k') ->
  exists f, find_chain (recs h) chain k = Some f /\ match f with Some i => i ∈ chain /\ exists k', entry d i k' /\ js_same_value_zero k' k = true | None => forall i k', i ∈ chain -> entry d i k' -> js_same_value_zero k' k = false end.
Proof.
  intros Hc. induction chain as [|el chain IH]; intros Hin; cbn [find_chain]; [exists None; split; [done|]; by intros i k' ?%elem_of_nil|].
  destruct (Hin el) as (k' & v & Hel); [apply elem_of_cons; by left|]. destruct (entry_record h d el k' v Hc Hel) as (r & Hr & He & Hk & Hv). rewrite Hr. cbn [mbind option_bind]. rewrite Hk.
  destruct (js_same_value_zero k' k) eqn:Es; [exists (Some el); split; [done|]; split; [apply elem_of_cons; by left|exists k'; split; [by exists v|done]]|].
  destruct IH as (f & -> & Hf). { intros i Hi. apply Hin, elem_of_cons. by right. }
  exists f. split; [done|]. destruct f as [i|]; [destruct Hf; split; [apply elem_of_cons; by right|done]|]. intros i k2 [->|Hi]%elem_of_cons Hk2; [|by eapply Hf].
  destruct Hk2 as [v2 Hk2]. rewrite Hel in Hk2. by injection Hk2 as <- <-.
Qed.

Lemma find_spec h d k : contents h d -> table_ok (hash_table (map_state h)) (hash_size (map_state h)) (entry d) -> data_ok d -> key_ok k ->
  map_find_record h k = Some (spec_find d k).
Proof.
  intros Hc Ht Hd Hk. destruct (table_chain_at _ _ _ k Ht Hk) as (j & chain & Ej & Hj & Hrd). destruct (table_chain _ _ _ Ht j chain Hrd) as [_ Hin].
  unfold map_find_record. unfold slot in Ej. destruct (map_hash_key k) as [hash|] eqn:Eh; [|done]. cbn [mbind option_bind] in Ej |- *. injection Ej as Ej. rewrite Ej, Hrd. cbn [mbind option_bind].
  destruct (find_chain_spec h d k chain Hc) as (f & -> & Hf). { intros i Hi. apply Hin in Hi as (k' & Hk' & _). eauto. }
  f_equal. destruct f as [i|].
  - destruct Hf as (_ & k' & He & Hs). symmetry. by eapply spec_find_at.
  - destruct (spec_find d k) as [i|] eqn:E; [|done]. apply spec_find_Some in E as (k' & v & Hi & Hs). rewrite (Hf i k') in Hs; [done| |by exists v].
    apply Hin. exists k'. split; [by exists v|]. rewrite (slot_same _ k' k); [unfold slot; rewrite Eh; cbn; by rewrite Ej| |done|done]. eapply data_key; [done|by exists v].
Qed.

(** *** Storing a value *)

Lemma contents_store h d i k v0 v r : contents h d -> rd d i = Some (Some (k, v0)) -> recs h !! i = Some r ->
  contents (set_recs h (<[i := MapRecord (ref_count r) (empty r) (key r) v]> (recs h))) (upd d i (Some (k, v))).
Proof.
  intros Hc Hi Hr. pose proof (rd_Some_range _ _ _ Hi) as Hrange. destruct (entry_record h d i k v0 Hc Hi) as (r' & Hr' & He & Hk & Hv). rewrite Hr in Hr'. injection Hr' as <-. split; cbn.
  - rewrite zlen_upd. apply Hc.
  - intros x rx Hx. rewrite rd_upd by done. destruct (decide (x = i)) as [->|Hne]; [rewrite lookup_insert_eq in Hx; injection Hx as <-; cbn; by rewrite He, Hk|].
    rewrite lookup_insert_ne in Hx by done. by apply Hc.
  - intros x kv. rewrite rd_upd by done. destruct (decide (x = i)) as [->|Hne]; [rewrite lookup_insert_eq; eauto|]. rewrite lookup_insert_ne by done. apply Hc.
Qed.

(** A record is replaced by one with the same count and emptiness. *)
Lemma refs_replace lk h i r r' : refs_ok lk h -> recs h !! i = Some r -> ref_count r' = ref_count r -> empty r' = empty r -> refs_ok lk (set_recs h (<[i := r']> (recs h))).
Proof.
  intros Hok Hr Hc He. assert (forall x, is_Some (<[i := r']> (recs h) !! x) <-> is_Some (recs h !! x)) as Hdom.
  { intros x. destruct (decide (x = i)) as [->|]; [rewrite lookup_insert_eq, Hr|by rewrite lookup_insert_ne]. split; by eexists. }
  split; cbn; try apply Hok.
  - intros x. rewrite Hdom. apply Hok.
  - intros x rx Hx. destruct (decide (x = i)) as [->|Hne]; [rewrite lookup_insert_eq in Hx; injection Hx as <-; rewrite Hc, He; by apply Hok|]. rewrite lookup_insert_ne in Hx by done. by apply Hok.
  - intros j it x Hj Hx. apply Hdom. by apply (refs_pin _ _ Hok j it).
  - intros x. rewrite Hdom. apply Hok.
Qed.

Lemma map_ok_store lk h d i k v0 v r : map_ok lk h d -> rd d i = Some (Some (k, v0)) -> recs h !! i = Some r ->
  map_ok lk (set_recs h (<[i := MapRecord (ref_count r) (empty r) (key r) v]> (recs h))) (upd d i (Some (k, v))).
Proof.
  intros [Hr Hc Ht Hd Hn Hz] Hi Hrec. split.
  - by eapply refs_replace.
  - by eapply contents_store.
  - cbn. eapply table_iff; [|exact Ht]. intros x k'. by rewrite (entry_update d i x k v0).
  - eapply data_ok_iff; [|exact Hd]. intros x k'. by rewrite (entry_update d i x k v0).
  - cbn. rewrite Hn, (live_upd d i (Some (k, v0))) by done. change (live [Some (k, v0)]) with 1. change (live [Some (k, v)]) with 1. lia.
  - by rewrite zlen_upd.
Qed.
(** *** A new record *)

Definition same_objects h h' : Prop := recs h' = recs h /\ its h' = its h /\ next_record h' = next_record h /\ next_iterator h' = next_iterator h /\ records (map_state h') = records (map_state h) /\ record_count (map_state h') = record_count (map_state h).

Lemma refs_same lk h h' : same_objects h h' -> refs_ok lk h -> refs_ok lk h'.
Proof. intros (E1 & E2 & E3 & E4 & E5 & _) []. split; rewrite ?E1, ?E2, ?E3, ?E4, ?E5; done. Qed.

Lemma contents_same h h' d : same_objects h h' -> contents h d -> contents h' d.
Proof. intros (E1 & E2 & E3 & _) []. split; rewrite ?E1, ?E3; done. Qed.

Lemma sorted_NoDup l : StronglySorted Z.lt l -> NoDup l.
Proof. induction 1 as [|x l Hs IH Hf]; constructor; [|done]. rewrite Forall_forall in Hf. intros Hx%Hf. lia. Qed.

Lemma resize_spec lk h d : map_ok lk h d -> wp (map_hash_resize h) (fun h' => map_ok lk h' d /\ same_objects h h').
Proof.
  intros [Hr Hc Ht Hd Hn Hz]. destruct (table_size _ _ _ Ht) as [_ Hs]. unfold map_hash_resize. set (n0 := if hash_size (map_state h) =? 1 then 4 else u32 (hash_size (map_state h) * 2)).
  assert (1 <= n0 < 2 ^ 31) as Hn0. { unfold n0. destruct (hash_size (map_state h) =? 1); [lia|]. rewrite uwrap_id by (unfold in_u; lia). lia. }
  destruct (js_realloc2 (16 * n0) (world h)) as [w [slack|]] eqn:Ew; [|apply wp_ret; split; [apply map_ok_world; by split|done]].
  apply realloc2_law in Ew as [Hsl1 Hsl2]. assert (0 <= slack / 16 /\ 16 * (slack / 16) <= slack) as Hdiv by (Z.to_euclidean_division_equations; lia).
  rewrite (uwrap_id 32 (n0 + slack / 16)) by (unfold in_u; lia). set (n := n0 + slack / 16) in *. assert (1 <= n < 2 ^ 30) as Hnb by lia.
  destruct (rehash_spec (recs h) (records (map_state h)) n (replicate (Z.to_nat n) []) (fun _ _ => False)) as (t & Et & Htab); [by apply table_empty|apply sorted_NoDup, Hr|auto|by intros i ?%(refs_dom _ _ Hr)| |].
  { intros i r Hi He. eapply data_key; [done|]. exists (value r). by apply (record_entry h). }
  cbn [recs set_world]. rewrite Et. cbn [mbind option_bind]. apply wp_ret. split; [|done]. split.
  - eapply refs_same; [|exact Hr]. done.
  - eapply contents_same; [|exact Hc]. done.
  - cbn. eapply table_iff; [|exact Htab]. intros i k. unfold in_list. split.
    + intros [[]|(_ & r & Hi & He & <-)]. exists (value r). by apply (record_entry h).
    + intros [v Hi]. right. destruct (entry_record h d i k v Hc Hi) as (r & Hrec & He & Hk & _). split; [apply (refs_dom _ _ Hr); by eexists|eauto].
  - done.
  - done.
  - done.
Qed.

(** The heap with a new record, before the table is resized. *)
Lemma refs_add lk h r s : refs_ok lk h -> recs h !! next_record h = None -> 0 <= next_record h -> ref_count r = 1 -> empty r = false -> records s = records (map_state h) ++ [next_record h] ->
  refs_ok lk (MapHeap s (<[next_record h := r]> (recs h)) (its h) (next_record h + 1) (next_iterator h) (world h)).
Proof.
  intros Hok Hnone Hpos Hc He Hs. split; cbn; rewrite ?Hs; try apply Hok.
  - assert (forall l n, StronglySorted Z.lt l -> (forall i, i ∈ l -> i < n) -> StronglySorted Z.lt (l ++ [n])) as Happ.
    { clear. induction 1 as [|x l Hs IH Hf]; intros Hn; cbn; [repeat constructor|]. constructor; [apply IH; intros i Hi; apply Hn, elem_of_cons; by right|]. apply Forall_app. split; [done|]. constructor; [|constructor]. apply Hn, elem_of_cons. by left. }
    apply Happ; [apply Hok|]. intros i Hi. by apply (refs_new _ _ Hok).
  - intros i. rewrite elem_of_app, list_elem_of_singleton, (refs_dom _ _ Hok), lookup_insert_is_Some'. naive_solver.
  - intros i [Hi| ->%list_elem_of_singleton]%elem_of_app; [apply (refs_new _ _ Hok) in Hi|]; lia.
  - intros i rx Hi. destruct (decide (i = next_record h)) as [->|Hne]; [|rewrite lookup_insert_ne in Hi by done; by apply Hok]. rewrite lookup_insert_eq in Hi. injection Hi as <-. rewrite Hc, He.
    pose proof (pins_nonneg (its h) (next_record h)). destruct (decide (0 < pins (its h) (next_record h))) as [Hp|].
    { apply pins_witness in Hp as (j & it & Hj & Hit). destruct (refs_pin _ _ Hok j it _ Hj Hit). congruence. }
    destruct (refs_lock _ _ Hok (next_record h)) as [Hl Hl']. destruct (decide (0 < lk (next_record h))) as [Hlk|]; [destruct (Hl' Hlk); congruence|]. cbn. lia.
  - intros j it i Hj Hi. rewrite lookup_insert_is_Some'. right. by apply (refs_pin _ _ Hok j it).
  - intros i. destruct (refs_lock _ _ Hok i) as [Hl Hl']. split; [done|]. intros Hi. rewrite lookup_insert_is_Some'. auto.
Qed.

Lemma fresh_record lk h d : map_ok lk h d -> recs h !! next_record h = None /\ 0 <= next_record h.
Proof.
  intros Hok. pose proof (ok_contents _ _ _ Hok) as Hc. split; [|rewrite (c_next _ _ Hc); apply zlen_nonneg].
  apply eq_None_not_Some. intros Hs. apply (refs_dom _ _ (ok_refs _ _ _ Hok)), (refs_new _ _ (ok_refs _ _ _ Hok)) in Hs. lia.
Qed.

Lemma map_ok_add lk h d k t : map_ok lk h d -> zlen d < 2 ^ 32 - 1 -> key_ok k -> spec_find d k = None -> table_ok t (hash_size (map_state h)) (fun i k' => entry d i k' \/ i = next_record h /\ k' = k) ->
  map_ok lk (MapHeap (MapState (records (map_state h) ++ [next_record h]) (u32 (record_count (map_state h) + 1)) t (hash_size (map_state h)) (record_count_threshold (map_state h)))
    (<[next_record h := MapRecord 1 false k JS_UNDEFINED]> (recs h)) (its h) (next_record h + 1) (next_iterator h) (world h)) (d ++ [Some (k, JS_UNDEFINED)]).
Proof.
  intros Hok Hlen Hk Hfind Ht. destruct (fresh_record lk h d Hok) as [Hnone Hpos]. destruct Hok as [Hr Hc _ Hd Hn Hz]. pose proof (c_next _ _ Hc) as Hnext. split.
  - by apply refs_add.
  - split; cbn.
    + rewrite zlen_app, Hnext. done.
    + intros i r Hi. destruct (decide (i = next_record h)) as [->|Hne]; [rewrite lookup_insert_eq in Hi; injection Hi as <-; by rewrite rd_mid|]. rewrite lookup_insert_ne in Hi by done.
      pose proof (c_rec _ _ Hc i r Hi) as Hrd. pose proof (rd_Some_range _ _ _ Hrd). by rewrite rd_app_l by lia.
    + intros i kv Hi. destruct (decide (i = next_record h)) as [->|Hne]; [rewrite lookup_insert_eq; eauto|]. rewrite lookup_insert_ne by done.
      pose proof (rd_Some_range _ _ _ Hi) as Hrange. rewrite zlen_app in Hrange. change (zlen [Some (k, JS_UNDEFINED)]) with 1 in Hrange. rewrite rd_app_l in Hi by lia. by eapply Hc.
  - cbn. eapply table_iff; [|exact Ht]. intros i k'. rewrite entry_app, Hnext. done.
  - by apply data_ok_app.
  - cbn. rewrite Hn, live_app. change (live [Some (k, JS_UNDEFINED)]) with 1. pose proof (live_bounds d). apply uwrap_id. unfold in_u. lia.
  - rewrite zlen_app. change (zlen [Some (k, JS_UNDEFINED)]) with 1. lia.
Qed.

Lemma add_spec lk h d k : map_ok lk h d -> zlen d < 2 ^ 32 - 1 -> key_ok k -> spec_find d k = None ->
  wp (map_add_record h k) (fun '(mr, h') => its h' = its h /\ next_iterator h' = next_iterator h /\ match mr with None => map_ok lk h' d | Some mr => mr = zlen d /\ map_ok lk h' (d ++ [Some (k, JS_UNDEFINED)]) end).
Proof.
  intros Hok Hlen Hk Hfind. unfold map_add_record. destruct (js_malloc (world h)) as [w ok]. destruct ok; cbn [negb]; [|apply wp_ret; split_and!; [done..|by apply map_ok_world]].
  apply (map_ok_world _ _ _ (dup_value k w)) in Hok. change (set_world h (dup_value k w)) with (JS_DupValue k (set_world h w)) in Hok. cbn [set_world next_record] in *.
  set (h1 := JS_DupValue k (set_world h w)) in *. change (next_record h) with (next_record h1).
  destruct (table_add_spec _ _ _ k (next_record h1) (ok_table _ _ _ Hok) Hk) as (t & Et & Ht).
  { intros k' [v Hi]. apply rd_Some_range in Hi. rewrite (c_next _ _ (ok_contents _ _ _ Hok)) in Hi. lia. }
  rewrite Et. cbn [mbind option_bind]. pose proof (map_ok_add lk h1 d k t Hok Hlen Hk Hfind Ht) as Hadd.
  assert (next_record h1 = zlen d) as Hnext by apply Hok. apply wp_bind. destruct (_ >=? _).
  - eapply wp_mono; [by eapply resize_spec|]. intros h2 [Hok2 (E1 & E2 & E3 & E4 & _)]. apply wp_ret. cbn. split_and!; [by rewrite E2|by rewrite E4|done|done].
  - apply wp_ret. apply wp_ret. done.
Qed.
(** *** Deletion *)

(** The map lets a record go: it is freed, or kept empty for its iterators. *)
Definition release h i r : map_heap :=
  if ref_count r - 1 =? 0 then free_record h i else set_recs h (<[i := MapRecord (ref_count r - 1) true JS_UNDEFINED JS_UNDEFINED]> (recs h)).

Lemma refs_release lk h i r : refs_ok lk h -> recs h !! i = Some r -> empty r = false -> refs_ok lk (release h i r).
Proof.
  intros Hok Hr He. destruct (refs_count _ _ Hok i r Hr) as [Hc Hp]. rewrite He in Hc. cbn in Hc. pose proof (pins_nonneg (its h) i). destruct (refs_lock _ _ Hok i) as [Hl _].
  unfold release, free_record. destruct (Z.eqb_spec (ref_count r - 1) 0) as [E|E]; split; cbn; try apply Hok.
  - apply remove_link_sorted, Hok.
  - intros x. rewrite elem_of_remove_link, (refs_dom _ _ Hok), lookup_delete_is_Some. naive_solver.
  - intros x [Hx _]%elem_of_remove_link. by apply (refs_new _ _ Hok).
  - intros x rx [_ Hx]%lookup_delete_Some. by apply Hok.
  - intros j it x Hj Hx. rewrite lookup_delete_is_Some. split; [|by apply (refs_pin _ _ Hok j it)]. intros <-. pose proof (pins_pos _ j it i Hj Hx). lia.
  - intros x. destruct (refs_lock _ _ Hok x) as [Hx Hx']. split; [done|]. intros Hlx. rewrite lookup_delete_is_Some. split; [|auto]. intros <-. lia.
  - intros x. rewrite (refs_dom _ _ Hok), lookup_insert_is_Some. destruct (decide (i = x)) as [<-|]; naive_solver.
  - intros x rx Hx. destruct (decide (x = i)) as [->|Hne]; [rewrite lookup_insert_eq in Hx; injection Hx as <-; cbn; lia|]. rewrite lookup_insert_ne in Hx by done. by apply Hok.
  - intros j it x Hj Hx. rewrite lookup_insert_is_Some'. right. by apply (refs_pin _ _ Hok j it).
  - intros x. destruct (refs_lock _ _ Hok x) as [Hx Hx']. split; [done|]. intros Hlx. rewrite lookup_insert_is_Some'. auto.
Qed.

Lemma release_other h i r x : x <> i -> recs (release h i r) !! x = recs h !! x.
Proof. intros Hx. unfold release. destruct (_ =? _); cbn; [by rewrite lookup_delete_ne|by rewrite lookup_insert_ne]. Qed.

Lemma contents_release h d i r : contents h d -> recs h !! i = Some r -> contents (release h i r) (upd d i None).
Proof.
  intros Hc Hr. assert (0 <= i < zlen d) as Hi by (apply (rd_Some_range _ _ _ (c_rec _ _ Hc i r Hr))). split.
  - rewrite zlen_upd, <- (c_next _ _ Hc). unfold release. by destruct (_ =? _).
  - intros x rx. rewrite rd_upd by done. destruct (decide (x = i)) as [->|Hne]; [|rewrite release_other by done; apply Hc]. unfold release. destruct (_ =? _); cbn; [by rewrite lookup_delete_eq|].
    rewrite lookup_insert_eq. by intros [= <-].
  - intros x kv. rewrite rd_upd by done. destruct (decide (x = i)) as [->|Hne]; [done|]. rewrite release_other by done. apply Hc.
Qed.

(** Iterators that some drop finalizes. *)
Definition dies (j : Z) : Prop := exists v w, j ∈ (free_value v w).2.

(** What deleting the record [i] leaves of the others. *)
Record frame (i : Z) h h' : Prop := {
  frame_its : its h' ⊆ its h;
  frame_next : next_iterator h' = next_iterator h;
  frame_old : forall x r', x <> i -> recs h' !! x = Some r' -> exists r, recs h !! x = Some r /\ same_content r r';
  frame_keep : forall x r, x <> i -> recs h !! x = Some r -> empty r = false \/ (forall j it, dies j -> its h !! j = Some it -> cur_record it <> Some x) -> exists r', recs h' !! x = Some r' /\ same_content r r' }.

Lemma delete_spec lk h d i k v : map_ok lk h d -> rd d i = Some (Some (k, v)) -> wp (map_delete_record h i) (fun h' => map_ok lk h' (upd d i None) /\ frame i h h').
Proof.
  intros [Hr Hc Ht Hd Hn Hz] Hi. pose proof (rd_Some_range _ _ _ Hi) as Hrange. destruct (entry_record h d i k v Hc Hi) as (r & Hrec & He & Hk & Hv). unfold map_delete_record. rewrite Hrec. cbn [mbind option_bind]. rewrite He, Hk, Hv.
  set (h0 := set_state h (set_table (map_state h) (remove_link i <$> hash_table (map_state h)))).
  assert (refs_ok lk h0) as Hr0 by (destruct Hr; by split). assert (contents h0 d) as Hc0 by (destruct Hc; by split).
  assert (table_ok (hash_table (map_state h0)) (hash_size (map_state h0)) (entry (upd d i None))) as Ht0.
  { eapply table_iff; [|exact (table_remove _ _ _ i Ht)]. intros x k'. cbn. by rewrite entry_remove. }
  apply wp_bind. eapply wp_mono; [by apply free_value_spec|]. intros h1 [Hr1 Hf1]. apply wp_bind. eapply wp_mono; [by apply free_value_spec|]. intros h2 [Hr2 Hf2].
  pose proof (finalized_trans _ _ _ _ _ Hf1 Hf2) as Hf. pose proof (contents_fin _ _ _ _ Hf Hc0) as Hc2. destruct (table_fin _ _ _ Hf) as (E1 & E2 & E3).
  destruct (entry_record h2 d i k v Hc2 Hi) as (r2 & Hrec2 & He2 & _). rewrite Hrec2. cbn [mbind option_bind]. apply wp_ret. fold (release h2 i r2).
  assert (forall j, j ∈ (free_value k (world h0)).2 ++ (free_value v (world h1)).2 -> dies j) as Hdies by (intros j [?|?]%elem_of_app; unfold dies; eauto).
  assert (map_state (release h2 i r2) = set_records (map_state h2) (records (map_state (release h2 i r2)))) as Es by (unfold release; destruct (_ =? _); [done|]; by destruct (map_state h2) eqn:Em; cbn; rewrite Em).
  split; [split|].
  - pose proof (refs_release lk h2 i r2 Hr2 Hrec2 He2) as []. by split.
  - pose proof (contents_release h2 d i r2 Hc2 Hrec2) as []. by split.
  - cbn. rewrite Es. cbn. by rewrite E1, E2.
  - eapply data_ok_iff; [|exact Hd]. intros x k'. rewrite entry_remove by done. by intros [? _].
  - cbn. rewrite Es. cbn. rewrite E3. cbn. rewrite Hn, (live_upd d i (Some (k, v))) by done. change (live [Some (k, v)]) with 1. change (live [None]) with 0.
    pose proof (live_bounds (upd d i None)) as Hb. rewrite (live_upd d i (Some (k, v))) in Hb by done. change (live [Some (k, v)]) with 1 in Hb. change (live [None]) with 0 in Hb. rewrite zlen_upd in Hb.
    rewrite uwrap_id; unfold in_u; lia.
  - by rewrite zlen_upd.
  - split; cbn.
    + transitivity (its h2); [unfold release; by destruct (_ =? _)|]. apply (fin_its _ _ _ Hf).
    + transitivity (next_iterator h2); [unfold release; by destruct (_ =? _)|]. apply (fin_next _ _ _ Hf).
    + intros x rx Hx. rewrite release_other by done. apply (fin_old _ _ _ Hf).
    + intros x rx Hx Hrx Hk'. rewrite release_other by done. apply (fin_keep _ _ _ Hf x rx Hrx). destruct Hk' as [?|Hk']; [by left|right]. intros j it Hj. apply Hk'. auto.
Qed.
End ops.
