(* ===== verification/JsMapRefine.v ===== *)
(** * Map and Set refine their specification

    The specification is a machine on entries and cursors ([spec_step]); a refused
    allocation is its only choice.  Every method of the implementation is a step
    of it, and the implementation never touches a freed record, for the calls
    that [op_ok] admits; the examples at the end show the code wrong on others. *)

From S2P Require Import Prelude CArray JsMap JsMapKeys JsMapRefs JsMapTable JsMapSpec JsMapOps.
Open Scope Z_scope.

(** ** The specification *)

(** [cursors]: the kind of an iterator and the index it looks at next, [None] when
    it has ended. *)
Record map_spec := MapSpec { data : map_data; cursors : gmap Z (JSIteratorKindEnum * option Z) }.

Definition spec_put (d : map_data) (k v : JSValue) : map_data :=
  match spec_find d k with
  | Some i => match rd d i with Some (Some (k', _)) => upd d i (Some (k', v)) | _ => d end
  | None => d ++ [Some (k, v)]
  end.

Definition spec_get (d : map_data) (k : JSValue) : JSValue :=
  match spec_find d k with
  | Some i => match rd d i with Some (Some (_, v)) => v | _ => JS_UNDEFINED end
  | None => JS_UNDEFINED
  end.

Definition spec_remove (d : map_data) (k : JSValue) : map_data := match spec_find d k with Some i => upd d i None | None => d end.

(** The first entry at or after an index. *)
Definition next_index (d : map_data) (n : Z) : option Z := (fun p => n + Z.of_nat p.1) <$> list_find is_Some (drop (Z.to_nat n) d).

Inductive map_op : Set := SET (k v : JSValue) | GET (k : JSValue) | HAS (k : JSValue) | DELETE (k : JSValue) | CLEAR | SIZE | ITERATE (kind : JSIteratorKindEnum) | NEXT (j : Z) | DROP (j : Z).
Inductive map_out : Set := OUT_EXCEPTION | OUT_UNDEFINED | OUT_VALUE (v : JSValue) | OUT_BOOL (b : bool) | OUT_SIZE (n : Z) | OUT_ITERATOR (j : Z) | OUT_NEXT (r : next_result).

Definition next_out (is_set : bool) (kind : JSIteratorKindEnum) (k v : JSValue) : next_result :=
  let arg := if is_set then k else v in
  match kind with JS_ITERATOR_KIND_KEY => NEXT_VALUE k | JS_ITERATOR_KIND_VALUE => NEXT_VALUE arg | JS_ITERATOR_KIND_KEY_AND_VALUE => NEXT_ENTRY k arg end.

Inductive spec_step (is_set : bool) (sp : map_spec) : map_op -> map_out -> map_spec -> Prop :=
  | step_set k v : spec_step is_set sp (SET k v) OUT_UNDEFINED (MapSpec (spec_put (data sp) (map_normalize_key k) (if is_set then JS_UNDEFINED else v)) (cursors sp))
  | step_set_oom k v : spec_step is_set sp (SET k v) OUT_EXCEPTION sp
  | step_get k : spec_step is_set sp (GET k) (OUT_VALUE (spec_get (data sp) (map_normalize_key k))) sp
  | step_has k : spec_step is_set sp (HAS k) (OUT_BOOL (bool_decide (is_Some (spec_find (data sp) (map_normalize_key k))))) sp
  | step_delete k : spec_step is_set sp (DELETE k) (OUT_BOOL (bool_decide (is_Some (spec_find (data sp) (map_normalize_key k))))) (MapSpec (spec_remove (data sp) (map_normalize_key k)) (cursors sp))
  | step_clear : spec_step is_set sp CLEAR OUT_UNDEFINED (MapSpec (replicate (length (data sp)) None) (cursors sp))
  | step_size : spec_step is_set sp SIZE (OUT_SIZE (live (data sp))) sp
  | step_iterate kind j : cursors sp !! j = None -> spec_step is_set sp (ITERATE kind) (OUT_ITERATOR j) (MapSpec (data sp) (<[j := (kind, Some 0)]> (cursors sp)))
  | step_iterate_oom kind : spec_step is_set sp (ITERATE kind) OUT_EXCEPTION sp
  | step_next j kind n i k v : cursors sp !! j = Some (kind, Some n) -> next_index (data sp) n = Some i -> rd (data sp) i = Some (Some (k, v)) ->
      spec_step is_set sp (NEXT j) (OUT_NEXT (next_out is_set kind k v)) (MapSpec (data sp) (<[j := (kind, Some (i + 1))]> (cursors sp)))
  | step_next_oom j n i : cursors sp !! j = Some (JS_ITERATOR_KIND_KEY_AND_VALUE, Some n) -> next_index (data sp) n = Some i ->
      spec_step is_set sp (NEXT j) (OUT_NEXT NEXT_EXCEPTION) (MapSpec (data sp) (<[j := (JS_ITERATOR_KIND_KEY_AND_VALUE, Some (i + 1))]> (cursors sp)))
  | step_next_done j kind n : cursors sp !! j = Some (kind, n) -> match n with Some n => next_index (data sp) n = None | None => True end ->
      spec_step is_set sp (NEXT j) (OUT_NEXT NEXT_DONE) (MapSpec (data sp) (<[j := (kind, None)]> (cursors sp)))
  | step_drop j : spec_step is_set sp (DROP j) OUT_UNDEFINED sp.

(** ** The implementation as a machine *)

Section step.
Context `{MapEnv}.

(** [js_map_constructor] without an argument. *)
Definition map_new (w : W) : map_heap := MapHeap (MapState [] 0 [[]] 1 4) ∅ ∅ 0 0 w.

Definition map_step (is_set : bool) (h : map_heap) (op : map_op) : option (map_out * map_heap) :=
  match op with
  | SET k v => '(ok, h) ← js_map_set h is_set k v; Some (if ok : bool then OUT_UNDEFINED else OUT_EXCEPTION, h)
  | GET k => '(v, h) ← js_map_get h k; Some (OUT_VALUE v, h)
  | HAS k => b ← js_map_has h k; Some (OUT_BOOL b, h)
  | DELETE k => '(b, h) ← js_map_delete h k; Some (OUT_BOOL b, h)
  | CLEAR => h ← js_map_clear h; Some (OUT_UNDEFINED, h)
  | SIZE => Some (OUT_SIZE (js_map_get_size h), h)
  | ITERATE kind => let '(j, h) := js_create_map_iterator h kind in Some (match j with Some j => OUT_ITERATOR j | None => OUT_EXCEPTION end, h)
  | NEXT j => '(r, h) ← js_map_iterator_next h is_set j; Some (OUT_NEXT r, h)
  | DROP j => h ← js_map_iterator_finalizer h j; Some (OUT_UNDEFINED, h)
  end.

(** What the caller guarantees: keys without an integer-valued [double], live
    iterators, counts within their width, and, for [clear], that no drop finalizes
    an iterator that stands on a deleted entry. *)
Definition op_ok (h : map_heap) (op : map_op) : Prop :=
  match op with
  | SET k v => arg_ok k /\ next_record h < 2 ^ 32 - 1
  | GET k | HAS k | DELETE k => arg_ok k
  | CLEAR => forall j it i r, dies j -> its h !! j = Some it -> cur_record it = Some i -> recs h !! i = Some r -> empty r = false
  | NEXT j => is_Some (its h !! j) /\ forall i r, recs h !! i = Some r -> ref_count r < 2 ^ 31 - 1
  | _ => True
  end.

(** ** The simulation *)

Definition cursor_of (it : JSMapIteratorData) : option Z :=
  match it_obj it, cur_record it with true, Some i => Some (i + 1) | true, None => Some 0 | false, _ => None end.

Record cursors_ok (m : gmap Z JSMapIteratorData) (n : Z) (c : gmap Z (JSIteratorKindEnum * option Z)) : Prop := {
  cur_at : forall j it, m !! j = Some it -> c !! j = Some (kind it, cursor_of it);
  cur_new : forall j, is_Some (c !! j) -> j < n }.

Definition map_refines (lk : Z -> Z) (h : map_heap) (sp : map_spec) : Prop := map_ok lk h (data sp) /\ cursors_ok (its h) (next_iterator h) (cursors sp).

Lemma cursors_sub m m' n c : m' ⊆ m -> cursors_ok m n c -> cursors_ok m' n c.
Proof. intros Hs [H1 H2]. split; [|done]. intros j it Hj. apply H1. by eapply lookup_weaken. Qed.
End step.

(** *** The next entry *)

Lemma next_index_spec d n i : 0 <= n <= i -> (exists kv, rd d i = Some (Some kv)) -> (forall x kv, n <= x < i -> rd d x <> Some (Some kv)) -> next_index d n = Some i.
Proof.
  intros Hn [kv Hi] Hlow. unfold next_index. pose proof (rd_Some_range _ _ _ Hi). rewrite rd_lookup in Hi by lia.
  assert (list_find is_Some (drop (Z.to_nat n) d) = Some (Z.to_nat (i - n), Some kv)) as ->; [|cbn; f_equal; lia].
  apply list_find_Some. rewrite lookup_drop. replace (Z.to_nat n + Z.to_nat (i - n))%nat with (Z.to_nat i) by lia. split_and!; [done|by eexists|].
  intros x e Hx Hlt [kv' ->]. rewrite lookup_drop in Hx. apply (Hlow (n + Z.of_nat x) kv'); [lia|]. rewrite rd_lookup by lia. rewrite <- Hx. f_equal. lia.
Qed.

Lemma next_index_none d n : 0 <= n -> (forall x kv, n <= x -> rd d x <> Some (Some kv)) -> next_index d n = None.
Proof.
  intros Hn Hlow. unfold next_index. destruct (list_find is_Some (drop (Z.to_nat n) d)) as [[x e]|] eqn:E; [|done]. apply list_find_Some in E as (Hx & [kv ->] & _).
  rewrite lookup_drop in Hx. destruct (Hlow (n + Z.of_nat x) kv); [lia|]. rewrite rd_lookup by lia. rewrite <- Hx. f_equal. lia.
Qed.

Section refine.
Context `{MapEnv} `{!MapEnvLaws}.

(** ** The methods *)

Lemma find_ok lk (h : map_heap) d k : map_ok lk h d -> arg_ok k -> map_find_record h (map_normalize_key k) = Some (spec_find d (map_normalize_key k)).
Proof. intros Hok Hk. apply find_spec; [apply Hok..|by apply normalize_ok]. Qed.

Lemma set_spec lk (h : map_heap) d is_set k v : map_ok lk h d -> arg_ok k -> next_record h < 2 ^ 32 - 1 ->
  wp (js_map_set h is_set k v) (fun '(ok, h') => its h' ⊆ its h /\ next_iterator h' = next_iterator h /\ map_ok lk h' (if ok : bool then spec_put d (map_normalize_key k) (if is_set then JS_UNDEFINED else v) else d)).
Proof.
  intros Hok Hk Hlen. unfold js_map_set. rewrite (find_ok lk h d k Hok Hk). cbn [mbind option_bind]. set (k1 := map_normalize_key k). set (v1 := if is_set then JS_UNDEFINED else v). unfold spec_put. fold k1.
  destruct (spec_find d k1) as [i|] eqn:Ef.
  - apply spec_find_Some in Ef as (k' & v0 & Hi & _). destruct (entry_record h d i k' v0 (ok_contents _ _ _ Hok) Hi) as (r & Hr & He & Hk' & Hv'). rewrite Hr. cbn [mbind option_bind]. rewrite Hi.
    apply wp_bind, wp_bind. eapply wp_mono; [apply free_value_spec, Hok|]. intros h1 [Hr1 Hf1]. apply wp_ret. pose proof (map_ok_fin _ _ _ _ _ Hf1 Hr1 Hok) as Hok1. apply (map_ok_world _ _ _ (dup_value v1 (world h1))) in Hok1. change (set_world h1 (dup_value v1 (world h1))) with (JS_DupValue v1 h1) in Hok1.
    destruct (entry_record _ d i k' v0 (ok_contents _ _ _ Hok1) Hi) as (r1 & Hr1' & _). rewrite Hr1'. cbn [mbind option_bind]. apply wp_ret. split_and!; [apply Hf1|apply Hf1|]. by eapply map_ok_store.
  - apply wp_bind. assert (zlen d < 2 ^ 32 - 1) as Hz by (rewrite <- (c_next _ _ (ok_contents _ _ _ Hok)); done). eapply wp_mono; [apply (add_spec lk h d k1 Hok Hz); [by apply normalize_ok|done]|].
    intros [[mr|] h1] (Ei & En & Hok1); [|apply wp_ret; split_and!; [by rewrite Ei|done|done]]. destruct Hok1 as [-> Hok1].
    apply (map_ok_world _ _ _ (dup_value v1 (world h1))) in Hok1. change (set_world h1 (dup_value v1 (world h1))) with (JS_DupValue v1 h1) in Hok1.
    assert (rd (d ++ [Some (k1, JS_UNDEFINED)]) (zlen d) = Some (Some (k1, JS_UNDEFINED))) as Hi by (by apply rd_mid).
    destruct (entry_record _ _ _ k1 JS_UNDEFINED (ok_contents _ _ _ Hok1) Hi) as (r1 & Hr1' & _). rewrite Hr1'. cbn [mbind option_bind]. apply wp_ret. split_and!; [cbn; by rewrite Ei|done|].
    pose proof (map_ok_store lk _ _ _ k1 JS_UNDEFINED v1 r1 Hok1 Hi Hr1') as Hst. rewrite upd_mid in Hst by done. exact Hst.
Qed.

Lemma get_spec lk (h : map_heap) d k : map_ok lk h d -> arg_ok k -> exists w, js_map_get h k = Some (spec_get d (map_normalize_key k), set_world h w).
Proof.
  intros Hok Hk. unfold js_map_get. rewrite (find_ok lk h d k Hok Hk). cbn [mbind option_bind]. unfold spec_get. destruct (spec_find d (map_normalize_key k)) as [i|] eqn:Ef; [|exists (world h); by destruct h].
  apply spec_find_Some in Ef as (k' & v & Hi & _). destruct (entry_record h d i k' v (ok_contents _ _ _ Hok) Hi) as (r & Hr & _ & _ & Hv). rewrite Hr, Hi. cbn [mbind option_bind]. rewrite Hv. by eexists.
Qed.

Lemma map_delete_spec lk (h : map_heap) d k : map_ok lk h d -> arg_ok k ->
  wp (js_map_delete h k) (fun '(b, h') => b = bool_decide (is_Some (spec_find d (map_normalize_key k))) /\ its h' ⊆ its h /\ next_iterator h' = next_iterator h /\ map_ok lk h' (spec_remove d (map_normalize_key k))).
Proof.
  intros Hok Hk. unfold js_map_delete. rewrite (find_ok lk h d k Hok Hk). cbn [mbind option_bind]. unfold spec_remove. destruct (spec_find d (map_normalize_key k)) as [i|] eqn:Ef.
  - apply spec_find_Some in Ef as (k' & v & Hi & _). apply wp_bind. eapply wp_mono; [by eapply delete_spec|]. intros h' [Hok' Hf]. apply wp_ret. rewrite bool_decide_eq_true_2 by (by eexists). split_and!; [done|apply Hf|apply Hf|done].
  - apply wp_ret. rewrite bool_decide_eq_false_2 by (by intros [? [=]]). done.
Qed.

(** *** Clearing *)

(** Records at or after an element of the list. *)
Definition from (x : Z) (l : list Z) : list Z := filter (fun y => x <= y) l.
Definition left_over (h : map_heap) (el : option Z) : nat := match el with Some x => length (from x (records (map_state h))) | None => O end.

Lemma from_shrinks x y l l' : NoDup l -> NoDup l' -> (forall z, z ∈ l' -> z ∈ l \/ z = x) -> x ∈ l -> x < y -> (length (from y l') < length (from x l))%nat.
Proof.
  intros Hl Hl' Hsub Hx Hxy. enough (length (x :: from y l') <= length (from x l))%nat by (cbn in *; lia). apply submseteq_length, NoDup_submseteq.
  - constructor; [|by apply NoDup_filter]. unfold from. rewrite list_elem_of_filter. lia.
  - intros z [->|Hz]%elem_of_cons; unfold from; rewrite list_elem_of_filter; [split; [lia|done]|]. unfold from in Hz. apply list_elem_of_filter in Hz as [Hyz Hz]. destruct (Hsub z Hz); [split; [lia|done]|lia].
Qed.

Lemma all_deleted (d : map_data) : (forall x kv, rd d x <> Some (Some kv)) -> d = replicate (length d) None.
Proof.
  intros Hd. apply list_eq. intros n. destruct (d !! n) as [e|] eqn:E.
  - rewrite lookup_replicate_2 by (by apply lookup_lt_Some in E). f_equal. destruct e as [kv|]; [|done]. destruct (Hd (Z.of_nat n) kv). by rewrite rd_nat.
  - symmetry. apply lookup_ge_None. rewrite length_replicate. by apply lookup_ge_None in E.
Qed.

(** The state of the loop of [js_map_clear] that started in [h0]: the entries
    before [el] are gone. *)
Definition clear_inv lk (h0 : map_heap) (d0 : map_data) (st : map_heap * option Z) : Prop :=
  let '(h, el) := st in
  exists d, map_ok lk h d /\ zlen d = zlen d0 /\ its h ⊆ its h0 /\ next_iterator h = next_iterator h0 /\
    match el with
    | Some i => i ∈ records (map_state h) /\ (forall x kv, x < i -> rd d x <> Some (Some kv)) /\
        (forall x r, i <= x -> recs h !! x = Some r -> empty r = true -> exists r0, recs h0 !! x = Some r0 /\ empty r0 = true)
    | None => forall x kv, rd d x <> Some (Some kv)
    end.

Lemma clear_step lk (h0 : map_heap) d0 (st : map_heap * option Z) : op_ok h0 CLEAR -> clear_inv lk h0 d0 st ->
  wp (clear_body st) (fun x => match x with inl st' => clear_inv lk h0 d0 st' /\ (left_over st'.1 st'.2 < left_over st.1 st.2)%nat
    | inr h => map_ok lk h (replicate (length d0) None) /\ its h ⊆ its h0 /\ next_iterator h = next_iterator h0 end).
Proof.
  intros Hop. destruct st as [h [i|]]; cbn [clear_inv clear_body fst snd].
  2: { intros (d & Hok & Hz & Hits & Hn & Hall). apply wp_ret. split_and!; [|done|done]. replace (length d0) with (length d) by (unfold zlen in Hz; lia). by rewrite <- all_deleted. }
  intros (d & Hok & Hz & Hits & Hn & Hi & Hlow & Hemp). pose proof (ok_refs _ _ _ Hok) as Hr. pose proof (ok_contents _ _ _ Hok) as Hc.
  destruct (list_next_spec _ i (refs_sorted _ _ Hr) Hi) as (el1 & -> & Hel1). cbn [mbind option_bind]. destruct (proj1 (refs_dom _ _ Hr i) Hi) as [r Hrec]. apply wp_bind.
  (* the record after [i], if any, is still there afterwards *)
  assert (wp (map_delete_record h i) (fun h' => exists d', map_ok lk h' d' /\ zlen d' = zlen d0 /\ its h' ⊆ its h0 /\ next_iterator h' = next_iterator h0 /\
    (forall x kv, rd d' x = Some (Some kv) -> rd d x = Some (Some kv) /\ x <> i) /\
    (forall x rx, x <> i -> recs h' !! x = Some rx -> exists r0, recs h !! x = Some r0 /\ same_content r0 rx) /\
    (forall x, i < x -> is_Some (recs h !! x) -> is_Some (recs h' !! x)))) as Hdel.
  { destruct (empty r) eqn:He.
    - unfold map_delete_record. rewrite Hrec. cbn [mbind option_bind]. rewrite He. apply wp_ret. exists d. split_and!; try done.
      + intros x kv Hx. split; [done|]. intros ->. pose proof (c_rec _ _ Hc i r Hrec) as Hd. rewrite He in Hd. congruence.
      + intros x rx _ Hx. exists rx. by unfold same_content.
    - pose proof (record_entry h d i r Hc Hrec He) as Hent. pose proof (rd_Some_range _ _ _ Hent). eapply wp_mono; [by eapply delete_spec|]. intros h' [Hok' Hf]. exists (upd d i None). split_and!.
      + done.
      + by rewrite zlen_upd.
      + by etransitivity; [apply Hf|].
      + rewrite (frame_next _ _ _ Hf). done.
      + intros x kv. rewrite rd_upd by done. by destruct (decide (x = i)).
      + intros x rx Hx Hrx. by apply (frame_old _ _ _ Hf x rx Hx).
      + intros x Hx [rx Hrx]. destruct (frame_keep _ _ _ Hf x rx ltac:(lia) Hrx) as (r' & -> & _); [|by eexists]. destruct (empty rx) eqn:Hex; [right|by left].
        intros j it Hj Hit Hcur. destruct (Hemp x rx ltac:(lia) Hrx Hex) as (r0 & Hr0 & He0). rewrite (Hop j it x r0 Hj) in He0; [done| |done|done]. by eapply lookup_weaken. }
  eapply wp_mono; [exact Hdel|]. intros h' (d' & Hok' & Hz' & Hits' & Hn' & Hd' & Hold & Hkeep). apply wp_ret. pose proof (ok_refs _ _ _ Hok') as Hr'. split.
  - exists d'. split_and!; [done..|]. destruct el1 as [x|].
    + destruct Hel1 as (Hx & Hlt & Hmin). split_and!.
      * apply (refs_dom _ _ Hr'), Hkeep; [done|]. by apply (refs_dom _ _ Hr).
      * intros y kv Hy Hent. destruct (Hd' y kv Hent) as [Hent' Hne]. destruct (decide (y < i)); [by apply (Hlow y kv)|]. destruct (c_live _ _ Hc y kv Hent') as (ry & Hry & _).
        assert (y ∈ records (map_state h)) as Hyr by (apply (refs_dom _ _ Hr); by eexists). specialize (Hmin y Hyr ltac:(lia)). lia.
      * intros y ry Hy Hry Hey. destruct (Hold y ry ltac:(lia) Hry) as (r0 & Hr0 & He0 & _). apply (Hemp y r0); [lia|done|congruence].
    + intros y kv Hent. destruct (Hd' y kv Hent) as [Hent' Hne]. destruct (decide (y < i)); [by apply (Hlow y kv)|]. destruct (c_live _ _ Hc y kv Hent') as (ry & Hry & _).
      assert (y ∈ records (map_state h)) as Hyr by (apply (refs_dom _ _ Hr); by eexists). specialize (Hel1 y Hyr). lia.
  - cbn [fst snd left_over]. destruct el1 as [x|]; cbn [left_over].
    + destruct Hel1 as (_ & Hlt & _). apply from_shrinks; [apply sorted_NoDup, Hr|apply sorted_NoDup, Hr'| |done|done].
      intros z Hz0. destruct (decide (z = i)); [by right|left]. apply (refs_dom _ _ Hr') in Hz0 as [rz Hrz]. destruct (Hold z rz ltac:(done) Hrz) as (r0 & Hr0 & _). apply (refs_dom _ _ Hr). by eexists.
    + assert (i ∈ from i (records (map_state h))) as Hin by (unfold from; rewrite list_elem_of_filter; split; [lia|done]). destruct (from i (records (map_state h))); [by apply elem_of_nil in Hin|cbn; lia].
Qed.

Lemma clear_spec lk (h : map_heap) d : map_ok lk h d -> op_ok h CLEAR ->
  wp (js_map_clear h) (fun h' => map_ok lk h' (replicate (length d) None) /\ its h' ⊆ its h /\ next_iterator h' = next_iterator h).
Proof.
  intros Hok Hop. pose proof (ok_refs _ _ _ Hok) as Hr. unfold js_map_clear. apply (wp_loop (clear_inv lk h d) (fun st => left_over st.1 st.2)).
  - exists d. split_and!; [done..|]. pose proof (head_spec _ (refs_sorted _ _ Hr)) as Hh. destruct (head (records (map_state h))) as [x|].
    + destruct Hh as [Hx Hmin]. split_and!; [done| |eauto]. intros y kv Hy Hent. destruct (c_live _ _ (ok_contents _ _ _ Hok) y kv Hent) as (ry & Hry & _).
      assert (y ∈ records (map_state h)) as Hyr by (apply (refs_dom _ _ Hr); by eexists). specialize (Hmin y Hyr). lia.
    + intros y kv Hent. destruct (c_live _ _ (ok_contents _ _ _ Hok) y kv Hent) as (ry & Hry & _). apply (Hh y), (refs_dom _ _ Hr). by eexists.
  - cbn [fst snd]. unfold left_over. destruct (head _); [|lia]. pose proof (length_filter (fun y => z <= y) (records (map_state h))). unfold from. lia.
  - intros st Hst. by apply clear_step.
Qed.

(** *** Iterators *)

(** [el] is the first record at or after [n]. *)
Definition first_from (l : list Z) (n : Z) (el : option Z) : Prop :=
  match el with Some x => x ∈ l /\ n <= x /\ (forall z, z ∈ l -> n <= z -> x <= z) | None => forall z, z ∈ l -> z < n end.

Lemma skip_spec lk (h : map_heap) m (d : map_data) n el : refs_ok lk (set_its h m) -> contents h d -> 0 <= n -> first_from (records (map_state h)) n el ->
  wp (loop (length (records (map_state h)) + 1) (skip_body h) el) (fun el => el = next_index d n /\ match el with Some i => exists r, recs h !! i = Some r /\ empty r = false | None => True end).
Proof.
  intros Hr Hc Hn Hel.
  set (I := fun el : option Z => match el with Some x => x ∈ records (map_state h) /\ n <= x /\ (forall z kv, n <= z < x -> rd d z <> Some (Some kv)) | None => forall z kv, n <= z -> rd d z <> Some (Some kv) end).
  assert (forall z kv, rd d z = Some (Some kv) -> z ∈ records (map_state h)) as Hlive by (intros z kv Hz; destruct (c_live _ _ Hc z kv Hz) as (r & Hrec & _); apply (refs_dom _ _ Hr); by eexists).
  apply (wp_loop I (left_over h)).
  - unfold I. destruct el as [x|]; cbn in Hel.
    + destruct Hel as (Hx & Hnx & Hmin). split_and!; [done|done|]. intros z kv Hz Hent. specialize (Hmin z (Hlive z kv Hent) ltac:(lia)). lia.
    + intros z kv Hz Hent. specialize (Hel z (Hlive z kv Hent)). lia.
  - unfold left_over, from. destruct el as [x|]; [|lia]. pose proof (length_filter (fun y => x <= y) (records (map_state h))). lia.
  - clear Hel el. intros [x|] HI; cbn [skip_body]; unfold I in HI.
    2: { apply wp_ret. split; [|done]. symmetry. by apply next_index_none. }
    destruct HI as (Hx & Hnx & Hlow). destruct (proj1 (refs_dom _ _ Hr x) Hx) as [r Hrec]. cbn in Hrec. rewrite Hrec. cbn [mbind option_bind]. destruct (empty r) eqn:He; cbn [negb].
    2: { apply wp_ret. split; [|eauto]. symmetry. apply next_index_spec; [lia| |done]. eexists. by apply (record_entry h). }
    destruct (list_next_spec _ x (refs_sorted _ _ Hr) Hx) as (el & E & Hel). cbn in E, Hel. rewrite E. cbn [mbind option_bind]. apply wp_ret.
    assert (forall kv, rd d x <> Some (Some kv)) as Hx0. { intros kv Hent. pose proof (c_rec _ _ Hc x r Hrec) as Hd. rewrite He in Hd. congruence. }
    unfold I. destruct el as [y|]; cbn [left_over].
    + destruct Hel as (Hy & Hlt & Hmin). split; [|apply from_shrinks; [apply sorted_NoDup, (refs_sorted _ _ Hr)|apply sorted_NoDup, (refs_sorted _ _ Hr)|by left|done|done]].
      split_and!; [done|lia|]. intros z kv Hz Hent. destruct (Z.lt_trichotomy z x) as [?|[->|?]]; [by apply (Hlow z kv); [lia|]|by apply (Hx0 kv)|]. specialize (Hmin z (Hlive z kv Hent) ltac:(lia)). lia.
    + split; [|assert (x ∈ from x (records (map_state h))) as Hin by (unfold from; rewrite list_elem_of_filter; split; [lia|done]); destruct (from x (records (map_state h))); [by apply elem_of_nil in Hin|cbn; lia]].
      intros z kv Hz Hent. specialize (Hel z (Hlive z kv Hent)). destruct (decide (z = x)) as [->|]; [by apply (Hx0 kv)|]. apply (Hlow z kv); [lia|done].
Qed.

(** An idle iterator steps on a record. *)
Lemma refs_step_on lk (h : map_heap) j knd i r : refs_ok lk h -> its h !! j = Some (MapIterator true knd None) -> recs h !! i = Some r ->
  refs_ok lk (set_its (set_recs h (<[i := MapRecord (ref_count r + 1) (empty r) (key r) (value r)]> (recs h))) (<[j := MapIterator true knd (Some i)]> (its h))).
Proof.
  intros Hok Hj Hr. assert (forall x, is_Some (<[i := MapRecord (ref_count r + 1) (empty r) (key r) (value r)]> (recs h) !! x) <-> is_Some (recs h !! x)) as Hdom.
  { intros x. destruct (decide (x = i)) as [->|]; [rewrite lookup_insert_eq, Hr|by rewrite lookup_insert_ne]. split; by eexists. }
  assert (forall x, pins (<[j := MapIterator true knd (Some i)]> (its h)) x = pins (its h) x + Zb (x =? i)) as Hp.
  { intros x. rewrite (pins_update _ _ (MapIterator true knd None)) by done. unfold pin. cbn [cur_record]. rewrite bool_decide_eq_false_2 by done. cbn [Zb]. destruct (Z.eqb_spec x i) as [->|Hne]; [rewrite bool_decide_eq_true_2 by done|rewrite bool_decide_eq_false_2 by congruence]; cbn [Zb]; lia. }
  split; cbn; try apply Hok.
  - intros x. rewrite Hdom. apply Hok.
  - intros x rx Hx. rewrite Hp. destruct (decide (x = i)) as [->|Hne].
    + rewrite lookup_insert_eq in Hx. injection Hx as <-. cbn. destruct (refs_count _ _ Hok i r Hr). rewrite Z.eqb_refl. cbn. lia.
    + rewrite lookup_insert_ne in Hx by done. destruct (refs_count _ _ Hok x rx Hx). replace (x =? i) with false by lia. cbn. lia.
  - intros j' it' [[<- <-]|[_ Hj']]%lookup_insert_Some; [|by apply (refs_its _ _ Hok)]. split; [by eapply (refs_its _ _ Hok)|done].
  - intros j' it' x Hj' Hx. apply Hdom. apply lookup_insert_Some in Hj' as [[<- <-]|[_ Hj']]; [cbn in Hx; injection Hx as <-; by eexists|]. by apply (refs_pin _ _ Hok j' it').
  - intros x. rewrite Hdom. apply (refs_lock _ _ Hok).
Qed.

(** An idle iterator ends. *)
Lemma refs_end lk (h : map_heap) j knd : refs_ok lk h -> its h !! j = Some (MapIterator true knd None) -> refs_ok lk (set_its h (<[j := MapIterator false knd None]> (its h))).
Proof.
  intros Hok Hj. split; cbn; try apply Hok.
  - intros x rx Hx. rewrite (pins_update _ _ (MapIterator true knd None)) by done. unfold pin. cbn [cur_record]. rewrite bool_decide_eq_false_2 by done. destruct (refs_count _ _ Hok x rx Hx). cbn [Zb]. lia.
  - intros j' it' [[<- <-]|[_ Hj']]%lookup_insert_Some; [|by apply (refs_its _ _ Hok)]. split; [by eapply (refs_its _ _ Hok)|done].
  - intros j' it' x [[<- <-]|[_ Hj']]%lookup_insert_Some Hx; [done|]. by apply (refs_pin _ _ Hok j' it').
Qed.

(** The iterator leaves its record: [el] is where the search starts. *)
Lemma leave_spec lk (h : map_heap) d j it n : map_ok lk h d -> its h !! j = Some it -> cursor_of it = Some n ->
  0 <= n /\ wp (match cur_record it with
      | None => Some (head (records (map_state h)), h)
      | Some mr => el ← list_next (records (map_state h)) mr; h ← map_decref_record h mr; Some (el, h)
      end) (fun '(el, h1) => refs_ok lk (set_its h1 (<[j := MapIterator true (kind it) None]> (its h1))) /\ finalized [j] h h1 /\ its h1 = its h /\ first_from (records (map_state h1)) n el).
Proof.
  intros Hok Hj Hn. pose proof (ok_refs _ _ _ Hok) as Hr. unfold cursor_of in Hn. destruct (it_obj it) eqn:Ho; [|done]. destruct (cur_record it) as [i|] eqn:Hc.
  - injection Hn as <-. assert (i ∈ records (map_state h)) as Hi by (apply (refs_dom _ _ Hr), (refs_pin _ _ Hr j it i Hj Hc)). pose proof (refs_new _ _ Hr i Hi). split; [lia|].
    destruct (list_next_spec _ i (refs_sorted _ _ Hr) Hi) as (el & E & Hel). rewrite E. cbn [mbind option_bind]. apply wp_bind.
    eapply wp_mono; [apply (pins_leave lk h i j it (<[j := MapIterator true (kind it) None]> (its h)) Hr Hj Hc); right; by eauto|]. intros h1 (Hr1 & Hf & Ei). apply wp_ret. rewrite Ei. split_and!; [done..|].
    assert (forall z, z ∈ records (map_state h1) -> z ∈ records (map_state h)) as Hsub.
    { intros z Hz. apply (refs_dom _ _ Hr1) in Hz as [rz Hrz]. destruct (fin_old _ _ _ Hf z rz Hrz) as (r0 & Hr0 & _). apply (refs_dom _ _ Hr). by eexists. }
    destruct el as [x|]; cbn.
    + destruct Hel as (Hx & Hlt & Hmin). split_and!; [|lia|intros z Hz ?; apply Hmin; [auto|lia]]. destruct (proj1 (refs_dom _ _ Hr x) Hx) as [rx Hrx].
      destruct (fin_keep _ _ _ Hf x rx Hrx) as (r' & Hr' & _); [|apply (refs_dom _ _ Hr1); by eexists]. right. intros j' it' ->%list_elem_of_singleton Hj' Hc'. rewrite Hj in Hj'. injection Hj' as <-. rewrite Hc in Hc'. injection Hc' as ->. lia.
    + intros z Hz. specialize (Hel z (Hsub z Hz)). lia.
  - injection Hn as <-. split; [lia|]. apply wp_ret. assert (MapIterator true (kind it) None = it) as -> by (destruct it; cbn in *; congruence). rewrite insert_id by done. split_and!; [by destruct h|apply finalized_id|done|].
    pose proof (head_spec _ (refs_sorted _ _ Hr)) as Hh. destruct (head _) as [x|]; cbn.
    + destruct Hh as [Hx Hmin]. pose proof (refs_new _ _ Hr x Hx). split_and!; [done|lia|]. intros z Hz _. by apply Hmin.
    + intros z Hz. by destruct (Hh z).
Qed.

(** [it'] is the iterator [it] after a call of [next] with the result [res]. *)
Definition next_post (is_set : bool) (d : map_data) (it it' : JSMapIteratorData) (res : next_result) : Prop :=
  kind it' = kind it /\
  match cursor_of it with
  | None => res = NEXT_DONE /\ cursor_of it' = None
  | Some n =>
      match next_index d n with
      | None => res = NEXT_DONE /\ cursor_of it' = None
      | Some i => cursor_of it' = Some (i + 1) /\ exists k v, rd d i = Some (Some (k, v)) /\ (res = next_out is_set (kind it) k v \/ kind it = JS_ITERATOR_KIND_KEY_AND_VALUE /\ res = NEXT_EXCEPTION)
      end
  end.

Lemma refs_world_its lk (h : map_heap) m w : refs_ok lk (set_its h m) -> refs_ok lk (set_its (set_world h w) m).
Proof. intros []. by split. Qed.

(** Counts do not grow when an iterator leaves. *)
Lemma leave_count lk (h h1 : map_heap) d j it i r1 : map_ok lk h d -> its h !! j = Some it -> refs_ok lk (set_its h1 (<[j := MapIterator true (kind it) None]> (its h))) -> finalized [j] h h1 ->
  (forall i r, recs h !! i = Some r -> ref_count r < 2 ^ 31 - 1) -> recs h1 !! i = Some r1 -> int_check (ref_count r1 + 1) = Some (ref_count r1 + 1).
Proof.
  intros Hok Hj Hr1 Hf Hbound Hrec. destruct (fin_old _ _ _ Hf i r1 Hrec) as (r & Hr & He & _). destruct (refs_count _ _ (ok_refs _ _ _ Hok) i r Hr) as [Hc _]. destruct (refs_count _ _ Hr1 i r1 Hrec) as [Hc1 Hp1].
  cbn in Hc1. rewrite He, (pins_update _ _ it) in Hc1 by done. specialize (Hbound i r Hr). assert (0 <= pin it i /\ pin (MapIterator true (kind it) None) i = 0) as [? E0] by (unfold pin; cbn; destruct (bool_decide (cur_record it = Some i)); done).
  rewrite E0 in Hc1. unfold int_check. replace ((- 2 ^ 31 <=? ref_count r1 + 1) && (ref_count r1 + 1 <? 2 ^ 31)) with true by lia. done.
Qed.

Lemma contents_count (h : map_heap) d i r n m : contents h d -> recs h !! i = Some r -> contents (set_its (set_recs h (<[i := MapRecord n (empty r) (key r) (value r)]> (recs h))) m) d.
Proof.
  intros Hc Hr. split; cbn.
  - apply Hc.
  - intros x rx Hx. destruct (decide (x = i)) as [->|Hne]; [rewrite lookup_insert_eq in Hx; injection Hx as <-; cbn; by apply Hc|]. rewrite lookup_insert_ne in Hx by done. by apply Hc.
  - intros x kv Hx. destruct (c_live _ _ Hc x kv Hx) as (rx & Hrx & He). destruct (decide (x = i)) as [->|Hne]; [rewrite lookup_insert_eq; eexists; split; [done|cbn; congruence]|]. rewrite lookup_insert_ne by done. eauto.
Qed.

Lemma next_spec lk (h : map_heap) d is_set j it : map_ok lk h d -> its h !! j = Some it -> (forall i r, recs h !! i = Some r -> ref_count r < 2 ^ 31 - 1) ->
  wp (js_map_iterator_next h is_set j) (fun '(res, h') => map_ok lk h' d /\ next_iterator h' = next_iterator h /\ exists it', its h' = <[j := it']> (its h) /\ next_post is_set d it it' res).
Proof.
  intros Hok Hj Hbound. unfold js_map_iterator_next. rewrite Hj. cbn [mbind option_bind]. unfold next_post. destruct (cursor_of it) as [n|] eqn:En.
  2: { assert (it_obj it = false) as Ho by (unfold cursor_of in En; destruct (it_obj it); [by destruct (cur_record it)|done]). rewrite Ho. apply wp_ret. split_and!; [done|done|]. exists it. rewrite insert_id by done. split_and!; done. }
  assert (it_obj it = true) as -> by (unfold cursor_of in En; by destruct (it_obj it)). cbn [negb]. destruct (leave_spec lk h d j it n Hok Hj En) as [Hn Hleave]. apply wp_bind. eapply wp_mono; [exact Hleave|].
  intros [el h1] (Hr1 & Hf & Ei & Hel). rewrite Ei in Hr1. pose proof (contents_fin _ _ _ _ Hf (ok_contents _ _ _ Hok)) as Hc1. destruct (table_fin _ _ _ Hf) as (E1 & E2 & E3). pose proof (fin_next _ _ _ Hf) as [_ En1].
  set (m1 := <[j := MapIterator true (kind it) None]> (its h)) in *. assert (its (set_its h1 m1) !! j = Some (MapIterator true (kind it) None)) as Hj1 by apply lookup_insert_eq.
  (* a heap that differs in counts and iterators only is still right *)
  assert (forall h2, map_state h2 = map_state h1 -> refs_ok lk h2 -> contents h2 d -> map_ok lk h2 d) as Hmk.
  { intros h2 Es Hr2 Hc2. split; [done|done|rewrite Es, E1, E2; apply Hok|apply Hok|rewrite Es, E3; apply Hok|apply Hok]. }
  apply wp_bind. eapply wp_mono; [by eapply skip_spec|]. intros el' [Hidx Hrec]. rewrite <- Hidx. destruct el' as [i|].
  - destruct Hrec as (r & Hrec & He). rewrite Hrec. cbn [mbind option_bind]. rewrite (leave_count lk h h1 d j it i r) by done. cbn [mbind option_bind].
    pose proof (refs_step_on lk (set_its h1 m1) j (kind it) i r Hr1 Hj1 Hrec) as Hr2. cbn in Hr2. unfold m1 in Hr2. rewrite insert_insert_eq in Hr2. cbn [set_recs its]. rewrite Ei.
    set (h2 := set_its (set_recs h1 (<[i := MapRecord (ref_count r + 1) (empty r) (key r) (value r)]> (recs h1))) (<[j := MapIterator true (kind it) (Some i)]> (its h))) in *.
    assert (map_ok lk h2 d) as Hok2 by (apply Hmk; [done|exact Hr2|by apply contents_count]). pose proof (record_entry h1 d i r Hc1 Hrec He) as Hent.
    assert (forall w res, res = next_out is_set (kind it) (key r) (value r) \/ kind it = JS_ITERATOR_KIND_KEY_AND_VALUE /\ res = NEXT_EXCEPTION -> map_ok lk (set_world h2 w) d /\ next_iterator (set_world h2 w) = next_iterator h /\ exists it', its (set_world h2 w) = <[j := it']> (its h) /\ kind it' = kind it /\
      cursor_of it' = Some (i + 1) /\ exists k v, rd d i = Some (Some (k, v)) /\ (res = next_out is_set (kind it) k v \/ kind it = JS_ITERATOR_KIND_KEY_AND_VALUE /\ res = NEXT_EXCEPTION)) as Hfin.
    { intros w res Hres. split_and!; [by apply map_ok_world|exact En1|]. exists (MapIterator true (kind it) (Some i)). split_and!; [done|done|done|]. exists (key r), (value r). done. }
    destruct (kind it) eqn:Ek.
    + apply wp_ret. exact (Hfin _ _ (or_introl eq_refl)).
    + apply wp_ret. exact (Hfin _ _ (or_introl eq_refl)).
    + destruct (js_malloc (world _)) as [w [|]]; apply wp_ret; [exact (Hfin _ _ (or_introl eq_refl))|exact (Hfin _ _ (or_intror (conj eq_refl eq_refl)))].
  - apply wp_ret. pose proof (refs_end lk (set_its h1 m1) j (kind it) Hr1 Hj1) as Hr2. cbn in Hr2. unfold m1 in Hr2. rewrite insert_insert_eq in Hr2. rewrite Ei. split_and!; [|done|].
    + apply Hmk; [done|exact Hr2|]. destruct Hc1. by split.
    + exists (MapIterator false (kind it) None). done.
Qed.

(** ** Simulation *)

Lemma iterate_spec lk (h : map_heap) d knd : map_ok lk h d ->
  let '(j, h') := js_create_map_iterator h knd in map_ok lk h' d /\
    match j with Some j => j = next_iterator h /\ next_iterator h' = j + 1 /\ its h' = <[j := MapIterator true knd None]> (its h) | None => next_iterator h' = next_iterator h /\ its h' = its h end.
Proof.
  intros Hok. unfold js_create_map_iterator. destruct (js_malloc (world h)) as [w [|]]; cbn [negb]; [|split; [by apply map_ok_world|done]].
  destruct (js_malloc w) as [w' [|]]; cbn [negb]; [|split; [by apply map_ok_world|done]]. split; [|done]. destruct Hok as [Hr Hc Ht Hd Hn Hz]. split; [|destruct Hc; by split|done..].
  assert (its h !! next_iterator h = None) as Hnew by (apply eq_None_not_Some; intros [it Hit]; apply (refs_its _ _ Hr) in Hit; lia). split; cbn; try apply Hr.
  - intros i r Hi. rewrite pins_new by done. unfold pin. cbn [cur_record]. rewrite bool_decide_eq_false_2 by done. destruct (refs_count _ _ Hr i r Hi). cbn [Zb]. lia.
  - intros j it [[<- <-]|[_ Hj]]%lookup_insert_Some; [split; [lia|done]|]. destruct (refs_its _ _ Hr j it Hj). split; [lia|done].
  - intros j it i [[<- <-]|[_ Hj]]%lookup_insert_Some Hi; [done|]. by apply (refs_pin _ _ Hr j it).
Qed.

Lemma cursors_next is_set sp (m : gmap Z JSMapIteratorData) nx j it it' res : cursors_ok m nx (cursors sp) -> m !! j = Some it -> next_post is_set (data sp) it it' res ->
  exists sp', spec_step is_set sp (NEXT j) (OUT_NEXT res) sp' /\ data sp' = data sp /\ cursors_ok (<[j := it']> m) nx (cursors sp').
Proof.
  intros Hc Hj [Hk Hpost]. pose proof (cur_at _ _ _ Hc j it Hj) as Hcj.
  assert (forall c, cursor_of it' = c -> cursors_ok (<[j := it']> m) nx (<[j := (kind it, c)]> (cursors sp))) as Hnew.
  { intros c Hc'. split.
    - intros j' it0. destruct (decide (j' = j)) as [->|Hne]; [rewrite !lookup_insert_eq; intros [= <-]; by rewrite Hk, Hc'|]. rewrite !lookup_insert_ne by done. apply Hc.
    - intros j'. rewrite lookup_insert_is_Some'. intros [<-|Hs]; [apply Hc; by eexists|by apply Hc]. }
  destruct (cursor_of it) as [n|]; [destruct (next_index (data sp) n) as [i|] eqn:Ei|].
  - destruct Hpost as (Hcur & k & v & Hent & [->|[Ek ->]]).
    + eexists. split; [by eapply step_next|]. split; [done|]. by apply Hnew.
    + eexists. split; [eapply step_next_oom; [by rewrite <- Ek|done]|]. split; [done|]. cbn. rewrite <- Ek. by apply Hnew.
  - destruct Hpost as [-> Hcur]. eexists. split; [by eapply (step_next_done _ _ _ _ (Some n))|]. split; [done|]. by apply Hnew.
  - destruct Hpost as [-> Hcur]. eexists. split; [by eapply (step_next_done _ _ _ _ None)|]. split; [done|]. by apply Hnew.
Qed.

Lemma step_refines lk is_set (h : map_heap) sp op : map_refines lk h sp -> op_ok h op ->
  wp (map_step is_set h op) (fun '(out, h') => exists sp', spec_step is_set sp op out sp' /\ map_refines lk h' sp').
Proof.
  intros [Hok Hcur] Hop. destruct op; cbn [map_step op_ok] in *.
  - apply wp_bind. eapply wp_mono; [by apply (set_spec lk h (data sp)); [|apply Hop..]|]. intros [[|] h'] (Hi & Hn & Hok'); apply wp_ret; eexists; (split; [apply step_set || apply step_set_oom|]); (split; [done|]); rewrite Hn; by eapply cursors_sub.
  - destruct (get_spec lk h (data sp) k Hok Hop) as [w ->]. apply wp_ret. exists sp. split; [constructor|]. split; [by apply map_ok_world|done].
  - unfold js_map_has. rewrite (find_ok lk h (data sp) k Hok Hop). apply wp_ret. exists sp. split; [constructor|done].
  - apply wp_bind. eapply wp_mono; [by apply map_delete_spec|]. intros [b h'] (-> & Hi & Hn & Hok'). apply wp_ret. eexists. split; [constructor|]. split; [done|]. rewrite Hn. by eapply cursors_sub.
  - apply wp_bind. eapply wp_mono; [by apply clear_spec|]. intros h' (Hok' & Hi & Hn). apply wp_ret. eexists. split; [constructor|]. split; [done|]. rewrite Hn. by eapply cursors_sub.
  - apply wp_ret. exists sp. unfold js_map_get_size. rewrite (ok_count _ _ _ Hok). split; [constructor|done].
  - pose proof (iterate_spec lk h (data sp) kind Hok) as Hit. destruct (js_create_map_iterator h kind) as [[j|] h'].
    + destruct Hit as (Hok' & -> & Hn & Hi). apply wp_ret. eexists. split.
      { apply step_iterate. apply eq_None_not_Some. intros Hs%(cur_new _ _ _ Hcur). lia. }
      split; [done|]. rewrite Hi, Hn. split.
      * intros j it. cbn. destruct (decide (j = next_iterator h)) as [->|Hne]; [rewrite !lookup_insert_eq; by intros [= <-]|]. rewrite !lookup_insert_ne by done. apply Hcur.
      * intros j. cbn. rewrite lookup_insert_is_Some'. intros [<-|Hs%(cur_new _ _ _ Hcur)]; lia.
    + destruct Hit as (Hok' & Hn & Hi). apply wp_ret. exists sp. split; [constructor|]. split; [done|]. by rewrite Hn, Hi.
  - destruct Hop as [[it Hj] Hb]. apply wp_bind. eapply wp_mono; [by apply (next_spec lk h (data sp) is_set j it)|]. intros [res h'] (Hok' & Hn & it' & Hi & Hpost). apply wp_ret.
    destruct (cursors_next is_set sp (its h) (next_iterator h) j it it' res Hcur Hj Hpost) as (sp' & Hst & Hd & Hcur'). exists sp'. split; [done|]. split; [by rewrite Hd|]. by rewrite Hi, Hn.
  - apply wp_bind. eapply wp_mono; [apply finalizer_spec, Hok|]. intros h' [Hr Hf]. apply wp_ret. exists sp. split; [constructor|]. split; [by eapply map_ok_fin|]. rewrite (proj2 (fin_next _ _ _ Hf)). eapply cursors_sub; [apply Hf|done].
Qed.

Lemma no_entry i e : rd ([] : map_data) i = Some e -> False.
Proof. intros Hi%rd_Some_range. change (zlen ([] : map_data)) with 0 in Hi. lia. Qed.

Lemma map_new_refines w : map_refines (fun _ => 0) (map_new w) (MapSpec [] ∅).
Proof.
  split; [split|].
  - split; cbn; try done; [constructor|..].
    + intros i. split; [by intros ?%elem_of_nil|by intros [??]].
    + intros i. by intros ?%elem_of_nil.
  - split; cbn; [done|done|]. by intros i kv Hi%no_entry.
  - cbn. eapply table_iff; [|apply (table_empty 1); lia]. intros i k. split; [done|]. by intros [v Hi%no_entry].
  - split; [intros i k|intros i j k k']; by intros [v Hi%no_entry].
  - done.
  - done.
  - split; cbn; [done|]. by intros j [??].
Qed.

(** ** Runs *)

Fixpoint map_run (is_set : bool) (h : map_heap) (ops : list map_op) : option (list map_out * map_heap) :=
  match ops with
  | [] => Some ([], h)
  | op :: ops => '(out, h) ← map_step is_set h op; '(outs, h) ← map_run is_set h ops; Some (out :: outs, h)
  end.

Fixpoint ops_ok (is_set : bool) (h : map_heap) (ops : list map_op) : Prop :=
  match ops with
  | [] => True
  | op :: ops => op_ok h op /\ match map_step is_set h op with Some (_, h') => ops_ok is_set h' ops | None => True end
  end.

Inductive spec_run (is_set : bool) : map_spec -> list map_op -> list map_out -> map_spec -> Prop :=
  | run_nil sp : spec_run is_set sp [] [] sp
  | run_cons sp op out sp' ops outs sp'' : spec_step is_set sp op out sp' -> spec_run is_set sp' ops outs sp'' -> spec_run is_set sp (op :: ops) (out :: outs) sp''.

Lemma run_refines is_set ops h sp : map_refines (fun _ => 0) h sp -> ops_ok is_set h ops ->
  exists outs h' sp', map_run is_set h ops = Some (outs, h') /\ spec_run is_set sp ops outs sp' /\ map_refines (fun _ => 0) h' sp'.
Proof.
  revert h sp. induction ops as [|op ops IH]; intros h sp Href Hops; cbn [map_run]; [eexists _, _, _; split_and!; [done|constructor|done]|].
  cbn [ops_ok] in Hops. destruct Hops as [Hop Hops]. pose proof (step_refines _ is_set h sp op Href Hop) as Hs. destruct (map_step is_set h op) as [[out h1]|]; [|done]. cbn in Hs. destruct Hs as (sp1 & Hs & Href1).
  destruct (IH h1 sp1 Href1 Hops) as (outs & h' & sp' & E & Hrun & Href'). cbn [mbind option_bind]. rewrite E. cbn [mbind option_bind]. eexists _, _, _. split_and!; [done|by econstructor|done].
Qed.

(** C12. Map and Set: on every sequence of calls of set, get, has, delete, clear,
    size and of iterators that satisfies [ops_ok], from the empty map, whichever
    allocations are refused, the implementation never touches a freed record and
    answers as the specification does on its list of entries and its cursors;
    deleted records remain only while an iterator stands on them.  [ops_ok]: the
    keys are not doubles with the value of an [int], and [int] keys are below the
    overflow of the hash; the iterators used are live and the counts within their
    width; during a clear no drop finalizes an iterator that stands on a deleted
    entry.  The code is wrong without these conditions: [float_key_missed],
    [int_key_overflow] and [clear_after_free] below. *)
Theorem map_run_refines is_set w ops : ops_ok is_set (map_new w) ops ->
  exists outs h sp, map_run is_set (map_new w) ops = Some (outs, h) /\ spec_run is_set (MapSpec [] ∅) ops outs sp /\
    (forall i k v, rd (data sp) i = Some (Some (k, v)) <-> exists r, recs h !! i = Some r /\ empty r = false /\ key r = k /\ value r = v) /\
    (forall i r, recs h !! i = Some r -> empty r = true -> exists j it, its h !! j = Some it /\ cur_record it = Some i).
Proof.
  intros Hops. destruct (run_refines is_set ops (map_new w) _ (map_new_refines w) Hops) as (outs & h & sp & E & Hrun & [Hok _]). exists outs, h, sp. split_and!; [done|done| |].
  - intros i k v. split; [apply entry_record, Hok|]. intros (r & Hr & He & <- & <-). apply (record_entry h); [apply Hok|done|done].
  - intros i r Hr He. apply pins_witness. destruct (refs_count _ _ (ok_refs _ _ _ Hok) i r Hr). rewrite He in *. cbn in *. lia.
Qed.
End refine.

(** ** Instances *)

(** A memory management that refuses nothing, in which the object 100 is the only
    owner of the iterator 0. *)
Definition owner_env : MapEnv := {|
  W := unit; dup_value _ w := w; free_value v w := (w, match v with JS_OBJECT 100 => [0] | _ => [] end);
  js_malloc w := (w, true); js_realloc2 size w := (w, if size <? 2 ^ 33 then Some 8 else None) |}.

Lemma owner_env_laws : @MapEnvLaws owner_env.
Proof. split. intros size w w' slack. cbn. destruct (Z.ltb_spec size (2 ^ 33)); intros [= _ <-]; lia. Qed.

Lemma owner_dies j : @dies owner_env j -> j = 0.
Proof. intros (v & w & Hj). cbn in Hj. repeat (case_match; try by apply elem_of_nil in Hj). by apply list_elem_of_singleton in Hj. Qed.

(** The bits of 1.5 and of 5. *)
Definition f64_1_5 : JSValue := JS_FLOAT64 4609434218613702656.
Definition f64_5 : JSValue := JS_FLOAT64 4617315517961601024.

Definition sample_ops : list map_op :=
  [SET (JS_STRING [97]) (JS_OBJECT 100); SET f64_1_5 JS_NULL; ITERATE JS_ITERATOR_KIND_KEY; NEXT 0; DELETE (JS_STRING [97]); ITERATE JS_ITERATOR_KIND_KEY_AND_VALUE; NEXT 1;
   DELETE f64_1_5; SET (JS_INT 7) (JS_BOOL true); CLEAR; SET (JS_INT 8) f64_1_5; NEXT 1; SIZE; NEXT 1].

Lemma counts_bounded `{MapEnv} (h : map_heap) : bool_decide (map_Forall (fun _ r => ref_count r < 2 ^ 31 - 1) (recs h)) = true -> forall i r, recs h !! i = Some r -> ref_count r < 2 ^ 31 - 1.
Proof. rewrite bool_decide_eq_true. intros Hf i r Hi. exact (Hf i r Hi). Qed.

Lemma ops_ok_step `{MapEnv} is_set (h : map_heap) op ops out h' : op_ok h op -> map_step is_set h op = Some (out, h') -> ops_ok is_set h' ops -> ops_ok is_set h (op :: ops).
Proof. intros Hop E Hops. cbn [ops_ok]. by rewrite E. Qed.

Ltac op_ok_tac :=
  match goal with
  | |- True => exact I
  | |- @op_ok _ _ (NEXT _) => split; [vm_compute; eexists; reflexivity|apply counts_bounded; vm_compute; reflexivity]
  | |- @op_ok _ _ CLEAR => intros j it i r ->%owner_dies Hit; exfalso; vm_compute in Hit; discriminate Hit
  | |- @op_ok _ _ _ => vm_compute; repeat split; discriminate
  end.

Ltac step_tac :=
  lazymatch goal with |- ops_ok ?b ?h (?op :: ?ops) =>
    let x := eval vm_compute in (map_step b h op) in
    lazymatch x with Some (?out, ?h') => apply (ops_ok_step b h op ops out h'); [op_ok_tac|vm_cast_no_check (@eq_refl (option (map_out * map_heap)) (Some (out, h')))|] end
  end.

Lemma map_run_refines_witness : exists outs h sp, @map_run owner_env false (@map_new owner_env tt) sample_ops = Some (outs, h) /\ spec_run false (MapSpec [] ∅) sample_ops outs sp.
Proof.
  destruct (@map_run_refines owner_env owner_env_laws false tt sample_ops) as (outs & h & sp & E & Hs & _); [|exists outs, h, sp; split; [exact E|exact Hs]].
  unfold sample_ops. repeat step_tac. exact I.
Defined.

(** *** Defects *)

(** The outputs of a run that succeeds. *)
Definition outputs (ops : list map_op) : option (list map_out) := fst <$> @map_run owner_env false (@map_new owner_env tt) ops.

(** An integer-valued [double], as [4.5 + 0.5] gives, equals an [int] key; in a map
    of three entries it is found under it, in a map of four it is not. *)
Example float_key_missed : js_same_value_zero (JS_INT 5) f64_5 = true /\
  outputs (((fun i => SET (JS_INT i) JS_NULL) <$> [3; 4; 5]) ++ [HAS f64_5]) = Some (replicate 3 OUT_UNDEFINED ++ [OUT_BOOL true]) /\
  outputs (((fun i => SET (JS_INT i) JS_NULL) <$> [3; 4; 5; 6]) ++ [HAS f64_5]) = Some (replicate 4 OUT_UNDEFINED ++ [OUT_BOOL false]).
Proof. split_and!; vm_compute; reflexivity. Qed.

(** The hash of an [int] key from 678940 on overflows [int]. *)
Example int_key_overflow : map_hash_key (JS_INT 678940) = None.
Proof. reflexivity. Qed.

(** [clear] reads a record that was freed: the value of the first entry is the
    last reference to an iterator that stands on the second, deleted one. *)
Example clear_after_free : outputs [SET (JS_INT 1) JS_NULL; SET (JS_INT 2) JS_NULL; ITERATE JS_ITERATOR_KIND_KEY; NEXT 0; NEXT 0; DELETE (JS_INT 2); SET (JS_INT 1) (JS_OBJECT 100); CLEAR] = None.
Proof. vm_compute. reflexivity. Qed.
