(* ===== verification/JsMapForEach.v ===== *)
(** * forEach

    The callback is arbitrary code that may change the map while it is traversed;
    [js_map_forEach] locks the current record.  A callback that keeps the map in
    agreement with its specification, and whose results are harmless to drop, is
    visited by the entries that the specification visits, in order, those it adds
    included. *)

From S2P Require Import Prelude CArray JsMap JsMapKeys JsMapRefs JsMapTable JsMapSpec JsMapOps JsMapRefine.
Open Scope Z_scope.

(** ** Specification *)

(** [P value key threw sp sp']: a call of the callback can take the map from [sp] to
    [sp'].  The traversal from index [n]: the arguments of the calls, whether it
    ended without an exception, and the last state. *)
Inductive spec_for_each (is_set : bool) (P : JSValue -> JSValue -> bool -> map_spec -> map_spec -> Prop) : Z -> map_spec -> list (JSValue * JSValue) -> bool -> map_spec -> Prop :=
  | each_done n sp : next_index (data sp) n = None -> spec_for_each is_set P n sp [] true sp
  | each_throw n sp i k v sp' : next_index (data sp) n = Some i -> rd (data sp) i = Some (Some (k, v)) -> P (if is_set then k else v) k true sp sp' ->
      spec_for_each is_set P n sp [(if is_set then k else v, k)] false sp'
  | each_next n sp i k v sp' visited b sp'' : next_index (data sp) n = Some i -> rd (data sp) i = Some (Some (k, v)) -> P (if is_set then k else v) k false sp sp' ->
      spec_for_each is_set P (i + 1) sp' visited b sp'' -> spec_for_each is_set P n sp ((if is_set then k else v, k) :: visited) b sp''.

Lemma each_skip is_set P n m sp visited b sp' : next_index (data sp) n = next_index (data sp) m -> spec_for_each is_set P m sp visited b sp' -> spec_for_each is_set P n sp visited b sp'.
Proof. intros E Hs. destruct Hs; [apply each_done|eapply each_throw|eapply each_next]; try done; congruence. Qed.

Section forEach.
Context `{MapEnv} `{!MapEnvLaws}.
Implicit Types (lk : Z -> Z).

(** Dropping [v] finalizes no iterator that stands on a deleted record. *)
Definition harmless (v : JSValue) (h : map_heap) : Prop := forall w j it i r, j ∈ (free_value v w).2 -> its h !! j = Some it -> cur_record it = Some i -> recs h !! i = Some r -> empty r = false.

(** A callback that keeps the agreement, with at most [B] iterators and [N] entries
    ever made. *)
Definition callback_ok (B N : Z) (P : JSValue -> JSValue -> bool -> map_spec -> map_spec -> Prop) (func : JSValue -> JSValue -> map_heap -> option (bool * JSValue * map_heap)) : Prop :=
  forall lk a k h sp, map_refines lk h sp -> Z.of_nat (size (its h)) <= B -> zlen (data sp) <= N ->
  wp (func a k h) (fun '(threw, ret, h') => exists sp', P a k threw sp sp' /\ map_refines lk h' sp' /\ Z.of_nat (size (its h')) <= B /\ zlen (data sp') <= N /\ (threw = false -> harmless ret h')).

(** *** Locks *)

Definition lock lk (mr : Z) : Z -> Z := fun x => lk x + Zb (x =? mr).

Lemma refs_lock_add lk (h : map_heap) mr r : refs_ok lk h -> recs h !! mr = Some r -> refs_ok (lock lk mr) (set_recs h (<[mr := MapRecord (ref_count r + 1) (empty r) (key r) (value r)]> (recs h))).
Proof.
  intros Hok Hr. unfold lock. assert (forall x, is_Some (<[mr := MapRecord (ref_count r + 1) (empty r) (key r) (value r)]> (recs h) !! x) <-> is_Some (recs h !! x)) as Hdom.
  { intros x. destruct (decide (x = mr)) as [->|]; [rewrite lookup_insert_eq, Hr|by rewrite lookup_insert_ne]. split; by eexists. }
  split; cbn; try apply Hok.
  - intros x. rewrite Hdom. apply Hok.
  - intros x rx Hx. destruct (decide (x = mr)) as [->|Hne].
    + rewrite lookup_insert_eq in Hx. injection Hx as <-. cbn. destruct (refs_count _ _ Hok mr r Hr). rewrite Z.eqb_refl. cbn. lia.
    + rewrite lookup_insert_ne in Hx by done. destruct (refs_count _ _ Hok x rx Hx). replace (x =? mr) with false by lia. cbn. lia.
  - intros j it x Hj Hx. apply Hdom. by apply (refs_pin _ _ Hok j it).
  - intros x. rewrite Hdom. destruct (refs_lock _ _ Hok x) as [Hl Hl']. destruct (Z.eqb_spec x mr) as [->|Hne]; cbn [Zb]; split; (lia || (intros; rewrite ?Hr; (by eexists) || (apply Hl'; lia))).
Qed.

(** The end of a turn: the lock is released. *)
Lemma unlock_spec lk (h : map_heap) d mr : map_ok (lock lk mr) h d -> (forall x, 0 <= lk x) ->
  wp (map_decref_record h mr) (fun h' => map_ok lk h' d /\ its h' = its h /\ next_iterator h' = next_iterator h /\ (forall x, x <> mr -> recs h' !! x = recs h !! x) /\ (forall r', recs h' !! mr = Some r' -> is_Some (recs h !! mr))).
Proof.
  intros Hok Hlk. pose proof (ok_refs _ _ _ Hok) as Hr. assert (0 < lock lk mr mr) as Hl by (unfold lock; rewrite Z.eqb_refl; cbn; specialize (Hlk mr); lia).
  eapply wp_mono; [apply (decref_spec (lock lk mr) lk h mr (its h) Hr)|].
  - intros x. unfold lock. lia.
  - done.
  - apply Hr.
  - by apply (refs_lock _ _ Hr).
  - intros j it x. apply (refs_pin _ _ Hr).
  - intros x Hx. apply (refs_lock _ _ Hr). unfold lock. destruct (x =? mr); cbn; lia.
  - destruct Hok as [_ Hc Ht Hd Hn Hz]. intros h' (Hr' & r & Hrec & Hcase). pose proof (c_rec _ _ Hc mr r Hrec) as Hcr.
    assert (set_its h' (its h) = h') as Eh by (destruct Hcase as [(_ & _ & _ & ->)|(r' & _ & ->)]; by destruct h). rewrite Eh in Hr'.
    destruct Hcase as [(He & _ & _ & ->)|(r' & (He & Hk & Hv) & ->)]; (split; [split; [done| |done..]|]); cbn.
    + rewrite He in Hcr. split; cbn; [apply Hc|..].
      * intros x rx [_ Hx]%lookup_delete_Some. by apply Hc.
      * intros x kv Hx. destruct (c_live _ _ Hc x kv Hx) as (rx & Hrx & Hex). exists rx. rewrite lookup_delete_ne; [done|]. intros <-. congruence.
    + split_and!; [done|done| |]; [intros x Hx; by rewrite lookup_delete_ne|]. intros r'. by rewrite lookup_delete_eq.
    + split; cbn; [apply Hc|..].
      * intros x rx Hx. destruct (decide (x = mr)) as [->|Hne]; [rewrite lookup_insert_eq in Hx; injection Hx as <-; by rewrite He, Hk, Hv|]. rewrite lookup_insert_ne in Hx by done. by apply Hc.
      * intros x kv Hx. destruct (c_live _ _ Hc x kv Hx) as (rx & Hrx & Hex). destruct (decide (x = mr)) as [->|Hne]; [rewrite lookup_insert_eq; exists r'; split; [done|congruence]|]. rewrite lookup_insert_ne by done. eauto.
    + split_and!; [done|done| |]; [intros x Hx; by rewrite lookup_insert_ne|]. intros _ _. by eexists.
Qed.

(** *** A turn *)

Lemma refines_fin lk dead (h h' : map_heap) sp : map_refines lk h sp -> refs_ok lk h' -> finalized dead h h' -> map_refines lk h' sp.
Proof. intros [Hok Hc] Hr Hf. split; [by eapply map_ok_fin|]. rewrite (proj2 (fin_next _ _ _ Hf)). eapply cursors_sub; [apply Hf|done]. Qed.

(** What a sequence of drops leaves. *)
Definition shrunk (h h' : map_heap) : Prop := its h' ⊆ its h /\ forall x r', recs h' !! x = Some r' -> exists r, recs h !! x = Some r /\ empty r' = empty r.

Lemma shrunk_fin dead (h h' : map_heap) : finalized dead h h' -> shrunk h h'.
Proof. intros Hf. split; [apply Hf|]. intros x r' Hx. destruct (fin_old _ _ _ Hf x r' Hx) as (r & Hr & He & _). eauto. Qed.

Lemma shrunk_trans (h h' h'' : map_heap) : shrunk h h' -> shrunk h' h'' -> shrunk h h''.
Proof. intros [H1 H2] [H3 H4]. split; [by etransitivity|]. intros x r'' Hx. destruct (H4 x r'' Hx) as (r' & Hr' & ->). apply H2 in Hr' as (r & Hr & ->). eauto. Qed.

Lemma shrunk_size (h h' : map_heap) : shrunk h h' -> Z.of_nat (size (its h')) <= Z.of_nat (size (its h)).
Proof. intros [H1 _]. apply inj_le, map_subseteq_size, H1. Qed.

Lemma first_from_sub lk lk' (h h' : map_heap) n el : refs_ok lk h -> refs_ok lk' h' -> shrunk h h' -> first_from (records (map_state h)) n el -> (forall x, el = Some x -> is_Some (recs h' !! x)) -> first_from (records (map_state h')) n el.
Proof.
  intros Hr Hr' [_ Hs] Hel Hkeep. assert (forall z, z ∈ records (map_state h') -> z ∈ records (map_state h)) as Hsub.
  { intros z Hz. apply (refs_dom _ _ Hr') in Hz as [rz Hrz]. destruct (Hs z rz Hrz) as (r & Hrec & _). apply (refs_dom _ _ Hr). by eexists. }
  destruct el as [x|]; cbn in *; [|auto]. destruct Hel as (Hx & Hn & Hmin). split_and!; [apply (refs_dom _ _ Hr'); auto|done|auto].
Qed.

(** The arguments are dropped, the next record is read and the lock released. *)
Lemma after_call lk (h : map_heap) sp mr is_set a k {R} (K : option Z -> map_heap -> option R) (Q : R -> Prop) : map_refines (lock lk mr) h sp -> (forall x, 0 <= lk x) ->
  (forall el h', map_refines lk h' sp -> shrunk h h' -> first_from (records (map_state h')) (mr + 1) el -> wp (K el h') Q) ->
  wp (h ← JS_FreeValueRT a h; h ← (if is_set : bool then Some h else JS_FreeValueRT k h); el ← list_next (records (map_state h)) mr; h ← map_decref_record h mr; K el h) Q.
Proof.
  intros Href Hlk HK. apply wp_bind. eapply wp_mono; [apply free_value_spec, Href|]. intros h1 [Hr1 Hf1]. pose proof (refines_fin _ _ _ _ _ Href Hr1 Hf1) as Href1. apply wp_bind.
  assert (wp (if is_set : bool then Some h1 else JS_FreeValueRT k h1) (fun h2 => map_refines (lock lk mr) h2 sp /\ shrunk h1 h2)) as Hw.
  { destruct is_set; [apply wp_ret; split; [done|eapply shrunk_fin, (finalized_id [])]|]. eapply wp_mono; [apply free_value_spec, Href1|]. intros h2 [Hr2 Hf2]. split; [by eapply refines_fin|by eapply shrunk_fin]. }
  eapply wp_mono; [exact Hw|]. clear Hw. intros h2 [[Hok2 Hc2] Hs2]. pose proof (ok_refs _ _ _ Hok2) as Hr2. assert (shrunk h h2) as Hs by (eapply shrunk_trans; [by eapply shrunk_fin|done]).
  assert (mr ∈ records (map_state h2)) as Hmr. { apply (refs_dom _ _ Hr2), (refs_lock _ _ Hr2). unfold lock. rewrite Z.eqb_refl. specialize (Hlk mr). cbn. lia. }
  destruct (list_next_spec _ mr (refs_sorted _ _ Hr2) Hmr) as (el & -> & Hel). cbn [mbind option_bind]. apply wp_bind. eapply wp_mono; [by apply unlock_spec|]. intros h3 (Hok3 & Ei & En & Hother & Hsame).
  assert (shrunk h2 h3) as Hs3.
  { split; [by rewrite Ei|]. intros x r' Hx. destruct (decide (x = mr)) as [->|Hne]; [|rewrite Hother in Hx by done; eauto]. destruct (Hsame r' Hx) as [r Hrec].
    exists r. split; [done|]. pose proof (c_rec _ _ (ok_contents _ _ _ Hok2) mr r Hrec) as E2. pose proof (c_rec _ _ (ok_contents _ _ _ Hok3) mr r' Hx) as E3. destruct (empty r), (empty r'); congruence. }
  apply HK.
  - split; [done|]. by rewrite Ei, En.
  - by eapply shrunk_trans.
  - eapply (first_from_sub (lock lk mr) lk h2 h3); [done|apply Hok3|done| |].
    + destruct el as [x|]; cbn.
      * destruct Hel as (Hx & Hlt & Hmin). split_and!; [done|lia|]. intros z Hz Hlz. apply Hmin; [done|lia].
      * intros z Hz. specialize (Hel z Hz). lia.
    + intros x ->. destruct Hel as (Hx & Hlt & _). rewrite Hother by lia. by apply (refs_dom _ _ Hr2).
Qed.

(** The result of the callback is dropped. *)
Lemma drop_result lk (h h0 : map_heap) sp ret mr el : map_refines lk h sp -> harmless ret h0 -> shrunk h0 h -> first_from (records (map_state h)) (mr + 1) el ->
  wp (JS_FreeValueRT ret h) (fun h' => map_refines lk h' sp /\ shrunk h h' /\ first_from (records (map_state h')) (mr + 1) el).
Proof.
  intros Href Hh [Hi Hs] Hel. pose proof (ok_refs _ _ _ (proj1 Href)) as Hr. eapply wp_mono; [by apply free_value_spec|]. intros h' [Hr' Hf]. split_and!; [by eapply refines_fin|by eapply shrunk_fin|].
  eapply (first_from_sub lk lk h h'); [done|done|by eapply shrunk_fin|done|]. intros x ->. destruct Hel as (Hx & _ & _). apply (refs_dom _ _ Hr) in Hx as [r Hrec].
  destruct (fin_keep _ _ _ Hf x r Hrec) as (r' & -> & _); [|by eexists]. destruct (empty r) eqn:He; [right|by left]. intros j it Hj Hit Hc. destruct (Hs x r Hrec) as (r0 & Hr0 & He0).
  rewrite (Hh (world h) j it x r0 Hj) in He0; [congruence| |done|done]. by eapply lookup_weaken.
Qed.

(** ** The traversal *)

(** No entry is skipped between [n] and the first record from there. *)
Lemma next_at lk (h : map_heap) (d : map_data) n el : map_ok lk h d -> 0 <= n -> first_from (records (map_state h)) n el ->
  match el with
  | None => next_index d n = None
  | Some i => exists r, recs h !! i = Some r /\ n <= i < zlen d /\ if empty r then next_index d n = next_index d (i + 1) else next_index d n = Some i /\ rd d i = Some (Some (key r, value r))
  end.
Proof.
  intros Hok Hn Hel. pose proof (ok_refs _ _ _ Hok) as Hr. pose proof (ok_contents _ _ _ Hok) as Hc.
  assert (forall z kv, rd d z = Some (Some kv) -> z ∈ records (map_state h)) as Hlive by (intros z kv Hz; destruct (c_live _ _ Hc z kv Hz) as (r & Hrec & _); apply (refs_dom _ _ Hr); by eexists).
  destruct el as [i|]; cbn in Hel.
  - destruct Hel as (Hi & Hni & Hmin). destruct (proj1 (refs_dom _ _ Hr i) Hi) as [r Hrec]. exists r. pose proof (c_rec _ _ Hc i r Hrec) as Hrd. pose proof (rd_Some_range _ _ _ Hrd). split_and!; [done|lia|lia|].
    assert (forall x kv, n <= x < i -> rd d x <> Some (Some kv)) as Hlow by (intros x kv Hx Hent; specialize (Hmin x (Hlive x kv Hent) ltac:(lia)); lia).
    destruct (empty r) eqn:He; [|split; [apply next_index_spec; [lia|by eexists|done]|done]].
    destruct (next_index d (i + 1)) as [j|] eqn:Ej.
    + unfold next_index in Ej. destruct (list_find is_Some (drop (Z.to_nat (i + 1)) d)) as [[x e]|] eqn:Ef; [|done]. cbn in Ej. injection Ej as <-. apply list_find_Some in Ef as (Hx & [kv ->] & Hbefore). rewrite lookup_drop in Hx.
      apply next_index_spec; [lia|exists kv; rewrite rd_lookup by lia; rewrite <- Hx; f_equal; lia|]. intros z kv' Hz Hent. destruct (decide (z < i)); [apply (Hlow z kv'); [lia|done]|]. destruct (decide (z = i)) as [->|]; [congruence|].
      rewrite rd_lookup in Hent by lia. apply (Hbefore (Z.to_nat (z - (i + 1))) (Some kv')); [rewrite lookup_drop, <- Hent; f_equal; lia|lia|by eexists].
    + apply next_index_none; [done|]. intros z kv Hz Hent. destruct (decide (z < i)); [apply (Hlow z kv); [lia|done]|]. destruct (decide (z = i)) as [->|]; [congruence|]. unfold next_index in Ej.
      destruct (list_find is_Some (drop (Z.to_nat (i + 1)) d)) eqn:Ef; [done|]. apply list_find_None in Ef. rewrite Forall_forall in Ef. rewrite rd_lookup in Hent by lia. apply (Ef (Some kv)); [|by eexists].
      apply (list_elem_of_lookup_2 _ (Z.to_nat (z - (i + 1)))). rewrite lookup_drop, <- Hent. f_equal. lia.
  - apply next_index_none; [done|]. intros z kv Hz Hent. specialize (Hel z (Hlive z kv Hent)). lia.
Qed.

Lemma for_each_loop is_set B N P func lk fuel n (h : map_heap) sp el : callback_ok B N P func -> (forall x, 0 <= lk x /\ B + lk x < 2 ^ 31 - 2) -> map_refines lk h sp -> Z.of_nat (size (its h)) <= B -> zlen (data sp) <= N ->
  0 <= n <= N -> first_from (records (map_state h)) n el -> N - n < Z.of_nat fuel ->
  wp (loop fuel (for_each_body is_set func) (h, el)) (fun '(b, h') => exists visited sp', spec_for_each is_set P n sp visited b sp' /\ map_refines lk h' sp').
Proof.
  intros Hcb Hlk. revert n h sp el. induction fuel as [|fuel IH]; intros n h sp el Href HB HN Hn Hel Hfuel; [lia|]. pose proof (proj1 Href) as Hok. pose proof (ok_refs _ _ _ Hok) as Hr.
  pose proof (next_at lk h (data sp) n el Hok ltac:(lia) Hel) as Hnext. change (loop (S fuel) (for_each_body is_set func) (h, el)) with (match for_each_body is_set func (h, el) with Some (inl s') => loop fuel (for_each_body is_set func) s' | Some (inr r) => Some r | None => None end).
  enough (wp (for_each_body is_set func (h, el)) (fun x => match x with
    | inl (h', el') => exists i, n <= i < N /\ ((first_from (records (map_state h')) (i + 1) el' /\ h' = h /\ next_index (data sp) n = next_index (data sp) (i + 1)) \/
        exists k v sp', first_from (records (map_state h')) (i + 1) el' /\ next_index (data sp) n = Some i /\ rd (data sp) i = Some (Some (k, v)) /\ P (if is_set then k else v) k false sp sp' /\ map_refines lk h' sp' /\ Z.of_nat (size (its h')) <= B /\ zlen (data sp') <= N)
    | inr (b, h') => exists visited sp', spec_for_each is_set P n sp visited b sp' /\ map_refines lk h' sp' end)) as Hturn.
  { destruct (for_each_body is_set func (h, el)) as [[[h' el']|[b h']]|]; cbn in Hturn |- *; [|done|done]. destruct Hturn as (i & Hi & [(Hel' & -> & E)|(k & v & sp' & Hel' & E & Hent & HP & Href' & HB' & HN')]).
    - eapply wp_mono; [apply (IH (i + 1) h sp el' Href HB HN); [lia|done|lia]|]. intros [b h'] (visited & sp' & Hs & Href'). exists visited, sp'. split; [by eapply each_skip|done].
    - eapply wp_mono; [apply (IH (i + 1) h' sp' el' Href' HB' HN'); [lia|done|lia]|]. intros [b h''] (visited & sp'' & Hs & Href''). eexists _, sp''. split; [by eapply each_next|done]. }
  destruct el as [i|]; cbn [for_each_body]; [|apply wp_ret; exists [], sp; split; [by apply each_done|done]].
  destruct Hnext as (r & Hrec & Hi & Hcase). rewrite Hrec. cbn [mbind option_bind]. assert (i ∈ records (map_state h)) as Hin by (apply (refs_dom _ _ Hr); by eexists). destruct (empty r) eqn:He; cbn [negb].
  - destruct (list_next_spec _ i (refs_sorted _ _ Hr) Hin) as (el & -> & Hel'). cbn [mbind option_bind]. apply wp_ret. exists i. split; [lia|]. left. split_and!; [|done|done]. destruct el as [x|]; cbn.
    + destruct Hel' as (Hx & Hlt & Hmin). split_and!; [done|lia|]. intros z Hz Hlz. apply Hmin; [done|lia].
    + intros z Hz. specialize (Hel' z Hz). lia.
  - destruct Hcase as [E Hent].
    assert (int_check (ref_count r + 1) = Some (ref_count r + 1)) as ->.
    { destruct (refs_count _ _ Hr i r Hrec) as [Hcnt Hpos]. pose proof (pins_bound (its h) i). specialize (Hlk i). rewrite He in Hcnt. cbn in Hcnt. unfold int_check. by replace ((- 2 ^ 31 <=? ref_count r + 1) && (ref_count r + 1 <? 2 ^ 31)) with true by lia. }
    cbn [mbind option_bind]. set (arg0 := if is_set then key r else value r). set (h1 := set_recs h (<[i := MapRecord (ref_count r + 1) false (key r) (value r)]> (recs h))).
    assert (map_refines (lock lk i) h1 sp) as Href1.
    { destruct Href as [[_ Hc Ht Hd Hcn Hz] Hcur]. pose proof (refs_lock_add lk h i r Hr Hrec) as Hl. pose proof (contents_count h (data sp) i r (ref_count r + 1) (its h) Hc Hrec) as Hcc. rewrite He in Hl, Hcc. split; [|done]. by split. }
    assert (forall w, map_refines (lock lk i) (set_world h1 w) sp) as Href2 by (intros w; destruct Href1; split; [by apply map_ok_world|done]).
    assert (exists w, (if is_set then JS_DupValue (key r) h1 else JS_DupValue (value r) (JS_DupValue (key r) h1)) = set_world h1 w) as [w ->] by (destruct is_set; by eexists).
    apply wp_bind. eapply wp_mono; [apply (Hcb (lock lk i) arg0 (key r) _ sp (Href2 w) HB HN)|]. intros [[threw ret] h2] (sp' & HP & Href' & HB' & HN' & Hharm).
    apply (after_call lk h2 sp' i is_set arg0 (key r)); [done|intros x; apply Hlk|]. intros el' h3 Href3 Hs3 Hel3. pose proof (shrunk_size _ _ Hs3). destruct threw.
    + apply wp_ret. eexists _, sp'. split; [by eapply each_throw|done].
    + apply wp_bind. eapply wp_mono; [apply (drop_result lk h3 h2 sp' ret i el'); [done|by apply Hharm|done|done]|]. intros h4 (Href4 & Hs4 & Hel4). pose proof (shrunk_size _ _ Hs4). apply wp_ret. exists i. split; [lia|]. right. exists (key r), (value r), sp'. split_and!; (done || lia).
Qed.

(** C13. forEach: with a callback that keeps the map in agreement with its
    specification and adds entries only up to a bound [N] (so that the traversal
    ends), and whose results, when dropped, finalize no iterator that stands on a
    deleted entry, the traversal ends, touches no freed record, calls the callback
    for the entries that the specification visits in order, those added meanwhile
    included and those deleted before their turn not, and stops at the first
    exception.  The condition on the results is necessary: [for_each_after_free]
    is a traversal that touches a freed record without it. *)
Theorem for_each_refines is_set B N P func (h : map_heap) sp : callback_ok B N P func -> B < 2 ^ 31 - 2 -> map_refines (fun _ => 0) h sp -> Z.of_nat (size (its h)) <= B -> zlen (data sp) <= N ->
  exists b h' visited sp', js_map_forEach (Z.to_nat (N + 1)) is_set func h = Some (b, h') /\ spec_for_each is_set P 0 sp visited b sp' /\ map_refines (fun _ => 0) h' sp'.
Proof.
  intros Hcb HB Href HBh HN. pose proof (zlen_nonneg (data sp)). pose proof (ok_refs _ _ _ (proj1 Href)) as Hr.
  assert (first_from (records (map_state h)) 0 (head (records (map_state h)))) as Hel.
  { pose proof (head_spec _ (refs_sorted _ _ Hr)) as Hh. destruct (head _) as [x|]; cbn.
    - destruct Hh as [Hx Hmin]. pose proof (refs_new _ _ Hr x Hx). split_and!; [done|lia|]. intros z Hz _. by apply Hmin.
    - intros z Hz. by destruct (Hh z). }
  pose proof (for_each_loop is_set B N P func (fun _ => 0) (Z.to_nat (N + 1)) 0 h sp _ Hcb ltac:(intros; lia) Href HBh HN ltac:(lia) Hel ltac:(lia)) as Hw. apply wp_exists in Hw as ([b h'] & E & visited & sp' & Hs & Href'). eauto 10.
Qed.
End forEach.

(** ** The end of a map *)

Section finalizer.
Context `{MapEnv}.

Lemma finalize_none (h : map_heap) dead : its h = ∅ -> finalize_iterators h dead = Some h.
Proof. intros E. induction dead as [|j dead IH]; cbn [finalize_iterators]; [done|]. unfold js_map_iterator_finalizer. rewrite E, lookup_empty. exact IH. Qed.

Lemma free_none v (h : map_heap) : its h = ∅ -> exists w, JS_FreeValueRT v h = Some (set_world h w).
Proof. intros E. unfold JS_FreeValueRT. destruct (free_value v (world h)) as [w dead]. exists w. by apply finalize_none. Qed.

(** The finalizer of a map without iterators frees all records and touches none
    that is free. *)
Lemma map_finalizer_frees lk (h : map_heap) : refs_ok lk h -> its h = ∅ -> wp (js_map_finalizer h) (fun h' => recs h' = ∅).
Proof.
  intros Hr Hi. unfold js_map_finalizer. set (l := records (map_state h)).
  set (I := fun st : map_heap * option Z => its st.1 = ∅ /\ records (map_state st.1) = l /\ match st.2 with Some i => i ∈ l /\ forall x, is_Some (recs st.1 !! x) <-> x ∈ l /\ i <= x | None => recs st.1 = ∅ end).
  pose proof (refs_sorted _ _ Hr) as Hsort. fold l in Hsort. apply (wp_loop I (fun st => match st.2 with Some x => length (from x l) | None => O end)).
  - unfold I. cbn. split_and!; [done|done|]. pose proof (head_spec l Hsort) as Hh. destruct (head l) as [y|].
    + destruct Hh as [Hy Hmin]. split; [done|]. intros x. rewrite <- (refs_dom _ _ Hr). fold l. split; [auto|by intros [? _]].
    + apply map_eq. intros x. rewrite lookup_empty. apply eq_None_not_Some. rewrite <- (refs_dom _ _ Hr). apply Hh.
  - cbn. unfold from. destruct (head l); [|lia]. pose proof (length_filter (fun y => z <= y) l). lia.
  - intros [h1 [i|]] (Hi1 & Hl & Hdom); cbn [fst snd] in *; cbn [finalizer_body]; [|by apply wp_ret].
    destruct Hdom as [Hin Hdom]. rewrite Hl. destruct (list_next_spec l i Hsort Hin) as (el & -> & Hel). cbn [mbind option_bind]. destruct (proj2 (Hdom i)) as [r Hrec]; [split; [done|lia]|]. rewrite Hrec. cbn [mbind option_bind].
    apply wp_bind. assert (wp (if negb (empty r) then h ← JS_FreeValueRT (key r) h1; JS_FreeValueRT (value r) h else Some h1) (fun h2 => exists w, h2 = set_world h1 w)) as Hw.
    { destruct (negb (empty r)); [|apply wp_ret; exists (world h1); by destruct h1]. destruct (free_none (key r) h1 Hi1) as [w1 ->]. cbn [mbind option_bind]. destruct (free_none (value r) (set_world h1 w1) Hi1) as [w2 ->]. apply wp_ret. by exists w2. }
    eapply wp_mono; [exact Hw|]. clear Hw. intros h2 [w ->]. apply wp_ret. unfold I. cbn. split; [split; [done|split; [done|]]|].
    + destruct el as [y|].
      * destruct Hel as (Hy & Hlt & Hmin). split; [done|]. intros x. rewrite lookup_delete_is_Some, Hdom. split; [intros (Hne & Hx & Hle); split; [done|]; apply Hmin; [done|lia]|intros [Hx Hle]; split_and!; [lia|done|lia]].
      * apply map_eq. intros x. rewrite lookup_empty. apply eq_None_not_Some. rewrite lookup_delete_is_Some, Hdom. intros (Hne & Hx & Hle). specialize (Hel x Hx). lia.
    + destruct el as [y|].
      * apply from_shrinks; [by apply sorted_NoDup|by apply sorted_NoDup|by left|done|apply Hel].
      * assert (i ∈ from i l) as Hf by (unfold from; rewrite list_elem_of_filter; split; [lia|done]). destruct (from i l); [by apply elem_of_nil in Hf|cbn; lia].
Qed.
End finalizer.

(** ** Instances *)

#[local] Existing Instance owner_env.
#[local] Existing Instance owner_env_laws.

(** A callback that deletes the key 2 and returns [ret]. *)
Definition delete_2 (ret : JSValue) (a k : JSValue) (h : map_heap) : option (bool * JSValue * map_heap) := '(_, h) ← js_map_delete h (JS_INT 2); Some (false, ret, h).
Definition deletes_2 (a k : JSValue) (threw : bool) (sp sp' : map_spec) : Prop := threw = false /\ sp' = MapSpec (spec_remove (data sp) (JS_INT 2)) (cursors sp).

Lemma delete_2_ok B N : callback_ok B N deletes_2 (delete_2 JS_UNDEFINED).
Proof.
  intros lk a k h sp [Hok Hc] HB HN. unfold delete_2. apply wp_bind. eapply wp_mono; [apply (map_delete_spec lk h (data sp) (JS_INT 2) Hok); cbn; lia|]. intros [b h'] (_ & Hi & En & Hok'). apply wp_ret.
  eexists. split; [done|]. split_and!.
  - split; [exact Hok'|]. rewrite En. by eapply cursors_sub.
  - apply map_subseteq_size in Hi. lia.
  - cbn. unfold spec_remove. destruct (spec_find _ _); by rewrite ?zlen_upd.
  - intros _ w j it i r Hj. by apply elem_of_nil in Hj.
Qed.

Lemma for_each_refines_witness : exists outs h b h' visited sp sp', @map_run owner_env false (@map_new owner_env tt) [SET (JS_INT 1) JS_NULL; SET (JS_INT 2) JS_NULL; SET (JS_INT 3) JS_NULL] = Some (outs, h) /\
  @js_map_forEach owner_env 4 false (delete_2 JS_UNDEFINED) h = Some (b, h') /\ spec_for_each false deletes_2 0 sp visited b sp'.
Proof.
  destruct (@run_refines owner_env owner_env_laws false [SET (JS_INT 1) JS_NULL; SET (JS_INT 2) JS_NULL; SET (JS_INT 3) JS_NULL] (@map_new owner_env tt) _ (@map_new_refines owner_env tt)) as (outs & h & sp & E & _ & Href); [repeat step_tac; exact I|].
  destruct (@for_each_refines owner_env false 0 3 deletes_2 (delete_2 JS_UNDEFINED) h sp (delete_2_ok 0 3) ltac:(lia) Href) as (b & h' & visited & sp' & E' & Hs & _).
  - assert (Z.of_nat (size (its h)) = 0) as ->; [|lia]. transitivity (from_option (fun p => Z.of_nat (size (its p.2))) 0 (Some (outs, h))); [done|]. rewrite <- E. vm_compute. reflexivity.
  - rewrite <- (c_next _ _ (ok_contents _ _ _ (proj1 Href))). assert (next_record h = 3) as ->; [|lia]. transitivity (from_option (fun p => next_record p.2) 0 (Some (outs, h))); [done|]. rewrite <- E. vm_compute. reflexivity.
  - exists outs, h, b, h', visited, sp, sp'. split; [exact E|]. split; [exact E'|exact Hs].
Defined.

(** *** A defect *)

(** The callback deletes the next entry and returns the last reference to an
    iterator that stands on it: the next record is freed after [el] was read. *)
Example for_each_after_free : ('(_, h) ← @map_run owner_env false (@map_new owner_env tt) [SET (JS_INT 1) JS_NULL; SET (JS_INT 2) JS_NULL; ITERATE JS_ITERATOR_KIND_KEY; NEXT 0; NEXT 0];
  fst <$> @js_map_forEach owner_env 100 false (delete_2 (JS_OBJECT 100)) h) = None.
Proof. vm_compute. reflexivity. Qed.
