(* ===== verification/LreExec.v ===== *)
(** * The matcher of regular expressions (libregexp.c)

    [lre_exec_backtrack] interprets the bytecode of a regular expression with an
    explicit stack of choice points.  The text is a list of code units, bytes or
    16-bit units by [cbuf_type], and a position is an index into it; the bytecode
    is a list of bytes.  A read outside the text or the bytecode, a failed
    assertion and an unknown opcode are [None].

    The loop of the interpreter and the inner loop that leaves a match or a
    failure ([recurse] in the source) are one loop on a state with a [mode]. *)

From S2P Require Import Prelude CArray CBytes UnicodeCase.
Open Scope Z_scope.

(** ** Opcodes *)

Inductive REOPCodeEnum : Set :=
  | REOP_invalid | REOP_char | REOP_char32 | REOP_dot | REOP_any | REOP_line_start | REOP_line_end | REOP_goto
  | REOP_split_goto_first | REOP_split_next_first | REOP_match | REOP_save_start | REOP_save_end | REOP_save_reset
  | REOP_loop | REOP_push_i32 | REOP_drop | REOP_word_boundary | REOP_not_word_boundary | REOP_back_reference
  | REOP_backward_back_reference | REOP_range | REOP_range32 | REOP_lookahead | REOP_negative_lookahead
  | REOP_push_char_pos | REOP_check_advance | REOP_prev | REOP_simple_greedy_quant.

#[global] Instance REOPCodeEnum_eq_dec : EqDecision REOPCodeEnum.
Proof. solve_decision. Defined.

Definition reops : list REOPCodeEnum :=
  [REOP_invalid; REOP_char; REOP_char32; REOP_dot; REOP_any; REOP_line_start; REOP_line_end; REOP_goto;
   REOP_split_goto_first; REOP_split_next_first; REOP_match; REOP_save_start; REOP_save_end; REOP_save_reset;
   REOP_loop; REOP_push_i32; REOP_drop; REOP_word_boundary; REOP_not_word_boundary; REOP_back_reference;
   REOP_backward_back_reference; REOP_range; REOP_range32; REOP_lookahead; REOP_negative_lookahead;
   REOP_push_char_pos; REOP_check_advance; REOP_prev; REOP_simple_greedy_quant].

(** The sizes of the opcodes with their arguments. *)
Definition reopcode_size (op : REOPCodeEnum) : Z :=
  match op with
  | REOP_invalid | REOP_dot | REOP_any | REOP_line_start | REOP_line_end | REOP_match | REOP_drop | REOP_word_boundary
  | REOP_not_word_boundary | REOP_push_char_pos | REOP_check_advance | REOP_prev => 1
  | REOP_save_start | REOP_save_end | REOP_back_reference | REOP_backward_back_reference => 2
  | REOP_char | REOP_save_reset | REOP_range | REOP_range32 => 3
  | REOP_char32 | REOP_goto | REOP_split_goto_first | REOP_split_next_first | REOP_loop | REOP_push_i32
  | REOP_lookahead | REOP_negative_lookahead => 5
  | REOP_simple_greedy_quant => 17
  end.

(** ** Characters *)

Definition is_line_terminator (c : Z) : bool := (c =? 10) || (c =? 13) || (c =? 8232) || (c =? 8233).

Definition is_word_char (c : Z) : bool :=
  ((48 <=? c) && (c <=? 57)) || ((97 <=? c) && (c <=? 122)) || ((65 <=? c) && (c <=? 90)) || (c =? 95).

Definition is_high (c : Z) : bool := (55296 <=? c) && (c <? 56320).
Definition is_low (c : Z) : bool := (56320 <=? c) && (c <? 57344).
Definition surrogate_pair (c c1 : Z) : Z := Z.lor (Z.shiftl (Z.land c 1023) 10) (Z.land c1 1023) + 65536.

(** The text and its type: 0 for bytes, 1 for 16-bit units, 2 for UTF-16. *)
Record text := Text { cbuf : list Z; cbuf_type : Z }.
Definition cbuf_end (t : text) : Z := zlen (cbuf t).

(** [GET_CHAR(c, cptr, end)]: the character and the position after it. *)
Definition GET_CHAR (t : text) (cptr tend : Z) : option (Z * Z) :=
  c ← rd (cbuf t) cptr;
  let cptr := cptr + 1 in
  if cbuf_type t =? 0 then Some (c, cptr)
  else if is_high c && (cbuf_type t =? 2) && (cptr <? tend) then
    c1 ← rd (cbuf t) cptr;
    if is_low c1 then Some (surrogate_pair c c1, cptr + 1) else Some (c, cptr)
  else Some (c, cptr).

Definition PEEK_CHAR (t : text) (cptr tend : Z) : option Z :=
  c ← rd (cbuf t) cptr;
  if cbuf_type t =? 0 then Some c
  else if is_high c && (cbuf_type t =? 2) && (cptr + 1 <? tend) then
    c1 ← rd (cbuf t) (cptr + 1);
    Some (if is_low c1 then surrogate_pair c c1 else c)
  else Some c.

Definition PEEK_PREV_CHAR (t : text) (cptr start : Z) : option Z :=
  c ← rd (cbuf t) (cptr - 1);
  if cbuf_type t =? 0 then Some c
  else if is_low c && (cbuf_type t =? 2) && (cptr - 2 >=? start) then
    c1 ← rd (cbuf t) (cptr - 2);
    Some (if is_high c1 then surrogate_pair c1 c else c)
  else Some c.

Definition GET_PREV_CHAR (t : text) (cptr start : Z) : option (Z * Z) :=
  let cptr := cptr - 1 in
  c ← rd (cbuf t) cptr;
  if cbuf_type t =? 0 then Some (c, cptr)
  else if is_low c && (cbuf_type t =? 2) && (cptr >? start) then
    c1 ← rd (cbuf t) (cptr - 1);
    if is_high c1 then Some (surrogate_pair c1 c, cptr - 1) else Some (c, cptr)
  else Some (c, cptr).

Definition PREV_CHAR (t : text) (cptr start : Z) : option Z :=
  let cptr := cptr - 1 in
  if negb (cbuf_type t =? 2) then Some cptr
  else
    c ← rd (cbuf t) cptr;
    if is_low c && (cptr >? start) then
      c1 ← rd (cbuf t) (cptr - 1);
      Some (if is_high c1 then cptr - 1 else cptr)
    else Some cptr.

(** ** State *)

(** An entry of the stack of a match: a counter or a position.  No code mixes
    them. *)
Inductive StackInt : Set := SInt (n : Z) | SPos (p : Z).

(** The fixed part of [REExecContext]. *)
Record REExecContext := ExecContext {
  bc : list Z; txt : text; capture_count : Z; stack_size_max : Z; multi_line : bool; ignore_case : bool; is_utf16 : bool }.

(** The local state: [stack] holds the first [stack_len] entries, the last one
    first. *)
Record core := Core { pc : Z; cptr : Z; capture : list (option Z); stack : list StackInt }.

Definition at_pc (c : core) (p : Z) : core := Core p (cptr c) (capture c) (stack c).
Definition at_cptr (c : core) (p : Z) : core := Core (pc c) p (capture c) (stack c).
Definition with_capture (c : core) (l : list (option Z)) : core := Core (pc c) (cptr c) l (stack c).
Definition with_stack (c : core) (l : list StackInt) : core := Core (pc c) (cptr c) (capture c) l.

Section exec.
Context (s : REExecContext).

Definition fetch (c : core) : option REOPCodeEnum := b ← rd (bc s) (pc c); rd reops b.

(** [c = lre_canonicalize(c, s->is_utf16)] when the case is ignored. *)
Definition canon_if (c : Z) : option Z := if ignore_case s then lre_canonicalize c (is_utf16 s) else Some c.

(** ** Opcodes without a choice *)

(** The result of an opcode: the next state or [goto no_match]. *)
Inductive op_outcome : Type := Next (c : core) | No_match.

(** A character in front of the position that satisfies a test; [stop]: the end of
    the text. *)
Definition test_char (stop : bool) (c : core) (p : Z -> option bool) : option op_outcome :=
  if stop then Some No_match
  else
    '(ch, cptr) ← GET_CHAR (txt s) (cptr c) (cbuf_end (txt s));
    ok ← p ch;
    Some (if ok : bool then Next (at_cptr c cptr) else No_match).

(** The binary search of [REOP_range] ([w] is 2) and [REOP_range32] (4). *)
Definition range_body (w : Z) (p c : Z) (st : Z * Z) : option ((Z * Z) + bool) :=
  let '(idx_min, idx_max) := st in
  let get q := if w =? 2 then get_u16 (bc s) q else get_u32 (bc s) q in
  if idx_min <=? idx_max then
    let idx := u32 (idx_min + idx_max) / 2 in
    low ← get (p + u32 (idx * (2 * w)));
    high ← get (p + u32 (idx * (2 * w)) + w);
    if c <? low then Some (inl (idx_min, u32 (idx - 1)))
    else if c >? high then Some (inl (u32 (idx + 1), idx_max))
    else Some (inr true)
  else Some (inr false).

Definition in_range (w : Z) (p n c : Z) : option bool :=
  let get q := if w =? 2 then get_u16 (bc s) q else get_u32 (bc s) q in
  low ← get p;
  if c <? low then Some false
  else
    let idx_max := u32 (n - 1) in
    high ← get (p + u32 (idx_max * (2 * w)) + w);
    if (w =? 2) && (c >=? 65535) && (high =? 65535) then Some true
    else if c >? high then Some false
    else loop (Z.to_nat n + 1) (range_body w p c) (0, idx_max).

Definition range_op (w : Z) (c : core) : option op_outcome :=
  n ← get_u16 (bc s) (pc c);
  r ← test_char (cptr c >=? cbuf_end (txt s)) c (fun ch => ch ← canon_if ch; in_range w (pc c + 2) n ch);
  Some (match r with Next c' => Next (at_pc c' (pc c + 2 + 2 * w * n)) | No_match => No_match end).

(** The loops of a back reference; [p1] runs in the group, [p2] in the text. *)
Definition back_ref_body (p1_end : Z) (st : Z * Z) : option ((Z * Z) + option Z) :=
  let '(p1, p2) := st in
  if p1 <? p1_end then
    if p2 >=? cbuf_end (txt s) then Some (inr None)
    else
      '(c1, p1) ← GET_CHAR (txt s) p1 p1_end;
      '(c2, p2) ← GET_CHAR (txt s) p2 (cbuf_end (txt s));
      c1 ← canon_if c1; c2 ← canon_if c2;
      if negb (c1 =? c2) then Some (inr None) else Some (inl (p1, p2))
  else Some (inr (Some p2)).

Definition back_ref_prev_body (p1_start : Z) (st : Z * Z) : option ((Z * Z) + option Z) :=
  let '(p1, p2) := st in
  if p1 >? p1_start then
    if p2 =? 0 then Some (inr None)
    else
      '(c1, p1) ← GET_PREV_CHAR (txt s) p1 p1_start;
      '(c2, p2) ← GET_PREV_CHAR (txt s) p2 0;
      c1 ← canon_if c1; c2 ← canon_if c2;
      if negb (c1 =? c2) then Some (inr None) else Some (inl (p1, p2))
  else Some (inr (Some p2)).

Definition back_ref_op (backward : bool) (c : core) : option op_outcome :=
  v ← rd (bc s) (pc c);
  let c := at_pc c (pc c + 1) in
  if v >=? capture_count s then Some No_match
  else
    p_start ← rd (capture c) (2 * v);
    p_end ← rd (capture c) (2 * v + 1);
    match p_start, p_end with
    | Some p_start, Some p_end =>
        r ← (if backward then loop (Z.to_nat (p_end - p_start) + 1) (back_ref_prev_body p_start) (p_end, cptr c)
             else loop (Z.to_nat (p_end - p_start) + 1) (back_ref_body p_end) (p_start, cptr c));
        Some (match r with Some p => Next (at_cptr c p) | None => No_match end)
    | _, _ => Some (Next c)
    end.

Fixpoint reset_captures (n : nat) (l : list (option Z)) (v : Z) : option (list (option Z)) :=
  match n with
  | O => Some l
  | S n => l ← wr l (2 * v) None; l ← wr l (2 * v + 1) None; reset_captures n l (v + 1)
  end.

Definition push_stack (c : core) (v : StackInt) : option op_outcome :=
  if zlen (stack c) <? stack_size_max s then Some (Next (with_stack c (v :: stack c))) else None.

(** An opcode that has no choice, [pc] behind it. *)
Definition simple_op (op : REOPCodeEnum) (c : core) : option op_outcome :=
  match op with
  | REOP_char32 => v ← get_u32 (bc s) (pc c); test_char (cptr c >=? cbuf_end (txt s)) (at_pc c (pc c + 4)) (fun ch => ch ← canon_if ch; Some (v =? ch))
  | REOP_char => v ← get_u16 (bc s) (pc c); test_char (cptr c >=? cbuf_end (txt s)) (at_pc c (pc c + 2)) (fun ch => ch ← canon_if ch; Some (v =? ch))
  | REOP_goto => v ← get_u32 (bc s) (pc c); Some (Next (at_pc c (pc c + 4 + s32 v)))
  | REOP_line_start =>
      if cptr c =? 0 then Some (Next c)
      else if negb (multi_line s) then Some No_match
      else ch ← PEEK_PREV_CHAR (txt s) (cptr c) 0; Some (if is_line_terminator ch then Next c else No_match)
  | REOP_line_end =>
      if cptr c =? cbuf_end (txt s) then Some (Next c)
      else if negb (multi_line s) then Some No_match
      else ch ← PEEK_CHAR (txt s) (cptr c) (cbuf_end (txt s)); Some (if is_line_terminator ch then Next c else No_match)
  | REOP_dot => test_char (cptr c =? cbuf_end (txt s)) c (fun ch => Some (negb (is_line_terminator ch)))
  | REOP_any => test_char (cptr c =? cbuf_end (txt s)) c (fun ch => Some true)
  | REOP_save_start | REOP_save_end =>
      v ← rd (bc s) (pc c);
      if v <? capture_count s then
        l ← wr (capture c) (2 * v + (match op with REOP_save_start => 0 | _ => 1 end)) (Some (cptr c));
        Some (Next (with_capture (at_pc c (pc c + 1)) l))
      else None
  | REOP_save_reset =>
      v ← rd (bc s) (pc c);
      v2 ← rd (bc s) (pc c + 1);
      if v2 <? capture_count s then
        l ← reset_captures (Z.to_nat (v2 + 1 - v)) (capture c) v;
        Some (Next (with_capture (at_pc c (pc c + 2)) l))
      else None
  | REOP_push_i32 => v ← get_u32 (bc s) (pc c); push_stack (at_pc c (pc c + 4)) (SInt v)
  | REOP_drop => match stack c with _ :: l => Some (Next (with_stack c l)) | [] => None end
  | REOP_loop =>
      v ← get_u32 (bc s) (pc c);
      match stack c with
      | SInt n :: l =>
          let n := u64 (n - 1) in
          Some (Next (with_stack (at_pc c (pc c + 4 + (if negb (n =? 0) then s32 v else 0))) (SInt n :: l)))
      | _ => None
      end
  | REOP_push_char_pos => push_stack c (SPos (cptr c))
  | REOP_check_advance =>
      match stack c with
      | SPos p :: l => Some (if p =? cptr c then No_match else Next (with_stack c l))
      | _ => None
      end
  | REOP_word_boundary | REOP_not_word_boundary =>
      v1 ← (if cptr c =? 0 then Some false else ch ← PEEK_PREV_CHAR (txt s) (cptr c) 0; Some (is_word_char ch));
      v2 ← (if cptr c >=? cbuf_end (txt s) then Some false else ch ← PEEK_CHAR (txt s) (cptr c) (cbuf_end (txt s)); Some (is_word_char ch));
      let boundary := xorb v1 v2 in
      Some (if (match op with REOP_word_boundary => negb boundary | _ => boundary end) then No_match else Next c)
  | REOP_back_reference => back_ref_op false c
  | REOP_backward_back_reference => back_ref_op true c
  | REOP_range => range_op 2 c
  | REOP_range32 => range_op 4 c
  | REOP_prev => if cptr c =? 0 then Some No_match else p ← PREV_CHAR (txt s) (cptr c) 0; Some (Next (at_cptr c p))
  | _ => None
  end.

(** ** Choice points *)

Inductive REExecStateEnum : Set := RE_EXEC_STATE_SPLIT | RE_EXEC_STATE_LOOKAHEAD | RE_EXEC_STATE_NEGATIVE_LOOKAHEAD | RE_EXEC_STATE_GREEDY_QUANT.

(** The saved state is a [core]. *)
Record REExecState := ExecState { rs_type : REExecStateEnum; rs_count : Z; rs_core : core }.

(** [Run]: the next opcode; [Back ret]: the loop at [recurse]. *)
Inductive mode : Set := Run | Back (ret : bool).

(** [states]: the stack of choice points, the last one first; [states_size]: the
    allocated size. *)
Record machine := Machine { mode_of : mode; core_of : core; states : list REExecState; states_size : Z }.

(** The values that [lre_exec_backtrack] returns: 1 or a position, 0, and -1. *)
Inductive exec_result : Type := R_match (m : machine) | R_fail (m : machine) | R_error.

(** Whether [lre_realloc] grants a size. *)
Context (lre_realloc : Z -> bool).

Definition state_size : Z := 32 + capture_count s * 8 * 2 + stack_size_max s * 8.

(** The new size of the stack of choice points, [None]: out of memory. *)
Definition grow_states (m : machine) : option Z :=
  if zlen (states m) + 1 >? states_size m then
    let new_size := u64 (states_size m * 3) / 2 in
    let new_size := if new_size <? 8 then 8 else new_size in
    if lre_realloc (new_size * state_size) then Some new_size else None
  else Some (states_size m).

(** [push_state], and the state to go on with. *)
Definition push_state (m : machine) (saved : core) (type : REExecStateEnum) (count : Z) (next : core) : machine + exec_result :=
  match grow_states m with
  | None => inr R_error
  | Some n => inl (Machine Run next (ExecState type count saved :: states m) n)
  end.

Fixpoint prev_chars (n : nat) (p : Z) : option Z := match n with O => Some p | S n => p ← PREV_CHAR (txt s) p 0; prev_chars n p end.

(** One turn of the loop at [recurse]. *)
Definition back_step (ret : bool) (m : machine) : option (machine + exec_result) :=
  let c := core_of m in
  match states m with
  | [] => Some (inr (if ret then R_match m else R_fail m))
  | rs :: rest =>
      let sv := rs_core rs in
      let pop ret := Machine (Back ret) c rest (states_size m) in
      let resume c := Machine Run c rest (states_size m) in
      match rs_type rs with
      | RE_EXEC_STATE_SPLIT => Some (inl (if negb ret then resume sv else pop ret))
      | RE_EXEC_STATE_GREEDY_QUANT =>
          if negb ret then
            char_count ← get_u32 (bc s) (pc sv + 12);
            p ← prev_chars (Z.to_nat char_count) (cptr sv);
            next ← get_u32 (bc s) (pc sv);
            let count := u64 (rs_count rs - 1) in
            Some (inl (Machine Run (at_cptr (at_pc sv (pc sv + 16 + s32 next)) p)
              (if count =? 0 then rest else ExecState RE_EXEC_STATE_GREEDY_QUANT count (at_cptr sv p) :: rest) (states_size m)))
          else Some (inl (pop ret))
      | RE_EXEC_STATE_LOOKAHEAD => Some (inl (if ret then resume (with_capture sv (capture c)) else pop false))
      | RE_EXEC_STATE_NEGATIVE_LOOKAHEAD => Some (inl (if negb ret then resume sv else pop false))
      end
  end.

(** The loop of [REOP_simple_greedy_quant]: [call] is the call of the interpreter on
    the atom at [pc1]; the atom of a simple quantifier does not use the stack. *)
Definition quant_body (call : machine -> option exec_result) (pc1 quant_max : Z) (st : machine * Z) : option ((machine * Z) + option (machine * Z)) :=
  let '(m, q) := st in
  res ← call (Machine Run (at_pc (core_of m) pc1) (states m) (states_size m));
  match res with
  | R_error => Some (inr None)
  | R_fail m1 => Some (inr (Some (Machine Run (with_capture (core_of m) (capture (core_of m1))) (states m1) (states_size m1), q)))
  | R_match m1 =>
      let m := Machine Run (at_cptr (with_capture (core_of m) (capture (core_of m1))) (cptr (core_of m1))) (states m1) (states_size m1) in
      let q := u64 (q + 1) in
      if (q >=? quant_max) && negb (quant_max =? 2147483647) then Some (inr (Some (m, q))) else Some (inl (m, q))
  end.

Definition greedy_quant (fuel : nat) (call : machine -> option exec_result) (m : machine) : option (option machine + exec_result) :=
  let c := core_of m in
  next_pos ← get_u32 (bc s) (pc c);
  quant_min ← get_u32 (bc s) (pc c + 4);
  quant_max ← get_u32 (bc s) (pc c + 8);
  let pc1 := pc c + 16 in
  r ← loop fuel (quant_body call pc1 quant_max) (m, 0);
  match r with
  | None => Some (inr R_error)
  | Some (m, q) =>
      let c := at_pc (core_of m) (pc1 + s32 next_pos) in
      if q <? quant_min then Some (inl None)
      else if q >? quant_min then
        match push_state m (at_pc (core_of m) (pc1 - 16)) RE_EXEC_STATE_GREEDY_QUANT (q - quant_min) c with
        | inl m => Some (inl (Some m))
        | inr e => Some (inr e)
        end
      else Some (inl (Some (Machine Run c (states m) (states_size m))))
  end.

(** One turn of the interpreter. *)
Definition opcode_step (fuel : nat) (call : machine -> option exec_result) (no_recurse : bool) (m : machine) : option (machine + exec_result) :=
  op ← fetch (core_of m);
  let c := at_pc (core_of m) (pc (core_of m) + 1) in
  let no_match m := if no_recurse then inr (R_fail m) else inl (Machine (Back false) (core_of m) (states m) (states_size m)) in
  match op with
  | REOP_match => Some (if no_recurse then inr (R_match (Machine Run c (states m) (states_size m))) else inl (Machine (Back true) c (states m) (states_size m)))
  | REOP_split_goto_first | REOP_split_next_first =>
      v ← get_u32 (bc s) (pc c);
      let here := at_pc c (pc c + 4) in
      let there := at_pc c (pc c + 4 + s32 v) in
      Some (match op with
            | REOP_split_next_first => push_state m there RE_EXEC_STATE_SPLIT 0 here
            | _ => push_state m here RE_EXEC_STATE_SPLIT 0 there
            end)
  | REOP_lookahead | REOP_negative_lookahead =>
      v ← get_u32 (bc s) (pc c);
      let type := match op with REOP_lookahead => RE_EXEC_STATE_LOOKAHEAD | _ => RE_EXEC_STATE_NEGATIVE_LOOKAHEAD end in
      Some (push_state m (at_pc c (pc c + 4 + s32 v)) type 0 (at_pc c (pc c + 4)))
  | REOP_simple_greedy_quant =>
      r ← greedy_quant fuel call (Machine Run c (states m) (states_size m));
      Some (match r with inl (Some m) => inl m | inl None => no_match m | inr e => inr e end)
  | _ =>
      r ← simple_op op c;
      Some (match r with Next c => inl (Machine Run c (states m) (states_size m)) | No_match => no_match m end)
  end.

Definition exec_step (fuel : nat) (call : machine -> option exec_result) (no_recurse : bool) (m : machine) : option (machine + exec_result) :=
  match mode_of m with Run => opcode_step fuel call no_recurse m | Back ret => back_step ret m end.

(** [depth]: nested calls; a simple quantifier has no quantifier inside. *)
Fixpoint lre_exec_backtrack (depth fuel : nat) (no_recurse : bool) (m : machine) : option exec_result :=
  match depth with
  | O => None
  | S depth => loop fuel (exec_step fuel (lre_exec_backtrack depth fuel true) no_recurse) m
  end.
End exec.

(** The flags of a regular expression. *)
Definition LRE_FLAG_IGNORECASE : Z := 2.
Definition LRE_FLAG_MULTILINE : Z := 4.
Definition LRE_FLAG_UTF16 : Z := 16.
Definition RE_HEADER_LEN : Z := 7.

(** The context of [lre_exec], from the header of the bytecode. *)
Definition exec_context (bc_buf cbuf : list Z) (cbuf_type : Z) : option REExecContext :=
  re_flags ← rd bc_buf 0;
  capture_count ← rd bc_buf 1;
  stack_size ← rd bc_buf 2;
  let is_utf16 := negb (Z.land re_flags LRE_FLAG_UTF16 =? 0) in
  Some (ExecContext bc_buf (Text cbuf (if (cbuf_type =? 1) && is_utf16 then 2 else cbuf_type)) capture_count stack_size
    (negb (Z.land re_flags LRE_FLAG_MULTILINE =? 0)) (negb (Z.land re_flags LRE_FLAG_IGNORECASE =? 0)) is_utf16).

(** Its first state: no group has a value. *)
Definition start_core (s : REExecContext) (cindex : Z) : core :=
  Core RE_HEADER_LEN cindex (replicate (Z.to_nat (2 * capture_count s)) None) [].

(** The result of [lre_exec] (1, 0 or -1) and the captures. *)
Definition lre_exec (lre_realloc : Z -> bool) (fuel : nat) (bc_buf cbuf : list Z) (cindex cbuf_type : Z) : option (Z * list (option Z)) :=
  s ← exec_context bc_buf cbuf cbuf_type;
  r ← lre_exec_backtrack s lre_realloc 2 fuel false (Machine Run (start_core s cindex) [] 0);
  Some (match r with R_match m => (1, capture (core_of m)) | R_fail m => (0, capture (core_of m)) | R_error => (-1, []) end).
