(* ===== verification/LreSem.v ===== *)
(** * What the bytecode of a regular expression means

    [eval] is a big-step semantics of the bytecode in which a choice is a premise:
    the second branch of a split is evaluated when the first one fails, an
    assertion runs to its end before the match goes on.  The interpreter, with its
    stack of choice points, implements it. *)

From S2P Require Import Prelude CArray CBytes UnicodeCase LreExec.
Open Scope Z_scope.

Section sem.
Context (s : REExecContext).

Definition next_pc (c : core) : core := at_pc c (pc c + 1).

(** ** Atoms of simple quantifiers *)

(** The opcodes that [re_is_simple_quantifier] accepts. *)
Definition atom_op (op : REOPCodeEnum) : bool :=
  match op with
  | REOP_char | REOP_char32 | REOP_dot | REOP_any | REOP_range | REOP_range32 | REOP_line_start | REOP_line_end | REOP_word_boundary | REOP_not_word_boundary => true
  | _ => false
  end.

Inductive atom : core -> option core -> Prop :=
  | atom_match c : fetch s c = Some REOP_match -> atom c (Some (next_pc c))
  | atom_next c op c' r : fetch s c = Some op -> atom_op op = true -> simple_op s op (next_pc c) = Some (Next c') -> atom c' r -> atom c r
  | atom_fail c op : fetch s c = Some op -> atom_op op = true -> simple_op s op (next_pc c) = Some No_match -> atom c None.

(** Repetitions of the atom at [pc1] from the state [c], [q] of them so far. *)
Inductive reps (pc1 quant_max : Z) : core -> Z -> core -> Z -> Prop :=
  | reps_end c q : atom (at_pc c pc1) None -> reps pc1 quant_max c q c q
  | reps_max c q x : atom (at_pc c pc1) (Some x) -> quant_max <= u64 (q + 1) -> quant_max <> 2147483647 -> reps pc1 quant_max c q (at_cptr c (cptr x)) (u64 (q + 1))
  | reps_more c q x c' q' : atom (at_pc c pc1) (Some x) -> u64 (q + 1) < quant_max \/ quant_max = 2147483647 -> reps pc1 quant_max (at_cptr c (cptr x)) (u64 (q + 1)) c' q' -> reps pc1 quant_max c q c' q'.

(** ** Evaluation *)

(** [T_run c]: the state [c].  [T_quant sv k]: [k] shorter repetitions of the simple
    quantifier at [sv] are left. *)
Inductive task : Type := T_run (c : core) | T_quant (sv : core) (k : Z).

(** Both branches of a split, the preferred one first. *)
Definition split_branches (op : REOPCodeEnum) (c : core) (v : Z) : option (core * core) :=
  let here := at_pc c (pc c + 4) in
  let there := at_pc c (pc c + 4 + s32 v) in
  match op with REOP_split_next_first => Some (here, there) | REOP_split_goto_first => Some (there, here) | _ => None end.

(** The arguments of [REOP_simple_greedy_quant] at [c], and its longest match. *)
Record quant (c : core) (next_pos quant_min : Z) (c' : core) (q : Z) : Prop := {
  quant_op : fetch s c = Some REOP_simple_greedy_quant;
  quant_next : get_u32 (bc s) (pc c + 1) = Some next_pos;
  quant_low : get_u32 (bc s) (pc c + 5) = Some quant_min;
  quant_reps : exists quant_max, get_u32 (bc s) (pc c + 9) = Some quant_max /\ reps (pc c + 17) quant_max (next_pc c) 0 c' q }.

(** A shorter repetition: the state after the quantifier and the state to save. *)
Definition shorter (sv : core) : option (core * core) :=
  char_count ← get_u32 (bc s) (pc sv + 12);
  p ← prev_chars s (Z.to_nat char_count) (cptr sv);
  next_pos ← get_u32 (bc s) (pc sv);
  Some (at_cptr (at_pc sv (pc sv + 16 + s32 next_pos)) p, at_cptr sv p).

Inductive eval : task -> option core -> Prop :=
  | ev_match c : fetch s c = Some REOP_match -> eval (T_run c) (Some (next_pc c))
  | ev_next c op c' r : fetch s c = Some op -> simple_op s op (next_pc c) = Some (Next c') -> eval (T_run c') r -> eval (T_run c) r
  | ev_fail c op : fetch s c = Some op -> simple_op s op (next_pc c) = Some No_match -> eval (T_run c) None
  | ev_split_first c op v c1 c2 x : fetch s c = Some op -> get_u32 (bc s) (pc c + 1) = Some v -> split_branches op (next_pc c) v = Some (c1, c2) ->
      eval (T_run c1) (Some x) -> eval (T_run c) (Some x)
  | ev_split_second c op v c1 c2 r : fetch s c = Some op -> get_u32 (bc s) (pc c + 1) = Some v -> split_branches op (next_pc c) v = Some (c1, c2) ->
      eval (T_run c1) None -> eval (T_run c2) r -> eval (T_run c) r
  | ev_look c v x r : fetch s c = Some REOP_lookahead -> get_u32 (bc s) (pc c + 1) = Some v -> eval (T_run (at_pc c (pc c + 5))) (Some x) ->
      eval (T_run (with_capture (at_pc c (pc c + 5 + s32 v)) (capture x))) r -> eval (T_run c) r
  | ev_look_fail c v : fetch s c = Some REOP_lookahead -> get_u32 (bc s) (pc c + 1) = Some v -> eval (T_run (at_pc c (pc c + 5))) None -> eval (T_run c) None
  | ev_neg c v r : fetch s c = Some REOP_negative_lookahead -> get_u32 (bc s) (pc c + 1) = Some v -> eval (T_run (at_pc c (pc c + 5))) None ->
      eval (T_run (at_pc c (pc c + 5 + s32 v))) r -> eval (T_run c) r
  | ev_neg_fail c v x : fetch s c = Some REOP_negative_lookahead -> get_u32 (bc s) (pc c + 1) = Some v -> eval (T_run (at_pc c (pc c + 5))) (Some x) -> eval (T_run c) None
  | ev_quant_few c next_pos quant_min c' q : quant c next_pos quant_min c' q -> q < quant_min -> eval (T_run c) None
  | ev_quant_min c next_pos quant_min c' r : quant c next_pos quant_min c' quant_min -> eval (T_run (at_pc c' (pc c + 17 + s32 next_pos))) r -> eval (T_run c) r
  | ev_quant_longest c next_pos quant_min c' q x : quant c next_pos quant_min c' q -> quant_min < q -> eval (T_run (at_pc c' (pc c + 17 + s32 next_pos))) (Some x) -> eval (T_run c) (Some x)
  | ev_quant_shorter c next_pos quant_min c' q r : quant c next_pos quant_min c' q -> quant_min < q -> eval (T_run (at_pc c' (pc c + 17 + s32 next_pos))) None ->
      eval (T_quant (at_pc c' (pc c + 1)) (q - quant_min)) r -> eval (T_run c) r
  | ev_back_first sv k c sv' x : shorter sv = Some (c, sv') -> eval (T_run c) (Some x) -> eval (T_quant sv k) (Some x)
  | ev_back_last sv k c sv' : shorter sv = Some (c, sv') -> u64 (k - 1) = 0 -> eval (T_run c) None -> eval (T_quant sv k) None
  | ev_back_rest sv k c sv' r : shorter sv = Some (c, sv') -> u64 (k - 1) <> 0 -> eval (T_run c) None -> eval (T_quant sv' (u64 (k - 1))) r -> eval (T_quant sv k) r.

(** ** Atoms and calls of the interpreter *)

Context (lre_realloc : Z -> bool).

Lemma test_char_frame stop c p c' : test_char s stop c p = Some (Next c') -> c' = at_cptr c (cptr c').
Proof. unfold test_char. destruct stop; [done|]. destruct (GET_CHAR _ _ _) as [[ch p']|]; [|done]. cbn. destruct (p ch) as [[|]|]; cbn; [|done..]. by intros [= <-]. Qed.

(** The opcodes of atoms move the position only. *)
Lemma atom_op_frame op c c' : atom_op op = true -> simple_op s op c = Some (Next c') -> capture c' = capture c /\ stack c' = stack c.
Proof.
  assert (forall w c0 c1, range_op s w c0 = Some (Next c1) -> capture c1 = capture c0 /\ stack c1 = stack c0) as Hr.
  { intros w c0 c1. unfold range_op. destruct (get_u16 (bc s) (pc c0)) as [n|]; [|done]. cbn. destruct (test_char _ _ _ _) as [[c2|]|] eqn:E; cbn; [|done..]. intros [= <-]. apply test_char_frame in E. by rewrite E. }
  assert (forall stop c0 p c1, test_char s stop c0 p = Some (Next c1) -> capture c1 = capture c0 /\ stack c1 = stack c0) as Ht by (intros stop c0 p c1 E; apply test_char_frame in E; by rewrite E).
  intros Hop E. destruct op; try done; cbn [simple_op] in E;
    repeat match goal with
    | H : (mbind _ ?m) = Some _ |- _ => let x := fresh "x" in destruct m as [x|]; [cbn [mbind option_bind] in H|done]
    | H : context [if ?b then _ else _] |- _ => destruct b
    | H : Some (Next _) = Some (Next _) |- _ => injection H as <-
    end; try done; first [apply Hr in E; exact E | apply Ht in E; exact E].
Qed.

(** ** The interpreter *)

Definition call (fuel : nat) : machine -> option exec_result := lre_exec_backtrack s lre_realloc 1 fuel true.

Lemma call_loop fuel m : call fuel m = loop fuel (exec_step s lre_realloc fuel (fun _ => None) true) m.
Proof. done. Qed.

(** The opcodes of atoms do not depend on fuel or calls. *)
Lemma run_simple fuel f nr m op r : mode_of m = Run -> fetch s (core_of m) = Some op -> simple_op s op (next_pc (core_of m)) = Some r ->
  exec_step s lre_realloc fuel f nr m = Some (match r with Next c => inl (Machine Run c (states m) (states_size m))
    | No_match => if nr then inr (R_fail m) else inl (Machine (Back false) (core_of m) (states m) (states_size m)) end).
Proof. intros Hm Hf Hs. unfold exec_step, opcode_step. rewrite Hm, Hf. cbn [mbind option_bind]. fold (next_pc (core_of m)). destruct op; try done; rewrite Hs; cbn [mbind option_bind]; by destruct r. Qed.

Lemma atom_loop c r : atom c r -> exists F c', match r with Some x => c' = x | None => True end /\ capture c' = capture c /\
  forall fuel f k S n, (F <= k)%nat -> loop k (exec_step s lre_realloc fuel f true) (Machine Run c S n) = Some (match r with Some x => R_match (Machine Run x S n) | None => R_fail (Machine Run c' S n) end).
Proof.
  induction 1 as [c Hf|c op c' r Hf Ha Hs Hat (F & c1 & Hc1 & Hcap & IH)|c op Hf Ha Hs].
  - exists 1%nat, (next_pc c). split_and!; [done|done|]. intros fuel f [|k] S n Hk; [lia|]. cbn [loop]. unfold exec_step at 1. cbn [mode_of]. unfold opcode_step. cbn [core_of]. by rewrite Hf.
  - exists (Datatypes.S F), c1. split_and!; [done|destruct (atom_op_frame _ _ _ Ha Hs) as [Hc' _]; rewrite Hcap, Hc'; done|]. intros fuel f [|k] S n Hk; [lia|].
    cbn [loop]. rewrite (run_simple _ _ _ _ op (Next c')) by done. cbn [states states_size]. apply IH. lia.
  - exists 1%nat, c. split_and!; [done|done|]. intros fuel f [|k] S n Hk; [lia|]. cbn [loop]. by rewrite (run_simple _ _ _ _ op No_match).
Qed.

Lemma atom_call c r : atom c r -> exists F c', match r with Some x => c' = x | None => True end /\ capture c' = capture c /\
  forall fuel S n, (F <= fuel)%nat -> call fuel (Machine Run c S n) = Some (match r with Some x => R_match (Machine Run x S n) | None => R_fail (Machine Run c' S n) end).
Proof. intros (F & c' & H1 & H2 & H3)%atom_loop. exists F, c'. split_and!; [done|done|]. intros fuel S n Hfuel. rewrite call_loop. by apply H3. Qed.

Lemma quant_loop pc1 quant_max c q c' q' : reps pc1 quant_max c q c' q' -> exists F, forall fuel S n, (F <= fuel)%nat ->
  loop fuel (quant_body (call fuel) pc1 quant_max) (Machine Run c S n, q) = Some (Some (Machine Run c' S n, q')).
Proof.
  intros Hreps. enough (exists F, forall fuel k S n, (F <= fuel)%nat -> (F <= k)%nat -> loop k (quant_body (call fuel) pc1 quant_max) (Machine Run c S n, q) = Some (Some (Machine Run c' S n, q'))) as [F HF] by (exists F; auto).
  assert (forall c l, l = capture c -> with_capture c l = c) as Hw by (by intros [] l ->).
  induction Hreps as [c q Ha|c q x Ha Hm Hne|c q x c' q' Ha Hm Hr [F' IH]].
  - destruct (atom_call _ _ Ha) as (F & c1 & _ & Hcap & HF). exists (Datatypes.S F). intros fuel [|k] S n Hfuel Hk; [lia|]. cbn [loop quant_body core_of states states_size]. rewrite HF by lia. cbn [mbind option_bind core_of states states_size]. by rewrite Hw.
  - destruct (atom_call _ _ Ha) as (F & c1 & -> & Hcap & HF). exists (Datatypes.S F). intros fuel [|k] S n Hfuel Hk; [lia|]. cbn [loop quant_body core_of states states_size]. rewrite HF by lia. cbn [mbind option_bind core_of states states_size].
    rewrite Hw by done. replace ((u64 (q + 1) >=? quant_max) && negb (quant_max =? 2147483647)) with true by lia. done.
  - destruct (atom_call _ _ Ha) as (F & c1 & -> & Hcap & HF). exists (Datatypes.S (F + F')). intros fuel [|k] S n Hfuel Hk; [lia|]. cbn [loop quant_body core_of states states_size]. rewrite HF by lia. cbn [mbind option_bind core_of states states_size].
    rewrite Hw by done. replace ((u64 (q + 1) >=? quant_max) && negb (quant_max =? 2147483647)) with false by lia. apply IH; lia.
Qed.

(** A step for all sufficient fuel. *)
Definition mstep (m m' : machine) : Prop := exists F, forall fuel, (F <= fuel)%nat -> exec_step s lre_realloc fuel (call fuel) false m = Some (inl m').

(** The stack of choice points could not grow. *)
Definition oom_step (m : machine) : Prop := exists F, forall fuel, (F <= fuel)%nat -> exec_step s lre_realloc fuel (call fuel) false m = Some (inr R_error).
Definition refused : Prop := exists n, lre_realloc n = false.

(** [m] runs to a state that satisfies [P], or out of memory. *)
Definition leads (m : machine) (P : machine -> Prop) : Prop := exists m', rtc mstep m m' /\ (P m' \/ oom_step m' /\ refused).

Lemma leads_here m (P : machine -> Prop) : P m -> leads m P.
Proof. intros HP. exists m. split; [done|by left]. Qed.

Lemma leads_step m m' P : mstep m m' -> leads m' P -> leads m P.
Proof. intros Hs (m2 & Hr & HP). exists m2. split; [by eapply rtc_l|done]. Qed.

Lemma leads_trans m (P Q : machine -> Prop) : leads m P -> (forall m', P m' -> leads m' Q) -> leads m Q.
Proof. intros (m1 & Hr & [HP|HP]) HQ; [|exists m1; split; [done|by right]]. destruct (HQ m1 HP) as (m2 & Hr2 & HQ2). exists m2. split; [by etransitivity|done]. Qed.

(** The state after the evaluation of a task with the choice points [S]. *)
Definition finished (S : list REExecState) (r : option core) (m : machine) : Prop :=
  states m = S /\ match r with Some x => mode_of m = Back true /\ core_of m = x | None => mode_of m = Back false end.

Lemma step_simple c op r S n : fetch s c = Some op -> simple_op s op (next_pc c) = Some r ->
  mstep (Machine Run c S n) (match r with Next c' => Machine Run c' S n | No_match => Machine (Back false) c S n end).
Proof. intros Hf Hs. exists O. intros fuel _. rewrite (run_simple _ _ _ _ op r) by done. by destruct r. Qed.

Lemma step_push c S n saved type count next (H : forall fuel, exec_step s lre_realloc fuel (call fuel) false (Machine Run c S n) = Some (push_state s lre_realloc (Machine Run c S n) saved type count next)) P :
  (forall n', leads (Machine Run next (ExecState type count saved :: S) n') P) -> leads (Machine Run c S n) P.
Proof.
  intros HP. unfold push_state in H. destruct (grow_states s lre_realloc (Machine Run c S n)) as [n'|] eqn:E.
  - eapply leads_step; [exists O; intros fuel _; by rewrite H|]. cbn [states]. apply HP.
  - exists (Machine Run c S n). split; [done|]. right. split; [exists O; intros fuel _; by rewrite H|]. unfold grow_states in E. destruct (_ >? _); [|done].
    match type of E with (if lre_realloc ?x then _ else _) = _ => exists x; by destruct (lre_realloc x) end.
Qed.

Lemma greedy_quant_spec c next_pos quant_min c' q : quant c next_pos quant_min c' q -> exists F, forall fuel S n, (F <= fuel)%nat ->
  greedy_quant s lre_realloc fuel (call fuel) (Machine Run (next_pc c) S n) =
    Some (let m := Machine Run c' S n in
          if q <? quant_min then inl None
          else if q >? quant_min then match push_state s lre_realloc m (at_pc c' (pc c + 1)) RE_EXEC_STATE_GREEDY_QUANT (q - quant_min) (at_pc c' (pc c + 17 + s32 next_pos)) with inl m => inl (Some m) | inr e => inr e end
          else inl (Some (Machine Run (at_pc c' (pc c + 17 + s32 next_pos)) S n))).
Proof.
  intros [_ Hn Hl (quant_max & Hm & Hreps)]. destruct (quant_loop _ _ _ _ _ _ Hreps) as [F HF]. exists F. intros fuel S n Hfuel. unfold greedy_quant. cbn [core_of next_pc at_pc pc states states_size].
  replace (pc c + 1 + 4) with (pc c + 5) by lia. replace (pc c + 1 + 8) with (pc c + 9) by lia. rewrite Hn, Hl, Hm. cbn [mbind option_bind]. replace (pc c + 1 + 16) with (pc c + 17) by lia.
  fold (next_pc c). rewrite HF by done. cbn [mbind option_bind core_of states states_size]. replace (pc c + 17 - 16) with (pc c + 1) by lia. destruct (q <? quant_min); [done|]. destruct (q >? quant_min); [|done]. by destruct (push_state _ _ _ _ _ _ _).
Qed.

Lemma step_quant c next_pos quant_min c' q S n P : quant c next_pos quant_min c' q ->
  (q < quant_min -> leads (Machine (Back false) c S n) P) -> (q = quant_min -> leads (Machine Run (at_pc c' (pc c + 17 + s32 next_pos)) S n) P) ->
  (quant_min < q -> forall n', leads (Machine Run (at_pc c' (pc c + 17 + s32 next_pos)) (ExecState RE_EXEC_STATE_GREEDY_QUANT (q - quant_min) (at_pc c' (pc c + 1)) :: S) n') P) ->
  leads (Machine Run c S n) P.
Proof.
  intros Hq H1 H2 H3. destruct (greedy_quant_spec _ _ _ _ _ Hq) as [F HF]. pose proof (quant_op _ _ _ _ _ Hq) as Hop.
  assert (forall fuel, (F <= fuel)%nat -> exec_step s lre_realloc fuel (call fuel) false (Machine Run c S n) =
    (r ← greedy_quant s lre_realloc fuel (call fuel) (Machine Run (next_pc c) S n);
     Some (match r with inl (Some m) => inl m | inl None => inl (Machine (Back false) c S n) | inr e => inr e end))) as Hstep by (intros fuel _; unfold exec_step; cbn [mode_of]; unfold opcode_step; cbn [core_of]; by rewrite Hop).
  destruct (Z.lt_trichotomy q quant_min) as [Hlt|[Heq|Hgt]].
  - eapply leads_step; [|by apply H1]. exists F. intros fuel Hfuel. rewrite Hstep, HF by done. cbv zeta. replace (q <? quant_min) with true by lia. done.
  - eapply leads_step; [|by apply H2]. exists F. intros fuel Hfuel. rewrite Hstep, HF by done. cbv zeta. replace (q <? quant_min) with false by lia. by replace (q >? quant_min) with false by lia.
  - assert (forall fuel, (F <= fuel)%nat -> exec_step s lre_realloc fuel (call fuel) false (Machine Run c S n) = Some (push_state s lre_realloc (Machine Run c' S n) (at_pc c' (pc c + 1)) RE_EXEC_STATE_GREEDY_QUANT (q - quant_min) (at_pc c' (pc c + 17 + s32 next_pos)))) as Hpush.
    { intros fuel Hfuel. rewrite Hstep, HF by done. cbv zeta. replace (q <? quant_min) with false by lia. replace (q >? quant_min) with true by lia. by destruct (push_state _ _ _ _ _ _ _). }
    unfold push_state in Hpush. destruct (grow_states s lre_realloc (Machine Run c' S n)) as [n'|] eqn:E.
    + eapply leads_step; [exists F; exact Hpush|]. by apply H3.
    + exists (Machine Run c S n). split; [done|]. right. split; [exists F; exact Hpush|]. unfold grow_states in E. cbn [states states_size] in E. destruct (zlen S + 1 >? n); [|done].
      match type of E with (if lre_realloc ?x then _ else _) = _ => exists x; by destruct (lre_realloc x) end.
Qed.

(** The interpreter implements the evaluation. *)
Definition task_machine (t : task) (m : machine) (S : list REExecState) : Prop :=
  match t with
  | T_run c => mode_of m = Run /\ core_of m = c /\ states m = S
  | T_quant sv k => mode_of m = Back false /\ states m = ExecState RE_EXEC_STATE_GREEDY_QUANT k sv :: S
  end.

Lemma back_step_at m ret : mode_of m = Back ret -> forall m', back_step s ret m = Some (inl m') -> mstep m m'.
Proof. intros Hm m' E. exists O. intros fuel _. unfold exec_step. by rewrite Hm. Qed.

Lemma leads_back m ret m' P : mode_of m = Back ret -> back_step s ret m = Some (inl m') -> leads m' P -> leads m P.
Proof. intros Hm E HP. eapply leads_step; [by eapply back_step_at|done]. Qed.

(** *** What a result does to the choice point on top of the stack *)

Lemma pop_true rs S x m : finished (rs :: S) (Some x) m -> rs_type rs = RE_EXEC_STATE_SPLIT \/ rs_type rs = RE_EXEC_STATE_GREEDY_QUANT -> leads m (finished S (Some x)).
Proof. destruct m as [mo c st n], rs as [ty k sv]. intros (Es & Em & Ec) Ht. cbn in *. subst. eapply (leads_back _ true); [done|unfold back_step; cbn; by destruct Ht as [-> | ->]|]. by apply leads_here. Qed.

Lemma split_false sv S m P : finished (ExecState RE_EXEC_STATE_SPLIT 0 sv :: S) None m -> (forall n, leads (Machine Run sv S n) P) -> leads m P.
Proof. destruct m as [mo c st n]. intros (Es & Em) HP. cbn in *. subst. eapply (leads_back _ false); [done..|]. apply HP. Qed.

Lemma look_true sv S x m P : finished (ExecState RE_EXEC_STATE_LOOKAHEAD 0 sv :: S) (Some x) m -> (forall n, leads (Machine Run (with_capture sv (capture x)) S n) P) -> leads m P.
Proof. destruct m as [mo c st n]. intros (Es & Em & Ec) HP. cbn in *. subst. eapply (leads_back _ true); [done..|]. apply HP. Qed.

Lemma look_false sv S m : finished (ExecState RE_EXEC_STATE_LOOKAHEAD 0 sv :: S) None m -> leads m (finished S None).
Proof. destruct m as [mo c st n]. intros (Es & Em). cbn in *. subst. eapply (leads_back _ false); [done..|]. by apply leads_here. Qed.

Lemma neg_false sv S m P : finished (ExecState RE_EXEC_STATE_NEGATIVE_LOOKAHEAD 0 sv :: S) None m -> (forall n, leads (Machine Run sv S n) P) -> leads m P.
Proof. destruct m as [mo c st n]. intros (Es & Em) HP. cbn in *. subst. eapply (leads_back _ false); [done..|]. apply HP. Qed.

Lemma neg_true sv S x m : finished (ExecState RE_EXEC_STATE_NEGATIVE_LOOKAHEAD 0 sv :: S) (Some x) m -> leads m (finished S None).
Proof. destruct m as [mo c st n]. intros (Es & Em & Ec). cbn in *. subst. eapply (leads_back _ true); [done..|]. by apply leads_here. Qed.

Lemma greedy_false sv k c sv' S m P : mode_of m = Back false -> states m = ExecState RE_EXEC_STATE_GREEDY_QUANT k sv :: S -> shorter sv = Some (c, sv') ->
  (forall n, leads (Machine Run c (if u64 (k - 1) =? 0 then S else ExecState RE_EXEC_STATE_GREEDY_QUANT (u64 (k - 1)) sv' :: S) n) P) -> leads m P.
Proof.
  destruct m as [mo c0 st n]. cbn. intros -> -> Hsh HP. unfold shorter in Hsh. destruct (get_u32 (bc s) (pc sv + 12)) as [cc|] eqn:E1; [|done]. cbn in Hsh. destruct (prev_chars s (Z.to_nat cc) (cptr sv)) as [p|] eqn:E2; [|done]. cbn in Hsh.
  destruct (get_u32 (bc s) (pc sv)) as [np|] eqn:E3; [|done]. injection Hsh as <- <-. eapply (leads_back _ false); [done| |apply (HP n)]. unfold back_step. cbn. rewrite E1. cbn. rewrite E2. cbn. by rewrite E3.
Qed.

(** *** The simulation *)

Lemma run_split fuel c op v c1 c2 S n : fetch s c = Some op -> get_u32 (bc s) (pc c + 1) = Some v -> split_branches op (next_pc c) v = Some (c1, c2) ->
  exec_step s lre_realloc fuel (call fuel) false (Machine Run c S n) = Some (push_state s lre_realloc (Machine Run c S n) c2 RE_EXEC_STATE_SPLIT 0 c1).
Proof. intros Hf Hv Hb. unfold exec_step. cbn [mode_of]. unfold opcode_step. cbn [core_of]. rewrite Hf. cbn. destruct op; try done; cbn in Hb; injection Hb as <- <-; by rewrite Hv. Qed.

Lemma run_look fuel c op v S n : fetch s c = Some op -> get_u32 (bc s) (pc c + 1) = Some v -> op = REOP_lookahead \/ op = REOP_negative_lookahead ->
  exec_step s lre_realloc fuel (call fuel) false (Machine Run c S n) =
    Some (push_state s lre_realloc (Machine Run c S n) (at_pc c (pc c + 5 + s32 v)) (match op with REOP_lookahead => RE_EXEC_STATE_LOOKAHEAD | _ => RE_EXEC_STATE_NEGATIVE_LOOKAHEAD end) 0 (at_pc c (pc c + 5))).
Proof.
  intros Hf Hv Hop. unfold exec_step. cbn [mode_of]. unfold opcode_step. cbn [core_of]. rewrite Hf. cbn. replace (pc c + 1 + 4) with (pc c + 5) by lia. destruct Hop as [-> | ->]; cbn; by rewrite Hv.
Qed.

Lemma eval_machine t r : eval t r -> forall m S, task_machine t m S -> leads m (finished S r).
Proof.
  assert (forall c m S, task_machine (T_run c) m S -> m = Machine Run c S (states_size m)) as Hm0 by (intros c [] S; cbn; by intros (-> & -> & ->)).
  induction 1 as [c Hf|c op c' r Hf Hs He IH|c op Hf Hs|c op v c1 c2 x Hf Hv Hb He IH|c op v c1 c2 r Hf Hv Hb He1 IH1 He2 IH2|c v x r Hf Hv He1 IH1 He2 IH2|c v Hf Hv He IH|c v r Hf Hv He1 IH1 He2 IH2|c v x Hf Hv He IH
    |c np qm c' q Hq Hlt|c np qm c' r Hq He IH|c np qm c' q x Hq Hlt He IH|c np qm c' q r Hq Hlt He1 IH1 He2 IH2|sv k c sv' x Hsh He IH|sv k c sv' Hsh Hk He IH|sv k c sv' r Hsh Hk He1 IH1 He2 IH2]; intros m S Hm; try (rewrite (Hm0 _ _ _ Hm); clear Hm).
  - apply (leads_step _ (Machine (Back true) (next_pc c) S (states_size m))); [|by apply leads_here]. exists O. intros fuel _. unfold exec_step. cbn [mode_of]. unfold opcode_step. cbn [core_of]. by rewrite Hf.
  - eapply leads_step; [by eapply (step_simple _ _ (Next c'))|]. by apply IH.
  - eapply leads_step; [by eapply (step_simple _ _ No_match)|]. by apply leads_here.
  - eapply step_push; [intros fuel; by eapply run_split|]. intros n. eapply leads_trans; [by apply IH|]. intros m' Hm'. eapply pop_true; [done|by left].
  - eapply step_push; [intros fuel; by eapply run_split|]. intros n. eapply leads_trans; [by apply IH1|]. intros m' Hm'. eapply split_false; [done|]. intros n'. by apply IH2.
  - eapply step_push; [intros fuel; eapply run_look; [done|done|by left]|]. intros n. eapply leads_trans; [by apply IH1|]. intros m' Hm'. eapply look_true; [done|]. intros n'. by apply IH2.
  - eapply step_push; [intros fuel; eapply run_look; [done|done|by left]|]. intros n. eapply leads_trans; [by apply IH|]. intros m' Hm'. by eapply look_false.
  - eapply step_push; [intros fuel; eapply run_look; [done|done|by right]|]. intros n. eapply leads_trans; [by apply IH1|]. intros m' Hm'. eapply neg_false; [done|]. intros n'. by apply IH2.
  - eapply step_push; [intros fuel; eapply run_look; [done|done|by right]|]. intros n. eapply leads_trans; [by apply IH|]. intros m' Hm'. by eapply neg_true.
  - eapply step_quant; [done| |lia|lia]. intros _. by apply leads_here.
  - eapply step_quant; [done|lia| |lia]. intros _. by apply IH.
  - eapply step_quant; [done|lia|lia|]. intros _ n. eapply leads_trans; [by apply IH|]. intros m' Hm'. eapply pop_true; [done|by right].
  - eapply step_quant; [done|lia|lia|]. intros _ n. eapply leads_trans; [by apply IH1|]. intros m' [Es Em]. by apply IH2.
  - destruct Hm as [Hmo Hst]. eapply greedy_false; [done..|]. intros n. eapply leads_trans; [by apply IH|]. intros m' Hm'. destruct (u64 (k - 1) =? 0); [by apply leads_here|]. eapply pop_true; [done|by right].
  - destruct Hm as [Hmo Hst]. eapply greedy_false; [done..|]. intros n. rewrite Hk. cbn. by apply IH.
  - destruct Hm as [Hmo Hst]. eapply greedy_false; [done..|]. intros n. replace (u64 (k - 1) =? 0) with false by lia. eapply leads_trans; [by apply IH1|]. intros m' [Es Em]. by apply IH2.
Qed.

(** The end of a run: enough fuel gives the result. *)
Lemma rtc_loop m m' : rtc mstep m m' -> forall res, (exists F, forall fuel, (F <= fuel)%nat -> exec_step s lre_realloc fuel (call fuel) false m' = Some (inr res)) ->
  exists F, forall fuel k, (F <= fuel)%nat -> (F <= k)%nat -> loop k (exec_step s lre_realloc fuel (call fuel) false) m = Some res.
Proof.
  intros Hr res [F0 HF0]. induction Hr as [m|m m1 m' [F1 H1] _ IH].
  - exists (Datatypes.S F0). intros fuel [|k] Hfuel Hk; [lia|]. cbn [loop]. by rewrite HF0 by lia.
  - destruct (IH HF0) as [F HF]. exists (Datatypes.S (F + F1)). intros fuel [|k] Hfuel Hk; [lia|]. cbn [loop]. rewrite H1 by lia. apply HF; lia.
Qed.

Lemma eval_exec c r : eval (T_run c) r -> exists F, forall fuel, (F <= fuel)%nat ->
  match lre_exec_backtrack s lre_realloc 2 fuel false (Machine Run c [] 0) with
  | Some (R_match m) => r = Some (core_of m)
  | Some (R_fail m) => r = None
  | Some R_error => refused
  | None => False
  end.
Proof.
  intros He. destruct (eval_machine _ _ He (Machine Run c [] 0) []) as (m & Hr & [[Es Hfin]|[Hoom Href]]); [done| |].
  - destruct (rtc_loop _ _ Hr (match r with Some _ => R_match m | None => R_fail m end)) as [F HF].
    { exists O. intros fuel _. unfold exec_step. destruct r as [x|]; [destruct Hfin as [-> _]|rewrite Hfin]; unfold back_step; by rewrite Es. }
    exists F. intros fuel Hfuel. change (lre_exec_backtrack s lre_realloc 2 fuel false (Machine Run c [] 0)) with (loop fuel (exec_step s lre_realloc fuel (call fuel) false) (Machine Run c [] 0)). rewrite HF by done. destruct r as [x|]; [by destruct Hfin as [_ ->]|done].
  - destruct (rtc_loop _ _ Hr R_error Hoom) as [F HF]. exists F. intros fuel Hfuel. change (lre_exec_backtrack s lre_realloc 2 fuel false (Machine Run c [] 0)) with (loop fuel (exec_step s lre_realloc fuel (call fuel) false) (Machine Run c [] 0)). by rewrite HF.
Qed.
End sem.

(** C14. The matcher implements the semantics of the bytecode: when the evaluation of
    the program from the start index has a result, [lre_exec] terminates, returns 1
    with the captures of the match or 0 according to it, and returns -1 only when an
    allocation of the stack of choice points was refused. *)
Theorem lre_exec_implements_eval lre_realloc bc_buf cbuf cindex cbuf_type s r :
  exec_context bc_buf cbuf cbuf_type = Some s -> eval s (T_run (start_core s cindex)) r ->
  exists F, forall fuel, (F <= fuel)%nat ->
    match r with
    | Some x => lre_exec lre_realloc fuel bc_buf cbuf cindex cbuf_type = Some (1, capture x)
    | None => exists l, lre_exec lre_realloc fuel bc_buf cbuf cindex cbuf_type = Some (0, l)
    end \/ lre_exec lre_realloc fuel bc_buf cbuf cindex cbuf_type = Some (-1, []) /\ refused lre_realloc.
Proof.
  intros Hs He. destruct (eval_exec s lre_realloc _ _ He) as [F HF]. exists F. intros fuel Hfuel. specialize (HF fuel Hfuel). unfold lre_exec. rewrite Hs. cbn [mbind option_bind].
  destruct (lre_exec_backtrack _ _ _ _ _ _) as [[m|m|]|]; [subst r|subst r| |done]; cbn [mbind option_bind]; [left..|right]; eauto.
Qed.

(** The bytecode of [/(?:a|b)+?c/], without the search loop in front. *)
Definition demo_bytecode : list Z :=
  [0; 1; 0; 27; 0; 0; 0; 11; 0; 9; 8; 0; 0; 0; 1; 97; 0; 7; 3; 0; 0; 0; 1; 98; 0; 9; 235; 255; 255; 255; 1; 99; 0; 12; 0; 10].

Definition demo_context : REExecContext := Eval vm_compute in default (ExecContext [] (Text [] 0) 0 0 false false false) (exec_context demo_bytecode [98; 99] 0).

Lemma lre_exec_implements_eval_witness :
  exists F, forall fuel, (F <= fuel)%nat -> lre_exec (fun _ => true) fuel demo_bytecode [98; 99] 0 0 = Some (1, [Some 0; Some 2]) \/
    lre_exec (fun _ => true) fuel demo_bytecode [98; 99] 0 0 = Some (-1, []) /\ refused (fun _ => true).
Proof.
  apply (lre_exec_implements_eval (fun _ => true) demo_bytecode [98; 99] 0 0 demo_context (Some (Core 36 2 [Some 0; Some 2] []))); [vm_compute; reflexivity|].
  eapply ev_next; [vm_compute; reflexivity..|]. eapply ev_split_second; [vm_compute; reflexivity..| |].
  - eapply ev_fail; vm_compute; reflexivity.
  - eapply ev_next; [vm_compute; reflexivity..|]. eapply ev_split_first; [vm_compute; reflexivity..|].
    eapply ev_next; [vm_compute; reflexivity..|]. eapply ev_next; [vm_compute; reflexivity..|]. apply ev_match. vm_compute. reflexivity.
Defined.

(** A match that starts between the units of a surrogate pair can end before it
    starts: [/.?(?!$)/uy] at index 1 of U+1D306.  The simple quantifier goes back by
    characters, over the whole pair. *)
Example surrogate_backtrack :
  lre_exec (fun _ => true) 100 [48; 1; 0; 31; 0; 0; 0; 11; 0; 28; 2; 0; 0; 0; 0; 0; 0; 0; 1; 0; 0; 0; 1; 0; 0; 0; 3; 10; 24; 2; 0; 0; 0; 6; 10; 12; 0; 10] [55348; 57094] 1 1 =
    Some (1, [Some 1; Some 0]).
Proof. vm_compute. reflexivity. Qed.
